(* ===== verification/_CoqProject ===== *)
-Q . S2P
Prelude.v
Protocol.v
ByteRanges.v
Files.v
ArtifactStore.v
ArtifactLts.v
ArtifactTheorems.v
ArtifactUpload.v
ArtifactResume.v
Operations.v
LogBuffer.v
RetainedStore.v
Frames.v
Session.v
Text.v
IpAddr.v
Ipc.v
Supervisor.v
ManagerControl.v
SupervisorLts.v
Paths.v
Tree.v
TreeFacts.v
Manifest.v
Launch.v
Orchestrator.v
Deploy.v
Component.v
Bridge.v
PluginOrder.v
Plugins.v
LocalIpc.v
Runner.v
RunnerProcess.v
LogForward.v
Runtime.v
HttpRuntime.v
Client.v
Config.v
ConfigTheorems.v
ConfigDemo.v
RemoteRpc.v
RemoteTheorems.v
RemoteDemo.v
BuildConfig.v
OutboundNormal.v
BuildTheorems.v
BuildDemo.v
