(* ===== verification/Prelude.v ===== *)
(** * Verification of imago

    imago deploys WebAssembly components to devices.  A client uploads an artifact to the
    daemon imagod and sends it commands; the daemon unpacks the artifact into a release,
    starts a runner process for it and supervises the process; the runner links the component
    with its plugins and its bindings to other services and runs it.  This library models the
    daemon, the runner, the client's build of a project and its upload, and the protocol between
    them, and proves what they promise.

    ** The parts and how they interact

    The client reads a project file [imago.toml] and writes a manifest and the component for the
    node ([imago-cli/src/commands/build]).  A client talks to the daemon in length-prefixed CBOR
    frames ([codec.rs]).  The session
    loop ([session_loop.rs]) establishes who the peer is and what its role may send, and the
    router ([router.rs]) hands each request to a handler.  Uploads go to the artifact store
    ([artifact_store.rs]), which keeps one session per upload with the byte ranges received so
    far.  Commands are registered in the operation table ([operation_state.rs]) and executed by
    the orchestrator ([orchestrator.rs]): it takes a committed artifact from the store, unpacks
    it, checks the manifest, builds a launch and asks the supervisor
    ([service_supervisor.rs]) to replace the running service, with a rollback on failure.  The
    supervisor spawns a runner process, sends it a bootstrap ([ipc/mod.rs]), waits until the
    runner reports on the control socket ([manager_control.rs]) and keeps its log
    ([log_buffer.rs]; after the end of the service [retained_file_store.rs]), which clients
    follow as streams or datagrams ([logs_forwarder.rs]).

    The daemon reads its limits and keys from [imagod.toml] ([imagod-config]), which it creates
    on its first boot, and keeps in the same file the keys of the clients and of the other nodes
    it trusts.  A call to a service of another node goes over a session that the daemon opens as a
    client of that node ([remote_rpc.rs]); the key a node presents the first time is pinned.

    The runner ([runner_process.rs], [imagod-runtime-control]) registers with the manager, sends
    heartbeats and serves calls on its own socket.  It orders the plugins of the service,
    instantiates them and links the component ([plugin_resolver.rs], [capability_checker.rs]),
    carries values and resources across components ([rpc_values.rs], [plugin_resolver.rs]), and
    runs the component as a command, for calls of other services ([rpc_bridge.rs],
    [runtime_entry.rs]) or behind an HTTP ingress ([imagod-runtime-ingress],
    [http_supervisor.rs]).

    ** Files

    Source paths are below [src/crates].

    - [Prelude]: results and the error monad, machine integers, ordered iteration over maps,
      byte strings, tactics and hints shared by all files.
    - [Protocol]: [imago-protocol] and [imagod-common]: error codes, every message with its
      [Validate] instance, the envelope.
    - [ByteRanges]: [artifact_store/commit.rs], interval arithmetic of an upload.
    - [Files]: the flat directory of artifact files, operation by operation.
    - [ArtifactStore]: [artifact_store.rs], [session_index.rs], [chunk_pipeline.rs]: the
      sessions and the handlers prepare, push, commit, committed_artifact, release.
      [ArtifactLts] interleaves them: a step is one locked block or one file operation of one
      request, which may fail or be cancelled.  [ArtifactTheorems] and [ArtifactUpload] hold the
      theorems about interleavings and about uninterrupted uploads; [ArtifactResume] says what
      repeated requests find.
    - [Operations]: the operation table and the handlers of commands ([operation_state.rs],
      [router.rs]) as interleaved tasks.
    - [LogBuffer]: [log_buffer.rs].  [RetainedStore]: [retained_file_store.rs].
    - [Frames]: the frame codec and the readers of a stream ([codec.rs], [session_loop.rs]).
    - [Session]: peers, roles, request parsing, dispatch and every handler
      ([protocol_handler.rs], [session_loop.rs], [envelope_io.rs], [router.rs]).
    - [Text], [IpAddr], [Paths]: what the source uses of the string, address and path types of
      the Rust standard library.
    - [Ipc]: [imagod-ipc/src/ipc/mod.rs]: bootstrap and control messages, outbound rules,
      manager proofs and invocation tokens; the table of built-in plugins.
    - [Supervisor]: [service_supervisor.rs] and [runner_spawn.rs], the state and one function
      for every section that runs under a lock.  [ManagerControl]: [manager_control.rs] and the
      table of remote connections of [remote_rpc.rs].  [SupervisorLts]: start, replace, stop,
      stop_all, reap_finished and the control requests as tasks whose locked sections
      interleave with each other and with processes that exit.
    - [Tree], [TreeFacts]: the file system as a tree, the operations of [tokio::fs] on it with
      injected faults, and frame lemmas that say where a program writes.
    - [Manifest]: [orchestrator/manifest.rs], [launch_builder.rs] and [plugin_cache.rs]:
      validation and normalization of a manifest, the plugin cache, the launch of a release.
    - [Launch]: the launch meets the bootstrap that the runner validates.
    - [Orchestrator]: [orchestrator.rs] and the garbage collection of [plugin_cache.rs]: deploy,
      run, stop, boot restore, the service list and the gate that serializes commands of one
      service.  [Deploy]: the theorems about deploy.
    - [Component]: [rpc_values.rs], values, types and payloads of calls.  [Bridge]: signatures
      and resources across components ([plugin_resolver.rs], the resource table of
      [imagod-runtime-wasmtime/src/lib.rs]).
    - [PluginOrder], [Plugins]: [plugin_resolver.rs], [capability_checker.rs] and
      [native_plugins/registry.rs]: the order of plugins, what backs an import, and the linker
      as a list of operations.
    - [LocalIpc]: [dbus_p2p.rs], framed messages on local sockets.
    - [Runner]: [imagod-runtime-control] and [rpc_bridge.rs]: inbound requests, connections and
      calls of one runner to another through the manager of [ManagerControl].
    - [RunnerProcess]: [runner_process.rs], [imagod-runtime-bootstrap] and the heartbeats.
    - [LogForward]: [logs_forwarder.rs].
    - [Runtime]: [runtime_entry.rs] and the shims of [plugin_resolver.rs]: contexts, linking,
      running and calling a component.
    - [HttpRuntime]: [imagod-runtime-ingress] and [http_supervisor.rs]: requests, responses, the
      bounded queue and the worker as a transition system.
    - [Client]: [imago-cli/src/commands/deploy/mod.rs]: the upload of a deployment, run against
      the handlers of [ArtifactStore] and [Session] over a connection with faults.
    - [Config]: [imagod-config/src/lib.rs] and [load]: the typed configuration, its validation,
      loading, the first boot, the two updates of the pinned keys, and how [run_manager] of
      [imagod/src/manager_runtime.rs] hands the values to the store and the supervisor.
      [ConfigTheorems] holds its theorems, [ConfigDemo] a concrete TOML crate and the witnesses.
    - [RemoteRpc]: [remote_rpc.rs]: authorities, the check of the server key, sessions and calls.
      [RemoteTheorems] and [RemoteDemo] hold the theorems and the witnesses; a call is run
      against the session handlers of [Session] on the other node.
    - [BuildConfig]: the sections of a project file that the client reads into a manifest, its
      check of the capability rules and the component stored by its digest
      ([build/mod.rs], [build/validation.rs], [build/config_parse], [build/manifest_hash.rs]).
      [OutboundNormal] compares its outbound rules with those of [Ipc]; [BuildTheorems] composes
      the build with the launch of [Manifest] and with the capability check of [Plugins];
      [BuildDemo] holds the witnesses.

    ** How code becomes definitions

    A function that may fail returns [result]; [x ← m; k] is the question mark operator.
    Handlers pass their state explicitly.  Asynchronous code is cut where it gives up a lock or
    awaits: each piece is one step of a transition function on a world that holds the shared
    state and the tasks, and a run is a list of labels.  What the code does not determine
    (clock, random identifiers, faults of system calls, the branch of a [select!], a process
    that exits) is an argument or part of a label, so the theorems hold for every outcome.
    Integers are [Z] in the range of their Rust type, with saturating and wrapping operations
    written out.  Strings are byte strings in UTF-8.

    Crates are parameters: class [Crates] for hashing and UUIDs, [Serde] and [Semver] for the
    session, [Json] and [ManifestCrates] for serde_json and wasmparser, [TokenCrates] for HMAC,
    CBOR and text encodings of tokens, [Tar] for archives, [PayloadCbor], [MessageCodec] and
    [LogCbor] for the encodings of calls and logs, [Engine], [EngineCalls] and [ResourceHandles]
    for wasmtime, [Hyper] for HTTP messages, [TomlCrate] for toml, [NetCrates] for URLs, keys in
    PEM and DER and hexadecimal text, [RpcSerde] for the messages of remote calls and [BuildJson]
    for the JSON numbers the client writes; a record [Network] says what QUIC and TLS did.  What
    is on the other end of a session is a state machine: [Peer] for one remote call, which keeps
    its state from stream to stream, and [RemoteWorld] for the manager, whose answers may depend
    on all calls made before.  Their documented behaviour is stated by the
    classes ending in [Laws], and every theorem that uses one has a witness with a concrete
    instance.  Components
    meet at classes too: the orchestrator sees the artifact store as [ArtifactSource], with the
    instance [node_source] for the store of [ArtifactStore] and its laws proved, the retained
    logs as [Retained] and the supervisor as [SupervisorOps]; the session sees the stores behind
    it as [Backend].

    ** Theorems

    - Uploads.  Received ranges are the canonical union of the chunks, missing ranges its
      complement, and sending what is missing completes the upload.  In every interleaving a
      committed artifact has the announced digest and its file never changes; pushes and
      commits of one session exclude each other; the idempotency index is exact; collection
      removes only what it may and bounds what remains.  Without cancellation the store returns
      to a state in which complete uploads can be committed.
    - Commands.  A cancelled command never runs and a command that runs is never reported as
      cancelled; events come in the order of the protocol; the table drains.
    - Logs.  The ring holds exactly the last bytes, tails are the last lines; retained snapshots
      survive updates and restarts; eviction terminates and removes no more than needed.
    - Server.  Frames are decoded exactly; a local peer gets one bounded request; remote peers
      get an error unless their key is registered and they send a hello or a call; only valid
      requests act; responses correlate.
    - Runner contract.  Outbound rules are accepted exactly when they follow a grammar of their
      text and authorize exactly what that text stands for; tokens verify exactly when authentic;
      control requests act, and other hosts are asked, only with the proof of the runner they
      name, and then do one thing.
    - Supervisor.  While processes that are told to die do so, all interleavings refine a
      machine with at most one registered process per service, and every live process is
      registered or held by exactly one task.
    - Deployment.  Normalized paths stay below their directory; a bootstrap built from an
      accepted manifest passes the runner's validation except for three kinds of blank names; a
      deployment of a service that is not called [.], whatever fails, changes only its own
      service, staging area and the plugin cache, and the active release it leaves is, when the
      records can be written, the old one after a failure and the accepted one after a success.
    - Runner.  Plugins are ordered exactly when they can be; signatures match exactly; values and
      resources come back from a plugin as they were; payloads decode to what was encoded.  A
      plugin and the component itself get no function their policies do not list and no file or
      socket the manifest does not declare, with the declared protocols only.  A call of a bound
      service applies the export of the other component to the values passed, whatever types the
      caller imports it at, and returns its value; an export of bytes gets the encoded values.
      Heartbeats and the life of a runner follow their protocol, its tasks being told to stop
      before they are awaited, and every HTTP request that was queued is answered.
    - Log forwarding.  Clients get complete logs, and every datagram fits.
    - Client and node.  An upload over a connection that fails at most three times succeeds, and
      whatever happens success means that the node serves the artifact.
    - Configuration.  A configuration that loads fits the store, the clients' checks and the
      supervisor; an update of the pinned keys is atomic whatever fails; the first boot creates
      a configuration that every later boot loads.
    - Remote calls.  Connections made one after the other accept one key per authority; a call
      asks the orchestrator of the other node exactly once and answers what it answers.
    - Builds.  What the client builds is what the node starts, except for three spellings that the
      two sides read differently; both sides agree on every outbound rule; the component is stored
      under the digest of its content whatever a broken build left; a capability rule passes the
      build and the runner exactly when it is the wildcard or the name of a function, so a rule
      that names an interface builds and is refused when the component is linked.
    - Nine theorems show where the code does not do what it means to: leaked upload
      files, a session blocked by a cancelled push, an operation leaked by a failed write, a
      legacy snapshot given to another service, a runner lost by a failed stop, a binding
      with a version whose calls are always refused, a service named with a single dot whose
      deployment wipes all services, a pinned key lost by two overlapping updates, and two
      overlapping first connections that trust two keys for one authority.

    ** Fuel and bounds

    The eviction loop of the retained store runs on one unit of fuel more than its index has
    entries, and the theorem shows that more fuel changes nothing.  The frame decoder and the
    reader of a local stream consume at least a header of four bytes per round and run on one
    unit more than the length of their input; the lemma [decode_loop_enough] and the theorem
    on local requests show that this is enough.  Numbers are printed with as many digits as
    their type needs.  A tree is a finite map from paths, so removing or moving a directory is
    one operation on the map.  The order of plugins runs on one unit of fuel more than there are
    dependencies, the chunks of a log and of an upload on as many as there are bytes, and their
    theorems show that this is enough.  All other loops are folds over finite lists or maps.

    ** Not modelled

    - CBOR, TOML and JSON encodings (serde), TLS and QUIC (rustls, quinn, web-transport), D-Bus
      (zbus) and the handle table of the engine (wasmtime): third-party code behind the parameters
      above.  What the client writes as a manifest is taken to be what the node reads.
    - Closing the session of a remote call, and the JSON schema of the configuration.
    - In a [Tree] the parts [..] of a path are not resolved and there are no links; relative
      paths start at the top of the tree.
    - The command line, the main loop, installation and self update of the daemon ([imagod]), and
      the transport and certificates of its server.
    - The engine tuning and the epoch ticks of the runner, and the native plugins: device access
      and inference backends.
    - Of the client ([imago-cli]): the lock file and the resolution of dependencies and bindings,
      the parser of WIT worlds, targets, the build command and the digest of the manifest, what a
      [.env] file and resource providers add to the resources, and the commands other than build
      and the upload of a deployment; the release tooling ([tools]).
    - Durations: a timeout is a label that may occur at any time.  Messages on standard error
      are dropped. *)

From Stdlib Require Export ZArith Lia Ascii String.
From stdpp Require Export base gmap strings list sorting pretty fin_maps fin_sets.

#[export] Set Default Goal Selector "!".

(** ** Results

    Rust's [Result<A, E>].  The error type comes first so that [result E] is a
    monad and stdpp's [x ← m; k] is the [?] operator. *)

Inductive result (E A : Type) : Type :=
  | Ok (a : A)
  | Err (e : E).
Arguments Ok {E A} a.
Arguments Err {E A} e.

#[export] Instance result_eq_dec `{EqDecision E, EqDecision A} : EqDecision (result E A).
Proof. solve_decision. Defined.

#[export] Instance result_ret {E} : MRet (result E) := λ A a, Ok a.
#[export] Instance result_bind {E} : MBind (result E) := λ A B f m,
  match m with Ok a => f a | Err e => Err e end.
#[export] Instance result_fmap {E} : FMap (result E) := λ A B f m,
  match m with Ok a => Ok (f a) | Err e => Err e end.

(** [if !cond { return Err(e) }]. *)
Definition ensure {E} (cond : bool) (e : E) : result E unit :=
  if cond then Ok tt else Err e.

(** [opt.ok_or(e)?]. *)
Definition ok_or {E A} (o : option A) (e : E) : result E A :=
  match o with Some a => Ok a | None => Err e end.

(** [r.map_err(f)]. *)
Definition map_err {E E' A} (f : E → E') (r : result E A) : result E' A :=
  match r with Ok a => Ok a | Err e => Err (f e) end.

Definition is_ok {E A} (r : result E A) : bool :=
  match r with Ok _ => true | Err _ => false end.

Lemma bind_Ok {E A B} (m : result E A) (f : A → result E B) b :
  m ≫= f = Ok b ↔ ∃ a, m = Ok a ∧ f a = Ok b.
Proof. destruct m; naive_solver. Qed.

Lemma bind_Err {E A B} (m : result E A) (f : A → result E B) e :
  m ≫= f = Err e ↔ m = Err e ∨ ∃ a, m = Ok a ∧ f a = Err e.
Proof. destruct m; naive_solver. Qed.

Lemma ensure_Ok {E} b (e : E) u : ensure b e = Ok u ↔ b = true.
Proof. destruct b, u; naive_solver. Qed.

Lemma ensure_Err {E} b (e e' : E) : ensure b e = Err e' ↔ b = false ∧ e' = e.
Proof. destruct b; naive_solver. Qed.

Lemma ok_or_Ok {E A} (o : option A) (e : E) a : ok_or o e = Ok a ↔ o = Some a.
Proof. destruct o; naive_solver. Qed.

Lemma map_err_Ok {E E' A} (f : E → E') (r : result E A) a : map_err f r = Ok a ↔ r = Ok a.
Proof. destruct r; naive_solver. Qed.

(** [iter.map(f).collect::<Result<Vec<_>, _>>()] and the same over two zipped lists. *)
Definition try_map {E A B} (f : A → result E B) : list A → result E (list B) :=
  fix go l :=
    match l with
    | [] => Ok []
    | x :: l => y ← f x; ys ← go l; Ok (y :: ys)
    end.
Definition try_zip {E A B C} (f : A → B → result E C) : list A → list B → result E (list C) :=
  fix go xs ys {struct xs} :=
    match xs, ys with
    | x :: xs, y :: ys => z ← f x y; zs ← go xs ys; Ok (z :: zs)
    | _, _ => Ok []
    end.

Lemma try_map_Ok {E A B} (f : A → result E B) l k :
  try_map f l = Ok k ↔ Forall2 (λ x y, f x = Ok y) l k.
Proof.
  revert k. induction l as [|x l IH]; intros k; simpl.
  { split; [by intros [= <-]|]. intros ->%Forall2_nil_inv_l. done. }
  rewrite bind_Ok. split.
  - intros (y & Hy & Hl). apply bind_Ok in Hl as (ys & Hys & [= <-]).
    constructor; [done|]. by apply IH.
  - intros Hf. apply Forall2_cons_inv_l in Hf as (y & ys & Hy & Hys & ->).
    exists y. split; [done|]. apply bind_Ok. exists ys. split; [by apply IH|done].
Qed.

Lemma try_zip_Ok {E A B C} (f : A → B → result E C) xs ys zs :
  length xs = length ys →
  try_zip f xs ys = Ok zs ↔ Forall3 (λ x y z, f x y = Ok z) xs ys zs.
Proof.
  revert ys zs. induction xs as [|x xs IH]; intros [|y ys] zs Hl; try done; simpl.
  { split; [intros [= <-]; constructor|]. by inversion 1. }
  rewrite bind_Ok. split.
  - intros (z & Hz & Hr). apply bind_Ok in Hr as (zs' & Hzs & [= <-]).
    constructor; [done|]. apply IH; [by injection Hl|done].
  - intros Hf. inversion Hf as [|? ? z ? ? zs' Hz Hzs]; subst. exists z. split; [done|].
    apply bind_Ok. exists zs'. split; [apply IH; [by injection Hl|done]|done].
Qed.

Create HintDb imago.
Create Rewrite HintDb imago.
#[export] Hint Rewrite @bind_Ok @ensure_Ok @ok_or_Ok : imago.

(** Split a hypothesis about the success of a chain of [?]s. *)
Ltac inv_ok :=
  repeat match goal with
  | H : _ ≫= _ = Ok _ |- _ => apply bind_Ok in H as (? & ? & ?)
  | H : ensure _ _ = Ok ?u |- _ => apply ensure_Ok in H; try clear u
  | H : ok_or _ _ = Ok _ |- _ => apply ok_or_Ok in H
  | H : map_err _ _ = Ok _ |- _ => apply map_err_Ok in H
  | H : Ok _ = Ok _ |- _ => injection H as H; subst
  | H : Err _ = Ok _ |- _ => discriminate H
  | H : Ok _ = Err _ |- _ => discriminate H
  end.

(** Case analysis on every match of the goal and the hypotheses, keeping the
    equations. *)
Ltac inv_cases := repeat (case_match; simplify_eq/=).

(** Goals about [Forall] and sortedness of explicit lists. *)
Ltac solve_forall :=
  repeat match goal with
  | |- Forall _ _ => first [assumption | constructor]
  | |- StronglySorted _ _ => first [assumption | constructor]
  end; simpl; try assumption; try lia.

(** ** Machine integers

    [u64] and [usize] are [Z] in [0 .. 2^64 - 1]; the operations are Rust's
    saturating and checked ones. *)

Definition u64_max : Z := 2 ^ 64 - 1.
Definition in_u64 (z : Z) : Prop := (0 ≤ z ≤ u64_max)%Z.
Definition sat_add (a b : Z) : Z := Z.min (a + b) u64_max.
Definition sat_sub (a b : Z) : Z := Z.max (a - b) 0.
Definition checked_add (a b : Z) : option Z :=
  if (a + b <=? u64_max)%Z then Some (a + b)%Z else None.
Definition to_string (z : Z) : string := pretty z.

Declare Scope imago_scope.
Delimit Scope imago_scope with imago.
Infix "+ˢ" := sat_add (at level 50, left associativity) : imago_scope.
Infix "-ˢ" := sat_sub (at level 50, left associativity) : imago_scope.
#[export] Set Warnings "-notation-overridden,-level-tolerance".
Open Scope imago_scope.

#[export] Instance in_u64_dec z : Decision (in_u64 z).
Proof. unfold in_u64. apply _. Defined.

(** [lia] with the saturating operations unfolded. *)
Ltac ulia := unfold in_u64, sat_add, sat_sub, checked_add, u64_max in *; lia.

(** [Vec::len] as an unbounded integer. *)
Definition zlen {A} (l : list A) : Z := Z.of_nat (length l).

Lemma zlen_nonneg {A} (l : list A) : (0 ≤ zlen l)%Z.
Proof. unfold zlen. lia. Qed.
Lemma zlen_app {A} (l k : list A) : zlen (l ++ k) = (zlen l + zlen k)%Z.
Proof. unfold zlen. rewrite length_app. lia. Qed.
Lemma zlen_nil {A} : zlen (@nil A) = 0%Z.
Proof. done. Qed.
Lemma zlen_cons {A} (x : A) l : zlen (x :: l) = (1 + zlen l)%Z.
Proof. unfold zlen. simpl. lia. Qed.
#[export] Hint Rewrite @zlen_app @zlen_nil @zlen_cons : imago.
#[export] Hint Resolve zlen_nonneg : imago.

(** The last [n] elements. *)
Definition lastn {A} (n : nat) (l : list A) : list A := drop (length l - n) l.

Lemma lastn_all {A} n (l : list A) : (length l ≤ n)%nat → lastn n l = l.
Proof. intros. unfold lastn. by replace (length l - n)%nat with 0%nat by lia. Qed.

Lemma lastn_app_lastn {A} n (l k : list A) : lastn n (lastn n l ++ k) = lastn n (l ++ k).
Proof.
  unfold lastn. rewrite !length_app, length_drop.
  destruct (decide (length l ≤ n)%nat).
  { by replace (length l - n)%nat with 0%nat by lia; rewrite drop_0, Nat.sub_0_r. }
  replace (length l - (length l - n))%nat with n by lia.
  rewrite !drop_app, drop_drop, length_drop. f_equal; f_equal; lia.
Qed.

Lemma lastn_app_lastn_r {A} n (l k : list A) : lastn n (l ++ lastn n k) = lastn n (l ++ k).
Proof.
  unfold lastn. rewrite !length_app, length_drop, !drop_app, drop_drop.
  destruct (decide (length k ≤ n)%nat).
  { replace (length k - n)%nat with 0%nat by lia. by rewrite Nat.sub_0_r. }
  rewrite !(drop_ge l) by lia. simpl. f_equal. lia.
Qed.

Lemma length_lastn {A} n (l : list A) : length (lastn n l) = (length l `min` n)%nat.
Proof. unfold lastn. rewrite length_drop. lia. Qed.

Lemma lastn_fmap {A B} (f : A → B) n l : lastn n (f <$> l) = f <$> lastn n l.
Proof. unfold lastn. by rewrite length_fmap, fmap_drop. Qed.

(** ** Stable sorting

    [slice::sort_by_key] is a stable sort; insertion from the right keeps the
    relative order of equal keys. *)

Section sort.
Context {A : Type} (le : A → A → bool).

Fixpoint insert_by (x : A) (l : list A) : list A :=
  match l with
  | [] => [x]
  | y :: l' => if le x y then x :: y :: l' else y :: insert_by x l'
  end.

Definition sort_by (l : list A) : list A := foldr insert_by [] l.

Lemma insert_by_Permutation x l : insert_by x l ≡ₚ x :: l.
Proof.
  induction l as [|y l IH]; simpl; [done|].
  destruct (le x y); [done|]. rewrite IH. by constructor.
Qed.

Lemma sort_by_Permutation l : sort_by l ≡ₚ l.
Proof.
  induction l as [|x l IH]; simpl; [done|].
  by rewrite insert_by_Permutation, IH.
Qed.

Lemma elem_of_sort_by x l : x ∈ sort_by l ↔ x ∈ l.
Proof. by rewrite sort_by_Permutation. Qed.

Lemma length_sort_by l : length (sort_by l) = length l.
Proof. by rewrite sort_by_Permutation. Qed.

Context (le_total : ∀ x y, le x y = true ∨ le y x = true).
Context (le_trans : ∀ x y z, le x y = true → le y z = true → le x z = true).

Lemma insert_by_sorted x l :
  StronglySorted (λ a b, le a b = true) l →
  StronglySorted (λ a b, le a b = true) (insert_by x l).
Proof using le_total le_trans.
  induction 1 as [|y l Hl IH Hy]; simpl; [by repeat constructor|].
  destruct (le x y) eqn:Hxy.
  - repeat constructor; try done. eapply Forall_impl; [exact Hy|]. eauto.
  - constructor; [done|]. rewrite insert_by_Permutation. constructor; [|done].
    destruct (le_total x y); congruence.
Qed.

Lemma sort_by_sorted l : StronglySorted (λ a b, le a b = true) (sort_by l).
Proof using le_total le_trans.
  induction l; simpl; [constructor|]. by apply insert_by_sorted.
Qed.

(** Elements with equal keys keep their order. *)
Lemma insert_by_stable (P : A → Prop) `{∀ x, Decision (P x)} x l :
  (∀ y, P x → P y → le x y = true) →
  filter P (insert_by x l) = filter P (x :: l).
Proof.
  intros Hle. induction l as [|y l IH]; simpl; [done|].
  destruct (le x y) eqn:Hxy; [done|].
  rewrite !filter_cons, IH, filter_cons.
  destruct (decide (P x)), (decide (P y)); try done.
  by rewrite Hle in Hxy.
Qed.

Lemma sort_by_stable (P : A → Prop) `{∀ x, Decision (P x)} l :
  (∀ x y, P x → P y → le x y = true) →
  filter P (sort_by l) = filter P l.
Proof.
  intros Hle. induction l as [|x l IH]; simpl; [done|].
  rewrite insert_by_stable by eauto. by rewrite !filter_cons, IH.
Qed.

Lemma sort_by_id l : StronglySorted (λ a b, le a b = true) l → sort_by l = l.
Proof.
  induction 1 as [|x l Hl IH Hx]; simpl; [done|]. rewrite IH.
  destruct Hx as [|y l' Hxy _]; simpl; [done|]. by rewrite Hxy.
Qed.
End sort.

(** ** Ordered maps

    A [BTreeMap<String, V>] is a [gmap string V]; iteration goes through the
    keys in byte order. *)

Definition key_leb {V} (x y : string * V) : bool := String.leb x.1 y.1.
Definition btree_iter {V} (m : gmap string V) : list (string * V) :=
  sort_by key_leb (map_to_list m).
Definition btree_keys {V} (m : gmap string V) : list string := (btree_iter m).*1.

Lemma string_leb_total s t : String.leb s t = true ∨ String.leb t s = true.
Proof. apply String.leb_total. Qed.
Lemma string_leb_trans s t u :
  String.leb s t = true → String.leb t u = true → String.leb s u = true.
Proof.
  intros H1 H2. apply Is_true_true in H1, H2.
  apply Is_true_true. exact (transitivity (R := String.le) H1 H2).
Qed.

Lemma elem_of_btree_iter {V} (m : gmap string V) k v :
  (k, v) ∈ btree_iter m ↔ m !! k = Some v.
Proof. unfold btree_iter. by rewrite elem_of_sort_by, elem_of_map_to_list. Qed.

Lemma elem_of_btree_keys {V} (m : gmap string V) k :
  k ∈ btree_keys m ↔ is_Some (m !! k).
Proof.
  unfold btree_keys. rewrite list_elem_of_fmap. split.
  - intros ([k' v] & -> & Hin). apply elem_of_btree_iter in Hin. eauto.
  - intros [v Hv]. exists (k, v). by rewrite elem_of_btree_iter.
Qed.

Lemma NoDup_btree_keys {V} (m : gmap string V) : NoDup (btree_keys m).
Proof.
  unfold btree_keys, btree_iter. rewrite sort_by_Permutation.
  apply NoDup_fst_map_to_list.
Qed.

Lemma NoDup_btree_iter {V} (m : gmap string V) : NoDup (btree_iter m).
Proof. unfold btree_iter. rewrite sort_by_Permutation. apply NoDup_map_to_list. Qed.

Lemma btree_iter_sorted {V} (m : gmap string V) :
  StronglySorted (λ a b, key_leb a b = true) (btree_iter m).
Proof.
  apply sort_by_sorted; intros; unfold key_leb in *.
  - apply string_leb_total.
  - by eapply string_leb_trans.
Qed.

(** ** Strings

    A Rust [String] is the byte string of its UTF-8 encoding. *)

Definition byte := ascii.
Definition bytes_of (s : string) : list byte := String.list_ascii_of_string s.
Definition string_of_bytes (l : list byte) : string := String.string_of_list_ascii l.
Definition bstr (codes : list N) : string := string_of_bytes (ascii_of_N <$> codes).

Lemma string_of_bytes_of s : string_of_bytes (bytes_of s) = s.
Proof. apply String.string_of_list_ascii_of_string. Qed.

Lemma bytes_of_string_of_bytes l : bytes_of (string_of_bytes l) = l.
Proof. apply String.list_ascii_of_string_of_list_ascii. Qed.
Lemma bytes_of_inj s t : bytes_of s = bytes_of t → s = t.
Proof. intros E. by rewrite <-(string_of_bytes_of s), E, string_of_bytes_of. Qed.
Lemma bytes_of_app s t : bytes_of (s +:+ t)%string = bytes_of s ++ bytes_of t.
Proof. induction s as [|c s IH]; [done|]. simpl. f_equal. exact IH. Qed.
Lemma string_app_assoc (s t u : string) : (s +:+ (t +:+ u) = (s +:+ t) +:+ u)%string.
Proof. apply bytes_of_inj. rewrite !bytes_of_app. apply app_assoc. Qed.
Lemma string_app_inv_tail s t u : (s +:+ u = t +:+ u)%string → s = t.
Proof.
  intros E. apply bytes_of_inj. apply (f_equal bytes_of) in E.
  rewrite !bytes_of_app in E. by eapply app_inv_tail.
Qed.

(** [s.strip_prefix(p)]. *)
Fixpoint strip_prefix (p s : string) : option string :=
  match p, s with
  | EmptyString, _ => Some s
  | String a p', String b s' => if decide (a = b) then strip_prefix p' s' else None
  | String _ _, EmptyString => None
  end.

Definition starts_with (p s : string) : bool := bool_decide (is_Some (strip_prefix p s)).
Definition ends_with (p s : string) : bool := starts_with (String.rev p) (String.rev s).

(** [s.contains(p)]. *)
Fixpoint str_contains (p s : string) : bool :=
  starts_with p s ||
  match s with EmptyString => false | String _ s' => str_contains p s' end.

(** The characters of Unicode's [White_Space] property, in UTF-8. *)
Definition white_space : list string :=
  bstr <$> [[9]; [10]; [11]; [12]; [13]; [32]; [194; 133]; [194; 160];
            [225; 154; 128]; [226; 128; 128]; [226; 128; 129]; [226; 128; 130];
            [226; 128; 131]; [226; 128; 132]; [226; 128; 133]; [226; 128; 134];
            [226; 128; 135]; [226; 128; 136]; [226; 128; 137]; [226; 128; 138];
            [226; 128; 168]; [226; 128; 169]; [226; 128; 175]; [226; 129; 159];
            [227; 128; 128]]%N.

(** Drop leading occurrences of the patterns; [fuel] is the string's length, and
    every round drops at least one byte. *)
Fixpoint strip_all (fuel : nat) (pats : list string) (s : string) : string :=
  match fuel with
  | O => s
  | S fuel =>
    match omap (λ p, strip_prefix p s) pats with
    | s' :: _ => strip_all fuel pats s'
    | [] => s
    end
  end.

(** [s.trim()]. *)
Definition trim_start (s : string) : string := strip_all (String.length s) white_space s.
Definition trim_end (s : string) : string :=
  String.rev (strip_all (String.length s) (String.rev <$> white_space) (String.rev s)).
Definition trim (s : string) : string := trim_end (trim_start s).
Definition is_blank (s : string) : bool := bool_decide (trim s = "").

(** ASCII classes. *)
Definition code (c : ascii) : N := N_of_ascii c.
Definition is_ascii_digit (c : ascii) : bool := (48 <=? code c)%N && (code c <=? 57)%N.
Definition is_ascii_upper (c : ascii) : bool := (65 <=? code c)%N && (code c <=? 90)%N.
Definition is_ascii_lower (c : ascii) : bool := (97 <=? code c)%N && (code c <=? 122)%N.
Definition is_ascii_alphanumeric (c : ascii) : bool :=
  is_ascii_digit c || is_ascii_upper c || is_ascii_lower c.
Definition is_ascii_hexdigit (c : ascii) : bool :=
  is_ascii_digit c || ((65 <=? code c)%N && (code c <=? 70)%N) ||
  ((97 <=? code c)%N && (code c <=? 102)%N).

(** [s.chars().all(f)], for an [f] that is false on every non-ASCII byte. *)
Definition all_chars (f : ascii → bool) (s : string) : bool := forallb f (bytes_of s).

Lemma strip_prefix_app p s r : strip_prefix p s = Some r ↔ s = (p +:+ r)%string.
Proof.
  revert s. induction p as [|a p IH]; intros s; simpl.
  { naive_solver. }
  destruct s as [|b s]; [done|].
  change ((String a p +:+ r)%string) with (String a (p +:+ r)).
  case_decide as Hab; subst; [rewrite IH|]; naive_solver.
Qed.

Lemma all_chars_not_contains f c s :
  all_chars f s = true → f c = false → str_contains (String c "") s = false.
Proof.
  unfold all_chars. intros Hall Hc. induction s as [|b s IH]; simpl in *; [done|].
  apply andb_true_iff in Hall as [Hb Hs]. rewrite IH by done.
  unfold starts_with. simpl. case_decide; subst; [congruence|].
  by rewrite orb_false_r.
Qed.

(** A string with a printable ASCII character is not blank: trimming removes no
    character outside the white space patterns. *)
Definition is_ascii_graphic (c : ascii) : bool := (33 <=? code c)%N && (code c <=? 126)%N.

Lemma strip_all_keeps c pats : ∀ fuel s,
  Forall (λ p, c ∉ bytes_of p) pats → c ∈ bytes_of s → c ∈ bytes_of (strip_all fuel pats s).
Proof.
  induction fuel as [|fuel IH]; intros s Hp Hc; simpl; [done|].
  destruct (omap _ pats) as [|s' ?] eqn:E; [done|]. apply IH; [done|].
  assert (s' ∈ omap (λ p, strip_prefix p s) pats) as Hin by (rewrite E; constructor).
  apply list_elem_of_omap in Hin as (p & Hin & Hs). apply strip_prefix_app in Hs as ->.
  rewrite bytes_of_app, elem_of_app in Hc. rewrite Forall_forall in Hp.
  destruct Hc as [Hc|]; [|done]. by destruct (Hp p Hin).
Qed.

Lemma bytes_of_rev s : bytes_of (String.rev s) ≡ₚ bytes_of s.
Proof.
  unfold String.rev. assert (∀ acc, bytes_of (String.rev_app s acc) ≡ₚ bytes_of s ++ bytes_of acc)
    as Hgo; [|by rewrite Hgo, app_nil_r].
  induction s as [|c s IH]; intros acc; simpl; [done|].
  rewrite IH. simpl. by rewrite <-Permutation_middle.
Qed.

Lemma white_space_not_graphic c :
  is_ascii_graphic c = true →
  Forall (λ p, c ∉ bytes_of p) white_space ∧
  Forall (λ p, c ∉ bytes_of p) (String.rev <$> white_space).
Proof.
  intros Hc.
  assert (Forall (λ p, forallb (λ b, negb (is_ascii_graphic b)) (bytes_of p) = true)
    (white_space ++ (String.rev <$> white_space))) as Hall
    by (apply (bool_decide_unpack _); vm_compute; exact I).
  apply Forall_app in Hall as [H1 H2].
  split; (eapply Forall_impl; [eassumption|]); intros p Hp Hin;
    rewrite forallb_forall in Hp; specialize (Hp c (proj1 (list_elem_of_In _ _) Hin));
    by rewrite Hc in Hp.
Qed.

Lemma not_blank c s : is_ascii_graphic c = true → c ∈ bytes_of s → is_blank s = false.
Proof.
  intros Hc Hin. destruct (white_space_not_graphic c Hc) as [H1 H2].
  unfold is_blank. apply bool_decide_eq_false. intros E.
  assert (c ∈ bytes_of (trim s)) as Ht; [|rewrite E in Ht; by apply elem_of_nil in Ht].
  unfold trim, trim_end. rewrite bytes_of_rev. apply strip_all_keeps; [done|].
  rewrite bytes_of_rev. by apply strip_all_keeps.
Qed.

(** Decimal numbers. *)
Lemma pretty_N_go_digits x : ∀ s,
  all_chars is_ascii_digit s = true → all_chars is_ascii_digit (pretty_N_go x s) = true.
Proof.
  induction (N.lt_wf_0 x) as [x _ IH]. intros s Hs. destruct (decide (0 < x)%N).
  - rewrite pretty_N_go_step by done. apply IH; [by apply N.div_lt|].
    unfold all_chars in *. simpl. rewrite Hs, andb_true_r.
    unfold pretty_N_char. by repeat case_match.
  - assert (x = 0%N) as -> by lia. by rewrite pretty_N_go_0.
Qed.

Lemma pretty_N_digits (n : N) : all_chars is_ascii_digit (pretty n) = true.
Proof. unfold pretty, pretty_N. case_decide; [done|]. by apply pretty_N_go_digits. Qed.

Lemma pretty_N_go_nonempty x : ∀ s, s ≠ "" → pretty_N_go x s ≠ "".
Proof.
  induction (N.lt_wf_0 x) as [x _ IH]. intros s Hs. destruct (decide (0 < x)%N).
  - rewrite pretty_N_go_step by done. apply IH; [by apply N.div_lt|done].
  - assert (x = 0%N) as -> by lia. by rewrite pretty_N_go_0.
Qed.

Lemma pretty_N_nonempty (n : N) : pretty n ≠ "".
Proof.
  unfold pretty, pretty_N. case_decide; [done|].
  rewrite pretty_N_go_step by lia. by apply pretty_N_go_nonempty.
Qed.

Lemma digits_not_blank s : all_chars is_ascii_digit s = true → s ≠ "" → is_blank s = false.
Proof.
  destruct s as [|c s]; [done|]. intros Hd _. unfold all_chars in Hd. simpl in Hd.
  apply andb_true_iff in Hd as [Hc _]. apply (not_blank c); [|constructor].
  unfold is_ascii_digit, is_ascii_graphic in *.
  rewrite !andb_true_iff, !N.leb_le in *. lia.
Qed.

Lemma to_string_not_blank z : is_blank (to_string z) = false.
Proof.
  destruct z as [|x|x]; [done|..].
  - apply digits_not_blank; [apply pretty_N_digits|apply pretty_N_nonempty].
  - apply (not_blank "-"%char); [done|]. constructor.
Qed.

(** [Path::join] on Unix: an absolute component replaces the base. *)
Definition path_join (base component : string) : string :=
  if starts_with "/" component then component
  else if bool_decide (base = "") || ends_with "/" base then (base +:+ component)%string
  else (base +:+ "/" +:+ component)%string.

Lemma path_join_inj base c1 c2 :
  starts_with "/" c1 = false → starts_with "/" c2 = false →
  path_join base c1 = path_join base c2 → c1 = c2.
Proof.
  unfold path_join. intros -> ->.
  destruct (_ || _); intros E; repeat apply (inj (String.append _)) in E; done.
Qed.

(** ** Third-party crates

    The functions of external crates the daemon's core uses: [sha2] with [hex] (the
    lower-case hexadecimal SHA-256 of a byte string) and [uuid] (the textual form of
    a UUID).  The laws are documented behaviour: distinct UUIDs print differently,
    with hexadecimal digits and hyphens only. *)

Class Crates := {
  sha256_hex : list byte → string;
  uuid_to_string : N → string;
}.

Definition is_uuid_char (c : ascii) : bool := is_ascii_hexdigit c || bool_decide (c = "-"%char).

Class CratesLaws `{Crates} : Prop := {
  uuid_to_string_inj : Inj (=) (=) uuid_to_string;
  uuid_to_string_nonempty u : uuid_to_string u ≠ "";
  uuid_to_string_chars u : all_chars is_uuid_char (uuid_to_string u) = true;
}.

(** The textual UUIDs. *)
Definition uuid_text `{Crates} (d : string) : Prop := ∃ u, d = uuid_to_string u.

Lemma uuid_text_no_slash `{CratesLaws} d t :
  uuid_text d → starts_with "/" (d +:+ t)%string = false.
Proof.
  intros [u ->]. pose proof (uuid_to_string_nonempty u). pose proof (uuid_to_string_chars u) as Hc.
  destruct (uuid_to_string u) as [|c r]; [done|].
  unfold all_chars in Hc. simpl in Hc. apply andb_true_iff in Hc as [Hc _].
  unfold starts_with. simpl. case_decide; [by subst|done].
Qed.
