(* ===== verification/Protocol.v ===== *)
(** * Wire contracts

    [crates/imago-protocol] (error codes, the [Validate] trait, the artifact,
    command, hello and rpc payloads, the envelope) and the daemon's error type of
    [crates/imagod-common].  Every payload type is a record with the source's
    fields, every [impl Validate] an instance of the class [Validate]. *)

From S2P Require Import Prelude.

(** ** Errors *)

Inductive ErrorCode :=
  | Unauthorized | BadRequest | BadManifest | Busy | NotFound | Internal
  | IdempotencyConflict | RangeInvalid | ChunkHashMismatch | ArtifactIncomplete
  | PreconditionFailed | OperationTimeout | RollbackFailed | StorageQuota.

#[export] Instance ErrorCode_eq_dec : EqDecision ErrorCode.
Proof. solve_decision. Defined.

Record StructuredError := {
  se_code : ErrorCode;
  se_message : string;
  se_retryable : bool;
  se_stage : string;
  se_details : gmap string string;
}.

Record ImagodError := {
  err_code : ErrorCode;
  err_stage : string;
  err_message : string;
  err_retryable : bool;
  err_details : gmap string string;
}.

#[export] Instance ImagodError_eq_dec : EqDecision ImagodError.
Proof. solve_decision. Defined.

Definition new_error (code : ErrorCode) (stage message : string) : ImagodError :=
  {| err_code := code; err_stage := stage; err_message := message;
     err_retryable := false; err_details := ∅ |}.

Definition with_retryable (retryable : bool) (e : ImagodError) : ImagodError :=
  {| err_code := err_code e; err_stage := err_stage e; err_message := err_message e;
     err_retryable := retryable; err_details := err_details e |}.

Definition with_detail (key value : string) (e : ImagodError) : ImagodError :=
  {| err_code := err_code e; err_stage := err_stage e; err_message := err_message e;
     err_retryable := err_retryable e;
     err_details := <[key := value]> (err_details e) |}.

Definition to_structured (e : ImagodError) : StructuredError :=
  {| se_code := err_code e; se_message := err_message e; se_retryable := err_retryable e;
     se_stage := err_stage e; se_details := err_details e |}.

(** The daemon's [Result<T, ImagodError>]. *)
Abbreviation iresult := (result ImagodError).

(** ** Validation *)

Record ValidationError := { ve_field : string; ve_message : string }.

#[export] Instance ValidationError_eq_dec : EqDecision ValidationError.
Proof. solve_decision. Defined.

Definition ve_missing (field : string) : ValidationError :=
  {| ve_field := field; ve_message := "missing required value" |}.
Definition ve_empty (field : string) : ValidationError :=
  {| ve_field := field; ve_message := "must not be empty" |}.
Definition ve_invalid (field message : string) : ValidationError :=
  {| ve_field := field; ve_message := message |}.
Definition ve_to_string (e : ValidationError) : string :=
  ("invalid `" +:+ ve_field e +:+ "`: " +:+ ve_message e)%string.

Abbreviation vresult := (result ValidationError unit).

Class Validate (A : Type) := validate : A → vresult.

Definition ensure_non_empty (value field : string) : vresult :=
  ensure (negb (is_blank value)) (ve_empty field).

Fixpoint ensure_required_strings (fields : list (string * string)) : vresult :=
  match fields with
  | [] => Ok tt
  | (value, field) :: rest =>
    _ ← ensure_non_empty value field; ensure_required_strings rest
  end.

(** A [Uuid] is its 128-bit number; the nil UUID is 0. *)
Definition Uuid := N.
Definition is_nil_uuid (u : Uuid) : bool := (u =? 0)%N.

Definition ensure_uuid_not_nil (value : Uuid) (field : string) : vresult :=
  ensure (negb (is_nil_uuid value)) (ve_invalid field "must not be nil UUID").

Definition ensure_positive_u64 (value : Z) (field : string) : vresult :=
  ensure (negb (value =? 0)%Z) (ve_invalid field "must be greater than zero").

(** [for x in xs { x.validate()? }]. *)
Fixpoint validate_all `{Validate A} (xs : list A) : vresult :=
  match xs with [] => Ok tt | x :: rest => _ ← validate x; validate_all rest end.

Lemma validate_all_Ok `{Validate A} (xs : list A) :
  validate_all xs = Ok tt ↔ Forall (λ x, validate x = Ok tt) xs.
Proof.
  induction xs as [|x xs IH]; simpl; [done|]. rewrite Forall_cons, <-IH.
  rewrite bind_Ok. split.
  - by intros ([] & ? & ?).
  - intros [? ?]. by exists tt.
Qed.

Lemma ensure_required_strings_Ok fields :
  ensure_required_strings fields = Ok tt ↔
  Forall (λ f, is_blank f.1 = false) fields.
Proof.
  induction fields as [|[v f] fs IH]; simpl; [done|]. rewrite Forall_cons, <-IH. simpl.
  unfold ensure_non_empty. destruct (is_blank v); simpl; naive_solver.
Qed.

#[export] Instance StructuredError_validate : Validate StructuredError := λ e,
  ensure_required_strings [(se_message e, "message"); (se_stage e, "stage")].

(** ** Artifact transfer payloads ([messages/artifact.rs]) *)

Definition StringMap := gmap string string.

Inductive ArtifactStatus := Missing | Partial | Complete.

#[export] Instance ArtifactStatus_eq_dec : EqDecision ArtifactStatus.
Proof. solve_decision. Defined.

Record ByteRange := { offset : Z; range_length : Z }.

#[export] Instance ByteRange_eq_dec : EqDecision ByteRange.
Proof. solve_decision. Defined.

#[export] Instance ByteRange_validate : Validate ByteRange := λ r,
  ensure_positive_u64 (range_length r) "length".

Record DeployPrepareRequest := {
  dp_name : string;
  dp_app_type : string;
  dp_target : StringMap;
  dp_artifact_digest : string;
  dp_artifact_size : Z;
  dp_manifest_digest : string;
  dp_idempotency_key : string;
  dp_policy : StringMap;
}.

#[export] Instance DeployPrepareRequest_validate : Validate DeployPrepareRequest := λ q,
  _ ← ensure_required_strings
        [(dp_name q, "name"); (dp_app_type q, "type");
         (dp_artifact_digest q, "artifact_digest");
         (dp_manifest_digest q, "manifest_digest");
         (dp_idempotency_key q, "idempotency_key")];
  ensure_positive_u64 (dp_artifact_size q) "artifact_size".

Record DeployPrepareResponse := {
  dr_deploy_id : string;
  dr_artifact_status : ArtifactStatus;
  dr_missing_ranges : list ByteRange;
  dr_upload_token : string;
  dr_session_expires_at : string;
}.

#[export] Instance DeployPrepareResponse_validate : Validate DeployPrepareResponse := λ p,
  _ ← ensure_required_strings
        [(dr_deploy_id p, "deploy_id"); (dr_upload_token p, "upload_token");
         (dr_session_expires_at p, "session_expires_at")];
  _ ← ensure (negb (bool_decide (dr_artifact_status p = Partial) &&
                    bool_decide (dr_missing_ranges p = [])))
        (ve_missing "missing_ranges");
  validate_all (dr_missing_ranges p).

Record ArtifactPushChunkHeader := {
  ch_deploy_id : string;
  ch_offset : Z;
  ch_length : Z;
  ch_chunk_sha256 : string;
  ch_upload_token : string;
}.

#[export] Instance ArtifactPushChunkHeader_validate : Validate ArtifactPushChunkHeader := λ h,
  _ ← ensure_required_strings
        [(ch_deploy_id h, "deploy_id"); (ch_chunk_sha256 h, "chunk_sha256");
         (ch_upload_token h, "upload_token")];
  ensure_positive_u64 (ch_length h) "length".

Record ArtifactPushRequest := { pq_header : ArtifactPushChunkHeader; pq_chunk : list byte }.

#[export] Instance ArtifactPushRequest_validate : Validate ArtifactPushRequest := λ q,
  _ ← validate (pq_header q);
  ensure (negb (bool_decide (pq_chunk q = []))) (ve_empty "chunk").

Record ArtifactPushAck := {
  pa_received_ranges : list ByteRange;
  pa_next_missing_range : option ByteRange;
  pa_accepted_bytes : Z;
}.

#[export] Instance ArtifactPushAck_validate : Validate ArtifactPushAck := λ a,
  _ ← validate_all (pa_received_ranges a);
  match pa_next_missing_range a with Some next => validate next | None => Ok tt end.

Record ArtifactCommitRequest := {
  cq_deploy_id : string;
  cq_artifact_digest : string;
  cq_artifact_size : Z;
  cq_manifest_digest : string;
}.

#[export] Instance ArtifactCommitRequest_validate : Validate ArtifactCommitRequest := λ q,
  _ ← ensure_required_strings
        [(cq_deploy_id q, "deploy_id"); (cq_artifact_digest q, "artifact_digest");
         (cq_manifest_digest q, "manifest_digest")];
  ensure_positive_u64 (cq_artifact_size q) "artifact_size".

Record ArtifactCommitResponse := { cr_artifact_id : string; cr_verified : bool }.

#[export] Instance ArtifactCommitResponse_validate : Validate ArtifactCommitResponse := λ p,
  ensure_non_empty (cr_artifact_id p) "artifact_id".

(** ** Command lifecycle payloads ([messages/command.rs]) *)

Inductive CommandType := CmdDeploy | CmdRun | CmdStop.
Inductive CommandEventType := EvAccepted | EvProgress | EvSucceeded | EvFailed | EvCanceled.
Inductive CommandState := Accepted | Running | Succeeded | Failed | Canceled.

#[export] Instance CommandType_eq_dec : EqDecision CommandType.
Proof. solve_decision. Defined.
#[export] Instance CommandEventType_eq_dec : EqDecision CommandEventType.
Proof. solve_decision. Defined.
#[export] Instance CommandState_eq_dec : EqDecision CommandState.
Proof. solve_decision. Defined.

Record DeployCommandPayload := {
  dc_deploy_id : string;
  dc_expected_current_release : string;
  dc_restart_policy : string;
  dc_auto_rollback : bool;
}.
Record RunCommandPayload := { rc_name : string }.
Record StopCommandPayload := { sc_name : string; sc_force : bool }.

Inductive CommandPayload :=
  | PayloadDeploy (p : DeployCommandPayload)
  | PayloadStop (p : StopCommandPayload)
  | PayloadRun (p : RunCommandPayload).

#[export] Instance DeployCommandPayload_validate : Validate DeployCommandPayload := λ p,
  ensure_required_strings
    [(dc_deploy_id p, "deploy_id");
     (dc_expected_current_release p, "expected_current_release");
     (dc_restart_policy p, "restart_policy")].
#[export] Instance RunCommandPayload_validate : Validate RunCommandPayload := λ p,
  ensure_non_empty (rc_name p) "name".
#[export] Instance StopCommandPayload_validate : Validate StopCommandPayload := λ p,
  ensure_non_empty (sc_name p) "name".

Record CommandStartRequest := {
  cs_request_id : Uuid;
  cs_command_type : CommandType;
  cs_payload : CommandPayload;
}.

#[export] Instance CommandStartRequest_validate : Validate CommandStartRequest := λ q,
  _ ← ensure_uuid_not_nil (cs_request_id q) "request_id";
  match cs_command_type q, cs_payload q with
  | CmdDeploy, PayloadDeploy p => validate p
  | CmdRun, PayloadRun p => validate p
  | CmdStop, PayloadStop p => validate p
  | _, _ => Err (ve_invalid "payload" "payload does not match command_type")
  end.

Record CommandEvent := {
  ev_event_type : CommandEventType;
  ev_request_id : Uuid;
  ev_command_type : CommandType;
  ev_timestamp : string;
  ev_stage : option string;
  ev_error : option StructuredError;
}.

#[export] Instance CommandEvent_validate : Validate CommandEvent := λ e,
  _ ← ensure_uuid_not_nil (ev_request_id e) "request_id";
  _ ← ensure_non_empty (ev_timestamp e) "timestamp";
  _ ← (if decide (ev_event_type e = EvProgress) then
         stage ← ok_or (ev_stage e) (ve_missing "stage");
         ensure_non_empty stage "stage"
       else Ok tt);
  if decide (ev_event_type e = EvFailed) then
    err ← ok_or (ev_error e) (ve_missing "error"); validate err
  else Ok tt.

Record StateRequest := { sq_request_id : Uuid }.
#[export] Instance StateRequest_validate : Validate StateRequest := λ q,
  ensure_uuid_not_nil (sq_request_id q) "request_id".

Record StateResponse := {
  sr_request_id : Uuid;
  sr_state : CommandState;
  sr_stage : string;
  sr_updated_at : string;
}.

#[export] Instance StateResponse_validate : Validate StateResponse := λ p,
  _ ← ensure_uuid_not_nil (sr_request_id p) "request_id";
  _ ← match sr_state p with
      | Accepted | Running => Ok tt
      | Succeeded | Failed | Canceled =>
        Err (ve_invalid "state" "terminal states are not allowed for state.response")
      end;
  ensure_required_strings [(sr_stage p, "stage"); (sr_updated_at p, "updated_at")].

Record CommandCancelRequest := { cc_request_id : Uuid }.
#[export] Instance CommandCancelRequest_validate : Validate CommandCancelRequest := λ q,
  ensure_uuid_not_nil (cc_request_id q) "request_id".

Record CommandCancelResponse := { cancellable : bool; final_state : CommandState }.
#[export] Instance CommandCancelResponse_validate : Validate CommandCancelResponse := λ _, Ok tt.

Record CommandStartResponse := { accepted : bool }.
#[export] Instance CommandStartResponse_validate : Validate CommandStartResponse := λ _, Ok tt.

#[export] Instance CommandPayload_validate : Validate CommandPayload := λ p,
  match p with
  | PayloadDeploy p => validate p
  | PayloadRun p => validate p
  | PayloadStop p => validate p
  end.

(** ** Handshake ([messages/hello.rs]) *)

Record HelloNegotiateRequest := { hq_client_version : string; hq_required_features : list string }.

#[export] Instance HelloNegotiateRequest_validate : Validate HelloNegotiateRequest := λ q,
  ensure_required_strings [(hq_client_version q, "client_version")].

Record HelloNegotiateResponse := {
  hr_accepted : bool;
  hr_server_version : string;
  hr_server_protocol_version : string;
  hr_supported_protocol_version_range : string;
  hr_compatibility_announcement : option string;
  hr_features : list string;
  hr_limits : StringMap;
}.

#[export] Instance HelloNegotiateResponse_validate : Validate HelloNegotiateResponse := λ p,
  _ ← ensure_non_empty (hr_server_version p) "server_version";
  _ ← ensure_non_empty (hr_server_protocol_version p) "server_protocol_version";
  _ ← ensure_non_empty (hr_supported_protocol_version_range p)
        "supported_protocol_version_range";
  match hr_compatibility_announcement p with
  | Some announcement => ensure_non_empty announcement "compatibility_announcement"
  | None => Ok tt
  end.

(** ** RPC ([messages/rpc.rs]) *)

Record RpcInvokeTargetService := { rt_name : string }.
#[export] Instance RpcInvokeTargetService_validate : Validate RpcInvokeTargetService := λ t,
  ensure_non_empty (rt_name t) "target_service.name".

Record RpcInvokeRequest := {
  rq_interface_id : string;
  rq_function : string;
  rq_args_cbor : list byte;
  rq_target_service : RpcInvokeTargetService;
}.
#[export] Instance RpcInvokeRequest_validate : Validate RpcInvokeRequest := λ q,
  _ ← ensure_non_empty (rq_interface_id q) "interface_id";
  _ ← ensure_non_empty (rq_function q) "function";
  validate (rq_target_service q).

Record RpcInvokeError := { re_code : ErrorCode; re_stage : string; re_message : string }.
#[export] Instance RpcInvokeError_validate : Validate RpcInvokeError := λ e,
  ensure_required_strings [(re_stage e, "error.stage"); (re_message e, "error.message")].

Record RpcInvokeResponse := {
  rr_result_cbor : option (list byte);
  rr_error : option RpcInvokeError;
}.
Definition rpc_from_result (result_cbor : list byte) : RpcInvokeResponse :=
  {| rr_result_cbor := Some result_cbor; rr_error := None |}.
Definition rpc_from_error (code : ErrorCode) (stage message : string) : RpcInvokeResponse :=
  {| rr_result_cbor := None;
     rr_error := Some {| re_code := code; re_stage := stage; re_message := message |} |}.

#[export] Instance RpcInvokeResponse_validate : Validate RpcInvokeResponse := λ p,
  match rr_result_cbor p, rr_error p with
  | Some _, None => Ok tt
  | None, Some error => validate error
  | Some _, Some _ =>
    Err (ve_invalid "response" "result_cbor and error are mutually exclusive")
  | None, None => Err (ve_missing "result_cbor or error")
  end.

(** ** Logs ([messages/log.rs]) *)

Record LogRequest := {
  lq_name : option string;
  lq_follow : bool;
  lq_tail_lines : Z;
  lq_with_timestamp : bool;
}.
#[export] Instance LogRequest_validate : Validate LogRequest := λ q,
  match lq_name q with Some name => ensure_non_empty name "name" | None => Ok tt end.

Inductive LogStreamKind := Stdout | Stderr | Composite.
#[export] Instance LogStreamKind_eq_dec : EqDecision LogStreamKind.
Proof. solve_decision. Defined.

Record LogChunk := {
  lc_request_id : Uuid;
  lc_seq : Z;
  lc_name : string;
  lc_stream_kind : LogStreamKind;
  lc_bytes : list byte;
  lc_is_last : bool;
  lc_timestamp_unix_ms : option Z;
}.
#[export] Instance LogChunk_validate : Validate LogChunk := λ c,
  _ ← ensure_uuid_not_nil (lc_request_id c) "request_id";
  ensure_non_empty (lc_name c) "name".

Inductive LogErrorCode := ProcessNotFound | ProcessNotRunning | PermissionDenied | LogInternal.
Record LogError := { le_code : LogErrorCode; le_message : string }.
#[export] Instance LogError_validate : Validate LogError := λ e,
  ensure_non_empty (le_message e) "message".

Record LogEnd := { ln_request_id : Uuid; ln_seq : Z; ln_error : option LogError }.
#[export] Instance LogEnd_validate : Validate LogEnd := λ e,
  _ ← ensure_uuid_not_nil (ln_request_id e) "request_id";
  match ln_error e with Some error => validate error | None => Ok tt end.

(** ** Service inventory ([messages/service.rs]) *)

Record ServiceListRequest := { sl_names : option (list string) }.

Fixpoint validate_names (seen : gset string) (names : list string) : vresult :=
  match names with
  | [] => Ok tt
  | name :: rest =>
    _ ← ensure (negb (is_blank name)) (ve_empty "names");
    _ ← ensure (negb (bool_decide (name ∈ seen)))
          (ve_invalid "names" "must not contain duplicates");
    validate_names ({[name]} ∪ seen) rest
  end.

#[export] Instance ServiceListRequest_validate : Validate ServiceListRequest := λ q,
  match sl_names q with Some names => validate_names ∅ names | None => Ok tt end.

Inductive ServiceState := SvcRunning | SvcStopping | SvcStopped.
#[export] Instance ServiceState_eq_dec : EqDecision ServiceState.
Proof. solve_decision. Defined.

Record ServiceStatusEntry := {
  ss_name : string;
  ss_release_hash : string;
  ss_started_at : string;
  ss_state : ServiceState;
}.
#[export] Instance ServiceStatusEntry_validate : Validate ServiceStatusEntry := λ e,
  _ ← ensure_required_strings
        [(ss_name e, "services.name"); (ss_release_hash e, "services.release_hash")];
  match ss_state e with
  | SvcRunning | SvcStopping => ensure_non_empty (ss_started_at e) "services.started_at"
  | SvcStopped => Ok tt
  end.

Record ServiceListResponse := { sv_services : list ServiceStatusEntry }.
#[export] Instance ServiceListResponse_validate : Validate ServiceListResponse := λ p,
  validate_all (sv_services p).

(** ** Certificates ([messages/bindings.rs]) *)

Record BindingsCertInspectResponse := { bi_public_key_hex : string }.
#[export] Instance BindingsCertInspectResponse_validate : Validate BindingsCertInspectResponse :=
  λ p, ensure_required_strings [(bi_public_key_hex p, "public_key_hex")].

Record BindingsCertUploadRequest := { bu_public_key_hex : string; bu_authority : string }.
#[export] Instance BindingsCertUploadRequest_validate : Validate BindingsCertUploadRequest :=
  λ q, ensure_required_strings
         [(bu_public_key_hex q, "public_key_hex"); (bu_authority q, "authority")].

Record BindingsCertUploadResponse := { bp_updated : bool; bp_detail : string }.
#[export] Instance BindingsCertUploadResponse_validate : Validate BindingsCertUploadResponse :=
  λ p, ensure_required_strings [(bp_detail p, "detail")].

(** ** Envelope ([envelope.rs], [messages/mod.rs]) *)

Inductive MessageType :=
  | MtHelloNegotiate | MtDeployPrepare | MtArtifactPush | MtArtifactCommit | MtCommandStart
  | MtCommandEvent | MtStateRequest | MtStateResponse | MtServicesList | MtCommandCancel
  | MtLogsRequest | MtLogsChunk | MtLogsEnd | MtRpcInvoke | MtBindingsCertInspect
  | MtBindingsCertUpload.
#[export] Instance MessageType_eq_dec : EqDecision MessageType.
Proof. solve_decision. Defined.

Record ProtocolEnvelope (P : Type) := {
  pe_message_type : MessageType;
  pe_request_id : Uuid;
  pe_correlation_id : Uuid;
  pe_payload : P;
  pe_error : option StructuredError;
}.
Arguments pe_message_type {P}.
Arguments pe_request_id {P}.
Arguments pe_correlation_id {P}.
Arguments pe_payload {P}.
Arguments pe_error {P}.

Definition new_envelope {P} (message_type : MessageType) (request_id correlation_id : Uuid)
    (payload : P) : ProtocolEnvelope P :=
  {| pe_message_type := message_type; pe_request_id := request_id;
     pe_correlation_id := correlation_id; pe_payload := payload; pe_error := None |}.

#[export] Instance ProtocolEnvelope_validate `{Validate P} : Validate (ProtocolEnvelope P) :=
  λ e,
  _ ← ensure_uuid_not_nil (pe_request_id e) "request_id";
  _ ← ensure_uuid_not_nil (pe_correlation_id e) "correlation_id";
  _ ← validate (pe_payload e);
  match pe_error e with Some error => validate error | None => Ok tt end.

Definition bad_request (stage message : string) : ImagodError :=
  new_error BadRequest stage message.
