(* ===== verification/ByteRanges.v ===== *)
(** * Received byte ranges of an upload

    [crates/imagod-control/src/artifact_store/commit.rs] (the interval
    bookkeeping).  The received ranges of a session are kept as a list of
    offset/length pairs; the specification is the set of covered offsets. *)

From S2P Require Import Prelude Protocol.

Open Scope Z_scope.

(** ** Operations *)

Definition range_end (r : ByteRange) : Z := offset r +ˢ range_length r.

Definition is_complete (ranges : list ByteRange) (total : Z) : bool :=
  match ranges with
  | [first] => (offset first =? 0) && (range_length first =? total)
  | _ => false
  end.

Definition range_from_start_end (start end_ : Z) : ByteRange :=
  {| offset := start; range_length := end_ -ˢ start |}.

(** The loop of [next_missing_range]; the second component is the cursor when no
    gap was found. *)
Fixpoint next_missing_loop (cursor : Z) (ranges : list ByteRange) : option ByteRange * Z :=
  match ranges with
  | [] => (None, cursor)
  | range :: rest =>
    if cursor <? offset range
    then (Some (range_from_start_end cursor (offset range)), cursor)
    else next_missing_loop (range_end range) rest
  end.

Definition next_missing_range (ranges : list ByteRange) (total : Z) : option ByteRange :=
  if total =? 0 then None
  else match ranges with
  | [] => Some {| offset := 0; range_length := total |}
  | _ =>
    match next_missing_loop 0 ranges with
    | (Some gap, _) => Some gap
    | (None, cursor) =>
      if cursor <? total then Some (range_from_start_end cursor total) else None
    end
  end.

(** The loop of [all_missing_ranges]: gaps found and the final cursor; the loop
    breaks as soon as the cursor reaches [total]. *)
Fixpoint all_missing_loop (cursor total : Z) (ranges : list ByteRange)
    : list ByteRange * Z :=
  match ranges with
  | [] => ([], cursor)
  | range :: rest =>
    let gap := if cursor <? offset range
               then [range_from_start_end cursor (offset range)] else [] in
    let cursor' := Z.max cursor (range_end range) in
    if total <=? cursor' then (gap, cursor')
    else let '(gaps, final) := all_missing_loop cursor' total rest in (gap ++ gaps, final)
  end.

Definition all_missing_ranges (ranges : list ByteRange) (total : Z) : list ByteRange :=
  if total =? 0 then []
  else match ranges with
  | [] => [{| offset := 0; range_length := total |}]
  | _ =>
    let '(missing, cursor) := all_missing_loop 0 total ranges in
    if cursor <? total then missing ++ [range_from_start_end cursor total] else missing
  end.

Definition offset_leb (r1 r2 : ByteRange) : bool := offset r1 <=? offset r2.

(** One round of the merge loop.  [merged] is the output vector with its last
    element first. *)
Definition merge_step (merged : list ByteRange) (range : ByteRange) : list ByteRange :=
  match merged with
  | last :: rest =>
    if offset range <=? offset last +ˢ range_length last then
      let current_end := offset range +ˢ range_length range in
      let merged_end := Z.max (offset last +ˢ range_length last) current_end in
      {| offset := offset last; range_length := merged_end -ˢ offset last |} :: rest
    else range :: merged
  | [] => [range]
  end.

Definition merge_range (ranges : list ByteRange) (incoming : ByteRange) : list ByteRange :=
  reverse (foldl merge_step [] (sort_by offset_leb (ranges ++ [incoming]))).

(** ** Specification *)

Definition in_range (r : ByteRange) (x : Z) : Prop :=
  offset r <= x < offset r + range_length r.
Definition covers (l : list ByteRange) (x : Z) : Prop := Exists (λ r, in_range r x) l.

(** A range that a chunk inside an artifact of [total] bytes can have. *)
Definition valid_range (total : Z) (r : ByteRange) : Prop :=
  0 <= offset r ∧ 0 < range_length r ∧ offset r + range_length r <= total.

(** The first range ends strictly before the second starts. *)
Definition before (r1 r2 : ByteRange) : Prop := offset r1 + range_length r1 < offset r2.

(** Well-formed bookkeeping: ranges in order, with a gap between any two. *)
Definition wf_ranges (total : Z) (l : list ByteRange) : Prop :=
  StronglySorted before l ∧ Forall (valid_range total) l.

#[export] Instance in_range_dec r x : Decision (in_range r x).
Proof. unfold in_range. apply _. Defined.
#[export] Instance covers_dec l x : Decision (covers l x).
Proof. unfold covers. apply _. Defined.
#[export] Instance valid_range_dec total r : Decision (valid_range total r).
Proof. unfold valid_range. apply _. Defined.

Lemma covers_nil x : covers [] x ↔ False.
Proof. apply Exists_nil. Qed.
Lemma covers_cons r l x : covers (r :: l) x ↔ in_range r x ∨ covers l x.
Proof. apply Exists_cons. Qed.
Lemma covers_app l k x : covers (l ++ k) x ↔ covers l x ∨ covers k x.
Proof. apply Exists_app. Qed.
Lemma covers_elem l x : covers l x ↔ ∃ r, r ∈ l ∧ in_range r x.
Proof. unfold covers. rewrite Exists_exists. naive_solver. Qed.
#[export] Instance covers_proper : Proper ((≡ₚ) ==> eq ==> iff) covers.
Proof. intros l k Hlk x ? <-. rewrite !covers_elem. by setoid_rewrite Hlk. Qed.
#[export] Hint Rewrite covers_nil covers_cons covers_app : imago.

Lemma covers_reverse l x : covers (reverse l) x ↔ covers l x.
Proof. by rewrite reverse_Permutation. Qed.

Lemma covers_valid total l x :
  Forall (valid_range total) l → covers l x → 0 <= x < total.
Proof.
  rewrite Forall_forall, covers_elem. intros Hl (r & Hr & Hx).
  specialize (Hl r Hr). unfold valid_range, in_range in *. lia.
Qed.

Lemma range_end_valid total r :
  total <= u64_max → valid_range total r → range_end r = offset r + range_length r.
Proof. unfold valid_range, range_end. intros. ulia. Qed.

(** A gap right after [c]: every covered offset lies beyond it. *)
Lemma wf_covers_after total r l x :
  wf_ranges total (r :: l) → covers l x → offset r + range_length r < x.
Proof.
  intros [Hs Hv] Hx. apply covers_elem in Hx as (r' & Hr' & Hx).
  inversion_clear Hs as [|?? _ Hb]. rewrite Forall_forall in Hb.
  specialize (Hb r' Hr'). unfold before, in_range in *. lia.
Qed.

Lemma wf_ranges_tail total r l : wf_ranges total (r :: l) → wf_ranges total l.
Proof. intros [Hs Hv]. inversion_clear Hs. inversion_clear Hv. by split. Qed.

(** ** Merging *)

Section merge.
Context (total : Z) (Htotal : total <= u64_max).

(** The invariant of the merge loop: [merged], read backwards, is well formed and
    starts no later than what is still to come. *)
Definition merged_wf (merged : list ByteRange) (next : Z) : Prop :=
  StronglySorted (flip before) merged ∧ Forall (valid_range total) merged ∧
  Forall (λ r, offset r <= next) merged.

Lemma merge_step_wf merged r :
  merged_wf merged (offset r) → valid_range total r →
  merged_wf (merge_step merged r) (offset r).
Proof using Htotal.
  intros (Hs & Hv & Ho) Hr. unfold merge_step.
  destruct merged as [|last rest]; [split_and!; solve_forall|].
  inversion_clear Hs as [|?? Hs' Hb]. inversion_clear Hv as [|?? Hl Hv'].
  inversion_clear Ho as [|?? Hlo Ho'].
  destruct (Z.leb_spec (offset r) (offset last +ˢ range_length last)) as [Hle|Hgt].
  - split_and!; constructor; try done.
    unfold valid_range in *. simpl. ulia.
  - split_and!; solve_forall.
    + unfold flip, before. unfold valid_range in *. ulia.
    + eapply Forall_impl; [exact Hb|]. unfold flip, before, valid_range in *.
      intros a Ha. ulia.
Qed.

Lemma merge_step_covers merged r x :
  merged_wf merged (offset r) → valid_range total r →
  covers (merge_step merged r) x ↔ covers merged x ∨ in_range r x.
Proof using Htotal.
  intros (_ & Hv & Ho) Hr. unfold merge_step.
  destruct merged as [|last rest]; [autorewrite with imago; tauto|].
  inversion_clear Hv as [|?? Hl _]. inversion_clear Ho as [|?? Hlo _].
  destruct (Z.leb_spec (offset r) (offset last +ˢ range_length last)) as [Hle|Hgt];
    autorewrite with imago; [|tauto].
  enough (in_range {| offset := offset last;
    range_length := Z.max (offset last +ˢ range_length last) (offset r +ˢ range_length r)
                    -ˢ offset last |} x ↔ in_range last x ∨ in_range r x) by tauto.
  unfold in_range, valid_range in *. simpl. ulia.
Qed.

Lemma merge_loop_spec l : ∀ merged,
  StronglySorted (λ a b, offset_leb a b = true) l → Forall (valid_range total) l →
  Forall (λ r, merged_wf merged (offset r)) l →
  (l = [] → merged_wf merged u64_max) →
  (∀ x, covers (foldl merge_step merged l) x ↔ covers merged x ∨ covers l x) ∧
  merged_wf (foldl merge_step merged l) u64_max.
Proof using Htotal.
  induction l as [|r l IH]; simpl; intros merged Hs Hv Hm Hn.
  { split; [intros x; autorewrite with imago; tauto|auto]. }
  inversion_clear Hs as [|?? Hs' Hr]. inversion_clear Hv as [|?? Hvr Hv'].
  inversion_clear Hm as [|?? Hmr _].
  pose proof (merge_step_wf merged r Hmr Hvr) as (W1 & W2 & W3).
  assert (∀ next, offset r <= next → merged_wf (merge_step merged r) next) as Hnext.
  { intros next Hle. split; [done|split; [done|]].
    eapply Forall_impl; [exact W3|]. simpl. lia. }
  destruct (IH (merge_step merged r)) as [IHc IHw]; try done.
  - eapply Forall_impl; [exact Hr|]. intros a Ha. apply Hnext.
    unfold offset_leb in Ha. lia.
  - intros _. apply Hnext. unfold valid_range in Hvr. lia.
  - split; [|done]. intros x. rewrite IHc, merge_step_covers by done.
    autorewrite with imago. tauto.
Qed.
End merge.

Lemma StronglySorted_reverse {A} (R : relation A) l :
  StronglySorted (flip R) l → StronglySorted R (reverse l).
Proof.
  induction 1 as [|x l Hl IH Hx]; [rewrite reverse_nil; constructor|].
  rewrite reverse_cons. apply StronglySorted_app_2; [|done|repeat constructor].
  intros a b Ha ->%list_elem_of_singleton. rewrite elem_of_reverse in Ha.
  rewrite Forall_forall in Hx. by apply Hx.
Qed.

Lemma offset_leb_sorted l :
  StronglySorted (λ a b, offset_leb a b = true) (sort_by offset_leb l).
Proof. apply sort_by_sorted; unfold offset_leb; intros; lia. Qed.

Lemma merge_range_spec total l r :
  total <= u64_max → Forall (valid_range total) l → valid_range total r →
  wf_ranges total (merge_range l r) ∧
  ∀ x, covers (merge_range l r) x ↔ covers l x ∨ in_range r x.
Proof.
  intros Ht Hl Hr. unfold merge_range.
  assert (Forall (valid_range total) (l ++ [r])) as Hlr by (apply Forall_app; auto).
  destruct (merge_loop_spec total Ht (sort_by offset_leb (l ++ [r])) [])
    as [Hc (Hs & Hv & _)].
  - apply offset_leb_sorted.
  - by rewrite sort_by_Permutation.
  - rewrite sort_by_Permutation. eapply Forall_impl; [exact Hlr|]. repeat constructor.
  - repeat constructor.
  - split; [split|].
    + by apply StronglySorted_reverse.
    + by rewrite reverse_Permutation.
    + intros x. rewrite covers_reverse, Hc, sort_by_Permutation.
      autorewrite with imago. tauto.
Qed.

(** ** Canonicity: the covered set determines the list *)

Lemma wf_head_lower total r l x :
  wf_ranges total (r :: l) → covers (r :: l) x → offset r <= x.
Proof.
  intros Hwf [Hx|Hx]%covers_cons; [unfold in_range in Hx; lia|].
  pose proof (wf_covers_after _ _ _ _ Hwf Hx). destruct Hwf as [_ Hv].
  inversion_clear Hv as [|?? Hr _]. unfold valid_range in Hr. lia.
Qed.

Lemma wf_head_covered total r l : wf_ranges total (r :: l) → covers (r :: l) (offset r).
Proof.
  intros [_ Hv]. inversion_clear Hv as [|?? Hr _]. apply covers_cons. left.
  unfold valid_range, in_range in *. lia.
Qed.

Lemma wf_head_end_uncovered total r l :
  wf_ranges total (r :: l) → ¬ covers (r :: l) (offset r + range_length r).
Proof.
  intros Hwf [Hx|Hx]%covers_cons; [unfold in_range in Hx; lia|].
  pose proof (wf_covers_after _ _ _ _ Hwf Hx). lia.
Qed.

Lemma wf_tail_covers total r l x :
  wf_ranges total (r :: l) →
  covers l x ↔ covers (r :: l) x ∧ offset r + range_length r < x.
Proof.
  intros Hwf. rewrite covers_cons. split.
  - intros Hx. split; [by right|]. by eapply wf_covers_after.
  - intros [[Hx|Hx] Hlt]; [unfold in_range in Hx; lia|done].
Qed.

Lemma wf_head_unique total r1 r2 l1 l2 :
  wf_ranges total (r1 :: l1) → wf_ranges total (r2 :: l2) →
  (∀ x, covers (r1 :: l1) x ↔ covers (r2 :: l2) x) → r1 = r2.
Proof.
  intros H1 H2 Heq.
  assert (offset r1 = offset r2) as Ho.
  { apply Z.le_antisymm.
    - eapply wf_head_lower; [exact H1|]. rewrite Heq. by eapply wf_head_covered.
    - eapply wf_head_lower; [exact H2|]. rewrite <-Heq. by eapply wf_head_covered. }
  pose proof (wf_head_end_uncovered _ _ _ H1) as N1.
  pose proof (wf_head_end_uncovered _ _ _ H2) as N2.
  rewrite Heq, covers_cons in N1. rewrite <-Heq, covers_cons in N2.
  destruct H1 as [_ V1], H2 as [_ V2].
  inversion_clear V1 as [|?? R1 _]. inversion_clear V2 as [|?? R2 _].
  unfold in_range, valid_range in *. destruct r1, r2; simpl in *. f_equal; lia.
Qed.

Lemma wf_ranges_unique total l1 : ∀ l2,
  wf_ranges total l1 → wf_ranges total l2 →
  (∀ x, covers l1 x ↔ covers l2 x) → l1 = l2.
Proof.
  induction l1 as [|r1 l1 IH]; intros [|r2 l2] H1 H2 Heq; [done| | |].
  - apply wf_head_covered in H2. rewrite <-Heq, covers_nil in H2. done.
  - apply wf_head_covered in H1. rewrite Heq, covers_nil in H1. done.
  - pose proof (wf_head_unique _ _ _ _ _ H1 H2 Heq) as <-. f_equal.
    apply IH; [by eapply wf_ranges_tail..|]. intros x.
    rewrite (wf_tail_covers _ _ _ _ H1), (wf_tail_covers _ _ _ _ H2). by rewrite Heq.
Qed.

Lemma wf_full total : 0 < total → wf_ranges total [{| offset := 0; range_length := total |}].
Proof. intros. split; solve_forall. unfold valid_range. simpl. lia. Qed.

Lemma is_complete_spec total l :
  0 < total → wf_ranges total l →
  is_complete l total = true ↔ ∀ x, 0 <= x < total → covers l x.
Proof.
  intros Ht Hwf. split.
  - unfold is_complete. destruct l as [|r [|]]; try done. intros H x Hx.
    apply covers_cons. left. unfold in_range. lia.
  - intros Hall. rewrite (wf_ranges_unique total l [{| offset := 0; range_length := total |}]).
    + simpl. lia.
    + done.
    + by apply wf_full.
    + intros x. autorewrite with imago. split.
      * intros Hx. left. pose proof (covers_valid _ _ _ (proj2 Hwf) Hx).
        unfold in_range. simpl. lia.
      * intros [Hx|[]]. apply Hall. unfold in_range in Hx. simpl in Hx. lia.
Qed.

(** ** Missing ranges *)

Definition gap (c : Z) (r : ByteRange) : list ByteRange :=
  if c <? offset r then [range_from_start_end c (offset r)] else [].
Definition missing_from (c total : Z) (l : list ByteRange) : list ByteRange :=
  let '(gaps, final) := all_missing_loop c total l in
  if final <? total then gaps ++ [range_from_start_end final total] else gaps.

Lemma missing_from_cons c total r l :
  total <= u64_max → wf_ranges total (r :: l) → c <= offset r →
  missing_from c total (r :: l) = gap c r ++ missing_from (offset r + range_length r) total l.
Proof.
  intros Ht Hwf Hc. unfold missing_from. simpl. fold (gap c r).
  assert (valid_range total r) as Hr by (destruct Hwf as [_ Hv]; by inversion Hv).
  rewrite (range_end_valid total) by done.
  rewrite Z.max_r by (unfold valid_range in Hr; lia).
  destruct (Z.leb_spec total (offset r + range_length r)) as [Hle|Hlt].
  - destruct l as [|r' l].
    + simpl. rewrite (proj2 (Z.ltb_ge _ _)) by lia. by rewrite app_nil_r.
    + exfalso. pose proof (wf_head_covered _ _ _ (wf_ranges_tail _ _ _ Hwf)) as Hx.
      pose proof (covers_valid _ _ _ (proj2 (wf_ranges_tail _ _ _ Hwf)) Hx).
      pose proof (wf_covers_after _ _ _ _ Hwf Hx). lia.
  - destruct (all_missing_loop _ total l) as [gaps final].
    destruct (final <? total); by rewrite ?app_assoc.
Qed.

Lemma missing_from_spec total l : ∀ c,
  total <= u64_max → wf_ranges total l → 0 <= c <= total → Forall (λ r, c <= offset r) l →
  wf_ranges total (missing_from c total l) ∧
  Forall (λ g, c <= offset g) (missing_from c total l) ∧
  ∀ x, covers (missing_from c total l) x ↔ (c <= x < total ∧ ¬ covers l x).
Proof.
  induction l as [|r l IH]; intros c Ht Hwf Hc Hlow.
  { unfold missing_from. simpl. destruct (Z.ltb_spec c total).
    - unfold range_from_start_end. split; [split|split]; solve_forall.
      + unfold valid_range. simpl. ulia.
      + intros x. autorewrite with imago. unfold in_range. simpl. ulia.
    - split; [split|split]; solve_forall. intros x. autorewrite with imago. lia. }
  pose proof (proj2 Hwf) as Hv. inversion_clear Hv as [|?? Hr _].
  inversion_clear Hlow as [|?? Hcr _].
  rewrite missing_from_cons by done.
  destruct (IH (offset r + range_length r)) as ([Hs Hval] & Hlow & Hcov); [done|..].
  { by eapply wf_ranges_tail. }
  { unfold valid_range in Hr. lia. }
  { destruct Hwf as [Hs _]. inversion_clear Hs as [|?? _ Hb].
    eapply Forall_impl; [exact Hb|]. unfold before. lia. }
  assert (∀ x, covers (gap c r) x ↔ c <= x < offset r) as Hgap.
  { intros x. unfold gap, range_from_start_end. destruct (Z.ltb_spec c (offset r));
      autorewrite with imago; unfold in_range; simpl; ulia. }
  split; [split|split].
  - apply StronglySorted_app_2; [|unfold gap; destruct (c <? _); solve_forall|done].
    intros g g' Hg Hg'. rewrite Forall_forall in Hlow. specialize (Hlow g' Hg').
    unfold gap in Hg. destruct (Z.ltb_spec c (offset r)); [|by apply elem_of_nil in Hg].
    apply list_elem_of_singleton in Hg as ->. unfold before, range_from_start_end.
    unfold valid_range in Hr. simpl. ulia.
  - apply Forall_app. split; [|done]. unfold gap, range_from_start_end.
    destruct (Z.ltb_spec c (offset r)); solve_forall. unfold valid_range in *. simpl. ulia.
  - apply Forall_app. split.
    + unfold gap. destruct (c <? _); solve_forall.
    + eapply Forall_impl; [exact Hlow|]. unfold valid_range in Hr. simpl. lia.
  - intros x. rewrite covers_app, Hgap, Hcov, covers_cons.
    pose proof (wf_covers_after _ _ _ x Hwf) as Hafter.
    unfold in_range, valid_range in *. split.
    + intros [Hx|[Hx Hn]]; (split; [lia|]).
      * intros [?|Hl]; [lia|]. specialize (Hafter Hl). lia.
      * intros [?|Hl]; [lia|done].
    + intros [Hx Hn]. destruct (decide (x < offset r)); [left; lia|right].
      split; [|tauto]. destruct (decide (x < offset r + range_length r)); [|lia].
      exfalso. apply Hn. left. lia.
Qed.

Lemma all_missing_ranges_from total l :
  0 < total → all_missing_ranges l total = missing_from 0 total l.
Proof.
  intros Ht. unfold all_missing_ranges, missing_from.
  rewrite (proj2 (Z.eqb_neq _ _)) by lia. destruct l; [|done]. simpl.
  rewrite (proj2 (Z.ltb_lt _ _)) by lia. unfold range_from_start_end, sat_sub.
  repeat f_equal. lia.
Qed.

Lemma all_missing_ranges_spec total l :
  0 < total <= u64_max → wf_ranges total l →
  wf_ranges total (all_missing_ranges l total) ∧
  ∀ x, covers (all_missing_ranges l total) x ↔ 0 <= x < total ∧ ¬ covers l x.
Proof.
  intros Ht Hwf. rewrite all_missing_ranges_from by lia.
  destruct (missing_from_spec total l 0) as (? & ? & ?); try done; try lia.
  destruct Hwf as [_ Hv]. eapply Forall_impl; [exact Hv|]. unfold valid_range. lia.
Qed.

Lemma next_missing_from total l : ∀ c,
  total <= u64_max → wf_ranges total l → Forall (λ r, c <= offset r) l →
  match next_missing_loop c l with
  | (Some g, _) => Some g
  | (None, cursor) =>
    if cursor <? total then Some (range_from_start_end cursor total) else None
  end = head (missing_from c total l).
Proof.
  induction l as [|r l IH]; intros c Ht Hwf Hlow.
  { unfold missing_from. simpl. by destruct (c <? total). }
  pose proof (proj2 Hwf) as Hv. inversion_clear Hv as [|?? Hr _].
  inversion_clear Hlow as [|?? Hcr _].
  rewrite missing_from_cons by done. simpl. unfold gap.
  destruct (c <? offset r); [done|]. simpl. rewrite (range_end_valid total) by done.
  apply IH; [done|by eapply wf_ranges_tail|].
  destruct Hwf as [Hs _]. inversion_clear Hs as [|?? _ Hb].
  eapply Forall_impl; [exact Hb|]. unfold before. lia.
Qed.

Lemma next_missing_range_head total l :
  0 < total <= u64_max → wf_ranges total l →
  next_missing_range l total = head (all_missing_ranges l total).
Proof.
  intros Ht Hwf. rewrite all_missing_ranges_from by lia.
  rewrite <-next_missing_from; [|lia|done|].
  - unfold next_missing_range. rewrite (proj2 (Z.eqb_neq _ _)) by lia.
    destruct l; [|done]. simpl. rewrite (proj2 (Z.ltb_lt _ _)) by lia.
    unfold range_from_start_end, sat_sub. repeat f_equal. lia.
  - destruct Hwf as [_ Hv]. eapply Forall_impl; [exact Hv|]. unfold valid_range. lia.
Qed.

Lemma all_missing_nil total l :
  0 < total <= u64_max → wf_ranges total l →
  all_missing_ranges l total = [] ↔ is_complete l total = true.
Proof.
  intros Ht Hwf. destruct (all_missing_ranges_spec _ _ Ht Hwf) as [Hwm Hcov].
  rewrite is_complete_spec by (done || lia). split.
  - intros Hn x Hx. rewrite Hn in Hcov. specialize (Hcov x). rewrite covers_nil in Hcov.
    destruct (decide (covers l x)); tauto.
  - intros Hall. destruct (all_missing_ranges l total) as [|g gs]; [done|].
    pose proof (wf_head_covered _ _ _ Hwm) as Hx. apply Hcov in Hx as [? []]. auto.
Qed.

(** ** Sequences of chunks *)

Lemma merge_ranges_spec total cs : ∀ l,
  total <= u64_max → wf_ranges total l → Forall (valid_range total) cs →
  wf_ranges total (foldl merge_range l cs) ∧
  ∀ x, covers (foldl merge_range l cs) x ↔ covers l x ∨ covers cs x.
Proof.
  induction cs as [|c cs IH]; intros l Ht Hwf Hcs; simpl.
  { split; [done|]. intros x. autorewrite with imago. tauto. }
  inversion_clear Hcs as [|?? Hc Hcs'].
  destruct (merge_range_spec total l c Ht (proj2 Hwf) Hc) as [W C].
  destruct (IH (merge_range l c) Ht W Hcs') as [W' C'].
  split; [done|]. intros x. rewrite C', C. autorewrite with imago. tauto.
Qed.

(** Whatever chunks of an artifact arrive, in whatever order, with
    whatever overlaps, the ranges recorded are in order with a gap between any two,
    cover exactly the union of the chunks, and do not depend on the order of arrival. *)
Theorem received_ranges_canonical total cs :
  total <= u64_max → Forall (valid_range total) cs →
  wf_ranges total (foldl merge_range [] cs) ∧
  (∀ x, covers (foldl merge_range [] cs) x ↔ covers cs x) ∧
  (∀ cs', cs' ≡ₚ cs → foldl merge_range [] cs' = foldl merge_range [] cs).
Proof.
  intros Ht Hcs. assert (wf_ranges total []) as Hnil by (split; solve_forall).
  destruct (merge_ranges_spec total cs [] Ht Hnil Hcs) as [W C].
  split; [done|split].
  - intros x. rewrite C. autorewrite with imago. tauto.
  - intros cs' Hp. assert (Forall (valid_range total) cs') as Hcs' by (by rewrite Hp).
    destruct (merge_ranges_spec total cs' [] Ht Hnil Hcs') as [W' C'].
    eapply wf_ranges_unique; [done..|]. intros x. by rewrite C, C', Hp.
Qed.

(** The ranges reported missing are exactly the complement of what
    was received; each has a positive length, as the protocol's response check
    demands; the next missing range is the first of them; there is none exactly when
    the upload is complete. *)
Theorem missing_ranges_complement total l :
  0 < total <= u64_max → wf_ranges total l →
  (∀ x, covers (all_missing_ranges l total) x ↔ 0 <= x < total ∧ ¬ covers l x) ∧
  validate_all (all_missing_ranges l total) = Ok tt ∧
  next_missing_range l total = head (all_missing_ranges l total) ∧
  (next_missing_range l total = None ↔ is_complete l total = true) ∧
  (is_complete l total = true ↔ ∀ x, 0 <= x < total → covers l x).
Proof.
  intros Ht Hwf. destruct (all_missing_ranges_spec _ _ Ht Hwf) as [[_ Hv] Hcov].
  split_and!; [done| | |..].
  - rewrite validate_all_Ok. eapply Forall_impl; [exact Hv|]. intros r Hr.
    unfold validate, ByteRange_validate, ensure_positive_u64.
    rewrite (proj2 (Z.eqb_neq _ _)); [done|]. unfold valid_range in Hr. lia.
  - by apply next_missing_range_head.
  - rewrite next_missing_range_head, <-all_missing_nil by done.
    by destruct (all_missing_ranges l total).
  - apply is_complete_spec; [lia|done].
Qed.

(** Resuming works: from any progress, sending exactly the ranges the
    daemon reported missing makes the upload complete. *)
Theorem resume_completes total l :
  0 < total <= u64_max → wf_ranges total l →
  is_complete (foldl merge_range l (all_missing_ranges l total)) total = true.
Proof.
  intros Ht Hwf. destruct (all_missing_ranges_spec _ _ Ht Hwf) as [[_ Hv] Hcov].
  destruct (merge_ranges_spec total (all_missing_ranges l total) l ltac:(lia) Hwf Hv) as [W C].
  apply is_complete_spec; [lia|done|]. intros x Hx. rewrite C, Hcov.
  destruct (decide (covers l x)); tauto.
Qed.

(** ** Witnesses *)

Definition demo_chunks : list ByteRange :=
  [{| offset := 6; range_length := 4 |}; {| offset := 0; range_length := 2 |};
   {| offset := 1; range_length := 3 |}].
Definition demo_received : list ByteRange :=
  [{| offset := 0; range_length := 4 |}; {| offset := 6; range_length := 4 |}].

Lemma demo_chunks_valid : Forall (valid_range 12) demo_chunks.
Proof. apply (bool_decide_unpack _). vm_compute. exact I. Qed.
Lemma demo_received_wf : wf_ranges 12 demo_received.
Proof.
  split; [|apply (bool_decide_unpack _); vm_compute; exact I].
  unfold demo_received. solve_forall. unfold before. simpl. lia.
Qed.

Lemma received_ranges_canonical_witness :
  foldl merge_range [] (reverse demo_chunks) = demo_received ∧ wf_ranges 12 demo_received.
Proof.
  destruct (received_ranges_canonical 12 demo_chunks ltac:(done) demo_chunks_valid)
    as (W & _ & P).
  split; [|exact W].
  rewrite (P (reverse demo_chunks) (reverse_Permutation _)). vm_compute. reflexivity.
Defined.

Lemma missing_ranges_complement_witness :
  next_missing_range demo_received 12 = Some {| offset := 4; range_length := 2 |} ∧
  ¬ covers demo_received 5.
Proof.
  destruct (missing_ranges_complement 12 demo_received ltac:(done) demo_received_wf)
    as (C & _ & N & _).
  split; [rewrite N; vm_compute; reflexivity|].
  apply C. apply (bool_decide_unpack _). vm_compute. exact I.
Defined.

Lemma resume_completes_witness :
  is_complete (foldl merge_range demo_received (all_missing_ranges demo_received 12)) 12 = true.
Proof. apply (resume_completes 12 demo_received); [done|exact demo_received_wf]. Defined.
