(* ===== verification/Files.v ===== *)
(** * Regular files

    The part of the file system the artifact store uses through [tokio::fs]: a
    directory entry names an inode, an open handle keeps the inode after the entry
    is unlinked, a positioned write past the end fills the hole with zeros. *)

From S2P Require Import Prelude.

Open Scope Z_scope.

Definition zero_byte : byte := Ascii.zero.

(** Contents of a file after writing [data] at [off]. *)
Definition write_at (content : list byte) (off : nat) (data : list byte) : list byte :=
  take off content ++ replicate (off - length content) zero_byte ++
  data ++ drop (off + length data) content.

(** [set_len]. *)
Definition set_len (content : list byte) (len : nat) : list byte :=
  take len content ++ replicate (len - length content) zero_byte.

Record Fs := {
  fs_paths : gmap string N;
  fs_inodes : gmap N (list byte);
}.

Definition empty_fs : Fs := {| fs_paths := ∅; fs_inodes := ∅ |}.

Definition fresh_inode (f : Fs) : N := fresh (dom (fs_inodes f) : gset N).

(** [open] of an existing file. *)
Definition fs_open (path : string) (f : Fs) : option N := fs_paths f !! path.

(** [open] with [create] and [truncate]. *)
Definition fs_create (path : string) (f : Fs) : Fs * N :=
  match fs_paths f !! path with
  | Some ino => ({| fs_paths := fs_paths f; fs_inodes := <[ino := []]> (fs_inodes f) |}, ino)
  | None =>
    let ino := fresh_inode f in
    ({| fs_paths := <[path := ino]> (fs_paths f);
        fs_inodes := <[ino := []]> (fs_inodes f) |}, ino)
  end.

Definition fs_update (ino : N) (g : list byte → list byte) (f : Fs) : Fs :=
  {| fs_paths := fs_paths f; fs_inodes := alter g ino (fs_inodes f) |}.

Definition fs_content (ino : N) (f : Fs) : list byte := default [] (fs_inodes f !! ino).

(** The bytes a reader of the path sees. *)
Definition fs_read (path : string) (f : Fs) : option (list byte) :=
  ino ← fs_paths f !! path; fs_inodes f !! ino.

(** [remove_file]; the error for a missing entry is ignored by every caller. *)
Definition fs_remove (path : string) (f : Fs) : Fs :=
  {| fs_paths := delete path (fs_paths f); fs_inodes := fs_inodes f |}.

(** ** Laws *)

Lemma length_write_at content off data :
  (off + length data <= length content)%nat →
  length (write_at content off data) = length content.
Proof.
  intros H. unfold write_at. rewrite !length_app, length_take, length_replicate, length_drop. lia.
Qed.

Lemma lookup_write_at content off data (i : nat) :
  (off + length data <= length content)%nat →
  write_at content off data !! i =
    if decide (off <= i < off + length data)%nat then data !! (i - off)%nat
    else content !! i.
Proof.
  intros H. unfold write_at. replace (off - length content)%nat with 0%nat by lia. simpl.
  rewrite lookup_app.
  destruct (decide (i < off)%nat) as [Hlt|Hge].
  - rewrite lookup_take_lt by lia. destruct (lookup_lt_is_Some_2 content i) as [x Hx]; [lia|].
    rewrite Hx. case_decide; [lia|done].
  - rewrite lookup_ge_None_2 by (rewrite length_take; lia). rewrite length_take, lookup_app.
    rewrite Nat.min_l by lia. case_decide.
    + destruct (lookup_lt_is_Some_2 data (i - off)%nat) as [x Hx]; [lia|]. by rewrite Hx.
    + rewrite lookup_ge_None_2 by lia. rewrite lookup_drop. f_equal. lia.
Qed.

Lemma length_set_len content len : length (set_len content len) = len.
Proof. unfold set_len. rewrite length_app, length_take, length_replicate. lia. Qed.

Lemma fresh_inode_None f : fs_inodes f !! fresh_inode f = None.
Proof. apply not_elem_of_dom. exact (is_fresh (dom (fs_inodes f) : gset N)). Qed.
