(* ===== verification/ArtifactStore.v ===== *)
(** * The artifact store

    [crates/imagod-control/src/artifact_store.rs], [artifact_store/session_index.rs]
    and [artifact_store/chunk_pipeline.rs]: upload sessions, their idempotency index,
    pinning, garbage collection and the handlers [prepare], [push], [commit],
    [committed_artifact], [service_name_for_deploy] and [purge_deploy_session].

    Every block of code that runs under the state mutex is one function here
    ([prepare_decide], [push_begin], ...), so that the handlers compose them in
    sequence and ArtifactLts interleaves them. *)

From S2P Require Import Prelude Protocol ByteRanges Files.

Open Scope Z_scope.

(** ** Data *)

Record CommittedArtifact := {
  ca_deploy_id : string;
  ca_path : string;
  ca_manifest_digest : string;
  ca_artifact_digest : string;
}.

Record UploadSession := {
  us_deploy_id : string;
  us_service_name : string;
  us_idempotency_key : string;
  us_fingerprint : string;
  us_artifact_digest : string;
  us_artifact_size : Z;
  us_manifest_digest : string;
  us_upload_token : string;
  us_file_path : string;
  us_received_ranges : list ByteRange;
  us_committed : bool;
  us_inflight_writes : Z;
  us_commit_in_progress : bool;
  us_updated_at_epoch_secs : Z;
}.

Record StoreState := {
  sessions : gmap string UploadSession;
  idempotency : gmap string string;
}.

Definition empty_store : StoreState := {| sessions := ∅; idempotency := ∅ |}.

(** The files to remove after the lock is released. *)
Definition CleanupPlan := list string.

Record StoreConfig := {
  root : string;
  upload_session_ttl_secs : Z;
  committed_session_ttl_secs : Z;
  max_committed_sessions : Z;
  max_chunk_size : Z;
  max_inflight_chunks : Z;
  max_artifact_size_bytes : Z;
}.

(** [ArtifactStore::new] clamps every limit to at least one. *)
Definition new_store (root : string) (upload_ttl committed_ttl max_committed max_chunk
    max_inflight max_artifact : Z) : StoreConfig :=
  {| root := root;
     upload_session_ttl_secs := Z.max upload_ttl 1;
     committed_session_ttl_secs := Z.max committed_ttl 1;
     max_committed_sessions := Z.max max_committed 1;
     max_chunk_size := Z.max max_chunk 1;
     max_inflight_chunks := Z.max max_inflight 1;
     max_artifact_size_bytes := Z.max max_artifact 1 |}.

(** Field updates of a session. *)
Definition us_progress (ranges : list ByteRange) (committed : bool) (inflight : Z)
    (committing : bool) (updated : Z) (s : UploadSession) : UploadSession :=
  {| us_deploy_id := us_deploy_id s; us_service_name := us_service_name s;
     us_idempotency_key := us_idempotency_key s; us_fingerprint := us_fingerprint s;
     us_artifact_digest := us_artifact_digest s; us_artifact_size := us_artifact_size s;
     us_manifest_digest := us_manifest_digest s; us_upload_token := us_upload_token s;
     us_file_path := us_file_path s; us_received_ranges := ranges;
     us_committed := committed; us_inflight_writes := inflight;
     us_commit_in_progress := committing; us_updated_at_epoch_secs := updated |}.

Definition us_touch (now : Z) (s : UploadSession) : UploadSession :=
  us_progress (us_received_ranges s) (us_committed s) (us_inflight_writes s)
    (us_commit_in_progress s) now s.

Definition put_session (d : string) (s : UploadSession) (st : StoreState) : StoreState :=
  {| sessions := <[d := s]> (sessions st); idempotency := idempotency st |}.

Definition STAGE_PREPARE : string := "deploy.prepare".
Definition STAGE_PUSH : string := "artifact.push".
Definition STAGE_COMMIT : string := "artifact.commit".
Definition STAGE_ORCHESTRATE : string := "orchestration".

Definition map_internal (stage message : string) : ImagodError :=
  with_retryable true (new_error Internal stage message).

(** ** Pinning *)

Definition pin_deploy_session (deploy_id : string) (pinned : gmap string Z) : gmap string Z :=
  <[deploy_id := default 0 (pinned !! deploy_id) +ˢ 1]> pinned.

(** [Drop for DeploySessionPinGuard]. *)
Definition unpin_deploy_session (deploy_id : string) (pinned : gmap string Z) : gmap string Z :=
  match pinned !! deploy_id with
  | Some count =>
    let count := count -ˢ 1 in
    if count =? 0 then delete deploy_id pinned else <[deploy_id := count]> pinned
  | None => pinned
  end.

Definition pinned_deploy_ids_snapshot (pinned : gmap string Z) : gset string := dom pinned.

(** ** Garbage collection ([session_index.rs]) *)

Definition build_prepare_response (session : UploadSession) (ttl now : Z)
    : DeployPrepareResponse :=
  let artifact_status :=
    if us_committed session
       || is_complete (us_received_ranges session) (us_artifact_size session) then Complete
    else if bool_decide (us_received_ranges session = []) then Missing
    else Partial in
  let missing_ranges :=
    match artifact_status with
    | Complete => []
    | _ => all_missing_ranges (us_received_ranges session) (us_artifact_size session)
    end in
  {| dr_deploy_id := us_deploy_id session;
     dr_artifact_status := artifact_status;
     dr_missing_ranges := missing_ranges;
     dr_upload_token := us_upload_token session;
     dr_session_expires_at := to_string (now +ˢ ttl) |}.

Fixpoint collect_sessions_for_removal_locked (deploy_ids : list string) (st : StoreState)
    : StoreState * CleanupPlan :=
  match deploy_ids with
  | [] => (st, [])
  | deploy_id :: rest =>
    match sessions st !! deploy_id with
    | Some session =>
      let idem :=
        if bool_decide (idempotency st !! us_idempotency_key session = Some deploy_id)
        then delete (us_idempotency_key session) (idempotency st)
        else idempotency st in
      let st1 := {| sessions := delete deploy_id (sessions st); idempotency := idem |} in
      let '(st2, files) := collect_sessions_for_removal_locked rest st1 in
      (st2, us_file_path session :: files)
    | None => collect_sessions_for_removal_locked rest st
    end
  end.

Definition session_busy (s : UploadSession) : bool :=
  (0 <? us_inflight_writes s) || us_commit_in_progress s.

Definition expired_ids (st : StoreState) (now ttl : Z) : list string :=
  omap (λ '(deploy_id, session),
          if us_committed session || session_busy session then None
          else if ttl <=? now -ˢ us_updated_at_epoch_secs session
               then Some deploy_id else None)
       (btree_iter (sessions st)).

Definition collect_expired_sessions (now ttl : Z) (st : StoreState)
    : StoreState * CleanupPlan :=
  collect_sessions_for_removal_locked (expired_ids st now ttl) st.

Definition protected_committed_count (st : StoreState) (protected : gset string) : Z :=
  zlen (filter (λ '(d, s), us_committed s = true ∧ d ∈ protected) (btree_iter (sessions st))).

Definition orphan_expired_ids (st : StoreState) (now ttl : Z) (protected : gset string)
    : list string :=
  omap (λ '(d, s),
          if negb (us_committed s) || session_busy s || bool_decide (d ∈ protected) then None
          else if ttl <=? now -ˢ us_updated_at_epoch_secs s then Some d else None)
       (btree_iter (sessions st)).

Definition orphan_survivors (st : StoreState) (protected removed : gset string)
    : list (string * Z) :=
  omap (λ '(d, s),
          if negb (us_committed s) || session_busy s then None
          else if bool_decide (d ∈ protected) then None
          else if bool_decide (d ∈ removed) then None
          else Some (d, us_updated_at_epoch_secs s))
       (btree_iter (sessions st)).

Definition updated_leb (a b : string * Z) : bool := a.2 <=? b.2.

Definition orphan_ids (st : StoreState) (now ttl max_committed : Z) (protected : gset string)
    : list string :=
  let remove_ids := orphan_expired_ids st now ttl protected in
  let survivors := orphan_survivors st protected (list_to_set remove_ids) in
  let allowed_non_protected := max_committed -ˢ protected_committed_count st protected in
  if allowed_non_protected <? zlen survivors then
    let overflow := zlen survivors - allowed_non_protected in
    remove_ids ++ (take (Z.to_nat overflow) (sort_by updated_leb survivors)).*1
  else remove_ids.

Definition collect_orphan_committed_sessions (now ttl max_committed : Z)
    (protected : gset string) (st : StoreState) : StoreState * CleanupPlan :=
  collect_sessions_for_removal_locked (orphan_ids st now ttl max_committed protected) st.

Definition collect_sessions_by_deploy_ids (deploy_ids : list string) (st : StoreState)
    : StoreState * CleanupPlan :=
  collect_sessions_for_removal_locked deploy_ids st.

Definition cleanup_orphan_idempotency (st : StoreState) : StoreState :=
  {| sessions := sessions st;
     idempotency := filter (λ '(_, d), is_Some (sessions st !! d)) (idempotency st) |}.

Definition collect_session_cleanup_locked (cfg : StoreConfig) (pinned : gmap string Z)
    (now : Z) (keep_deploy_id : option string) (st : StoreState) : StoreState * CleanupPlan :=
  let snapshot := pinned_deploy_ids_snapshot pinned in
  let protected :=
    match keep_deploy_id with
    | Some d => if bool_decide (d = "") then snapshot else {[d]} ∪ snapshot
    | None => snapshot
    end in
  let '(st1, plan1) := collect_expired_sessions now (upload_session_ttl_secs cfg) st in
  let '(st2, plan2) :=
    collect_orphan_committed_sessions now (committed_session_ttl_secs cfg)
      (max_committed_sessions cfg) protected st1 in
  (cleanup_orphan_idempotency st2, plan1 ++ plan2).

(** ** Fingerprints *)

Definition nl : string := String (ascii_of_N 10) "".

Definition map_fingerprint_fragment (m : StringMap) : string :=
  foldl (λ fragment '(key, value), fragment +:+ key +:+ "=" +:+ value +:+ nl)%string ""
    (btree_iter m).

Section fingerprint.
Context `{Crates}.

Definition fingerprint (q : DeployPrepareRequest) : string :=
  let extra_hash := sha256_hex (bytes_of
    (map_fingerprint_fragment (dp_target q) +:+ "|" +:+
     map_fingerprint_fragment (dp_policy q))%string) in
  (dp_name q +:+ "|" +:+ dp_app_type q +:+ "|" +:+ dp_artifact_digest q +:+ "|" +:+
   to_string (dp_artifact_size q) +:+ "|" +:+ dp_manifest_digest q +:+ "|" +:+
   extra_hash)%string.
End fingerprint.

(** ** [prepare] *)

Definition artifact_path (cfg : StoreConfig) (deploy_id : string) : string :=
  path_join (path_join (root cfg) "sessions") (deploy_id +:+ ".artifact")%string.

Inductive PrepareDecision :=
  | Existing (response : DeployPrepareResponse)
  | Create (session : UploadSession).

Definition prepare_checks (cfg : StoreConfig) (q : DeployPrepareRequest) : iresult unit :=
  _ ← ensure (negb (dp_artifact_size q =? 0))
        (new_error BadRequest STAGE_PREPARE "artifact_size must be > 0");
  ensure (negb (max_artifact_size_bytes cfg <? dp_artifact_size q))
    (with_detail "max_artifact_size_bytes" (to_string (max_artifact_size_bytes cfg))
      (with_detail "artifact_size" (to_string (dp_artifact_size q))
        (new_error StorageQuota STAGE_PREPARE
           "artifact_size exceeds max_artifact_size_bytes"))).

Definition idempotency_conflict : ImagodError :=
  new_error IdempotencyConflict STAGE_PREPARE
    "idempotency_key is reused with different payload".

(** The live session an idempotency key names. *)
Definition existing_session (key : string) (st : StoreState) : option (string * UploadSession) :=
  existing_id ← idempotency st !! key;
  existing ← sessions st !! existing_id;
  Some (existing_id, existing).

Section prepare.
Context `{Crates} (cfg : StoreConfig) (pinned : gmap string Z).

Definition new_session (q : DeployPrepareRequest) (now : Z) (deploy_uuid token_uuid : Uuid)
    : UploadSession :=
  let deploy_id := uuid_to_string deploy_uuid in
  {| us_deploy_id := deploy_id; us_service_name := dp_name q;
     us_idempotency_key := dp_idempotency_key q; us_fingerprint := fingerprint q;
     us_artifact_digest := dp_artifact_digest q; us_artifact_size := dp_artifact_size q;
     us_manifest_digest := dp_manifest_digest q;
     us_upload_token := uuid_to_string token_uuid;
     us_file_path := artifact_path cfg deploy_id; us_received_ranges := [];
     us_committed := false; us_inflight_writes := 0; us_commit_in_progress := false;
     us_updated_at_epoch_secs := now |}.

(** The first locked block of [prepare]. *)
Definition prepare_decide (q : DeployPrepareRequest) (now : Z) (deploy_uuid token_uuid : Uuid)
    (st : StoreState) : StoreState * CleanupPlan * iresult PrepareDecision :=
  let '(st, plan) := collect_session_cleanup_locked cfg pinned now None st in
  match existing_session (dp_idempotency_key q) st with
  | Some (existing_id, existing) =>
    if decide (us_fingerprint existing = fingerprint q) then
      let existing := us_touch now existing in
      (put_session existing_id existing st, plan,
       Ok (Existing (build_prepare_response existing (upload_session_ttl_secs cfg) now)))
    else (st, plan, Err idempotency_conflict)
  | None => (st, plan, Ok (Create (new_session q now deploy_uuid token_uuid)))
  end.

(** The second locked block: the session is published unless another request with the
    same key won the race; then the file just created is added to the plan. *)
Definition prepare_publish (candidate : UploadSession) (now : Z) (st : StoreState)
    : StoreState * CleanupPlan * iresult DeployPrepareResponse :=
  let '(st, plan) := collect_session_cleanup_locked cfg pinned now None st in
  match existing_session (us_idempotency_key candidate) st with
  | Some (existing_id, existing) =>
    let plan := plan ++ [us_file_path candidate] in
    if decide (us_fingerprint existing = us_fingerprint candidate) then
      let existing := us_touch now existing in
      (put_session existing_id existing st, plan,
       Ok (build_prepare_response existing (upload_session_ttl_secs cfg) now))
    else (st, plan, Err idempotency_conflict)
  | None =>
    let candidate := us_touch now candidate in
    ({| sessions := <[us_deploy_id candidate := candidate]> (sessions st);
        idempotency :=
          <[us_idempotency_key candidate := us_deploy_id candidate]> (idempotency st) |},
     plan, Ok (build_prepare_response candidate (upload_session_ttl_secs cfg) now))
  end.
End prepare.

(** ** [push] *)

Section push.
Context `{Crates} (cfg : StoreConfig) (pinned : gmap string Z).

Definition push_checks (q : ArtifactPushRequest) : iresult Z :=
  let header := pq_header q in
  _ ← ensure (negb (max_chunk_size cfg <? ch_length header))
        (with_detail "chunk_size" (to_string (max_chunk_size cfg))
          (with_detail "chunk_length" (to_string (ch_length header))
            (new_error RangeInvalid STAGE_PUSH
               "chunk length exceeds configured chunk_size")));
  _ ← ensure (zlen (pq_chunk q) =? ch_length header)
        (new_error RangeInvalid STAGE_PUSH "chunk length does not match header.length");
  _ ← ensure (bool_decide (sha256_hex (pq_chunk q) = ch_chunk_sha256 header))
        (new_error ChunkHashMismatch STAGE_PUSH "chunk sha256 mismatch");
  ok_or (checked_add (ch_length header) (ch_offset header))
    (new_error RangeInvalid STAGE_PUSH "chunk overflow").

(** The checks on the session, in the order of the first locked block. *)
Definition push_admit (header : ArtifactPushChunkHeader) (chunk_end : Z) (s : UploadSession)
    : iresult unit :=
  _ ← ensure (bool_decide (us_upload_token s = ch_upload_token header))
        (new_error Unauthorized STAGE_PUSH "upload_token mismatch");
  _ ← ensure (negb (us_commit_in_progress s))
        (new_error Busy STAGE_PUSH "artifact commit is in progress");
  _ ← ensure (negb (us_committed s))
        (new_error BadRequest STAGE_PUSH "artifact is already committed");
  _ ← ensure (negb (us_artifact_size s <? chunk_end))
        (new_error RangeInvalid STAGE_PUSH "chunk range is outside artifact size");
  ensure (negb (max_inflight_chunks cfg <=? us_inflight_writes s))
    (new_error Busy STAGE_PUSH "max_inflight_chunks limit reached").

(** The first locked block of [push]: an error leaves the handler at once, so the
    cleanup plan it collected is returned only with success. *)
Definition push_begin (header : ArtifactPushChunkHeader) (chunk_end now : Z) (st : StoreState)
    : StoreState * iresult (CleanupPlan * string) :=
  let '(st, plan) := collect_session_cleanup_locked cfg pinned now None st in
  let d := ch_deploy_id header in
  match sessions st !! d with
  | None => (st, Err (new_error NotFound STAGE_PUSH "deploy_id is not found"))
  | Some s =>
    match push_admit header chunk_end s with
    | Err e => (st, Err e)
    | Ok _ =>
      (put_session d
         (us_progress (us_received_ranges s) (us_committed s) (us_inflight_writes s + 1)
            (us_commit_in_progress s) now s) st,
       Ok (plan, us_file_path s))
    end
  end.
End push.

(** The second locked block of [push]. *)
Definition push_end (header : ArtifactPushChunkHeader) (chunk_end now : Z)
    (write_result : iresult unit) (st : StoreState) : StoreState * iresult ArtifactPushAck :=
  let d := ch_deploy_id header in
  match sessions st !! d with
  | None => (st, Err (map_internal STAGE_PUSH "session disappeared during artifact.push"))
  | Some s =>
    let inflight := if 0 <? us_inflight_writes s then us_inflight_writes s - 1
                    else us_inflight_writes s in
    match write_result with
    | Err e =>
      (put_session d
         (us_progress (us_received_ranges s) (us_committed s) inflight
            (us_commit_in_progress s) (us_updated_at_epoch_secs s) s) st, Err e)
    | Ok _ =>
      let ranges := merge_range (us_received_ranges s)
                      (range_from_start_end (ch_offset header) chunk_end) in
      (put_session d
         (us_progress ranges (us_committed s) inflight (us_commit_in_progress s) now s) st,
       Ok {| pa_received_ranges := ranges;
             pa_next_missing_range := next_missing_range ranges (us_artifact_size s);
             pa_accepted_bytes := ch_length header |})
    end
  end.

(** ** [commit] *)

Definition commit_admit (q : ArtifactCommitRequest) (s : UploadSession) : iresult unit :=
  _ ← ensure (negb (negb (bool_decide (cq_artifact_digest q = us_artifact_digest s))
                    || negb (cq_artifact_size q =? us_artifact_size s)
                    || negb (bool_decide (cq_manifest_digest q = us_manifest_digest s))))
        (new_error BadRequest STAGE_COMMIT "artifact metadata mismatch");
  _ ← ensure (negb (us_commit_in_progress s))
        (new_error Busy STAGE_COMMIT "artifact commit is already in progress");
  _ ← ensure (negb (0 <? us_inflight_writes s))
        (new_error Busy STAGE_COMMIT "artifact has in-flight writes");
  ensure (is_complete (us_received_ranges s) (us_artifact_size s))
    (new_error ArtifactIncomplete STAGE_COMMIT "artifact is incomplete").

Section commit.
Context (cfg : StoreConfig) (pinned : gmap string Z).

(** The first locked block of [commit]; as in [push], errors drop the plan. *)
Definition commit_begin (q : ArtifactCommitRequest) (now : Z) (st : StoreState)
    : StoreState * iresult (CleanupPlan * string * string) :=
  let '(st, plan) := collect_session_cleanup_locked cfg pinned now None st in
  let d := cq_deploy_id q in
  match sessions st !! d with
  | None => (st, Err (new_error NotFound STAGE_COMMIT "deploy_id is not found"))
  | Some s =>
    match commit_admit q s with
    | Err e => (st, Err e)
    | Ok _ =>
      (put_session d
         (us_progress (us_received_ranges s) (us_committed s) (us_inflight_writes s)
            true now s) st,
       Ok (plan, us_file_path s, us_artifact_digest s))
    end
  end.

(** The second locked block of [commit]. *)
Definition commit_end (q : ArtifactCommitRequest) (now : Z) (expected_digest : string)
    (digest_result : iresult string) (st : StoreState)
    : StoreState * iresult (CleanupPlan * ArtifactCommitResponse) :=
  let d := cq_deploy_id q in
  match sessions st !! d with
  | None => (st, Err (map_internal STAGE_COMMIT "session disappeared during artifact.commit"))
  | Some s =>
    let s := us_progress (us_received_ranges s) (us_committed s) (us_inflight_writes s)
               false now s in
    match digest_result with
    | Err e => (put_session d s st, Err e)
    | Ok digest =>
      if decide (digest = expected_digest) then
        let s := us_progress (us_received_ranges s) true (us_inflight_writes s)
                   (us_commit_in_progress s) now s in
        let '(st, plan) := collect_session_cleanup_locked cfg pinned now
                             (Some (us_deploy_id s)) (put_session d s st) in
        (st, Ok (plan, {| cr_artifact_id := us_artifact_digest s; cr_verified := true |}))
      else (put_session d s st,
            Err (new_error BadManifest STAGE_COMMIT "artifact digest mismatch"))
    end
  end.

(** ** Lookups and purge *)

(** The locked block shared by [committed_artifact] and [service_name_for_deploy];
    [view] builds the reply. *)
Definition with_committed_session {A} (view : UploadSession → A) (deploy_id : string)
    (now : Z) (st : StoreState) : StoreState * iresult (CleanupPlan * A) :=
  let '(st, plan) := collect_session_cleanup_locked cfg pinned now (Some deploy_id) st in
  match sessions st !! deploy_id with
  | None => (st, Err (new_error NotFound STAGE_ORCHESTRATE
                        "deploy_id is not found for command.start"))
  | Some s =>
    if us_committed s then
      (put_session deploy_id (us_touch now s) st, Ok (plan, view s))
    else (st, Err (new_error ArtifactIncomplete STAGE_ORCHESTRATE
                     "artifact.commit has not been completed"))
  end.

Definition committed_artifact_locked : string → Z → StoreState →
    StoreState * iresult (CleanupPlan * CommittedArtifact) :=
  with_committed_session (λ s,
    {| ca_deploy_id := us_deploy_id s; ca_path := us_file_path s;
       ca_manifest_digest := us_manifest_digest s;
       ca_artifact_digest := us_artifact_digest s |}).

Definition service_name_for_deploy_locked : string → Z → StoreState →
    StoreState * iresult (CleanupPlan * string) :=
  with_committed_session us_service_name.

Definition purge_locked (deploy_id : string) (now : Z) (st : StoreState)
    : StoreState * CleanupPlan :=
  let '(st1, plan1) := collect_session_cleanup_locked cfg pinned now (Some deploy_id) st in
  let '(st2, plan2) := collect_sessions_by_deploy_ids [deploy_id] st1 in
  (st2, plan1 ++ plan2).
End commit.

(** ** Files *)

(** [create_preallocated_file] and [write_chunk_to_file] when no I/O error occurs. *)
Definition create_preallocated_file (path : string) (size : Z) (f : Fs) : Fs :=
  let '(f, ino) := fs_create path f in
  fs_update ino (λ c, set_len c (Z.to_nat size)) f.

Definition write_chunk_to_file (path : string) (off : Z) (chunk : list byte) (f : Fs)
    : Fs * iresult unit :=
  match fs_open path f with
  | Some ino => (fs_update ino (λ c, write_at c (Z.to_nat off) chunk) f, Ok tt)
  | None => (f, Err (map_internal STAGE_PUSH "No such file or directory"))
  end.

Definition digest_file `{Crates} (path : string) (f : Fs) : iresult string :=
  match fs_read path f with
  | Some content => Ok (sha256_hex content)
  | None => Err (map_internal STAGE_COMMIT "No such file or directory")
  end.

Definition apply_cleanup_plan (plan : CleanupPlan) (f : Fs) : Fs :=
  foldl (λ f path, fs_remove path f) f plan.

(** ** Handlers run without interference or I/O errors *)

Record Node := { node_store : StoreState; node_pinned : gmap string Z; node_fs : Fs }.

Definition node_with (st : StoreState) (f : Fs) (n : Node) : Node :=
  {| node_store := st; node_pinned := node_pinned n; node_fs := f |}.

Section handlers.
Context `{Crates} (cfg : StoreConfig).

Definition prepare (q : DeployPrepareRequest) (now now_after_io : Z)
    (deploy_uuid token_uuid : Uuid) (n : Node) : Node * iresult DeployPrepareResponse :=
  match prepare_checks cfg q with
  | Err e => (n, Err e)
  | Ok _ =>
    let '(st, plan, decision) :=
      prepare_decide cfg (node_pinned n) q now deploy_uuid token_uuid (node_store n) in
    match decision with
    | Err e => (node_with st (apply_cleanup_plan plan (node_fs n)) n, Err e)
    | Ok (Existing response) =>
      (node_with st (apply_cleanup_plan plan (node_fs n)) n, Ok response)
    | Ok (Create candidate) =>
      let f := create_preallocated_file (us_file_path candidate)
                 (us_artifact_size candidate) (node_fs n) in
      let '(st, plan', result) :=
        prepare_publish cfg (node_pinned n) candidate now_after_io st in
      (node_with st (apply_cleanup_plan (plan ++ plan') f) n, result)
    end
  end.

Definition push (q : ArtifactPushRequest) (now : Z) (n : Node) : Node * iresult ArtifactPushAck :=
  match push_checks cfg q with
  | Err e => (n, Err e)
  | Ok chunk_end =>
    let '(st, begin_) :=
      push_begin cfg (node_pinned n) (pq_header q) chunk_end now (node_store n) in
    match begin_ with
    | Err e => (node_with st (node_fs n) n, Err e)
    | Ok (plan, path) =>
      let '(f, write_result) :=
        write_chunk_to_file path (ch_offset (pq_header q)) (pq_chunk q) (node_fs n) in
      let '(st, result) := push_end (pq_header q) chunk_end now write_result st in
      match result with
      | Err e => (node_with st f n, Err e)
      | Ok ack => (node_with st (apply_cleanup_plan plan f) n, Ok ack)
      end
    end
  end.

Definition commit (q : ArtifactCommitRequest) (now : Z) (n : Node)
    : Node * iresult ArtifactCommitResponse :=
  let '(st, begin_) := commit_begin cfg (node_pinned n) q now (node_store n) in
  match begin_ with
  | Err e => (node_with st (node_fs n) n, Err e)
  | Ok (plan, path, expected_digest) =>
    let digest_result := digest_file path (node_fs n) in
    let '(st, result) :=
      commit_end cfg (node_pinned n) q now expected_digest digest_result st in
    match result with
    | Err e => (node_with st (node_fs n) n, Err e)
    | Ok (plan', response) =>
      (node_with st (apply_cleanup_plan (plan ++ plan') (node_fs n)) n, Ok response)
    end
  end.

Definition finish_lookup {A} (r : StoreState * iresult (CleanupPlan * A)) (n : Node)
    : Node * iresult A :=
  match r with
  | (st, Err e) => (node_with st (node_fs n) n, Err e)
  | (st, Ok (plan, a)) => (node_with st (apply_cleanup_plan plan (node_fs n)) n, Ok a)
  end.

Definition committed_artifact (deploy_id : string) (now : Z) (n : Node)
    : Node * iresult CommittedArtifact :=
  finish_lookup
    (committed_artifact_locked cfg (node_pinned n) deploy_id now (node_store n)) n.

Definition service_name_for_deploy (deploy_id : string) (now : Z) (n : Node)
    : Node * iresult string :=
  finish_lookup
    (service_name_for_deploy_locked cfg (node_pinned n) deploy_id now (node_store n)) n.

Definition purge_deploy_session (deploy_id : string) (now : Z) (n : Node) : Node :=
  let '(st, plan) := purge_locked cfg (node_pinned n) deploy_id now (node_store n) in
  node_with st (apply_cleanup_plan plan (node_fs n)) n.
End handlers.

(** ** What garbage collection may do

    [indexed] is the invariant of the two maps: the idempotency index and the sessions
    name each other.  [cleaned P st st' plan]: some sessions satisfying [P] are gone,
    the plan holds exactly their files, everything else is as before. *)

Definition indexed (st : StoreState) : Prop :=
  (∀ k d, idempotency st !! k = Some d →
     ∃ s, sessions st !! d = Some s ∧ us_idempotency_key s = k) ∧
  (∀ d s, sessions st !! d = Some s → idempotency st !! us_idempotency_key s = Some d).

Record cleaned (P : string → UploadSession → Prop) (st st' : StoreState)
    (plan : CleanupPlan) : Prop := {
  cleaned_sub : sessions st' ⊆ sessions st;
  cleaned_gone d s : sessions st !! d = Some s → sessions st' !! d = None →
    P d s ∧ us_file_path s ∈ plan;
  cleaned_plan p : p ∈ plan →
    ∃ d s, sessions st !! d = Some s ∧ sessions st' !! d = None ∧ p = us_file_path s;
  cleaned_indexed : indexed st → indexed st';
}.

Lemma cleaned_refl P st : cleaned P st st [].
Proof. split; [done|naive_solver|by intros p ?%elem_of_nil|done]. Qed.

Lemma cleaned_trans P st1 st2 st3 plan1 plan2 :
  cleaned P st1 st2 plan1 → cleaned P st2 st3 plan2 → cleaned P st1 st3 (plan1 ++ plan2).
Proof.
  intros [S1 G1 P1 I1] [S2 G2 P2 I2]. split.
  - by transitivity (sessions st2).
  - intros d s Hs Hn. rewrite elem_of_app. destruct (sessions st2 !! d) as [s2|] eqn:H2.
    + assert (s2 = s) as -> by (eapply lookup_weaken in H2; [|exact S1]; congruence).
      destruct (G2 d s); auto.
    + destruct (G1 d s); auto.
  - intros p [Hp|Hp]%elem_of_app.
    + destruct (P1 p Hp) as (d & s & ? & Hn & ->). exists d, s. split_and!; try done.
      destruct (sessions st3 !! d) eqn:E; [|done]. eapply lookup_weaken in E; [|exact S2].
      congruence.
    + destruct (P2 p Hp) as (d & s & H2 & ? & ->). exists d, s. split_and!; try done.
      by eapply lookup_weaken.
  - auto.
Qed.

Lemma cleaned_weaken (P Q : string → UploadSession → Prop) st st' plan :
  (∀ d s, sessions st !! d = Some s → P d s → Q d s) →
  cleaned P st st' plan → cleaned Q st st' plan.
Proof. intros HPQ [S G Pl I]. split; try done. intros d s Hs Hn. destruct (G d s); auto. Qed.

Lemma indexed_inj st d1 d2 s1 s2 :
  indexed st → sessions st !! d1 = Some s1 → sessions st !! d2 = Some s2 →
  us_idempotency_key s1 = us_idempotency_key s2 → d1 = d2.
Proof. intros [_ I] H1%I H2%I E. rewrite E in H1. congruence. Qed.

Lemma indexed_remove st d s :
  indexed st → sessions st !! d = Some s →
  indexed {| sessions := delete d (sessions st);
             idempotency := delete (us_idempotency_key s) (idempotency st) |}.
Proof.
  intros HI Hs. pose proof HI as [I1 I2]. split; simpl.
  - intros k d'. rewrite lookup_delete_Some. intros [Hk (s' & Hs' & <-)%I1].
    exists s'. rewrite lookup_delete_ne; [done|]. intros ->. congruence.
  - intros d' s'. rewrite !lookup_delete_Some. intros [Hne Hs']. split; [|by apply I2].
    intros E. eapply Hne, indexed_inj; eauto.
Qed.

Lemma collect_removal_spec ids : ∀ st st' plan,
  collect_sessions_for_removal_locked ids st = (st', plan) →
  cleaned (λ d _, d ∈ ids) st st' plan.
Proof.
  induction ids as [|d ids IH]; intros st st' plan Hc; simpl in Hc.
  { simplify_eq. apply cleaned_refl. }
  destruct (sessions st !! d) as [s|] eqn:Hs.
  - destruct (collect_sessions_for_removal_locked _ _) as [st2 files] eqn:E.
    apply IH in E. simplify_eq.
    change (us_file_path s :: files) with ([us_file_path s] ++ files).
    eapply cleaned_trans; [|eapply cleaned_weaken, E; intros; by constructor].
    split; simpl.
    + apply delete_subseteq.
    + intros d' s' Hs' [->|?]%lookup_delete_None; [|congruence].
      split; [constructor|]. simplify_eq. constructor.
    + intros p ->%list_elem_of_singleton. exists d, s. by rewrite lookup_delete_eq.
    + intros HI. rewrite bool_decide_eq_true_2 by by apply HI. by apply indexed_remove.
  - eapply cleaned_weaken; [|by apply IH]. intros. by constructor.
Qed.

(** After a removal round no id of the list is left. *)
Lemma collect_removal_gone ids : ∀ st d,
  d ∈ ids → sessions (collect_sessions_for_removal_locked ids st).1 !! d = None.
Proof.
  assert (Hsub : ∀ ids st, sessions (collect_sessions_for_removal_locked ids st).1
                             ⊆ sessions st).
  { clear. intros ids st. destruct (collect_sessions_for_removal_locked ids st) eqn:E.
    by eapply cleaned_sub, collect_removal_spec. }
  induction ids as [|d' ids IH]; intros st d; [by intros ?%elem_of_nil|].
  intros [->|Hin]%elem_of_cons; simpl.
  - destruct (sessions st !! d') as [s|] eqn:Hs.
    + destruct (collect_sessions_for_removal_locked _ _) as [st2 files] eqn:E. simpl.
      apply lookup_weaken_None with (delete d' (sessions st)); [apply lookup_delete_eq|].
      eapply (cleaned_sub _ _ _ _ (collect_removal_spec _ _ _ _ E)).
    + by eapply lookup_weaken_None.
  - destruct (sessions st !! d') as [s|] eqn:Hs; [|by apply IH].
    destruct (collect_sessions_for_removal_locked _ _) as [st2 files] eqn:E. simpl.
    erewrite <-(IH _ d Hin). by rewrite E.
Qed.

(** Who may be collected: never a busy session; an uncommitted one only when its time
    is up; a committed one only when it is not protected. *)
Definition collectable (cfg : StoreConfig) (protected : gset string) (now : Z)
    (d : string) (s : UploadSession) : Prop :=
  session_busy s = false ∧
  (us_committed s = false →
   upload_session_ttl_secs cfg <= now -ˢ us_updated_at_epoch_secs s) ∧
  (us_committed s = true → d ∉ protected).

Definition protected_set (pinned : gmap string Z) (keep : option string) : gset string :=
  match keep with
  | Some d => if bool_decide (d = "") then dom pinned else {[d]} ∪ dom pinned
  | None => dom pinned
  end.

Lemma elem_of_expired_ids st now ttl d :
  d ∈ expired_ids st now ttl ↔
  ∃ s, sessions st !! d = Some s ∧ us_committed s = false ∧ session_busy s = false ∧
       ttl <= now -ˢ us_updated_at_epoch_secs s.
Proof.
  unfold expired_ids. rewrite list_elem_of_omap. split.
  - intros ([d' s] & Hin%elem_of_btree_iter & H). exists s.
    destruct (us_committed s), (session_busy s); simpl in *; try done.
    destruct (ttl <=? _) eqn:E; simplify_eq. apply Z.leb_le in E. done.
  - intros (s & Hs & Hc & Hb & Ht). exists (d, s). rewrite elem_of_btree_iter, Hc, Hb. simpl.
    by rewrite (proj2 (Z.leb_le _ _)).
Qed.

Lemma elem_of_orphan_expired st now ttl protected d :
  d ∈ orphan_expired_ids st now ttl protected ↔
  ∃ s, sessions st !! d = Some s ∧ us_committed s = true ∧ session_busy s = false ∧
       d ∉ protected ∧ ttl <= now -ˢ us_updated_at_epoch_secs s.
Proof.
  unfold orphan_expired_ids. rewrite list_elem_of_omap. split.
  - intros ([d' s] & Hin%elem_of_btree_iter & H). exists s.
    destruct (us_committed s), (session_busy s); simpl in *; try done.
    case_bool_decide; [done|].
    destruct (ttl <=? _) eqn:E; simplify_eq. apply Z.leb_le in E. done.
  - intros (s & Hs & Hc & Hb & Hp & Ht). exists (d, s).
    rewrite elem_of_btree_iter, Hc, Hb, bool_decide_eq_false_2 by done. simpl.
    by rewrite (proj2 (Z.leb_le _ _)).
Qed.

Lemma elem_of_orphan_survivors st protected removed d u :
  (d, u) ∈ orphan_survivors st protected removed ↔
  ∃ s, sessions st !! d = Some s ∧ us_committed s = true ∧ session_busy s = false ∧
       d ∉ protected ∧ d ∉ removed ∧ u = us_updated_at_epoch_secs s.
Proof.
  unfold orphan_survivors. rewrite list_elem_of_omap. split.
  - intros ([d' s] & Hin%elem_of_btree_iter & H). exists s.
    destruct (us_committed s), (session_busy s); simpl in *; try done.
    repeat case_bool_decide; by simplify_eq.
  - intros (s & Hs & Hc & Hb & Hp & Hr & ->). exists (d, s).
    by rewrite elem_of_btree_iter, Hc, Hb, !bool_decide_eq_false_2.
Qed.

Lemma orphan_ids_spec st now ttl max protected d :
  d ∈ orphan_ids st now ttl max protected →
  ∃ s, sessions st !! d = Some s ∧ us_committed s = true ∧ session_busy s = false ∧
       d ∉ protected.
Proof.
  unfold orphan_ids.
  assert (∀ d, d ∈ orphan_expired_ids st now ttl protected →
    ∃ s, sessions st !! d = Some s ∧ us_committed s = true ∧ session_busy s = false ∧
         d ∉ protected) as Hexp.
  { intros d' (s & ?)%elem_of_orphan_expired. exists s. naive_solver. }
  destruct (_ <? _); [|by auto]. rewrite elem_of_app. intros [?|Hin]; [by auto|].
  apply list_elem_of_fmap in Hin as ([d' u] & -> & Hin).
  apply elem_of_take in Hin as (i & Hin & _). apply list_elem_of_lookup_2 in Hin.
  rewrite elem_of_sort_by in Hin. apply elem_of_orphan_survivors in Hin as (s & ?).
  exists s. naive_solver.
Qed.

Lemma cleanup_orphan_idempotency_cleaned P st :
  cleaned P st (cleanup_orphan_idempotency st) [].
Proof.
  split; simpl; [done|naive_solver|by intros p ?%elem_of_nil|].
  intros [I1 I2]. split; simpl.
  - intros k d [? _]%map_lookup_filter_Some. by apply I1.
  - intros d s Hs. apply map_lookup_filter_Some. split; [by apply I2|]. by rewrite Hs.
Qed.

Lemma collect_session_cleanup_spec cfg pinned now keep st st' plan :
  collect_session_cleanup_locked cfg pinned now keep st = (st', plan) →
  cleaned (collectable cfg (protected_set pinned keep) now) st st' plan.
Proof.
  unfold collect_session_cleanup_locked. intros Hc.
  destruct (collect_expired_sessions _ _ _) as [st1 plan1] eqn:E1.
  destruct (collect_orphan_committed_sessions _ _ _ _ _) as [st2 plan2] eqn:E2.
  apply collect_removal_spec in E1, E2. simplify_eq.
  eapply cleaned_trans.
  - eapply cleaned_weaken; [|exact E1].
    intros d s Hs (s' & Hs' & ? & ? & ?)%elem_of_expired_ids. simplify_eq.
    split_and!; [done|done|congruence].
  - rewrite <-(app_nil_r plan2). eapply cleaned_trans.
    + eapply cleaned_weaken; [|exact E2].
      intros d s Hs (s' & Hs' & ? & ? & Hp)%orphan_ids_spec. simplify_eq.
      split_and!; [done|congruence|]. intros _. exact Hp.
    + apply cleanup_orphan_idempotency_cleaned.
Qed.

Lemma purge_locked_spec cfg pinned d now st st' plan :
  purge_locked cfg pinned d now st = (st', plan) →
  cleaned (λ _ _, True) st st' plan ∧ sessions st' !! d = None.
Proof.
  unfold purge_locked. destruct (collect_session_cleanup_locked _ _ _ _ _) as [st1 p1] eqn:E1.
  destruct (collect_sessions_by_deploy_ids _ _) as [st2 p2] eqn:E2. intros ?. simplify_eq.
  split.
  - eapply cleaned_trans; eapply cleaned_weaken.
    2: by eapply collect_session_cleanup_spec. 3: by eapply collect_removal_spec.
    all: done.
  - pose proof (collect_removal_gone [d] st1 d) as Hg.
    unfold collect_sessions_by_deploy_ids in E2. rewrite E2 in Hg. apply Hg. constructor.
Qed.
