(* ===== verification/ArtifactLts.v ===== *)
(** * The artifact store under concurrency

    Requests run concurrently: each one is a task that holds the state mutex only
    inside the locked blocks of ArtifactStore and awaits file operations in between.
    A label of the transition system is one locked block or one file operation of one
    task; it carries everything the code does not decide (times, fresh UUIDs, sizes of
    partial reads and writes, I/O errors, cancellation of a task).  [step] is
    executable; [reach] is reachability; [Inv] is the invariant and the theorems at the
    end are its consequences. *)

From S2P Require Import Prelude Protocol ByteRanges Files ArtifactStore.

Open Scope Z_scope.

Inductive Reply :=
  | RPrepare (r : iresult DeployPrepareResponse)
  | RPush (r : iresult ArtifactPushAck)
  | RCommit (r : iresult ArtifactCommitResponse)
  | RCommitted (r : iresult CommittedArtifact)
  | RServiceName (r : iresult string)
  | RPurge.

(** Where a request is between two of its awaits. *)
Inductive Task :=
  | TPrepareCreate (plan : CleanupPlan) (candidate : UploadSession)
  | TPreparePublish (plan : CleanupPlan) (candidate : UploadSession)
  | TPushOpen (plan : CleanupPlan) (q : ArtifactPushRequest) (chunk_end now : Z) (path : string)
  | TPushWrite (plan : CleanupPlan) (q : ArtifactPushRequest) (chunk_end now : Z)
      (ino : N) (written : nat)
  | TPushDone (plan : CleanupPlan) (q : ArtifactPushRequest) (chunk_end now : Z)
      (write_result : iresult unit)
  | TCommitOpen (plan : CleanupPlan) (q : ArtifactCommitRequest) (now : Z)
      (path expected : string)
  | TCommitRead (plan : CleanupPlan) (q : ArtifactCommitRequest) (now : Z)
      (expected : string) (ino : N) (acc : list byte)
  | TCommitDone (plan : CleanupPlan) (q : ArtifactCommitRequest) (now : Z)
      (expected : string) (digest_result : iresult string)
  | TCleanup (plan : CleanupPlan) (reply : Reply).

(** [w_issued] is a ghost: the UUIDs drawn for deploy ids so far; a version 4 UUID is
    never drawn twice. *)
Record World := {
  w_store : StoreState;
  w_pinned : gmap string Z;
  w_fs : Fs;
  w_tasks : gmap nat Task;
  w_issued : gset Uuid;
}.

Inductive Label :=
  | LPrepare (t : nat) (q : DeployPrepareRequest) (now : Z) (deploy_uuid token_uuid : Uuid)
  | LCreate (t : nat) (fault : option (bool * string))
  | LPublish (t : nat) (now : Z)
  | LPush (t : nat) (q : ArtifactPushRequest) (now : Z)
  | LPushOpen (t : nat) (fault : option string)
  | LPushWrite (t : nat) (n : nat)
  | LPushFail (t : nat) (msg : string)
  | LPushEnd (t : nat)
  | LCommit (t : nat) (q : ArtifactCommitRequest) (now : Z)
  | LCommitOpen (t : nat) (fault : option string)
  | LCommitRead (t : nat) (n : nat)
  | LCommitFail (t : nat) (msg : string)
  | LCommitEnd (t : nat)
  | LCommitted (t : nat) (d : string) (now : Z)
  | LServiceName (t : nat) (d : string) (now : Z)
  | LPurge (t : nat) (d : string) (now : Z)
  | LCleanup (t : nat) (removed : bool)
  | LPin (d : string)
  | LUnpin (d : string)
  | LAbort (t : nat).

Definition is_abort (l : Label) : bool := match l with LAbort _ => true | _ => false end.

Definition with_tasks (st : StoreState) (f : Fs) (ts : gmap nat Task) (w : World) : World :=
  {| w_store := st; w_pinned := w_pinned w; w_fs := f; w_tasks := ts; w_issued := w_issued w |}.

(** Set task [t] and the store; set task [t] and the files. *)
Definition set_store (t : nat) (k : Task) (st : StoreState) (w : World) : World :=
  with_tasks st (w_fs w) (<[t := k]> (w_tasks w)) w.
Definition set_fs (t : nat) (k : Task) (f : Fs) (w : World) : World :=
  with_tasks (w_store w) f (<[t := k]> (w_tasks w)) w.

Definition DIGEST_BUF : Z := 1024 * 64.

Section lts.
Context `{Crates} (cfg : StoreConfig).

Definition step_prepare (t : nat) (q : DeployPrepareRequest) (now : Z)
    (deploy_uuid token_uuid : Uuid) (w : World) : option World :=
  match prepare_checks cfg q with
  | Err e => Some (set_store t (TCleanup [] (RPrepare (Err e))) (w_store w) w)
  | Ok _ =>
    let '(st, plan, decision) :=
      prepare_decide cfg (w_pinned w) q now deploy_uuid token_uuid (w_store w) in
    match decision with
    | Err e => Some (set_store t (TCleanup plan (RPrepare (Err e))) st w)
    | Ok (Existing response) => Some (set_store t (TCleanup plan (RPrepare (Ok response))) st w)
    | Ok (Create candidate) =>
      guard (deploy_uuid ∉ w_issued w);;
      Some {| w_store := st; w_pinned := w_pinned w; w_fs := w_fs w;
              w_tasks := <[t := TPrepareCreate plan candidate]> (w_tasks w);
              w_issued := {[deploy_uuid]} ∪ w_issued w |}
    end
  end.

(** [create_preallocated_file]; a failing call may leave the opened, truncated file. *)
Definition step_create (t : nat) (fault : option (bool * string)) (plan : CleanupPlan)
    (candidate : UploadSession) (w : World) : World :=
  let path := us_file_path candidate in
  match fault with
  | None => set_fs t (TPreparePublish plan candidate)
              (create_preallocated_file path (us_artifact_size candidate) (w_fs w)) w
  | Some (opened, msg) =>
    set_fs t (TCleanup plan (RPrepare (Err (map_internal STAGE_PREPARE msg))))
      (if opened : bool then (fs_create path (w_fs w)).1 else w_fs w) w
  end.

Definition step_publish (t : nat) (now : Z) (plan : CleanupPlan) (candidate : UploadSession)
    (w : World) : World :=
  let '(st, plan', result) := prepare_publish cfg (w_pinned w) candidate now (w_store w) in
  set_store t (TCleanup (plan ++ plan') (RPrepare result)) st w.

Definition step_push (t : nat) (q : ArtifactPushRequest) (now : Z) (w : World) : World :=
  match push_checks cfg q with
  | Err e => set_store t (TCleanup [] (RPush (Err e))) (w_store w) w
  | Ok chunk_end =>
    match push_begin cfg (w_pinned w) (pq_header q) chunk_end now (w_store w) with
    | (st, Err e) => set_store t (TCleanup [] (RPush (Err e))) st w
    | (st, Ok (plan, path)) => set_store t (TPushOpen plan q chunk_end now path) st w
    end
  end.

Definition step_push_open (t : nat) (fault : option string) plan q chunk_end now path
    (w : World) : World :=
  match fault, fs_open path (w_fs w) with
  | None, Some ino => set_fs t (TPushWrite plan q chunk_end now ino 0) (w_fs w) w
  | None, None =>
    set_fs t (TPushDone plan q chunk_end now
                (Err (map_internal STAGE_PUSH "No such file or directory"))) (w_fs w) w
  | Some msg, _ =>
    set_fs t (TPushDone plan q chunk_end now (Err (map_internal STAGE_PUSH msg))) (w_fs w) w
  end.

(** One [write] of [write_all]: [n] bytes of the chunk reach the file. *)
Definition step_push_write (t : nat) (n : nat) plan q chunk_end now ino (written : nat)
    (w : World) : option World :=
  guard (0 < n ∧ written + n ≤ length (pq_chunk q))%nat;;
  let data := take n (drop written (pq_chunk q)) in
  let off := (Z.to_nat (ch_offset (pq_header q)) + written)%nat in
  let f := fs_update ino (λ c, write_at c off data) (w_fs w) in
  Some (set_fs t (if decide (written + n = length (pq_chunk q))%nat
                  then TPushDone plan q chunk_end now (Ok tt)
                  else TPushWrite plan q chunk_end now ino (written + n)) f w).

Definition step_push_end (t : nat) plan q chunk_end now write_result (w : World) : World :=
  match push_end (pq_header q) chunk_end now write_result (w_store w) with
  | (st, Err e) => set_store t (TCleanup [] (RPush (Err e))) st w
  | (st, Ok ack) => set_store t (TCleanup plan (RPush (Ok ack))) st w
  end.

Definition step_commit (t : nat) (q : ArtifactCommitRequest) (now : Z) (w : World) : World :=
  match commit_begin cfg (w_pinned w) q now (w_store w) with
  | (st, Err e) => set_store t (TCleanup [] (RCommit (Err e))) st w
  | (st, Ok (plan, path, expected)) => set_store t (TCommitOpen plan q now path expected) st w
  end.

Definition step_commit_open (t : nat) (fault : option string) plan q now path expected
    (w : World) : World :=
  match fault, fs_open path (w_fs w) with
  | None, Some ino => set_fs t (TCommitRead plan q now expected ino []) (w_fs w) w
  | None, None =>
    set_fs t (TCommitDone plan q now expected
                (Err (map_internal STAGE_COMMIT "No such file or directory"))) (w_fs w) w
  | Some msg, _ =>
    set_fs t (TCommitDone plan q now expected (Err (map_internal STAGE_COMMIT msg))) (w_fs w) w
  end.

(** One [read] of the digest loop: no bytes exactly at the end of the file. *)
Definition step_commit_read (t : nat) (n : nat) plan q now expected ino acc (w : World)
    : option World :=
  let rest := drop (length acc) (fs_content ino (w_fs w)) in
  if decide (rest = []) then
    guard (n = 0%nat);;
    Some (set_fs t (TCommitDone plan q now expected (Ok (sha256_hex acc))) (w_fs w) w)
  else
    guard (0 < n ≤ length rest)%nat;; guard (Z.of_nat n ≤ DIGEST_BUF);;
    Some (set_fs t (TCommitRead plan q now expected ino (acc ++ take n rest)) (w_fs w) w).

Definition step_commit_end (t : nat) plan q now expected digest_result (w : World) : World :=
  match commit_end cfg (w_pinned w) q now expected digest_result (w_store w) with
  | (st, Err e) => set_store t (TCleanup [] (RCommit (Err e))) st w
  | (st, Ok (plan', response)) =>
    set_store t (TCleanup (plan ++ plan') (RCommit (Ok response))) st w
  end.

Definition step_lookup {A} (t : nat) (reply : iresult A → Reply)
    (r : StoreState * iresult (CleanupPlan * A)) (w : World) : World :=
  match r with
  | (st, Err e) => set_store t (TCleanup [] (reply (Err e))) st w
  | (st, Ok (plan, a)) => set_store t (TCleanup plan (reply (Ok a))) st w
  end.

Definition step_purge (t : nat) (d : string) (now : Z) (w : World) : World :=
  let '(st, plan) := purge_locked cfg (w_pinned w) d now (w_store w) in
  set_store t (TCleanup plan RPurge) st w.

(** [apply_cleanup_plan] one file at a time; a removal that fails is only logged.
    With nothing left to remove the request returns. *)
Definition step_cleanup (t : nat) (removed : bool) (plan : CleanupPlan) (reply : Reply)
    (w : World) : World :=
  match plan with
  | [] => with_tasks (w_store w) (w_fs w) (delete t (w_tasks w)) w
  | path :: plan' =>
    set_fs t (TCleanup plan' reply) (if removed then fs_remove path (w_fs w) else w_fs w) w
  end.

Definition set_pinned (p : gmap string Z) (w : World) : World :=
  {| w_store := w_store w; w_pinned := p; w_fs := w_fs w; w_tasks := w_tasks w;
     w_issued := w_issued w |}.

(** Requests reach the store after the protocol's validation, with [u64] fields. *)
Definition prepare_typed (q : DeployPrepareRequest) : Prop := in_u64 (dp_artifact_size q).
Definition push_typed (q : ArtifactPushRequest) : Prop :=
  validate q = Ok tt ∧ in_u64 (ch_offset (pq_header q)) ∧ in_u64 (ch_length (pq_header q)).
#[export] Instance prepare_typed_dec q : Decision (prepare_typed q).
Proof. unfold prepare_typed. apply _. Defined.
#[export] Instance push_typed_dec q : Decision (push_typed q).
Proof. unfold push_typed. apply _. Defined.

Definition step (l : Label) (w : World) : option World :=
  let fresh t := w_tasks w !! t = None in
  match l with
  | LPrepare t q now du tu =>
    guard (fresh t ∧ prepare_typed q);; step_prepare t q now du tu w
  | LPush t q now => guard (fresh t ∧ push_typed q);; Some (step_push t q now w)
  | LCommit t q now => guard (fresh t);; Some (step_commit t q now w)
  | LCommitted t d now =>
    guard (fresh t);;
    Some (step_lookup t RCommitted
            (committed_artifact_locked cfg (w_pinned w) d now (w_store w)) w)
  | LServiceName t d now =>
    guard (fresh t);;
    Some (step_lookup t RServiceName
            (service_name_for_deploy_locked cfg (w_pinned w) d now (w_store w)) w)
  | LPurge t d now => guard (fresh t);; Some (step_purge t d now w)
  | LPin d => Some (set_pinned (pin_deploy_session d (w_pinned w)) w)
  | LUnpin d =>
    guard (is_Some (w_pinned w !! d));;
    Some (set_pinned (unpin_deploy_session d (w_pinned w)) w)
  | LAbort t =>
    guard (is_Some (w_tasks w !! t));;
    Some (with_tasks (w_store w) (w_fs w) (delete t (w_tasks w)) w)
  | LCreate t fault =>
    match w_tasks w !! t with
    | Some (TPrepareCreate plan c) => Some (step_create t fault plan c w)
    | _ => None
    end
  | LPublish t now =>
    match w_tasks w !! t with
    | Some (TPreparePublish plan c) => Some (step_publish t now plan c w)
    | _ => None
    end
  | LPushOpen t fault =>
    match w_tasks w !! t with
    | Some (TPushOpen plan q e now path) => Some (step_push_open t fault plan q e now path w)
    | _ => None
    end
  | LPushWrite t n =>
    match w_tasks w !! t with
    | Some (TPushWrite plan q e now ino k) => step_push_write t n plan q e now ino k w
    | _ => None
    end
  | LPushFail t msg =>
    match w_tasks w !! t with
    | Some (TPushWrite plan q e now ino k) =>
      Some (set_fs t (TPushDone plan q e now (Err (map_internal STAGE_PUSH msg))) (w_fs w) w)
    | _ => None
    end
  | LPushEnd t =>
    match w_tasks w !! t with
    | Some (TPushDone plan q e now r) => Some (step_push_end t plan q e now r w)
    | _ => None
    end
  | LCommitOpen t fault =>
    match w_tasks w !! t with
    | Some (TCommitOpen plan q now path x) => Some (step_commit_open t fault plan q now path x w)
    | _ => None
    end
  | LCommitRead t n =>
    match w_tasks w !! t with
    | Some (TCommitRead plan q now x ino acc) => step_commit_read t n plan q now x ino acc w
    | _ => None
    end
  | LCommitFail t msg =>
    match w_tasks w !! t with
    | Some (TCommitRead plan q now x ino acc) =>
      Some (set_fs t (TCommitDone plan q now x (Err (map_internal STAGE_COMMIT msg))) (w_fs w) w)
    | _ => None
    end
  | LCommitEnd t =>
    match w_tasks w !! t with
    | Some (TCommitDone plan q now x r) => Some (step_commit_end t plan q now x r w)
    | _ => None
    end
  | LCleanup t removed =>
    match w_tasks w !! t with
    | Some (TCleanup plan reply) => Some (step_cleanup t removed plan reply w)
    | _ => None
    end
  end.

(** A daemon just started on a directory that may hold files of earlier runs. *)
Definition initial (w : World) : Prop :=
  w_store w = empty_store ∧ w_pinned w = ∅ ∧ w_tasks w = ∅ ∧
  (∀ u, u ∉ w_issued w →
     fs_paths (w_fs w) !! artifact_path cfg (uuid_to_string u) = None) ∧
  (∀ p i, fs_paths (w_fs w) !! p = Some i → is_Some (fs_inodes (w_fs w) !! i)) ∧
  (∀ p q i, fs_paths (w_fs w) !! p = Some i → fs_paths (w_fs w) !! q = Some i → p = q).

(** Reachable worlds; with [exact] no task is ever cancelled. *)
Inductive reach (exact : bool) : World → Prop :=
  | reach_init w : initial w → reach exact w
  | reach_step w l w' :
      reach exact w → (exact = true → is_abort l = false) → step l w = Some w' →
      reach exact w'.

(** Run a list of labels. *)
Fixpoint run (ls : list Label) (w : World) : option World :=
  match ls with [] => Some w | l :: ls => w' ← step l w; run ls w' end.

End lts.

(** ** The invariant *)

Definition candidate_of (k : Task) : option UploadSession :=
  match k with TPrepareCreate _ c | TPreparePublish _ c => Some c | _ => None end.
Definition push_id (k : Task) : option string :=
  match k with
  | TPushOpen _ q _ _ _ | TPushWrite _ q _ _ _ _ | TPushDone _ q _ _ _ =>
    Some (ch_deploy_id (pq_header q))
  | _ => None
  end.
Definition commit_id (k : Task) : option string :=
  match k with
  | TCommitOpen _ q _ _ _ | TCommitRead _ q _ _ _ _ | TCommitDone _ q _ _ _ =>
    Some (cq_deploy_id q)
  | _ => None
  end.
Definition task_plan (k : Task) : CleanupPlan :=
  match k with
  | TPrepareCreate p _ | TPreparePublish p _ | TPushOpen p _ _ _ _ | TPushWrite p _ _ _ _ _
  | TPushDone p _ _ _ _ | TCommitOpen p _ _ _ _ | TCommitRead p _ _ _ _ _
  | TCommitDone p _ _ _ _ | TCleanup p _ => p
  end.

(** *** Counting tasks *)

Section count.
Context (f : Task → option string) (d : string).

Definition count (ts : gmap nat Task) : Z :=
  Z.of_nat (size (filter (λ tk, f tk.2 = Some d) ts)).
Definition hit (k : option Task) : Z := if decide (k ≫= f = Some d) then 1 else 0.

Lemma count_delete t ts : count (delete t ts) = count ts - hit (ts !! t).
Proof.
  unfold count, hit. rewrite map_filter_delete, map_size_delete.
  destruct (ts !! t) as [k|] eqn:Hk; simpl.
  - case_decide as Hf.
    + assert (filter (λ tk : nat * Task, f tk.2 = Some d) ts !! t = Some k) as E
        by by apply map_lookup_filter_Some.
      rewrite E. pose proof (map_size_ne_0_lookup_2 _ _ (mk_is_Some _ _ E)). simpl. lia.
    + rewrite (proj2 (map_lookup_filter_None _ _ _)); [simpl; lia|]. right. naive_solver.
  - rewrite (proj2 (map_lookup_filter_None _ _ _)); [simpl; lia|]. by left.
Qed.

Lemma count_insert t k ts :
  count (<[t := k]> ts) = count ts - hit (ts !! t) + hit (Some k).
Proof.
  rewrite <-count_delete, <-insert_delete_eq. unfold count, hit. simpl. case_decide as Hf.
  - rewrite map_filter_insert_True by done.
    rewrite map_size_insert_None; [lia|]. apply map_lookup_filter_None. left.
    apply lookup_delete_eq.
  - rewrite map_filter_insert_not'; [lia|done|]. intros ?. by rewrite lookup_delete_eq.
Qed.

Lemma count_pos t k ts : ts !! t = Some k → f k = Some d → 1 <= count ts.
Proof.
  intros Ht Hf. unfold count.
  assert (filter (λ tk : nat * Task, f tk.2 = Some d) ts !! t = Some k) as E
    by by apply map_lookup_filter_Some.
  pose proof (map_size_ne_0_lookup_2 _ _ (mk_is_Some _ _ E)). lia.
Qed.

Lemma count_zero ts : (∀ t k, ts !! t = Some k → f k ≠ Some d) → count ts = 0.
Proof.
  intros Hn. unfold count. rewrite (proj2 (map_empty_filter _ _)); [done|].
  intros t k Hk. simpl. by eapply Hn.
Qed.
End count.

Section invariant.
Context `{Crates, !CratesLaws} (cfg : StoreConfig).

Lemma artifact_path_inj d1 d2 :
  uuid_text d1 → uuid_text d2 → artifact_path cfg d1 = artifact_path cfg d2 → d1 = d2.
Proof.
  intros H1 H2 E. apply path_join_inj in E; [|by apply uuid_text_no_slash..].
  by apply string_app_inv_tail in E.
Qed.

Definition issued (w : World) (d : string) : Prop :=
  ∃ u, u ∈ w_issued w ∧ d = uuid_to_string u.

(** Handed out, and no longer the candidate of a running [prepare]. *)
Definition active (w : World) (d : string) : Prop :=
  issued w d ∧
  ∀ t k c, w_tasks w !! t = Some k → candidate_of k = Some c → us_deploy_id c ≠ d.

Definition live (w : World) (d : string) (s : UploadSession) : Prop :=
  sessions (w_store w) !! d = Some s.

Definition size_ok (s : UploadSession) : Prop := 0 < us_artifact_size s <= u64_max.

Definition file_ok (f : Fs) (s : UploadSession) : Prop :=
  ∃ content, fs_read (us_file_path s) f = Some content ∧
    zlen content = us_artifact_size s ∧
    (us_committed s = true → sha256_hex content = us_artifact_digest s).

Record session_ok (w : World) (d : string) (s : UploadSession) : Prop := {
  s_id : us_deploy_id s = d;
  s_path : us_file_path s = artifact_path cfg d;
  s_active : active w d;
  s_size : size_ok s;
  s_ranges : wf_ranges (us_artifact_size s) (us_received_ranges s);
  s_inflight : 0 <= us_inflight_writes s;
  s_quiet : us_commit_in_progress s = true ∨ us_committed s = true →
    us_inflight_writes s = 0;
  s_file : file_ok (w_fs w) s;
}.

(** A path scheduled for removal belongs to no session, present or future. *)
Definition plan_ok (w : World) (p : string) : Prop :=
  ∃ d, p = artifact_path cfg d ∧ active w d ∧ sessions (w_store w) !! d = None.

Record cand_ok (w : World) (c : UploadSession) : Prop := {
  c_issued : issued w (us_deploy_id c);
  c_absent : sessions (w_store w) !! us_deploy_id c = None;
  c_path : us_file_path c = artifact_path cfg (us_deploy_id c);
  c_size : size_ok c;
  c_new : us_received_ranges c = [] ∧ us_committed c = false ∧ us_inflight_writes c = 0 ∧
          us_commit_in_progress c = false;
}.

Record push_ok (w : World) (q : ArtifactPushRequest) (chunk_end : Z) : Prop := {
  p_active : active w (ch_deploy_id (pq_header q));
  p_offset : 0 <= ch_offset (pq_header q);
  p_length : zlen (pq_chunk q) = ch_length (pq_header q);
  p_positive : 0 < ch_length (pq_header q);
  p_end : chunk_end = ch_offset (pq_header q) + ch_length (pq_header q);
  p_bound s : live w (ch_deploy_id (pq_header q)) s → chunk_end <= us_artifact_size s;
}.

Record commit_ok (w : World) (q : ArtifactCommitRequest) (expected : string) : Prop := {
  k_active : active w (cq_deploy_id q);
  k_digest s : live w (cq_deploy_id q) s → us_artifact_digest s = expected;
}.

Definition task_own (w : World) (k : Task) : Prop :=
  match k with
  | TPrepareCreate _ c => cand_ok w c ∧ fs_paths (w_fs w) !! us_file_path c = None
  | TPreparePublish _ c => cand_ok w c ∧ file_ok (w_fs w) c
  | TPushOpen _ q e _ path =>
    push_ok w q e ∧ path = artifact_path cfg (ch_deploy_id (pq_header q))
  | TPushWrite _ q e _ ino _ =>
    push_ok w q e ∧ is_Some (fs_inodes (w_fs w) !! ino) ∧
    (∀ p, fs_paths (w_fs w) !! p = Some ino → p = artifact_path cfg (ch_deploy_id (pq_header q)))
  | TPushDone _ q e _ _ => push_ok w q e
  | TCommitOpen _ q _ path x =>
    commit_ok w q x ∧ path = artifact_path cfg (cq_deploy_id q)
  | TCommitRead _ q _ x ino acc =>
    commit_ok w q x ∧
    (∀ s, live w (cq_deploy_id q) s →
       fs_paths (w_fs w) !! us_file_path s = Some ino ∧
       acc `prefix_of` fs_content ino (w_fs w))
  | TCommitDone _ q _ x r =>
    commit_ok w q x ∧
    (∀ s digest, live w (cq_deploy_id q) s → r = Ok digest →
       ∃ content, fs_read (us_file_path s) (w_fs w) = Some content ∧
         sha256_hex content = digest)
  | TCleanup _ _ => True
  end.

Definition task_ok (w : World) (k : Task) : Prop :=
  Forall (plan_ok w) (task_plan k) ∧ task_own w k.

Record Base (w : World) : Prop := {
  b_indexed : indexed (w_store w);
  b_session d s : live w d s → session_ok w d s;
  b_task t k : w_tasks w !! t = Some k → task_ok w k;
  b_cand t1 t2 k1 k2 c1 c2 :
    w_tasks w !! t1 = Some k1 → candidate_of k1 = Some c1 →
    w_tasks w !! t2 = Some k2 → candidate_of k2 = Some c2 →
    us_deploy_id c1 = us_deploy_id c2 → t1 = t2;
  b_fresh u : u ∉ w_issued w →
    fs_paths (w_fs w) !! artifact_path cfg (uuid_to_string u) = None;
  b_fs_dom p i : fs_paths (w_fs w) !! p = Some i → is_Some (fs_inodes (w_fs w) !! i);
  b_fs_inj p q i : fs_paths (w_fs w) !! p = Some i → fs_paths (w_fs w) !! q = Some i → p = q;
}.

(** [exact] as in [reach]: without cancellation the counters are exact. *)
Definition counts (exact : bool) (w : World) : Prop :=
  ∀ d s, live w d s →
    (count push_id d (w_tasks w) <= us_inflight_writes s ∧
     (exact = true → count push_id d (w_tasks w) = us_inflight_writes s)) ∧
    (count commit_id d (w_tasks w) <= Z.b2z (us_commit_in_progress s) ∧
     (exact = true → count commit_id d (w_tasks w) = Z.b2z (us_commit_in_progress s))).

Definition Inv (exact : bool) (w : World) : Prop := Base w ∧ counts exact w.

(** *** Frames: what a change of one part of the world keeps *)

Definition with_store (st : StoreState) (w : World) : World :=
  with_tasks st (w_fs w) (w_tasks w) w.
Definition with_ts (ts : gmap nat Task) (w : World) : World :=
  with_tasks (w_store w) (w_fs w) ts w.

Definition same_static (s s' : UploadSession) : Prop :=
  us_artifact_size s' = us_artifact_size s ∧
  us_artifact_digest s' = us_artifact_digest s ∧ us_file_path s' = us_file_path s.

(** A new store in which every session comes from an old one with the same artifact. *)
Definition store_step (w : World) (st' : StoreState) : Prop :=
  indexed st' ∧
  ∀ d s', sessions st' !! d = Some s' →
    session_ok w d s' ∧ ∃ s, live w d s ∧ same_static s s'.

Lemma task_ok_store w st' k :
  store_step w st' → task_ok w k → task_ok (with_store st' w) k.
Proof.
  intros [_ Hst] [Hplan Hown].
  assert (Hnone : ∀ d, sessions (w_store w) !! d = None → sessions st' !! d = None).
  { intros d Hd. destruct (sessions st' !! d) as [s'|] eqn:E; [|done].
    destruct (Hst d s' E) as (_ & s & Hs & _). unfold live in Hs. congruence. }
  assert (Hlive : ∀ d s', live (with_store st' w) d s' → ∃ s, live w d s ∧ same_static s s').
  { intros d s' E. by apply Hst. }
  split.
  { eapply Forall_impl; [exact Hplan|]. intros p (d & ? & ? & ?). exists d. split_and!; auto. }
  destruct k; simpl in *; try done.
  - destruct Hown as [[] ?]. split; [|done]. split; simpl; auto.
  - destruct Hown as [[] ?]. split; [|done]. split; simpl; auto.
  - destruct Hown as [[] ?]. split; [|done]. split; try done.
    intros s' (s & ? & -> & _)%Hlive. auto.
  - destruct Hown as [[] ?]. split; [|done]. split; try done.
    intros s' (s & ? & -> & _)%Hlive. auto.
  - destruct Hown as []. split; try done. intros s' (s & ? & -> & _)%Hlive. auto.
  - destruct Hown as [[] ?]. split; [|done]. split; try done.
    intros s' (s & ? & _ & -> & _)%Hlive. auto.
  - destruct Hown as [[] Hr]. split; [split; try done|].
    + intros s' (s & ? & _ & -> & _)%Hlive. auto.
    + intros s' (s & ? & _ & _ & ->)%Hlive. by apply Hr.
  - destruct Hown as [[] Hr]. split; [split; try done|].
    + intros s' (s & ? & _ & -> & _)%Hlive. auto.
    + intros s' dg (s & ? & _ & _ & ->)%Hlive. by apply Hr.
Qed.

Lemma session_ok_store w st' d s : session_ok w d s → session_ok (with_store st' w) d s.
Proof. intros []. by split. Qed.

Lemma Base_store w st' : Base w → store_step w st' → Base (with_store st' w).
Proof.
  intros [] Hst. split; try done.
  - apply Hst.
  - intros d s' Hs. apply session_ok_store. by apply Hst.
  - intros t k Hk. apply task_ok_store; [done|]. eauto.
Qed.

(** New tasks: each is in order in the old world, and no candidate is added. *)
Definition tasks_step (w : World) (ts' : gmap nat Task) : Prop :=
  ∀ t k, ts' !! t = Some k →
    task_ok w k ∧
    ∀ c, candidate_of k = Some c → ∃ k0, w_tasks w !! t = Some k0 ∧ candidate_of k0 = Some c.

Lemma active_tasks w ts' d : tasks_step w ts' → active w d → active (with_ts ts' w) d.
Proof.
  intros Hts [Hi Hc]. split; [done|]. intros t k c Hk Hkc. simpl in Hk.
  destruct (Hts t k Hk) as [_ Hcand]. destruct (Hcand c Hkc) as (k0 & ? & ?). eauto.
Qed.

Lemma task_ok_active w w' k :
  w_store w' = w_store w → w_fs w' = w_fs w →
  (∀ d, issued w d → issued w' d) → (∀ d, active w d → active w' d) →
  task_ok w k → task_ok w' k.
Proof.
  intros Hst Hfs Hi Ha [Hplan Hown]. split.
  { eapply Forall_impl; [exact Hplan|]. intros p (d & ? & ? & ?). exists d.
    rewrite Hst. auto. }
  destruct k; simpl in *; unfold live in *; rewrite ?Hst, ?Hfs; try done;
    repeat match goal with
    | H : _ ∧ _ |- _ => destruct H
    | H : cand_ok _ _ |- _ => destruct H
    | H : push_ok _ _ _ |- _ => destruct H
    | H : commit_ok _ _ _ |- _ => destruct H
    end; split_and?; try done; split; unfold live; rewrite ?Hst; auto.
Qed.

Lemma task_ok_tasks w ts' k : tasks_step w ts' → task_ok w k → task_ok (with_ts ts' w) k.
Proof. intros Hts. apply task_ok_active; try done. intros d. by apply active_tasks. Qed.

Lemma Base_tasks w ts' : Base w → tasks_step w ts' → Base (with_ts ts' w).
Proof.
  intros [] Hts. split; try done.
  - intros d s Hs. destruct (b_session0 d s Hs). split; try done. by apply active_tasks.
  - intros t k Hk. apply task_ok_tasks; [done|]. by eapply Hts.
  - intros t1 t2 k1 k2 c1 c2 H1 C1 H2 C2 E. simpl in *.
    destruct (Hts t1 k1 H1) as [_ (k1' & ? & ?)%(λ f, f c1 C1)].
    destruct (Hts t2 k2 H2) as [_ (k2' & ? & ?)%(λ f, f c2 C2)].
    eapply (b_cand0 t1 t2); eauto.
Qed.

Lemma tasks_step_insert w t k :
  Base w → task_ok w k →
  (∀ c, candidate_of k = Some c → ∃ k0, w_tasks w !! t = Some k0 ∧ candidate_of k0 = Some c) →
  tasks_step w (<[t := k]> (w_tasks w)).
Proof.
  intros HB Hk Hc t' k' Ht'. apply lookup_insert_Some in Ht' as [[<- <-]|[? Ht']]; [done|].
  split; [by eapply b_task|]. eauto.
Qed.

Lemma tasks_step_delete w t : Base w → tasks_step w (delete t (w_tasks w)).
Proof.
  intros HB t' k' [_ Ht']%lookup_delete_Some. split; [by eapply b_task|]. eauto.
Qed.

(** The usual shape: a locked block and the task that continues after it. *)
Lemma Base_set_store w st' t k :
  Base w → store_step w st' → task_ok (with_store st' w) k → candidate_of k = None →
  Base (set_store t k st' w).
Proof.
  intros HB Hst Hk Hc. pose proof (Base_store _ _ HB Hst) as HB'.
  apply (Base_tasks _ (<[t := k]> (w_tasks w)) HB').
  apply (tasks_step_insert _ t k HB'); [done|]. intros c. by rewrite Hc.
Qed.

(** *** Locked blocks as store steps *)

Lemma store_step_refl w : Base w → store_step w (w_store w).
Proof.
  intros HB. split; [by apply b_indexed|]. intros d s Hs.
  split; [by eapply b_session|]. exists s. done.
Qed.

Lemma store_step_cleaned w P st' plan :
  Base w → cleaned P (w_store w) st' plan → store_step w st'.
Proof.
  intros HB [S _ _ I]. split; [by apply I, b_indexed|]. intros d s Hs.
  eapply lookup_weaken in Hs; [|exact S]. split; [by eapply b_session|]. by exists s.
Qed.

Lemma plan_ok_cleaned w P st' st'' plan :
  Base w → cleaned P (w_store w) st' plan → dom (sessions st'') = dom (sessions st') →
  Forall (plan_ok (with_store st'' w)) plan.
Proof.
  intros HB Hc Hdom. apply Forall_forall. intros p Hp.
  destruct (cleaned_plan _ _ _ _ Hc p Hp) as (d & s & Hs & Hn & ->).
  destruct (b_session _ HB d s Hs). exists d. split_and!; [done|done|]. simpl.
  apply not_elem_of_dom. rewrite Hdom. by apply not_elem_of_dom.
Qed.

(** Overwriting a session of the new store by an update of itself. *)
Lemma store_step_put w st' d s s' :
  store_step w st' → sessions st' !! d = Some s →
  session_ok w d s' → same_static s s' → us_idempotency_key s' = us_idempotency_key s →
  store_step w (put_session d s' st').
Proof.
  intros [[I1 I2] Hst] Hs Hok Hss Hkey. destruct (Hst d s Hs) as (_ & s0 & Hs0 & Hss0).
  split; [split|]; simpl.
  - intros k d' (s1 & Hs1 & <-)%I1. destruct (decide (d' = d)) as [->|].
    + exists s'. rewrite lookup_insert_eq. simplify_eq. done.
    + exists s1. by rewrite lookup_insert_ne.
  - intros d' s1 [[<- <-]|[? Hs1]]%lookup_insert_Some; [rewrite Hkey|]; auto.
  - intros d' s1 [[<- <-]|[? Hs1]]%lookup_insert_Some; [|by apply Hst].
    split; [done|]. exists s0. split; [done|].
    destruct Hss as (? & ? & ?), Hss0 as (? & ? & ?). split_and!; congruence.
Qed.

Lemma session_ok_progress w d s ranges committed inflight committing now :
  session_ok w d s → wf_ranges (us_artifact_size s) ranges → 0 <= inflight →
  (committing = true ∨ committed = true → inflight = 0) →
  (committed = true → us_committed s = true ∨
     ∃ content, fs_read (us_file_path s) (w_fs w) = Some content ∧
       sha256_hex content = us_artifact_digest s) →
  session_ok w d (us_progress ranges committed inflight committing now s).
Proof.
  intros [? ? ? ? ? ? ? (content & Hr & Hl & Hh)] ? ? ? Hcom. split; try done.
  exists content. split_and!; [done|done|]. simpl. intros Hc.
  destruct (Hcom Hc) as [?|(content' & ? & ?)]; [by auto|]. simpl in *. congruence.
Qed.

Lemma session_ok_touch w d s now : session_ok w d s → session_ok w d (us_touch now s).
Proof.
  intros Hok. pose proof Hok as []. apply session_ok_progress; auto.
Qed.

Lemma same_static_progress ranges committed inflight committing now s :
  same_static s (us_progress ranges committed inflight committing now s).
Proof. done. Qed.

(** How the counters move with one task. *)
Lemma counts_set exact w w' t k :
  counts exact w → w_tasks w' = <[t := k]> (w_tasks w) →
  (∀ d s', live w' d s' → ∃ s, live w d s ∧
     us_inflight_writes s' =
       us_inflight_writes s + hit push_id d (Some k) - hit push_id d (w_tasks w !! t) ∧
     Z.b2z (us_commit_in_progress s') =
       Z.b2z (us_commit_in_progress s) + hit commit_id d (Some k)
         - hit commit_id d (w_tasks w !! t)) →
  counts exact w'.
Proof.
  intros Hc Ht Hs d s' Hl. destruct (Hs d s' Hl) as (s & Hs0 & H1 & H2).
  destruct (Hc d s Hs0) as [[? ?] [? ?]]. rewrite Ht, !count_insert. naive_solver lia.
Qed.

(** A locked block after which no task of the session is counted differently. *)
Lemma Inv_set_store exact w st' t k :
  Inv exact w → store_step w st' → task_ok (with_store st' w) k → candidate_of k = None →
  push_id k = w_tasks w !! t ≫= push_id → commit_id k = w_tasks w !! t ≫= commit_id →
  (∀ d s', sessions st' !! d = Some s' → ∃ s, live w d s ∧
     us_inflight_writes s' = us_inflight_writes s ∧
     us_commit_in_progress s' = us_commit_in_progress s) →
  Inv exact (set_store t k st' w).
Proof.
  intros [HB Hc] Hst Hk Hcand Hp Hcm Hs. split; [by apply Base_set_store|].
  eapply counts_set; [exact Hc|done|]. intros d s' Hl.
  destruct (Hs d s' Hl) as (s & ? & -> & ->). exists s. split; [done|].
  unfold hit. simpl. rewrite Hp, Hcm. lia.
Qed.

Lemma cleaned_live w P st' plan d s :
  cleaned P (w_store w) st' plan → sessions st' !! d = Some s → live w d s.
Proof. intros [S _ _ _] Hs. by eapply lookup_weaken. Qed.

Lemma task_ok_cleanup w plan reply : Forall (plan_ok w) plan → task_ok w (TCleanup plan reply).
Proof. by split. Qed.

Lemma dom_put_session d s s0 st :
  sessions st !! d = Some s0 → dom (sessions (put_session d s st)) = dom (sessions st).
Proof. intros Hs. simpl. rewrite dom_insert_L. apply elem_of_dom_2 in Hs. set_solver. Qed.

(** A new request that only cleans up and replies. *)
Lemma Inv_reply exact w P st' plan plan0 t reply :
  Inv exact w → w_tasks w !! t = None → cleaned P (w_store w) st' plan →
  plan0 = plan ∨ plan0 = [] →
  Inv exact (set_store t (TCleanup plan0 reply) st' w).
Proof.
  intros HI Ht Hcl Hp. pose proof HI as [HB _].
  apply Inv_set_store; try done; try (by rewrite Ht).
  - by eapply store_step_cleaned.
  - apply task_ok_cleanup. destruct Hp as [-> | ->]; [|constructor].
    by eapply plan_ok_cleaned.
  - intros d s' Hs. exists s'. split; [by eapply cleaned_live|done].
Qed.

Lemma cleaned_put_flags w P st plan d s now d' s' :
  cleaned P (w_store w) st plan → sessions st !! d = Some s →
  sessions (put_session d (us_touch now s) st) !! d' = Some s' →
  ∃ s0, live w d' s0 ∧ us_inflight_writes s' = us_inflight_writes s0 ∧
        us_commit_in_progress s' = us_commit_in_progress s0.
Proof.
  intros Hcl Hs. simpl. intros [[<- <-]|[? Hs']]%lookup_insert_Some.
  - exists s. split; [by eapply cleaned_live|done].
  - exists s'. split; [by eapply cleaned_live|done].
Qed.

(** The same, when the request also touches one session it found. *)
Lemma Inv_reply_touch exact w P st' plan t reply d s now :
  Inv exact w → w_tasks w !! t = None → cleaned P (w_store w) st' plan →
  sessions st' !! d = Some s →
  Inv exact (set_store t (TCleanup plan reply) (put_session d (us_touch now s) st') w).
Proof.
  intros HI Ht Hcl Hs. pose proof HI as [HB _].
  apply Inv_set_store; try done; try (by rewrite Ht).
  - eapply store_step_put; try done; [by eapply store_step_cleaned|].
    apply session_ok_touch. by eapply b_session, cleaned_live.
  - apply task_ok_cleanup. eapply plan_ok_cleaned; try done. by eapply dom_put_session.
  - intros. by eapply cleaned_put_flags.
Qed.

Lemma Inv_lookup exact {A} (view : UploadSession → A) w t mk d now :
  Inv exact w → w_tasks w !! t = None →
  Inv exact (step_lookup t mk (with_committed_session cfg (w_pinned w) view d now (w_store w)) w).
Proof.
  intros HI Ht. unfold step_lookup, with_committed_session.
  destruct (collect_session_cleanup_locked _ _ _ _ _) as [st plan] eqn:E.
  apply collect_session_cleanup_spec in E.
  destruct (sessions st !! d) as [s|] eqn:Hs; [|eapply Inv_reply; eauto].
  destruct (us_committed s); [eapply Inv_reply_touch; eauto|eapply Inv_reply; eauto].
Qed.

Lemma Inv_purge exact w t d now :
  Inv exact w → w_tasks w !! t = None → Inv exact (step_purge cfg t d now w).
Proof.
  intros HI Ht. unfold step_purge. destruct (purge_locked _ _ _ _ _) as [st plan] eqn:E.
  apply purge_locked_spec in E as [E _]. eapply Inv_reply; eauto.
Qed.

(** *** [prepare] *)

Lemma Inv_new_candidate exact w P st' plan t c u :
  Inv exact w → w_tasks w !! t = None → cleaned P (w_store w) st' plan →
  u ∉ w_issued w → us_deploy_id c = uuid_to_string u →
  us_file_path c = artifact_path cfg (us_deploy_id c) → size_ok c →
  us_received_ranges c = [] ∧ us_committed c = false ∧ us_inflight_writes c = 0 ∧
    us_commit_in_progress c = false →
  Inv exact {| w_store := st'; w_pinned := w_pinned w; w_fs := w_fs w;
               w_tasks := <[t := TPrepareCreate plan c]> (w_tasks w);
               w_issued := {[u]} ∪ w_issued w |}.
Proof.
  intros [HB Hc] Ht Hcl Hu Hid Hpath Hsz Hnew.
  pose proof (store_step_cleaned _ _ _ _ HB Hcl) as Hst.
  pose proof (Base_store _ _ HB Hst) as HB1. set (w1 := with_store st' w) in *.
  match goal with |- Inv _ ?w => set (w' := w) end.
  assert (Hne : ∀ d, issued w1 d → d ≠ us_deploy_id c).
  { intros d (u' & Hu' & ->). rewrite Hid. intros E.
    apply (@inj _ _ _ _ _ uuid_to_string_inj) in E. by subst. }
  assert (Hi : ∀ d, issued w1 d → issued w' d).
  { intros d (u' & ? & ->). exists u'. split; [simpl; set_solver|done]. }
  assert (Ha : ∀ d, active w1 d → active w' d).
  { intros d [Hd Hcand]. split; [by apply Hi|]. intros t' k' c'. simpl.
    intros [[<- <-]|[? Ht']]%lookup_insert_Some Hc'; simpl in *; [|eauto].
    simplify_eq. intros E. by eapply Hne. }
  pose proof HB1 as []. split.
  - split; try done.
    + intros d s Hs. destruct (b_session0 d s Hs). split; try done. by apply Ha.
    + intros t' k'. simpl. intros [[<- <-]|[? Ht']]%lookup_insert_Some.
      * split; simpl.
        -- eapply Forall_impl; [by apply (plan_ok_cleaned w P st' st' plan)|].
           intros p (d & ? & ? & ?). exists d. auto.
        -- split; [split; try done|].
           ++ exists u. split; [simpl; set_solver|done].
           ++ destruct (sessions (w_store w') !! us_deploy_id c) as [s|] eqn:E; [|done].
              exfalso. eapply Hne; [|reflexivity]. by eapply s_active, b_session0.
           ++ rewrite Hpath, Hid. by apply (b_fresh _ HB).
      * eapply (task_ok_active w1); eauto.
    + intros t1 t2 k1 k2 c1 c2. simpl.
      intros [[<- <-]|[? Hk1]]%lookup_insert_Some C1
        [[<- <-]|[? Hk2]]%lookup_insert_Some C2 E; simplify_eq/=; try done.
      * exfalso. destruct (b_task0 t2 k2 Hk2) as [_ Hown].
        eapply Hne; [|symmetry; exact E]. destruct k2; simplify_eq/=; by destruct Hown as [[]].
      * exfalso. destruct (b_task0 t1 k1 Hk1) as [_ Hown].
        eapply Hne; [|exact E]. destruct k1; simplify_eq/=; by destruct Hown as [[]].
      * by eapply (b_cand0 t1 t2).
    + simpl. intros u' Hu'. apply (b_fresh _ HB). set_solver.
  - eapply counts_set; [exact Hc|done|]. intros d s Hs. exists s.
    split; [by eapply cleaned_live|]. unfold hit. rewrite Ht. simpl. lia.
Qed.

Lemma Inv_prepare exact w t q now du tu w' :
  Inv exact w → w_tasks w !! t = None → prepare_typed q →
  step_prepare cfg t q now du tu w = Some w' → Inv exact w'.
Proof.
  intros HI Ht Hty. unfold step_prepare, prepare_decide.
  destruct (prepare_checks cfg q) as [[]|e] eqn:Hq.
  2: { intros [= <-]. eapply (Inv_reply _ _ (λ _ _, True)); eauto using cleaned_refl. }
  destruct (collect_session_cleanup_locked _ _ _ _ _) as [st plan] eqn:E.
  apply collect_session_cleanup_spec in E.
  destruct (existing_session _ st) as [[d s]|] eqn:Hex.
  - apply bind_Some in Hex as (d' & _ & Hs). apply bind_Some in Hs as (s' & Hs & ?).
    simplify_eq. case_decide; intros ?; simplify_eq;
      [eapply Inv_reply_touch; eauto|eapply Inv_reply; eauto].
  - intros (? & Hu & ?)%bind_Some. simplify_eq/=. case_guard; simplify_eq.
    eapply Inv_new_candidate; eauto. unfold size_ok. simpl.
    unfold prepare_checks in Hq. inv_ok. unfold prepare_typed, in_u64 in Hty.
    repeat match goal with H : negb _ = true |- _ => apply negb_true_iff in H end. lia.
Qed.

(** *** File operations *)

Definition with_fs (f : Fs) (w : World) : World := with_tasks (w_store w) f (w_tasks w) w.

(** What a file operation of task [t] may do to the files of the others. *)
Record fs_step (w : World) (t : nat) (f' : Fs) : Prop := {
  f_live d s : live w d s →
    fs_paths f' !! us_file_path s = fs_paths (w_fs w) !! us_file_path s ∧ file_ok f' s ∧
    (us_committed s = true ∨
       (∃ t' k, t' ≠ t ∧ w_tasks w !! t' = Some k ∧ commit_id k = Some d) →
     fs_read (us_file_path s) f' = fs_read (us_file_path s) (w_fs w));
  f_old i : is_Some (fs_inodes (w_fs w) !! i) →
    is_Some (fs_inodes f' !! i) ∧
    ∀ p, fs_paths f' !! p = Some i → fs_paths (w_fs w) !! p = Some i;
  f_cand t' k c : t' ≠ t → w_tasks w !! t' = Some k → candidate_of k = Some c →
    fs_paths f' !! us_file_path c = fs_paths (w_fs w) !! us_file_path c ∧
    fs_read (us_file_path c) f' = fs_read (us_file_path c) (w_fs w);
  f_fresh u : u ∉ w_issued w → fs_paths f' !! artifact_path cfg (uuid_to_string u) = None;
  f_dom p i : fs_paths f' !! p = Some i → is_Some (fs_inodes f' !! i);
  f_inj p q i : fs_paths f' !! p = Some i → fs_paths f' !! q = Some i → p = q;
}.

Lemma fs_content_read p i f : fs_paths f !! p = Some i → fs_read p f = fs_inodes f !! i.
Proof. unfold fs_read. by intros ->. Qed.

Lemma task_ok_fs w t f' t' k :
  fs_step w t f' → t' ≠ t → w_tasks w !! t' = Some k →
  task_ok w k → task_ok (with_fs f' w) k.
Proof.
  intros [Fl Fo Fc _ _ _] Hne Ht' [Hplan Hown]. split; [done|].
  destruct k; simpl in *; try done.
  - destruct Hown as [[] ?]. destruct (Fc t' _ candidate Hne Ht') as [-> _]; [done|].
    by split_and!.
  - destruct Hown as [[] (content & Hr & ?)].
    destruct (Fc t' _ candidate Hne Ht') as [_ E]; [done|].
    split; [by split|]. exists content. by rewrite E.
  - destruct Hown as [[] ?]. split; [by split|done].
  - destruct Hown as ([] & Hi & Hp). destruct (Fo ino Hi) as [? Ho].
    split_and!; [by split|done|]. auto.
  - destruct Hown. by split.
  - destruct Hown as [[] ?]. split; [by split|done].
  - destruct Hown as [[] Hr]. split; [by split|]. intros s Hs.
    destruct (Hr s Hs) as [Hp Hacc].
    destruct (Fl _ s Hs) as (Epath & _ & Eread).
    specialize (Eread ltac:(right; eauto)). rewrite Epath. split; [done|].
    rewrite !(fs_content_read _ ino) in Eread by congruence.
    unfold fs_content in *. by rewrite Eread.
  - destruct Hown as [[] Hr]. split; [by split|]. intros s dg Hs Hd.
    destruct (Hr s dg Hs Hd) as (content & ? & ?).
    destruct (Fl _ s Hs) as (_ & _ & Eread).
    exists content. by rewrite Eread by (right; eauto).
Qed.

Lemma Base_set_fs w t k f' :
  Base w → fs_step w t f' → task_ok (with_fs f' w) k →
  (∀ c, candidate_of k = Some c → ∃ k0, w_tasks w !! t = Some k0 ∧ candidate_of k0 = Some c) →
  Base (set_fs t k f' w).
Proof.
  intros HB Hfs Hk Hc. pose proof HB as [].
  assert (Hcand : ∀ t' k' c, <[t := k]> (w_tasks w) !! t' = Some k' →
    candidate_of k' = Some c → ∃ k0, w_tasks w !! t' = Some k0 ∧ candidate_of k0 = Some c).
  { intros t' k' c [[<- <-]|[? ?]]%lookup_insert_Some ?; eauto. }
  assert (Ha : ∀ d, active w d → active (set_fs t k f' w) d).
  { intros d [Hi Hd]. split; [done|]. intros t' k' c Ht' Hc'.
    destruct (Hcand t' k' c Ht' Hc') as (k0 & ? & ?). eauto. }
  split; try done.
  - intros d s Hs. destruct (b_session0 d s Hs). split; try done; [by auto|].
    by destruct (f_live _ _ _ Hfs d s Hs) as (_ & ? & _).
  - intros t' k' Ht'. apply (task_ok_active (with_fs f' w)); try done.
    simpl in Ht'. apply lookup_insert_Some in Ht' as [[<- <-]|[? Ht']]; [done|].
    eapply task_ok_fs; eauto.
  - intros t1 t2 k1 k2 c1 c2 Hk1 Hc1 Hk2 Hc2 E.
    destruct (Hcand _ _ _ Hk1 Hc1) as (? & ? & ?).
    destruct (Hcand _ _ _ Hk2 Hc2) as (? & ? & ?). by eapply (b_cand0 t1 t2).
  - by destruct Hfs.
  - by destruct Hfs.
  - by destruct Hfs.
Qed.

Lemma fs_step_refl w t : Base w → fs_step w t (w_fs w).
Proof.
  intros HB. pose proof HB as []. split; try done.
  intros d s Hs. by destruct (b_session0 d s Hs).
Qed.

(** Nothing but the task's own position changes. *)
Lemma Inv_advance exact w t k0 k :
  Inv exact w → w_tasks w !! t = Some k0 → task_ok w k →
  push_id k = push_id k0 → commit_id k = commit_id k0 →
  (∀ c, candidate_of k = Some c → candidate_of k0 = Some c) →
  Inv exact (set_fs t k (w_fs w) w).
Proof.
  intros [HB Hcnt] Ht Hk Hp Hc Hcand. split.
  - apply Base_set_fs; [done|by apply fs_step_refl|by destruct w|eauto].
  - eapply counts_set; [exact Hcnt|done|]. intros d s Hs. exists s. split; [done|].
    rewrite Ht. unfold hit. simpl. rewrite Hp, Hc. lia.
Qed.

(** A file operation that keeps the counters. *)
Lemma Inv_set_fs exact w t k0 k f' :
  Inv exact w → w_tasks w !! t = Some k0 → fs_step w t f' → task_ok (with_fs f' w) k →
  push_id k = push_id k0 → commit_id k = commit_id k0 →
  (∀ c, candidate_of k = Some c → candidate_of k0 = Some c) →
  Inv exact (set_fs t k f' w).
Proof.
  intros [HB Hcnt] Ht Hfs Hk Hp Hc Hcand. split.
  - apply Base_set_fs; eauto.
  - eapply counts_set; [exact Hcnt|done|]. intros d s Hs. exists s. split; [done|].
    rewrite Ht. unfold hit. simpl. rewrite Hp, Hc. lia.
Qed.

Lemma cand_task_ok w t k c :
  Base w → w_tasks w !! t = Some k → candidate_of k = Some c → cand_ok w c.
Proof.
  intros HB Ht Hc. destruct (b_task _ HB t k Ht) as [_ Hown].
  destruct k; simplify_eq/=; by destruct Hown.
Qed.

Lemma issued_text w d : issued w d → uuid_text d.
Proof. intros (u & _ & ->). by exists u. Qed.

(** A new file at the path of the candidate of task [t]. *)
Lemma fs_step_create w t k c content :
  Base w → w_tasks w !! t = Some k → candidate_of k = Some c →
  fs_paths (w_fs w) !! us_file_path c = None →
  fs_step w t {| fs_paths := <[us_file_path c := fresh_inode (w_fs w)]> (fs_paths (w_fs w));
                 fs_inodes := <[fresh_inode (w_fs w) := content]> (fs_inodes (w_fs w)) |}.
Proof.
  intros HB Ht Hc Hnone. pose proof (cand_task_ok _ _ _ _ HB Ht Hc) as [Hi Habs Hp _ _].
  pose proof (fresh_inode_None (w_fs w)) as Hfr. set (i0 := fresh_inode (w_fs w)) in *.
  assert (Hold : ∀ p i, fs_paths (w_fs w) !! p = Some i → i ≠ i0).
  { intros p i Hpi ->. destruct (b_fs_dom _ HB _ _ Hpi). congruence. }
  assert (Hread : ∀ p, p ≠ us_file_path c →
    fs_read p {| fs_paths := <[us_file_path c := i0]> (fs_paths (w_fs w));
                 fs_inodes := <[i0 := content]> (fs_inodes (w_fs w)) |} = fs_read p (w_fs w)).
  { intros p Hne. unfold fs_read. simpl. rewrite lookup_insert_ne by done.
    destruct (fs_paths (w_fs w) !! p) as [i|] eqn:E; [|done]. simpl.
    rewrite lookup_insert_ne; [done|]. intros <-. by eapply Hold. }
  split; simpl.
  - intros d s Hs. destruct (b_session _ HB d s Hs) as [_ _ _ _ _ _ _ Hf].
    destruct Hf as (ct & Hr & ? & ?).
    assert (us_file_path s ≠ us_file_path c) as Hne.
    { intros E. unfold fs_read in Hr. by rewrite E, Hnone in Hr. }
    rewrite lookup_insert_ne by done. split_and!; [done| |by rewrite Hread].
    exists ct. by rewrite Hread.
  - intros i Hsi. assert (i ≠ i0) as Hne by (intros ->; rewrite Hfr in Hsi; by destruct Hsi).
    rewrite lookup_insert_ne by done. split; [done|].
    by intros p [[_ <-]|[_ ?]]%lookup_insert_Some.
  - intros t' k' c' Hne Ht' Hc'.
    pose proof (cand_task_ok _ _ _ _ HB Ht' Hc') as [Hi' _ Hp' _ _].
    assert (us_file_path c' ≠ us_file_path c) as Hpne.
    { rewrite Hp, Hp'. intros E%artifact_path_inj; [|by eapply issued_text..].
      apply Hne. by eapply (b_cand _ HB t' t). }
    rewrite lookup_insert_ne by done. by rewrite Hread.
  - intros u Hu. rewrite lookup_insert_ne; [by apply (b_fresh _ HB)|].
    rewrite Hp. intros E%artifact_path_inj; [|by eapply issued_text|by exists u].
    rewrite E in Hi. destruct Hi as (u' & Hu' & E').
    apply (@inj _ _ _ _ _ uuid_to_string_inj) in E'. by subst.
  - intros p i [[_ <-]|[? Hpi]]%lookup_insert_Some; [by rewrite lookup_insert_eq|].
    rewrite lookup_insert_ne; [by eapply b_fs_dom|]. intros <-. by eapply Hold.
  - intros p q i [[<- <-]|[? Hpi]]%lookup_insert_Some [[<- Hi0]|[? Hqi]]%lookup_insert_Some;
      simplify_eq; try done; [..|by eapply b_fs_inj].
    + exfalso. by eapply Hold.
    + exfalso. by eapply Hold.
Qed.

Lemma Inv_create exact w t fault plan c :
  Inv exact w → w_tasks w !! t = Some (TPrepareCreate plan c) →
  Inv exact (step_create t fault plan c w).
Proof.
  intros HI Ht. pose proof HI as [HB _].
  destruct (b_task _ HB t _ Ht) as [Hplan [Hcand Hnone]]. simpl in Hplan, Hcand, Hnone.
  unfold step_create, create_preallocated_file, fs_create. rewrite Hnone.
  destruct fault as [[[] msg]|].
  - eapply Inv_set_fs; [done|done|by eapply fs_step_create| |done..]. split; [|done]. exact Hplan.
  - eapply Inv_advance; [done|done|by split|done..].
  - unfold fs_update. simpl. rewrite alter_insert_eq.
    eapply Inv_set_fs; [done|done|by eapply fs_step_create| |done..].
    split; [done|]. destruct Hcand as [? ? ? Hsz Hnew]. pose proof Hnew as (_ & Hcm & _).
    simpl. split; [by split|].
    eexists. unfold fs_read. simpl. rewrite lookup_insert_eq. simpl. rewrite lookup_insert_eq.
    split_and!; [done| |congruence]. unfold zlen. rewrite length_set_len.
    unfold size_ok in Hsz. lia.
Qed.

(** A task keeps its invariant when no session of an active id appears. *)
Lemma task_ok_grow w w' k :
  w_fs w' = w_fs w → (∀ d, issued w d → issued w' d) → (∀ d, active w d → active w' d) →
  (∀ d s, active w d → live w' d s → live w d s) →
  (∀ c, candidate_of k = Some c → sessions (w_store w') !! us_deploy_id c = None) →
  task_ok w k → task_ok w' k.
Proof.
  intros Hfs Hi Ha Hl Hc [Hplan Hown]. split.
  { eapply Forall_impl; [exact Hplan|]. intros p (d & -> & Hd & Hn). exists d.
    split_and!; [done|auto|]. destruct (sessions (w_store w') !! d) as [s|] eqn:E; [|done].
    apply Hl in E; [|done]. unfold live in E. congruence. }
  destruct k; simpl in *; rewrite ?Hfs; try done;
    repeat match goal with
    | H : _ ∧ _ |- _ => destruct H
    | H : cand_ok _ _ |- _ => destruct H
    | H : push_ok _ _ _ |- _ => destruct H
    | H : commit_ok _ _ _ |- _ => destruct H
    end; split_and?; try done;
    first [by split; eauto|by eauto
          |intros s Hs; match goal with H : ∀ s, live _ _ s → _ ∧ _ |- _ => by apply H, Hl end].
Qed.

Section publish.
Context (exact : bool) (w : World) (P : string → UploadSession → Prop) (st' : StoreState).
Context (plan0 plan : CleanupPlan) (t : nat) (c : UploadSession) (now : Z) (reply : Reply).
Context (HB : Base w) (Hcnt : counts exact w).
Context (Ht : w_tasks w !! t = Some (TPreparePublish plan0 c)).
Context (Hcl : cleaned P (w_store w) st' plan).
Context (Hnew : existing_session (us_idempotency_key c) st' = None).

Let w1 : World := with_store st' w.
Let w' : World := set_store t (TCleanup (plan0 ++ plan) reply)
  {| sessions := <[us_deploy_id c := us_touch now c]> (sessions st');
     idempotency := <[us_idempotency_key c := us_deploy_id c]> (idempotency st') |} w.

Local Lemma publish_base : Base w1.
Proof using HB Hcl. by eapply Base_store, store_step_cleaned. Qed.

Local Lemma publish_cand : cand_ok w c.
Proof using HB Ht. by eapply cand_task_ok. Qed.

Local Lemma publish_not_active d : active w1 d → d ≠ us_deploy_id c.
Proof using Ht. intros [_ Hd] ->. by eapply (Hd t). Qed.

Local Lemma publish_active d : active w1 d → active w' d.
Proof using Ht.
  intros [Hd Hd']. split; [done|]. intros t' k' c'. simpl.
  intros [[<- <-]|[? Ht']]%lookup_insert_Some Hc'; [done|]. by eapply Hd'.
Qed.

Local Lemma publish_active_new : active w' (us_deploy_id c).
Proof using HB Ht.
  split; [apply publish_cand|]. intros t' k' c'. simpl.
  intros [[<- <-]|[Hne Ht']]%lookup_insert_Some Hc' E; [done|].
  apply Hne. by eapply (b_cand _ HB t t').
Qed.

Local Lemma publish_live d s : active w1 d → live w' d s → live w1 d s.
Proof using Ht.
  intros Hd. unfold live. simpl. rewrite lookup_insert_ne; [done|].
  intros <-. by eapply publish_not_active.
Qed.

Local Lemma publish_task t' k : t' ≠ t → w_tasks w !! t' = Some k → task_ok w' k.
Proof using HB Ht Hcl.
  intros Hne Ht'. pose proof publish_base as HB1.
  apply (task_ok_grow w1); try done.
  - apply publish_active.
  - apply publish_live.
  - intros c' Hc'. simpl. rewrite lookup_insert_ne.
    + by apply (cand_task_ok w1 t' k).
    + intros E. apply Hne. by eapply (b_cand _ HB t' t).
  - by apply (b_task _ HB1 t').
Qed.

Local Lemma publish_plan p : p ∈ plan0 ++ plan → plan_ok w' p.
Proof using HB Ht Hcl.
  pose proof publish_base as HB1. intros Hp.
  assert (task_ok w' (TCleanup (plan0 ++ plan) RPurge)) as [Hall _].
  { apply (task_ok_grow w1); try done; [apply publish_active|apply publish_live|].
    apply task_ok_cleanup, Forall_app. split.
    - by destruct (b_task _ HB1 t _ Ht).
    - by eapply plan_ok_cleaned. }
  rewrite Forall_forall in Hall. by apply Hall.
Qed.

Local Lemma publish_indexed : indexed (w_store w').
Proof using HB Ht Hcl Hnew.
  pose proof publish_base as HB1. pose proof (b_indexed _ HB1) as [I1 I2].
  assert (Hkeys : ∀ d s, sessions st' !! d = Some s →
            us_idempotency_key s ≠ us_idempotency_key c).
  { intros d s Hs E. apply I2 in Hs as Hk. simpl in Hk. rewrite E in Hk.
    unfold existing_session in Hnew. rewrite Hk in Hnew. simpl in Hnew.
    by rewrite Hs in Hnew. }
  assert (Habs : sessions st' !! us_deploy_id c = None).
  { by apply (cand_task_ok w1 t _ c HB1 Ht). }
  split; simpl.
  - intros k d [[<- <-]|[Hk Hd]]%lookup_insert_Some.
    + exists (us_touch now c). by rewrite lookup_insert_eq.
    + destruct (I1 k d Hd) as (s & Hs & <-). exists s. simpl in Hs.
      rewrite lookup_insert_ne; [done|]. intros <-. congruence.
  - intros d s [[<- <-]|[Hne Hs]]%lookup_insert_Some; [by rewrite lookup_insert_eq|].
    rewrite lookup_insert_ne; [by apply I2|]. intros E. by eapply Hkeys.
Qed.

Local Lemma publish_session d s : live w' d s → session_ok w' d s.
Proof using HB Ht Hcl.
  pose proof publish_base as HB1. unfold live. simpl.
  intros [[<- <-]|[Hne Hs]]%lookup_insert_Some.
  - destruct (b_task _ HB t _ Ht) as [_ [[] Hf]].
    destruct c_new0 as (Hr & Hcm & Hin & Hcip). pose proof publish_active_new.
    split; simpl; try done; rewrite ?Hr, ?Hcm, ?Hin, ?Hcip; try lia.
    split; constructor.
  - destruct (b_session _ HB1 d s Hs). split; try done. by apply publish_active.
Qed.

Lemma Inv_insert_candidate : Inv exact w'.
Proof using HB Hcnt Ht Hcl Hnew.
  pose proof HB as []. split; [split; try done|].
  - apply publish_indexed.
  - apply publish_session.
  - intros t' k. simpl. intros [[<- <-]|[? Ht']]%lookup_insert_Some; [|by eapply publish_task].
    apply task_ok_cleanup, Forall_forall, publish_plan.
  - intros t1 t2 k1 k2 c1 c2. simpl.
    intros [[<- <-]|[? Hk1]]%lookup_insert_Some C1
      [[<- <-]|[? Hk2]]%lookup_insert_Some C2 E; try done. by eapply (b_cand0 t1 t2).
  - intros d s. unfold live. simpl. intros [[<- <-]|[Hne Hs]]%lookup_insert_Some; simpl.
    + destruct publish_cand as [_ _ _ _ (_ & _ & -> & ->)].
      rewrite !count_zero; [simpl; lia|..]; intros t' k.
      all: intros [[<- <-]|[? Ht']]%lookup_insert_Some; [done|]; intros E.
      all: destruct (b_task0 t' k Ht') as [_ Hown].
      all: eapply (publish_not_active (us_deploy_id c)); [|done].
      all: change (active w (us_deploy_id c)).
      all: destruct k; simplify_eq/=;
        repeat match goal with H : _ ∧ _ |- _ => destruct H end;
        match goal with
        | H : push_ok _ _ _ |- _ => destruct H
        | H : commit_ok _ _ _ |- _ => destruct H
        end; simplify_eq; congruence.
    + rewrite !count_insert. unfold hit. rewrite Ht. simpl.
      destruct (Hcnt d s (cleaned_live _ _ _ _ _ _ Hcl Hs)) as [[? ?] [? ?]].
      naive_solver lia.
Qed.
End publish.

(** A [prepare] that gives up its candidate may schedule its file for removal. *)
Lemma Inv_drop_candidate exact w t plan c reply :
  Inv exact w → w_tasks w !! t = Some (TPreparePublish plan c) →
  Inv exact (set_fs t (TCleanup (plan ++ [us_file_path c]) reply) (w_fs w) w).
Proof.
  intros HI Ht. pose proof HI as [HB _].
  pose proof (cand_task_ok _ _ _ c HB Ht eq_refl) as [Hi Habs Hp _ _].
  destruct (b_task _ HB t _ Ht) as [Hplan _].
  assert (Inv exact (set_fs t (TCleanup plan reply) (w_fs w) w)) as HI0.
  { eapply Inv_advance; [done|done|by split|done..]. }
  set (w0 := set_fs t (TCleanup plan reply) (w_fs w) w) in *.
  assert (set_fs t (TCleanup (plan ++ [us_file_path c]) reply) (w_fs w) w =
          set_fs t (TCleanup (plan ++ [us_file_path c]) reply) (w_fs w0) w0) as ->.
  { unfold w0, set_fs, with_tasks. simpl. by rewrite insert_insert_eq. }
  pose proof HI0 as [HB0 _].
  eapply Inv_advance; [done|apply lookup_insert_eq| |done..].
  apply task_ok_cleanup, Forall_app. split.
  - by destruct (b_task _ HB0 t (TCleanup plan reply) (lookup_insert_eq _ _ _)).
  - constructor; [|constructor]. exists (us_deploy_id c). split_and!; [done| |done].
    split; [done|]. intros t' k' c'. simpl.
    intros [[<- <-]|[Hne Ht']]%lookup_insert_Some Hc' E; [done|].
    apply Hne. by eapply (b_cand _ HB t t').
Qed.

(** The loser of the race for an idempotency key. *)
Lemma Inv_publish_lost exact w P st st1 plan plan' t c reply :
  Inv exact w → w_tasks w !! t = Some (TPreparePublish plan c) →
  cleaned P (w_store w) st plan' →
  store_step w st1 → dom (sessions st1) = dom (sessions st) →
  (∀ d s', sessions st1 !! d = Some s' → ∃ s, live w d s ∧
     us_inflight_writes s' = us_inflight_writes s ∧
     us_commit_in_progress s' = us_commit_in_progress s) →
  Inv exact (set_store t (TCleanup (plan ++ plan' ++ [us_file_path c]) reply) st1 w).
Proof.
  intros HI Ht Hcl Hst Hdom Hfl.
  pose proof (Inv_drop_candidate exact w t plan c reply HI Ht) as HI0.
  set (w0 := set_fs t _ (w_fs w) w) in HI0. pose proof HI0 as [HB0 _].
  assert (Hcl0 : cleaned P (w_store w0) st plan') by done.
  assert (Hts : w_tasks w0 !! t = Some (TCleanup (plan ++ [us_file_path c]) reply))
    by apply lookup_insert_eq.
  match goal with |- Inv _ ?x => assert (x =
    set_store t (TCleanup (plan ++ plan' ++ [us_file_path c]) reply) st1 w0) as -> end.
  { unfold w0, set_store, set_fs, with_tasks. simpl. by rewrite insert_insert_eq. }
  assert (Hst0 : store_step w0 st1).
  { destruct Hst as [? Hst]. split; [done|]. intros d1 s1 Hs1.
    destruct (Hst d1 s1 Hs1) as [[] (s2 & Hs2 & ?)]. split; [|by exists s2].
    split; try done. by apply (s_active w0 d1 s2), b_session. }
  apply Inv_set_store; try done; try (by rewrite Hts).
  apply task_ok_cleanup. rewrite app_assoc, (Permutation_app_comm plan plan').
  rewrite <-app_assoc. apply Forall_app. split.
  - by eapply plan_ok_cleaned.
  - by destruct (task_ok_store _ _ _ Hst0 (b_task _ HB0 t _ Hts)).
Qed.

Lemma Inv_publish exact w t now plan c :
  Inv exact w → w_tasks w !! t = Some (TPreparePublish plan c) →
  Inv exact (step_publish cfg t now plan c w).
Proof.
  intros HI Ht. unfold step_publish, prepare_publish.
  destruct (collect_session_cleanup_locked _ _ _ _ _) as [st plan'] eqn:E.
  apply collect_session_cleanup_spec in E. pose proof HI as [HB HC].
  pose proof (store_step_cleaned _ _ _ _ HB E) as Hst.
  destruct (existing_session _ st) as [[d s]|] eqn:Hex.
  2: { exact (Inv_insert_candidate exact w _ st plan plan' t c now _ HB HC Ht E Hex). }
  apply bind_Some in Hex as (d' & _ & Hs). apply bind_Some in Hs as (s' & Hs & ?).
  simplify_eq. case_decide; eapply Inv_publish_lost; try done.
  - eapply store_step_put; try done. apply session_ok_touch. by eapply b_session, cleaned_live.
  - by eapply dom_put_session.
  - intros. by eapply cleaned_put_flags.
  - intros d1 s1 Hs1. exists s1. split; [by eapply cleaned_live|done].
Qed.

(** *** [push] *)

Lemma hit_None f d : hit f d None = 0.
Proof. done. Qed.
Lemma hit_eq f d k : f k = Some d → hit f d (Some k) = 1.
Proof. intros E. unfold hit. by rewrite decide_True. Qed.
Lemma hit_ne f d k : f k ≠ Some d → hit f d (Some k) = 0.
Proof. intros E. unfold hit. by rewrite decide_False. Qed.

(** [counts_set] when one session is updated and one id is counted. *)
Lemma counts_put exact w st' t k d s s' :
  counts exact w → (∀ d' s1, sessions st' !! d' = Some s1 → live w d' s1) →
  sessions st' !! d = Some s →
  us_inflight_writes s' =
    us_inflight_writes s + hit push_id d (Some k) - hit push_id d (w_tasks w !! t) →
  Z.b2z (us_commit_in_progress s') = Z.b2z (us_commit_in_progress s)
    + hit commit_id d (Some k) - hit commit_id d (w_tasks w !! t) →
  (∀ d', d' ≠ d → hit push_id d' (Some k) = 0 ∧ hit push_id d' (w_tasks w !! t) = 0 ∧
     hit commit_id d' (Some k) = 0 ∧ hit commit_id d' (w_tasks w !! t) = 0) →
  counts exact (set_store t k (put_session d s' st') w).
Proof.
  intros Hc Hsub Hs Hp Hcm Hne. eapply counts_set; [exact Hc|done|].
  intros d' s1. unfold live. simpl. intros [[<- <-]|[Hd Hs1]]%lookup_insert_Some.
  - exists s. split; [by apply Hsub|done].
  - exists s1. split; [by apply Hsub|]. destruct (Hne d') as (-> & -> & -> & ->); [done|]. lia.
Qed.

Lemma push_checks_spec q chunk_end :
  push_typed q → push_checks cfg q = Ok chunk_end →
  zlen (pq_chunk q) = ch_length (pq_header q) ∧ 0 <= ch_offset (pq_header q) ∧
  0 < ch_length (pq_header q) ∧ chunk_end = ch_offset (pq_header q) + ch_length (pq_header q) ∧
  chunk_end <= u64_max.
Proof.
  unfold push_checks, push_typed. intros (Hv & Ho & Hl) Hc.
  inv_ok. unfold validate, ArtifactPushRequest_validate in Hv. inv_ok.
  match goal with H : validate (pq_header q) = _ |- _ =>
    unfold validate, ArtifactPushChunkHeader_validate, ensure_positive_u64 in H end.
  inv_ok. rewrite negb_true_iff, Z.eqb_neq in *.
  match goal with H : checked_add _ _ = _ |- _ => unfold checked_add in H end.
  case_match eqn:E; simplify_eq. unfold in_u64 in *. rewrite Z.eqb_eq in *. lia.
Qed.

Lemma push_admit_spec header chunk_end s u :
  push_admit cfg header chunk_end s = Ok u →
  us_upload_token s = ch_upload_token header ∧ us_commit_in_progress s = false ∧
  us_committed s = false ∧ chunk_end <= us_artifact_size s ∧
  us_inflight_writes s < max_inflight_chunks cfg.
Proof.
  unfold push_admit. intros Ha. inv_ok. rewrite bool_decide_eq_true, !negb_true_iff in *.
  split_and!; try done; lia.
Qed.

Lemma Inv_push exact w t q now :
  Inv exact w → w_tasks w !! t = None → push_typed q → Inv exact (step_push cfg t q now w).
Proof.
  intros HI Ht Hty. unfold step_push. destruct (push_checks cfg q) as [chunk_end|e] eqn:Hq.
  2: { eapply (Inv_reply _ _ (λ _ _, True)); eauto using cleaned_refl. }
  apply push_checks_spec in Hq as (Hzl & Ho & Hl & He & _); [|done]. unfold push_begin.
  destruct (collect_session_cleanup_locked _ _ _ _ _) as [st plan] eqn:E.
  apply collect_session_cleanup_spec in E.
  destruct (sessions st !! _) as [s|] eqn:Hs; [|by eapply Inv_reply; eauto].
  destruct (push_admit _ _ _ _) as [u|e] eqn:Ha; [|by eapply Inv_reply; eauto].
  apply push_admit_spec in Ha as (_ & Hcip & Hcm & Hsz & _). pose proof HI as [HB HC].
  pose proof (b_session _ HB _ _ (cleaned_live _ _ _ _ _ _ E Hs)) as Hok.
  pose proof Hok as [_ Hpath Hact _ Hwf Hin _ _].
  split; [apply Base_set_store; try done|].
  - eapply store_step_put; try done; [by eapply store_step_cleaned|].
    apply session_ok_progress; try done; [lia|rewrite Hcip, Hcm; by intros [?|?]|by left].
  - split; [eapply plan_ok_cleaned; try done; by eapply dom_put_session|].
    split; [|done]. split; try done. intros s1. unfold live. simpl. rewrite lookup_insert_eq.
    by intros [= <-].
  - eapply counts_put; [done|by intros; eapply cleaned_live|done|..]; rewrite Ht.
    + rewrite hit_eq, hit_None by done. simpl. lia.
    + rewrite hit_ne, hit_None; [simpl; lia|done].
    + intros d' Hd'. rewrite !hit_None, !hit_ne; [done|done|]. simpl. congruence.
Qed.

Lemma Inv_push_open exact w t fault plan q e now path :
  Inv exact w → w_tasks w !! t = Some (TPushOpen plan q e now path) →
  Inv exact (step_push_open t fault plan q e now path w).
Proof.
  intros HI Ht. pose proof HI as [HB _].
  destruct (b_task _ HB t _ Ht) as [Hplan [Hown ->]]. simpl in Hplan.
  unfold step_push_open, fs_open.
  destruct fault as [msg|].
  { eapply Inv_advance; eauto; by split. }
  destruct (fs_paths (w_fs w) !! _) as [ino|] eqn:Hino; eapply Inv_advance; eauto;
    split; try done.
  split_and!; [done|by eapply b_fs_dom|]. intros p Hp. by eapply b_fs_inj.
Qed.

(** While a push of a live session runs, nobody commits it. *)
Lemma push_alone exact w t k d s :
  counts exact w → Base w → w_tasks w !! t = Some k → push_id k = Some d → live w d s →
  1 <= us_inflight_writes s ∧ us_commit_in_progress s = false ∧ us_committed s = false ∧
  ∀ t' k', w_tasks w !! t' = Some k' → commit_id k' ≠ Some d.
Proof.
  intros Hc HB Ht Hk Hs. destruct (Hc _ _ Hs) as [[Hn _] [Hm _]].
  pose proof (count_pos push_id _ _ _ _ Ht Hk) as Hpos.
  pose proof (s_quiet _ _ _ (b_session _ HB _ _ Hs)) as Hq.
  assert (us_commit_in_progress s = false) as Hcip.
  { apply not_true_iff_false. intros E. rewrite Hq in Hn by auto. lia. }
  split_and!; [lia|done| |].
  - apply not_true_iff_false. intros E. rewrite Hq in Hn by auto. lia.
  - intros t' k' Ht' Hk'. pose proof (count_pos commit_id _ _ _ _ Ht' Hk').
    rewrite Hcip in Hm. simpl in Hm. lia.
Qed.

Lemma fs_read_update p ino g f :
  (∀ i, fs_paths f !! p = Some i → i ≠ ino) → fs_read p (fs_update ino g f) = fs_read p f.
Proof.
  intros Hne. unfold fs_read. simpl. destruct (fs_paths f !! p) as [i|] eqn:E; [|done]. simpl.
  rewrite lookup_alter_ne; [done|]. intros ->. by eapply Hne.
Qed.

Lemma fs_step_write exact w t plan q e now ino written n :
  Inv exact w → w_tasks w !! t = Some (TPushWrite plan q e now ino written) →
  (written + n <= length (pq_chunk q))%nat →
  fs_step w t (fs_update ino (λ c, write_at c (Z.to_nat (ch_offset (pq_header q)) + written)
                                     (take n (drop written (pq_chunk q)))) (w_fs w)).
Proof.
  intros [HB HC] Ht Hn. destruct (b_task _ HB t _ Ht) as [_ (Hp & Hino & Hown)].
  pose proof Hp as [[Hi Hcand] Ho Hl Hpos He Hb].
  set (d := ch_deploy_id (pq_header q)) in *.
  split; simpl; try (by apply HB).
  - intros d' s Hs. pose proof (b_session _ HB _ _ Hs) as [_ Hpath [Hi' _] _ _ _ _ Hf].
    destruct (decide (d' = d)) as [->|Hne].
    + destruct (push_alone _ _ t _ d s HC HB Ht eq_refl Hs) as (_ & _ & Hcm & Hnc).
      split_and!; [done| |].
      2: { intros [?|(t' & k' & _ & Ht' & Hk')]; [congruence|]. by destruct (Hnc t' k'). }
      destruct Hf as (content & Hr & Hz & _). unfold fs_read in Hr.
      destruct (fs_paths (w_fs w) !! us_file_path s) as [i|] eqn:Hpi; [|done]. simpl in Hr.
      unfold file_ok, fs_read. simpl. rewrite Hpi. simpl.
      destruct (decide (i = ino)) as [->|?].
      * rewrite lookup_alter_eq, Hr. simpl. eexists. split; [done|]. rewrite Hcm.
        split; [|done]. unfold zlen. rewrite length_write_at; [done|].
        rewrite length_take, length_drop. pose proof (Hb s Hs). unfold zlen in *. lia.
      * rewrite lookup_alter_ne by done. exists content. by rewrite Hcm.
    + assert (∀ i, fs_paths (w_fs w) !! us_file_path s = Some i → i ≠ ino) as Hni.
      { intros i Hpi ->. apply Hown in Hpi. rewrite Hpath in Hpi.
        by apply artifact_path_inj in Hpi; [|by eapply issued_text..]. }
      split_and!; [done| |intros; by apply fs_read_update].
      destruct Hf as (content & Hr & ?). exists content. by rewrite fs_read_update.
  - intros i Hsi. split; [|done]. by apply lookup_alter_is_Some.
  - intros t' k' c Hne Ht' Hc. split; [done|]. apply fs_read_update. intros i Hpi ->.
    apply Hown in Hpi. pose proof (cand_task_ok _ _ _ _ HB Ht' Hc) as [Hi' _ Hp' _ _].
    rewrite Hp' in Hpi. apply artifact_path_inj in Hpi; [|by eapply issued_text..].
    by eapply Hcand.
  - intros p i Hpi. apply lookup_alter_is_Some. by eapply b_fs_dom.
Qed.

Lemma Inv_push_write exact w t n plan q e now ino written w' :
  Inv exact w → w_tasks w !! t = Some (TPushWrite plan q e now ino written) →
  step_push_write t n plan q e now ino written w = Some w' → Inv exact w'.
Proof.
  intros HI Ht Hstep. unfold step_push_write in Hstep. case_guard as Hn; [|done].
  injection Hstep as <-. pose proof HI as [HB HC].
  pose proof (fs_step_write _ w t plan q e now ino written n HI Ht ltac:(lia)) as Hfs.
  set (f' := fs_update _ _ _) in *.
  destruct (b_task _ HB t _ Ht) as [Hplan ([] & Hino & Hown)]. simpl in Hplan.
  eapply Inv_set_fs; [done|done|done| |by case_decide..|by case_decide].
  case_decide; (split; [done|]); [by split|]. split; [by split|]. split; [|done].
  by apply lookup_alter_is_Some.
Qed.

Lemma Inv_push_fail exact w t msg plan q e now ino written :
  Inv exact w → w_tasks w !! t = Some (TPushWrite plan q e now ino written) →
  Inv exact (set_fs t (TPushDone plan q e now (Err (map_internal STAGE_PUSH msg))) (w_fs w) w).
Proof.
  intros HI Ht. pose proof HI as [HB _]. destruct (b_task _ HB t _ Ht) as [Hplan (? & _)].
  eapply Inv_advance; eauto. by split.
Qed.

Lemma Inv_push_end exact w t plan q e now r :
  Inv exact w → w_tasks w !! t = Some (TPushDone plan q e now r) →
  Inv exact (step_push_end t plan q e now r w).
Proof.
  intros HI Ht. pose proof HI as [HB HC].
  destruct (b_task _ HB t _ Ht) as [Hplan Hp]. simpl in Hplan, Hp.
  unfold step_push_end, push_end. set (d := ch_deploy_id (pq_header q)) in *.
  destruct (sessions (w_store w) !! d) as [s|] eqn:Hs.
  2: { split; [by apply Base_set_store; [done|by apply store_step_refl|by split|done]|].
       eapply counts_set; [exact HC|done|]. intros d' s' Hs'. exists s'. split; [done|].
       rewrite Ht, !hit_ne; simpl; try done; [lia|]. intros E. simplify_eq.
       unfold live in Hs'. simpl in Hs'. unfold d in Hs. congruence. }
  destruct (push_alone _ _ t _ d s HC HB Ht eq_refl Hs) as (Hin & Hcip & Hcm & _).
  rewrite (proj2 (Z.ltb_lt 0 _)) by lia.
  pose proof (b_session _ HB _ _ Hs) as Hok. pose proof Hok as [_ _ _ Hsz Hwf _ _ _].
  assert (Hgo : ∀ ranges now' plan0 reply,
    wf_ranges (us_artifact_size s) ranges → plan0 = plan ∨ plan0 = [] →
    Inv exact (set_store t (TCleanup plan0 reply)
      (put_session d (us_progress ranges (us_committed s) (us_inflight_writes s - 1)
         (us_commit_in_progress s) now' s) (w_store w)) w)).
  { intros ranges now' plan0 reply Hr Hp0.
    assert (store_step w (put_session d (us_progress ranges (us_committed s)
      (us_inflight_writes s - 1) (us_commit_in_progress s) now' s) (w_store w))) as Hst.
    { eapply store_step_put; [by apply store_step_refl|done| |done|done].
      apply session_ok_progress; try done; [lia| |by left].
      rewrite Hcip, Hcm. by intros [?|?]. }
    split; [apply Base_set_store; try done|].
    - apply task_ok_cleanup. destruct Hp0 as [-> | ->]; [|constructor].
      by destruct (task_ok_store _ _ _ Hst (b_task _ HB t _ Ht)).
    - eapply counts_put; [done|done|done|..]; rewrite Ht.
      + rewrite hit_ne, hit_eq by done. simpl. lia.
      + rewrite !hit_ne by done. simpl. lia.
      + intros d' Hd'. rewrite !hit_ne; simpl; try done. unfold d in *. congruence. }
  destruct r as [[]|err]; [|by apply Hgo; auto]. apply Hgo; [|by left].
  destruct Hp as [_ Ho Hl Hpos He Hb]. pose proof (Hb s Hs).
  eapply merge_range_spec; [unfold size_ok in Hsz; lia|by destruct Hwf|].
  unfold valid_range, range_from_start_end, sat_sub. simpl. lia.
Qed.

(** *** [commit] *)

Lemma commit_admit_spec q s u :
  commit_admit q s = Ok u →
  us_commit_in_progress s = false ∧ us_inflight_writes s <= 0 ∧
  is_complete (us_received_ranges s) (us_artifact_size s) = true.
Proof.
  unfold commit_admit. intros Ha. inv_ok. rewrite !negb_true_iff in *.
  split_and!; try done; lia.
Qed.

Lemma Inv_commit exact w t q now :
  Inv exact w → w_tasks w !! t = None → Inv exact (step_commit cfg t q now w).
Proof.
  intros HI Ht. unfold step_commit, commit_begin.
  destruct (collect_session_cleanup_locked _ _ _ _ _) as [st plan] eqn:E.
  apply collect_session_cleanup_spec in E.
  destruct (sessions st !! _) as [s|] eqn:Hs; [|by eapply Inv_reply; eauto].
  destruct (commit_admit _ _) as [u|e] eqn:Ha; [|by eapply Inv_reply; eauto].
  apply commit_admit_spec in Ha as (Hcip & Hz & _). pose proof HI as [HB HC].
  pose proof (b_session _ HB _ _ (cleaned_live _ _ _ _ _ _ E Hs)) as Hok.
  pose proof Hok as [_ Hpath Hact _ Hwf Hin _ _].
  split; [apply Base_set_store; try done|].
  - eapply store_step_put; try done; [by eapply store_step_cleaned|].
    apply session_ok_progress; try done; [lia|by left].
  - split; [eapply plan_ok_cleaned; try done; by eapply dom_put_session|].
    split; [|done]. split; [done|]. intros s1. unfold live. simpl. rewrite lookup_insert_eq.
    by intros [= <-].
  - eapply counts_put; [done|by intros; eapply cleaned_live|done|..]; rewrite Ht.
    + rewrite hit_ne, hit_None by done. simpl. lia.
    + rewrite hit_eq, hit_None, Hcip by done. simpl. lia.
    + intros d' Hd'. rewrite !hit_None, !hit_ne; simpl; try done. congruence.
Qed.

Lemma Inv_commit_open exact w t fault plan q now path x :
  Inv exact w → w_tasks w !! t = Some (TCommitOpen plan q now path x) →
  Inv exact (step_commit_open t fault plan q now path x w).
Proof.
  intros HI Ht. pose proof HI as [HB _].
  destruct (b_task _ HB t _ Ht) as [Hplan [Hown ->]]. simpl in Hplan.
  unfold step_commit_open, fs_open. destruct fault as [msg|].
  { eapply Inv_advance; eauto; by split. }
  destruct (fs_paths (w_fs w) !! _) as [ino|] eqn:Hino; eapply Inv_advance; eauto;
    (split; [done|]); (split; [done|]); [|done].
  intros s Hs. destruct (b_session _ HB _ _ Hs) as [_ -> _ _ _ _ _ _].
  split; [done|]. apply prefix_nil.
Qed.

Lemma Inv_commit_read exact w t n plan q now x ino acc w' :
  Inv exact w → w_tasks w !! t = Some (TCommitRead plan q now x ino acc) →
  step_commit_read t n plan q now x ino acc w = Some w' → Inv exact w'.
Proof.
  intros HI Ht Hstep. pose proof HI as [HB _].
  destruct (b_task _ HB t _ Ht) as [Hplan [Hown Hacc]]. simpl in Hplan.
  unfold step_commit_read in Hstep. case_decide as Hrest.
  - case_guard; simplify_eq/=. eapply Inv_advance; eauto. split; [done|]. split; [done|].
    intros s dg Hs [= <-]. destruct (Hacc s Hs) as [Hp [k Hk]].
    destruct (b_fs_dom _ HB _ _ Hp) as [content Hct]. exists content.
    rewrite (fs_content_read _ ino) by done. split; [done|].
    unfold fs_content in *. rewrite Hct in *. simpl in *. subst content.
    by rewrite drop_app_length in Hrest; subst; rewrite app_nil_r.
  - simplify_option_eq. eapply Inv_advance; eauto. split; [done|]. split; [done|].
    intros s Hs. destruct (Hacc s Hs) as [Hp [k Hk]]. split; [done|].
    rewrite Hk. rewrite drop_app_length. apply prefix_app, prefix_take.
Qed.

Lemma Inv_commit_fail exact w t msg plan q now x ino acc :
  Inv exact w → w_tasks w !! t = Some (TCommitRead plan q now x ino acc) →
  Inv exact (set_fs t (TCommitDone plan q now x (Err (map_internal STAGE_COMMIT msg)))
               (w_fs w) w).
Proof.
  intros HI Ht. pose proof HI as [HB _]. destruct (b_task _ HB t _ Ht) as [Hplan (? & _)].
  eapply Inv_advance; eauto. by split.
Qed.

Lemma store_step_trans w P st1 st2 plan :
  store_step w st1 → cleaned P st1 st2 plan → store_step w st2.
Proof.
  intros [I Hst] [S _ _ I2]. split; [auto|]. intros d s Hs. apply Hst. by eapply lookup_weaken.
Qed.

(** While a commit of a live session runs, its flag is set. *)
Lemma commit_flag exact w t k d s :
  counts exact w → w_tasks w !! t = Some k → commit_id k = Some d → live w d s →
  us_commit_in_progress s = true.
Proof.
  intros Hc Ht Hk Hs. destruct (Hc _ _ Hs) as [_ [Hm _]].
  pose proof (count_pos commit_id _ _ _ _ Ht Hk).
  destruct (us_commit_in_progress s); [done|]. simpl in Hm. lia.
Qed.

(** The end of a commit, whatever the digest says: [committed] may be set only when the
    file hashes to the session's digest, and a cleanup may follow. *)
Lemma Inv_commit_finish exact w P t plan plan' q now x r s committed st2 plan0 reply :
  Inv exact w → w_tasks w !! t = Some (TCommitDone plan q now x r) →
  live w (cq_deploy_id q) s →
  (committed = true → us_committed s = true ∨ r = Ok (us_artifact_digest s)) →
  cleaned P (put_session (cq_deploy_id q)
    (us_progress (us_received_ranges s) committed (us_inflight_writes s) false now s)
    (w_store w)) st2 plan' →
  plan0 = plan ++ plan' ∨ plan0 = [] →
  Inv exact (set_store t (TCleanup plan0 reply) st2 w).
Proof.
  intros HI Ht Hs Hcom Hcl Hp0. pose proof HI as [HB HC].
  pose proof (commit_flag _ _ _ _ _ _ HC Ht eq_refl Hs) as Hcip.
  pose proof (b_session _ HB _ _ Hs) as Hok. pose proof Hok as [_ _ _ _ Hwf Hin Hq _].
  set (d := cq_deploy_id q) in *.
  set (s' := us_progress _ _ _ _ _ s) in *. set (st1 := put_session d s' (w_store w)) in *.
  assert (store_step w st1) as Hst1.
  { eapply store_step_put; [by apply store_step_refl|done| |done|done].
    apply session_ok_progress; try done; [by auto|]. intros Hc. destruct (Hcom Hc) as [?|Hr].
    - by left.
    - right. destruct (b_task _ HB t _ Ht) as [_ [_ Hd]]. by apply Hd. }
  pose proof (store_step_trans _ _ _ _ _ Hst1 Hcl) as Hst2. split.
  - apply Base_set_store; try done. apply task_ok_cleanup.
    destruct Hp0 as [-> | ->]; [|constructor]. apply Forall_app. split.
    + by destruct (task_ok_store _ _ _ Hst2 (b_task _ HB t _ Ht)).
    + by apply (plan_ok_cleaned (with_store st1 w) P st2 st2); [apply Base_store|..].
  - eapply counts_set; [exact HC|done|]. intros d' s1 Hs1. unfold live in Hs1. simpl in Hs1.
    eapply lookup_weaken in Hs1; [|exact (cleaned_sub _ _ _ _ Hcl)]. simpl in Hs1.
    apply lookup_insert_Some in Hs1 as [[<- <-]|[Hne Hs1]]; rewrite Ht.
    + exists s. split; [done|]. rewrite Hcip. rewrite !(hit_ne push_id) by done.
      rewrite (hit_ne commit_id), (hit_eq commit_id) by done. simpl. lia.
    + exists s1. split; [done|]. rewrite !hit_ne; simpl; try done; [lia|].
      unfold d in *. congruence.
Qed.

Lemma Inv_commit_end exact w t plan q now x r :
  Inv exact w → w_tasks w !! t = Some (TCommitDone plan q now x r) →
  Inv exact (step_commit_end cfg t plan q now x r w).
Proof.
  intros HI Ht. pose proof HI as [HB HC]. unfold step_commit_end, commit_end.
  destruct (sessions (w_store w) !! cq_deploy_id q) as [s|] eqn:Hs.
  2: { split; [by apply Base_set_store; [done|by apply store_step_refl|by split|done]|].
       eapply counts_set; [exact HC|done|]. intros d' s' Hs'. exists s'. split; [done|].
       rewrite Ht, !hit_ne; simpl; try done; [lia|]. intros E. simplify_eq.
       unfold live in Hs'. simpl in Hs'. congruence. }
  assert (Hfin : ∀ e,
    Inv exact (set_store t (TCleanup [] (RCommit (Err e)))
      (put_session (cq_deploy_id q) (us_progress (us_received_ranges s) (us_committed s)
         (us_inflight_writes s) false now s) (w_store w)) w)).
  { intros e. eapply (Inv_commit_finish _ _ (λ _ _, True)); eauto using cleaned_refl. }
  destruct r as [digest|e]; [|done]. case_decide as Hd; [|done].
  destruct (collect_session_cleanup_locked _ _ _ _ _) as [st2 plan'] eqn:E.
  apply collect_session_cleanup_spec in E.
  eapply Inv_commit_finish; [done|done|done| |exact E|by left].
  intros _. right. destruct (b_task _ HB t _ Ht) as [_ [[] _]]. subst digest.
  by rewrite k_digest0.
Qed.

(** *** Cleanup, cancellation, pins *)

Lemma fs_step_remove w t p : Base w → plan_ok w p → fs_step w t (fs_remove p (w_fs w)).
Proof.
  intros HB (d & -> & [Hi Hcand] & Hn).
  assert (Hread : ∀ p, p ≠ artifact_path cfg d →
    fs_paths (fs_remove (artifact_path cfg d) (w_fs w)) !! p = fs_paths (w_fs w) !! p ∧
    fs_read p (fs_remove (artifact_path cfg d) (w_fs w)) = fs_read p (w_fs w)).
  { intros p Hne. unfold fs_read. simpl. by rewrite lookup_delete_ne. }
  assert (Hsub : ∀ p i, fs_paths (fs_remove (artifact_path cfg d) (w_fs w)) !! p = Some i →
    fs_paths (w_fs w) !! p = Some i).
  { intros p i. simpl. rewrite lookup_delete_Some. tauto. }
  split.
  - intros d' s Hs. pose proof (b_session _ HB _ _ Hs) as [_ Hpath [Hi' _] _ _ _ _ Hf].
    destruct (Hread (us_file_path s)) as [-> Hr].
    { rewrite Hpath. intros E%artifact_path_inj; [|by eapply issued_text..].
      subst. unfold live in Hs. congruence. }
    split_and!; [done| |done]. destruct Hf as (content & ? & ?). exists content. by rewrite Hr.
  - intros i Hsi. split; [done|]. intros p. apply Hsub.
  - intros t' k' c Hne Ht' Hc. apply Hread.
    pose proof (cand_task_ok _ _ _ _ HB Ht' Hc) as [Hi' _ -> _ _].
    intros E%artifact_path_inj; [|by eapply issued_text..]. by eapply Hcand.
  - intros u Hu. simpl. rewrite lookup_delete_None. right. by apply (b_fresh _ HB).
  - intros p i Hpi. eapply b_fs_dom; [done|]. by apply Hsub.
  - intros p q i Hp Hq. eapply (b_fs_inj _ HB); by apply Hsub.
Qed.

Lemma Inv_delete_task exact w t :
  Inv exact w →
  (exact = false ∨ ∃ plan reply, w_tasks w !! t = Some (TCleanup plan reply)) →
  Inv exact (with_ts (delete t (w_tasks w)) w).
Proof.
  intros [HB HC] Hcase. split; [by apply Base_tasks, tasks_step_delete|].
  intros d s Hs. destruct (HC d s Hs) as [[? ?] [? ?]]. simpl. rewrite !count_delete.
  assert (∀ f, 0 <= hit f d (w_tasks w !! t)) as Hpos.
  { intros f. unfold hit. case_decide; lia. }
  pose proof (Hpos push_id). pose proof (Hpos commit_id).
  destruct Hcase as [-> |(plan & reply & ->)].
  - split; (split; [lia|done]).
  - rewrite !hit_ne by done. split; (split; [lia|]); intros ?; rewrite Z.sub_0_r; auto.
Qed.

Lemma Inv_cleanup exact w t removed plan reply :
  Inv exact w → w_tasks w !! t = Some (TCleanup plan reply) →
  Inv exact (step_cleanup t removed plan reply w).
Proof.
  intros HI Ht. pose proof HI as [HB _]. destruct (b_task _ HB t _ Ht) as [Hplan _].
  destruct plan as [|p plan]; simpl in *.
  { apply Inv_delete_task; eauto. }
  inversion_clear Hplan as [|?? Hp Hplan'].
  destruct removed; eapply Inv_set_fs; eauto using fs_step_remove, fs_step_refl; by split.
Qed.

Lemma Inv_pinned exact w p : Inv exact w → Inv exact (set_pinned p w).
Proof.
  intros [HB HC]. split; [|exact HC]. destruct HB. split; try done.
  - intros d s Hs. destruct (b_session0 d s Hs). by split.
  - intros t k Hk. apply (task_ok_active w); try done. eauto.
Qed.

Theorem Inv_step exact w l w' :
  Inv exact w → (exact = true → is_abort l = false) → step cfg l w = Some w' → Inv exact w'.
Proof.
  intros HI Hab Hstep. destruct l; simpl in Hstep;
    try (case_guard as Hg; [|done]); simplify_eq/=; try destruct_and! Hg.
  all: try (destruct (w_tasks w !! t) as [[]|] eqn:Ht; simplify_eq).
  all: try match goal with |- Inv _ (with_tasks _ _ (delete _ _) _) =>
    by apply Inv_delete_task; [done|left; destruct exact; naive_solver] end.
  - by eapply Inv_prepare.
  - by apply Inv_create.
  - by apply Inv_publish.
  - by apply Inv_push.
  - by apply Inv_push_open.
  - by eapply Inv_push_write.
  - by eapply Inv_push_fail.
  - by apply Inv_push_end.
  - by apply Inv_commit.
  - by apply Inv_commit_open.
  - by eapply Inv_commit_read.
  - by eapply Inv_commit_fail.
  - by apply Inv_commit_end.
  - by apply Inv_lookup.
  - by apply Inv_lookup.
  - by apply Inv_purge.
  - by apply Inv_cleanup.
  - by apply Inv_pinned.
  - by apply Inv_pinned.
Qed.

Theorem Inv_reach exact w : reach cfg exact w → Inv exact w.
Proof.
  induction 1 as [w (Hst & Hp & Hts & Hf & Hd & Hi)|w l w' _ IH Hab Hstep].
  - split; [split|].
    all: unfold counts, live; rewrite ?Hst, ?Hts; try done.
  - by eapply Inv_step.
Qed.
End invariant.
