(* ===== verification/ArtifactTheorems.v ===== *)
(** * What the artifact store guarantees

    Consequences of the invariant of ArtifactLts for every interleaving of requests, the
    behaviour of garbage collection, and two defects of error and cancellation paths. *)

From S2P Require Import Prelude Protocol ByteRanges Files ArtifactStore ArtifactLts.

Open Scope Z_scope.

(** ** Concrete worlds for the witnesses *)

(** Stand-ins for the external crates: the identity as a hash, decimal UUIDs. *)
Definition demo_crates : Crates :=
  {| sha256_hex := string_of_bytes; uuid_to_string := λ u, pretty u |}.

#[export] Instance demo_laws : @CratesLaws demo_crates.
Proof.
  split.
  - apply _.
  - intros u. apply pretty_N_nonempty.
  - intros u. pose proof (pretty_N_digits u) as Hd. unfold all_chars in *.
    rewrite forallb_forall in *. intros c Hc. unfold is_uuid_char, is_ascii_hexdigit.
    by rewrite Hd.
Qed.

Definition demo_cfg : StoreConfig := new_store "/var/imago" 60 600 2 4 2 100.

Definition demo_world : World :=
  {| w_store := empty_store; w_pinned := ∅; w_fs := empty_fs; w_tasks := ∅; w_issued := ∅ |}.

Definition demo_prepare : DeployPrepareRequest :=
  {| dp_name := "svc"; dp_app_type := "cli"; dp_target := ∅; dp_artifact_digest := "abcde";
     dp_artifact_size := 5; dp_manifest_digest := "m"; dp_idempotency_key := "k";
     dp_policy := ∅ |}.

Definition demo_push (off : Z) (chunk : string) : ArtifactPushRequest :=
  {| pq_header := {| ch_deploy_id := "7"; ch_offset := off;
                     ch_length := zlen (bytes_of chunk); ch_chunk_sha256 := chunk;
                     ch_upload_token := "8" |};
     pq_chunk := bytes_of chunk |}.

Definition demo_commit : ArtifactCommitRequest :=
  {| cq_deploy_id := "7"; cq_artifact_digest := "abcde"; cq_artifact_size := 5;
     cq_manifest_digest := "m" |}.

(** An upload in two chunks whose writes are interleaved, committed at the end. *)
Definition demo_upload : list Label :=
  [LPrepare 0 demo_prepare 10 7%N 8%N; LCreate 0 None; LPublish 0 11; LCleanup 0 true;
   LPush 1 (demo_push 0 "abc") 12; LPush 2 (demo_push 2 "cde") 12;
   LPushOpen 1 None; LPushOpen 2 None; LPushWrite 1 2; LPushWrite 2 3; LPushWrite 1 1;
   LPushEnd 2; LPushEnd 1; LCleanup 1 true; LCleanup 2 true;
   LCommit 3 demo_commit 13; LCommitOpen 3 None; LCommitRead 3 4; LCommitRead 3 1;
   LCommitRead 3 0; LCommitEnd 3; LCleanup 3 true].

Section runs.
Context `{Crates} (cfg : StoreConfig).

Lemma reach_run exact ls : ∀ w w',
  reach cfg exact w → (exact = true → Forall (λ l, is_abort l = false) ls) →
  run cfg ls w = Some w' → reach cfg exact w'.
Proof.
  induction ls as [|l ls IH]; simpl; intros w w' Hr Hab Hrun; [by simplify_eq|].
  apply bind_Some in Hrun as (w1 & Hstep & Hrun). eapply IH; [|..|exact Hrun].
  - eapply reach_step; [done| |done]. intros E. by destruct (Forall_cons_1 _ _ _ (Hab E)).
  - intros E. by destruct (Forall_cons_1 _ _ _ (Hab E)).
Qed.
End runs.

Lemma demo_initial : initial (H := demo_crates) demo_cfg demo_world.
Proof. unfold initial. split_and!; try done. Qed.

Definition demo_final : World :=
  default demo_world (run (H := demo_crates) demo_cfg demo_upload demo_world).

Lemma demo_run : run (H := demo_crates) demo_cfg demo_upload demo_world = Some demo_final.
Proof. vm_compute. reflexivity. Qed.

Lemma demo_reach : reach (H := demo_crates) demo_cfg true demo_final.
Proof.
  eapply (reach_run (H := demo_crates)); [by apply reach_init, demo_initial| |apply demo_run].
  intros _. unfold demo_upload. solve_forall.
Qed.

(** ** Files *)

Section claims.
Context `{Crates, !CratesLaws} (cfg : StoreConfig).

(** Every step leaves the files alone or makes one admissible file operation. *)
Lemma step_files exact w l w' :
  Inv cfg exact w → step cfg l w = Some w' →
  w_fs w' = w_fs w ∨ ∃ t, fs_step cfg w t (w_fs w').
Proof.
  intros HI Hstep. pose proof HI as [HB HC].
  destruct l; simpl in Hstep; try (case_guard as Hg; [|done]); simplify_eq/=; try by left.
  all: try destruct_and! Hg.
  all: try (destruct (w_tasks w !! t) as [[]|] eqn:Ht; simplify_eq/=); try by left.
  - left. unfold step_prepare, prepare_decide in Hstep. repeat case_match; simplify_eq; try done.
    all: apply bind_Some in Hstep as (? & ? & ?); by simplify_eq.
  - destruct (b_task _ _ HB t _ Ht) as [_ [_ Hn]]. right. exists t.
    unfold step_create, create_preallocated_file, fs_create.
    rewrite Hn. destruct fault as [[[] msg]|]; simpl.
    + by eapply fs_step_create.
    + by apply fs_step_refl.
    + unfold fs_update. simpl. rewrite alter_insert_eq. by eapply fs_step_create.
  - left. unfold step_publish. by repeat case_match.
  - left. unfold step_push. by repeat case_match.
  - left. unfold step_push_open. by repeat case_match.
  - right. exists t. unfold step_push_write in Hstep. case_guard; simplify_eq/=.
    eapply fs_step_write; [done|done|lia].
  - left. unfold step_push_end. by repeat case_match.
  - left. unfold step_commit. by repeat case_match.
  - left. unfold step_commit_open. by repeat case_match.
  - left. unfold step_commit_read in Hstep. by simplify_option_eq.
  - left. unfold step_commit_end. by repeat case_match.
  - left. unfold step_lookup. by repeat case_match.
  - left. unfold step_lookup. by repeat case_match.
  - left. unfold step_purge. by repeat case_match.
  - right. exists t. destruct plan as [|p plan]; simpl; [by apply fs_step_refl|].
    destruct (b_task _ _ HB t _ Ht) as [Hp _]. inversion_clear Hp.
    destruct removed; [by apply fs_step_remove|by apply fs_step_refl].
Qed.

(** C1 (safety).  Whatever interleaving of requests, I/O errors and cancellations led
    here, an artifact that [committed_artifact] hands to the orchestrator is a file on
    disk whose SHA-256 is the digest announced by the client, and no pending cleanup
    will remove it. *)
Theorem committed_artifact_verified exact w d now st' plan ca :
  reach cfg exact w →
  committed_artifact_locked cfg (w_pinned w) d now (w_store w) = (st', Ok (plan, ca)) →
  ca_deploy_id ca = d ∧
  (∃ content, fs_read (ca_path ca) (w_fs w) = Some content ∧
     sha256_hex content = ca_artifact_digest ca) ∧
  ca_path ca ∉ plan ∧
  ∀ t k, w_tasks w !! t = Some k → ca_path ca ∉ task_plan k.
Proof.
  intros HR Hc. apply Inv_reach in HR as [HB _].
  unfold committed_artifact_locked, with_committed_session in Hc.
  destruct (collect_session_cleanup_locked _ _ _ _ _) as [st plan1] eqn:E.
  apply collect_session_cleanup_spec in E.
  destruct (sessions st !! d) as [s|] eqn:Hs; [|done].
  destruct (us_committed s) eqn:Hcm; simplify_eq/=.
  pose proof (cleaned_live _ _ _ _ _ _ E Hs) as Hl.
  destruct (b_session _ _ HB _ _ Hl) as [Hid Hp Ha _ _ _ _ (content & Hr & _ & Hh)].
  split_and!; [done|by exists content; auto| |].
  - intros Hin. destruct (cleaned_plan _ _ _ _ E _ Hin) as (d' & s' & Hs' & Hn & Ep).
    destruct (b_session _ _ HB _ _ Hs') as [_ Hp' [Hi' _] _ _ _ _ _]. destruct Ha as [Hi _].
    rewrite Hp, Hp' in Ep. apply artifact_path_inj in Ep; [|by eapply issued_text..].
    congruence.
  - intros t k Ht Hin. destruct (b_task _ _ HB t k Ht) as [Hplan _].
    rewrite Forall_forall in Hplan. destruct (Hplan _ Hin) as (d' & Ep & [Hi' _] & Hn).
    destruct Ha as [Hi _]. rewrite Hp in Ep.
    apply artifact_path_inj in Ep; [|by eapply issued_text..]. unfold live in Hl. congruence.
Qed.

(** C2 (safety).  The file of a committed session never changes: no step of any task,
    not even a write of a push that was admitted before the commit, alters or removes
    it while the session is live. *)
Theorem committed_file_immutable exact w l w' d s :
  reach cfg exact w → step cfg l w = Some w' →
  sessions (w_store w) !! d = Some s → us_committed s = true →
  fs_read (us_file_path s) (w_fs w') = fs_read (us_file_path s) (w_fs w).
Proof.
  intros HR%Inv_reach Hstep Hs Hcm.
  destruct (step_files _ _ _ _ HR Hstep) as [-> |[t Hfs]]; [done|].
  destruct (f_live _ _ _ _ Hfs d s Hs) as (_ & _ & Hread). auto.
Qed.

(** Writers and committers exclude each other: while a session is being
    committed, or after, no push of it is between its two locked blocks, and at most one
    commit of it runs. *)
Theorem push_commit_exclusion exact w d s :
  reach cfg exact w → sessions (w_store w) !! d = Some s →
  (us_commit_in_progress s = true ∨ us_committed s = true →
   ∀ t k, w_tasks w !! t = Some k → push_id k ≠ Some d) ∧
  (∀ t1 t2 k1 k2, w_tasks w !! t1 = Some k1 → w_tasks w !! t2 = Some k2 →
     commit_id k1 = Some d → commit_id k2 = Some d → t1 = t2).
Proof.
  intros HR%Inv_reach Hs. destruct HR as [HB HC]. split.
  - intros Hb t k Ht Hk.
    destruct (push_alone _ _ _ _ _ _ _ HC HB Ht Hk Hs) as (_ & H1 & H2 & _).
    destruct Hb; congruence.
  - intros t1 t2 k1 k2 H1 H2 Hk1 Hk2. destruct (decide (t1 = t2)) as [|Hne]; [done|].
    destruct (HC d s Hs) as [_ [Hm _]].
    pose proof (count_delete commit_id d t1 (w_tasks w)) as E.
    rewrite H1, hit_eq in E by done.
    pose proof (count_pos commit_id d t2 k2 (delete t1 (w_tasks w))) as Hp.
    rewrite lookup_delete_ne in Hp by done. specialize (Hp H2 Hk2).
    destruct (us_commit_in_progress s); simpl in Hm; lia.
Qed.

(** At most one live session per idempotency key, every session is
    found through its key, and no key points to a session that is gone. *)
Theorem idempotency_index_exact exact w :
  reach cfg exact w →
  (∀ k d, idempotency (w_store w) !! k = Some d ↔
     ∃ s, sessions (w_store w) !! d = Some s ∧ us_idempotency_key s = k) ∧
  (∀ d1 d2 s1 s2, sessions (w_store w) !! d1 = Some s1 → sessions (w_store w) !! d2 = Some s2 →
     us_idempotency_key s1 = us_idempotency_key s2 → d1 = d2).
Proof.
  intros HR%Inv_reach. destruct HR as [HB _]. pose proof (b_indexed _ _ HB) as HI. split.
  - destruct HI as [I1 I2]. intros k d. split; [apply I1|]. intros (s & Hs & <-). by apply I2.
  - intros. by eapply indexed_inj.
Qed.

(** Nothing gets stuck when requests run to their end: with no request
    in flight every session can be pushed to, or committed as soon as it is complete. *)
Theorem quiescent_sessions_available w d s q now :
  reach cfg true w → w_tasks w = ∅ → sessions (w_store w) !! d = Some s →
  us_inflight_writes s = 0 ∧ us_commit_in_progress s = false ∧
  (is_complete (us_received_ranges s) (us_artifact_size s) = true →
   cq_deploy_id q = d → cq_artifact_digest q = us_artifact_digest s →
   cq_artifact_size q = us_artifact_size s → cq_manifest_digest q = us_manifest_digest s →
   now -ˢ us_updated_at_epoch_secs s < upload_session_ttl_secs cfg →
   d ∈ dom (w_pinned w) ∨ us_committed s = false →
   ∃ st' plan, commit_begin cfg (w_pinned w) q now (w_store w) =
     (st', Ok (plan, us_file_path s, us_artifact_digest s))).
Proof.
  intros HR%Inv_reach Hts Hs. destruct HR as [HB HC].
  destruct (HC d s Hs) as [[_ H1] [_ H2]]. rewrite Hts in H1, H2.
  specialize (H1 eq_refl). specialize (H2 eq_refl).
  assert (us_inflight_writes s = 0) as Hin by (symmetry; exact H1).
  assert (us_commit_in_progress s = false) as Hcip.
  { destruct (us_commit_in_progress s); [|done]. cbv in H2. done. }
  split_and!; [done|done|]. intros Hcomp Hid Hdg Hsz Hmd Hage Hprot.
  unfold commit_begin. destruct (collect_session_cleanup_locked _ _ _ _ _) as [st plan] eqn:E.
  apply collect_session_cleanup_spec in E. rewrite Hid.
  destruct (sessions st !! d) as [s'|] eqn:Hs'.
  2: { destruct (cleaned_gone _ _ _ _ E d s Hs Hs') as [(_ & Hunc & Hcom) _].
       destruct (us_committed s); [|specialize (Hunc eq_refl); lia].
       destruct Hprot as [Hp|]; [|done]. by destruct (Hcom eq_refl). }
  pose proof (cleaned_live _ _ _ _ _ _ E Hs') as Hl. unfold live in Hl. simplify_eq.
  unfold commit_admit. rewrite Hdg, Hsz, Hmd, Hcip, Hin, Hcomp, Z.eqb_refl, !bool_decide_true by done.
  simpl. eauto.
Qed.
End claims.

(** ** Garbage collection *)

(** The committed sessions nobody uses or protects. *)
Definition evictable (st : StoreState) (protected : gset string) : list (string * UploadSession) :=
  filter (λ ds, us_committed ds.2 = true ∧ session_busy ds.2 = false ∧ ds.1 ∉ protected)
    (btree_iter (sessions st)).

Lemma elem_of_evictable st protected d s :
  (d, s) ∈ evictable st protected ↔
  sessions st !! d = Some s ∧ us_committed s = true ∧ session_busy s = false ∧ d ∉ protected.
Proof. unfold evictable. rewrite list_elem_of_filter, elem_of_btree_iter. simpl. tauto. Qed.

Lemma NoDup_evictable st protected : NoDup (evictable st protected).*1.
Proof.
  unfold evictable. eapply sublist_NoDup; [apply (NoDup_btree_keys (sessions st))|].
  apply fmap_sublist, sublist_filter.
Qed.

Section orphans.
Context (st : StoreState) (now ttl max_committed : Z) (protected : gset string).

Let survivors := orphan_survivors st protected
                   (list_to_set (orphan_expired_ids st now ttl protected)).
Let allowed := max_committed -ˢ protected_committed_count st protected.
Let st' := (collect_orphan_committed_sessions now ttl max_committed protected st).1.
Let overflow : nat := Z.to_nat (zlen survivors - allowed).

Local Lemma orphans_sub : sessions st' ⊆ sessions st.
Proof.
  unfold st'. destruct (collect_orphan_committed_sessions _ _ _ _ _) eqn:E.
  by eapply cleaned_sub, collect_removal_spec.
Qed.

Local Lemma orphans_gone d : d ∈ orphan_ids st now ttl max_committed protected →
  sessions st' !! d = None.
Proof. apply collect_removal_gone. Qed.

(** An evictable session that is kept is one of the youngest survivors. *)
Local Lemma evictable_kept d s :
  (d, s) ∈ evictable st' protected →
  (d, us_updated_at_epoch_secs s) ∈ drop overflow (sort_by updated_leb survivors).
Proof.
  intros (Hs' & Hc & Hb & Hp)%elem_of_evictable.
  assert (sessions st !! d = Some s) as Hs by (eapply lookup_weaken; [done|apply orphans_sub]).
  assert (d ∉ orphan_ids st now ttl max_committed protected) as Hnot.
  { intros Hin%orphans_gone. congruence. }
  unfold orphan_ids in Hnot. fold survivors allowed in Hnot.
  assert ((d, us_updated_at_epoch_secs s) ∈ sort_by updated_leb survivors) as Hin.
  { apply elem_of_sort_by, elem_of_orphan_survivors. exists s. split_and!; try done.
    rewrite elem_of_list_to_set. intros Hin. apply Hnot.
    destruct (_ <? _); [apply elem_of_app; by left|done]. }
  rewrite <-(take_drop overflow (sort_by updated_leb survivors)) in Hin.
  apply elem_of_app in Hin as [Hin|Hin]; [|done]. exfalso. apply Hnot.
  destruct (allowed <? zlen survivors) eqn:Hov.
  - apply elem_of_app. right. apply list_elem_of_fmap.
    by exists (d, us_updated_at_epoch_secs s).
  - unfold overflow in Hin. rewrite Z.ltb_ge in Hov.
    replace (Z.to_nat (zlen survivors - allowed)) with 0%nat in Hin by lia.
    simpl in Hin. by apply elem_of_nil in Hin.
Qed.

Lemma evictable_bound : zlen (evictable st' protected) <= Z.max allowed 0.
Proof.
  assert (length (evictable st' protected) <=
          length (drop overflow (sort_by updated_leb survivors)))%nat as Hlen.
  { rewrite <-(length_fmap fst), <-(length_fmap fst (drop _ _)).
    apply submseteq_length, NoDup_submseteq; [apply NoDup_evictable|].
    intros d ([d' s] & -> & Hin)%list_elem_of_fmap. apply evictable_kept in Hin.
    apply list_elem_of_fmap. by exists (d', us_updated_at_epoch_secs s). }
  rewrite length_drop, length_sort_by in Hlen. unfold zlen, overflow in *. unfold zlen in *. lia.
Qed.

Lemma evictable_oldest d s d' s' :
  sessions st !! d = Some s → sessions st' !! d = None →
  now -ˢ us_updated_at_epoch_secs s < ttl → (d', s') ∈ evictable st' protected →
  us_updated_at_epoch_secs s <= us_updated_at_epoch_secs s'.
Proof.
  intros Hs Hn Hage Hkept%evictable_kept.
  assert (d ∈ orphan_ids st now ttl max_committed protected) as Hin.
  { unfold st' in Hn. destruct (collect_orphan_committed_sessions _ _ _ _ _) eqn:E.
    apply collect_removal_spec in E. by destruct (cleaned_gone _ _ _ _ E d s Hs Hn). }
  assert ((d, us_updated_at_epoch_secs s) ∈ take overflow (sort_by updated_leb survivors))
    as Htake.
  { unfold orphan_ids in Hin. fold survivors allowed in Hin.
    assert (d ∉ orphan_expired_ids st now ttl protected) as Hne.
    { intros (s1 & ? & _ & _ & _ & ?)%elem_of_orphan_expired. simplify_eq. lia. }
    destruct (allowed <? _); [|done]. apply elem_of_app in Hin as [?|Hin]; [done|].
    apply list_elem_of_fmap in Hin as ([d1 u] & -> & Hin). simpl in *.
    assert ((d1, u) ∈ survivors) as Hsv.
    { rewrite <-elem_of_sort_by. eapply elem_of_sublist; [exact Hin|apply sublist_take]. }
    apply elem_of_orphan_survivors in Hsv as (s1 & Hs1 & _ & _ & _ & _ & ->). by simplify_eq. }
  assert (StronglySorted (λ a b, updated_leb a b = true) (sort_by updated_leb survivors))
    as Hsorted.
  { apply sort_by_sorted; unfold updated_leb; intros; lia. }
  rewrite <-(take_drop overflow (sort_by updated_leb survivors)) in Hsorted.
  eapply StronglySorted_app_1_elem_of in Hsorted; [|exact Htake|exact Hkept].
  unfold updated_leb in Hsorted. simpl in Hsorted. lia.
Qed.
End orphans.

(** C25 (safety).  A cleanup round touches no session it keeps, never removes one with
    writes or a commit in progress, removes an unfinished upload only when its time is
    up, and never removes a committed session that is pinned or named by the request;
    it plans the removal of exactly the files of the sessions it removed. *)
Theorem cleanup_removes_only_collectable cfg pinned now keep st st' plan :
  collect_session_cleanup_locked cfg pinned now keep st = (st', plan) →
  (∀ d s, sessions st' !! d = Some s → sessions st !! d = Some s) ∧
  (∀ d s, sessions st !! d = Some s → sessions st' !! d = None →
     us_inflight_writes s <= 0 ∧ us_commit_in_progress s = false ∧
     (us_committed s = false →
      upload_session_ttl_secs cfg <= now -ˢ us_updated_at_epoch_secs s) ∧
     (us_committed s = true → d ∉ dom pinned ∧ (keep = Some d → d = "")) ∧
     us_file_path s ∈ plan) ∧
  (∀ p, p ∈ plan → ∃ d s,
     sessions st !! d = Some s ∧ sessions st' !! d = None ∧ p = us_file_path s).
Proof.
  intros E%collect_session_cleanup_spec. destruct E as [Hsub Hgone Hplan _].
  split_and!; [by intros; eapply lookup_weaken| |done].
  intros d s Hs Hn. destruct (Hgone d s Hs Hn) as [(Hb & Hu & Hc) Hp].
  unfold session_busy in Hb. apply orb_false_iff in Hb as [? ?].
  split_and!; [lia|done|done| |done]. intros Hcm. specialize (Hc Hcm).
  unfold protected_set in Hc. split.
  - destruct keep; [|done]. case_bool_decide; set_solver.
  - intros ->. case_bool_decide; [done|set_solver].
Qed.

(** After the collection of committed sessions, those that are neither
    busy nor protected number at most the configured maximum less the protected ones,
    and what the limit evicted is no younger than anything it kept. *)
Theorem committed_sessions_bounded st st' plan now ttl max_committed protected :
  collect_orphan_committed_sessions now ttl max_committed protected st = (st', plan) →
  zlen (evictable st' protected) <=
    Z.max (max_committed -ˢ protected_committed_count st protected) 0 ∧
  (∀ d s d' s', sessions st !! d = Some s → sessions st' !! d = None →
     now -ˢ us_updated_at_epoch_secs s < ttl → (d', s') ∈ evictable st' protected →
     us_updated_at_epoch_secs s <= us_updated_at_epoch_secs s').
Proof.
  intros E. pose proof (evictable_bound st now ttl max_committed protected) as Hb.
  pose proof (evictable_oldest st now ttl max_committed protected) as Ho.
  rewrite E in Hb, Ho. split; [exact Hb|exact Ho].
Qed.

(** ** Two defects *)

Definition demo_path : string := "/var/imago/sessions/7.artifact".

(** An upload that is abandoned; a later push for an unknown deploy id collects it. *)
Definition demo_leak : list Label :=
  take 4 demo_upload ++
  [LPush 1 {| pq_header := {| ch_deploy_id := "9"; ch_offset := 0; ch_length := 1;
                              ch_chunk_sha256 := "x"; ch_upload_token := "t" |};
              pq_chunk := bytes_of "x" |} 1000;
   LCleanup 1 true].

(** A request that is refused inside the locked block drops the cleanup
    plan it just collected: the expired session is forgotten, its file stays on disk for
    good.  Here no request is left running, no I/O failed and nothing was cancelled, and
    yet the file has no session. *)
Theorem refused_push_leaks_file :
  ∃ w, reach (H := demo_crates) demo_cfg true w ∧ w_tasks w = ∅ ∧
    sessions (w_store w) = ∅ ∧ is_Some (fs_read demo_path (w_fs w)).
Proof.
  destruct (run (H := demo_crates) demo_cfg demo_leak demo_world) as [w|] eqn:E;
    [|vm_compute in E; discriminate].
  exists w. split; [|vm_compute in E; injection E as <-; by vm_compute; eauto].
  eapply (reach_run (H := demo_crates)); [by apply reach_init, demo_initial| |exact E].
  intros _. unfold demo_leak. simpl. solve_forall.
Qed.

(** All bytes are received, then one more push is cancelled before its second block. *)
Definition demo_wedge : list Label :=
  take 15 demo_upload ++ [LPush 3 (demo_push 0 "abc") 12; LAbort 3].

(** A push that is cancelled between its locked blocks (a connection that
    goes away aborts its stream tasks) never gives its slot back: the upload is complete
    and no request runs, but every later commit answers [Busy], at any time, and the
    session is never collected. *)
Theorem cancelled_push_blocks_commit :
  ∃ w s, reach (H := demo_crates) demo_cfg false w ∧ w_tasks w = ∅ ∧
    sessions (w_store w) !! "7" = Some s ∧
    is_complete (us_received_ranges s) (us_artifact_size s) = true ∧
    ∀ pinned now, ∃ st',
      commit_begin demo_cfg pinned demo_commit now (w_store w) =
        (st', Err (new_error Busy STAGE_COMMIT "artifact has in-flight writes")) ∧
      sessions st' !! "7" = Some s.
Proof.
  destruct (run (H := demo_crates) demo_cfg demo_wedge demo_world) as [w|] eqn:E;
    [|vm_compute in E; discriminate].
  destruct (sessions (w_store w) !! "7") as [s|] eqn:Hs;
    [|vm_compute in E; injection E as <-; vm_compute in Hs; discriminate].
  assert (w_tasks w = ∅ ∧ is_complete (us_received_ranges s) (us_artifact_size s) = true ∧
    0 < us_inflight_writes s ∧
    commit_admit demo_commit s =
      Err (new_error Busy STAGE_COMMIT "artifact has in-flight writes")) as (Ht & Hc & Hin & Ha).
  { vm_compute in E. injection E as <-. vm_compute in Hs. injection Hs as <-.
    by vm_compute. }
  exists w, s. split_and!; [|done|done|done|].
  - eapply (reach_run (H := demo_crates) demo_cfg false demo_wedge); [|done|exact E].
    by apply reach_init, demo_initial.
  - intros pinned now. unfold commit_begin.
    destruct (collect_session_cleanup_locked _ _ _ _ _) as [st plan] eqn:Ecl.
    apply collect_session_cleanup_spec in Ecl. exists st.
    assert (sessions st !! "7" = Some s) as Hs'.
    { destruct (sessions st !! "7") as [s'|] eqn:Hs'.
      - pose proof (lookup_weaken _ _ _ _ Hs' (cleaned_sub _ _ _ _ Ecl)). congruence.
      - destruct (cleaned_gone _ _ _ _ Ecl _ s Hs Hs') as [(Hb & _) _].
        unfold session_busy in Hb. apply orb_false_iff in Hb as [? _]. lia. }
    change (cq_deploy_id demo_commit) with "7". rewrite Hs', Ha.
    split; reflexivity.
Qed.

(** ** Witnesses *)

Lemma committed_artifact_verified_witness :
  ∃ content, fs_read demo_path (w_fs demo_final) = Some content ∧
    string_of_bytes content = "abcde".
Proof.
  edestruct (committed_artifact_verified (H := demo_crates) demo_cfg true demo_final "7" 14)
    as (_ & (content & Hr & Hh) & _); [exact demo_reach|vm_compute; reflexivity|].
  exists content. split; [exact Hr|exact Hh].
Defined.

Definition demo_at (n : nat) : World :=
  default demo_world (run (H := demo_crates) demo_cfg (take n demo_upload) demo_world).

Lemma demo_at_reach n w :
  run (H := demo_crates) demo_cfg (take n demo_upload) demo_world = Some w →
  reach (H := demo_crates) demo_cfg true w.
Proof.
  intros E. eapply (reach_run (H := demo_crates)); [by apply reach_init, demo_initial| |exact E].
  intros _. apply Forall_take. unfold demo_upload. solve_forall.
Qed.

Definition demo_session (w : World) : UploadSession :=
  default (new_session (H := demo_crates) demo_cfg demo_prepare 0 7%N 8%N)
    (sessions (w_store w) !! "7").

Lemma committed_file_immutable_witness :
  ∃ w', step (H := demo_crates) demo_cfg (LPurge 4 "7" 15) demo_final = Some w' ∧
    fs_read demo_path (w_fs w') = fs_read demo_path (w_fs demo_final).
Proof.
  destruct (step (H := demo_crates) demo_cfg (LPurge 4 "7" 15) demo_final) as [w'|] eqn:E;
    [|vm_compute in E; discriminate].
  exists w'. split; [reflexivity|].
  exact (committed_file_immutable (H := demo_crates) demo_cfg true demo_final _ w' "7"
           (demo_session demo_final) demo_reach E
           ltac:(vm_compute; reflexivity) ltac:(vm_compute; reflexivity)).
Defined.

Lemma push_commit_exclusion_witness :
  ∃ k, w_tasks (demo_at 17) !! 3%nat = Some k ∧ bool_decide (push_id k = Some "7") = false.
Proof.
  destruct (w_tasks (demo_at 17) !! 3%nat) as [k|] eqn:E; [|vm_compute in E; discriminate].
  exists k. split; [reflexivity|]. apply bool_decide_eq_false_2.
  eapply (push_commit_exclusion (H := demo_crates) demo_cfg true (demo_at 17) "7");
    [apply (demo_at_reach 17); vm_compute; reflexivity|vm_compute; reflexivity| |exact E].
  left. vm_compute. reflexivity.
Defined.

Lemma idempotency_index_exact_witness :
  ∃ s, sessions (w_store (demo_at 17)) !! "7" = Some s ∧ us_idempotency_key s = "k".
Proof.
  apply (idempotency_index_exact (H := demo_crates) demo_cfg true (demo_at 17));
    [apply (demo_at_reach 17)|]; vm_compute; reflexivity.
Defined.

Lemma quiescent_sessions_available_witness :
  ∃ st' plan, commit_begin demo_cfg ∅ demo_commit 13 (w_store (demo_at 15)) =
    (st', Ok (plan, demo_path, "abcde")).
Proof.
  destruct (quiescent_sessions_available (H := demo_crates) demo_cfg (demo_at 15) "7"
    (demo_session (demo_at 15)) demo_commit 13) as (_ & _ & Hgo);
    [apply (demo_at_reach 15); vm_compute; reflexivity|vm_compute; reflexivity..|].
  apply Hgo; try (vm_compute; reflexivity). right. vm_compute. reflexivity.
Defined.

Lemma cleanup_removes_only_collectable_witness :
  ∃ st', collect_session_cleanup_locked demo_cfg ∅ 1000 None (w_store (demo_at 4)) =
    (st', [demo_path]) ∧ ∀ d s, sessions st' !! d = Some s →
    sessions (w_store (demo_at 4)) !! d = Some s.
Proof.
  eexists. split; [vm_compute; reflexivity|].
  eapply (cleanup_removes_only_collectable demo_cfg ∅ 1000 None (w_store (demo_at 4))).
  vm_compute. reflexivity.
Defined.

(** Two committed sessions, one too many for a limit of one. *)
Definition demo_two : StoreState :=
  let s u d := us_progress [] true 0 false u (new_session (H := demo_crates) demo_cfg
                                                demo_prepare 0 d 8%N) in
  {| sessions := <["7" := s 20 7%N]> (<["8" := s 10 8%N]> ∅); idempotency := ∅ |}.

Lemma committed_sessions_bounded_witness :
  ∃ st' plan, collect_orphan_committed_sessions 30 600 1 ∅ demo_two = (st', plan) ∧
    zlen (evictable st' ∅) <= 1 ∧ sessions st' !! "8" = None.
Proof.
  destruct (collect_orphan_committed_sessions 30 600 1 ∅ demo_two) as [st' plan] eqn:E.
  exists st', plan. split; [reflexivity|]. split.
  - apply (committed_sessions_bounded demo_two st' plan 30 600 1 ∅ E).
  - vm_compute in E. injection E as <- <-. vm_compute. reflexivity.
Defined.
