(* ===== verification/ArtifactUpload.v ===== *)
(** * Uploads end to end

    The handlers of ArtifactStore run one after the other, without I/O errors, on a
    store that may hold other sessions: preparing is idempotent, and preparing, pushing
    the chunks of an artifact in any order and committing yields that artifact. *)

From S2P Require Import Prelude Protocol ByteRanges Files ArtifactStore ArtifactLts.
From S2P Require Import ArtifactTheorems.

Open Scope Z_scope.

Section upload.
Context `{Crates, !CratesLaws} (cfg : StoreConfig).

Record store_ok (st : StoreState) : Prop := {
  so_indexed : indexed st;
  so_session d s : sessions st !! d = Some s →
    us_file_path s = artifact_path cfg d ∧ us_deploy_id s = d ∧ uuid_text d;
}.

Record node_ok (n : Node) : Prop := {
  nk_store : store_ok (node_store n);
  nk_dom p i : fs_paths (node_fs n) !! p = Some i → is_Some (fs_inodes (node_fs n) !! i);
  nk_inj p q i : fs_paths (node_fs n) !! p = Some i → fs_paths (node_fs n) !! q = Some i →
    p = q;
}.

(** ** Cleanup *)

Lemma apply_cleanup_paths plan : ∀ f p,
  fs_inodes (apply_cleanup_plan plan f) = fs_inodes f ∧
  (∀ i, fs_paths (apply_cleanup_plan plan f) !! p = Some i → fs_paths f !! p = Some i) ∧
  (p ∉ plan → fs_paths (apply_cleanup_plan plan f) !! p = fs_paths f !! p).
Proof.
  induction plan as [|q plan IH]; intros f p; [done|]. simpl.
  destruct (IH (fs_remove q f) p) as (-> & Hsub & Heq). split_and!; [done| |].
  - intros i Hi%Hsub. simpl in Hi. by apply lookup_delete_Some in Hi as [_ ?].
  - intros [Hne Hn]%not_elem_of_cons. rewrite Heq by done. simpl. by rewrite lookup_delete_ne.
Qed.

Lemma fs_read_cleanup plan f p :
  p ∉ plan → fs_read p (apply_cleanup_plan plan f) = fs_read p f.
Proof.
  intros Hn. unfold fs_read. destruct (apply_cleanup_paths plan f p) as (-> & _ & E).
  by rewrite E.
Qed.

Lemma store_ok_cleaned P st st' plan : cleaned P st st' plan → store_ok st → store_ok st'.
Proof.
  intros [Hsub _ _ Hidx] [Hi Hs]. split; [by apply Hidx|].
  intros d s Hd. apply Hs. by eapply lookup_weaken.
Qed.

(** A cleanup round seen from a session it did not collect. *)
Lemma cleanup_kept st0 pinned now keep d s st plan :
  store_ok st0 → sessions st0 !! d = Some s → sessions st !! d = Some s →
  collect_session_cleanup_locked cfg pinned now keep st0 = (st, plan) →
  store_ok st ∧ artifact_path cfg d ∉ plan.
Proof.
  intros Hn Hs Hs' E%collect_session_cleanup_spec. pose proof E as [_ _ Hplan _].
  split; [by eapply store_ok_cleaned|].
  intros Hin. destruct (Hplan _ Hin) as (d' & s1 & Hs1 & Hnone & Ep).
  destruct (so_session _ Hn _ _ Hs1) as (Hp & _ & Ht1).
  destruct (so_session _ Hn _ _ Hs) as (_ & _ & Ht).
  rewrite Hp in Ep. apply artifact_path_inj in Ep; [|done..]. congruence.
Qed.

(** And from one it may not collect. *)
Lemma cleanup_keeps st0 pinned now keep d s st plan :
  store_ok st0 → sessions st0 !! d = Some s →
  ¬ collectable cfg (protected_set pinned keep) now d s →
  collect_session_cleanup_locked cfg pinned now keep st0 = (st, plan) →
  sessions st !! d = Some s ∧ store_ok st ∧ artifact_path cfg d ∉ plan.
Proof.
  intros Hn Hs Hcol E. pose proof (collect_session_cleanup_spec _ _ _ _ _ _ _ E) as [Hsub Hgone _ _].
  assert (sessions st !! d = Some s) as Hs'.
  { destruct (sessions st !! d) as [s1|] eqn:E1.
    - eapply lookup_weaken in E1; [|exact Hsub]. congruence.
    - by destruct (Hgone d s Hs E1). }
  split; [done|]. by eapply cleanup_kept.
Qed.

Lemma node_ok_with n st f plan :
  store_ok st →
  (∀ p i, fs_paths f !! p = Some i → is_Some (fs_inodes f !! i)) →
  (∀ p q i, fs_paths f !! p = Some i → fs_paths f !! q = Some i → p = q) →
  node_ok (node_with st (apply_cleanup_plan plan f) n).
Proof.
  intros Hs Hd Hj. split; simpl; [done|..].
  - intros p i Hp. destruct (apply_cleanup_paths plan f p) as (-> & Hsub & _). eauto.
  - intros p q i Hp Hq. destruct (apply_cleanup_paths plan f p) as (_ & Hp' & _).
    destruct (apply_cleanup_paths plan f q) as (_ & Hq' & _). eauto.
Qed.

Lemma store_ok_put st d s s' :
  store_ok st → sessions st !! d = Some s →
  us_idempotency_key s' = us_idempotency_key s →
  us_file_path s' = us_file_path s → us_deploy_id s' = us_deploy_id s →
  store_ok (put_session d s' st).
Proof.
  intros [[I1 I2] Hst] Hs Hk Hp Hid. split; [split|]; simpl.
  - intros k d' Hd. destruct (I1 k d' Hd) as (s1 & Hs1 & <-).
    destruct (decide (d' = d)) as [->|]; [exists s'|exists s1].
    + rewrite lookup_insert_eq. simplify_eq. done.
    + by rewrite lookup_insert_ne.
  - intros d' s1 [[<- <-]|[? Hs1]]%lookup_insert_Some; [rewrite Hk|]; auto.
  - intros d' s1 [[<- <-]|[? Hs1]]%lookup_insert_Some; [|by apply Hst].
    rewrite Hp, Hid. by apply Hst.
Qed.

(** ** One upload in progress *)

(** The session of deploy [d] uploads [data]: what was received is on disk. *)
Record uploading (data : list byte) (d token manifest : string) (t0 : Z) (n : Node)
    (s : UploadSession) : Prop := {
  u_node : node_ok n;
  u_live : sessions (node_store n) !! d = Some s;
  u_token : us_upload_token s = token;
  u_manifest : us_manifest_digest s = manifest;
  u_size : us_artifact_size s = zlen data;
  u_bound : 0 < zlen data <= u64_max;
  u_digest : us_artifact_digest s = sha256_hex data;
  u_flags : us_committed s = false ∧ us_inflight_writes s = 0 ∧ us_commit_in_progress s = false;
  u_ranges : wf_ranges (zlen data) (us_received_ranges s);
  u_updated : t0 <= us_updated_at_epoch_secs s;
  u_file : ∃ content, fs_read (artifact_path cfg d) (node_fs n) = Some content ∧
    zlen content = zlen data ∧
    ∀ x : nat, covers (us_received_ranges s) (Z.of_nat x) → content !! x = data !! x;
}.

Definition in_window (t0 now : Z) : Prop := t0 <= now < t0 + upload_session_ttl_secs cfg.

Lemma uploading_not_collectable data d token manifest t0 n s now protected :
  uploading data d token manifest t0 n s → in_window t0 now →
  ¬ collectable cfg protected now d s.
Proof.
  intros [] [? ?] (_ & Hu & _). destruct u_flags0 as (Hc & _). specialize (Hu Hc).
  unfold sat_sub in Hu. lia.
Qed.

(** Two states of the session of one upload. *)
Definition same_upload (s s' : UploadSession) : Prop :=
  us_deploy_id s' = us_deploy_id s ∧ us_idempotency_key s' = us_idempotency_key s ∧
  us_fingerprint s' = us_fingerprint s ∧ us_artifact_digest s' = us_artifact_digest s ∧
  us_artifact_size s' = us_artifact_size s ∧ us_manifest_digest s' = us_manifest_digest s ∧
  us_upload_token s' = us_upload_token s.

(** A request of one upload leaves the other sessions as they are, or collects them. *)
Definition others_kept (d : string) (n n' : Node) : Prop :=
  delete d (sessions (node_store n')) ⊆ sessions (node_store n).

Lemma others_kept_put d st st0 s :
  sessions st ⊆ sessions st0 → delete d (<[d := s]> (sessions st)) ⊆ sessions st0.
Proof. intros Hsub. rewrite delete_insert_eq. etrans; [apply delete_subseteq|done]. Qed.

(** The request for the bytes [off .. off + len) of the artifact. *)
Definition slice_push (data : list byte) (d token : string) (off len : Z)
    : ArtifactPushRequest :=
  let chunk := take (Z.to_nat len) (drop (Z.to_nat off) data) in
  {| pq_header := {| ch_deploy_id := d; ch_offset := off; ch_length := len;
                     ch_chunk_sha256 := sha256_hex chunk; ch_upload_token := token |};
     pq_chunk := chunk |}.

Definition slice_ok (data : list byte) (r : ByteRange) : Prop :=
  valid_range (zlen data) r ∧ range_length r <= max_chunk_size cfg.

Lemma slice_length (data : list byte) off len :
  0 <= off → 0 <= len → off + len <= zlen data →
  zlen (take (Z.to_nat len) (drop (Z.to_nat off) data)) = len.
Proof. intros. unfold zlen in *. rewrite length_take, length_drop. lia. Qed.

(** Writing a slice of [data] where it belongs makes the file agree on it. *)
Lemma write_slice_agrees (data content : list byte) off len (P : Z → Prop) :
  0 <= off → 0 < len → off + len <= zlen data → zlen content = zlen data →
  (∀ x : nat, P (Z.of_nat x) → content !! x = data !! x) →
  ∀ x : nat, P (Z.of_nat x) ∨ off <= Z.of_nat x < off + len →
    write_at content (Z.to_nat off) (take (Z.to_nat len) (drop (Z.to_nat off) data)) !! x
      = data !! x.
Proof.
  intros Ho Hl Hb Hz Hagree x Hx.
  assert (length (take (Z.to_nat len) (drop (Z.to_nat off) data)) = Z.to_nat len) as Hlen.
  { rewrite length_take, length_drop. unfold zlen in *. lia. }
  rewrite lookup_write_at by (rewrite Hlen; unfold zlen in *; lia). rewrite Hlen.
  case_decide as Hd.
  - rewrite lookup_take_lt by lia. rewrite lookup_drop. f_equal. lia.
  - apply Hagree. destruct Hx as [?|?]; [done|]. lia.
Qed.

(** The state after a write of a session's own file and the update of its progress. *)
Lemma uploading_put data d token manifest t0 n s st plan ino g ranges' now :
  uploading data d token manifest t0 n s → sessions st !! d = Some s →
  store_ok st → artifact_path cfg d ∉ plan →
  fs_paths (node_fs n) !! artifact_path cfg d = Some ino →
  wf_ranges (zlen data) ranges' → t0 <= now →
  (∃ content, fs_inodes (node_fs n) !! ino = Some content ∧ zlen (g content) = zlen data ∧
     ∀ x : nat, covers ranges' (Z.of_nat x) → g content !! x = data !! x) →
  uploading data d token manifest t0
    (node_with (put_session d (us_progress ranges' (us_committed s) 0
                  (us_commit_in_progress s) now s) st)
       (apply_cleanup_plan plan (fs_update ino g (node_fs n))) n)
    (us_progress ranges' (us_committed s) 0 (us_commit_in_progress s) now s).
Proof.
  intros [] Hs Hst Hplan Hino Hwf Hnow (content & Hct & Hz & Hagree).
  destruct u_flags0 as (Hc & Hin & Hcip). split; simpl; try done.
  - apply node_ok_with; [by eapply store_ok_put|..].
    + intros p i Hp. simpl. apply lookup_alter_is_Some. by eapply nk_dom.
    + intros p q i Hp Hq. by eapply (nk_inj _ u_node0).
  - apply lookup_insert_eq.
  - exists (g content). rewrite fs_read_cleanup by done. split_and!; [|done|done].
    unfold fs_read. simpl. rewrite Hino. simpl. by rewrite lookup_alter_eq, Hct.
Qed.

Lemma push_slice data d token manifest t0 n s r now :
  uploading data d token manifest t0 n s → in_window t0 now → slice_ok data r →
  0 < max_inflight_chunks cfg →
  ∃ n' s' ack,
    push cfg (slice_push data d token (offset r) (range_length r)) now n = (n', Ok ack) ∧
    uploading data d token manifest t0 n' s' ∧
    us_received_ranges s' = merge_range (us_received_ranges s) r ∧
    pa_received_ranges ack = us_received_ranges s' ∧ same_upload s s' ∧ others_kept d n n'.
Proof.
  intros Hup Hnow [Hr Hmax] Hinf. pose proof Hup as [].
  destruct Hr as (Ho & Hl & Hb), u_flags0 as (Hc & Hin & Hcip).
  destruct u_file0 as (content & Hread & Hz & Hagree).
  destruct (so_session _ (nk_store _ u_node0) _ _ u_live0) as (Hpath & Hid & Htext).
  set (q := slice_push data d token (offset r) (range_length r)).
  assert (push_checks cfg q = Ok (range_length r + offset r)) as Hchecks.
  { unfold push_checks, q, slice_push. simpl. rewrite slice_length by lia.
    rewrite Z.eqb_refl, bool_decide_true by done. rewrite (proj2 (Z.ltb_ge _ _)) by lia. simpl.
    unfold checked_add. by rewrite (proj2 (Z.leb_le _ _)) by lia. }
  unfold push. rewrite Hchecks. unfold push_begin.
  destruct (collect_session_cleanup_locked _ _ _ _ _) as [st plan] eqn:E.
  pose proof (cleaned_sub _ _ _ _ (collect_session_cleanup_spec _ _ _ _ _ _ _ E)) as Hsub.
  eapply cleanup_keeps in E as (Hs & Hst & Hplan); [|by apply u_node0|done|].
  2: { by eapply uploading_not_collectable. }
  change (ch_deploy_id (pq_header q)) with d. rewrite Hs.
  assert (push_admit cfg (pq_header q) (range_length r + offset r) s = Ok tt) as ->.
  { unfold push_admit, q, slice_push. simpl.
    rewrite bool_decide_true, Hcip, Hc, u_size0, Hin by done. simpl.
    rewrite (proj2 (Z.ltb_ge _ _)) by lia. simpl. by rewrite (proj2 (Z.leb_gt _ _)) by lia. }
  unfold write_chunk_to_file, fs_open. rewrite Hpath. unfold fs_read in Hread.
  destruct (fs_paths (node_fs n) !! artifact_path cfg d) as [ino|] eqn:Hino; [|done].
  simpl in Hread. unfold push_end. change (ch_deploy_id (pq_header q)) with d. simpl.
  rewrite lookup_insert_eq. simpl. rewrite Hin.
  unfold put_session; simpl. rewrite insert_insert_eq.
  set (ranges' := merge_range (us_received_ranges s)
         (range_from_start_end (offset r) (range_length r + offset r))).
  assert (ranges' = merge_range (us_received_ranges s) r) as Hranges.
  { unfold ranges', range_from_start_end, sat_sub. do 2 f_equal.
    destruct r; simpl in *. f_equal. lia. }
  set (s' := us_progress ranges' (us_committed s) 0 (us_commit_in_progress s) now s).
  eexists (node_with (put_session d s' st) (apply_cleanup_plan plan (fs_update ino _ _)) n),
    s', _.
  split; [reflexivity|]. split; [|split_and!; [exact Hranges|done|by split_and!|by apply others_kept_put]].
  destruct (merge_range_spec (zlen data) (us_received_ranges s) r) as [Hwf' Hcov'];
    [lia|by destruct u_ranges0|done|].
  eapply uploading_put; try done; [by rewrite Hranges|by destruct Hnow|].
  exists content. split_and!; [done| |].
  - unfold zlen in *. rewrite length_write_at; [done|].
    rewrite length_take, length_drop. lia.
  - intros x Hx. apply (write_slice_agrees _ _ _ _ (covers (us_received_ranges s))); try done.
    rewrite Hranges, Hcov' in Hx. unfold in_range in Hx. tauto.
Qed.

(** Pushes one after the other; [None] as soon as one is refused. *)
Fixpoint push_all (qs : list (ArtifactPushRequest * Z)) (n : Node) : option Node :=
  match qs with
  | [] => Some n
  | (q, now) :: rest =>
    match push cfg q now n with (n', Ok _) => push_all rest n' | (_, Err _) => None end
  end.

Lemma push_slices data d token manifest t0 : ∀ rs n s,
  uploading data d token manifest t0 n s → 0 < max_inflight_chunks cfg →
  Forall (λ rt, slice_ok data rt.1 ∧ in_window t0 rt.2) rs →
  ∃ n' s',
    push_all ((λ rt, (slice_push data d token (offset rt.1) (range_length rt.1), rt.2)) <$> rs)
      n = Some n' ∧
    uploading data d token manifest t0 n' s' ∧
    us_received_ranges s' = foldl merge_range (us_received_ranges s) rs.*1.
Proof.
  induction rs as [|[r now] rs IH]; intros n s Hup Hinf Hall; [by exists n, s|].
  inversion_clear Hall as [|?? [Hr Hnow] Hrs]. simpl in *.
  destruct (push_slice _ _ _ _ _ _ _ _ _ Hup Hnow Hr Hinf)
    as (n1 & s1 & ack & -> & Hup1 & E & _).
  destruct (IH n1 s1 Hup1 Hinf Hrs) as (n' & s' & ? & ? & ?).
  exists n', s'. by rewrite <-E.
Qed.

(** A key that names no session names none after a cleanup either. *)
Lemma existing_session_cleaned P st st' plan key :
  indexed st → cleaned P st st' plan → existing_session key st = None →
  existing_session key st' = None.
Proof.
  intros Hi Hcl He. unfold existing_session in *.
  destruct (idempotency st' !! key) as [d|] eqn:Hk; [|done]. simpl.
  destruct (sessions st' !! d) as [s|] eqn:Hs; [|done]. exfalso.
  destruct (cleaned_indexed _ _ _ _ Hcl Hi) as [I1 _].
  destruct (I1 _ _ Hk) as (s1 & Hs1 & <-). simplify_eq.
  eapply lookup_weaken in Hs; [|exact (cleaned_sub _ _ _ _ Hcl)].
  destruct Hi as [_ I2]. rewrite (I2 _ _ Hs) in He. simpl in He. by rewrite Hs in He.
Qed.

(** The candidate that [prepare] publishes when its key is new. *)
Lemma store_ok_publish st q du tu now now' :
  let c := us_touch now' (new_session cfg q now du tu) in
  store_ok st → existing_session (dp_idempotency_key q) st = None →
  sessions st !! uuid_to_string du = None →
  store_ok {| sessions := <[us_deploy_id c := c]> (sessions st);
              idempotency := <[us_idempotency_key c := us_deploy_id c]> (idempotency st) |}.
Proof.
  simpl. intros [[I1 I2] Hst] He Hn. split; [split|]; simpl.
  - intros k d [[<- <-]|[Hk Hd]]%lookup_insert_Some.
    + eexists. by rewrite lookup_insert_eq.
    + destruct (I1 k d Hd) as (s & Hs & <-). exists s.
      rewrite lookup_insert_ne; [done|]. intros <-. congruence.
  - intros d s [[<- <-]|[Hd Hs]]%lookup_insert_Some; [by rewrite lookup_insert_eq|].
    rewrite lookup_insert_ne; [by apply I2|]. intros E. unfold existing_session in He.
    pose proof (I2 _ _ Hs) as Hk. rewrite <-E in Hk. rewrite Hk in He. simpl in He.
    by rewrite Hs in He.
  - intros d s [[<- <-]|[Hd Hs]]%lookup_insert_Some; [|by apply Hst].
    split_and!; [done|done|by eexists].
Qed.

(** [prepare] of a new upload. *)
Lemma prepare_new data q now now' du tu n :
  node_ok n → prepare_checks cfg q = Ok tt →
  existing_session (dp_idempotency_key q) (node_store n) = None →
  sessions (node_store n) !! uuid_to_string du = None →
  fs_paths (node_fs n) !! artifact_path cfg (uuid_to_string du) = None →
  zlen data = dp_artifact_size q → 0 < zlen data <= u64_max →
  sha256_hex data = dp_artifact_digest q →
  ∃ n' s response,
    prepare cfg q now now' du tu n = (n', Ok response) ∧
    uploading data (uuid_to_string du) (uuid_to_string tu) (dp_manifest_digest q) now' n' s ∧
    us_received_ranges s = [] ∧ us_fingerprint s = fingerprint q ∧
    us_idempotency_key s = dp_idempotency_key q ∧
    dr_deploy_id response = uuid_to_string du ∧ dr_upload_token response = uuid_to_string tu ∧
    response = build_prepare_response s (upload_session_ttl_secs cfg) now' ∧
    others_kept (uuid_to_string du) n n'.
Proof.
  intros Hn Hq He Habs Hpath Hz Hb Hd. pose proof (nk_store _ Hn) as Hso.
  unfold prepare. rewrite Hq. unfold prepare_decide.
  destruct (collect_session_cleanup_locked _ _ _ _ (node_store n)) as [st plan] eqn:E1.
  apply collect_session_cleanup_spec in E1.
  pose proof (existing_session_cleaned _ _ _ _ _ (so_indexed _ Hso) E1 He) as He1. rewrite He1.
  pose proof (store_ok_cleaned _ _ _ _ E1 Hso) as Hso1.
  unfold prepare_publish.
  destruct (collect_session_cleanup_locked _ _ _ _ st) as [st2 plan2] eqn:E2.
  apply collect_session_cleanup_spec in E2.
  change (us_idempotency_key (new_session cfg q now du tu)) with (dp_idempotency_key q).
  pose proof (existing_session_cleaned _ _ _ _ _ (so_indexed _ Hso1) E2 He1) as He2.
  rewrite He2. pose proof (store_ok_cleaned _ _ _ _ E2 Hso1) as Hso2.
  assert (sessions st2 !! uuid_to_string du = None) as Habs2.
  { eapply lookup_weaken_None; [|exact (cleaned_sub _ _ _ _ E2)].
    by eapply lookup_weaken_None; [|exact (cleaned_sub _ _ _ _ E1)]. }
  assert (∀ p, p ∈ plan ++ plan2 → p ≠ artifact_path cfg (uuid_to_string du)) as Hplan.
  { pose proof (cleaned_trans _ _ _ _ _ _ (cleaned_weaken _ (λ _ _, True) _ _ _ ltac:(done) E1)
      (cleaned_weaken _ (λ _ _, True) _ _ _ ltac:(done) E2)) as Hcl.
    intros p Hp Ep. destruct (cleaned_plan _ _ _ _ Hcl p Hp) as (d' & s' & Hs' & _ & ->).
    destruct (so_session _ Hso _ _ Hs') as (Hp' & _ & Ht'). rewrite Hp' in Ep.
    apply artifact_path_inj in Ep; [|done|by eexists]. congruence. }
  eexists _, (us_touch now' (new_session cfg q now du tu)), _. split; [reflexivity|].
  split; [|split_and!; try done; apply others_kept_put; etrans; [apply E2|apply E1]].
  unfold create_preallocated_file, fs_create. simpl. rewrite Hpath.
  pose proof (fresh_inode_None (node_fs n)) as Hfr. set (i0 := fresh_inode (node_fs n)) in *.
  assert (Hold : ∀ p i, fs_paths (node_fs n) !! p = Some i → i ≠ i0).
  { intros p i Hp ->. destruct (nk_dom _ Hn _ _ Hp). congruence. }
  unfold fs_update. simpl. rewrite alter_insert_eq. split; simpl; try done.
  - apply node_ok_with; [by apply store_ok_publish| |]; simpl.
    + intros p i [[_ <-]|[_ Hp]]%lookup_insert_Some; [by rewrite lookup_insert_eq|].
      rewrite lookup_insert_ne; [by eapply nk_dom|]. intros <-. by eapply Hold.
    + intros p p' i [[<- <-]|[? Hp]]%lookup_insert_Some [[<- Hi]|[? Hp']]%lookup_insert_Some;
        simplify_eq; try done; [..|by eapply (nk_inj _ Hn)]; by exfalso; eapply Hold.
  - apply lookup_insert_eq.
  - split; constructor.
  - exists (set_len [] (Z.to_nat (dp_artifact_size q))).
    rewrite fs_read_cleanup by (intros Hin; by apply (Hplan _ Hin)). split_and!.
    + unfold fs_read. simpl. rewrite lookup_insert_eq. simpl. by rewrite lookup_insert_eq.
    + unfold zlen. rewrite length_set_len. unfold zlen in *. lia.
    + intros x Hx. by apply covers_nil in Hx.
Qed.

Lemma complete_content data ranges (content : list byte) :
  wf_ranges (zlen data) ranges → 0 < zlen data → is_complete ranges (zlen data) = true →
  zlen content = zlen data →
  (∀ x : nat, covers ranges (Z.of_nat x) → content !! x = data !! x) → content = data.
Proof.
  intros Hwf Hpos Hcomp Hz Hagree. rewrite is_complete_spec in Hcomp by done.
  apply list_eq. intros x. destruct (decide (Z.of_nat x < zlen data)) as [Hx|Hx].
  - apply Hagree, Hcomp. lia.
  - by rewrite (lookup_ge_None_2 content), (lookup_ge_None_2 data) by (unfold zlen in *; lia).
Qed.

(** What a successful commit leaves behind. *)
Record commit_result (data : list byte) (d : string) (now : Z) (n : Node) (s : UploadSession)
    (n' : Node) (s' : UploadSession) : Prop := {
  cm_node : node_ok n';
  cm_live : sessions (node_store n') !! d = Some s';
  cm_committed : us_committed s' = true;
  cm_file : fs_read (artifact_path cfg d) (node_fs n') = Some data;
  cm_same : same_upload s s';
  cm_ranges : us_received_ranges s' = us_received_ranges s;
  cm_idle : us_inflight_writes s' = us_inflight_writes s ∧ us_commit_in_progress s' = false;
  cm_updated : us_updated_at_epoch_secs s' = now;
  cm_others : others_kept d n n';
}.

Lemma commit_session data d n s q now :
  node_ok n → sessions (node_store n) !! d = Some s → commit_admit q s = Ok tt →
  (∀ st plan, collect_session_cleanup_locked cfg (node_pinned n) now None (node_store n)
     = (st, plan) → sessions st !! d = Some s) →
  cq_deploy_id q = d → us_artifact_digest s = sha256_hex data →
  fs_read (artifact_path cfg d) (node_fs n) = Some data →
  ∃ n' s',
    commit cfg q now n =
      (n', Ok {| cr_artifact_id := sha256_hex data; cr_verified := true |}) ∧
    commit_result data d now n s n' s'.
Proof.
  intros Hn Hlive Hadmit Hkept Hqd Hdigest Hread.
  destruct (so_session _ (nk_store _ Hn) _ _ Hlive) as (Hpath & Hid & Htext).
  unfold commit, commit_begin.
  destruct (collect_session_cleanup_locked _ _ _ _ (node_store n)) as [st plan] eqn:E1.
  pose proof (cleaned_sub _ _ _ _ (collect_session_cleanup_spec _ _ _ _ _ _ _ E1)) as Hsub1.
  pose proof (Hkept _ _ eq_refl) as Hs.
  eapply cleanup_kept in E1 as (Hst & Hplan); [|by apply Hn|done|done].
  rewrite Hqd, Hs, Hadmit. unfold digest_file. rewrite Hpath, Hread. unfold commit_end.
  rewrite Hqd. simpl. rewrite lookup_insert_eq. rewrite decide_True by done. simpl.
  unfold put_session; simpl. rewrite insert_insert_eq. rewrite Hid.
  match goal with |- context [<[d := ?x]> (sessions st)] => set (s' := x) end.
  change {| sessions := <[d := s']> (sessions st); idempotency := idempotency st |}
    with (put_session d s' st).
  assert (store_ok (put_session d s' st)) as Hst' by by eapply store_ok_put.
  destruct (collect_session_cleanup_locked _ _ _ _ (put_session d s' st)) as [st2 plan2] eqn:E2.
  pose proof (cleaned_sub _ _ _ _ (collect_session_cleanup_spec _ _ _ _ _ _ _ E2)) as Hsub2.
  eapply cleanup_keeps in E2 as (Hs2 & Hst2 & Hplan2); [|done|apply lookup_insert_eq|].
  2: { intros (_ & _ & Hprot). apply Hprot; [done|]. unfold protected_set.
       destruct Htext as [u ->]. rewrite bool_decide_false by apply uuid_to_string_nonempty.
       set_solver. }
  eexists _, s'. rewrite Hdigest. split; [reflexivity|]. split; try done.
  - apply node_ok_with; [done|apply Hn|apply Hn].
  - simpl. rewrite fs_read_cleanup; [done|]. by apply not_elem_of_app.
  - unfold others_kept. simpl. etrans; [by apply delete_mono|]. by apply others_kept_put.
Qed.

Lemma commit_complete data d token manifest t0 n s q now :
  uploading data d token manifest t0 n s → in_window t0 now →
  is_complete (us_received_ranges s) (zlen data) = true →
  cq_deploy_id q = d → cq_artifact_digest q = sha256_hex data →
  cq_artifact_size q = zlen data → cq_manifest_digest q = manifest →
  ∃ n' s',
    commit cfg q now n =
      (n', Ok {| cr_artifact_id := sha256_hex data; cr_verified := true |}) ∧
    commit_result data d now n s n' s'.
Proof.
  intros Hup Hnow Hcomp Hqd Hqg Hqs Hqm. pose proof Hup as [].
  destruct u_flags0 as (Hc & Hin & Hcip). destruct u_file0 as (content & Hread & Hz & Hagree).
  assert (content = data) as -> by (eapply complete_content; eauto; lia).
  eapply commit_session; try done.
  - unfold commit_admit. rewrite Hqg, u_digest0, Hqs, u_size0, Hqm, u_manifest0, Hcip, Hin.
    by rewrite Hcomp, Z.eqb_refl, !bool_decide_true.
  - intros st plan E. eapply cleanup_keeps in E as (Hs & _); [done|by apply u_node0|done|].
    by eapply uploading_not_collectable.
Qed.

Lemma lookup_committed n d s now content :
  node_ok n → sessions (node_store n) !! d = Some s → us_committed s = true →
  fs_read (artifact_path cfg d) (node_fs n) = Some content →
  ∃ n' ca, committed_artifact cfg d now n = (n', Ok ca) ∧
    fs_read (ca_path ca) (node_fs n') = Some content.
Proof.
  intros Hn Hs Hc Hr. unfold committed_artifact, committed_artifact_locked, with_committed_session.
  destruct (so_session _ (nk_store _ Hn) _ _ Hs) as (Hpath & Hid & Htext).
  destruct (collect_session_cleanup_locked _ _ _ _ (node_store n)) as [st plan] eqn:E.
  eapply cleanup_keeps in E as (Hs' & Hst & Hplan); [|by apply Hn|done|].
  2: { intros (_ & _ & Hprot). apply Hprot; [done|]. unfold protected_set.
       destruct Htext as [u ->]. rewrite bool_decide_false by apply uuid_to_string_nonempty.
       set_solver. }
  rewrite Hs', Hc. do 2 eexists. split; [reflexivity|]. simpl. rewrite Hpath.
  by rewrite fs_read_cleanup.
Qed.

(** C23 (roundtrip).  Preparing an upload, pushing slices of the artifact that cover it
    (in any order, of any size the configuration allows, overlapping or not) and
    committing succeeds, and the orchestrator then finds exactly the artifact's bytes;
    other sessions may be in the store. *)
Theorem upload_roundtrip data q now now' du tu rs tc tl n :
  node_ok n → 0 < max_inflight_chunks cfg → prepare_checks cfg q = Ok tt →
  existing_session (dp_idempotency_key q) (node_store n) = None →
  sessions (node_store n) !! uuid_to_string du = None →
  fs_paths (node_fs n) !! artifact_path cfg (uuid_to_string du) = None →
  zlen data = dp_artifact_size q → 0 < zlen data <= u64_max →
  sha256_hex data = dp_artifact_digest q →
  Forall (λ rt, slice_ok data rt.1 ∧ in_window now' rt.2) rs →
  (∀ x, 0 <= x < zlen data → covers rs.*1 x) → in_window now' tc →
  ∃ n1 n2 n3 n4 response ca,
    let d := dr_deploy_id response in
    prepare cfg q now now' du tu n = (n1, Ok response) ∧
    push_all ((λ rt, (slice_push data d (dr_upload_token response)
                        (offset rt.1) (range_length rt.1), rt.2)) <$> rs) n1 = Some n2 ∧
    commit cfg {| cq_deploy_id := d; cq_artifact_digest := dp_artifact_digest q;
                  cq_artifact_size := dp_artifact_size q;
                  cq_manifest_digest := dp_manifest_digest q |} tc n2
      = (n3, Ok {| cr_artifact_id := dp_artifact_digest q; cr_verified := true |}) ∧
    committed_artifact cfg d tl n3 = (n4, Ok ca) ∧
    fs_read (ca_path ca) (node_fs n4) = Some data.
Proof.
  intros Hn Hinf Hq He Habs Hpath Hz Hb Hd Hrs Hcov Htc.
  destruct (prepare_new data q now now' du tu n)
    as (n1 & s1 & resp & Hprep & Hup & Hr0 & _ & _ & Hid & Htok & _); try done.
  destruct (push_slices _ _ _ _ _ rs n1 s1 Hup Hinf Hrs) as (n2 & s2 & Hpush & Hup2 & Hr2).
  assert (is_complete (us_received_ranges s2) (zlen data) = true) as Hcomp.
  { assert (wf_ranges (zlen data) (us_received_ranges s2)) by apply Hup2.
    apply is_complete_spec; [lia|done|]. intros x Hx. rewrite Hr2, Hr0.
    apply (merge_ranges_spec (zlen data)); [lia|split; constructor| |right; by apply Hcov].
    apply Forall_fmap. eapply Forall_impl; [exact Hrs|]. intros r [[? _] _]. done. }
  set (cq := {| cq_deploy_id := dr_deploy_id resp; cq_artifact_digest := dp_artifact_digest q;
                cq_artifact_size := dp_artifact_size q;
                cq_manifest_digest := dp_manifest_digest q |}).
  destruct (commit_complete _ _ _ _ _ _ _ cq tc Hup2 Htc Hcomp)
    as (n3 & s3 & Hcommit & [Hn3 Hs3 Hc3 Hf3 _ _ _ _ _]); try done.
  destruct (lookup_committed n3 _ s3 tl data Hn3 Hs3 Hc3 Hf3) as (n4 & ca & Hlk & Hf4).
  exists n1, n2, n3, n4, resp, ca. simpl. rewrite Hid, Htok.
  split_and!; [done|done| |done|done]. unfold cq in Hcommit. by rewrite Hid, Hd in Hcommit.
Qed.

(** Preparing is idempotent: the same request again resumes the same
    session with the same token, whatever UUIDs would have been drawn, and a request
    that reuses the key with another payload is refused and changes no session. *)
Theorem prepare_idempotent data q now now' du tu n q2 t2 t2' du2 tu2 :
  node_ok n → prepare_checks cfg q = Ok tt →
  existing_session (dp_idempotency_key q) (node_store n) = None →
  sessions (node_store n) !! uuid_to_string du = None →
  fs_paths (node_fs n) !! artifact_path cfg (uuid_to_string du) = None →
  zlen data = dp_artifact_size q → 0 < zlen data <= u64_max →
  sha256_hex data = dp_artifact_digest q →
  dp_idempotency_key q2 = dp_idempotency_key q → prepare_checks cfg q2 = Ok tt →
  in_window now' t2 →
  ∃ n1 n2 response r2,
    prepare cfg q now now' du tu n = (n1, Ok response) ∧
    prepare cfg q2 t2 t2' du2 tu2 n1 = (n2, r2) ∧
    (∃ s2, sessions (node_store n2) !! dr_deploy_id response = Some s2) ∧
    (fingerprint q2 = fingerprint q → ∃ response2, r2 = Ok response2 ∧
       dr_deploy_id response2 = dr_deploy_id response ∧
       dr_upload_token response2 = dr_upload_token response) ∧
    (fingerprint q2 ≠ fingerprint q → r2 = Err idempotency_conflict ∧
       sessions (node_store n2) ⊆ sessions (node_store n1)).
Proof.
  intros Hn Hq He Habs Hpath Hz Hb Hd Hkey Hq2 Ht2.
  destruct (prepare_new data q now now' du tu n)
    as (n1 & s1 & resp & Hprep & Hup & _ & Hfp & Hk & Hid & Htok & _); try done.
  pose proof Hup as []. destruct (prepare cfg q2 t2 t2' du2 tu2 n1) as [n2 r2] eqn:Hp2.
  exists n1, n2, resp, r2. rewrite Hid, Htok. split; [done|]. split; [done|].
  unfold prepare in Hp2. rewrite Hq2 in Hp2. unfold prepare_decide in Hp2.
  destruct (collect_session_cleanup_locked _ _ _ _ (node_store n1)) as [st plan] eqn:E.
  pose proof (collect_session_cleanup_spec _ _ _ _ _ _ _ E) as Hcl.
  eapply cleanup_keeps in E as (Hs & Hst & _); [|by apply u_node0|done|].
  2: { by eapply uploading_not_collectable. }
  assert (existing_session (dp_idempotency_key q2) st = Some (uuid_to_string du, s1)) as Hex.
  { unfold existing_session. rewrite Hkey, <-Hk. destruct Hst as [[_ I2] _].
    rewrite (I2 _ _ Hs). simpl. by rewrite Hs. }
  rewrite Hex, Hfp in Hp2. case_decide as Hf; simplify_eq/=; split_and!.
  - rewrite lookup_insert_eq. eauto.
  - intros _. eexists. split; [done|]. simpl. split; [|done].
    by destruct (so_session _ (nk_store _ u_node0) _ _ u_live0) as (_ & ? & _).
  - intros Hne. by destruct Hne.
  - eauto.
  - intros E. by destruct Hf.
  - intros _. split; [done|]. apply Hcl.
Qed.
End upload.

(** ** Witnesses *)

Definition demo_node : Node :=
  {| node_store := empty_store; node_pinned := ∅; node_fs := empty_fs |}.

Lemma demo_node_ok : node_ok (H := demo_crates) demo_cfg demo_node.
Proof. split; [split; [by split|done]|done|done]. Qed.

Definition demo_slices : list (ByteRange * Z) :=
  [({| offset := 3; range_length := 2 |}, 20); ({| offset := 0; range_length := 4 |}, 30)].

Lemma demo_slices_ok :
  Forall (λ rt, slice_ok demo_cfg (bytes_of "abcde") rt.1 ∧ in_window demo_cfg 11 rt.2)
    demo_slices.
Proof.
  unfold demo_slices, slice_ok, in_window, valid_range, zlen.
  repeat constructor; vm_compute; congruence.
Qed.

Lemma demo_slices_cover x : 0 <= x < zlen (bytes_of "abcde") → covers demo_slices.*1 x.
Proof.
  change (zlen (bytes_of "abcde")) with 5. intros Hx. unfold demo_slices. simpl.
  rewrite !covers_cons. unfold in_range. simpl. lia.
Qed.

Lemma upload_roundtrip_witness :
  ∃ n3 n4 ca, committed_artifact demo_cfg "7" 500 n3 = (n4, Ok ca) ∧
    fs_read (ca_path ca) (node_fs n4) = Some (bytes_of "abcde").
Proof.
  destruct (upload_roundtrip (H := demo_crates) demo_cfg (bytes_of "abcde") demo_prepare 10 11
    7%N 8%N demo_slices 40 500 demo_node) as (n1 & n2 & n3 & n4 & resp & ca & Hall);
    first [exact demo_node_ok|reflexivity|exact demo_slices_ok|exact demo_slices_cover
          |split; vm_compute; congruence|idtac].
  destruct Hall as (Hp & _ & _ & Hl & Hr). exists n3, n4, ca. split; [|exact Hr].
  vm_compute in Hp. injection Hp as _ <-. exact Hl.
Defined.

Lemma prepare_idempotent_witness :
  ∃ n1 n2 r1 r2, prepare (H := demo_crates) demo_cfg demo_prepare 10 11 7%N 8%N demo_node
      = (n1, Ok r1) ∧
    prepare (H := demo_crates) demo_cfg demo_prepare 12 13 9%N 9%N n1 = (n2, Ok r2) ∧
    dr_deploy_id r2 = dr_deploy_id r1.
Proof.
  destruct (prepare_idempotent (H := demo_crates) demo_cfg (bytes_of "abcde") demo_prepare 10 11
    7%N 8%N demo_node demo_prepare 12 13 9%N 9%N) as (n1 & n2 & r1 & r2 & Hall);
    first [exact demo_node_ok|reflexivity|split; vm_compute; congruence|idtac].
  destruct Hall as (H1 & H2 & _ & Hsame & _).
  destruct (Hsame eq_refl) as (r2' & -> & Hid & _). exists n1, n2, r1, r2'. auto.
Defined.
