(* ===== verification/ArtifactResume.v ===== *)
(** * Resuming uploads

    The handlers of [ArtifactStore] as a client that repeats its requests meets them: an
    upload that was started, or even committed, is found again under its idempotency key, and
    repeating a chunk or the commit succeeds.  [Client] is proved against [resumable]. *)

From S2P Require Import Prelude Protocol ByteRanges Files ArtifactStore ArtifactLts ArtifactTheorems ArtifactUpload.

Open Scope Z_scope.

(** ** Committed sessions within the limit *)

(** The committed sessions other than [d]. *)
Definition other_committed (d : string) (st : StoreState) : gmap string UploadSession :=
  filter (λ '(d', s), us_committed s = true ∧ d' ≠ d) (sessions st).

Lemma other_committed_mono d st st' :
  sessions st ⊆ sessions st' → (size (other_committed d st) <= size (other_committed d st'))%nat.
Proof. intros. by apply map_subseteq_size, map_filter_subseteq_mono. Qed.

Lemma other_committed_put d s st : other_committed d (put_session d s st) = other_committed d st.
Proof.
  unfold other_committed. simpl.
  apply map_filter_insert_not. intros ? [_ ?]. done.
Qed.

Lemma committed_length (l : list (string * UploadSession)) (protected removed : gset string) :
  (length (omap (λ '(d, s),
          if negb (us_committed s) || session_busy s then None
          else if bool_decide (d ∈ protected) then None
          else if bool_decide (d ∈ removed) then None
          else Some (d, us_updated_at_epoch_secs s)) l) +
   length (filter (λ '(d, s), us_committed s = true ∧ d ∈ protected) l) <=
   length (filter (λ '(d, s), us_committed s = true) l))%nat.
Proof.
  induction l as [|[d s] l IH]; [done|]. csimpl. rewrite !filter_cons.
  repeat case_decide; csimpl; destruct (us_committed s) eqn:?, (session_busy s); csimpl;
    repeat case_bool_decide; csimpl; first [lia|naive_solver].
Qed.

(** The survivors and the protected sessions are committed sessions. *)
Lemma survivors_bound d st protected removed :
  zlen (orphan_survivors st protected removed) + protected_committed_count st protected <=
  Z.of_nat (size (other_committed d st)) + 1.
Proof.
  set (comm := filter (λ '(_, s), us_committed s = true) (sessions st)).
  assert (length (filter (λ '(d, s), us_committed s = true) (btree_iter (sessions st)))
    <= size comm)%nat as Hl.
  { rewrite <-length_map_to_list, <-(length_fmap fst), <-(length_fmap fst (map_to_list comm)).
    apply submseteq_length, NoDup_submseteq.
    - eapply sublist_NoDup; [|apply fmap_sublist, sublist_filter].
      apply NoDup_btree_keys.
    - intros k ([k' s] & -> & [Hc Hin%elem_of_btree_iter]%list_elem_of_filter)%list_elem_of_fmap.
      apply list_elem_of_fmap. exists (k', s). split; [done|].
      by apply elem_of_map_to_list, map_lookup_filter_Some. }
  assert (size comm <= size (other_committed d st) + 1)%nat as Hs.
  { transitivity (size (delete d comm) + 1)%nat.
    - rewrite map_size_delete. destruct (comm !! d) eqn:E; simpl; lia.
    - apply Nat.add_le_mono_r, map_subseteq_size, map_subseteq_spec. intros k s.
      rewrite lookup_delete_Some. unfold comm, other_committed.
      rewrite !map_lookup_filter_Some. naive_solver. }
  pose proof (committed_length (btree_iter (sessions st)) protected removed) as Hc.
  unfold orphan_survivors, protected_committed_count, zlen. lia.
Qed.

Section resume.
Context `{Crates, !CratesLaws} (cfg : StoreConfig).

Definition room (d : string) (st : StoreState) : Prop :=
  Z.of_nat (size (other_committed d st)) < max_committed_sessions cfg.

(** A cleanup keeps a young committed session while the limit is not exceeded. *)
Lemma cleanup_keeps_committed st pinned now keep d s st' plan :
  sessions st !! d = Some s → us_committed s = true → room d st →
  now -ˢ us_updated_at_epoch_secs s < committed_session_ttl_secs cfg →
  collect_session_cleanup_locked cfg pinned now keep st = (st', plan) →
  sessions st' !! d = Some s.
Proof.
  intros Hs Hc Hroom Hage. unfold collect_session_cleanup_locked.
  destruct (collect_expired_sessions _ _ _) as [st1 plan1] eqn:E1.
  match goal with |- context [collect_orphan_committed_sessions _ _ _ ?p _] => set (protected := p) end.
  destruct (collect_orphan_committed_sessions _ _ _ _ _) as [st2 plan2] eqn:E2. intros [= <- <-].
  apply collect_removal_spec in E1, E2.
  assert (sessions st1 !! d = Some s) as Hs1.
  { destruct (sessions st1 !! d) as [s1|] eqn:E.
    - eapply lookup_weaken in E; [|exact (cleaned_sub _ _ _ _ E1)]. congruence.
    - destruct (cleaned_gone _ _ _ _ E1 d s Hs E) as [(s2 & ? & ? & _)%elem_of_expired_ids _].
      congruence. }
  simpl. destruct (sessions st2 !! d) as [s2|] eqn:E.
  { eapply lookup_weaken in E; [|exact (cleaned_sub _ _ _ _ E2)]. congruence. }
  exfalso. destruct (cleaned_gone _ _ _ _ E2 d s Hs1 E) as [Hin _]. unfold orphan_ids in Hin.
  assert (d ∉ orphan_expired_ids st1 now (committed_session_ttl_secs cfg) protected) as Hne.
  { intros (s2 & ? & _ & _ & _ & ?)%elem_of_orphan_expired. simplify_eq. lia. }
  destruct (_ <? _) eqn:Hov; [|done]. apply Z.ltb_lt in Hov.
  pose proof (survivors_bound d st1 protected (list_to_set (orphan_expired_ids st1 now
    (committed_session_ttl_secs cfg) protected))) as Hb.
  pose proof (other_committed_mono d _ _ (cleaned_sub _ _ _ _ E1)) as Hm.
  unfold room in Hroom. unfold sat_sub in Hov. lia.
Qed.

(** ** Sessions of one upload *)

Context (data : list byte) (q : DeployPrepareRequest) (t0 : Z).

(** The session of deploy [d] is committed: its file is the artifact. *)
Record stored (d token : string) (n : Node) (s : UploadSession) : Prop := {
  sd_node : node_ok cfg n;
  sd_live : sessions (node_store n) !! d = Some s;
  sd_token : us_upload_token s = token;
  sd_manifest : us_manifest_digest s = dp_manifest_digest q;
  sd_size : us_artifact_size s = zlen data;
  sd_digest : us_artifact_digest s = sha256_hex data;
  sd_committed : us_committed s = true;
  sd_idle : us_inflight_writes s = 0 ∧ us_commit_in_progress s = false;
  sd_complete : is_complete (us_received_ranges s) (zlen data) = true;
  sd_updated : t0 <= us_updated_at_epoch_secs s;
  sd_file : fs_read (artifact_path cfg d) (node_fs n) = Some data;
}.

Record for_request (d : string) (n : Node) (s : UploadSession) : Prop := {
  fr_key : us_idempotency_key s = dp_idempotency_key q;
  fr_fingerprint : us_fingerprint s = fingerprint q;
  fr_token : uuid_text (us_upload_token s);
  fr_room : room d (node_store n);
}.

Definition in_progress (d token : string) (n : Node) (s : UploadSession) : Prop :=
  for_request d n s ∧ uploading cfg data d token (dp_manifest_digest q) t0 n s.
Definition finished (d token : string) (n : Node) (s : UploadSession) : Prop :=
  for_request d n s ∧ stored d token n s.
Definition resumable (d token : string) (n : Node) (s : UploadSession) : Prop :=
  in_progress d token n s ∨ finished d token n s.

(** The times at which the node serves the client. *)
Definition in_time (now : Z) : Prop :=
  in_window cfg t0 now ∧ now < t0 + committed_session_ttl_secs cfg.

Lemma resumable_live d token n s :
  resumable d token n s →
  node_ok cfg n ∧ sessions (node_store n) !! d = Some s ∧ for_request d n s ∧
  us_upload_token s = token.
Proof. by intros [[? []]|[? []]]. Qed.

Lemma resumable_kept d token n s pinned now keep st plan :
  resumable d token n s → in_time now →
  collect_session_cleanup_locked cfg pinned now keep (node_store n) = (st, plan) →
  sessions st !! d = Some s ∧ store_ok cfg st ∧ artifact_path cfg d ∉ plan ∧ room d st.
Proof.
  intros Hr [Hw Hc] E. destruct (resumable_live _ _ _ _ Hr) as (Hn & Hs & Hf & _).
  assert (sessions st !! d = Some s) as Hs'.
  { destruct Hr as [[_ Hu]|[_ Hu]].
    - eapply (cleanup_keeps cfg); [apply Hn|exact Hs| |exact E].
      by eapply uploading_not_collectable.
    - eapply cleanup_keeps_committed; [exact Hs|apply Hu|apply Hf| |exact E].
      pose proof (sd_updated _ _ _ _ Hu). destruct Hw. unfold sat_sub. lia. }
  destruct (cleanup_kept cfg _ _ _ _ _ _ _ _ (nk_store _ _ Hn) Hs Hs' E) as [? ?].
  split_and!; [done..|]. pose proof (fr_room _ _ _ Hf) as Hroom. unfold room in *.
  pose proof (other_committed_mono d _ _
    (cleaned_sub _ _ _ _ (collect_session_cleanup_spec _ _ _ _ _ _ _ E))). lia.
Qed.

(** ** The requests of the client *)

(** The session after a request: only its progress and its time changed. *)
Lemma for_request_put d n s s' st f :
  for_request d n s → same_upload s s' → room d st →
  for_request d (node_with (put_session d s' st) f n) s'.
Proof.
  intros [Hk Hf Ht _] (_ & Ek & Ef & _ & _ & _ & Et) Hr.
  split; [by rewrite Ek|by rewrite Ef|by rewrite Et|].
  unfold room in *. simpl. by rewrite other_committed_put.
Qed.

Lemma node_ok_put d n s s' st plan :
  node_ok cfg n → sessions st !! d = Some s → store_ok cfg st → same_upload s s' →
  us_file_path s' = us_file_path s →
  node_ok cfg (node_with (put_session d s' st) (apply_cleanup_plan plan (node_fs n)) n).
Proof.
  intros Hn Hs Hst (Hd & Hk & _) Hp.
  apply node_ok_with; [by eapply store_ok_put|apply Hn|apply Hn].
Qed.

(** Touching the session keeps it resumable. *)
Lemma resumable_touch d token n s st plan now :
  resumable d token n s → in_time now → sessions st !! d = Some s → store_ok cfg st →
  artifact_path cfg d ∉ plan → room d st →
  resumable d token
    (node_with (put_session d (us_touch now s) st) (apply_cleanup_plan plan (node_fs n)) n)
    (us_touch now s).
Proof.
  intros Hr [[Hw _] _] Hs Hst Hplan Hroom.
  destruct (resumable_live _ _ _ _ Hr) as (Hn & _ & Hf & _).
  assert (same_upload s (us_touch now s)) as Hsame by by split_and!.
  pose proof (node_ok_put d n s _ st plan Hn Hs Hst Hsame eq_refl) as Hn'.
  pose proof (λ f, for_request_put d n s _ st f Hf Hsame Hroom) as Hf'.
  destruct Hr as [[_ []]|[_ []]]; [left|right]; (split; [apply Hf'|]).
  - split; simpl; try done; [apply lookup_insert_eq|]. by rewrite fs_read_cleanup.
  - split; simpl; try done; [apply lookup_insert_eq|]. by rewrite fs_read_cleanup.
Qed.

(** [deploy.prepare] finds the session again. *)
Lemma prepare_again d token n s now now' du tu :
  prepare_checks cfg q = Ok tt → resumable d token n s → in_time now →
  ∃ n' s',
    prepare cfg q now now' du tu n =
      (n', Ok (build_prepare_response s' (upload_session_ttl_secs cfg) now)) ∧
    resumable d token n' s'.
Proof.
  intros Hq Hr Ht. destruct (resumable_live _ _ _ _ Hr) as (Hn & Hs & Hf & _).
  unfold prepare. rewrite Hq. unfold prepare_decide.
  destruct (collect_session_cleanup_locked _ _ _ _ _) as [st plan] eqn:E.
  destruct (resumable_kept _ _ _ _ _ _ _ _ _ Hr Ht E) as (Hs' & Hst & Hplan & Hroom).
  assert (existing_session (dp_idempotency_key q) st = Some (d, s)) as ->.
  { unfold existing_session. rewrite <-(fr_key _ _ _ Hf), (proj2 (so_indexed _ _ Hst) _ _ Hs').
    simpl. by rewrite Hs'. }
  rewrite decide_True by apply Hf. do 2 eexists. split; [reflexivity|].
  by apply resumable_touch.
Qed.

(** What [prepare] finds when the key is new and the UUID it draws is fresh. *)
Record fresh_for (du : Uuid) (n : Node) : Prop := {
  ff_key : existing_session (dp_idempotency_key q) (node_store n) = None;
  ff_id : sessions (node_store n) !! uuid_to_string du = None;
  ff_path : fs_paths (node_fs n) !! artifact_path cfg (uuid_to_string du) = None;
}.

Lemma room_others d n n' : room d (node_store n) → others_kept d n n' → room d (node_store n').
Proof.
  unfold room. intros Hr Ho.
  assert (size (other_committed d (node_store n')) <= size (other_committed d (node_store n)))%nat;
    [|lia].
  apply map_subseteq_size, map_subseteq_spec. intros k s. unfold other_committed.
  rewrite !map_lookup_filter_Some. intros [Hk [Hc Hne]]. split; [|done].
  eapply lookup_weaken; [|exact Ho]. by rewrite lookup_delete_ne.
Qed.

Lemma for_request_others d n n' s s' :
  for_request d n s → same_upload s s' → others_kept d n n' → for_request d n' s'.
Proof.
  intros [Hk Hf Ht Hr] (_ & Ek & Ef & _ & _ & _ & Et) Ho.
  split; [congruence..|by rewrite Et|]. by eapply room_others.
Qed.

Context (Hsize : zlen data = dp_artifact_size q) (Hbound : 0 < zlen data <= u64_max).
Context (Hdigest : sha256_hex data = dp_artifact_digest q).
Context (Hchecks : prepare_checks cfg q = Ok tt).

Lemma prepare_first n now now' du tu :
  node_ok cfg n → fresh_for du n → room (uuid_to_string du) (node_store n) → t0 <= now' →
  ∃ n' s',
    prepare cfg q now now' du tu n =
      (n', Ok (build_prepare_response s' (upload_session_ttl_secs cfg) now')) ∧
    resumable (uuid_to_string du) (uuid_to_string tu) n' s'.
Proof using All.
  intros Hn [Hk Hi Hp] Hroom Ht.
  destruct (prepare_new cfg data q now now' du tu n)
    as (n' & s' & resp & Hprep & Hup & _ & Hf & Hkey & _ & _ & -> & Ho); try done.
  exists n', s'. split; [done|]. left. split.
  - split; [done..| |by eapply room_others]. eexists. apply Hup.
  - destruct Hup. split; try done. lia.
Qed.

(** [artifact.push] of a slice, once or again. *)
Lemma push_again d token n s r now :
  in_progress d token n s → in_time now → slice_ok cfg data r → 0 < max_inflight_chunks cfg →
  ∃ n' s' ack,
    push cfg (slice_push data d token (offset r) (range_length r)) now n = (n', Ok ack) ∧
    in_progress d token n' s' ∧
    us_received_ranges s' = merge_range (us_received_ranges s) r.
Proof.
  intros [Hf Hup] [Hw _] Hr Hi.
  destruct (push_slice cfg _ _ _ _ _ _ _ _ _ Hup Hw Hr Hi)
    as (n' & s' & ack & Hpush & Hup' & Hranges & _ & Hsame & Ho).
  exists n', s', ack. split_and!; [done| |done]. split; [by eapply for_request_others|done].
Qed.

Definition commit_request (d : string) : ArtifactCommitRequest :=
  {| cq_deploy_id := d; cq_artifact_digest := dp_artifact_digest q;
     cq_artifact_size := dp_artifact_size q; cq_manifest_digest := dp_manifest_digest q |}.

(** [artifact.commit] of a complete upload, once or again. *)
Lemma commit_again d token n s now :
  resumable d token n s → is_complete (us_received_ranges s) (zlen data) = true → in_time now →
  ∃ n' s',
    commit cfg (commit_request d) now n =
      (n', Ok {| cr_artifact_id := sha256_hex data; cr_verified := true |}) ∧
    finished d token n' s'.
Proof using All.
  intros Hr Hcomp Ht. destruct (resumable_live _ _ _ _ Hr) as (Hn & Hs & Hf & Htok).
  assert (us_manifest_digest s = dp_manifest_digest q ∧ us_artifact_size s = zlen data ∧
    us_artifact_digest s = sha256_hex data ∧ us_inflight_writes s = 0) as (Hm & Hz & Hg & Hin).
  { by destruct Hr as [[_ [????? ?? (_ & ? & _)]]|[_ [??????? (? & _)]]]. }
  assert (∃ n' s', commit cfg (commit_request d) now n =
      (n', Ok {| cr_artifact_id := sha256_hex data; cr_verified := true |}) ∧
    commit_result cfg data d now n s n' s') as (n' & s' & Hc & Hres).
  { destruct Hr as [[_ Hup]|[Hfr [????? ?? [? Hcip]]]].
    - by eapply commit_complete; [exact Hup|apply Ht|..].
    - eapply commit_session; try done.
      + unfold commit_admit. simpl. rewrite <-Hdigest, Hg, Hz, Hsize, Hm, Hcip, Hin.
        rewrite Hsize in Hcomp. by rewrite Hcomp, Z.eqb_refl, !bool_decide_true.
      + intros st plan E. eapply resumable_kept in E as [? _]; [done| |done].
        right. split; [done|]. by split. }
  exists n', s'. split; [done|]. destruct Hres as [Hn' Hl' Hc' Hfile Hsame Hrg [Hi' Hcip'] Hu Ho].
  split; [by eapply for_request_others|].
  destruct Hsame as (_ & _ & _ & Eg & Ez & Em & Et).
  destruct Ht as [[Ht _] _]. split; try done; congruence || lia || (split; congruence).
Qed.

(** The node still holds what was committed when it is asked for it. *)
Lemma finished_served d token n s now :
  finished d token n s →
  ∃ n' ca, committed_artifact cfg d now n = (n', Ok ca) ∧
    fs_read (ca_path ca) (node_fs n') = Some data.
Proof. intros [_ []]. by eapply lookup_committed. Qed.

End resume.
