(* ===== verification/Operations.v ===== *)
(** * Command operations

    [crates/imagod-control/src/operation_state.rs] (the table of running commands) and
    [handle_command_start] of
    [crates/imagod-server/src/protocol_handler/router.rs] as a program over it: one label
    per locked block, per write to the client's stream and per run of the orchestrator,
    interleaved with cancel and state requests, failing writes and aborted tasks. *)

From S2P Require Import Prelude Protocol.

Open Scope Z_scope.

(** ** The operation table *)

Inductive OperationPhase := Starting | Spawned.
#[export] Instance OperationPhase_eq_dec : EqDecision OperationPhase.
Proof. solve_decision. Defined.

Record OperationEntry := {
  op_state : CommandState;
  op_stage : string;
  op_updated_at : string;
  op_cancel_requested : bool;
  op_phase : OperationPhase;
}.

Inductive SpawnTransition := TransSpawned | TransCanceled.

Abbreviation OperationManager := (gmap Uuid OperationEntry).

Definition is_terminal (s : CommandState) : bool :=
  match s with Succeeded | Failed | Canceled => true | Accepted | Running => false end.

(** [now_unix_secs]. *)
Definition unix_secs (now : Z) : string := to_string now.

Definition not_running (stage : string) : ImagodError :=
  new_error NotFound stage "request_id is not running".

Definition start (request_id : Uuid) (now : Z) (m : OperationManager)
    : iresult OperationManager :=
  match m !! request_id with
  | Some _ => Err (new_error Busy "command.start" "request_id is already running")
  | None =>
    Ok (<[request_id := {| op_state := Accepted; op_stage := "accepted";
                           op_updated_at := unix_secs now; op_cancel_requested := false;
                           op_phase := Starting |}]> m)
  end.

Definition set_state (request_id : Uuid) (state : CommandState) (stage : string) (now : Z)
    (m : OperationManager) : iresult OperationManager :=
  entry ← ok_or (m !! request_id) (not_running "operation.state");
  Ok (<[request_id := {| op_state := state; op_stage := stage;
                         op_updated_at := unix_secs now;
                         op_cancel_requested := op_cancel_requested entry;
                         op_phase := op_phase entry |}]> m).

Definition mark_spawned_if_not_canceled (request_id : Uuid) (stage : string) (now : Z)
    (m : OperationManager) : iresult (OperationManager * SpawnTransition) :=
  entry ← ok_or (m !! request_id) (not_running "operation.state");
  if op_cancel_requested entry then
    Ok (<[request_id := {| op_state := op_state entry; op_stage := "cancel-pending";
                           op_updated_at := unix_secs now; op_cancel_requested := false;
                           op_phase := Spawned |}]> m, TransCanceled)
  else
    Ok (<[request_id := {| op_state := op_state entry; op_stage := stage;
                           op_updated_at := unix_secs now;
                           op_cancel_requested := op_cancel_requested entry;
                           op_phase := Spawned |}]> m, TransSpawned).

Definition snapshot_running (request_id : Uuid) (m : OperationManager)
    : iresult StateResponse :=
  entry ← ok_or (m !! request_id) (not_running "state.request");
  _ ← ensure (negb (is_terminal (op_state entry))) (not_running "state.request");
  Ok {| sr_request_id := request_id; sr_state := op_state entry; sr_stage := op_stage entry;
        sr_updated_at := op_updated_at entry |}.

Definition request_cancel (request_id : Uuid) (now : Z) (m : OperationManager)
    : iresult (OperationManager * CommandCancelResponse) :=
  entry ← ok_or (m !! request_id) (not_running "command.cancel");
  _ ← ensure (negb (is_terminal (op_state entry))) (not_running "command.cancel");
  if decide (op_phase entry = Spawned) then
    Ok (m, {| cancellable := false; final_state := op_state entry |})
  else
    Ok (<[request_id := {| op_state := op_state entry; op_stage := op_stage entry;
                           op_updated_at := unix_secs now; op_cancel_requested := true;
                           op_phase := op_phase entry |}]> m,
        {| cancellable := true; final_state := Canceled |}).

Definition finish (request_id : Uuid) (state : CommandState) (stage : string) (now : Z)
    (m : OperationManager) : OperationManager :=
  match m !! request_id with
  | Some _ =>
    <[request_id := {| op_state := state; op_stage := stage; op_updated_at := unix_secs now;
                       op_cancel_requested := false; op_phase := Spawned |}]> m
  | None => m
  end.

Definition remove (request_id : Uuid) (m : OperationManager) : OperationManager :=
  delete request_id m.

(** ** [handle_command_start] *)

Definition ensure_command_start_request_id_match (envelope_id payload_id : Uuid)
    : iresult unit :=
  ensure (bool_decide (envelope_id = payload_id))
    (bad_request "command.start" "envelope request_id and payload request_id must match").

Definition ensure_command_start_allowed (shutdown_requested : bool) : iresult unit :=
  ensure (negb shutdown_requested) (new_error Busy "command.start" "server is shutting down").

Definition deploy_id_for_cleanup (q : CommandStartRequest) : option string :=
  match cs_command_type q, cs_payload q with
  | CmdDeploy, PayloadDeploy p => Some (dc_deploy_id p)
  | _, _ => None
  end.

Definition should_purge_deploy_session_after_terminal (state : CommandState)
    (error : option ImagodError) : bool :=
  match state with
  | Succeeded => true
  | Canceled => false
  | Failed =>
    match error with
    | Some e => negb (bool_decide (err_code e = Busy)) && negb (err_retryable e)
    | None => false
    end
  | _ => false
  end.

(** The stages reported for a successful command; a payload of another type is an error. *)
Definition command_stages (q : CommandStartRequest) (service release : string)
    : iresult (string * string) :=
  match cs_command_type q, cs_payload q with
  | CmdDeploy, PayloadDeploy _ =>
    Ok ("release:" +:+ service +:+ ":" +:+ release, "spawned")%string
  | CmdRun, PayloadRun _ =>
    Ok ("running:" +:+ service +:+ ":" +:+ release, "spawned")%string
  | CmdStop, PayloadStop _ => Ok ("stopped:" +:+ service, "completed")%string
  | _, _ => Err (bad_request "command.start" "payload does not match command_type")
  end.

(** Where the handler is between two awaits. *)
Inductive Pc :=
  | WriteAccepted
  | WriteAcceptedEvent
  | SetRunning
  | WriteStarting
  | MarkSpawned
  | Execute
  | WriteProgress (progress_stage success_stage : string)
  | WriteTerminal (event : CommandEventType) (state : CommandState) (stage : string)
      (error : option ImagodError)
  | Finish (state : CommandState) (stage : string) (error : option ImagodError)
  | Remove (state : CommandState) (error : option ImagodError)
  | Purge (state : CommandState) (error : option ImagodError).

(** [ct_sent]: the events written so far.  [ct_acked] is a ghost: a cancel of this
    operation was answered with [cancellable = true]. *)
Record CommandTask := {
  ct_request : CommandStartRequest;
  ct_pc : Pc;
  ct_sent : list CommandEventType;
  ct_acked : bool;
}.

Definition ct_id (tk : CommandTask) : Uuid := cs_request_id (ct_request tk).

Definition at_pc (pc : Pc) (tk : CommandTask) : CommandTask :=
  {| ct_request := ct_request tk; ct_pc := pc; ct_sent := ct_sent tk; ct_acked := ct_acked tk |}.
Definition sent_at (ev : CommandEventType) (pc : Pc) (tk : CommandTask) : CommandTask :=
  {| ct_request := ct_request tk; ct_pc := pc; ct_sent := ct_sent tk ++ [ev];
     ct_acked := ct_acked tk |}.

(** [cs_purged]: the deploy sessions purged after a terminal event, in order. *)
Record CommandWorld := {
  cs_ops : OperationManager;
  cs_tasks : gmap nat CommandTask;
  cs_shutdown : bool;
  cs_purged : list string;
}.

Inductive CommandLabel :=
  | CStart (t : nat) (envelope_id : Uuid) (q : CommandStartRequest) (now : Z)
  | CWrite (t : nat) (written : bool)
  | CLock (t : nat) (now : Z)
  | CRun (t : nat) (r : iresult (string * string))
  | CPurge (t : nat)
  | CCancel (id : Uuid) (now : Z)
  | CShutdown
  | CAbort (t : nat).

(** A failing write or an aborted task. *)
Definition is_fault (l : CommandLabel) : bool :=
  match l with CWrite _ written => negb written | CAbort _ => true | _ => false end.

Definition set_task (t : nat) (tk : CommandTask) (s : CommandWorld) : CommandWorld :=
  {| cs_ops := cs_ops s; cs_tasks := <[t := tk]> (cs_tasks s);
     cs_shutdown := cs_shutdown s; cs_purged := cs_purged s |}.
Definition drop_task (t : nat) (s : CommandWorld) : CommandWorld :=
  {| cs_ops := cs_ops s; cs_tasks := delete t (cs_tasks s);
     cs_shutdown := cs_shutdown s; cs_purged := cs_purged s |}.
Definition set_ops (m : OperationManager) (s : CommandWorld) : CommandWorld :=
  {| cs_ops := m; cs_tasks := cs_tasks s; cs_shutdown := cs_shutdown s;
     cs_purged := cs_purged s |}.

(** The checks before the operation is registered; an error reaches the client as an
    error response and leaves no trace. *)
Definition command_start_checks (envelope_id : Uuid) (q : CommandStartRequest)
    (shutdown : bool) : iresult unit :=
  _ ← map_err (λ e, bad_request "command.start" (ve_to_string e)) (validate q);
  _ ← ensure_command_start_request_id_match envelope_id (cs_request_id q);
  ensure_command_start_allowed shutdown.

Definition cmd_start (t : nat) (envelope_id : Uuid) (q : CommandStartRequest) (now : Z)
    (s : CommandWorld) : CommandWorld :=
  match (_ ← command_start_checks envelope_id q (cs_shutdown s);
         start envelope_id now (cs_ops s)) with
  | Err _ => s
  | Ok m =>
    set_task t {| ct_request := q; ct_pc := WriteAccepted; ct_sent := []; ct_acked := false |}
      (set_ops m s)
  end.

(** A write to the stream: before the terminal event a failure leaves the handler. *)
Definition cmd_write (t : nat) (written : bool) (tk : CommandTask) (s : CommandWorld)
    : option CommandWorld :=
  match ct_pc tk with
  | WriteAccepted =>
    Some (if written then set_task t (at_pc WriteAcceptedEvent tk) s else drop_task t s)
  | WriteAcceptedEvent =>
    Some (if written then set_task t (sent_at EvAccepted SetRunning tk) s else drop_task t s)
  | WriteStarting =>
    Some (if written then set_task t (sent_at EvProgress MarkSpawned tk) s else drop_task t s)
  | WriteProgress _ success_stage =>
    Some (if written then
            set_task t (sent_at EvProgress
              (WriteTerminal EvSucceeded Succeeded success_stage None) tk) s
          else drop_task t s)
  | WriteTerminal event state stage error =>
    Some (set_task t ((if written then sent_at event else at_pc) (Finish state stage error) tk) s)
  | _ => None
  end.

Definition cmd_lock (t : nat) (now : Z) (tk : CommandTask) (s : CommandWorld)
    : option CommandWorld :=
  match ct_pc tk with
  | SetRunning =>
    Some match set_state (ct_id tk) Running "starting" now (cs_ops s) with
         | Ok m => set_task t (at_pc WriteStarting tk) (set_ops m s)
         | Err _ => drop_task t s
         end
  | MarkSpawned =>
    Some match mark_spawned_if_not_canceled (ct_id tk) "spawned" now (cs_ops s) with
         | Ok (m, TransCanceled) =>
           set_task t (at_pc (WriteTerminal EvCanceled Canceled "canceled" None) tk) (set_ops m s)
         | Ok (m, TransSpawned) => set_task t (at_pc Execute tk) (set_ops m s)
         | Err _ => drop_task t s
         end
  | Finish state stage error =>
    Some (set_task t (at_pc (Remove state error) tk)
            (set_ops (finish (ct_id tk) state stage now (cs_ops s)) s))
  | Remove state error =>
    Some (set_task t (at_pc (Purge state error) tk) (set_ops (remove (ct_id tk) (cs_ops s)) s))
  | _ => None
  end.

(** The orchestrator returns: [r] is the service and release it reports. *)
Definition cmd_execute (t : nat) (r : iresult (string * string)) (tk : CommandTask)
    (s : CommandWorld) : option CommandWorld :=
  match ct_pc tk with
  | Execute =>
    let result := '(service, release) ← r; command_stages (ct_request tk) service release in
    Some match result with
         | Ok (progress, success) => set_task t (at_pc (WriteProgress progress success) tk) s
         | Err e =>
           set_task t (at_pc (WriteTerminal EvFailed Failed "failed" (Some e)) tk) s
         end
  | _ => None
  end.

(** [purge_deploy_session_if_needed], then the handler returns. *)
Definition cmd_purge (t : nat) (tk : CommandTask) (s : CommandWorld) : option CommandWorld :=
  match ct_pc tk with
  | Purge state error =>
    let purged :=
      match deploy_id_for_cleanup (ct_request tk) with
      | Some d => if should_purge_deploy_session_after_terminal state error then [d] else []
      | None => []
      end in
    Some {| cs_ops := cs_ops s; cs_tasks := delete t (cs_tasks s);
            cs_shutdown := cs_shutdown s; cs_purged := cs_purged s ++ purged |}
  | _ => None
  end.

(** [handle_command_cancel]; the ghost of the task that owns the operation is set. *)
Definition owns (id : Uuid) (tk : CommandTask) : bool :=
  bool_decide (ct_id tk = id) && match ct_pc tk with Purge _ _ => false | _ => true end.

Definition cmd_cancel (id : Uuid) (now : Z) (s : CommandWorld) : CommandWorld :=
  match request_cancel id now (cs_ops s) with
  | Err _ => s
  | Ok (m, response) =>
    {| cs_ops := m;
       cs_tasks :=
         (λ tk, if owns id tk && cancellable response
                then {| ct_request := ct_request tk; ct_pc := ct_pc tk;
                        ct_sent := ct_sent tk; ct_acked := true |}
                else tk) <$> cs_tasks s;
       cs_shutdown := cs_shutdown s; cs_purged := cs_purged s |}
  end.

Definition cmd_step (l : CommandLabel) (s : CommandWorld) : option CommandWorld :=
  match l with
  | CStart t envelope_id q now =>
    guard (cs_tasks s !! t = None);; Some (cmd_start t envelope_id q now s)
  | CWrite t written => tk ← cs_tasks s !! t; cmd_write t written tk s
  | CLock t now => tk ← cs_tasks s !! t; cmd_lock t now tk s
  | CRun t r => tk ← cs_tasks s !! t; cmd_execute t r tk s
  | CPurge t => tk ← cs_tasks s !! t; cmd_purge t tk s
  | CCancel id now => Some (cmd_cancel id now s)
  | CShutdown => Some {| cs_ops := cs_ops s; cs_tasks := cs_tasks s; cs_shutdown := true;
                         cs_purged := cs_purged s |}
  | CAbort t => tk ← cs_tasks s !! t; Some (drop_task t s)
  end.

Definition cmd_init : CommandWorld :=
  {| cs_ops := ∅; cs_tasks := ∅; cs_shutdown := false; cs_purged := [] |}.

(** Reachability; with [clean] no write fails and no task is aborted. *)
Inductive cmd_reach (clean : bool) : CommandWorld → Prop :=
  | cmd_reach_init : cmd_reach clean cmd_init
  | cmd_reach_step s l s' :
      cmd_reach clean s → (clean = true → is_fault l = false) → cmd_step l s = Some s' →
      cmd_reach clean s'.

Fixpoint cmd_run (ls : list CommandLabel) (s : CommandWorld) : option CommandWorld :=
  match ls with [] => Some s | l :: ls => s' ← cmd_step l s; cmd_run ls s' end.

(** ** Invariant *)

(** The events a handler has written when it reaches its terminal event. *)
Definition events_before (state : CommandState) : list CommandEventType :=
  match state with
  | Succeeded => [EvAccepted; EvProgress; EvProgress]
  | _ => [EvAccepted; EvProgress]
  end.
Definition terminal_event (state : CommandState) : CommandEventType :=
  match state with Succeeded => EvSucceeded | Canceled => EvCanceled | _ => EvFailed end.

Definition sent_ok (tk : CommandTask) : Prop :=
  match ct_pc tk with
  | WriteAccepted | WriteAcceptedEvent => ct_sent tk = []
  | SetRunning | WriteStarting => ct_sent tk = [EvAccepted]
  | MarkSpawned | Execute | WriteProgress _ _ => ct_sent tk = [EvAccepted; EvProgress]
  | WriteTerminal event state _ _ =>
    event = terminal_event state ∧ is_terminal state = true ∧ ct_sent tk = events_before state
  | Finish state _ _ | Remove state _ | Purge state _ =>
    is_terminal state = true ∧
    (ct_sent tk = events_before state ∨
     ct_sent tk = events_before state ++ [terminal_event state])
  end.

(** Did the orchestrator run the command?  Did the cancel path win? *)
Definition executed (pc : Pc) : bool :=
  match pc with
  | Execute | WriteProgress _ _ => true
  | WriteTerminal _ state _ _ | Finish state _ _ | Remove state _ | Purge state _ =>
    negb (bool_decide (state = Canceled))
  | _ => false
  end.
Definition canceled (pc : Pc) : bool :=
  match pc with
  | WriteTerminal _ state _ _ | Finish state _ _ | Remove state _ | Purge state _ =>
    bool_decide (state = Canceled)
  | _ => false
  end.

Definition acked_ok (tk : CommandTask) : Prop :=
  (executed (ct_pc tk) = true → ct_acked tk = false) ∧
  (canceled (ct_pc tk) = true → ct_acked tk = true).

Definition entry_of (tk : CommandTask) (e : OperationEntry) : Prop :=
  match ct_pc tk with
  | WriteAccepted | WriteAcceptedEvent | SetRunning =>
    op_state e = Accepted ∧ op_phase e = Starting ∧ op_cancel_requested e = ct_acked tk
  | WriteStarting | MarkSpawned =>
    op_state e = Running ∧ op_phase e = Starting ∧ op_cancel_requested e = ct_acked tk
  | Execute | WriteProgress _ _ | WriteTerminal _ _ _ _ | Finish _ _ _ =>
    op_state e = Running ∧ op_phase e = Spawned
  | Remove state _ => op_state e = state
  | Purge _ _ => True
  end.

Definition entry_ok (e : OperationEntry) : Prop :=
  is_blank (op_stage e) = false ∧ is_blank (op_updated_at e) = false.

Definition stage_ok (pc : Pc) : Prop :=
  match pc with
  | WriteProgress _ stage | WriteTerminal _ _ stage _ | Finish _ stage _ => is_blank stage = false
  | _ => True
  end.

Record CInv (clean : bool) (s : CommandWorld) : Prop := {
  ci_task t tk : cs_tasks s !! t = Some tk → sent_ok tk ∧ acked_ok tk ∧ stage_ok (ct_pc tk);
  ci_entry t tk : cs_tasks s !! t = Some tk → owns (ct_id tk) tk = true →
    ∃ e, cs_ops s !! ct_id tk = Some e ∧ entry_of tk e;
  ci_unique t1 t2 tk1 tk2 : cs_tasks s !! t1 = Some tk1 → cs_tasks s !! t2 = Some tk2 →
    owns (ct_id tk1) tk1 = true → owns (ct_id tk1) tk2 = true → t1 = t2;
  ci_owner id e : clean = true → cs_ops s !! id = Some e →
    ∃ t tk, cs_tasks s !! t = Some tk ∧ owns id tk = true;
  ci_ok id e : cs_ops s !! id = Some e → entry_ok e;
}.

Lemma unix_secs_not_blank now : is_blank (unix_secs now) = false.
Proof. apply to_string_not_blank. Qed.

Lemma entry_ok_now state stage now cancel phase :
  is_blank stage = false →
  entry_ok {| op_state := state; op_stage := stage; op_updated_at := unix_secs now;
              op_cancel_requested := cancel; op_phase := phase |}.
Proof. intros. split; [done|apply unix_secs_not_blank]. Qed.

Lemma owns_true id tk :
  owns id tk = true ↔ ct_id tk = id ∧ ∀ state error, ct_pc tk ≠ Purge state error.
Proof.
  unfold owns. rewrite andb_true_iff, bool_decide_eq_true. split; intros [? Hp]; (split; [done|]).
  - by destruct (ct_pc tk).
  - destruct (ct_pc tk); try done. exfalso. by eapply Hp.
Qed.

Lemma command_stages_not_blank q service release p st :
  command_stages q service release = Ok (p, st) → is_blank st = false.
Proof. unfold command_stages. intros. by repeat case_match; simplify_eq. Qed.

(** Moving task [t] from [tk] to [tk'], with its entry, keeps the invariant. *)
Lemma CInv_move clean s t tk tk' m' :
  CInv clean s → cs_tasks s !! t = Some tk → ct_id tk' = ct_id tk →
  owns (ct_id tk) tk = true →
  (∀ id, id ≠ ct_id tk → m' !! id = cs_ops s !! id) →
  sent_ok tk' → acked_ok tk' → stage_ok (ct_pc tk') →
  (owns (ct_id tk) tk' = true → ∃ e, m' !! ct_id tk = Some e ∧ entry_of tk' e) →
  (owns (ct_id tk) tk' = false → m' !! ct_id tk = None) →
  (∀ e, m' !! ct_id tk = Some e → entry_ok e) →
  CInv clean (set_task t tk' (set_ops m' s)).
Proof.
  intros [Ht He Hu Ho Hk] Hl Hid Hown Hm Hs' Ha' Hst' He' Hn' Hk'.
  assert (Hother : ∀ t2 tk2, t2 ≠ t → cs_tasks s !! t2 = Some tk2 →
            owns (ct_id tk2) tk2 = true → ct_id tk2 ≠ ct_id tk).
  { intros t2 tk2 Hne H2 Ho2 E. rewrite E in Ho2. by destruct (Hne (Hu t2 t tk2 tk H2 Hl
      ltac:(by rewrite E) ltac:(by rewrite E))). }
  split; simpl.
  - intros t2 tk2 [[<- <-]|[? H2]]%lookup_insert_Some; eauto.
  - intros t2 tk2 [[<- <-]|[Hne H2]]%lookup_insert_Some Ho2.
    + rewrite Hid in *. auto.
    + rewrite Hm by eauto. eauto.
  - intros t1 t2 tk1 tk2 [[<- <-]|[Hne1 H1]]%lookup_insert_Some
      [[<- <-]|[Hne2 H2]]%lookup_insert_Some Ho1 Ho2; try done; [..|by eapply Hu].
    + exfalso. pose proof Ho2 as [E _]%owns_true. rewrite Hid in E.
      apply (Hother t2 tk2); [done|done| |done]. rewrite E. by rewrite Hid in Ho2.
    + exfalso. pose proof Ho2 as [E _]%owns_true. rewrite Hid in E.
      by eapply (Hother t1 tk1).
  - intros id e Hc Hid'. destruct (decide (id = ct_id tk)) as [->|Hne].
    + exists t, tk'. rewrite lookup_insert_eq. split; [done|].
      destruct (owns (ct_id tk) tk') eqn:E; [done|]. rewrite Hn' in Hid'; done.
    + rewrite Hm in Hid' by done. destruct (Ho id e Hc Hid') as (t2 & tk2 & H2 & Ho2).
      exists t2, tk2. rewrite lookup_insert_ne; [done|]. intros <-. simplify_eq.
      apply owns_true in Ho2 as [? _]. congruence.
  - intros id e Hid'. destruct (decide (id = ct_id tk)) as [->|Hne]; [auto|].
    rewrite Hm in Hid' by done. eauto.
Qed.

Lemma set_ops_id s : set_ops (cs_ops s) s = s.
Proof. by destruct s. Qed.

Lemma CInv_drop clean s t :
  CInv clean s →
  (clean = false ∨ ∀ tk, cs_tasks s !! t = Some tk → owns (ct_id tk) tk = false) →
  CInv clean (drop_task t s).
Proof.
  intros [Ht He Hu Ho Hk] Hcase. split; simpl.
  - intros t2 tk2 [_ H2]%lookup_delete_Some. eauto.
  - intros t2 tk2 [_ H2]%lookup_delete_Some. eauto.
  - intros t1 t2 tk1 tk2 [_ H1]%lookup_delete_Some [_ H2]%lookup_delete_Some. eauto.
  - intros id e Hc Hid. destruct Hcase as [->|Hnot]; [done|].
    destruct (Ho id e Hc Hid) as (t2 & tk2 & H2 & Ho2). exists t2, tk2.
    rewrite lookup_delete_ne; [done|]. intros <-. pose proof Ho2 as [E _]%owns_true.
    specialize (Hnot tk2 H2). rewrite E in Hnot. congruence.
  - done.
Qed.

(** A move of the task alone. *)
Lemma CInv_advance clean s t tk tk' :
  CInv clean s → cs_tasks s !! t = Some tk → ct_id tk' = ct_id tk →
  owns (ct_id tk) tk = true → owns (ct_id tk) tk' = true →
  sent_ok tk' → acked_ok tk' → stage_ok (ct_pc tk') →
  (∀ e, entry_of tk e → entry_of tk' e) →
  CInv clean (set_task t tk' s).
Proof.
  intros HI Ht Hid Ho Ho' Hs Ha Hst He. rewrite <-(set_ops_id s).
  eapply CInv_move; eauto.
  - intros _. destruct (ci_entry _ _ HI t tk Ht Ho) as (e & ? & ?). eauto.
  - congruence.
  - intros e. apply (ci_ok _ _ HI).
Qed.

(** Evaluate the predicates at the program counter [E : ct_pc tk = _]. *)
Ltac pc_simpl E :=
  unfold sent_ok, acked_ok, stage_ok, entry_of, owns, ct_id in *; simpl in *; rewrite ?E in *;
  simpl in *; rewrite ?bool_decide_true in * by done.

Lemma CInv_write clean s t tk written s' :
  CInv clean s → cs_tasks s !! t = Some tk → (clean = true → written = true) →
  cmd_write t written tk s = Some s' → CInv clean s'.
Proof.
  intros HI Ht Hw Hstep. unfold cmd_write in Hstep.
  destruct (ci_task _ _ HI _ _ Ht) as (Hsent & [Hex Hcan] & Hstage).
  destruct (ct_pc tk) eqn:E; simplify_eq; pc_simpl E.
  5: { eapply CInv_advance; try done; destruct written; pc_simpl E; try done.
       all: destruct Hsent as (-> & ? & ->); auto. }
  all: destruct written; [|by apply CInv_drop; [done|left; destruct clean; naive_solver]].
  all: eapply CInv_advance; try done; pc_simpl E; rewrite ?Hsent; done.
Qed.

Lemma start_spec id now m m' :
  start id now m = Ok m' →
  m !! id = None ∧ ∃ e, m' = <[id := e]> m ∧ op_state e = Accepted ∧ op_phase e = Starting ∧
    op_cancel_requested e = false ∧ entry_ok e.
Proof.
  unfold start. destruct (m !! id); [done|]. intros [= <-]. split; [done|].
  eexists. repeat (split; [done|]). by apply entry_ok_now.
Qed.

Lemma CInv_start clean s t envelope_id q now :
  CInv clean s → cs_tasks s !! t = None → CInv clean (cmd_start t envelope_id q now s).
Proof.
  intros HI Ht. unfold cmd_start.
  destruct (command_start_checks envelope_id q (cs_shutdown s)) as [[]|] eqn:Hc; [|done]. simpl.
  unfold command_start_checks in Hc. inv_ok.
  match goal with H : ensure_command_start_request_id_match _ _ = _ |- _ =>
    unfold ensure_command_start_request_id_match in H; apply ensure_Ok, bool_decide_eq_true in H
  end. subst envelope_id. destruct (start _ now (cs_ops s)) as [m|] eqn:Hs; [|done].
  apply start_spec in Hs as (Hnone & e & -> & Hst & Hph & Hca & Hok).
  assert (Hfree : ∀ t2 tk2, cs_tasks s !! t2 = Some tk2 → owns (cs_request_id q) tk2 = false).
  { intros t2 tk2 Hq2. apply not_true_iff_false. intros Ho. pose proof Ho as [E _]%owns_true.
    rewrite <-E in Ho. destruct (ci_entry _ _ HI t2 tk2 Hq2 Ho) as (? & ? & _). congruence. }
  destruct HI as [Hi He Hu Ho Hk]. split; simpl.
  - intros t2 tk2 [[<- <-]|[? Hq2]]%lookup_insert_Some; [|by eauto].
    split_and!; [done|by split|done].
  - intros t2 tk2 [[<- <-]|[? Hq2]]%lookup_insert_Some Ho2.
    + exists e. split; [apply lookup_insert_eq|done].
    + rewrite lookup_insert_ne; [eauto|]. intros E. specialize (Hfree t2 tk2 Hq2).
      rewrite E in Hfree. congruence.
  - intros t1 t2 tk1 tk2 [[<- <-]|[? Hq1]]%lookup_insert_Some
      [[<- <-]|[? Hq2]]%lookup_insert_Some Ho1 Ho2; try done; [..|by eapply Hu].
    + unfold ct_id in Ho2. simpl in Ho2. rewrite (Hfree t2) in Ho2; done.
    + pose proof Ho2 as [E _]%owns_true. unfold ct_id in E at 1. simpl in E.
      rewrite <-E in Ho1. rewrite (Hfree t1) in Ho1; done.
  - intros id e' Hc' [[<- <-]|[? Hid]]%lookup_insert_Some.
    + eexists t, _. rewrite lookup_insert_eq. split; [done|]. unfold owns, ct_id. simpl.
      by rewrite bool_decide_true.
    + destruct (Ho id e' Hc' Hid) as (t2 & tk2 & Hq2 & Ho2). exists t2, tk2.
      rewrite lookup_insert_ne; [done|]. intros <-. congruence.
  - intros id e' [[<- <-]|[? Hid]]%lookup_insert_Some; eauto.
Qed.

Lemma CInv_lock clean s t tk now s' :
  CInv clean s → cs_tasks s !! t = Some tk → cmd_lock t now tk s = Some s' → CInv clean s'.
Proof.
  intros HI Ht Hstep. unfold cmd_lock in Hstep.
  destruct (ci_task _ _ HI _ _ Ht) as (Hsent & [Hex Hcan] & Hstage).
  pose proof (ci_entry _ _ HI _ _ Ht) as Hen.
  destruct (ct_pc tk) eqn:E; simplify_eq; pc_simpl E.
  all: destruct (Hen eq_refl) as (e & He & Heo).
  - unfold set_state, ct_id. rewrite He. simpl.
    eapply CInv_move; eauto; pc_simpl E; rewrite ?lookup_insert_eq; try done.
    + intros id Hne. by rewrite lookup_insert_ne.
    + intros _. eexists. split; [done|]. simpl. naive_solver.
    + intros e' [= <-]. by apply entry_ok_now.
  - unfold mark_spawned_if_not_canceled, ct_id. rewrite He. simpl.
    destruct Heo as (Hst & Hph & Hca). rewrite Hca.
    destruct (ct_acked tk) eqn:Hack; eapply CInv_move; eauto; pc_simpl E;
      rewrite ?lookup_insert_eq; try done.
    all: try (by intros id Hne; rewrite lookup_insert_ne).
    all: try (intros e' [= <-]; by apply entry_ok_now).
    all: intros _; eexists; split; [done|]; by simpl.
  - unfold finish, ct_id. rewrite He.
    eapply CInv_move; eauto; pc_simpl E; rewrite ?lookup_insert_eq; try done.
    + intros id Hne. by rewrite lookup_insert_ne.
    + intros _. by eexists.
    + intros e' [= <-]. by apply entry_ok_now.
  - eapply CInv_move; eauto; pc_simpl E; unfold remove; rewrite ?lookup_delete_eq; try done.
    intros id Hne. by rewrite lookup_delete_ne.
Qed.

Lemma CInv_execute clean s t tk r s' :
  CInv clean s → cs_tasks s !! t = Some tk → cmd_execute t r tk s = Some s' → CInv clean s'.
Proof.
  intros HI Ht Hstep. unfold cmd_execute in Hstep.
  destruct (ci_task _ _ HI _ _ Ht) as (Hsent & [Hex Hcan] & Hstage).
  destruct (ct_pc tk) eqn:E; simplify_eq.
  destruct (r ≫= _) as [[progress success]|e] eqn:Hr; pc_simpl E.
  - eapply CInv_advance; try done; pc_simpl E; try done.
    apply bind_Ok in Hr as ([service release] & _ & Hr). by eapply command_stages_not_blank.
  - eapply CInv_advance; try done; pc_simpl E; done.
Qed.

Lemma CInv_purge clean s t tk s' :
  CInv clean s → cs_tasks s !! t = Some tk → cmd_purge t tk s = Some s' → CInv clean s'.
Proof.
  intros HI Ht Hstep. unfold cmd_purge in Hstep. destruct (ct_pc tk) eqn:E; simplify_eq.
  assert (CInv clean (drop_task t s)) as [].
  { apply CInv_drop; [done|]. right. intros tk' Ht'. simplify_eq.
    apply not_true_iff_false. intros [_ Hp]%owns_true. by eapply Hp. }
  by split.
Qed.

(** Only the owner of an operation that has not been spawned notices a cancel. *)
Lemma CInv_cancel clean s rid now : CInv clean s → CInv clean (cmd_cancel rid now s).
Proof.
  intros HI. unfold cmd_cancel, request_cancel.
  destruct (cs_ops s !! rid) as [e|] eqn:He; [|done]. simpl.
  destruct (is_terminal (op_state e)) eqn:Hterm; [done|]. simpl.
  pose proof HI as [Hi Hen Hu Ho Hk].
  destruct (decide (op_phase e = Spawned)) as [Hsp|Hsp]; simpl.
  { rewrite (map_fmap_ext _ id) by (intros; by rewrite andb_false_r). rewrite map_fmap_id.
    by destruct s. }
  set (ack := λ tk, if owns rid tk && true then _ else tk).
  assert (Hack : ∀ tk, ct_pc (ack tk) = ct_pc tk ∧ ct_request (ack tk) = ct_request tk ∧
    ct_sent (ack tk) = ct_sent tk ∧ (owns rid tk = false → ack tk = tk)).
  { intros tk. unfold ack. by destruct (owns rid tk). }
  assert (Hown : ∀ i tk, owns i (ack tk) = owns i tk).
  { intros i tk. destruct (Hack tk) as (Hp & Hq & _). unfold owns, ct_id. by rewrite Hp, Hq. }
  assert (Hid : ∀ tk, ct_id (ack tk) = ct_id tk).
  { intros tk. destruct (Hack tk) as (_ & Hq & _). unfold ct_id. by rewrite Hq. }
  (* the owner is still before the spawn *)
  assert (Hpre : ∀ t tk, cs_tasks s !! t = Some tk → owns rid tk = true →
    entry_of tk e ∧ executed (ct_pc tk) = false ∧ canceled (ct_pc tk) = false ∧
    ct_acked (ack tk) = true).
  { intros t tk Ht Htk. pose proof Htk as [E _]%owns_true. subst rid.
    destruct (Hen t tk Ht Htk) as (e' & He' & Heo). simplify_eq.
    destruct (Hi t tk Ht) as (Hs & _ & _). unfold ack. rewrite Htk. clear - Heo Hs Hsp Hterm Htk.
    apply owns_true in Htk as [_ Hnp]. split; [done|]. unfold entry_of, sent_ok in *.
    destruct (ct_pc tk) eqn:E; simpl; try done.
    all: try (by destruct Heo; destruct Hsp).
    - rewrite Heo in Hterm. destruct Hs. congruence.
    - exfalso. by eapply Hnp. }
  split; simpl.
  - intros t tk' Ht'. apply lookup_fmap_Some in Ht' as (tk & <- & Ht).
    destruct (Hack tk) as (Hp & Hq & Hs & Hsame). destruct (Hi t tk Ht) as (H1 & H2 & H3).
    unfold sent_ok, acked_ok, stage_ok in *. rewrite Hp, Hs. split_and!; try done.
    + intros Hex. destruct (owns rid tk) eqn:Ew; [|rewrite Hsame by done; by apply H2].
      destruct (Hpre t tk Ht Ew) as (_ & ? & _). congruence.
    + intros Hcan. destruct (owns rid tk) eqn:Ew; [|rewrite Hsame by done; by apply H2].
      by destruct (Hpre t tk Ht Ew) as (_ & _ & _ & ?).
  - intros t tk' Ht'. apply lookup_fmap_Some in Ht' as (tk & <- & Ht). rewrite Hid, Hown.
    intros Ho'. destruct (owns rid tk) eqn:Ew.
    + destruct (Hpre t tk Ht Ew) as (Heo & Hex & _ & Hac). pose proof Ew as [E _]%owns_true.
      subst rid. rewrite lookup_insert_eq. eexists. split; [done|].
      destruct (Hack tk) as (Hp & _). clear - Heo Hex Hac Hp. unfold entry_of in *.
      rewrite Hp, Hac. simpl. by destruct (ct_pc tk); try destruct Heo as (? & ? & ?).
    + rewrite lookup_insert_ne.
      * destruct (Hack tk) as (_ & _ & _ & Hsame). rewrite (Hsame Ew).
        by apply (Hen t).
      * intros E. subst rid. congruence.
  - intros t1 t2 tk1' tk2' Ht1 Ht2. apply lookup_fmap_Some in Ht1 as (tk1 & <- & Ht1).
    apply lookup_fmap_Some in Ht2 as (tk2 & <- & Ht2). rewrite Hid, !Hown. by apply Hu.
  - intros i e' Hc Hi'. assert (is_Some (cs_ops s !! i)) as [e0 He0].
    { apply lookup_insert_Some in Hi' as [[<- _]|[_ ?]]; eauto. }
    destruct (Ho i e0 Hc He0) as (t & tk & Ht & Htk). exists t, (ack tk).
    rewrite lookup_fmap, Ht, Hown. done.
  - intros i e' [[<- <-]|[_ ?]]%lookup_insert_Some; [|by eapply Hk].
    apply entry_ok_now. by eapply Hk.
Qed.

Theorem CInv_step clean s l s' :
  CInv clean s → (clean = true → is_fault l = false) → cmd_step l s = Some s' → CInv clean s'.
Proof.
  intros HI Hf Hstep. destruct l; simpl in Hstep.
  - case_guard; simplify_eq/=. by apply CInv_start.
  - apply bind_Some in Hstep as (tk & Ht & Hstep). eapply CInv_write; [done|done| |done].
    intros Hc. specialize (Hf Hc). by apply negb_false_iff in Hf.
  - apply bind_Some in Hstep as (tk & Ht & Hstep). by eapply CInv_lock.
  - apply bind_Some in Hstep as (tk & Ht & Hstep). by eapply CInv_execute.
  - apply bind_Some in Hstep as (tk & Ht & Hstep). by eapply CInv_purge.
  - simplify_eq. by apply CInv_cancel.
  - simplify_eq. by destruct HI; split.
  - apply bind_Some in Hstep as (tk & Ht & Hstep). simplify_eq. apply CInv_drop; [done|].
    left. destruct clean; [|done]. by specialize (Hf eq_refl).
Qed.

Theorem CInv_reach clean s : cmd_reach clean s → CInv clean s.
Proof.
  induction 1 as [|s l s' _ IH Hf Hstep]; [|by eapply CInv_step].
  split; simpl; intros *; rewrite ?lookup_empty; done.
Qed.

(** ** Theorems *)

(** C24 (safety).  The race between cancel and spawn has exactly one winner: a command
    whose cancel was acknowledged is never handed to the orchestrator, a command that ends
    as canceled was acknowledged, and while the orchestrator runs every cancel is told that
    it comes too late. *)
Theorem cancel_spawn_race clean s t tk :
  cmd_reach clean s → cs_tasks s !! t = Some tk →
  (executed (ct_pc tk) = true → ct_acked tk = false) ∧
  (canceled (ct_pc tk) = true → ct_acked tk = true) ∧
  (ct_pc tk = Execute → ∀ now, request_cancel (ct_id tk) now (cs_ops s) =
     Ok (cs_ops s, {| cancellable := false; final_state := Running |})).
Proof.
  intros HR%CInv_reach Ht. destruct (ci_task _ _ HR _ _ Ht) as (_ & [Hex Hcan] & _).
  split_and!; [done|done|]. intros E now.
  destruct (ci_entry _ _ HR t tk Ht) as (e & He & Heo).
  { apply owns_true. by rewrite E. }
  unfold entry_of in Heo. rewrite E in Heo. destruct Heo as [Hst Hph].
  unfold request_cancel. rewrite He. simpl. rewrite Hst. simpl. by rewrite decide_True.
Qed.

(** Events reach the client in the order of the protocol: accepted,
    progress, then one terminal event, preceded by a second progress event exactly when the
    command succeeded; nothing follows the terminal event. *)
Theorem command_event_order clean s t tk :
  cmd_reach clean s → cs_tasks s !! t = Some tk →
  ∃ state, is_terminal state = true ∧
    ct_sent tk `prefix_of` events_before state ++ [terminal_event state] ∧
    (∀ st err, ct_pc tk = Purge st err → st = state).
Proof.
  intros HR%CInv_reach Ht. destruct (ci_task _ _ HR _ _ Ht) as (Hs & _ & _).
  unfold sent_ok in Hs. destruct (ct_pc tk) eqn:E.
  1-7: exists Succeeded; rewrite Hs; split_and!; [done|by eexists|done].
  { destruct Hs as (-> & Hterm & ->). exists state. split_and!; [done|by eexists|done]. }
  all: destruct Hs as (Hterm & Hs); exists state;
    (split_and!; [done| |congruence]); destruct Hs as [->| ->]; [by eexists|done].
Qed.

(** A state response never reports a finished command and always passes the
    protocol's own validation. *)
Theorem state_response_valid clean s id response :
  cmd_reach clean s → is_nil_uuid id = false →
  snapshot_running id (cs_ops s) = Ok response →
  is_terminal (sr_state response) = false ∧ validate response = Ok tt.
Proof.
  intros HR%CInv_reach Hid Hs. unfold snapshot_running in Hs. inv_ok.
  destruct (ci_ok _ _ HR id _ ltac:(eassumption)) as [H1 H2].
  rewrite negb_true_iff in *. split; [done|].
  unfold validate, StateResponse_validate, ensure_uuid_not_nil. simpl. rewrite Hid. simpl.
  destruct (op_state _); simpl in *; try done.
  all: unfold ensure_non_empty; by rewrite H1, H2.
Qed.

(** When no write fails and no task is aborted, the table is empty again
    once every handler has returned: no request id stays taken. *)
Theorem operations_drain s : cmd_reach true s → cs_tasks s = ∅ → cs_ops s = ∅.
Proof.
  intros HR%CInv_reach Ht. apply map_eq. intros id. rewrite lookup_empty.
  destruct (cs_ops s !! id) as [e|] eqn:He; [|done].
  destruct (ci_owner _ _ HR id e eq_refl He) as (t & tk & H & _).
  by rewrite Ht, lookup_empty in H.
Qed.

(** *** A defect: operations without an owner *)

Definition orphan (id : Uuid) (s : CommandWorld) : Prop :=
  is_Some (cs_ops s !! id) ∧ ∀ t tk, cs_tasks s !! t = Some tk → owns id tk = false.

Lemma orphan_set id s t tk tk' m :
  orphan id s → cs_tasks s !! t = Some tk → ct_id tk' = ct_id tk → owns (ct_id tk) tk = true →
  (∀ i, i ≠ ct_id tk → m !! i = cs_ops s !! i) →
  orphan id (set_task t tk' (set_ops m s)).
Proof.
  intros [Hs Hn] Ht Hid Ho Hm. assert (ct_id tk ≠ id) as Hne.
  { intros <-. rewrite (Hn t) in Ho; done. }
  split; simpl; [by rewrite Hm|].
  intros t2 tk2 [[<- <-]|[? H2]]%lookup_insert_Some; [|eauto].
  apply not_true_iff_false. intros [E _]%owns_true. congruence.
Qed.

Lemma orphan_drop id s t : orphan id s → orphan id (drop_task t s).
Proof.
  intros [Hs Hn]. split; [done|]. simpl. intros t2 tk2 [_ H2]%lookup_delete_Some. eauto.
Qed.

Lemma orphan_start id s t envelope_id q now :
  orphan id s → orphan id (cmd_start t envelope_id q now s).
Proof.
  intros Ho. pose proof Ho as [Hs Hn]. unfold cmd_start.
  destruct (command_start_checks envelope_id q (cs_shutdown s)) as [[]|] eqn:Hc; [|done]. simpl.
  unfold command_start_checks in Hc. inv_ok.
  match goal with H : ensure_command_start_request_id_match _ _ = _ |- _ =>
    unfold ensure_command_start_request_id_match in H; apply ensure_Ok, bool_decide_eq_true in H
  end. subst envelope_id. destruct (start _ now (cs_ops s)) as [m|] eqn:Hst; [|done].
  apply start_spec in Hst as (Hnone & e & -> & _).
  assert (cs_request_id q ≠ id) by (intros <-; rewrite Hnone in Hs; by destruct Hs).
  split; simpl; [by rewrite lookup_insert_ne|].
  intros t2 tk2 [[<- <-]|[_ H2]]%lookup_insert_Some; [|by eapply Hn].
  unfold owns, ct_id. simpl. by rewrite bool_decide_false.
Qed.

Lemma orphan_cancel id s rid now : orphan id s → orphan id (cmd_cancel rid now s).
Proof.
  intros Ho. pose proof Ho as [Hs Hn]. unfold cmd_cancel, request_cancel.
  destruct (cs_ops s !! rid) as [e|] eqn:He; [|done]. simpl.
  destruct (is_terminal (op_state e)); [done|]. simpl.
  case_decide; split; simpl; try done.
  2: by apply lookup_insert_is_Some'; right.
  all: intros t tk' Ht'; apply lookup_fmap_Some in Ht' as (tk & <- & Ht).
  all: pose proof (Hn t tk Ht); case_match; done.
Qed.

Lemma orphan_step id s l s' : orphan id s → cmd_step l s = Some s' → orphan id s'.
Proof.
  intros Ho Hstep. destruct l; simpl in Hstep;
    try (apply bind_Some in Hstep as (tk & Ht & Hstep)).
  - case_guard; simplify_eq/=. by apply orphan_start.
  - unfold cmd_write in Hstep. destruct (ct_pc tk) eqn:E; simplify_eq.
    all: try (destruct written; [|by apply orphan_drop]).
    all: rewrite <-(set_ops_id s); eapply orphan_set; try done.
    all: try (by destruct written). all: apply owns_true; by rewrite E.
  - unfold cmd_lock in Hstep. destruct (ct_pc tk) eqn:E; simplify_eq.
    + unfold set_state. destruct (cs_ops s !! ct_id tk); simpl; [|by apply orphan_drop].
      eapply orphan_set; try done; [apply owns_true; by rewrite E|].
      intros. by rewrite lookup_insert_ne.
    + unfold mark_spawned_if_not_canceled.
      destruct (cs_ops s !! ct_id tk) as [e|]; simpl; [|by apply orphan_drop].
      destruct (op_cancel_requested e); eapply orphan_set; try done; try (apply owns_true; by rewrite E).
      all: intros; by rewrite lookup_insert_ne.
    + eapply orphan_set; try done; [apply owns_true; by rewrite E|]. unfold finish.
      intros. case_match; [|done]. by rewrite lookup_insert_ne.
    + eapply orphan_set; try done; [apply owns_true; by rewrite E|]. unfold remove.
      intros. by rewrite lookup_delete_ne.
  - unfold cmd_execute in Hstep. destruct (ct_pc tk) eqn:E; simplify_eq.
    case_match; [case_match|]; rewrite <-(set_ops_id s); eapply orphan_set; try done;
      apply owns_true; by rewrite E.
  - unfold cmd_purge in Hstep. destruct (ct_pc tk) eqn:E; simplify_eq.
    by destruct (orphan_drop id s t Ho).
  - simplify_eq. by apply orphan_cancel.
  - simplify_eq. by destruct Ho.
  - simplify_eq. by apply orphan_drop.
Qed.

Definition cmd_next (s s' : CommandWorld) : Prop := ∃ l, cmd_step l s = Some s'.

Lemma orphan_steps id s s' : orphan id s → rtc cmd_next s s' → orphan id s'.
Proof. intros Ho Hr. induction Hr as [|s1 s2 s3 [l Hl] _ IH]; eauto using orphan_step. Qed.

(** *** Concrete runs *)

Definition demo_command : CommandStartRequest :=
  {| cs_request_id := 7%N; cs_command_type := CmdStop;
     cs_payload := PayloadStop {| sc_name := "web"; sc_force := false |} |}.

Definition demo_begin : list CommandLabel :=
  [CStart 0 7%N demo_command 10; CWrite 0 true; CWrite 0 true; CLock 0 11; CWrite 0 true].

(** One command runs, one is canceled before its spawn. *)
Definition demo_race : list CommandLabel :=
  demo_begin ++ [CLock 0 12; CCancel 7%N 13; CRun 0 (Ok ("web", "r1"))].
Definition demo_end : list CommandLabel :=
  demo_race ++ [CWrite 0 true; CWrite 0 true; CLock 0 14; CLock 0 15].

Definition demo_at (ls : list CommandLabel) : CommandWorld :=
  default cmd_init (cmd_run ls cmd_init).

Lemma cmd_run_reach clean ls s s' :
  cmd_reach clean s → forallb (λ l, negb clean || negb (is_fault l)) ls = true →
  cmd_run ls s = Some s' → cmd_reach clean s'.
Proof.
  revert s. induction ls as [|l ls IH]; intros s HR Hf Hrun; simplify_eq/=; [done|].
  apply andb_true_iff in Hf as [Hl Hf]. apply bind_Some in Hrun as (s1 & Hs & Hrun).
  eapply IH; [|done|done]. eapply cmd_reach_step; [done| |done].
  intros ->. simpl in Hl. by apply negb_true_iff in Hl.
Qed.

Lemma cmd_at_reach clean ls :
  forallb (λ l, negb clean || negb (is_fault l)) ls && bool_decide (is_Some (cmd_run ls cmd_init))
    = true → cmd_reach clean (demo_at ls).
Proof.
  intros [Hf [s Hs]%bool_decide_eq_true]%andb_true_iff. unfold demo_at. rewrite Hs.
  eapply cmd_run_reach; [constructor|done|done].
Qed.

(** A client that disconnects before its first event leaves an operation that
    no task owns: from then on, whatever the manager does, the entry stays in the table and
    a command that reuses its request id is refused as busy. *)
Theorem failed_write_leaks_operation :
  ∃ s id, cmd_reach false s ∧ cs_tasks s = ∅ ∧
    ∀ s', rtc cmd_next s s' → is_Some (cs_ops s' !! id) ∧
      (∀ now, ∃ e, start id now (cs_ops s') = Err e ∧ err_code e = Busy).
Proof.
  exists (demo_at [CStart 0 7%N demo_command 10; CWrite 0 false]), 7%N. split; [|split].
  - by apply cmd_at_reach; vm_compute.
  - by vm_compute.
  - intros s' Hr. assert (orphan 7%N s') as [[e He] _].
    { eapply orphan_steps; [|done]. split; [by vm_compute; eexists|].
      intros t tk Ht. by vm_compute in Ht; destruct t. }
    rewrite He. split; [by eexists|]. intros now. unfold start. rewrite He. by eexists.
Qed.

Lemma cancel_spawn_race_witness :
  ∃ tk, cs_tasks (demo_at demo_race) !! 0%nat = Some tk ∧ ct_acked tk = false.
Proof.
  eexists. split; [vm_compute; reflexivity|].
  edestruct (cancel_spawn_race true (demo_at demo_race) 0) as [H _].
  - apply cmd_at_reach. vm_compute. reflexivity.
  - vm_compute. reflexivity.
  - apply H. vm_compute. reflexivity.
Defined.

Lemma command_event_order_witness :
  ∃ tk state, cs_tasks (demo_at demo_end) !! 0%nat = Some tk ∧ is_terminal state = true ∧
    ct_sent tk `prefix_of` events_before state ++ [terminal_event state] ∧ state = Succeeded.
Proof.
  edestruct (command_event_order true (demo_at demo_end) 0) as (state & H1 & H2 & H3).
  - apply cmd_at_reach. vm_compute. reflexivity.
  - vm_compute. reflexivity.
  - eexists _, state. split; [vm_compute; reflexivity|]. split; [exact H1|].
    split; [exact H2|]. symmetry. eapply H3. vm_compute. reflexivity.
Defined.

Lemma state_response_valid_witness :
  ∃ response, snapshot_running 7%N (cs_ops (demo_at demo_begin)) = Ok response ∧
    sr_stage response = "starting" ∧ validate response = Ok tt.
Proof.
  eexists. split; [vm_compute; reflexivity|]. split; [reflexivity|].
  eapply (state_response_valid true (demo_at demo_begin) 7%N).
  - apply cmd_at_reach. vm_compute. reflexivity.
  - reflexivity.
  - vm_compute. reflexivity.
Defined.

Lemma operations_drain_witness : cs_ops (demo_at (demo_end ++ [CPurge 0])) = ∅.
Proof.
  apply (operations_drain (demo_at (demo_end ++ [CPurge 0]))).
  - apply cmd_at_reach. vm_compute. reflexivity.
  - vm_compute. reflexivity.
Defined.
