(* ===== verification/LogBuffer.v ===== *)
(** * Service logs: the bounded event ring

    [service_supervisor/log_buffer.rs]: the ring that keeps the last bytes a runner
    printed, the snapshots taken from it (all events, or the last lines), and the loop
    that drains a child's output into it.  Shown: the ring holds exactly the last
    [max_bytes] bytes of everything pushed, each with its stream and timestamp; a tail by
    lines is the concatenation of the last lines. *)

From S2P Require Import Prelude.

Open Scope Z_scope.

Inductive ServiceLogStream := Stdout | Stderr.
#[export] Instance ServiceLogStream_eq_dec : EqDecision ServiceLogStream.
Proof. solve_decision. Defined.

Record ServiceLogEvent := {
  ev_stream : ServiceLogStream;
  ev_bytes : list byte;
  ev_timestamp_unix_ms : Z;
}.

Record BoundedLogEventBuffer := {
  lb_max_bytes : Z;
  lb_total_bytes : Z;
  lb_events : list ServiceLogEvent;
}.

Definition with_bytes (bs : list byte) (e : ServiceLogEvent) : ServiceLogEvent :=
  {| ev_stream := ev_stream e; ev_bytes := bs; ev_timestamp_unix_ms := ev_timestamp_unix_ms e |}.

(** ** Operations *)

Definition new_buffer (max_bytes : Z) : BoundedLogEventBuffer :=
  {| lb_max_bytes := Z.max max_bytes 1; lb_total_bytes := 0; lb_events := [] |}.

(** The loop of [evict_front_bytes] on [total_bytes] and [events]. *)
Fixpoint evict_front_bytes (bytes_to_evict total_bytes : Z) (events : list ServiceLogEvent)
    : Z * list ServiceLogEvent :=
  match events with
  | [] => (total_bytes, [])
  | front :: rest =>
    if 0 <? bytes_to_evict then
      let front_len := zlen (ev_bytes front) in
      if front_len <=? bytes_to_evict then
        evict_front_bytes (bytes_to_evict -ˢ front_len) (total_bytes -ˢ front_len) rest
      else
        (total_bytes -ˢ bytes_to_evict,
         with_bytes (drop (Z.to_nat bytes_to_evict) (ev_bytes front)) front :: rest)
    else (total_bytes, events)
  end.

Definition push_event (event : ServiceLogEvent) (b : BoundedLogEventBuffer)
    : BoundedLogEventBuffer :=
  match ev_bytes event with
  | [] => b
  | _ =>
    let len := zlen (ev_bytes event) in
    let event :=
      if lb_max_bytes b <? len then
        with_bytes (drop (Z.to_nat (len -ˢ lb_max_bytes b)) (ev_bytes event)) event
      else event in
    let total := lb_total_bytes b +ˢ zlen (ev_bytes event) in
    let events := lb_events b ++ [event] in
    let '(total, events) :=
      if lb_max_bytes b <? total
      then evict_front_bytes (total -ˢ lb_max_bytes b) total events
      else (total, events) in
    {| lb_max_bytes := lb_max_bytes b; lb_total_bytes := total; lb_events := events |}
  end.

Definition snapshot_events (b : BoundedLogEventBuffer) : list ServiceLogEvent := lb_events b.

Definition newline : byte := ascii_of_N 10.

(** One byte of the scan: the last line starts, their number, the position. *)
Definition tail_scan_step (total_bytes limit : Z) (st : list Z * Z * Z) (b : byte)
    : list Z * Z * Z :=
  let '(recent_line_starts, total_line_starts, index) := st in
  let '(recent_line_starts, total_line_starts) :=
    if bool_decide (b = newline) && (index + 1 <? total_bytes) then
      let recent := recent_line_starts ++ [index + 1] in
      (if limit <? zlen recent then tail recent else recent, total_line_starts +ˢ 1)
    else (recent_line_starts, total_line_starts) in
  (recent_line_starts, total_line_starts, index +ˢ 1).

Definition compute_tail_start_offset_by_lines (events : list ServiceLogEvent)
    (total_bytes tail_lines : Z) : Z :=
  if (tail_lines =? 0) || (total_bytes =? 0) then total_bytes
  else
    let limit := Z.max (Z.min tail_lines (total_bytes +ˢ 1)) 1 in
    let '(recent, total_line_starts, _) :=
      foldl (λ st e, foldl (tail_scan_step total_bytes limit) st (ev_bytes e)) ([0], 1, 0) events in
    if total_line_starts <=? tail_lines then 0 else default 0 (head recent).

Fixpoint materialize_loop (events : list ServiceLogEvent) (offset remaining : Z) : list byte :=
  match events with
  | [] => []
  | e :: events =>
    if remaining =? 0 then []
    else
      let len := zlen (ev_bytes e) in
      if len <=? offset then materialize_loop events (offset -ˢ len) remaining
      else
        let take_len := Z.min (len -ˢ offset) remaining in
        take (Z.to_nat take_len) (drop (Z.to_nat offset) (ev_bytes e)) ++
        materialize_loop events 0 (remaining -ˢ take_len)
  end.

Definition materialize_bytes_from_offset (events : list ServiceLogEvent) (offset remaining : Z)
    : list byte :=
  if remaining =? 0 then [] else materialize_loop events offset remaining.

Fixpoint slice_loop (events : list ServiceLogEvent) (offset remaining : Z)
    : list ServiceLogEvent :=
  match events with
  | [] => []
  | e :: events =>
    if remaining =? 0 then []
    else
      let len := zlen (ev_bytes e) in
      if len <=? offset then slice_loop events (offset -ˢ len) remaining
      else
        let take_len := Z.min (len -ˢ offset) remaining in
        (if 0 <? take_len
         then [with_bytes (take (Z.to_nat take_len) (drop (Z.to_nat offset) (ev_bytes e))) e]
         else []) ++
        slice_loop events 0 (remaining -ˢ take_len)
  end.

Definition slice_events_from_offset (events : list ServiceLogEvent) (offset remaining : Z)
    : list ServiceLogEvent :=
  if remaining =? 0 then [] else slice_loop events offset remaining.

Definition tail_snapshot_events (b : BoundedLogEventBuffer) (tail_lines : Z)
    : list ServiceLogEvent :=
  let start :=
    compute_tail_start_offset_by_lines (lb_events b) (lb_total_bytes b) tail_lines in
  slice_events_from_offset (lb_events b) start (lb_total_bytes b -ˢ start).

Definition tail_snapshot_bytes (b : BoundedLogEventBuffer) (tail_lines : Z) : list byte :=
  let start :=
    compute_tail_start_offset_by_lines (lb_events b) (lb_total_bytes b) tail_lines in
  materialize_bytes_from_offset (lb_events b) start (lb_total_bytes b -ˢ start).

Definition total_bytes_for_events (events : list ServiceLogEvent) : Z :=
  foldl (λ acc e, acc + zlen (ev_bytes e)) 0 events.

Definition tail_snapshot_events_from_events (events : list ServiceLogEvent) (tail_lines : Z)
    : list ServiceLogEvent :=
  let total := total_bytes_for_events events in
  let start := compute_tail_start_offset_by_lines events total tail_lines in
  slice_events_from_offset events start (total -ˢ start).

Definition tail_snapshot_bytes_from_events (events : list ServiceLogEvent) (tail_lines : Z)
    : list byte :=
  let total := total_bytes_for_events events in
  let start := compute_tail_start_offset_by_lines events total tail_lines in
  materialize_bytes_from_offset events start (total -ˢ start).

(** The drain task: [reads] is what the child's stream yields, [None] an I/O error, each
    read with its time.  The second component is what was broadcast. *)
Fixpoint log_drain (stream : ServiceLogStream) (reads : list (option (list byte) * Z))
    (b : BoundedLogEventBuffer) : BoundedLogEventBuffer * list ServiceLogEvent :=
  match reads with
  | (Some ((_ :: _) as chunk), now) :: reads =>
    let event :=
      {| ev_stream := stream; ev_bytes := chunk; ev_timestamp_unix_ms := now |} in
    let '(b, sent) := log_drain stream reads (push_event event b) in
    (b, event :: sent)
  | _ => (b, [])
  end.

(** ** Reference definitions *)

(** Every byte with the stream and the time it came from. *)
Definition tag (e : ServiceLogEvent) : list (ServiceLogStream * Z * byte) :=
  (λ c, (ev_stream e, ev_timestamp_unix_ms e, c)) <$> ev_bytes e.
Definition tagged (events : list ServiceLogEvent) : list (ServiceLogStream * Z * byte) :=
  events ≫= tag.
Definition flat (events : list ServiceLogEvent) : list byte := events ≫= ev_bytes.

Arguments tagged : simpl never.
Arguments flat : simpl never.

(** The lines of a text, each with its newline; the last may lack one. *)
Fixpoint lines (bs : list byte) : list (list byte) :=
  match bs with
  | [] => []
  | c :: bs =>
    if decide (c = newline) then [c] :: lines bs
    else match lines bs with [] => [[c]] | l :: ls => (c :: l) :: ls end
  end.

Definition push_all (events : list ServiceLogEvent) (b : BoundedLogEventBuffer)
    : BoundedLogEventBuffer := foldl (λ b e, push_event e b) b events.

Record buffer_ok (b : BoundedLogEventBuffer) : Prop := {
  bo_max : 1 ≤ lb_max_bytes b < 2 ^ 63;
  bo_total : lb_total_bytes b = zlen (flat (lb_events b));
  bo_bound : lb_total_bytes b ≤ lb_max_bytes b;
}.

(** ** Lemmas *)

Lemma length_tag e : length (tag e) = length (ev_bytes e).
Proof. unfold tag. by rewrite length_fmap. Qed.

Lemma tag_with_bytes_drop n e : tag (with_bytes (drop n (ev_bytes e)) e) = drop n (tag e).
Proof. unfold tag. simpl. by rewrite fmap_drop. Qed.

Lemma flat_tagged events : flat events = snd <$> tagged events.
Proof.
  induction events as [|e events IH]; [done|]. unfold flat, tagged in *. csimpl.
  rewrite fmap_app, <-IH. f_equal. unfold tag. rewrite <-list_fmap_compose.
  symmetry. apply list_fmap_id.
Qed.

Lemma length_tagged events : length (tagged events) = length (flat events).
Proof. by rewrite flat_tagged, length_fmap. Qed.

Lemma tagged_cons e events : tagged (e :: events) = tag e ++ tagged events.
Proof. done. Qed.
Lemma tagged_app l k : tagged (l ++ k) = tagged l ++ tagged k.
Proof. apply bind_app. Qed.
Lemma tagged_single e : tagged [e] = tag e.
Proof. rewrite tagged_cons. apply app_nil_r. Qed.
Lemma flat_cons e events : flat (e :: events) = ev_bytes e ++ flat events.
Proof. done. Qed.
#[local] Hint Rewrite tagged_cons tagged_app flat_cons length_tag @length_app : imago.

Lemma evict_front_bytes_spec events : ∀ k total,
  0 ≤ k → total = zlen (flat events) →
  let '(total', events') := evict_front_bytes k total events in
  tagged events' = drop (Z.to_nat k) (tagged events) ∧ total' = zlen (flat events').
Proof.
  induction events as [|e events IH]; intros k total Hk Ht; simpl.
  { split; [by destruct (Z.to_nat k)|done]. }
  rewrite flat_cons, zlen_app in Ht. pose proof (zlen_nonneg (flat events)).
  pose proof (zlen_nonneg (ev_bytes e)). destruct (Z.ltb_spec 0 k) as [Hpos|Hpos].
  2: { replace k with 0 by lia. rewrite drop_0, flat_cons, zlen_app. done. }
  destruct (Z.leb_spec (zlen (ev_bytes e)) k) as [Hle|Hlt].
  - specialize (IH (k -ˢ zlen (ev_bytes e)) (total -ˢ zlen (ev_bytes e))
      ltac:(ulia) ltac:(ulia)).
    destruct (evict_front_bytes _ _ _) as [t' es']. destruct IH as [-> ->]. split; [|done].
    rewrite tagged_cons, drop_app, (drop_ge (tag e)) by (rewrite length_tag; unfold zlen in *; lia).
    rewrite length_tag. simpl. f_equal. unfold zlen in *. ulia.
  - rewrite !tagged_cons, tag_with_bytes_drop, drop_app_le by (rewrite length_tag; unfold zlen in *; lia).
    split; [done|]. rewrite flat_cons, zlen_app. unfold zlen in *. simpl.
    rewrite length_drop. ulia.
Qed.

Lemma new_buffer_ok max_bytes : max_bytes < 2 ^ 63 → buffer_ok (new_buffer max_bytes).
Proof. intros. split; simpl; [lia|done|]. lia. Qed.

Lemma push_event_max e b : lb_max_bytes (push_event e b) = lb_max_bytes b.
Proof. unfold push_event. by repeat case_match. Qed.

(** Pushing appends to the history and keeps its last [max_bytes] bytes. *)
Lemma push_event_spec e b :
  buffer_ok b →
  buffer_ok (push_event e b) ∧
  tagged (lb_events (push_event e b)) =
    lastn (Z.to_nat (lb_max_bytes b)) (tagged (lb_events b) ++ tag e).
Proof.
  intros [Hmax Htot Hb]. unfold push_event. destruct (ev_bytes e) as [|c bs] eqn:Ebs.
  { split; [by split|]. unfold tag. rewrite Ebs, app_nil_r. symmetry. apply lastn_all.
    rewrite length_tagged. unfold zlen in *. lia. }
  rewrite <-Ebs. clear c bs Ebs. set (max := lb_max_bytes b) in *.
  set (e' := if max <? zlen (ev_bytes e) then _ else e).
  assert (tag e' = lastn (Z.to_nat max) (tag e) ∧ zlen (ev_bytes e') ≤ max) as [Htag Hlen'].
  { unfold e', zlen in *. destruct (Z.ltb_spec max (Z.of_nat (length (ev_bytes e)))) as [Hlt|Hge].
    - rewrite tag_with_bytes_drop. simpl. rewrite length_drop. unfold lastn.
      rewrite length_tag. split; [f_equal|]; ulia.
    - rewrite lastn_all; [done|rewrite length_tag; lia]. }
  clearbody e'. pose proof (zlen_nonneg (ev_bytes e')).
  assert (Ht : lb_total_bytes b +ˢ zlen (ev_bytes e') = zlen (flat (lb_events b ++ [e']))).
  { unfold flat in *. rewrite bind_app, zlen_app. csimpl. rewrite app_nil_r. ulia. }
  rewrite Ht. assert (Hall : tagged (lb_events b ++ [e']) = tagged (lb_events b) ++ tag e').
  { rewrite tagged_app, tagged_cons. by rewrite app_nil_r. }
  assert (Hgoal : lastn (Z.to_nat max) (tagged (lb_events b) ++ tag e') =
    lastn (Z.to_nat max) (tagged (lb_events b) ++ tag e)).
  { rewrite Htag. apply lastn_app_lastn_r. }
  assert (Hl : length (tagged (lb_events b ++ [e'])) = Z.to_nat (zlen (flat (lb_events b ++ [e'])))).
  { rewrite length_tagged. unfold zlen. lia. }
  destruct (Z.ltb_spec max (zlen (flat (lb_events b ++ [e'])))) as [Hlt|Hge].
  - pose proof (evict_front_bytes_spec (lb_events b ++ [e'])
      (zlen (flat (lb_events b ++ [e'])) -ˢ max) _ ltac:(ulia) eq_refl) as Hev.
    destruct (evict_front_bytes _ _ _) as [t' es']. destruct Hev as [Htg Htot'].
    assert (tagged es' = lastn (Z.to_nat max) (tagged (lb_events b) ++ tag e)) as Hes.
    { rewrite Htg, <-Hgoal, <-Hall. unfold lastn. f_equal. rewrite Hl. ulia. }
    split; [|done]. split; simpl; [done|done|]. rewrite Htot'. unfold zlen.
    rewrite <-length_tagged, Hes, length_lastn. lia.
  - split; [split; simpl; [done|done|lia]|]. simpl. rewrite <-Hgoal, <-Hall. symmetry.
    apply lastn_all. rewrite Hl. lia.
Qed.

Lemma push_all_spec events b :
  buffer_ok b →
  buffer_ok (push_all events b) ∧ lb_max_bytes (push_all events b) = lb_max_bytes b ∧
  tagged (lb_events (push_all events b)) =
    lastn (Z.to_nat (lb_max_bytes b)) (tagged (lb_events b) ++ tagged events).
Proof.
  unfold push_all. revert b. induction events as [|e events IH]; intros b Hb; simpl.
  - split_and!; [done|done|]. rewrite app_nil_r. symmetry. apply lastn_all.
    rewrite length_tagged. destruct Hb. unfold zlen in *. lia.
  - destruct (push_event_spec e b Hb) as [Hb' Ht]. destruct (IH _ Hb') as (? & Hm & Htg).
    rewrite Hm, Htg, push_event_max, Ht, lastn_app_lastn, tagged_cons, app_assoc. done.
Qed.

(** *** Slices *)

Lemma materialize_loop_spec events : ∀ offset remaining,
  0 ≤ offset → 0 ≤ remaining →
  materialize_loop events offset remaining =
    take (Z.to_nat remaining) (drop (Z.to_nat offset) (flat events)).
Proof.
  induction events as [|e events IH]; intros off rem Ho Hr; simpl.
  { unfold flat. simpl. by rewrite drop_nil, take_nil. }
  pose proof (zlen_nonneg (ev_bytes e)) as Hl. rewrite flat_cons.
  destruct (Z.eqb_spec rem 0) as [->|Hne]; [done|].
  destruct (Z.leb_spec (zlen (ev_bytes e)) off) as [Hle|Hlt].
  - rewrite IH by ulia. rewrite drop_app_ge by (unfold zlen in *; lia). do 2 f_equal.
    unfold zlen in *. ulia.
  - rewrite IH by ulia. rewrite drop_app_le by (unfold zlen in *; lia).
    rewrite take_app, length_drop, drop_0. unfold zlen in *. f_equal; [|f_equal; ulia].
    destruct (decide (Z.of_nat (length (ev_bytes e)) - off ≤ rem)).
    + rewrite !take_ge; [done|rewrite length_drop; ulia..].
    + f_equal. ulia.
Qed.

Lemma tag_with_bytes_slice n k e :
  tag (with_bytes (take n (drop k (ev_bytes e))) e) = take n (drop k (tag e)).
Proof. unfold tag. simpl. by rewrite fmap_take, fmap_drop. Qed.

Lemma slice_loop_spec events : ∀ offset remaining,
  0 ≤ offset → 0 ≤ remaining →
  tagged (slice_loop events offset remaining) =
    take (Z.to_nat remaining) (drop (Z.to_nat offset) (tagged events)).
Proof.
  induction events as [|e events IH]; intros off rem Ho Hr; simpl.
  { unfold tagged. simpl. by rewrite drop_nil, take_nil. }
  pose proof (zlen_nonneg (ev_bytes e)) as Hl. rewrite tagged_cons.
  destruct (Z.eqb_spec rem 0) as [->|Hne]; [done|].
  destruct (Z.leb_spec (zlen (ev_bytes e)) off) as [Hle|Hlt].
  - rewrite IH by ulia. rewrite drop_app_ge by (rewrite length_tag; unfold zlen in *; lia).
    do 2 f_equal. rewrite length_tag. unfold zlen in *. ulia.
  - destruct (Z.ltb_spec 0 (Z.min (zlen (ev_bytes e) -ˢ off) rem)); [|ulia].
    rewrite tagged_app, tagged_single, tag_with_bytes_slice.
    rewrite IH by ulia. rewrite drop_app_le by (rewrite length_tag; unfold zlen in *; lia).
    rewrite take_app, length_drop, length_tag, drop_0. unfold zlen in *.
    f_equal; [|f_equal; ulia].
    destruct (decide (Z.of_nat (length (ev_bytes e)) - off ≤ rem)).
    + rewrite !take_ge; [done|rewrite length_drop, length_tag; ulia..].
    + f_equal. ulia.
Qed.

(** From an offset to the end. *)
Lemma materialize_to_end events offset :
  0 ≤ offset →
  materialize_bytes_from_offset events offset (zlen (flat events) -ˢ offset) =
    drop (Z.to_nat offset) (flat events).
Proof.
  intros Ho. unfold materialize_bytes_from_offset.
  destruct (Z.eqb_spec (zlen (flat events) -ˢ offset) 0) as [E|E].
  - rewrite drop_ge; [done|]. unfold zlen in *. ulia.
  - rewrite materialize_loop_spec by ulia. apply take_ge. rewrite length_drop.
    unfold zlen in *. ulia.
Qed.

Lemma slice_to_end events offset :
  0 ≤ offset →
  tagged (slice_events_from_offset events offset (zlen (flat events) -ˢ offset)) =
    drop (Z.to_nat offset) (tagged events).
Proof.
  intros Ho. unfold slice_events_from_offset.
  destruct (Z.eqb_spec (zlen (flat events) -ˢ offset) 0) as [E|E].
  - rewrite drop_ge; [done|]. rewrite length_tagged. unfold zlen in *. ulia.
  - rewrite slice_loop_spec by ulia. apply take_ge. rewrite length_drop, length_tagged.
    unfold zlen in *. ulia.
Qed.

(** *** Line starts *)

(** The starts of the lines after the first one, for text that begins at [i]. *)
Fixpoint line_starts (i : Z) (bs : list byte) : list Z :=
  match bs with
  | [] | [_] => []
  | c :: bs => (if decide (c = newline) then [i + 1] else []) ++ line_starts (i + 1) bs
  end.

Lemma tail_scan_step_eq total limit recent count i c :
  0 ≤ i < total → total ≤ u64_max → 0 ≤ count ≤ i + 1 → 1 ≤ limit → zlen recent ≤ limit →
  tail_scan_step total limit (recent, count, i) c =
    if decide (c = newline ∧ i + 1 < total)
    then (lastn (Z.to_nat limit) (recent ++ [i + 1]), count + 1, i + 1)
    else (recent, count, i + 1).
Proof.
  intros Hi Hmax Hc Hlim Hrec. unfold tail_scan_step. replace (i +ˢ 1) with (i + 1) by ulia.
  destruct (decide (c = newline ∧ i + 1 < total)) as [[-> Hlt]|Hn].
  - rewrite bool_decide_true, (proj2 (Z.ltb_lt _ _) Hlt) by done. simpl.
    replace (count +ˢ 1) with (count + 1) by ulia. do 2 f_equal.
    rewrite zlen_app, zlen_cons, zlen_nil.
    destruct (Z.ltb_spec limit (zlen recent + (1 + 0))) as [Hgt|Hle].
    + replace limit with (zlen recent) by lia. unfold lastn, zlen.
      rewrite Nat2Z.id, length_app. simpl. replace (_ + 1 - _)%nat with 1%nat by lia.
      by destruct (recent ++ [i + 1]).
    + rewrite lastn_all; [done|]. rewrite length_app. simpl. unfold zlen in *. lia.
  - destruct (bool_decide_reflect (c = newline)) as [->|?]; [|done].
    destruct (Z.ltb_spec (i + 1) total); [|done]. by destruct Hn.
Qed.

Lemma line_starts_cons i c bs :
  line_starts i (c :: bs) =
    (if decide (c = newline ∧ bs ≠ []) then [i + 1] else []) ++ line_starts (i + 1) bs.
Proof.
  destruct bs as [|c' bs]; simpl.
  - by rewrite decide_False by naive_solver.
  - by destruct (decide (c = newline)), (decide (c = newline ∧ _)); try naive_solver.
Qed.

Lemma tail_scan_spec total limit bs : ∀ recent count i,
  1 ≤ limit → 0 ≤ i → i + zlen bs = total → total ≤ u64_max → 0 ≤ count ≤ i + 1 →
  zlen recent ≤ limit →
  foldl (tail_scan_step total limit) (recent, count, i) bs =
    (lastn (Z.to_nat limit) (recent ++ line_starts i bs), count + zlen (line_starts i bs), total).
Proof.
  induction bs as [|c bs IH]; intros recent count i Hlim Hi Htot Hmax Hc Hrec.
  { simpl. rewrite app_nil_r, lastn_all by (unfold zlen in *; lia). autorewrite with imago in *.
    repeat f_equal; lia. }
  autorewrite with imago in Htot. pose proof (zlen_nonneg bs). cbn [foldl].
  rewrite tail_scan_step_eq, line_starts_cons by lia.
  assert (i + 1 < total ↔ bs ≠ []) as Hbs.
  { destruct bs; autorewrite with imago in *; [split; [lia|done]|].
    pose proof (zlen_nonneg bs). split; [done|lia]. }
  destruct (decide (c = newline ∧ i + 1 < total)) as [Hd|Hd].
  - rewrite decide_True by tauto. rewrite IH; try lia.
    + rewrite lastn_app_lastn, !zlen_app, zlen_cons, zlen_nil, <-!app_assoc.
      f_equal. f_equal. lia.
    + unfold zlen. rewrite length_lastn. lia.
  - rewrite decide_False by tauto. rewrite IH by lia. done.
Qed.

(** Line [k] starts at the [k]-th recorded position. *)
Lemma line_starts_lines bs : bs ≠ [] → ∀ i,
  length (lines bs) = S (length (line_starts i bs)) ∧
  ∀ k s, (i :: line_starts i bs) !! k = Some s →
    i ≤ s ∧ drop (Z.to_nat (s - i)) bs = concat (drop k (lines bs)).
Proof.
  assert (Hconcat : ∀ l, concat (lines l) = l).
  { induction l as [|c l IH]; [done|]. simpl. case_decide; simpl; [by rewrite IH|].
    destruct (lines l) as [|x ls]; simpl in *; by rewrite <-IH. }
  induction bs as [|c bs IH]; intros Hne i; [done|].
  destruct (decide (bs = [])) as [->|Hbs].
  { simpl. case_decide; (split; [done|]); intros [|k] s Hs; simplify_eq/=;
      rewrite Z.sub_diag; done. }
  destruct (IH Hbs (i + 1)) as [Hlen Hk]. rewrite line_starts_cons. cbn [lines].
  destruct (decide (c = newline)) as [->|Hc].
  - rewrite decide_True by done. split; [simpl; by rewrite Hlen|].
    intros [|k] s Hs; simplify_eq/=.
    + rewrite Z.sub_diag. simpl. split; [lia|]. by rewrite Hconcat.
    + destruct (Hk k s Hs) as [Hle Hd]. split; [lia|]. rewrite <-Hd.
      by replace (Z.to_nat (s - i)) with (S (Z.to_nat (s - (i + 1)))) by lia.
  - rewrite decide_False by naive_solver. destruct (lines bs) as [|x ls] eqn:Hl; [done|].
    split; [done|]. intros [|k] s Hs; simplify_eq/=.
    + rewrite Z.sub_diag. simpl. split; [lia|]. rewrite <-(Hconcat bs), Hl. done.
    + destruct (Hk (S k) s Hs) as [Hle Hd]. split; [lia|]. simpl in Hd. rewrite <-Hd.
      by replace (Z.to_nat (s - i)) with (S (Z.to_nat (s - (i + 1)))) by lia.
Qed.

Lemma foldl_events {A} (f : A → byte → A) (events : list ServiceLogEvent) : ∀ st,
  foldl (λ st e, foldl f st (ev_bytes e)) st events = foldl f st (flat events).
Proof.
  induction events as [|e events IH]; intros st; [done|]. rewrite flat_cons, foldl_app.
  simpl. apply IH.
Qed.

(** The offset found is where the last [tail_lines] lines begin. *)
Lemma tail_start_offset_spec events tail_lines :
  0 ≤ tail_lines → zlen (flat events) ≤ u64_max →
  let off := compute_tail_start_offset_by_lines events (zlen (flat events)) tail_lines in
  0 ≤ off ∧ drop (Z.to_nat off) (flat events) =
    concat (lastn (Z.to_nat tail_lines) (lines (flat events))).
Proof.
  intros Hn Hmax. unfold compute_tail_start_offset_by_lines. pose proof (zlen_nonneg (flat events)).
  destruct (Z.eqb_spec tail_lines 0) as [->|Hn0].
  { simpl. split; [done|]. unfold lastn, zlen. rewrite !drop_ge by lia. done. }
  destruct (Z.eqb_spec (zlen (flat events)) 0) as [E|E]; simpl.
  { destruct (flat events) as [|c bs]; [|rewrite zlen_cons in E; pose proof (zlen_nonneg bs); lia].
    split; [done|]. unfold lastn. by rewrite !drop_nil. }
  set (limit := Z.max _ 1). assert (1 ≤ limit) by lia. 
  rewrite foldl_events, tail_scan_spec by (rewrite ?zlen_cons, ?zlen_nil; lia).
  assert (Hne : flat events ≠ []) by (intros Hnil; rewrite Hnil in E; done).
  destruct (line_starts_lines _ Hne 0) as [Hlen Hk].
  assert (length (lines (flat events)) ≤ length (flat events))%nat as Hle.
  { clear. induction (flat events) as [|c l IH]; simpl; [lia|].
    case_decide; simpl; [lia|]. destruct (lines l); simpl in *; lia. }
  destruct (Z.leb_spec (1 + zlen (line_starts 0 (flat events))) tail_lines) as [Hall|Hsome].
  - split; [done|]. rewrite lastn_all by (unfold zlen in *; lia).
    destruct (Hk 0%nat 0 eq_refl) as [_ Hd]. by rewrite Z.sub_0_r in Hd.
  - replace limit with tail_lines by (unfold limit, zlen in *; ulia).
    unfold lastn at 1 2 3. rewrite head_lookup, lookup_drop, Nat.add_0_r.
    destruct (([0] ++ line_starts 0 (flat events)) !! _) as [s|] eqn:Hs.
    + destruct (Hk _ _ Hs) as [Hs0 Hd]. split; [done|]. simpl. rewrite Z.sub_0_r in Hd.
      rewrite Hd. unfold lastn. do 2 f_equal. simpl. lia.
    + apply lookup_ge_None in Hs. simpl in Hs. unfold zlen in *. lia.
Qed.

Lemma total_bytes_for_events_flat events : total_bytes_for_events events = zlen (flat events).
Proof.
  unfold total_bytes_for_events. cut (∀ z, foldl (λ acc e, acc + zlen (ev_bytes e)) z events =
    z + zlen (flat events)); [intros H; by rewrite H|].
  induction events as [|e events IH]; intros z; simpl; [unfold flat, zlen; simpl; lia|].
  rewrite IH, flat_cons, zlen_app. lia.
Qed.

(** The tail computed from retained events agrees with the tail of a
    ring that holds them. *)
Lemma retained_tail_agrees b tail_lines :
  buffer_ok b →
  tail_snapshot_bytes_from_events (snapshot_events b) tail_lines =
    tail_snapshot_bytes b tail_lines ∧
  tail_snapshot_events_from_events (snapshot_events b) tail_lines =
    tail_snapshot_events b tail_lines.
Proof.
  intros Hb. unfold tail_snapshot_bytes_from_events, tail_snapshot_events_from_events,
    snapshot_events. by rewrite total_bytes_for_events_flat, <-(bo_total b Hb).
Qed.

(** Everything read from the child before an error or the end of the stream is pushed and
    broadcast, in order. *)
Lemma log_drain_spec stream reads b :
  let '(b', sent) := log_drain stream reads b in
  b' = push_all sent b ∧ Forall (λ e, ev_stream e = stream ∧ ev_bytes e ≠ []) sent ∧
  (λ e, (Some (ev_bytes e), ev_timestamp_unix_ms e)) <$> sent `prefix_of` reads.
Proof.
  revert b. induction reads as [|[[[|c bs]|] now] reads IH]; intros b; simpl;
    try (split_and!; [done|done|apply prefix_nil]).
  specialize (IH (push_event {| ev_stream := stream; ev_bytes := c :: bs;
    ev_timestamp_unix_ms := now |} b)).
  destruct (log_drain _ _ _) as [b' sent]. destruct IH as (-> & Hf & Hp).
  split_and!; [done|by constructor|]. by apply prefix_cons.
Qed.

(** ** Theorems *)

(** C26 (functional).  However the output of a service is cut into events, and whichever
    stream each came from, the ring holds exactly the last [max_bytes] bytes pushed, each
    with the stream and timestamp it arrived with, and its counter is their number. *)
Theorem log_ring_keeps_last_bytes max_bytes events :
  max_bytes < 2 ^ 63 →
  let b := push_all events (new_buffer max_bytes) in
  tagged (snapshot_events b) = lastn (Z.to_nat (Z.max max_bytes 1)) (tagged events) ∧
  lb_total_bytes b = zlen (flat (snapshot_events b)) ∧ lb_total_bytes b ≤ Z.max max_bytes 1.
Proof.
  intros Hm b. destruct (push_all_spec events _ (new_buffer_ok max_bytes Hm)) as (Hb & Hmax & Ht).
  fold b in Hb, Hmax, Ht. split_and!; [apply Ht|apply Hb|].
  rewrite <-(eq_refl : lb_max_bytes (new_buffer max_bytes) = Z.max max_bytes 1), <-Hmax. apply Hb.
Qed.

(** A tail of a ring by lines, as bytes or as events, is the last
    [tail_lines] lines of its text; the events carry the streams and timestamps of a suffix
    of the ring. *)
Theorem tail_is_last_lines b tail_lines :
  buffer_ok b → 0 ≤ tail_lines →
  let last := concat (lastn (Z.to_nat tail_lines) (lines (flat (snapshot_events b)))) in
  tail_snapshot_bytes b tail_lines = last ∧
  flat (tail_snapshot_events b tail_lines) = last ∧
  tagged (tail_snapshot_events b tail_lines) `suffix_of` tagged (snapshot_events b).
Proof.
  intros [Hmax Htot Hb] Hn. unfold tail_snapshot_bytes, tail_snapshot_events, snapshot_events.
  rewrite !Htot. destruct (tail_start_offset_spec (lb_events b) tail_lines Hn) as [H0 Hd]; [ulia|].
  rewrite materialize_to_end, (flat_tagged (slice_events_from_offset _ _ _)), slice_to_end,
    fmap_drop, <-flat_tagged by done.
  split_and!; [done|done|]. eexists. symmetry. apply take_drop.
Qed.

Definition demo_log : list ServiceLogEvent :=
  [{| ev_stream := Stdout; ev_bytes := bytes_of "hello" ++ [newline] ++ bytes_of "wor";
      ev_timestamp_unix_ms := 1 |};
   {| ev_stream := Stderr; ev_bytes := bytes_of "ld" ++ [newline];
      ev_timestamp_unix_ms := 2 |};
   {| ev_stream := Stdout; ev_bytes := bytes_of "bye"; ev_timestamp_unix_ms := 3 |}].

Definition demo_ring : BoundedLogEventBuffer := push_all demo_log (new_buffer 12).

Lemma demo_ring_ok : buffer_ok demo_ring.
Proof. apply push_all_spec, new_buffer_ok. lia. Qed.

Lemma log_ring_keeps_last_bytes_witness :
  flat (snapshot_events demo_ring) =
    bytes_of "lo" ++ [newline] ++ bytes_of "world" ++ [newline] ++ bytes_of "bye" ∧
  tagged (snapshot_events demo_ring) = lastn 12 (tagged demo_log).
Proof.
  split; [vm_compute; reflexivity|].
  exact (proj1 (log_ring_keeps_last_bytes 12 demo_log ltac:(lia))).
Defined.

Lemma tail_is_last_lines_witness :
  tail_snapshot_bytes demo_ring 2 = bytes_of "world" ++ [newline] ++ bytes_of "bye" ∧
  tail_snapshot_bytes demo_ring 2 =
    concat (lastn 2 (lines (flat (snapshot_events demo_ring)))).
Proof.
  split; [vm_compute; reflexivity|].
  exact (proj1 (tail_is_last_lines demo_ring 2 demo_ring_ok ltac:(lia))).
Defined.
