(* ===== verification/RetainedStore.v ===== *)
(** * Service logs: the file-backed store of stopped services

    [service_supervisor/retained_file_store.rs]: one CBOR file per service in
    [<storage_root>/runtime/retained-logs], replaced by a rename, an index rebuilt at
    start, the oldest snapshots evicted when the directory outgrows its capacity.  Every
    path of the module is [retained_dir] joined with one file name, so the directory is a
    map from names to nodes.  Each operation takes an [Io]: the clock, the random UUID and
    the faults the operating system reports during that call. *)

From S2P Require Import Prelude Protocol LogBuffer.

Open Scope Z_scope.

Record StoredEvent := {
  se_stream : ServiceLogStream;
  se_timestamp_unix_ms : Z;
  se_bytes : list byte;
}.

Record StoredRetainedLog := {
  sl_version : Z;
  sl_service_name : string;
  sl_events : list StoredEvent;
}.

Definition STORED_RETAINED_LOG_VERSION : Z := 1.

Record RetainedFileEntry := {
  re_service_name : string;
  re_file : string;
  re_file_size_bytes : Z;
  re_updated_at_unix_ms : Z;
}.

Record RetainedFileLogStore := {
  rs_capacity_bytes : Z;
  rs_total_bytes : Z;
  rs_entries : gmap string RetainedFileEntry;
}.

(** ** The directory and the operating system *)

Inductive node := NFile (content : list byte) (mtime_ms : Z) | NDir.
Abbreviation Dir := (gmap string node).

Inductive IoOp :=
  | OpCreateDir | OpReadDir | OpReadEntry | OpRead | OpStat | OpWrite | OpRename | OpRemove.

(** [io_fault op file] is the error reported for [op] on [file], other than a missing
    file; [io_partial] is what a failing write has put on disk; [io_listing] is the order
    in which [read_dir] lists the names. *)
Record Io := {
  io_fault : IoOp → string → option string;
  io_partial : option nat;
  io_listing : list string;
  io_now_ms : Z;
  io_uuid : N;
}.

Definition retained_store_error (message : string) : ImagodError :=
  new_error Internal "service.logs" message.

(** The call succeeds, or the error becomes the error of the operation. *)
Definition io_ok (io : Io) (op : IoOp) (file what : string) : iresult unit :=
  match io_fault io op file with
  | None => Ok tt
  | Some err => Err (retained_store_error (what +:+ file +:+ ": " +:+ err)%string)
  end.

(** ** File names *)

(** Split at the last dot. *)
Fixpoint rsplit_dot (s : string) : option (string * string) :=
  match s with
  | EmptyString => None
  | String c s =>
    match rsplit_dot s with
    | Some (a, b) => Some (String c a, b)
    | None => if decide (c = "."%char) then Some (EmptyString, s) else None
    end
  end.

(** [Path::extension] and [Path::file_stem] of a file name: a name whose only dot comes
    first has no extension. *)
Definition extension (file : string) : option string :=
  match rsplit_dot file with Some (EmptyString, _) | None => None | Some (_, ext) => Some ext end.
Definition file_stem (file : string) : string :=
  match rsplit_dot file with
  | Some (EmptyString, _) | None => file
  | Some (stem, _) => stem
  end.

Definition is_retained_store_file (d : Dir) (file : string) : bool :=
  match d !! file with
  | Some (NFile _ _) => bool_decide (extension file = Some "cbor"%string)
  | _ => false
  end.

Definition stored_service_name (stored : StoredRetainedLog) (file : string) : option string :=
  if is_blank (sl_service_name stored) then
    '(legacy_name, _) ← rsplit_dot (file_stem file);
    if is_blank legacy_name then None else Some legacy_name
  else Some (sl_service_name stored).

(** Continuation bytes of UTF-8 do not begin a character. *)
Definition is_continuation (c : ascii) : bool := (128 <=? code c)%N && (code c <=? 191)%N.

Definition sanitize (s : string) : string :=
  string_of_bytes (omap (λ c,
    if is_continuation c then None
    else Some (if is_ascii_alphanumeric c || bool_decide (c = "-"%char)
                  || bool_decide (c = "_"%char)
               then c else "_"%char)) (bytes_of s)).

Section store.
Context `{Crates} (to_cbor : StoredRetainedLog → result string (list byte))
  (from_cbor : list byte → result string StoredRetainedLog).

Definition stable_service_file_stem (service_name : string) : string :=
  let component := sanitize service_name in
  let component := if bool_decide (component = "") then "service"%string else component in
  let component := substring 0 48 component in
  (component +:+ "." +:+ substring 0 16 (sha256_hex (bytes_of service_name)))%string.

Definition file_path_for (service_name : string) : string :=
  (stable_service_file_stem service_name +:+ ".cbor")%string.

(** [simple()] prints the UUID without hyphens. *)
Definition uuid_simple (u : N) : string :=
  string_of_bytes (filter (λ c, c ≠ "-"%char) (bytes_of (uuid_to_string u))).

Definition tmp_path_for (io : Io) (service_name : string) : string :=
  ("." +:+ stable_service_file_stem service_name +:+ ".tmp-" +:+ uuid_simple (io_uuid io)
   +:+ ".cbor")%string.

(** ** Operations *)

Definition with_entries (total : Z) (entries : gmap string RetainedFileEntry)
    (st : RetainedFileLogStore) : RetainedFileLogStore :=
  {| rs_capacity_bytes := rs_capacity_bytes st; rs_total_bytes := total; rs_entries := entries |}.

Definition service_names (st : RetainedFileLogStore) : list string := btree_keys (rs_entries st).

(** Temporary files of an interrupted update are removed at start. *)
Fixpoint remove_temporaries (io : Io) (listing : list string) (d : Dir) : Dir * iresult unit :=
  match listing with
  | [] => (d, Ok tt)
  | file :: listing =>
    match io_ok io OpReadEntry file "failed to read entry in retained logs dir " with
    | Err e => (d, Err e)
    | Ok _ =>
      if str_contains ".tmp-" file then
        match io_ok io OpRemove file "failed to remove temporary retained log file " with
        | Err e => (d, Err e)
        | Ok _ => remove_temporaries io listing (delete file d)
        end
      else remove_temporaries io listing d
    end
  end.

Definition initialize_retained_dir (io : Io) (d : Dir) : Dir * iresult unit :=
  match (io_ok io OpCreateDir "" "failed to create retained logs dir ";;
         io_ok io OpReadDir "" "failed to read retained logs dir ") with
  | Err e => (d, Err e)
  | Ok _ => remove_temporaries io (io_listing io) d
  end.

Definition modified_or_now (io : Io) (mtime_ms : Z) : Z :=
  if bool_decide (in_u64 mtime_ms) then mtime_ms else io_now_ms io.

(** The failure of [remove_file] on an unreadable file is ignored. *)
Definition try_remove (io : Io) (file : string) (d : Dir) : Dir :=
  if bool_decide (io_fault io OpRemove file = None) then delete file d else d.

(** One file of the directory enters the index; a file that cannot be decoded is removed. *)
Definition index_file (io : Io) (file : string) (d : Dir) (st : RetainedFileLogStore)
    : Dir * RetainedFileLogStore * iresult unit :=
  match d !! file with
  | Some (NFile payload mtime) =>
    match io_ok io OpRead file "failed to read retained logs file " with
    | Err e => (d, st, Err e)
    | Ok _ =>
      match from_cbor payload with
      | Err _ => (try_remove io file d, st, Ok tt)
      | Ok stored =>
        if negb (sl_version stored =? STORED_RETAINED_LOG_VERSION)
        then (try_remove io file d, st, Ok tt)
        else
          match stored_service_name stored file with
          | None => (try_remove io file d, st, Ok tt)
          | Some name =>
            match io_ok io OpStat file "failed to stat retained logs file " with
            | Err e => (d, st, Err e)
            | Ok _ =>
              let entry := {| re_service_name := name; re_file := file;
                              re_file_size_bytes := zlen payload;
                              re_updated_at_unix_ms := modified_or_now io mtime |} in
              let total := match rs_entries st !! name with
                           | Some previous => rs_total_bytes st -ˢ re_file_size_bytes previous
                           | None => rs_total_bytes st
                           end in
              (d, with_entries (total +ˢ zlen payload) (<[name := entry]> (rs_entries st)) st, Ok tt)
            end
          end
      end
    end
  | _ => (d, st, Ok tt)
  end.

Fixpoint rebuild_loop (io : Io) (listing : list string) (d : Dir) (st : RetainedFileLogStore)
    : Dir * RetainedFileLogStore * iresult unit :=
  match listing with
  | [] => (d, st, Ok tt)
  | file :: listing =>
    match io_ok io OpReadEntry file "failed to read entry in retained logs dir " with
    | Err e => (d, st, Err e)
    | Ok _ =>
      if is_retained_store_file d file then
        match index_file io file d st with
        | (d, st, Err e) => (d, st, Err e)
        | (d, st, Ok _) => rebuild_loop io listing d st
        end
      else rebuild_loop io listing d st
    end
  end.

Definition rebuild_index_from_disk (io : Io) (listing : list string) (d : Dir)
    (st : RetainedFileLogStore) : Dir * RetainedFileLogStore * iresult unit :=
  match io_ok io OpReadDir "" "failed to read retained logs dir " with
  | Err e => (d, with_entries 0 ∅ st, Err e)
  | Ok _ => rebuild_loop io listing d (with_entries 0 ∅ st)
  end.

(** The order of [min_by]: by time, then by name. *)
Definition older (a b : RetainedFileEntry) : bool :=
  (re_updated_at_unix_ms a <? re_updated_at_unix_ms b) ||
  ((re_updated_at_unix_ms a =? re_updated_at_unix_ms b) &&
   String.ltb (re_service_name a) (re_service_name b)).

Definition oldest (entries : gmap string RetainedFileEntry)
    : option (string * RetainedFileEntry) :=
  foldl (λ best kv, match best with
                    | None => Some kv
                    | Some b => if older kv.2 b.2 then Some kv else Some b
                    end) None (btree_iter entries).

(** The loop of [evict_if_needed]; each round removes an entry, so [size entries] rounds
    suffice. *)
Fixpoint evict_loop (fuel : nat) (io : Io) (d : Dir) (st : RetainedFileLogStore)
    : Dir * RetainedFileLogStore * iresult unit :=
  match fuel with
  | O => (d, st, Ok tt)
  | S fuel =>
    if rs_capacity_bytes st <? rs_total_bytes st then
      match oldest (rs_entries st) with
      | None => (d, st, Ok tt)
      | Some (name, removed) =>
        let st := with_entries (rs_total_bytes st -ˢ re_file_size_bytes removed)
                    (delete name (rs_entries st)) st in
        match d !! re_file removed with
        | None => evict_loop fuel io d st
        | Some _ =>
          match io_ok io OpRemove (re_file removed) "failed to remove retained logs file " with
          | Err e => (d, st, Err e)
          | Ok _ => evict_loop fuel io (delete (re_file removed) d) st
          end
        end
      end
    else (d, st, Ok tt)
  end.

Definition evict_if_needed (io : Io) (d : Dir) (st : RetainedFileLogStore)
    : Dir * RetainedFileLogStore * iresult unit :=
  evict_loop (S (size (rs_entries st))) io d st.

(** [RetainedFileLogStore::new]: [listing] is the order of the second [read_dir]. *)
Definition new_retained (io : Io) (listing : list string) (capacity_bytes : Z) (d : Dir)
    : Dir * iresult RetainedFileLogStore :=
  match initialize_retained_dir io d with
  | (d, Err e) => (d, Err e)
  | (d, Ok _) =>
    let st := {| rs_capacity_bytes := Z.max capacity_bytes 1; rs_total_bytes := 0;
                 rs_entries := ∅ |} in
    match rebuild_index_from_disk io listing d st with
    | (d, _, Err e) => (d, Err e)
    | (d, st, Ok _) =>
      match evict_if_needed io d st with
      | (d, _, Err e) => (d, Err e)
      | (d, st, Ok _) => (d, Ok st)
      end
    end
  end.

Definition stored_of (service_name : string) (events : list ServiceLogEvent)
    : StoredRetainedLog :=
  {| sl_version := STORED_RETAINED_LOG_VERSION; sl_service_name := service_name;
     sl_events := (λ e, {| se_stream := ev_stream e;
                           se_timestamp_unix_ms := ev_timestamp_unix_ms e;
                           se_bytes := ev_bytes e |}) <$> events |}.

Definition events_of (stored : StoredRetainedLog) : list ServiceLogEvent :=
  (λ e, {| ev_stream := se_stream e; ev_bytes := se_bytes e;
           ev_timestamp_unix_ms := se_timestamp_unix_ms e |}) <$> sl_events stored.

(** The index after the file of [service_name] was replaced. *)
Definition index_update (io : Io) (service_name : string) (payload : list byte)
    (st : RetainedFileLogStore) : RetainedFileLogStore :=
  let total := match rs_entries st !! service_name with
               | Some previous => rs_total_bytes st -ˢ re_file_size_bytes previous
               | None => rs_total_bytes st
               end in
  with_entries (total +ˢ zlen payload)
    (<[service_name := {| re_service_name := service_name; re_file := file_path_for service_name;
                          re_file_size_bytes := zlen payload;
                          re_updated_at_unix_ms := io_now_ms io |}]>
       (delete service_name (rs_entries st))) st.

Definition upsert (io : Io) (service_name : string) (events : list ServiceLogEvent)
    (d : Dir) (st : RetainedFileLogStore) : Dir * RetainedFileLogStore * iresult unit :=
  let file := file_path_for service_name in
  let tmp := tmp_path_for io service_name in
  match map_err (λ err, retained_store_error
          ("failed to encode retained logs for service '" +:+ service_name +:+ "': " +:+ err)%string)
          (to_cbor (stored_of service_name events)) with
  | Err e => (d, st, Err e)
  | Ok payload =>
    match io_ok io OpCreateDir "" "failed to create retained logs dir " with
    | Err e => (d, st, Err e)
    | Ok _ =>
      match io_ok io OpWrite tmp "failed to write retained logs temp file " with
      | Err e =>
        (match io_partial io with
         | Some n => <[tmp := NFile (take n payload) (io_now_ms io)]> d
         | None => d
         end, st, Err e)
      | Ok _ =>
        let d := <[tmp := NFile payload (io_now_ms io)]> d in
        match io_ok io OpRename file "failed to replace retained logs file " with
        | Err e => (try_remove io tmp d, st, Err e)
        | Ok _ =>
          let d := <[file := NFile payload (io_now_ms io)]> (delete tmp d) in
          evict_if_needed io d (index_update io service_name payload st)
        end
      end
    end
  end.

Definition snapshot_retained (io : Io) (service_name : string) (d : Dir)
    (st : RetainedFileLogStore) : iresult (option (list ServiceLogEvent)) :=
  match rs_entries st !! service_name with
  | None => Ok None
  | Some entry =>
    match d !! re_file entry with
    | None => Ok None
    | Some NDir => Err (retained_store_error ("failed to read retained logs file " +:+ re_file entry)%string)
    | Some (NFile payload _) =>
      io_ok io OpRead (re_file entry) "failed to read retained logs file ";;
      stored ← map_err (λ err, retained_store_error
        ("failed to decode retained logs for service '" +:+ service_name +:+ "': " +:+ err)%string)
        (from_cbor payload);
      if sl_version stored =? STORED_RETAINED_LOG_VERSION then Ok (Some (events_of stored))
      else Err (retained_store_error
        ("unsupported retained logs version " +:+ to_string (sl_version stored) +:+
         " for service '" +:+ service_name +:+ "'")%string)
    end
  end.

End store.

(** ** Accounting *)

Definition sizes (entries : gmap string RetainedFileEntry) : Z :=
  map_fold (λ _ e acc, re_file_size_bytes e + acc) 0 entries.

Record accounted (st : RetainedFileLogStore) : Prop := {
  ac_total : rs_total_bytes st = sizes (rs_entries st);
  ac_capacity : 1 ≤ rs_capacity_bytes st;
  ac_entry k e : rs_entries st !! k = Some e →
    0 ≤ re_file_size_bytes e ∧ re_service_name e = k;
}.

Lemma sizes_empty : sizes ∅ = 0.
Proof. apply map_fold_empty. Qed.

Lemma sizes_delete entries k e :
  entries !! k = Some e → sizes entries = re_file_size_bytes e + sizes (delete k entries).
Proof.
  intros Hk. unfold sizes. rewrite <-(insert_delete_id entries k e) at 1 by done.
  rewrite map_fold_insert_L; [done| |apply lookup_delete_eq]. intros. lia.
Qed.

Lemma sizes_insert entries k e :
  entries !! k = None → sizes (<[k := e]> entries) = re_file_size_bytes e + sizes entries.
Proof. intros Hk. unfold sizes. rewrite map_fold_insert_L; [done| |done]. intros. lia. Qed.

Lemma sizes_nonneg (entries : gmap string RetainedFileEntry) :
  (∀ k e, entries !! k = Some e → 0 ≤ re_file_size_bytes e) → 0 ≤ sizes entries.
Proof.
  induction entries as [|k e m Hk IH] using map_ind; intros Hs; [by rewrite sizes_empty|].
  rewrite sizes_insert by done. pose proof (Hs k e (lookup_insert_eq _ _ _)).
  assert (0 ≤ sizes m); [|lia]. apply IH. intros k' e' Hk'. apply (Hs k').
  rewrite lookup_insert_ne; [done|]. congruence.
Qed.

(** ** The eviction order *)

Lemma string_ltb_leb s t : String.ltb s t = negb (String.leb t s).
Proof.
  unfold String.ltb, String.leb. rewrite (String.compare_antisym s t).
  by destruct (String.compare t s).
Qed.

Lemma string_ltb_trans s t u :
  String.ltb s t = true → String.ltb t u = true → String.ltb s u = true.
Proof.
  rewrite !string_ltb_leb, !negb_true_iff, <-!not_true_iff_false. intros Hts Hut Hus.
  apply Hut. eapply string_leb_trans; [exact Hus|].
  destruct (string_leb_total s t); [done|]. by destruct Hts.
Qed.

Lemma older_trans a b c : older a b = true → older b c = true → older a c = true.
Proof.
  unfold older. rewrite !orb_true_iff, !andb_true_iff, !Z.ltb_lt, !Z.eqb_eq.
  intros [?|[? ?]] [?|[? ?]]; try (left; lia). right. split; [lia|].
  by eapply string_ltb_trans.
Qed.

Lemma older_total a b :
  older a b = false → older b a = false →
  re_updated_at_unix_ms a = re_updated_at_unix_ms b ∧ re_service_name a = re_service_name b.
Proof.
  unfold older. rewrite !orb_false_iff, !andb_false_iff, !Z.ltb_ge, !Z.eqb_neq.
  intros [? [?|Ha]] [? [?|Hb]]; try lia. split; [lia|].
  rewrite string_ltb_leb, negb_false_iff in Ha, Hb. by apply String.leb_antisym.
Qed.

Lemma oldest_fold l : ∀ b : string * RetainedFileEntry,
  ∃ r, foldl (λ best kv, match best with
                    | None => Some kv
                    | Some b => if older kv.2 b.2 then Some kv else Some b
                    end) (Some b) l = Some r ∧
    r ∈ b :: l ∧ ∀ x, x ∈ b :: l → older x.2 r.2 = false.
Proof.
  assert (Hirr : ∀ e, older e e = false).
  { intros e. unfold older. rewrite Z.ltb_irrefl, string_ltb_leb.
    assert (String.leb (re_service_name e) (re_service_name e) = true) as ->.
    { by destruct (string_leb_total (re_service_name e) (re_service_name e)). }
    by rewrite andb_false_r. }
  induction l as [|x l IH]; intros b; simpl.
  { exists b. split_and!; [done|set_solver|]. intros ? ->%list_elem_of_singleton. apply Hirr. }
  assert (∃ b', (if older x.2 b.2 then Some x else Some b) = Some b' ∧ (b' = x ∨ b' = b) ∧
    older x.2 b'.2 = false ∧ older b.2 b'.2 = false) as (b' & -> & Hb' & Hx & Hb).
  { destruct (older x.2 b.2) eqn:E; eexists; split_and!; eauto.
    apply not_true_iff_false. intros E'. pose proof (older_trans _ _ _ E E') as Hc.
    by rewrite Hirr in Hc. }
  destruct (IH b') as (r & -> & Hin & Hmin). exists r. split; [done|]. split; [set_solver|].
  intros y [->|[->|Hy]%elem_of_cons]%elem_of_cons; [..|apply Hmin; set_solver].
  all: apply not_true_iff_false; intros E.
  all: assert (older b'.2 r.2 = false) as Hbr by (apply Hmin; set_solver).
  - destruct (older b'.2 b.2) eqn:E2; [by rewrite (older_trans _ _ _ E2 E) in Hbr|].
    destruct (older_total _ _ E2 Hb) as [E3 E4].
    unfold older in Hbr, E. rewrite E3, E4 in Hbr. congruence.
  - destruct (older b'.2 x.2) eqn:E2; [by rewrite (older_trans _ _ _ E2 E) in Hbr|].
    destruct (older_total _ _ E2 Hx) as [E3 E4].
    unfold older in Hbr, E. rewrite E3, E4 in Hbr. congruence.
Qed.

Lemma oldest_spec entries :
  match oldest entries with
  | None => entries = ∅
  | Some (k, e) => entries !! k = Some e ∧
      ∀ k' e', entries !! k' = Some e' → older e' e = false
  end.
Proof.
  unfold oldest. destruct (btree_iter entries) as [|kv l] eqn:El; simpl.
  - apply map_empty. intros k. apply eq_None_not_Some. intros [e He].
    apply elem_of_btree_iter in He. rewrite El in He. set_solver.
  - destruct (oldest_fold l kv) as ([k e] & -> & Hin & Hmin). rewrite <-El in Hin, Hmin.
    split; [by apply elem_of_btree_iter|]. intros k' e' Hk'. apply (Hmin (k', e')).
    by apply elem_of_btree_iter.
Qed.

(** [k] was in the index of [st] and is not in that of [st']. *)
Definition evicted (st st' : RetainedFileLogStore) (k : string) (e : RetainedFileEntry) : Prop :=
  rs_entries st !! k = Some e ∧ rs_entries st' !! k = None.

Record eviction (d : Dir) (st : RetainedFileLogStore) (d' : Dir) (st' : RetainedFileLogStore)
    (r : iresult unit) : Prop := {
  vi_accounted : accounted st';
  vi_capacity : rs_capacity_bytes st' = rs_capacity_bytes st;
  vi_subset : rs_entries st' ⊆ rs_entries st;
  vi_order k e k' e' : evicted st st' k e → rs_entries st' !! k' = Some e' → older e' e = false;
  vi_bound : r = Ok tt → rs_total_bytes st' ≤ rs_capacity_bytes st;
  vi_needed : (d' = d ∧ st' = st) ∨
    ∃ k e, evicted st st' k e ∧ (∀ k' e', evicted st st' k' e' → older e e' = false) ∧
      rs_capacity_bytes st < rs_total_bytes st' + re_file_size_bytes e;
  vi_files f : d' !! f = d !! f ∨ (d' !! f = None ∧ ∃ k e, evicted st st' k e ∧ re_file e = f);
  vi_removed k e : r = Ok tt → evicted st st' k e → d' !! re_file e = None;
}.

Lemma eviction_none d st :
  accounted st → rs_total_bytes st ≤ rs_capacity_bytes st → eviction d st d st (Ok tt).
Proof.
  intros Ha Ht. split; auto; unfold evicted; try naive_solver; intros; destruct_and!; congruence.
Qed.

Lemma accounted_evict st k e :
  accounted st → rs_entries st !! k = Some e →
  accounted (with_entries (rs_total_bytes st -ˢ re_file_size_bytes e)
    (delete k (rs_entries st)) st) ∧
  rs_total_bytes st -ˢ re_file_size_bytes e = rs_total_bytes st - re_file_size_bytes e.
Proof.
  intros [Ht Hc He] Hk. pose proof (sizes_delete _ _ _ Hk) as Hd.
  assert (0 ≤ sizes (delete k (rs_entries st))) as H0.
  { apply sizes_nonneg. intros k' e' [_ H']%lookup_delete_Some. by apply (He k'). }
  split; [|ulia]. split; simpl; [ulia|done|]. intros k' e' [_ H']%lookup_delete_Some. by apply He.
Qed.

(** One round, then an eviction from there. *)
Lemma eviction_step d st k e d1 d' st' r :
  accounted st → rs_capacity_bytes st < rs_total_bytes st →
  rs_entries st !! k = Some e → (∀ k' e', rs_entries st !! k' = Some e' → older e' e = false) →
  d1 !! re_file e = None → (∀ f, f ≠ re_file e → d1 !! f = d !! f) →
  eviction d1 (with_entries (rs_total_bytes st -ˢ re_file_size_bytes e)
    (delete k (rs_entries st)) st) d' st' r →
  eviction d st d' st' r.
Proof.
  intros Ha Hlt Hk Hmin Hd1 Hd [Va Vc Vs Vo Vb Vn Vf Vr].
  destruct (accounted_evict st k e Ha Hk) as [_ Hsub]. rewrite Hsub in *. clear Hsub.
  assert (Hnone : rs_entries st' !! k = None).
  { apply eq_None_not_Some. intros [x Hx]. eapply lookup_weaken in Hx; [|exact Vs].
    simpl in Hx. by rewrite lookup_delete_eq in Hx. }
  assert (Hev : ∀ k0 e0, evicted st st' k0 e0 → (k0 = k ∧ e0 = e) ∨
    evicted (with_entries (rs_total_bytes st - re_file_size_bytes e)
      (delete k (rs_entries st)) st) st' k0 e0).
  { intros k0 e0 [H1 H2]. destruct (decide (k0 = k)) as [->|Hne]; [left; naive_solver|right].
    split; [|done]. simpl. by rewrite lookup_delete_ne. }
  assert (Hev' : ∀ k0 e0, evicted (with_entries (rs_total_bytes st - re_file_size_bytes e)
      (delete k (rs_entries st)) st) st' k0 e0 → evicted st st' k0 e0).
  { intros k0 e0 [H1 H2]. simpl in H1. apply lookup_delete_Some in H1 as [_ H1]. by split. }
  split; try done.
  - etrans; [exact Vs|]. apply delete_subseteq.
  - intros k0 e0 k' e' [[-> ->]|H0]%Hev H'; [|by eapply Vo].
    apply (Hmin k'). eapply lookup_weaken; [exact H'|]. etrans; [exact Vs|]. apply delete_subseteq.
  - right. destruct Vn as [[-> ->]|(k0 & e0 & H0 & Hlast & Hc)].
    + exists k, e. split; [done|]. split; [|simpl; lia].
      intros k' e' [[-> ->]|[H1 H2]]%Hev; [by apply (Hmin k)|]. simpl in H1, H2. congruence.
    + exists k0, e0. split; [auto|]. split; [|done].
      intros k' e' [[-> ->]|H']%Hev; [|by eapply Hlast].
      apply (Hmin k0). destruct (Hev' _ _ H0). done.
  - intros f. destruct (Vf f) as [E|[E (k0 & e0 & H0 & Hf)]]; [|by eauto 10].
    destruct (decide (f = re_file e)) as [->|Hne]; [|left; by rewrite E, Hd].
    right. split; [congruence|]. by exists k, e.
  - intros k0 e0 Hr [[-> ->]|H0]%Hev; [|by eapply Vr].
    destruct (Vf (re_file e)) as [E|[E _]]; congruence.
Qed.

(** The index entry is gone although its file could not be removed. *)
Lemma eviction_fail d st k e err :
  accounted st → rs_capacity_bytes st < rs_total_bytes st →
  rs_entries st !! k = Some e → (∀ k' e', rs_entries st !! k' = Some e' → older e' e = false) →
  eviction d st d (with_entries (rs_total_bytes st -ˢ re_file_size_bytes e)
    (delete k (rs_entries st)) st) (Err err).
Proof.
  intros Ha Hlt Hk Hmin. destruct (accounted_evict st k e Ha Hk) as [Ha' Hsub].
  split; unfold evicted; simpl; try done.
  - apply delete_subseteq.
  - intros k0 e0 k' e' [H0 [?|Hd]%lookup_delete_None] [_ H']%lookup_delete_Some; [|congruence].
    simplify_eq. by apply (Hmin k').
  - right. exists k, e. split; [split; [done|apply lookup_delete_eq]|]. split; [|lia].
    intros k' e' [H' [<-|H2]%lookup_delete_None]; [|congruence]. simplify_eq. by apply (Hmin k).
  - by left.
Qed.

Lemma evict_loop_fuel io : ∀ fuel fuel' d st,
  (size (rs_entries st) < fuel)%nat → (size (rs_entries st) < fuel')%nat →
  evict_loop fuel io d st = evict_loop fuel' io d st.
Proof.
  induction fuel as [|fuel IH]; intros fuel' d st Hf Hf'; [lia|].
  destruct fuel' as [|fuel']; [lia|]. simpl. destruct (_ <? _); [|done].
  pose proof (oldest_spec (rs_entries st)) as Ho.
  destruct (oldest (rs_entries st)) as [[name e]|]; [|done]. destruct Ho as [Ho _].
  assert (size (delete name (rs_entries st)) = (size (rs_entries st) - 1)%nat) as Hs
    by (rewrite map_size_delete_Some by eauto; lia).
  assert (size (rs_entries st) ≠ 0)%nat as Hne
    by (intros Hz%map_size_empty_inv; by rewrite Hz, lookup_empty in Ho).
  destruct (d !! re_file e); [case_match; [|done]|]; apply IH; simpl; lia.
Qed.

Lemma evict_loop_spec fuel io : ∀ d st,
  accounted st → (size (rs_entries st) < fuel)%nat →
  let '(d', st', r) := evict_loop fuel io d st in eviction d st d' st' r.
Proof.
  induction fuel as [|fuel IH]; intros d st Ha Hf; [lia|]. simpl.
  destruct (Z.ltb_spec (rs_capacity_bytes st) (rs_total_bytes st)) as [Hlt|Hge];
    [|by apply eviction_none].
  pose proof (oldest_spec (rs_entries st)) as Hold.
  destruct (oldest (rs_entries st)) as [[k e]|].
  2: { destruct Ha as [Ht Hc _]. rewrite Ht, Hold, sizes_empty in Hlt. lia. }
  destruct Hold as [Hk Hmin]. destruct (accounted_evict st k e Ha Hk) as [Ha' _].
  assert (size (delete k (rs_entries st)) < fuel)%nat as Hf'.
  { pose proof (map_size_delete_Some k (rs_entries st) ltac:(eauto)).
    assert (size (rs_entries st) ≠ 0)%nat; [|lia].
    intros E%map_size_empty_inv. by rewrite E in Hk. }
  destruct (d !! re_file e) eqn:Hfile.
  - destruct (io_ok io OpRemove (re_file e) _) as [u|err] eqn:Hio.
    + specialize (IH (delete (re_file e) d) _ Ha' Hf').
      destruct (evict_loop _ _ _ _) as [[d' st'] r].
      eapply (eviction_step d st k e (delete (re_file e) d)); try done.
      * apply lookup_delete_eq.
      * intros f Hne. by rewrite lookup_delete_ne.
    + by apply eviction_fail.
  - specialize (IH d _ Ha' Hf'). destruct (evict_loop _ _ _ _) as [[d' st'] r].
    by eapply (eviction_step d st k e d).
Qed.

(** ** The index and the directory *)

Section disk.
Context `{Crates} (to_cbor : StoredRetainedLog → result string (list byte))
  (from_cbor : list byte → result string StoredRetainedLog).

(** [file] is a snapshot of service [k] that the index accepts. *)
Definition snapshot_file (d : Dir) (file k : string) (payload : list byte)
    (stored : StoredRetainedLog) : Prop :=
  (∃ mtime, d !! file = Some (NFile payload mtime)) ∧ extension file = Some "cbor"%string ∧
  from_cbor payload = Ok stored ∧ sl_version stored = STORED_RETAINED_LOG_VERSION ∧
  stored_service_name stored file = Some k.

(** Every snapshot on disk lies at the path of its service: true of a directory that only
    [upsert] has written. *)
Definition canonical (d : Dir) : Prop := ∀ file k payload stored,
  snapshot_file d file k payload stored → file = file_path_for k.

Definition indexed_files (d : Dir) (st : RetainedFileLogStore) : Prop := ∀ k e,
  rs_entries st !! k = Some e →
  re_file e = file_path_for k ∧ ∃ payload stored,
    snapshot_file d (re_file e) k payload stored ∧ re_file_size_bytes e = zlen payload.

(** What [snapshot_events] answers for an indexed service when the read succeeds. *)
Lemma snapshot_indexed d st io k e payload stored :
  rs_entries st !! k = Some e → snapshot_file d (re_file e) k payload stored →
  io_fault io OpRead (re_file e) = None →
  snapshot_retained from_cbor io k d st = Ok (Some (events_of stored)).
Proof.
  intros He ([mtime Hf] & _ & Hc & Hv & _) Hio. unfold snapshot_retained.
  rewrite He, Hf. unfold io_ok. rewrite Hio. simpl. rewrite Hc. simpl. by rewrite Hv.
Qed.

Lemma events_of_stored name events : events_of (stored_of name events) = events.
Proof.
  unfold events_of, stored_of. simpl. rewrite <-list_fmap_compose.
  rewrite (list_fmap_ext _ id); [apply list_fmap_id|]. by intros ? [] _.
Qed.

(** *** Names *)

Lemma rsplit_dot_app s e : (∀ c, c ∈ bytes_of e → c ≠ "."%char) →
  rsplit_dot (s +:+ "." +:+ e)%string = Some (s, e).
Proof.
  intros He. assert (rsplit_dot e = None) as Hn.
  { clear s. induction e as [|c e IH]; [done|]. simpl. rewrite IH by set_solver.
    rewrite decide_False; [done|]. set_solver. }
  induction s as [|c s IH]; simpl.
  - change (("" +:+ e)%string) with e. by rewrite Hn.
  - by rewrite IH.
Qed.

Lemma extension_file_path k : extension (file_path_for k) = Some "cbor"%string.
Proof.
  unfold extension, file_path_for. rewrite (rsplit_dot_app _ "cbor") by (simpl; set_solver).
  unfold stable_service_file_stem. by destruct (substring _ _ _).
Qed.

Lemma sanitize_no_dot s c r : sanitize s = String c r → c ≠ "."%char.
Proof.
  intros E. assert (c ∈ bytes_of (sanitize s)) as Hc by (rewrite E; set_solver).
  unfold sanitize, bytes_of, string_of_bytes in Hc.
  rewrite String.list_ascii_of_string_of_list_ascii in Hc.
  apply list_elem_of_omap in Hc as (x & _ & Hx). destruct (is_continuation x); simplify_eq/=.
  case_match eqn:Ho; simplify_eq; [|done]. intros ->. by vm_compute in Ho.
Qed.

(** The temporary name begins with a dot, a snapshot's never does. *)
Lemma tmp_not_file io name k : tmp_path_for io name ≠ file_path_for k.
Proof.
  assert (∃ c r, file_path_for k = String c r ∧ c ≠ "."%char) as (c & r & -> & Hc).
  { unfold file_path_for, stable_service_file_stem. destruct (sanitize k) as [|c r] eqn:Ek.
    - by eexists _, _.
    - eexists c, _. split; [done|]. by apply (sanitize_no_dot k c r). }
  intros Heq. injection Heq as Hd _. congruence.
Qed.

(** *** Updates *)

Lemma snapshot_file_ne d d' file k payload stored :
  d' !! file = d !! file → snapshot_file d file k payload stored →
  snapshot_file d' file k payload stored.
Proof. intros E ([m Hf] & ?). split; [|done]. exists m. by rewrite E. Qed.

Lemma indexed_evict d st d' st' r :
  indexed_files d st →
  (∀ k1 k2, is_Some (rs_entries st !! k1) → is_Some (rs_entries st !! k2) →
     file_path_for k1 = file_path_for k2 → k1 = k2) →
  eviction d st d' st' r → indexed_files d' st' ∧
  ∀ k e, rs_entries st' !! k = Some e → d' !! re_file e = d !! re_file e.
Proof.
  intros Hi Hinj Hv. assert (Hsame : ∀ k e, rs_entries st' !! k = Some e →
    rs_entries st !! k = Some e ∧ d' !! re_file e = d !! re_file e).
  { intros k e He. pose proof (lookup_weaken _ _ _ _ He (vi_subset _ _ _ _ _ Hv)) as He0.
    split; [done|]. destruct (vi_files _ _ _ _ _ Hv (re_file e)) as [?|[Hn (k2 & e2 & [H2 H2'] & Hf)]];
      [done|]. destruct (Hi _ _ He0) as [Hp _], (Hi _ _ H2) as [Hp2 _].
    rewrite (Hinj k k2) in He; [congruence|by eauto|by eauto|]. congruence. }
  split; [|intros k e He; by destruct (Hsame k e He)]. intros k e He. destruct (Hsame k e He) as [He0 Hd].
  destruct (Hi k e He0) as (Hp & payload & stored & Hs & Hsz).
  split; [done|]. exists payload, stored. split; [by eapply snapshot_file_ne|done].
Qed.

Lemma accounted_put st name e :
  accounted st → 0 ≤ re_file_size_bytes e → re_service_name e = name →
  rs_total_bytes st + re_file_size_bytes e ≤ u64_max →
  let total := match rs_entries st !! name with
               | Some previous => rs_total_bytes st -ˢ re_file_size_bytes previous
               | None => rs_total_bytes st
               end +ˢ re_file_size_bytes e in
  accounted (with_entries total (<[name := e]> (rs_entries st)) st) ∧
  total ≤ rs_total_bytes st + re_file_size_bytes e.
Proof.
  intros [Ht Hc He] H0 Hname Hsat.
  assert (Hnn : 0 ≤ sizes (delete name (rs_entries st))).
  { apply sizes_nonneg. intros k x [_ Hk]%lookup_delete_Some. by apply (He k). }
  assert (Hsz : sizes (<[name := e]> (rs_entries st)) =
    re_file_size_bytes e + sizes (delete name (rs_entries st))).
  { rewrite <-insert_delete_eq. apply sizes_insert, lookup_delete_eq. }
  assert (match rs_entries st !! name with
          | Some previous => rs_total_bytes st -ˢ re_file_size_bytes previous
          | None => rs_total_bytes st
          end = sizes (delete name (rs_entries st)) ∧
          sizes (delete name (rs_entries st)) ≤ rs_total_bytes st) as [-> Hle].
  { destruct (rs_entries st !! name) as [p|] eqn:Hp.
    - pose proof (sizes_delete _ _ _ Hp). destruct (He _ _ Hp). split; ulia.
    - rewrite delete_id by done. split; lia. }
  split; [|ulia]. split; simpl; [ulia|done|].
  intros k x [[<- <-]|[_ Hk]]%lookup_insert_Some; [done|by apply He].
Qed.

Lemma accounted_update io name payload st :
  accounted st → rs_total_bytes st + zlen payload ≤ u64_max →
  accounted (index_update io name payload st).
Proof.
  intros Ha Hsat. unfold index_update. rewrite insert_delete_eq.
  apply (accounted_put st name {| re_service_name := name; re_file := file_path_for name;
    re_file_size_bytes := zlen payload; re_updated_at_unix_ms := io_now_ms io |}); try done.
  apply zlen_nonneg.
Qed.

(** No two of the services have the same file name: their names differ after cleaning, or
    the 64 bits of their digests do. *)
Definition distinct_files (names : gset string) : Prop := ∀ k1 k2,
  k1 ∈ names → k2 ∈ names → file_path_for k1 = file_path_for k2 → k1 = k2.

(** The directory and the index between the rename and the eviction. *)
Lemma indexed_update io name events payload d st :
  from_cbor payload = Ok (stored_of name events) → is_blank name = false →
  indexed_files d st → distinct_files ({[name]} ∪ dom (rs_entries st)) →
  indexed_files
    (<[file_path_for name := NFile payload (io_now_ms io)]> (delete (tmp_path_for io name) d))
    (index_update io name payload st) ∧
  ∀ k, k ≠ name → k ∈ dom (rs_entries st) →
    <[file_path_for name := NFile payload (io_now_ms io)]>
      (delete (tmp_path_for io name) d) !! file_path_for k = d !! file_path_for k.
Proof.
  intros Hc Hb Hi Hd. assert (Hother : ∀ k, k ≠ name → k ∈ dom (rs_entries st) →
    <[file_path_for name := NFile payload (io_now_ms io)]>
      (delete (tmp_path_for io name) d) !! file_path_for k = d !! file_path_for k).
  { intros k Hne Hk. rewrite lookup_insert_ne, lookup_delete_ne; [done|apply tmp_not_file|].
    intros E. apply Hne. apply Hd; set_solver. }
  split; [|done]. intros k e Hk. simpl in Hk.
  apply lookup_insert_Some in Hk as [[<- <-]|[Hne [_ Hk]%lookup_delete_Some]].
  - split; [done|]. exists payload, (stored_of name events). split; [|done].
    split_and!; simpl; [|apply extension_file_path|done|done|].
    + eexists. apply lookup_insert_eq.
    + unfold stored_service_name. simpl. by rewrite Hb.
  - destruct (Hi k e Hk) as (Hp & p2 & stored & Hs & Hsz). split; [done|].
    exists p2, stored. split; [|done]. eapply snapshot_file_ne; [|done]. rewrite Hp.
    apply Hother; [done|]. by apply elem_of_dom_2 in Hk.
Qed.

Lemma distinct_inj names (st : RetainedFileLogStore) :
  distinct_files names → dom (rs_entries st) ⊆ names →
  ∀ k1 k2, is_Some (rs_entries st !! k1) → is_Some (rs_entries st !! k2) →
     file_path_for k1 = file_path_for k2 → k1 = k2.
Proof. intros Hd Hs k1 k2 H1%elem_of_dom H2%elem_of_dom. apply Hd; set_solver. Qed.

(** A successful update, unfolded. *)
Lemma upsert_Ok io name events d st d' st' :
  upsert to_cbor io name events d st = (d', st', Ok tt) →
  ∃ payload, to_cbor (stored_of name events) = Ok payload ∧
    evict_if_needed io
      (<[file_path_for name := NFile payload (io_now_ms io)]> (delete (tmp_path_for io name)
         (<[tmp_path_for io name := NFile payload (io_now_ms io)]> d)))
      (index_update io name payload st) = (d', st', Ok tt).
Proof.
  unfold upsert. intros Hu. destruct (to_cbor _) as [payload|]; simpl in Hu; [|done].
  exists payload. split; [done|]. by repeat case_match; simplify_eq.
Qed.

(** The newest snapshot survives the eviction when it fits. *)
Lemma newest_survives d st d' st' r k e :
  accounted st → eviction d st d' st' r → rs_entries st !! k = Some e →
  (∀ k' e', k' ≠ k → rs_entries st !! k' = Some e' → older e' e = true) →
  re_file_size_bytes e ≤ rs_capacity_bytes st → rs_entries st' !! k = Some e.
Proof.
  intros Ha Hv Hk Hnew Hsz. pose proof (vi_subset _ _ _ _ _ Hv) as Hsub.
  destruct (rs_entries st' !! k) as [e'|] eqn:Hk'.
  { pose proof (lookup_weaken _ _ _ _ Hk' Hsub). congruence. }
  exfalso. assert (rs_entries st' = ∅) as Hempty.
  { apply map_empty. intros k2. apply eq_None_not_Some. intros [e2 H2].
    pose proof (vi_order _ _ _ _ _ Hv k e k2 e2 (conj Hk Hk') H2) as Ho.
    rewrite (Hnew k2 e2) in Ho; [done|congruence|by eapply lookup_weaken]. }
  destruct (vi_needed _ _ _ _ _ Hv) as [[_ ->]|(k0 & e0 & H0 & Hlast & Hc)]; [congruence|].
  rewrite (ac_total _ (vi_accounted _ _ _ _ _ Hv)), Hempty, sizes_empty in Hc.
  pose proof (Hlast k e (conj Hk Hk')) as Hl. destruct (decide (k0 = k)) as [->|Hne].
  - destruct H0. simplify_eq. lia.
  - destruct H0 as [H0 _]. by rewrite (Hnew k0 e0) in Hl.
Qed.

(** *** Restart *)

(** The bytes of the listed files. *)
Definition listed_bytes (d : Dir) (listing : list string) : Z :=
  foldr (λ f acc, match d !! f with Some (NFile c _) => zlen c + acc | _ => acc end) 0 listing.

Lemma listed_bytes_nonneg d listing : 0 ≤ listed_bytes d listing.
Proof.
  induction listing as [|f l IH]; simpl; [done|]. pose proof @zlen_nonneg.
  destruct (d !! f) as [[c m|]|]; [specialize (H0 _ c); lia|done|done].
Qed.

Lemma listed_bytes_mono d d' listing :
  (∀ f, d' !! f = d !! f ∨ d' !! f = None) → listed_bytes d' listing ≤ listed_bytes d listing.
Proof.
  intros Hd. induction listing as [|f l IH]; simpl; [done|].
  destruct (Hd f) as [->| ->]; [|pose proof @zlen_nonneg as Hz];
    destruct (d !! f) as [[c m|]|]; try specialize (Hz _ c); lia.
Qed.

Definition no_faults (io : Io) : Prop := ∀ op f, io_fault io op f = None.

Lemma io_ok_none io op f what : no_faults io → io_ok io op f what = Ok tt.
Proof. intros Hn. unfold io_ok. by rewrite Hn. Qed.

(** From [d, st] to [d', st'] by indexing files of at most [bytes] bytes in all. *)
Record indexing (d : Dir) (st : RetainedFileLogStore) (bytes : Z) (d' : Dir)
    (st' : RetainedFileLogStore) : Prop := {
  ix_accounted : accounted st';
  ix_files : indexed_files d' st';
  ix_capacity : rs_capacity_bytes st' = rs_capacity_bytes st;
  ix_total : rs_total_bytes st' ≤ rs_total_bytes st + bytes;
  ix_dir f : d' !! f = d !! f ∨ (d' !! f = None ∧ ∀ k p x, ~ snapshot_file d f k p x);
  ix_dom : dom (rs_entries st) ⊆ dom (rs_entries st');
}.

Lemma indexing_drop io file d st bytes :
  no_faults io → accounted st → indexed_files d st → 0 ≤ bytes →
  (∀ k p x, ~ snapshot_file d file k p x) → indexing d st bytes (try_remove io file d) st.
Proof.
  intros Hn Ha Hi Hb Hns. unfold try_remove. rewrite bool_decide_true by apply Hn.
  split; [done| |done|lia| |done].
  - intros k e Hk. destruct (Hi k e Hk) as (Hp & p & x & Hs & Hsz). split; [done|].
    exists p, x. split; [|done]. eapply snapshot_file_ne; [|done]. apply lookup_delete_ne.
    intros E. rewrite <-E in Hs. by eapply Hns.
  - intros f. destruct (decide (f = file)) as [->|?]; [right|left; by apply lookup_delete_ne].
    split; [apply lookup_delete_eq|done].
Qed.

Lemma indexing_add d st name e p x :
  accounted st → indexed_files d st → re_service_name e = name → re_file e = file_path_for name →
  snapshot_file d (re_file e) name p x → re_file_size_bytes e = zlen p →
  rs_total_bytes st + zlen p ≤ u64_max →
  indexing d st (zlen p) d (with_entries
    (match rs_entries st !! name with
     | Some previous => rs_total_bytes st -ˢ re_file_size_bytes previous
     | None => rs_total_bytes st
     end +ˢ zlen p) (<[name := e]> (rs_entries st)) st).
Proof.
  clear to_cbor. intros Ha Hi Hname Hfile Hs Hsz Hsat. pose proof (zlen_nonneg p).
  destruct (accounted_put st name e Ha) as [Ha' Hle]; [lia|done|lia|]. rewrite Hsz in Ha', Hle.
  split; simpl; [done| |done|done|by left|set_solver].
  intros k e' Hk. simpl in Hk. apply lookup_insert_Some in Hk as [[<- <-]|[_ Hk]]; [|by apply Hi].
  split; [done|]. by exists p, x.
Qed.

Lemma index_file_spec io file d st :
  no_faults io → canonical d → accounted st → indexed_files d st →
  rs_total_bytes st + listed_bytes d [file] ≤ u64_max →
  is_retained_store_file d file = true →
  ∃ d' st', index_file from_cbor io file d st = (d', st', Ok tt) ∧
    indexing d st (listed_bytes d [file]) d' st' ∧
    (∀ k p x, snapshot_file d file k p x → k ∈ dom (rs_entries st')).
Proof.
  intros Hn Hcan Ha Hi Hsat Hf. unfold is_retained_store_file in Hf. unfold index_file.
  simpl in Hsat. simpl listed_bytes. destruct (d !! file) as [[payload mtime|]|] eqn:Hd; try done.
  apply bool_decide_eq_true in Hf. rewrite io_ok_none, Z.add_0_r in * by done.
  assert (Hdrop : (∀ k p x, ~ snapshot_file d file k p x) →
    ∃ d' st', (try_remove io file d, st, @Ok ImagodError unit tt) = (d', st', Ok tt) ∧
    indexing d st (zlen payload) d' st' ∧
    (∀ k p x, snapshot_file d file k p x → k ∈ dom (rs_entries st'))).
  { intros Hns. eexists _, _. split; [done|]. split.
    - apply indexing_drop; try done. apply zlen_nonneg.
    - intros k p x Hs. by destruct (Hns k p x). }
  assert (Hat : ∀ k p x, snapshot_file d file k p x → from_cbor payload = Ok x ∧
    sl_version x = STORED_RETAINED_LOG_VERSION ∧ stored_service_name x file = Some k).
  { intros k p x ([m Hm] & _ & ?). by simplify_eq. }
  destruct (from_cbor payload) as [stored|] eqn:Hc;
    [|apply Hdrop; intros k p x (? & ? & ?)%Hat; congruence].
  destruct (Z.eqb_spec (sl_version stored) STORED_RETAINED_LOG_VERSION) as [Hv|Hv]; simpl;
    [|apply Hdrop; intros k p x (? & ? & ?)%Hat; congruence].
  destruct (stored_service_name stored file) as [name|] eqn:Hname;
    [|apply Hdrop; intros k p x (? & ? & ?)%Hat; congruence].
  clear Hdrop. rewrite io_ok_none by done.
  assert (snapshot_file d file name payload stored) as Hs by (split_and!; eauto).
  eexists _, _. split; [done|]. split.
  - eapply indexing_add; try done. simpl. by eapply Hcan.
  - clear to_cbor. intros k p x (? & ? & ?)%Hat. simplify_eq. simpl. set_solver.
Qed.

Lemma indexing_trans d st n d1 st1 n1 d2 st2 :
  indexing d st n d1 st1 → indexing d1 st1 n1 d2 st2 → indexing d st (n + n1) d2 st2.
Proof.
  intros [A1 F1 C1 T1 D1 M1] [A2 F2 C2 T2 D2 M2].
  split; [done|done|congruence|lia| |set_solver]. intros f.
  destruct (D2 f) as [E2|[E2 N2]], (D1 f) as [E1|[E1 N1]]; rewrite ?E2; auto.
  right. split; [done|]. intros k p x Hs. apply (N2 k p x). by eapply snapshot_file_ne.
Qed.

Lemma canonical_sub d d' :
  (∀ f, d' !! f = d !! f ∨ d' !! f = None) → canonical d → canonical d'.
Proof.
  intros Hd Hc f k p x Hs. destruct (Hd f) as [E|E].
  - eapply Hc. by eapply snapshot_file_ne.
  - destruct Hs as ([m Hm] & _). congruence.
Qed.

Lemma listed_bytes_cons d f l : listed_bytes d (f :: l) = listed_bytes d [f] + listed_bytes d l.
Proof. simpl. destruct (d !! f) as [[]|]; lia. Qed.

Lemma rebuild_loop_spec io listing : ∀ d st,
  no_faults io → canonical d → accounted st → indexed_files d st →
  rs_total_bytes st + listed_bytes d listing ≤ u64_max →
  ∃ d' st', rebuild_loop from_cbor io listing d st = (d', st', Ok tt) ∧
    indexing d st (listed_bytes d listing) d' st' ∧
    (∀ f k p x, f ∈ listing → snapshot_file d f k p x → k ∈ dom (rs_entries st')).
Proof.
  clear to_cbor. induction listing as [|f listing IH]; intros d st Hn Hcan Ha Hi Hsat.
  { eexists _, _. split; [done|]. split; [|set_solver]. split; try done; [simpl; lia|by left]. }
  rewrite listed_bytes_cons in *. pose proof (listed_bytes_nonneg d listing).
  pose proof (listed_bytes_nonneg d [f]). cbn [rebuild_loop]. rewrite io_ok_none by done.
  assert (∃ d1 st1, (if is_retained_store_file d f then
        match index_file from_cbor io f d st with
        | (d, st, Err e) => (d, st, Err e)
        | (d, st, Ok _) => rebuild_loop from_cbor io listing d st
        end else rebuild_loop from_cbor io listing d st) = rebuild_loop from_cbor io listing d1 st1 ∧
      indexing d st (listed_bytes d [f]) d1 st1 ∧
      ∀ k p x, snapshot_file d f k p x → k ∈ dom (rs_entries st1)) as (d1 & st1 & -> & Hix1 & Hin).
  { destruct (is_retained_store_file d f) eqn:Hf.
    - destruct (index_file_spec io f d st) as (d1 & st1 & -> & ? & ?); try done; [lia|]. eauto.
    - exists d, st. split; [done|]. split; [split; try done; [lia|by left]|].
      intros k p x ([m Hm] & Hext & _). unfold is_retained_store_file in Hf. rewrite Hm in Hf.
      by apply bool_decide_eq_false in Hf. }
  assert (Hsub : ∀ f0, d1 !! f0 = d !! f0 ∨ d1 !! f0 = None).
  { intros f0. destruct (ix_dir _ _ _ _ _ Hix1 f0) as [?|[? _]]; auto. }
  pose proof (listed_bytes_mono d d1 listing Hsub).
  destruct (IH d1 st1) as (d2 & st2 & -> & Hix2 & Hin2); try done; try apply Hix1.
  { by eapply canonical_sub. } { pose proof (ix_total _ _ _ _ _ Hix1). lia. }
  eexists _, _. split; [done|]. pose proof (indexing_trans _ _ _ _ _ _ _ _ Hix1 Hix2) as Hix3.
  split. { destruct Hix3. split; try done. lia. }
  intros f0 k p x [->|Hf0]%elem_of_cons Hs.
  - by eapply (ix_dom _ _ _ _ _ Hix2), Hin.
  - apply (Hin2 f0 k p x Hf0). eapply snapshot_file_ne; [|done].
    destruct (ix_dir _ _ _ _ _ Hix1 f0) as [?|[_ Hno]]; [done|]. by destruct (Hno k p x).
Qed.

Lemma remove_temporaries_spec io listing : ∀ d,
  no_faults io → ∃ d', remove_temporaries io listing d = (d', Ok tt) ∧
    ∀ f, d' !! f = d !! f ∨ (d' !! f = None ∧ str_contains ".tmp-" f = true).
Proof.
  induction listing as [|f l IH]; intros d Hn; simpl; [by eexists; eauto|].
  rewrite !io_ok_none by done. destruct (str_contains ".tmp-" f) eqn:Hf; [|by apply IH].
  destruct (IH (delete f d) Hn) as (d' & -> & Hd). exists d'. split; [done|]. intros f0.
  destruct (Hd f0) as [->|?]; [|by right]. destruct (decide (f0 = f)) as [->|?].
  - right. split; [apply lookup_delete_eq|done].
  - left. by apply lookup_delete_ne.
Qed.

(** The names of snapshots are never mistaken for temporary ones. *)
Lemma str_contains_skip a s :
  a ≠ "."%char → str_contains ".tmp-" (String a s) = str_contains ".tmp-" s.
Proof.
  intros Hn. simpl. unfold starts_with. simpl. by rewrite decide_False by congruence.
Qed.

Lemma str_contains_skip_all (p : string) s :
  all_chars (λ a, negb (bool_decide (a = "."%char))) p = true →
  str_contains ".tmp-" (p +:+ s)%string = str_contains ".tmp-" s.
Proof.
  unfold all_chars. induction p as [|a p IH]; [done|]. simpl bytes_of. simpl forallb.
  intros [Ha Hp]%andb_true_iff. change (String a p +:+ s)%string with (String a (p +:+ s)%string).
  rewrite str_contains_skip; [by apply IH|]. by apply negb_true_iff, bool_decide_eq_false in Ha.
Qed.

Lemma all_chars_substring f n m s : all_chars f s = true → all_chars f (substring n m s) = true.
Proof.
  unfold all_chars. revert n m. induction s as [|a s IH]; intros n m Hs.
  - by destruct n, m.
  - simpl in Hs. apply andb_true_iff in Hs as [Ha Hs]. destruct n, m; simpl; try by auto.
    rewrite Ha. simpl. auto.
Qed.

Lemma all_chars_impl (f g : ascii → bool) s :
  (∀ a, f a = true → g a = true) → all_chars f s = true → all_chars g s = true.
Proof.
  unfold all_chars. intros Hi. rewrite !forallb_forall. auto.
Qed.

Lemma file_path_not_tmp k :
  (∀ b, all_chars is_ascii_hexdigit (sha256_hex b) = true) →
  str_contains ".tmp-" (file_path_for k) = false.
Proof.
  intros Hhex. unfold file_path_for, stable_service_file_stem.
  rewrite <-!string_app_assoc, str_contains_skip_all.
  2: { apply all_chars_substring. case_bool_decide; [done|]. unfold all_chars.
       rewrite forallb_forall. intros c Hc. apply list_elem_of_In in Hc.
       unfold sanitize, bytes_of, string_of_bytes in Hc.
       rewrite String.list_ascii_of_string_of_list_ascii in Hc.
       apply list_elem_of_omap in Hc as (x & _ & Hx). destruct (is_continuation x); simplify_eq/=.
       case_match eqn:Ho; [|done]. apply negb_true_iff, bool_decide_eq_false. intros ->. done. }
  pose proof (all_chars_substring _ 0 16 _ (Hhex (bytes_of k))) as Hs.
  set (h := substring 0 16 _) in *. clearbody h.
  assert (starts_with ".tmp-" ("." +:+ h +:+ ".cbor")%string = false) as Hst.
  { unfold starts_with. destruct h as [|a h]; [done|]. simpl.
    case_decide as E; [|done]. subst a. done. }
  change (str_contains ".tmp-" ("." +:+ h +:+ ".cbor")%string) with
    (starts_with ".tmp-" ("." +:+ h +:+ ".cbor")%string ||
     str_contains ".tmp-" (h +:+ ".cbor")%string).
  rewrite Hst. simpl. rewrite str_contains_skip_all; [done|].
  eapply all_chars_impl; [|done]. intros a Ha. apply negb_true_iff, bool_decide_eq_false.
  by intros ->.
Qed.

(** C27 (roundtrip).  A snapshot that was stored is read back event for event as long as
    the index keeps it, which it does when it fits the capacity and is the newest; the
    snapshots of the other services that stay in the index are not disturbed, and the
    total is within the capacity. *)
Theorem retained_upsert_roundtrip io name events d st d' st' :
  (∀ x p, to_cbor x = Ok p → from_cbor p = Ok x) →
  accounted st → indexed_files d st → distinct_files ({[name]} ∪ dom (rs_entries st)) →
  is_blank name = false →
  upsert to_cbor io name events d st = (d', st', Ok tt) →
  (∀ payload, to_cbor (stored_of name events) = Ok payload →
     rs_total_bytes st + zlen payload ≤ u64_max) →
  accounted st' ∧ indexed_files d' st' ∧ rs_total_bytes st' ≤ rs_capacity_bytes st ∧
  (∀ io', name ∈ dom (rs_entries st') → (∀ f, io_fault io' OpRead f = None) →
     snapshot_retained from_cbor io' name d' st' = Ok (Some events)) ∧
  (∀ io' k, k ≠ name → k ∈ dom (rs_entries st') →
     snapshot_retained from_cbor io' k d' st' = snapshot_retained from_cbor io' k d st) ∧
  ((∀ payload, to_cbor (stored_of name events) = Ok payload → zlen payload ≤ rs_capacity_bytes st) →
   (∀ k e, rs_entries st !! k = Some e → re_updated_at_unix_ms e < io_now_ms io) →
   name ∈ dom (rs_entries st')).
Proof.
  intros Hcbor Ha Hi Hd Hb Hu Hsat. apply upsert_Ok in Hu as (payload & Hp & Hev).
  rewrite delete_insert_eq in Hev.
  destruct (indexed_update io name events payload d st (Hcbor _ _ Hp) Hb Hi Hd) as [Hi1 Hoth].
  pose proof (accounted_update io name payload st Ha (Hsat _ Hp)) as Ha1.
  pose proof (evict_loop_spec _ io (<[file_path_for name := NFile payload (io_now_ms io)]>
    (delete (tmp_path_for io name) d)) _ Ha1 (Nat.lt_succ_diag_r _)) as Hv.
  fold (evict_if_needed io (<[file_path_for name := NFile payload (io_now_ms io)]>
    (delete (tmp_path_for io name) d)) (index_update io name payload st)) in Hv.
  rewrite Hev in Hv. pose proof (vi_subset _ _ _ _ _ Hv) as Hsub.
  destruct (indexed_evict _ _ _ _ _ Hi1
    (distinct_inj _ (index_update io name payload st) Hd ltac:(simpl; set_solver)) Hv) as [Hi2 Hfile].
  split_and!; [apply Hv|done|by apply Hv|..].
  - intros io' [e He]%elem_of_dom Hio. destruct (Hi2 name e He) as (Hpath & p2 & stored & Hs & _).
    rewrite (snapshot_indexed d' st' io' name e p2 stored) by auto. do 2 f_equal.
    destruct Hs as ((m & Hf) & _ & Hc2 & _). rewrite (Hfile name e He), Hpath, lookup_insert_eq in Hf.
    simplify_eq. rewrite (Hcbor _ _ Hp) in Hc2. simplify_eq. apply events_of_stored.
  - intros io' k Hne [e He]%elem_of_dom. pose proof (lookup_weaken _ _ _ _ He Hsub) as He1.
    simpl in He1. apply lookup_insert_Some in He1 as [[? _]|[_ [_ He0]%lookup_delete_Some]]; [done|].
    destruct (Hi k e He0) as [Hpath _]. unfold snapshot_retained.
    rewrite He, He0, (Hfile k e He), Hpath, (Hoth k Hne) by (by apply elem_of_dom_2 in He0). done.
  - intros Hfit Hnew. eapply elem_of_dom_2. eapply newest_survives; [exact Ha1|exact Hv|..].
    + apply lookup_insert_eq.
    + intros k' e' Hne He'. simpl in He'.
      apply lookup_insert_Some in He' as [[? _]|[_ [_ He0]%lookup_delete_Some]]; [done|].
      unfold older. simpl. specialize (Hnew k' e' He0). apply orb_true_iff. left. lia.
    + simpl. by apply Hfit.
Qed.

(** A restart over a directory that only this store has written brings
    every snapshot back: the index is rebuilt, each service the previous process had
    indexed answers as before, whatever order the directory is listed in and whatever
    temporary files an interrupted update left. *)
Theorem retained_restart io listing capacity_bytes d st :
  (∀ b, all_chars is_ascii_hexdigit (sha256_hex b) = true) →
  no_faults io → canonical d → indexed_files d st →
  (∀ f, f ∈ dom d → f ∈ listing) →
  listed_bytes d listing ≤ Z.max capacity_bytes 1 ≤ u64_max →
  ∃ d' st', new_retained from_cbor io listing capacity_bytes d = (d', Ok st') ∧
    accounted st' ∧ indexed_files d' st' ∧
    ∀ k, k ∈ dom (rs_entries st) → k ∈ dom (rs_entries st') ∧
      ∀ io', snapshot_retained from_cbor io' k d' st' = snapshot_retained from_cbor io' k d st.
Proof.
  intros Hhex Hn Hcan Hi Hlist [Hfit Hmax]. unfold new_retained, initialize_retained_dir.
  rewrite !io_ok_none by done. simpl.
  destruct (remove_temporaries_spec io (io_listing io) d Hn) as (d1 & -> & Hd1).
  unfold rebuild_index_from_disk. rewrite io_ok_none by done.
  assert (Hsub : ∀ f, d1 !! f = d !! f ∨ d1 !! f = None) by (intros f; destruct (Hd1 f); naive_solver).
  pose proof (listed_bytes_mono d d1 listing Hsub).
  destruct (rebuild_loop_spec io listing d1 (with_entries 0 ∅ {| rs_capacity_bytes :=
    Z.max capacity_bytes 1; rs_total_bytes := 0; rs_entries := ∅ |})) as (d2 & st2 & -> & Hix & Hin);
    [done|by eapply canonical_sub| |done|simpl; lia|].
  { split; simpl; [by rewrite sizes_empty|lia|done]. }
  assert (rs_total_bytes st2 ≤ rs_capacity_bytes st2) as Hle.
  { rewrite (ix_capacity _ _ _ _ _ Hix). pose proof (ix_total _ _ _ _ _ Hix). simpl in *. lia. }
  unfold evict_if_needed. simpl. rewrite (proj2 (Z.ltb_ge _ _) Hle).
  exists d2, st2. split; [done|]. split; [apply Hix|]. split; [apply Hix|].
  intros k [e He]%elem_of_dom. destruct (Hi k e He) as (Hp & p & x & Hs & _).
  assert (d1 !! re_file e = d !! re_file e) as E1.
  { destruct (Hd1 (re_file e)) as [?|[_ Ht]]; [done|]. by rewrite Hp, file_path_not_tmp in Ht. }
  pose proof (snapshot_file_ne d d1 (re_file e) k p x E1 Hs) as Hs1.
  assert (k ∈ dom (rs_entries st2)) as Hk.
  { eapply Hin; [|exact Hs1]. apply Hlist. destruct Hs as ([m Hm] & _). by apply elem_of_dom_2 in Hm. }
  split; [done|]. intros io'. apply elem_of_dom in Hk as [e2 He2].
  destruct (ix_files _ _ _ _ _ Hix k e2 He2) as [Hp2 _].
  assert (d2 !! re_file e = d1 !! re_file e) as E2.
  { destruct (ix_dir _ _ _ _ _ Hix (re_file e)) as [?|[_ Hno]]; [done|]. by destruct (Hno k p x). }
  unfold snapshot_retained. by rewrite He, He2, Hp2, <-Hp, E2, E1.
Qed.

End disk.

(** Eviction terminates within as many rounds as the index has entries: a
    loop allowed more rounds computes the same.  It removes the oldest snapshots first and no more than needed, keeps the byte count exact, and,
    unless a file cannot be removed, leaves the total within the capacity and none of the
    evicted files on disk. *)
Theorem retained_eviction io d st d' st' r :
  accounted st → evict_if_needed io d st = (d', st', r) →
  (∀ fuel, (size (rs_entries st) < fuel)%nat → evict_loop fuel io d st = (d', st', r)) ∧
  accounted st' ∧ rs_entries st' ⊆ rs_entries st ∧
  (∀ k e k' e', evicted st st' k e → rs_entries st' !! k' = Some e' → older e' e = false) ∧
  (rs_entries st' = rs_entries st ∨ ∃ k e, evicted st st' k e ∧
     rs_capacity_bytes st < rs_total_bytes st' + re_file_size_bytes e) ∧
  (r = Ok tt → rs_total_bytes st' ≤ rs_capacity_bytes st ∧
     ∀ k e, evicted st st' k e → d' !! re_file e = None).
Proof.
  intros Ha He. pose proof (evict_loop_spec _ io d st Ha (Nat.lt_succ_diag_r _)) as Hv.
  fold (evict_if_needed io d st) in Hv. rewrite He in Hv.
  destruct Hv as [Va Vc Vs Vo Vb Vn Vf Vr]. split_and!; try done.
  - intros fuel Hfuel. rewrite <-He. apply evict_loop_fuel; [done|lia].
  - destruct Vn as [[_ ->]|(k & e & ? & _ & ?)]; [by left|right; by exists k, e].
  - intros ->. split; [auto|]. intros k e. by apply Vr.
Qed.

(** ** Concrete instances *)

#[export] Instance StoredRetainedLog_eq_dec : EqDecision StoredRetainedLog.
Proof.
  assert (EqDecision StoredEvent) by solve_decision. solve_decision.
Defined.

(** Hexadecimal text, the digits of a toy digest. *)
Definition hex_digit (n : N) : ascii := ascii_of_N (if (n <? 10)%N then 48 + n else 87 + n).
Definition hex_encode (bs : list byte) : string :=
  string_of_bytes (bs ≫= λ c, [hex_digit (code c / 16); hex_digit (code c mod 16)]).

Definition hex_crates : Crates :=
  {| sha256_hex := hex_encode; uuid_to_string := λ u, pretty u |}.

Lemma hex_encode_hex bs : all_chars is_ascii_hexdigit (hex_encode bs) = true.
Proof.
  assert (∀ n, (n < 16)%N → is_ascii_hexdigit (hex_digit n) = true) as Hd.
  { intros n Hn. rewrite <-(N2Nat.id n). assert (N.to_nat n < 16)%nat as Hm by lia.
    generalize dependent (N.to_nat n). intros m Hm. do 16 (destruct m as [|m]; [done|]). lia. }
  unfold all_chars, hex_encode, bytes_of, string_of_bytes.
  rewrite String.list_ascii_of_string_of_list_ascii. induction bs as [|c bs IH]; [done|].
  csimpl. rewrite IH. assert (code c < 256)%N by apply N_ascii_bounded.
  rewrite !Hd; [done|apply N.mod_lt; lia|].
  apply N.Div0.div_lt_upper_bound. lia.
Qed.

(** A codec for the values of a table. *)
Definition table_encode (t : list StoredRetainedLog) (x : StoredRetainedLog)
    : result string (list byte) :=
  match list_find (x =.) t with Some (i, _) => Ok (replicate i zero) | None => Err "x"%string end.
Definition table_decode (t : list StoredRetainedLog) (bs : list byte)
    : result string StoredRetainedLog := ok_or (t !! length bs) "x"%string.

Lemma table_roundtrip t x p : table_encode t x = Ok p → table_decode t p = Ok x.
Proof.
  unfold table_encode, table_decode. destruct (list_find _ t) as [[i y]|] eqn:E; [|done].
  intros [= <-]. apply list_find_Some in E as (Hi & -> & _). by rewrite length_replicate, Hi.
Qed.

Definition calm (now : Z) : Io :=
  {| io_fault := λ _ _, None; io_partial := None; io_listing := []; io_now_ms := now; io_uuid := 1 |}.

Definition legacy_log : StoredRetainedLog :=
  {| sl_version := 1; sl_service_name := "";
     sl_events := [{| se_stream := Stdout; se_timestamp_unix_ms := 5; se_bytes := bytes_of "old" |}] |}.
Definition demo_table : list StoredRetainedLog :=
  [stored_of "web" demo_log; stored_of "my.app" demo_log; legacy_log].

Definition empty_store (capacity : Z) : RetainedFileLogStore :=
  {| rs_capacity_bytes := capacity; rs_total_bytes := 0; rs_entries := ∅ |}.

Definition demo_upsert (name : string) (now : Z) (s : Dir * RetainedFileLogStore)
    : Dir * RetainedFileLogStore :=
  (upsert (H := hex_crates) (table_encode demo_table) (calm now) name demo_log s.1 s.2).1.

(** The directory and the index after a first snapshot. *)
Definition demo_stored : Dir * RetainedFileLogStore := demo_upsert "my.app" 7 (∅, empty_store 100).

Lemma empty_store_ok capacity : 1 ≤ capacity → accounted (empty_store capacity).
Proof. intros Hc. split; simpl; [by rewrite sizes_empty|done|done]. Qed.

Definition demo_file : string := file_path_for (H := hex_crates) "my.app".
Definition demo_entry : RetainedFileEntry :=
  {| re_service_name := "my.app"; re_file := demo_file; re_file_size_bytes := 1;
     re_updated_at_unix_ms := 7 |}.

Lemma demo_stored_eq : demo_stored = ({[demo_file := NFile [zero] 7]},
  {| rs_capacity_bytes := 100; rs_total_bytes := 1; rs_entries := {["my.app"%string := demo_entry]} |}).
Proof. vm_compute. reflexivity. Qed.

Lemma demo_stored_ok :
  accounted demo_stored.2 ∧ indexed_files (H := hex_crates) (table_decode demo_table)
    demo_stored.1 demo_stored.2.
Proof.
  rewrite demo_stored_eq. split.
  - split; simpl; [by vm_compute|done|]. by intros k e [<- <-]%lookup_singleton_Some.
  - intros k e Hk. simpl in Hk. apply lookup_singleton_Some in Hk as [<- <-]. split; [done|].
    exists [zero], (stored_of "my.app" demo_log). split; [|done].
    split_and!; [|by vm_compute..]. exists 7. apply lookup_singleton_eq.
Qed.

Lemma demo_web_encode : table_encode demo_table (stored_of "web" demo_log) = Ok [].
Proof. vm_compute. reflexivity. Qed.

Lemma retained_upsert_roundtrip_witness :
  (upsert (H := hex_crates) (table_encode demo_table) (calm 9) "web" demo_log
     demo_stored.1 demo_stored.2).2 = Ok tt ∧
  snapshot_retained (table_decode demo_table) (calm 9) "web"
    (demo_upsert "web" 9 demo_stored).1 (demo_upsert "web" 9 demo_stored).2 = Ok (Some demo_log).
Proof.
  split; [vm_compute; reflexivity|].
  edestruct (retained_upsert_roundtrip (H := hex_crates) (table_encode demo_table)
    (table_decode demo_table) (calm 9) "web" demo_log demo_stored.1 demo_stored.2
    (demo_upsert "web" 9 demo_stored).1 (demo_upsert "web" 9 demo_stored).2)
    as (_ & _ & _ & Hread & _ & Hkept).
  - apply table_roundtrip.
  - apply demo_stored_ok.
  - apply demo_stored_ok.
  - intros k1 k2. rewrite demo_stored_eq. simpl. rewrite dom_singleton.
    rewrite !elem_of_union, !elem_of_singleton. intros [->| ->] [->| ->]; vm_compute; congruence.
  - vm_compute. reflexivity.
  - vm_compute. reflexivity.
  - rewrite demo_web_encode. intros payload [= <-]. vm_compute. discriminate.
  - apply Hread; [|reflexivity]. apply Hkept.
    + rewrite demo_web_encode. intros payload [= <-]. vm_compute. discriminate.
    + intros k e. rewrite demo_stored_eq. simpl. intros [<- <-]%lookup_singleton_Some. reflexivity.
Defined.

Lemma retained_restart_witness :
  ∃ d' st', new_retained (table_decode demo_table) (calm 9) [demo_file] 100
    demo_stored.1 = (d', Ok st') ∧
  snapshot_retained (table_decode demo_table) (calm 9) "my.app" d' st' = Ok (Some demo_log).
Proof.
  edestruct (retained_restart (H := hex_crates) (table_decode demo_table) (calm 9)
    [demo_file] 100 demo_stored.1 demo_stored.2)
    as (d' & st' & Hnew & _ & _ & Hk).
  - apply hex_encode_hex.
  - intros op f. reflexivity.
  - intros f k p x ([m Hm] & _ & Hc & _ & Hs). rewrite demo_stored_eq in Hm.
    simpl in Hm. apply lookup_singleton_Some in Hm as [<- [= <- <-]]. vm_compute in Hc. injection Hc as <-.
    vm_compute in Hs. injection Hs as <-. reflexivity.
  - apply demo_stored_ok.
  - rewrite demo_stored_eq. simpl. set_solver.
  - vm_compute. split; discriminate.
  - exists d', st'. split; [exact Hnew|].
    rewrite (proj2 (Hk "my.app"%string ltac:(rewrite demo_stored_eq; simpl; set_solver))).
    vm_compute. reflexivity.
Defined.

(** A store whose capacity the next snapshot exceeds. *)
Definition demo_full : RetainedFileLogStore :=
  {| rs_capacity_bytes := 1; rs_total_bytes := 3;
     rs_entries := {["my.app"%string := demo_entry;
       "web"%string := {| re_service_name := "web"; re_file := "web.cbor";
         re_file_size_bytes := 2; re_updated_at_unix_ms := 3 |}]} |}.

Lemma retained_eviction_witness :
  ∃ d' st', evict_if_needed (calm 9) ∅ demo_full = (d', st', Ok tt) ∧
    rs_entries st' = {["my.app"%string := demo_entry]} ∧ rs_total_bytes st' ≤ 1.
Proof.
  eexists _, _. split; [vm_compute; reflexivity|]. split; [vm_compute; reflexivity|].
  edestruct (retained_eviction (calm 9) ∅ demo_full) as (_ & _ & _ & _ & _ & H).
  - split; simpl; [vm_compute; reflexivity|lia|].
    intros k e [[<- <-]|[_ [<- <-]%lookup_singleton_Some]]%lookup_insert_Some; split; simpl; lia || reflexivity.
  - vm_compute. reflexivity.
  - exact (proj1 (H eq_refl)).
Defined.

(** The name recovered for a file without a stored name is the cleaned
    file-name component, not the service: the old snapshot of [my.app] enters the index as
    [my_app], and after [my.app] stores new logs a query for [my_app], a service that never
    printed anything, answers with them. *)
Theorem legacy_snapshot_misattributed :
  let '(d, opened) := new_retained (table_decode demo_table) (calm 9) [demo_file] 100
    {[demo_file := NFile (replicate 2 zero) 5]} in
  match opened with
  | Err _ => False
  | Ok st =>
    let '(d', st', stored) :=
      upsert (H := hex_crates) (table_encode demo_table) (calm 9) "my.app" demo_log d st in
    stored = Ok tt ∧
    snapshot_retained (table_decode demo_table) (calm 9) "my_app" d' st' = Ok (Some demo_log)
  end.
Proof. vm_compute. split; reflexivity. Qed.
