(* ===== verification/Frames.v ===== *)
(** * Stream framing

    [protocol_handler/codec.rs] and the readers of [session_loop.rs]: frames with a
    big-endian 32-bit length, the decoder of a whole stream, and the reader of the local
    control socket, which stops at an empty frame.  Shown: the decoder accepts exactly the
    concatenations of frames and returns their payloads; the local reader hands it exactly
    the frames before the terminator and never more than the stream limit. *)

From S2P Require Import Prelude Protocol.

Open Scope Z_scope.

Definition frame_error (message : string) : ImagodError := new_error BadRequest "protocol" message.
Definition read_error (message : string) : ImagodError := new_error BadRequest "session.read" message.

Definition MAX_STREAM_BYTES : Z := 1024 * 1024 * 16.
Definition STREAM_READ_TIMEOUT_SECS : Z := 30.

Definition byte_of_Z (z : Z) : byte := ascii_of_N (Z.to_N (z mod 256)).
Definition Z_of_byte (b : byte) : Z := Z.of_N (code b).

(** [u32::to_be_bytes] and [u32::from_be_bytes]. *)
Definition to_be_bytes (n : Z) : list byte :=
  [byte_of_Z (Z.shiftr n 24); byte_of_Z (Z.shiftr n 16); byte_of_Z (Z.shiftr n 8); byte_of_Z n].
Definition from_be_bytes (bs : list byte) : Z :=
  foldl (λ acc b, Z.shiftl acc 8 + Z_of_byte b) 0 bs.

(** [payload.len() as u32] keeps the low 32 bits. *)
Definition encode_frame (payload : list byte) : list byte :=
  to_be_bytes (zlen payload mod 2 ^ 32) ++ payload.

Arguments to_be_bytes : simpl never.
Arguments encode_frame : simpl never.

(** The loop of [decode_frame_ranges]: every round advances by at least the header, so
    [length value] rounds suffice. *)
Fixpoint decode_ranges_loop (fuel : nat) (value : list byte) (offset : nat)
    : iresult (list (nat * nat)) :=
  match fuel with
  | O => Ok []
  | S fuel =>
    if bool_decide (offset < length value)%nat then
      if bool_decide (length value - offset < 4)%nat then Err (frame_error "truncated frame header")
      else
        let len := Z.to_nat (from_be_bytes (take 4 (drop offset value))) in
        let offset := (offset + 4)%nat in
        if bool_decide (length value - offset < len)%nat
        then Err (frame_error "truncated frame payload")
        else
          rest ← decode_ranges_loop fuel value (offset + len);
          Ok ((offset, offset + len)%nat :: rest)
    else Ok []
  end.

Definition decode_frame_ranges (value : list byte) : iresult (list (nat * nat)) :=
  decode_ranges_loop (S (length value)) value 0.

(** [&value[start..end]]. *)
Definition slice (value : list byte) (range : nat * nat) : list byte :=
  take (range.2 - range.1) (drop range.1 value).

Definition decode_frame_slices (value : list byte) : iresult (list (list byte)) :=
  (λ ranges : list (nat * nat), slice value <$> ranges) <$> decode_frame_ranges value.

Definition decode_frames (value : list byte) : iresult (list (list byte)) :=
  decode_frame_slices value.

(** ** Readers *)

(** What a stream delivers: its bytes, then an end of file, an I/O error or silence. *)
Inductive StreamEnd := Eof | IoError (message : string) | Stalled.
Record Stream := { sm_bytes : list byte; sm_end : StreamEnd }.

Definition stream_read_timeout_error : ImagodError :=
  new_error OperationTimeout "session.read"
    ("stream read timed out after " +:+ to_string STREAM_READ_TIMEOUT_SECS +:+ " seconds")%string.

Definition too_large : ImagodError :=
  read_error ("stream exceeds max size " +:+ to_string MAX_STREAM_BYTES +:+ " bytes")%string.

(** [take(limit).read_to_end]: reading stops at the limit even if the stream goes on. *)
Definition read_stream_with_timeout (s : Stream) : iresult (list byte) :=
  let limit := MAX_STREAM_BYTES +ˢ 1 in
  let buf := take (Z.to_nat limit) (sm_bytes s) in
  let complete := if limit <=? zlen (sm_bytes s) then Eof else sm_end s in
  match complete with
  | Stalled => Err stream_read_timeout_error
  | IoError e => Err (read_error ("failed to read stream: " +:+ e)%string)
  | Eof => if MAX_STREAM_BYTES <? zlen buf then Err too_large else Ok buf
  end.

(** [read_exact n]: the bytes and the rest, or how the read failed. *)
Definition read_exact (n : nat) (s : Stream) : result StreamEnd (list byte * Stream) :=
  if bool_decide (n ≤ length (sm_bytes s))%nat
  then Ok (take n (sm_bytes s), {| sm_bytes := drop n (sm_bytes s); sm_end := sm_end s |})
  else Err (sm_end s).

Definition read_failed (e : StreamEnd) : ImagodError :=
  match e with
  | Stalled => stream_read_timeout_error
  | IoError m => read_error ("failed to read stream: " +:+ m)%string
  | Eof => read_error "failed to read stream: early eof"
  end.

(** The loop of [read_terminated_stream] under its timeout; each round consumes a header. *)
Fixpoint read_terminated_loop (fuel : nat) (s : Stream) (buf : list byte)
    : iresult (option (list byte)) :=
  match fuel with
  | O => Ok None
  | S fuel =>
    match read_exact 4 s with
    | Err e =>
      if bool_decide (buf = []) && match e with Eof => true | _ => false end
      then Ok None else Err (read_failed e)
    | Ok (header, s) =>
      let frame_len := from_be_bytes header in
      if frame_len =? 0 then
        if bool_decide (buf = []) then
          Err (new_error BadRequest "session.protocol"
                 "local control socket request must include one framed envelope")
        else Ok (Some buf)
      else
        projected ← ok_or (n ← checked_add (zlen buf) 4; checked_add n frame_len) too_large;
        if MAX_STREAM_BYTES <? projected then Err too_large
        else
          match read_exact (Z.to_nat frame_len) s with
          | Err e => Err (read_failed e)
          | Ok (payload, s) => read_terminated_loop fuel s (buf ++ header ++ payload)
          end
    end
  end.

Definition read_terminated_stream (s : Stream) : iresult (option (list byte)) :=
  read_terminated_loop (S (length (sm_bytes s))) s [].

(** ** Lemmas *)

Lemma Z_of_byte_of_Z z : Z_of_byte (byte_of_Z z) = z mod 256.
Proof.
  unfold Z_of_byte, byte_of_Z, code. pose proof (Z.mod_pos_bound z 256 ltac:(lia)).
  rewrite N_ascii_embedding by lia. lia.
Qed.

Lemma Z_of_byte_bound b : 0 ≤ Z_of_byte b < 256.
Proof. unfold Z_of_byte, code. pose proof (N_ascii_bounded b). lia. Qed.

Lemma byte_of_Z_of_byte b : byte_of_Z (Z_of_byte b) = b.
Proof.
  unfold byte_of_Z. rewrite Z.mod_small by apply Z_of_byte_bound. unfold Z_of_byte, code.
  rewrite N2Z.id. apply ascii_N_embedding.
Qed.

Lemma byte_of_Z_eq z b : z mod 256 = Z_of_byte b → byte_of_Z z = b.
Proof.
  intros Hz. rewrite <-(byte_of_Z_of_byte b). unfold byte_of_Z.
  by rewrite Hz, (Z.mod_small (Z_of_byte b)) by apply Z_of_byte_bound.
Qed.

Lemma from_to_be_bytes n : 0 ≤ n < 2 ^ 32 → from_be_bytes (to_be_bytes n) = n.
Proof.
  intros Hn. unfold from_be_bytes, to_be_bytes. simpl foldl. rewrite !Z_of_byte_of_Z.
  rewrite !Z.shiftl_mul_pow2, !Z.shiftr_div_pow2 by lia.
  Z.to_euclidean_division_equations. lia.
Qed.

Lemma to_from_be_bytes bs : length bs = 4%nat → to_be_bytes (from_be_bytes bs) = bs.
Proof.
  destruct bs as [|a [|b [|c [|d [|]]]]]; intros Hl; try discriminate Hl.
  unfold from_be_bytes. simpl foldl.
  pose proof (Z_of_byte_bound a). pose proof (Z_of_byte_bound b).
  pose proof (Z_of_byte_bound c). pose proof (Z_of_byte_bound d).
  rewrite !Z.shiftl_mul_pow2 by lia. unfold to_be_bytes.
  rewrite !Z.shiftr_div_pow2 by lia.
  rewrite (byte_of_Z_eq _ a), (byte_of_Z_eq _ b), (byte_of_Z_eq _ c), (byte_of_Z_eq _ d);
    [done|Z.to_euclidean_division_equations; lia..].
Qed.

Lemma from_be_bytes_bound bs : length bs = 4%nat → 0 ≤ from_be_bytes bs < 2 ^ 32.
Proof.
  destruct bs as [|a [|b [|c [|d [|]]]]]; intros Hl; try discriminate Hl.
  unfold from_be_bytes. simpl foldl.
  pose proof (Z_of_byte_bound a). pose proof (Z_of_byte_bound b).
  pose proof (Z_of_byte_bound c). pose proof (Z_of_byte_bound d).
  rewrite !Z.shiftl_mul_pow2 by lia. lia.
Qed.

(** One round of the decoder at a frame boundary. *)
Lemma decode_loop_enough fuel1 : ∀ fuel2 value offset,
  (length value - offset < fuel1)%nat → (length value - offset < fuel2)%nat →
  decode_ranges_loop fuel1 value offset = decode_ranges_loop fuel2 value offset.
Proof.
  induction fuel1 as [|fuel1 IH]; intros [|fuel2] value offset H1 H2; try lia. simpl.
  repeat case_bool_decide; try done. by rewrite (IH fuel2) by lia.
Qed.

Lemma slice_app pre value n k :
  slice (pre ++ value) (length pre + n, length pre + k)%nat = slice value (n, k).
Proof.
  unfold slice. simpl. rewrite drop_app_ge by lia. f_equal; [lia|]. f_equal. lia.
Qed.

(** What follows a prefix is decoded as if it stood alone. *)
Lemma decode_loop_app fuel pre value : ∀ offset,
  decode_ranges_loop fuel (pre ++ value) (length pre + offset) =
    (λ rs : list (nat * nat), (λ r : nat * nat, (length pre + r.1, length pre + r.2)%nat) <$> rs) <$>
      decode_ranges_loop fuel value offset.
Proof.
  induction fuel as [|fuel IH]; intros offset; [done|]. cbn [decode_ranges_loop].
  rewrite length_app, drop_app_ge by lia.
  replace (length pre + offset - length pre)%nat with offset by lia.
  replace (length pre + length value - (length pre + offset))%nat
    with (length value - offset)%nat by lia.
  replace (length pre + length value - (length pre + offset + 4))%nat
    with (length value - (offset + 4))%nat by lia.
  rewrite (bool_decide_ext (length pre + offset < length pre + length value)%nat
    (offset < length value)%nat) by lia.
  case_bool_decide; [|done]. case_bool_decide; [done|]. case_bool_decide; [done|].
  rewrite <-!Nat.add_assoc, IH. by destruct (decode_ranges_loop _ _ _).
Qed.

Lemma slices_shift pre value (rs : list (nat * nat)) :
  slice (pre ++ value) <$> ((λ r : nat * nat, (length pre + r.1, length pre + r.2)%nat) <$> rs) =
    slice value <$> rs.
Proof. rewrite <-list_fmap_compose. apply list_fmap_ext. intros ? [n k] _. apply slice_app. Qed.

Lemma length_encode_frame p : length (encode_frame p) = (4 + length p)%nat.
Proof. done. Qed.

(** A frame, then whatever follows it. *)
Lemma decode_frame_cons p value :
  zlen p < 2 ^ 32 →
  decode_frame_slices (encode_frame p ++ value) =
    (λ fs, p :: fs) <$> decode_frame_slices value.
Proof.
  intros Hp. pose proof (zlen_nonneg p). unfold decode_frame_slices, decode_frame_ranges.
  set (v := encode_frame p ++ value). assert (Hv : length v = (4 + length p + length value)%nat).
  { unfold v. rewrite length_app, length_encode_frame. lia. }
  assert (Hlen : Z.to_nat (from_be_bytes (take 4 v)) = length p).
  { unfold v, encode_frame. rewrite <-app_assoc, take_app_length' by done.
    rewrite Z.mod_small, from_to_be_bytes by lia. unfold zlen. lia. }
  assert (decode_ranges_loop (S (length v)) v 0 =
    (λ rs : list (nat * nat), (4, 4 + length p)%nat ::
      ((λ r : nat * nat, (length (encode_frame p) + r.1, length (encode_frame p) + r.2)%nat) <$> rs))
      <$> decode_ranges_loop (S (length value)) value 0) as ->.
  { pose proof (decode_loop_app (S (length value)) (encode_frame p) value 0) as Happ.
    fold v in Happ. rewrite (decode_loop_enough _ (length v)) in Happ
      by (rewrite length_encode_frame; lia).
    rewrite length_encode_frame, Nat.add_0_r in Happ.
    destruct (decode_ranges_loop (S (length value)) value 0) as [rs|e];
      cbn [decode_ranges_loop];
      rewrite drop_0, bool_decide_true, bool_decide_false, Hlen, bool_decide_false by lia;
      simpl Nat.add in *; rewrite Happ; done. }
  destruct (decode_ranges_loop _ value 0) as [rs|]; [|done].
  simpl. do 2 f_equal; [|apply (slices_shift (encode_frame p))].
  unfold v, slice. simpl. rewrite Nat.sub_0_r, drop_0. by apply take_app_length'.
Qed.

(** A non-empty stream is refused or begins with a frame. *)
Lemma decode_frame_inv value :
  value ≠ [] →
  (∃ e, decode_frame_slices value = Err e) ∨
  ∃ p rest, value = encode_frame p ++ rest ∧ zlen p < 2 ^ 32.
Proof.
  intros Hne. assert (0 < length value)%nat by (destruct value; [done|simpl; lia]).
  unfold decode_frame_slices, decode_frame_ranges. cbn [decode_ranges_loop].
  rewrite drop_0, Nat.sub_0_r, bool_decide_true by done.
  case_bool_decide as H4; [by left; eexists|].
  case_bool_decide as Hlen; [by left; eexists|]. right.
  assert (Hh : length (take 4 value) = 4%nat) by (rewrite length_take; lia).
  pose proof (from_be_bytes_bound _ Hh). set (n := from_be_bytes (take 4 value)) in *.
  exists (take (Z.to_nat n) (drop 4 value)), (drop (Z.to_nat n) (drop 4 value)).
  assert (length (take (Z.to_nat n) (drop 4 value)) = Z.to_nat n) as Hl.
  { rewrite length_take, length_drop. lia. }
  assert (zlen (take (Z.to_nat n) (drop 4 value)) = n) as Hz by (unfold zlen; rewrite Hl; lia).
  split; [|lia]. unfold encode_frame. rewrite Hz, Z.mod_small by lia. unfold n at 1.
  rewrite to_from_be_bytes, <-app_assoc, take_drop, take_drop by done. done.
Qed.

Lemma decode_frames_inv n : ∀ value frames, (length value ≤ n)%nat →
  decode_frame_slices value = Ok frames →
  Forall (λ p, zlen p < 2 ^ 32) frames ∧ value = concat (encode_frame <$> frames).
Proof.
  induction n as [|n IH]; intros value frames Hn Hd.
  all: destruct (decide (value = [])) as [->|Hne]; [by injection Hd as <-|].
  { destruct value; [done|simpl in Hn; lia]. }
  destruct (decode_frame_inv value Hne) as [[e He]|(p & rest & -> & Hp)]; [congruence|].
  rewrite decode_frame_cons in Hd by done. rewrite length_app, length_encode_frame in Hn.
  destruct (decode_frame_slices rest) as [fs|] eqn:Hr; simpl in Hd; [|done].
  injection Hd as <-. destruct (IH rest fs ltac:(lia) Hr) as [Hf ->]. split; [by constructor|done].
Qed.

Lemma decode_encode frames :
  Forall (λ p, zlen p < 2 ^ 32) frames →
  decode_frame_slices (concat (encode_frame <$> frames)) = Ok frames.
Proof.
  induction 1 as [|p frames Hp _ IH]; [done|].
  change (concat _) with (encode_frame p ++ concat (encode_frame <$> frames)).
  by rewrite decode_frame_cons, IH.
Qed.

(** *** The local reader *)

Definition frames_bytes (frames : list (list byte)) : list byte := concat (encode_frame <$> frames).

Lemma frames_bytes_cons p frames : frames_bytes (p :: frames) = encode_frame p ++ frames_bytes frames.
Proof. done. Qed.

Lemma read_exact_app bs rest n e :
  length bs = n → read_exact n {| sm_bytes := bs ++ rest; sm_end := e |} =
    Ok (bs, {| sm_bytes := rest; sm_end := e |}).
Proof.
  intros <-. unfold read_exact. simpl. rewrite bool_decide_true by (rewrite length_app; lia).
  by rewrite take_app_length, drop_app_length.
Qed.

Lemma read_exact_length n s bs s' : read_exact n s = Ok (bs, s') → length bs = n.
Proof. unfold read_exact. case_bool_decide; [|done]. intros [= <- _]. rewrite length_take. lia. Qed.

Lemma read_terminated_frames fuel frames : ∀ buf rest e,
  Forall (λ p, p ≠ []) frames → zlen (buf ++ frames_bytes frames) ≤ MAX_STREAM_BYTES →
  (length frames < fuel)%nat → buf ++ frames_bytes frames ≠ [] →
  read_terminated_loop fuel
    {| sm_bytes := frames_bytes frames ++ to_be_bytes 0 ++ rest; sm_end := e |} buf =
    Ok (Some (buf ++ frames_bytes frames)).
Proof.
  revert frames. induction fuel as [|fuel IH]; intros frames buf rest e Hf Hmax Hfuel Hne; [lia|].
  cbn [read_terminated_loop]. destruct frames as [|p frames].
  - rewrite app_nil_r in *. cbn [frames_bytes fmap list_fmap concat]. rewrite app_nil_l.
    rewrite read_exact_app by done. change (from_be_bytes (to_be_bytes 0)) with 0. simpl.
    by rewrite bool_decide_false.
  - rewrite frames_bytes_cons in *. apply Forall_cons in Hf as [Hp Hf].
    unfold encode_frame at 1. rewrite <-!app_assoc, read_exact_app by done.
    autorewrite with imago in Hmax. unfold encode_frame in Hmax at 1.
    autorewrite with imago in Hmax. pose proof (zlen_nonneg (frames_bytes frames)).
    pose proof (zlen_nonneg buf).
    change (zlen (to_be_bytes _)) with 4 in Hmax.
    assert (0 < zlen p) as Hp0 by (destruct p; [done|]; rewrite zlen_cons; pose proof (zlen_nonneg p); lia).
    unfold MAX_STREAM_BYTES in *. rewrite Z.mod_small, from_to_be_bytes by lia.
    rewrite (proj2 (Z.eqb_neq _ _)) by lia. unfold checked_add.
    rewrite (proj2 (Z.leb_le _ _)) by ulia. cbn [mbind option_bind].
    rewrite (proj2 (Z.leb_le _ _)) by ulia. cbn [ok_or mbind result_bind].
    rewrite (proj2 (Z.ltb_ge _ _)) by lia.
    rewrite read_exact_app by (unfold zlen; lia). simpl in Hfuel.
    rewrite IH.
    + unfold encode_frame at 1. rewrite Z.mod_small by lia. by rewrite !app_assoc.
    + done.
    + autorewrite with imago. change (zlen (to_be_bytes _)) with 4. lia.
    + lia.
    + intros E. apply (f_equal length) in E. rewrite !length_app in E.
      change (length (to_be_bytes _)) with 4%nat in E. simpl in E. lia.
Qed.

(** C28 (roundtrip).  The decoder accepts exactly the concatenations of frames, and returns
    their payloads: what the writer frames is read back, whatever is accepted could only
    have been written that way, and any stream cut inside a frame is refused. *)
Theorem frames_exact value frames :
  decode_frames value = Ok frames ↔
  Forall (λ p, zlen p < 2 ^ 32) frames ∧ value = concat (encode_frame <$> frames).
Proof.
  split; [by apply (decode_frames_inv (length value))|]. intros [Hf ->]. by apply decode_encode.
Qed.

(** Whatever the peer sends, an accepted request is bounded. *)
Lemma read_terminated_bound fuel : ∀ s buf out,
  zlen buf ≤ MAX_STREAM_BYTES →
  read_terminated_loop fuel s buf = Ok (Some out) → zlen out ≤ MAX_STREAM_BYTES.
Proof.
  induction fuel as [|fuel IH]; intros s buf out Hb Hr; [done|]. cbn [read_terminated_loop] in Hr.
  destruct (read_exact 4 s) as [[header s1]|e] eqn:H4; [|by destruct (bool_decide _ && _)].
  pose proof (read_exact_length _ _ _ _ H4) as Hh.
  destruct (Z.eqb_spec (from_be_bytes header) 0) as [E|E]; [case_bool_decide; by simplify_eq|].
  pose proof (from_be_bytes_bound _ Hh). apply bind_Ok in Hr as (projected & Hp & Hr).
  apply ok_or_Ok, bind_Some in Hp as (k & Hk & Hp). unfold checked_add in Hk, Hp.
  repeat case_match; simplify_eq.
  match goal with H : read_exact _ s1 = _ |- _ => rename H into Hx end.
  eapply IH; [|exact Hr]. apply read_exact_length in Hx.
  autorewrite with imago. unfold zlen at 2 3. rewrite Hh, Hx. lia.
Qed.

(** The local reader passes on exactly the frames before the empty frame that
    ends the request, so that decoding recovers them, and ignores what follows; whatever
    the peer sends, what it passes on is within the stream limit. *)
Theorem local_request_read frames rest e s out :
  Forall (λ p, p ≠ []) frames → frames ≠ [] →
  zlen (concat (encode_frame <$> frames)) ≤ MAX_STREAM_BYTES →
  read_terminated_stream s = Ok (Some out) →
  (∃ buf, read_terminated_stream {| sm_bytes := concat (encode_frame <$> frames) ++
       to_be_bytes 0 ++ rest; sm_end := e |} = Ok (Some buf) ∧ decode_frames buf = Ok frames) ∧
  zlen out ≤ MAX_STREAM_BYTES.
Proof.
  intros Hf Hne Hmax Hs. split; [|by eapply read_terminated_bound; [|exact Hs]].
  exists (frames_bytes frames). split.
  - unfold read_terminated_stream. apply (read_terminated_frames _ frames []); try done.
    + cbn [sm_bytes]. rewrite length_app.
      assert (length frames ≤ length (frames_bytes frames))%nat; [|unfold frames_bytes in *; lia].
      clear. induction frames as [|p l IH]; [simpl; lia|].
      rewrite frames_bytes_cons, length_app, length_encode_frame. simpl. lia.
    + by destruct frames.
  - apply decode_encode. clear Hne. fold (frames_bytes frames) in Hmax.
    induction frames as [|p l IH]; [done|].
    apply Forall_cons in Hf as [_ Hf]. rewrite frames_bytes_cons, zlen_app in Hmax.
    pose proof (zlen_nonneg (frames_bytes l)).
    pose proof (zlen_nonneg (encode_frame p)).
    constructor; [|apply IH; [done|lia]]. unfold encode_frame in Hmax at 1.
    rewrite zlen_app in Hmax. change (zlen (to_be_bytes _)) with 4 in Hmax.
    unfold MAX_STREAM_BYTES in Hmax. lia.
Qed.

Lemma local_request_read_witness :
  decode_frames (concat (encode_frame <$> [bytes_of "hi"])) = Ok [bytes_of "hi"] ∧
  ∃ buf, read_terminated_stream {| sm_bytes := concat (encode_frame <$> [bytes_of "hi"]) ++
       to_be_bytes 0 ++ bytes_of "junk"; sm_end := Stalled |} = Ok (Some buf) ∧
    decode_frames buf = Ok [bytes_of "hi"].
Proof.
  split; [vm_compute; reflexivity|].
  refine (proj1 (local_request_read [bytes_of "hi"] (bytes_of "junk") Stalled
    {| sm_bytes := concat (encode_frame <$> [bytes_of "hi"]) ++ to_be_bytes 0; sm_end := Eof |}
    (concat (encode_frame <$> [bytes_of "hi"])) _ _ _ _)).
  - repeat constructor. discriminate.
  - discriminate.
  - vm_compute. discriminate.
  - vm_compute. reflexivity.
Defined.
