(* ===== verification/Session.v ===== *)
(** * Sessions: identity, authorization and dispatch

    [protocol_handler.rs], [protocol_handler/session_loop.rs], [envelope_io.rs] and the
    request handlers of [router.rs]: from the bytes of one stream and the identity of its
    peer to the handler that serves it and the envelopes written back.  The stores behind
    the handlers are the interface [Backend]; serde and semver are parameters.
    Shown: a remote peer reaches nothing but [hello.negotiate] and [rpc.invoke]; no handler
    sees a payload that fails its validation; every single-response request is answered by
    one envelope that carries its ids and its type. *)

From S2P Require Import Prelude Protocol Frames.

Open Scope Z_scope.

(** ** Identity *)

Definition decode_hex_nibble (value : byte) : option Z :=
  let v := Z_of_byte value in
  if is_ascii_digit value then Some (v - 48)
  else if (97 <=? v) && (v <=? 102) then Some (v - 97 + 10)
  else if (65 <=? v) && (v <=? 70) then Some (v - 65 + 10)
  else None.

Definition not_hex (pos : Z) : string :=
  ("must contain only hex characters (invalid byte at position " +:+ to_string pos +:+ ")")%string.

Fixpoint parse_hex_pairs (pos : Z) (bytes : list byte) : result string (list byte) :=
  match bytes with
  | h :: l :: rest =>
    hi ← ok_or (decode_hex_nibble h) (not_hex pos);
    lo ← ok_or (decode_hex_nibble l) (not_hex (pos + 1));
    out ← parse_hex_pairs (pos + 2) rest;
    Ok (byte_of_Z (Z.lor (Z.shiftl hi 4) lo) :: out)
  | _ => Ok []
  end.

Definition parse_ed25519_raw_public_key_hex (value : string) : result string (list byte) :=
  let bytes := bytes_of value in
  if bool_decide (length bytes = 64%nat) then parse_hex_pairs 0 bytes
  else Err ("must be 64 hex characters (got " +:+ to_string (zlen bytes) +:+ ")")%string.

(** [{byte:02x}]. *)
Definition hex_nibble (n : Z) : ascii := ascii_of_N (Z.to_N (if n <? 10 then 48 + n else 87 + n)).
Definition encode_hex (bytes : list byte) : string :=
  string_of_bytes (bytes ≫= λ b, [hex_nibble (Z_of_byte b / 16); hex_nibble (Z_of_byte b mod 16)]).

Definition ED25519_SPKI_PREFIX : list byte :=
  byte_of_Z <$> [48; 42; 48; 5; 6; 3; 43; 101; 112; 3; 33; 0].

Definition unauthorized (message : string) : ImagodError :=
  new_error Unauthorized "session.auth" message.

Definition extract_ed25519_public_key (spki_der : list byte) : iresult (list byte) :=
  _ ← ensure (bool_decide (length spki_der = (12 + 32)%nat))
        (unauthorized "peer public key (SPKI) must contain an ed25519 raw public key");
  _ ← ensure (bool_decide (take 12 spki_der = ED25519_SPKI_PREFIX))
        (unauthorized "peer public key (SPKI) is not ed25519");
  Ok (drop 12 spki_der).

(** What the transport reports of its peer: a certificate chain, or something else. *)
Inductive PeerIdentity := Certificates (chain : list (list byte)) | OtherIdentity.

Definition extract_peer_public_key (peer_identity : option PeerIdentity) : iresult (list byte) :=
  identity ← ok_or peer_identity (unauthorized "peer identity is missing");
  match identity with
  | OtherIdentity => Err (unauthorized "peer identity type is not certificate chain")
  | Certificates [] => Err (unauthorized "peer certificate chain is empty")
  | Certificates (first :: _) => extract_ed25519_public_key first
  end.

Inductive DynamicClientRole := Admin | Client | Unknown.
#[export] Instance DynamicClientRole_eq_dec : EqDecision DynamicClientRole.
Proof. solve_decision. Defined.

Abbreviation DynamicPublicKeys := (gset (list byte)).

Definition resolve_dynamic_client_role (keys : DynamicPublicKeys) (public_key : list byte)
    : DynamicClientRole := if decide (public_key ∈ keys) then Client else Unknown.

Definition is_tls_client_key_allowlisted (keys : DynamicPublicKeys) (public_key : list byte)
    : bool := bool_decide (public_key ∈ keys).

Fixpoint parse_configured_public_keys (index : Z) (field_name : string) (keys : list string)
    : iresult DynamicPublicKeys :=
  match keys with
  | [] => Ok ∅
  | key_hex :: keys =>
    key ← map_err (λ reason, new_error Internal "protocol.keys"
            ("invalid " +:+ field_name +:+ "[" +:+ to_string index +:+ "]: " +:+ reason)%string)
            (parse_ed25519_raw_public_key_hex key_hex);
    rest ← parse_configured_public_keys (index + 1) field_name keys;
    Ok ({[key]} ∪ rest)
  end.

Definition upsert_dynamic_client_public_key (public_key_hex : string) (keys : DynamicPublicKeys)
    : iresult (DynamicPublicKeys * bool) :=
  key ← map_err (λ reason, new_error BadRequest "bindings.cert.upload"
          ("public_key_hex is invalid: " +:+ reason)%string)
          (parse_ed25519_raw_public_key_hex public_key_hex);
  Ok ({[key]} ∪ keys, negb (bool_decide (key ∈ keys))).

Record SessionAuthContext := { sa_role : DynamicClientRole; sa_public_key_hex : string }.

Definition resolve_session_auth_context (keys : DynamicPublicKeys)
    (peer_identity : option PeerIdentity) : iresult SessionAuthContext :=
  public_key ← extract_peer_public_key peer_identity;
  Ok {| sa_role := resolve_dynamic_client_role keys public_key;
        sa_public_key_hex := encode_hex public_key |}.

Definition authorize_local_uid (peer_uid daemon_euid : Z) : iresult unit :=
  ensure ((peer_uid =? 0) || (peer_uid =? daemon_euid))
    (with_detail "daemon_euid" (to_string daemon_euid)
      (with_detail "peer_uid" (to_string peer_uid)
        (unauthorized "local control socket peer uid is not authorized"))).

(** [peer_cred] fails with a message or gives the uid. *)
Definition resolve_local_auth_context (peer_cred : result string Z) (daemon_euid : Z)
    : iresult SessionAuthContext :=
  peer_uid ← map_err (λ err, unauthorized
    ("failed to inspect local control socket peer credentials: " +:+ err)%string) peer_cred;
  _ ← authorize_local_uid peer_uid daemon_euid;
  Ok {| sa_role := Admin;
        sa_public_key_hex := ("local-control-socket:" +:+ to_string peer_uid)%string |}.

Definition message_type_name (t : MessageType) : string :=
  match t with
  | MtHelloNegotiate => "hello.negotiate" | MtDeployPrepare => "deploy.prepare"
  | MtArtifactPush => "artifact.push" | MtArtifactCommit => "artifact.commit"
  | MtCommandStart => "command.start" | MtCommandEvent => "command.event"
  | MtStateRequest => "state.request" | MtStateResponse => "state.response"
  | MtServicesList => "services.list" | MtCommandCancel => "command.cancel"
  | MtLogsRequest => "logs.request" | MtLogsChunk => "logs.chunk" | MtLogsEnd => "logs.end"
  | MtRpcInvoke => "rpc.invoke" | MtBindingsCertInspect => "bindings.cert.inspect"
  | MtBindingsCertUpload => "bindings.cert.upload"
  end.

Definition denied (message role : string) (t : MessageType) (auth : SessionAuthContext)
    : ImagodError :=
  with_detail "client_public_key" (sa_public_key_hex auth)
    (with_detail "message_type" (message_type_name t)
      (with_detail "role" role (new_error Unauthorized "session.authorize" message))).

Definition ensure_message_type_allowed (t : MessageType) (auth : SessionAuthContext)
    : iresult unit :=
  match sa_role auth with
  | Admin => Ok tt
  | Client =>
    ensure (bool_decide (t = MtHelloNegotiate) || bool_decide (t = MtRpcInvoke))
      (denied ("message type " +:+ message_type_name t +:+ " is not allowed for client role")%string
         "client" t auth)
  | Unknown => Err (denied "client public key does not have an assigned role" "unknown" t auth)
  end.

Definition hello_features_for_auth_context (auth : SessionAuthContext) : list string :=
  match sa_role auth with
  | Admin =>
    ["hello.negotiate"; "deploy.prepare"; "artifact.push"; "artifact.commit"; "command.start";
     "command.event"; "state.request"; "services.list"; "command.cancel"; "logs.request";
     "logs.stream"; "logs.chunk"; "logs.chunk.timestamp"; "logs.end"; "rpc.invoke";
     "bindings.cert.inspect"; "bindings.cert.upload"]
  | Client | Unknown => ["hello.negotiate"; "rpc.invoke"]
  end%string.

(** ** Envelopes *)

Definition error_envelope {V} (null : V) (message_type : MessageType)
    (request_id correlation_id : Uuid) (error : StructuredError) : ProtocolEnvelope V :=
  {| pe_message_type := message_type; pe_request_id := request_id;
     pe_correlation_id := correlation_id; pe_payload := null; pe_error := Some error |}.

Definition response_message_type_for_request (t : MessageType) : MessageType :=
  match t with MtStateRequest => MtStateResponse | _ => t end.

(** The payloads the handlers answer with. *)
Inductive Response :=
  | RespHello (r : HelloNegotiateResponse)
  | RespPrepare (r : DeployPrepareResponse)
  | RespPush (r : ArtifactPushAck)
  | RespCommit (r : ArtifactCommitResponse)
  | RespState (r : StateResponse)
  | RespServices (r : ServiceListResponse)
  | RespCancel (r : CommandCancelResponse)
  | RespRpc (r : RpcInvokeResponse)
  | RespCertInspect (r : BindingsCertInspectResponse)
  | RespCertUpload (r : BindingsCertUploadResponse).

(** serde: JSON values inside envelopes, CBOR on the wire. *)
Class Serde (Value : Type) := {
  value_null : Value;
  from_hello : Value → result string HelloNegotiateRequest;
  from_prepare : Value → result string DeployPrepareRequest;
  from_push : Value → result string ArtifactPushRequest;
  from_commit : Value → result string ArtifactCommitRequest;
  from_state : Value → result string StateRequest;
  from_services : Value → result string ServiceListRequest;
  from_cancel : Value → result string CommandCancelRequest;
  from_rpc : Value → result string RpcInvokeRequest;
  from_cert_inspect : Value → result string unit;
  from_cert_upload : Value → result string BindingsCertUploadRequest;
  to_value : Response → result string Value;
  header_from_cbor : list byte → result string (MessageType * Uuid * Uuid);
  push_from_cbor : list byte → result string (ProtocolEnvelope ArtifactPushRequest);
  envelope_from_cbor : list byte → result string (ProtocolEnvelope Value);
}.

Section envelopes.
Context `{Serde Value}.

Abbreviation Envelope := (ProtocolEnvelope Value).

Definition response_envelope (message_type : MessageType) (request_id correlation_id : Uuid)
    (payload : Response) : iresult Envelope :=
  value ← map_err (λ e, bad_request "protocol" ("payload encode failed: " +:+ e)%string)
            (to_value payload);
  Ok (new_envelope message_type request_id correlation_id value).

Definition payload_take {T} (from_value : Value → result string T) (request : Envelope)
    : iresult T :=
  map_err (λ e, bad_request "protocol" ("request payload decode failed: " +:+ e)%string)
    (from_value (pe_payload request)).

Definition invalid_frame (e : string) : ImagodError :=
  bad_request "protocol" ("invalid frame payload: " +:+ e)%string.

Definition ensure_non_nil_ids (request_id correlation_id : Uuid) : iresult unit :=
  _ ← ensure (negb (is_nil_uuid request_id))
        (bad_request "protocol" "request_id must not be nil UUID");
  ensure (negb (is_nil_uuid correlation_id))
    (bad_request "protocol" "correlation_id must not be nil UUID").

Record ParsedSingleRequestEnvelope := {
  ps_request : Envelope;
  ps_typed_push : option ArtifactPushRequest;
}.

Definition parse_single_request_envelope (buf : list byte)
    : iresult (option ParsedSingleRequestEnvelope) :=
  frames ← decode_frame_slices buf;
  match frames with
  | [] => Ok None
  | [frame] =>
    '(message_type, request_id, correlation_id) ← map_err invalid_frame (header_from_cbor frame);
    _ ← ensure_non_nil_ids request_id correlation_id;
    if decide (message_type = MtArtifactPush) then
      typed ← map_err invalid_frame (push_from_cbor frame);
      Ok (Some {| ps_request :=
                    {| pe_message_type := pe_message_type typed;
                       pe_request_id := pe_request_id typed;
                       pe_correlation_id := pe_correlation_id typed;
                       pe_payload := value_null; pe_error := pe_error typed |};
                  ps_typed_push := Some (pe_payload typed) |})
    else
      request ← map_err invalid_frame (envelope_from_cbor frame);
      _ ← ensure_non_nil_ids (pe_request_id request) (pe_correlation_id request);
      Ok (Some {| ps_request := request; ps_typed_push := None |})
  | _ => Err (bad_request "session.protocol"
                "multiple request envelopes on a single stream are not allowed")
  end.

End envelopes.

(** ** What the handlers are built on *)

(** A call into a store: it may change the store and may fail. *)
Definition call (S A : Type) : Type := S → S * iresult A.

Class Backend (S : Type) := {
  be_prepare : DeployPrepareRequest → call S DeployPrepareResponse;
  be_push : ArtifactPushRequest → call S ArtifactPushAck;
  be_commit : ArtifactCommitRequest → call S ArtifactCommitResponse;
  be_snapshot_running : Uuid → call S StateResponse;
  be_list_service_states : option (list string) → call S (list ServiceStatusEntry);
  be_request_cancel : Uuid → call S CommandCancelResponse;
  be_invoke : string → string → string → list byte → call S (list byte);
  be_load_server_public_key_hex : call S string;
  be_upsert_tls_known_client_key : string → string → call S unit;
}.

(** semver. *)
Class Semver := {
  Version : Type;
  VersionReq : Type;
  version_parse : string → option Version;
  version_req_parse : string → result string VersionReq;
  version_matches : VersionReq → Version → bool;
}.

Record HandlerConfig := {
  hc_server_version : string;
  hc_chunk_size : Z;
  hc_max_inflight_chunks : Z;
  hc_max_artifact_size_bytes : Z;
  hc_upload_session_ttl_secs : Z;
  hc_deploy_stream_timeout_secs : Z;
}.

Definition PROTOCOL_VERSION : string := "0.1.0".
Definition SUPPORTED_PROTOCOL_VERSION_RANGE : string := ">=0.1.0,<0.2.0".

Definition protocol_compatibility_announcement `{Semver} (client_protocol_version : string)
    : option string :=
  match version_req_parse SUPPORTED_PROTOCOL_VERSION_RANGE with
  | Err err =>
    Some ("imagod protocol compatibility is misconfigured: supported range '" +:+
          SUPPORTED_PROTOCOL_VERSION_RANGE +:+ "' is invalid (" +:+ err +:+ ")")%string
  | Ok supported_range =>
    match version_parse client_protocol_version with
    | None =>
      Some ("client protocol version '" +:+ client_protocol_version +:+
            "' is invalid; supported range is '" +:+ SUPPORTED_PROTOCOL_VERSION_RANGE +:+
            "' (server protocol '" +:+ PROTOCOL_VERSION +:+ "')")%string
    | Some client_version =>
      if version_matches supported_range client_version then None
      else
        Some ("client protocol version '" +:+ client_protocol_version +:+
              "' is not supported; imagod supports '" +:+ SUPPORTED_PROTOCOL_VERSION_RANGE +:+
              "' (server protocol '" +:+ PROTOCOL_VERSION +:+ "')")%string
    end
  end.

(** ** Handlers *)

(** Requests that answer with a stream of envelopes; the operation behind [command.start]
    is the subject of the operations component. *)
Class Streaming (S Value : Type) := {
  st_command_start : ProtocolEnvelope Value → S → S * list (ProtocolEnvelope Value) * iresult unit;
  st_logs_request : bool → bool → ProtocolEnvelope Value → S →
    S * list (ProtocolEnvelope Value) * iresult unit;
}.

Record HandlerWorld (S : Type) := { hw_keys : DynamicPublicKeys; hw_state : S }.
Arguments hw_keys {S}.
Arguments hw_state {S}.

Section handlers.
Context `{Serde Value, !Semver} {S : Type} `{!Backend S, !Streaming S Value}
  (config : HandlerConfig).

Abbreviation Envelope := (ProtocolEnvelope Value).
Abbreviation World := (HandlerWorld S).

(** Decode and validate a payload. *)
Definition payload_validated {T} `{Validate T} (stage : string)
    (from_value : Value → result string T) (request : Envelope) : iresult T :=
  payload ← payload_take from_value request;
  _ ← map_err (λ e, bad_request stage (ve_to_string e)) (validate payload);
  Ok payload.

(** The common shape: decode, validate, call, answer. *)
Definition serve {T A} (payload : iresult T) (op : T → call S A)
    (answer : A → iresult Envelope) (w : World) : World * iresult Envelope :=
  match payload with
  | Err e => (w, Err e)
  | Ok payload =>
    let '(s, r) := op payload (hw_state w) in
    ({| hw_keys := hw_keys w; hw_state := s |}, a ← r; answer a)
  end.

Definition respond (request : Envelope) (t : MessageType) (r : Response) : iresult Envelope :=
  response_envelope t (pe_request_id request) (pe_correlation_id request) r.

Definition hello_limits : gmap string string :=
  <["chunk_size" := to_string (hc_chunk_size config)]>
  (<["max_inflight_chunks" := to_string (hc_max_inflight_chunks config)]>
  (<["max_artifact_size_bytes" := to_string (hc_max_artifact_size_bytes config)]>
  (<["upload_session_ttl" := (to_string (hc_upload_session_ttl_secs config) +:+ "s")%string]>
  (<["deploy_stream_timeout_secs" := to_string (hc_deploy_stream_timeout_secs config)]> ∅))))%string.

Definition hello_response (auth : SessionAuthContext) (client_version : string)
    : HelloNegotiateResponse :=
  let announcement := protocol_compatibility_announcement client_version in
  {| hr_accepted := bool_decide (announcement = None);
     hr_server_version := hc_server_version config;
     hr_server_protocol_version := PROTOCOL_VERSION;
     hr_supported_protocol_version_range := SUPPORTED_PROTOCOL_VERSION_RANGE;
     hr_compatibility_announcement := announcement;
     hr_features := hello_features_for_auth_context auth;
     hr_limits := hello_limits |}.

Definition handle_hello (request : Envelope) (auth : SessionAuthContext) (w : World)
    : World * iresult Envelope :=
  (w,
   payload ← payload_validated "hello.negotiate" from_hello request;
   respond request MtHelloNegotiate (RespHello (hello_response auth (hq_client_version payload)))).

Definition handle_prepare (request : Envelope) : World → World * iresult Envelope :=
  serve (payload_validated "deploy.prepare" from_prepare request) be_prepare
    (λ r, respond request MtDeployPrepare (RespPrepare r)).

Definition handle_push_typed (request : Envelope) (payload : ArtifactPushRequest)
    : World → World * iresult Envelope :=
  serve (_ ← map_err (λ e, bad_request "artifact.push" (ve_to_string e)) (validate payload);
         Ok payload) be_push
    (λ r, respond request MtArtifactPush (RespPush r)).

Definition handle_push (request : Envelope) (w : World) : World * iresult Envelope :=
  match payload_take from_push request with
  | Err e => (w, Err e)
  | Ok payload => handle_push_typed request payload w
  end.

Definition handle_commit (request : Envelope) : World → World * iresult Envelope :=
  serve (payload_validated "artifact.commit" from_commit request) be_commit
    (λ r, respond request MtArtifactCommit (RespCommit r)).

Definition handle_state_request (request : Envelope) : World → World * iresult Envelope :=
  serve (payload_validated "state.request" from_state request)
    (λ q, be_snapshot_running (sq_request_id q))
    (λ r, respond request MtStateResponse (RespState r)).

Definition handle_services_list (request : Envelope) : World → World * iresult Envelope :=
  serve (payload_validated "services.list" from_services request)
    (λ q, be_list_service_states (sl_names q))
    (λ services,
       let response := {| sv_services := services |} in
       _ ← map_err (λ e, bad_request "services.list" (ve_to_string e)) (validate response);
       respond request MtServicesList (RespServices response)).

Definition handle_command_cancel (request : Envelope) : World → World * iresult Envelope :=
  serve (payload_validated "command.cancel" from_cancel request)
    (λ q, be_request_cancel (cc_request_id q))
    (λ r, respond request MtCommandCancel (RespCancel r)).

(** A failed invocation is an answer, not an error of the request. *)
Definition handle_rpc_invoke (request : Envelope) : World → World * iresult Envelope :=
  serve (payload_validated "rpc.invoke" from_rpc request)
    (λ q s, let '(s, r) := be_invoke (rt_name (rq_target_service q)) (rq_interface_id q)
                             (rq_function q) (rq_args_cbor q) s in
            (s, Ok match r with
                   | Ok result_cbor => rpc_from_result result_cbor
                   | Err e => rpc_from_error (err_code e) (err_stage e) (err_message e)
                   end))
    (λ r, respond request MtRpcInvoke (RespRpc r)).

Definition handle_bindings_cert_inspect (request : Envelope) : World → World * iresult Envelope :=
  serve (payload_take from_cert_inspect request) (λ _, be_load_server_public_key_hex)
    (λ key, respond request MtBindingsCertInspect (RespCertInspect {| bi_public_key_hex := key |})).

Definition handle_bindings_cert_upload (request : Envelope) (w : World)
    : World * iresult Envelope :=
  match payload_validated "bindings.cert.upload" from_cert_upload request with
  | Err e => (w, Err e)
  | Ok payload =>
    let '(s, r) := be_upsert_tls_known_client_key (bu_authority payload)
                     (bu_public_key_hex payload) (hw_state w) in
    let w := {| hw_keys := hw_keys w; hw_state := s |} in
    match r with
    | Err e => (w, Err e)
    | Ok _ =>
      match upsert_dynamic_client_public_key (bu_public_key_hex payload) (hw_keys w) with
      | Err e => (w, Err e)
      | Ok (keys, updated) =>
        ({| hw_keys := keys; hw_state := hw_state w |},
         respond request MtBindingsCertUpload (RespCertUpload
           {| bp_updated := updated;
              bp_detail := ((if updated then "registered client key for authority "
                             else "client key already registered for authority ")
                            +:+ bu_authority payload)%string |}))
      end
    end
  end.

Definition handle_single (request : Envelope) (auth : SessionAuthContext) (w : World)
    : World * iresult Envelope :=
  match pe_message_type request with
  | MtHelloNegotiate => handle_hello request auth w
  | MtDeployPrepare => handle_prepare request w
  | MtArtifactPush => handle_push request w
  | MtArtifactCommit => handle_commit request w
  | MtStateRequest => handle_state_request request w
  | MtServicesList => handle_services_list request w
  | MtCommandCancel => handle_command_cancel request w
  | MtRpcInvoke => handle_rpc_invoke request w
  | MtBindingsCertInspect => handle_bindings_cert_inspect request w
  | MtBindingsCertUpload => handle_bindings_cert_upload request w
  | _ => (w, Err (new_error BadRequest "dispatch" "unsupported message type"))
  end.

(** ** One request *)

(** [record_hello_request]: what the session remembers of a valid hello. *)
Definition record_hello_request (request : Envelope) (requested : bool) : bool :=
  match payload_take from_hello request with
  | Err _ => requested
  | Ok hello =>
    if is_ok (validate hello)
    then existsb (λ f, bool_decide (f = "logs.stream"%string)) (hq_required_features hello)
    else requested
  end.

(** What serving one request leaves: the world, the features of the session, the envelopes
    handed to the transport and the result of the stream task. *)
Record Served := {
  sd_world : World;
  sd_features : option bool;
  sd_written : list Envelope;
  sd_result : iresult unit;
}.

(** [transport] is the outcome of writing an envelope. *)
Context (transport : Envelope → iresult unit).

Definition write_one (w : World) (features : option bool) (e : Envelope) : Served :=
  {| sd_world := w; sd_features := features;
     sd_written := if is_ok (transport e) then [e] else []; sd_result := transport e |}.

Definition should_wrap_command_start_error (e : ImagodError) : bool :=
  bool_decide (err_stage e = "command.start"%string).
Definition is_benign_logs_request_write_error (e : ImagodError) : bool :=
  bool_decide (err_stage e = "session.write"%string).

Definition handle_parsed_request (has_datagrams : bool) (features : option bool)
    (auth : SessionAuthContext) (parsed : ParsedSingleRequestEnvelope (Value := Value)) (w : World)
    : Served :=
  let request := ps_request parsed in
  let t := pe_message_type request in
  let error_reply t e :=
    error_envelope value_null t (pe_request_id request) (pe_correlation_id request)
      (to_structured e) in
  let features :=
    if decide (t = MtHelloNegotiate) then record_hello_request request <$> features
    else features in
  match ensure_message_type_allowed t auth with
  | Err e => write_one w features (error_reply (response_message_type_for_request t) e)
  | Ok _ =>
    match t with
    | MtArtifactPush =>
      match ps_typed_push parsed with
      | None =>
        write_one w features (error_reply MtArtifactPush (new_error BadRequest "protocol"
          "request payload decode failed: missing artifact.push payload"))
      | Some payload =>
        let '(w, r) := handle_push_typed request payload w in
        write_one w features (match r with Ok resp => resp | Err e => error_reply MtArtifactPush e end)
      end
    | MtCommandStart =>
      let '(s, written, r) := st_command_start request (hw_state w) in
      let w := {| hw_keys := hw_keys w; hw_state := s |} in
      match r with
      | Ok _ => {| sd_world := w; sd_features := features; sd_written := written; sd_result := Ok tt |}
      | Err e =>
        if should_wrap_command_start_error e then
          let d := write_one w features (error_reply MtCommandStart e) in
          {| sd_world := w; sd_features := features; sd_written := written ++ sd_written d;
             sd_result := sd_result d |}
        else
          {| sd_world := w; sd_features := features; sd_written := written; sd_result := Err e |}
      end
    | MtLogsRequest =>
      let '(s, written, r) :=
        st_logs_request has_datagrams (default false features) request (hw_state w) in
      let w := {| hw_keys := hw_keys w; hw_state := s |} in
      match r with
      | Ok _ => {| sd_world := w; sd_features := features; sd_written := written; sd_result := Ok tt |}
      | Err e =>
        if is_benign_logs_request_write_error e then
          {| sd_world := w; sd_features := features; sd_written := written; sd_result := Ok tt |}
        else
          let d := write_one w features (error_reply MtLogsRequest e) in
          {| sd_world := w; sd_features := features; sd_written := written ++ sd_written d;
             sd_result := match sd_result d with
                          | Err e => if is_benign_logs_request_write_error e then Ok tt else Err e
                          | r => r
                          end |}
      end
    | _ =>
      let '(w, r) := handle_single request auth w in
      write_one w features
        (match r with Ok resp => resp
                    | Err e => error_reply (response_message_type_for_request t) e end)
    end
  end.

(** A remote stream: the identity of the session, then the bytes of the stream.  The ids
    of the envelope that reports an unreadable request are fresh. *)
Definition run_stream_io (has_datagrams : bool) (features : option bool)
    (auth : SessionAuthContext) (fresh1 fresh2 : Uuid) (recv : Stream) (w : World) : Served :=
  match (buf ← read_stream_with_timeout recv; parse_single_request_envelope buf) with
  | Err e =>
    write_one w features (error_envelope value_null MtCommandEvent fresh1 fresh2 (to_structured e))
  | Ok None => {| sd_world := w; sd_features := features; sd_written := []; sd_result := Ok tt |}
  | Ok (Some parsed) => handle_parsed_request has_datagrams features auth parsed w
  end.

Definition run_local_stream (peer_cred : result string Z) (daemon_euid : Z)
    (fresh1 fresh2 : Uuid) (recv : Stream) (w : World) : Served :=
  match resolve_local_auth_context peer_cred daemon_euid with
  | Err e => {| sd_world := w; sd_features := None; sd_written := []; sd_result := Err e |}
  | Ok auth =>
    match (buf ← read_terminated_stream recv;
           match buf with Some buf => parse_single_request_envelope buf | None => Ok None end) with
    | Err e =>
      write_one w None (error_envelope value_null MtCommandEvent fresh1 fresh2 (to_structured e))
    | Ok None => {| sd_world := w; sd_features := None; sd_written := []; sd_result := Ok tt |}
    | Ok (Some parsed) => handle_parsed_request false None auth parsed w
    end
  end.

End handlers.

(** ** Hexadecimal keys *)

Lemma decode_hex_nibble_of n : 0 ≤ n < 16 → decode_hex_nibble (hex_nibble n) = Some n.
Proof.
  intros Hn. rewrite <-(Z2Nat.id n) by lia. assert (Z.to_nat n < 16)%nat as Hm by lia.
  generalize dependent (Z.to_nat n). intros m Hm. do 16 (destruct m as [|m]; [done|]). lia.
Qed.

Lemma byte_of_nibbles b :
  byte_of_Z (Z.lor (Z.shiftl (Z_of_byte b / 16) 4) (Z_of_byte b mod 16)) = b.
Proof.
  by destruct b as [[] [] [] [] [] [] [] []].
Qed.


Lemma parse_hex_pairs_encode key : ∀ pos,
  parse_hex_pairs pos (bytes_of (encode_hex key)) = Ok key.
Proof.
  unfold encode_hex. rewrite bytes_of_string_of_bytes.
  induction key as [|b key IH]; intros pos; [done|]. csimpl.
  pose proof (Z_of_byte_bound b). rewrite !decode_hex_nibble_of.
  - simpl. rewrite IH. simpl. by rewrite byte_of_nibbles.
  - split; [apply Z.div_pos; lia|apply Z.div_lt_upper_bound; lia].
  - apply Z.mod_pos_bound. lia.
Qed.

Lemma length_encode_hex key : length (bytes_of (encode_hex key)) = (2 * length key)%nat.
Proof.
  unfold encode_hex. rewrite bytes_of_string_of_bytes.
  induction key as [|b key IH]; [done|]. csimpl. rewrite IH. lia.
Qed.

Lemma parse_encode_hex key :
  length key = 32%nat → parse_ed25519_raw_public_key_hex (encode_hex key) = Ok key.
Proof.
  intros Hl. unfold parse_ed25519_raw_public_key_hex.
  rewrite bool_decide_true by (rewrite length_encode_hex; lia). apply parse_hex_pairs_encode.
Qed.

Lemma encode_hex_not_blank key : key ≠ [] → is_blank (encode_hex key) = false.
Proof.
  destruct key as [|b key]; [done|]. intros _. pose proof (Z_of_byte_bound b).
  apply (not_blank (hex_nibble (Z_of_byte b / 16))).
  - assert (0 ≤ Z_of_byte b / 16 < 16) as Hn
      by (split; [apply Z.div_pos; lia|apply Z.div_lt_upper_bound; lia]).
    rewrite <-(Z2Nat.id (Z_of_byte b / 16)) by lia.
    assert (Z.to_nat (Z_of_byte b / 16) < 16)%nat as Hm by lia.
    generalize dependent (Z.to_nat (Z_of_byte b / 16)). intros m Hm.
    do 16 (destruct m as [|m]; [done|]). lia.
  - unfold encode_hex. rewrite bytes_of_string_of_bytes. csimpl. set_solver.
Qed.

(** ** Theorems *)

Section theorems.
Context `{Serde Value, !Semver} {S : Type} `{!Backend S, !Streaming S Value}
  (config : HandlerConfig) (transport : ProtocolEnvelope Value → iresult unit).

(** One envelope is handed to the transport. *)
Definition sent (d : Served (Value := Value) (S := S)) (e : ProtocolEnvelope Value) : Prop :=
  sd_result d = transport e ∧ sd_written d = if is_ok (transport e) then [e] else [].

(** The answer of a handler, or the error it reports. *)
Definition reply (request : ProtocolEnvelope Value) (r : iresult (ProtocolEnvelope Value))
    : ProtocolEnvelope Value :=
  match r with
  | Ok e => e
  | Err e => error_envelope value_null (response_message_type_for_request (pe_message_type request))
               (pe_request_id request) (pe_correlation_id request) (to_structured e)
  end.

Definition refusal (request : ProtocolEnvelope Value) (e : ProtocolEnvelope Value) : Prop :=
  ∃ err, err_code err = Unauthorized ∧ e = reply request (Err err).

Lemma refusal_sent (w : HandlerWorld S) features request err :
  err_code err = Unauthorized →
  ∃ e, refusal request e ∧ sent (write_one transport w features (reply request (Err err))) e.
Proof. intros He. exists (reply request (Err err)). split; [by exists err|done]. Qed.

Definition client_message (t : MessageType) : Prop := t = MtHelloNegotiate ∨ t = MtRpcInvoke.

#[local] Instance client_message_dec t : Decision (client_message t).
Proof. unfold client_message. apply _. Defined.

(** C7 (safety).  A remote peer is judged by the key it presents, whatever its certificate and
    whatever it sends.  Unless the key is registered and the request is a hello or a remote call,
    the world stays as it is and the only answer is an error: of code unauthorized for a request
    that was read, a report for one that was not.  A hello of a registered key changes nothing and
    is answered by the hello handler, and a remote call is exactly what the call handler does
    and answers.  So no remote peer uploads, deploys, stops, cancels, reads logs or registers
    keys. *)
Theorem remote_peer_confined keys peer auth has_datagrams features fresh1 fresh2 recv w :
  resolve_session_auth_context keys peer = Ok auth →
  let d := run_stream_io (S := S) config transport has_datagrams features auth fresh1 fresh2 recv w in
  ∃ key, extract_peer_public_key peer = Ok key ∧
  match (buf ← read_stream_with_timeout recv; parse_single_request_envelope buf) with
  | Err e => sd_world d = w ∧
      sent d (error_envelope value_null MtCommandEvent fresh1 fresh2 (to_structured e))
  | Ok None => sd_world d = w ∧ sd_written d = []
  | Ok (Some parsed) =>
    let request := ps_request parsed in
    if decide (key ∈ keys ∧ client_message (pe_message_type request)) then
      let '(w', r) := if decide (pe_message_type request = MtHelloNegotiate)
                      then handle_hello config request auth w else handle_rpc_invoke request w in
      sd_world d = w' ∧ sent d (reply request r) ∧
      (pe_message_type request = MtHelloNegotiate → w' = w)
    else sd_world d = w ∧ ∃ e, refusal request e ∧ sent d e
  end.
Proof.
  unfold resolve_session_auth_context, resolve_dynamic_client_role. intros Hauth. inv_ok.
  match goal with Hk : extract_peer_public_key _ = Ok ?k |- _ => rename k into key; exists key; split; [exact Hk|] end.
  unfold run_stream_io. destruct (_ ≫= _) as [[parsed|]|e]; [|done|done]. cbv zeta.
  unfold handle_parsed_request, ensure_message_type_allowed. cbn [sa_role].
  set (request := ps_request parsed). destruct (decide (key ∈ keys)) as [Hin|Hout].
  - destruct (decide (client_message (pe_message_type request))) as [Hc|Hc].
    + rewrite (decide_True (P := _ ∧ _)) by done. destruct Hc as [Et|Et]; rewrite Et; simpl ensure.
      * unfold handle_single. rewrite Et. unfold sent, reply. by rewrite Et.
      * unfold handle_single. rewrite Et. destruct (handle_rpc_invoke request w) as [w' r]. unfold sent, reply. by rewrite Et.
    + rewrite (decide_False (P := _ ∧ _)) by tauto.
      rewrite !bool_decide_false by (unfold client_message in Hc; tauto). simpl ensure.
      split; [done|].
      by apply refusal_sent.
  - rewrite (decide_False (P := _ ∧ _)) by tauto. split; [done|].
    by apply refusal_sent.
Qed.

(** The type and the ids of the envelope a handler answers with. *)
Definition answers (request : ProtocolEnvelope Value) (e : ProtocolEnvelope Value) : Prop :=
  pe_message_type e = response_message_type_for_request (pe_message_type request) ∧
  pe_request_id e = pe_request_id request ∧ pe_correlation_id e = pe_correlation_id request.

Lemma respond_answers request t r e :
  respond request t r = Ok e → t = response_message_type_for_request (pe_message_type request) →
  answers request e.
Proof. unfold respond, response_envelope. intros ? ->. inv_ok. done. Qed.

Lemma serve_answers {T A} (payload : iresult T) (op : T → call S A) ans w w' e request :
  serve payload op ans w = (w', Ok e) → (∀ a, ans a = Ok e → answers request e) → answers request e.
Proof.
  unfold serve. intros Hs Ha. destruct payload as [q|]; [|by simplify_eq].
  destruct (op q (hw_state w)) as [s [a|]]; simplify_eq/=. eauto.
Qed.

Lemma handle_single_answers request auth w w' e :
  handle_single config request auth w = (w', Ok e) → answers request e.
Proof.
  unfold handle_single. destruct (pe_message_type request) eqn:Et; intros Hh; try by simplify_eq.
  - injection Hh as _ Hh. inv_ok. eapply respond_answers; [eassumption|by rewrite Et].
  - eapply serve_answers; [exact Hh|]. intros a Ha. eapply respond_answers; [exact Ha|by rewrite Et].
  - unfold handle_push in Hh. destruct (payload_take _ _); [|by simplify_eq].
    eapply serve_answers; [exact Hh|]. intros a0 Ha. eapply respond_answers; [exact Ha|by rewrite Et].
  - eapply serve_answers; [exact Hh|]. intros a Ha. eapply respond_answers; [exact Ha|by rewrite Et].
  - eapply serve_answers; [exact Hh|]. intros a Ha. eapply respond_answers; [exact Ha|by rewrite Et].
  - eapply serve_answers; [exact Hh|]. intros a Ha. simpl in Ha. inv_ok.
    eapply respond_answers; [eassumption|by rewrite Et].
  - eapply serve_answers; [exact Hh|]. intros a Ha. eapply respond_answers; [exact Ha|by rewrite Et].
  - eapply serve_answers; [exact Hh|]. intros a Ha. eapply respond_answers; [exact Ha|by rewrite Et].
  - eapply serve_answers; [exact Hh|]. intros a Ha. eapply respond_answers; [exact Ha|by rewrite Et].
  - unfold handle_bindings_cert_upload in Hh. repeat case_match; simplify_eq.
    all: eapply respond_answers; [eassumption|by rewrite Et].
Qed.

(** A request that is not answered by a stream of envelopes gets exactly
    one, of the matching response type and with the ids of the request, whether it is
    served, refused or fails. *)
Theorem single_response_correlates has_datagrams features auth parsed (w : HandlerWorld S) :
  pe_message_type (ps_request parsed) ≠ MtCommandStart →
  pe_message_type (ps_request parsed) ≠ MtLogsRequest →
  let d := handle_parsed_request config transport has_datagrams features auth parsed w in
  ∃ e, answers (ps_request parsed) e ∧ sd_result d = transport e ∧
    sd_written d = if is_ok (transport e) then [e] else [].
Proof.
  intros Hcs Hlr d. unfold d, handle_parsed_request.
  set (request := ps_request parsed) in *.
  assert (Herr : ∀ e, answers request (error_envelope value_null
    (response_message_type_for_request (pe_message_type request)) (pe_request_id request)
    (pe_correlation_id request) e)) by done.
  destruct (ensure_message_type_allowed _ auth) as [[]|]; [|eexists; split; [apply Herr|done]].
  assert (Hsingle : ∀ features, ∃ e, answers request e ∧
    sd_result (let '(w, r) := handle_single config request auth w in
      write_one transport w features (match r with Ok resp => resp | Err e =>
        error_envelope value_null (response_message_type_for_request (pe_message_type request))
          (pe_request_id request) (pe_correlation_id request) (to_structured e) end)) = transport e ∧
    sd_written (let '(w, r) := handle_single config request auth w in
      write_one transport w features (match r with Ok resp => resp | Err e =>
        error_envelope value_null (response_message_type_for_request (pe_message_type request))
          (pe_request_id request) (pe_correlation_id request) (to_structured e) end)) =
      if is_ok (transport e) then [e] else []).
  { intros f. destruct (handle_single config request auth w) as [w' [resp|err]] eqn:Eh;
      [|eexists; split; [apply Herr|done]].
    eexists. split; [by eapply handle_single_answers|done]. }
  destruct (pe_message_type request) eqn:Et; try done; try apply Hsingle.
  destruct (ps_typed_push parsed) as [payload|]; [|eexists; split; [apply Herr|done]].
  destruct (handle_push_typed request payload w) as [w' [resp|err]] eqn:Eh;
    [|eexists; split; [apply Herr|done]].
  eexists. split; [|done]. eapply serve_answers; [exact Eh|]. intros a Ha.
  eapply respond_answers; [exact Ha|by rewrite Et].
Qed.

(** The payload of a request decodes and passes the validation of its message. *)
Definition payload_ok {T} `{Validate T} (from_value : Value → result string T)
    (request : ProtocolEnvelope Value) : Prop :=
  ∃ q, from_value (pe_payload request) = Ok q ∧ validate q = Ok tt.

Definition valid_request (request : ProtocolEnvelope Value) : Prop :=
  match pe_message_type request with
  | MtDeployPrepare => payload_ok from_prepare request
  | MtArtifactPush => payload_ok from_push request
  | MtArtifactCommit => payload_ok from_commit request
  | MtStateRequest => payload_ok from_state request
  | MtServicesList => payload_ok from_services request
  | MtCommandCancel => payload_ok from_cancel request
  | MtRpcInvoke => payload_ok from_rpc request
  | MtBindingsCertInspect => ∃ u, from_cert_inspect (pe_payload request) = Ok u
  | MtBindingsCertUpload => payload_ok from_cert_upload request
  | _ => False
  end.

Lemma payload_take_Ok {T} (from_value : Value → result string T) request q :
  payload_take from_value request = Ok q → from_value (pe_payload request) = Ok q.
Proof. unfold payload_take. by destruct (from_value _); intros [=->]. Qed.

Lemma payload_validated_ok {T} `{Validate T} stage (from_value : Value → result string T) request q :
  payload_validated stage from_value request = Ok q → payload_ok from_value request.
Proof.
  unfold payload_validated. intros Hp. inv_ok. eexists. split; [by eapply payload_take_Ok|].
  match goal with H : validate _ = Ok ?u |- _ => by destruct u end.
Qed.

Lemma serve_unchanged {T A} (payload : iresult T) (op : T → call S A)
    (ans : A → iresult (ProtocolEnvelope Value)) w :
  (serve payload op ans w).1 ≠ w → ∃ q, payload = Ok q.
Proof. unfold serve. destruct payload; [eauto|done]. Qed.

(** No request changes the stores or the registered keys unless its payload
    decodes and passes the validation of its message. *)
Theorem only_valid_requests_act request auth (w : HandlerWorld S) :
  (handle_single config request auth w).1 ≠ w → valid_request request.
Proof.
  unfold handle_single, valid_request.
  destruct (pe_message_type request); intros Hne; try done.
  - apply serve_unchanged in Hne as [q Hq]. by eapply payload_validated_ok.
  - unfold handle_push in Hne. destruct (payload_take _ _) as [q|] eqn:Hq; [|done].
    apply payload_take_Ok in Hq. apply serve_unchanged in Hne as [q' Hv]. inv_ok.
    exists q'. split; [done|].
    match goal with H : validate _ = Ok ?u |- _ => by destruct u end.
  - apply serve_unchanged in Hne as [q Hq]. by eapply payload_validated_ok.
  - apply serve_unchanged in Hne as [q Hq]. by eapply payload_validated_ok.
  - apply serve_unchanged in Hne as [q Hq]. by eapply payload_validated_ok.
  - apply serve_unchanged in Hne as [q Hq]. by eapply payload_validated_ok.
  - apply serve_unchanged in Hne as [q Hq]. by eapply payload_validated_ok.
  - apply serve_unchanged in Hne as [q Hq]. eexists. by eapply payload_take_Ok.
  - unfold handle_bindings_cert_upload in Hne.
    destruct (payload_validated _ _ _) eqn:Hq; [|done]. by eapply payload_validated_ok.
Qed.

(** Registering a key makes its holder a client and changes the role of
    nobody else: the hexadecimal text of any 32-byte key is accepted and stands for exactly
    that key, and nobody becomes an administrator. *)
Theorem key_upload_grants_client request key authority (w : HandlerWorld S) s :
  length key = 32%nat → is_blank authority = false →
  from_cert_upload (pe_payload request) =
    Ok {| bu_public_key_hex := encode_hex key; bu_authority := authority |} →
  be_upsert_tls_known_client_key authority (encode_hex key) (hw_state w) = (s, Ok tt) →
  let w' := (handle_bindings_cert_upload request w).1 in
  hw_state w' = s ∧
  ∀ k, resolve_dynamic_client_role (hw_keys w') k =
    if decide (k = key) then Client else resolve_dynamic_client_role (hw_keys w) k.
Proof.
  clear config transport. intros Hlen Hauth Hfrom Hup. simpl.
  unfold handle_bindings_cert_upload.
  assert (payload_validated "bindings.cert.upload" from_cert_upload request =
    Ok {| bu_public_key_hex := encode_hex key; bu_authority := authority |}) as ->.
  { unfold payload_validated, payload_take. rewrite Hfrom. simpl.
    unfold validate, BindingsCertUploadRequest_validate. simpl. unfold ensure_non_empty.
    rewrite (encode_hex_not_blank key), Hauth by (by intros ->). done. }
  simpl. rewrite Hup. simpl. unfold upsert_dynamic_client_public_key.
  rewrite parse_encode_hex by done. simpl. split; [done|]. intros k.
  unfold resolve_dynamic_client_role. repeat case_decide; set_solver.
Qed.

End theorems.

(** ** Concrete instances *)

(** A JSON value stands for the one payload these requests carry. *)
Inductive demo_value := VNull | VRpc | VUpload | VPrepare.

Definition demo_key : list byte := replicate 32 zero.
Definition demo_rpc : RpcInvokeRequest :=
  {| rq_interface_id := "a:b/c"; rq_function := "f"; rq_args_cbor := [];
     rq_target_service := {| rt_name := "web" |} |}.
Definition demo_upload_key : BindingsCertUploadRequest :=
  {| bu_public_key_hex := encode_hex demo_key; bu_authority := "peer" |}.

Definition demo_envelope (t : MessageType) (v : demo_value) : ProtocolEnvelope demo_value :=
  new_envelope t 1%N 2%N v.

Definition no_payload {T} (_ : demo_value) : result string T := Err "no payload"%string.

#[local] Instance demo_serde : Serde demo_value := {|
  value_null := VNull;
  from_hello := no_payload; from_prepare := no_payload; from_push := no_payload;
  from_commit := no_payload; from_state := no_payload; from_services := no_payload;
  from_cancel := no_payload;
  from_rpc v := match v with VRpc => Ok demo_rpc | _ => Err "x"%string end;
  from_cert_inspect := no_payload;
  from_cert_upload v := match v with VUpload => Ok demo_upload_key | _ => Err "x"%string end;
  to_value _ := Ok VNull;
  header_from_cbor bs :=
    match bs with [] => Ok (MtRpcInvoke, 1%N, 2%N) | _ => Ok (MtDeployPrepare, 1%N, 2%N) end;
  push_from_cbor _ := Err "x"%string;
  envelope_from_cbor bs :=
    match bs with [] => Ok (demo_envelope MtRpcInvoke VRpc)
                | _ => Ok (demo_envelope MtDeployPrepare VPrepare) end;
|}.

#[local] Instance demo_semver : Semver := {|
  Version := unit; VersionReq := unit; version_parse _ := Some tt; version_req_parse _ := Ok tt;
  version_matches _ _ := true;
|}.

(** A store that counts the calls that reach it. *)
Definition counted {A} (a : A) : call nat A := λ n, (S n, Ok a).

#[local] Instance demo_backend : Backend nat := {|
  be_prepare _ n := (S n, Err (bad_request "x" "x"));
  be_push _ n := (S n, Err (bad_request "x" "x"));
  be_commit _ n := (S n, Err (bad_request "x" "x"));
  be_snapshot_running _ n := (S n, Err (bad_request "x" "x"));
  be_list_service_states _ := counted [];
  be_request_cancel _ n := (S n, Err (bad_request "x" "x"));
  be_invoke _ _ _ args := counted args;
  be_load_server_public_key_hex := counted "k"%string;
  be_upsert_tls_known_client_key _ _ := counted tt;
|}.

#[local] Instance demo_streaming : Streaming nat demo_value := {|
  st_command_start _ n := (S n, [], Ok tt);
  st_logs_request _ _ _ n := (S n, [], Ok tt);
|}.

Definition demo_config : HandlerConfig :=
  {| hc_server_version := "1"; hc_chunk_size := 1; hc_max_inflight_chunks := 1;
     hc_max_artifact_size_bytes := 1; hc_upload_session_ttl_secs := 1;
     hc_deploy_stream_timeout_secs := 1 |}.

Definition demo_peer : option PeerIdentity := Some (Certificates [ED25519_SPKI_PREFIX ++ demo_key]).
Definition demo_keys_world : HandlerWorld nat := {| hw_keys := {[demo_key]}; hw_state := 0%nat |}.

(** A registered peer invokes; the same peer tries to upload. *)
Lemma remote_peer_confined_witness :
  ∃ auth, resolve_session_auth_context {[demo_key]} demo_peer = Ok auth ∧
  sa_role auth = Client ∧
  hw_state (sd_world (run_stream_io demo_config (λ _, Ok tt) true (Some false) auth 3%N 4%N
    {| sm_bytes := encode_frame []; sm_end := Eof |} demo_keys_world)) = 1%nat ∧
  sd_world (run_stream_io demo_config (λ _, Ok tt) true (Some false) auth 3%N 4%N
    {| sm_bytes := encode_frame [zero]; sm_end := Eof |} demo_keys_world) = demo_keys_world.
Proof.
  eexists. split; [vm_compute; reflexivity|]. split; [reflexivity|].
  split; [vm_compute; reflexivity|].
  edestruct (remote_peer_confined demo_config (λ _, Ok tt) {[demo_key]} demo_peer
    {| sa_role := Client; sa_public_key_hex := encode_hex demo_key |} true (Some false) 3%N 4%N
    {| sm_bytes := encode_frame [zero]; sm_end := Eof |} demo_keys_world)
    as (key & Hk & Hd); [vm_compute; reflexivity|].
  assert ((buf ← read_stream_with_timeout {| sm_bytes := encode_frame [zero]; sm_end := Eof |};
           parse_single_request_envelope buf) =
    Ok (Some {| ps_request := demo_envelope MtDeployPrepare VPrepare; ps_typed_push := None |})) as E
    by (vm_compute; reflexivity).
  rewrite E in Hd. cbv zeta in Hd. rewrite decide_False in Hd by (by intros [_ [?|?]]).
  exact (proj1 Hd).
Defined.

Lemma single_response_correlates_witness :
  ∃ e, sd_written (handle_parsed_request demo_config (λ _, Ok tt) false None
      {| sa_role := Unknown; sa_public_key_hex := "k" |}
      {| ps_request := demo_envelope MtStateRequest VNull; ps_typed_push := None |}
      demo_keys_world) = [e] ∧
    pe_message_type e = MtStateResponse ∧ pe_request_id e = 1%N ∧ pe_correlation_id e = 2%N.
Proof.
  edestruct (single_response_correlates demo_config (λ _, Ok tt) false None
      {| sa_role := Unknown; sa_public_key_hex := "k" |}
      {| ps_request := demo_envelope MtStateRequest VNull; ps_typed_push := None |}
      demo_keys_world) as (e & Ha & _ & Hw).
  - discriminate.
  - discriminate.
  - exists e. split; [exact Hw|exact Ha].
Defined.

Lemma only_valid_requests_act_witness :
  payload_ok from_rpc (demo_envelope MtRpcInvoke VRpc).
Proof.
  apply (only_valid_requests_act demo_config (demo_envelope MtRpcInvoke VRpc)
    {| sa_role := Client; sa_public_key_hex := "k" |} demo_keys_world).
  vm_compute. discriminate.
Defined.

Lemma key_upload_grants_client_witness :
  resolve_dynamic_client_role
    (hw_keys (handle_bindings_cert_upload (demo_envelope MtBindingsCertUpload VUpload)
       {| hw_keys := ∅; hw_state := 0%nat |}).1) demo_key = Client.
Proof.
  edestruct (key_upload_grants_client (demo_envelope MtBindingsCertUpload VUpload) demo_key "peer"
    {| hw_keys := ∅; hw_state := 0%nat |}) as [_ Hk].
  - reflexivity.
  - vm_compute. reflexivity.
  - reflexivity.
  - reflexivity.
  - rewrite Hk. reflexivity.
Defined.
