(* ===== verification/Text.v ===== *)
(** * Text, integers and paths of the standard library

    What the daemon uses of [str], [u64::from_str] and [std::path] beyond the prelude:
    splitting at a character, ASCII case, the decimal parser and the components of a Unix
    path. *)

From S2P Require Import Prelude.

Open Scope Z_scope.

(** ** Splitting *)

(** [s.split_once(sep)]: at the first separator. *)
Fixpoint split_once (sep : ascii) (s : string) : option (string * string) :=
  match s with
  | EmptyString => None
  | String c r =>
    if decide (c = sep) then Some ("", r)
    else '(a, b) ← split_once sep r; Some (String c a, b)
  end.

(** [s.rsplit_once(sep)]: at the last separator. *)
Fixpoint rsplit_once (sep : ascii) (s : string) : option (string * string) :=
  match s with
  | EmptyString => None
  | String c r =>
    match rsplit_once sep r with
    | Some (a, b) => Some (String c a, b)
    | None => if decide (c = sep) then Some ("", r) else None
    end
  end.

(** [s.split(sep)]. *)
Fixpoint split (sep : ascii) (s : string) : list string :=
  match s with
  | EmptyString => [""]
  | String c r =>
    if decide (c = sep) then "" :: split sep r
    else match split sep r with
         | [] => []
         | first :: rest => String c first :: rest
         end
  end.

(** [s.matches(c).count()]. *)
Definition count_char (c : ascii) (s : string) : nat :=
  length (filter (λ x, x = c) (bytes_of s)).

(** [s.chars().any(char::is_whitespace)]. *)
Definition has_whitespace (s : string) : bool :=
  existsb (λ w, str_contains w s) white_space.

(** ** ASCII case *)

Definition ascii_lower (c : ascii) : ascii :=
  if is_ascii_upper c then ascii_of_N (code c + 32) else c.

Fixpoint to_ascii_lowercase (s : string) : string :=
  match s with
  | EmptyString => EmptyString
  | String c r => String (ascii_lower c) (to_ascii_lowercase r)
  end.

Definition eq_ignore_ascii_case (s t : string) : bool :=
  bool_decide (to_ascii_lowercase s = to_ascii_lowercase t).

(** ** Decimal integers

    [str::parse] for an unsigned type with the given maximum: an optional plus sign, then
    at least one digit. *)

Fixpoint parse_digits (max acc : Z) (s : string) : result string Z :=
  match s with
  | EmptyString => Ok acc
  | String c r =>
    if is_ascii_digit c then
      let acc := acc * 10 + (Z.of_N (code c) - 48) in
      if max <? acc then Err "number too large to fit in target type"
      else parse_digits max acc r
    else Err "invalid digit found in string"
  end.

Definition parse_uint (max : Z) (s : string) : result string Z :=
  match s with
  | EmptyString => Err "cannot parse integer from empty string"
  | String "+" EmptyString => Err "invalid digit found in string"
  | String "+" r => parse_digits max 0 r
  | _ => parse_digits max 0 s
  end.

Lemma parse_digits_bound max s : ∀ acc n,
  0 ≤ acc ≤ max → parse_digits max acc s = Ok n → 0 ≤ n ≤ max.
Proof.
  induction s as [|c s IH]; intros acc n Ha; simpl; [by intros [= <-]|].
  destruct (is_ascii_digit c) eqn:Hd; [|done].
  destruct (Z.ltb_spec max (acc * 10 + (Z.of_N (code c) - 48))); [done|]. apply IH.
  unfold is_ascii_digit in Hd. apply andb_true_iff in Hd as [Hd _]. apply N.leb_le in Hd. lia.
Qed.

Lemma parse_uint_bound max s n : 0 ≤ max → parse_uint max s = Ok n → 0 ≤ n ≤ max.
Proof.
  intros Hm. assert (∀ t, parse_digits max 0 t = Ok n → 0 ≤ n ≤ max) as Hp
    by (intros t; apply parse_digits_bound; lia).
  unfold parse_uint. repeat (case_match; try done); eauto.
Qed.

(** Printing a number and parsing it back. *)
Lemma pretty_N_char_digit x :
  (x < 10)%N →
  is_ascii_digit (pretty_N_char x) = true ∧ Z.of_N (code (pretty_N_char x)) - 48 = Z.of_N x.
Proof.
  intros Hx. assert (x = 0 ∨ x = 1 ∨ x = 2 ∨ x = 3 ∨ x = 4 ∨ x = 5 ∨ x = 6 ∨ x = 7 ∨ x = 8
    ∨ x = 9)%N as Hc by lia.
  by repeat destruct Hc as [->|Hc]; [..|subst].
Qed.

Lemma parse_digits_pretty max x : ∀ s, Z.of_N x ≤ max →
  parse_digits max 0 (pretty_N_go x s) = parse_digits max (Z.of_N x) s.
Proof.
  induction (N.lt_wf_0 x) as [x _ IH]. intros s Hx. destruct (decide (0 < x)%N) as [Hp|Hp].
  2: { assert (x = 0%N) as -> by lia. by rewrite pretty_N_go_0. }
  pose proof (N.div_mod x 10 ltac:(done)) as Hdm. pose proof (N.mod_lt x 10 ltac:(done)) as Hm.
  pose proof (N.div_lt x 10 Hp ltac:(done)) as Hlt.
  rewrite pretty_N_go_step by done. revert Hdm Hm Hlt.
  generalize (x `div` 10)%N (x `mod` 10)%N. intros d m Hdm Hm Hlt.
  rewrite IH by (done || lia). simpl. destruct (pretty_N_char_digit m) as [-> ->]; [done|].
  replace (Z.of_N d * 10 + Z.of_N m) with (Z.of_N x) by lia.
  by rewrite (proj2 (Z.ltb_ge _ _)).
Qed.

Lemma parse_uint_to_string max z : 0 ≤ z ≤ max → parse_uint max (to_string z) = Ok z.
Proof.
  intros [Hz Hm].
  assert (to_string z = pretty (Z.to_N z)) as -> by by destruct z.
  pose proof (pretty_N_digits (Z.to_N z)) as Hd. pose proof (pretty_N_nonempty (Z.to_N z)) as Hne.
  assert (parse_digits max 0 (pretty (Z.to_N z)) = Ok z) as Hp.
  { unfold pretty, pretty_N. case_decide as E.
    - assert (z = 0) as -> by lia. simpl. by rewrite (proj2 (Z.ltb_ge _ _)).
    - rewrite parse_digits_pretty by lia. simpl. f_equal. lia. }
  destruct (pretty (Z.to_N z)) as [|c r]; [done|].
  unfold all_chars in Hd. simpl in Hd. apply andb_true_iff in Hd as [Hc _].
  unfold parse_uint. by repeat case_match.
Qed.

(** ** Paths

    [Path::components] on Unix: the separator never repeats, a single dot counts only as
    the first component of a relative path, and there are no prefixes. *)

Inductive Component :=
  | RootDir
  | CurDir
  | ParentDir
  | Normal (name : string).

#[export] Instance Component_eq_dec : EqDecision Component.
Proof. solve_decision. Defined.

Definition component_of (part : string) : list Component :=
  if bool_decide (part = "") || bool_decide (part = ".") then []
  else if bool_decide (part = "..") then [ParentDir]
  else [Normal part].

Definition components (path : string) : list Component :=
  let parts := split "/"%char path in
  (if starts_with "/" path then [RootDir]
   else if bool_decide (head parts = Some ".") then [CurDir] else [])
  ++ (parts ≫= component_of).

Definition is_absolute (path : string) : bool := starts_with "/" path.

(** A word in double quotes, as messages print it. *)
Definition quoted (s : string) : string := String "034"%char (s +:+ String "034"%char "")%string.

(** ** Lemmas *)

Lemma starts_with_char c s :
  starts_with (String c "") s = true ↔ head (bytes_of s) = Some c.
Proof.
  unfold starts_with. rewrite bool_decide_eq_true. destruct s as [|b s]; simpl.
  - split; [by intros [? ?]|done].
  - case_decide as E; [subst; by split; [|intros; eexists]|].
    split; [by intros [? ?]|]. intros [= ?]. by subst.
Qed.

Lemma str_contains_char c s : str_contains (String c "") s = true ↔ c ∈ bytes_of s.
Proof.
  induction s as [|b s IH]; simpl.
  - split; [done|by intros ?%elem_of_nil].
  - rewrite orb_true_iff, starts_with_char, IH, elem_of_cons. simpl. naive_solver.
Qed.

Lemma rsplit_once_none sep s : sep ∉ bytes_of s → rsplit_once sep s = None.
Proof.
  induction s as [|c s IH]; [done|]. cbn. intros [Hc Hs]%not_elem_of_cons.
  rewrite IH by done. by rewrite decide_False.
Qed.

Lemma rsplit_once_last sep a b :
  sep ∉ bytes_of b → rsplit_once sep (a +:+ String sep b)%string = Some (a, b).
Proof.
  intros Hn%rsplit_once_none. induction a as [|c a IH].
  - change (("" +:+ String sep b)%string) with (String sep b). cbn [rsplit_once].
    by rewrite Hn, decide_True.
  - change ((String c a +:+ String sep b)%string) with (String c (a +:+ String sep b)%string).
    cbn [rsplit_once]. by rewrite IH.
Qed.

Lemma split_once_spec sep s a b :
  split_once sep s = Some (a, b) ↔ s = (a +:+ String sep b)%string ∧ sep ∉ bytes_of a.
Proof.
  revert a. induction s as [|c s IH]; intros a; simpl.
  - split; [done|]. intros [E _]. by destruct a.
  - case_decide as Hc; subst.
    + split.
      * intros [= <- <-]. split; [done|]. simpl. by intros ?%elem_of_nil.
      * intros [E Hn]. destruct a as [|x a]; [by injection E as ->|].
        injection E as -> E. destruct Hn. simpl. left.
    + destruct (split_once sep s) as [[x y]|] eqn:Es; simpl.
      * split.
        -- intros [= <- <-]. destruct (proj1 (IH x) eq_refl) as [-> Hn].
           split; [done|]. simpl. rewrite elem_of_cons. naive_solver.
        -- intros [E Hn]. destruct a as [|z a]; [by injection E as -> _|].
           injection E as <- E. simpl in Hn. apply not_elem_of_cons in Hn as [_ Hn].
           injection (proj2 (IH a) (conj E Hn)) as -> ->. done.
      * split; [done|]. intros [E Hn]. destruct a as [|z a]; [by injection E as -> _|].
        injection E as <- E. simpl in Hn. apply not_elem_of_cons in Hn as [_ Hn].
        by discriminate (proj2 (IH a) (conj E Hn)).
Qed.

(** *** Reversal *)

Lemma bytes_of_rev_eq s : bytes_of (String.rev s) = reverse (bytes_of s).
Proof.
  unfold String.rev.
  assert (∀ acc, bytes_of (String.rev_app s acc) = reverse (bytes_of s) ++ bytes_of acc) as Hgo.
  { induction s as [|c s IH]; intros acc; simpl; [done|].
    rewrite IH. simpl. by rewrite reverse_cons, <-app_assoc. }
  by rewrite Hgo, app_nil_r.
Qed.

Lemma string_rev_app s t : (String.rev (s +:+ t) = String.rev t +:+ String.rev s)%string.
Proof. apply bytes_of_inj. by rewrite bytes_of_app, !bytes_of_rev_eq, bytes_of_app, reverse_app. Qed.

Lemma string_rev_involutive s : String.rev (String.rev s) = s.
Proof. apply bytes_of_inj. by rewrite !bytes_of_rev_eq, reverse_involutive. Qed.

Lemma ends_with_char c s :
  ends_with (String c "") s = true ↔ last (bytes_of s) = Some c.
Proof.
  unfold ends_with. change (String.rev (String c "")) with (String c "").
  by rewrite starts_with_char, bytes_of_rev_eq, head_reverse.
Qed.

(** *** White space *)

Lemma str_contains_app p s t : str_contains p (s +:+ p +:+ t)%string = true.
Proof.
  assert (starts_with p (p +:+ t) = true) as Hp.
  { unfold starts_with. apply bool_decide_eq_true_2. exists t. by apply strip_prefix_app. }
  assert (str_contains p (p +:+ t) = true) as Hc
    by (destruct (p +:+ t)%string; simpl in *; by rewrite Hp).
  induction s as [|c s IH]; [exact Hc|].
  change ((String c s +:+ p +:+ t)%string) with (String c (s +:+ p +:+ t)).
  cbn [str_contains]. by rewrite IH, orb_true_r.
Qed.

Lemma no_whitespace s w : has_whitespace s = false → w ∈ white_space → str_contains w s = false.
Proof.
  unfold has_whitespace. intros Hs Hw. apply not_true_iff_false. intros Hc.
  apply not_true_iff_false in Hs. apply Hs, existsb_exists.
  exists w. split; [by apply list_elem_of_In|done].
Qed.

Lemma strip_all_id fuel pats s :
  (∀ p, p ∈ pats → strip_prefix p s = None) → strip_all fuel pats s = s.
Proof.
  destruct fuel as [|fuel]; [done|]. intros Hp. simpl.
  destruct (omap _ pats) as [|s' l] eqn:E; [done|].
  assert (s' ∈ omap (λ p, strip_prefix p s) pats) as Hin by (rewrite E; left).
  apply list_elem_of_omap in Hin as (p & Hin & Hs). by rewrite (Hp p Hin) in Hs.
Qed.

Lemma trim_id s : has_whitespace s = false → trim s = s.
Proof.
  intros Hs. unfold trim, trim_end, trim_start.
  rewrite (strip_all_id _ white_space).
  2:{ intros p Hp. destruct (strip_prefix p s) as [r|] eqn:E; [|done].
      apply strip_prefix_app in E. apply (no_whitespace s p) in Hp; [|done].
      pose proof (str_contains_app p "" r) as Hc. change (("" +:+ p +:+ r)%string) with (p +:+ r)%string in Hc.
      rewrite <-E in Hc. congruence. }
  rewrite strip_all_id; [by rewrite string_rev_involutive|].
  intros p' (p & -> & Hp)%list_elem_of_fmap.
  destruct (strip_prefix (String.rev p) (String.rev s)) as [r|] eqn:E; [|done].
  apply strip_prefix_app in E. apply (f_equal String.rev) in E.
  rewrite string_rev_app, !string_rev_involutive in E. apply (no_whitespace s p) in Hp; [|done].
  pose proof (str_contains_app p (String.rev r) "") as Hc.
  assert ((p +:+ "")%string = p) as Hnil by (apply bytes_of_inj; by rewrite bytes_of_app, app_nil_r).
  rewrite Hnil, <-E in Hc. congruence.
Qed.

(** Text made of printable characters has no white space. *)
Lemma str_contains_elem p s c : str_contains p s = true → c ∈ bytes_of p → c ∈ bytes_of s.
Proof.
  intros Hc Hp. induction s as [|b s IH]; simpl in Hc.
  - rewrite orb_false_r in Hc. apply bool_decide_eq_true in Hc as [r Hr].
    apply strip_prefix_app in Hr. rewrite Hr, bytes_of_app. apply elem_of_app. by left.
  - apply orb_true_iff in Hc as [Hc|Hc].
    + apply bool_decide_eq_true in Hc as [r Hr]. apply strip_prefix_app in Hr.
      rewrite Hr, bytes_of_app. apply elem_of_app. by left.
    + simpl. right. by apply IH.
Qed.

Lemma graphic_no_whitespace s : all_chars is_ascii_graphic s = true → has_whitespace s = false.
Proof.
  intros Hall. apply not_true_iff_false. intros (w & Hw & Hc)%existsb_exists.
  apply list_elem_of_In in Hw.
  assert (Forall (λ p, ∃ c, c ∈ bytes_of p ∧ is_ascii_graphic c = false) white_space) as Hws.
  { assert (Forall (λ p, match bytes_of p with
      | c :: _ => negb (is_ascii_graphic c) | [] => false end = true) white_space) as Hb
      by (apply (bool_decide_unpack _); vm_compute; exact I).
    eapply Forall_impl; [exact Hb|]. intros p Hp. cbn beta in Hp.
    destruct (bytes_of p) as [|c r]; [done|].
    exists c. split; [left|by apply negb_true_iff]. }
  rewrite Forall_forall in Hws. destruct (Hws w Hw) as (c & Hin & Hg).
  apply (str_contains_elem w s c Hc) in Hin. unfold all_chars in Hall.
  rewrite forallb_forall in Hall. specialize (Hall c (proj1 (list_elem_of_In _ _) Hin)). congruence.
Qed.

(** *** ASCII case *)

Lemma bytes_of_lower s : bytes_of (to_ascii_lowercase s) = ascii_lower <$> bytes_of s.
Proof. induction s as [|c s IH]; [done|]. simpl. by f_equal. Qed.

Lemma ascii_lower_idemp c : ascii_lower (ascii_lower c) = ascii_lower c.
Proof. by destruct c as [[] [] [] [] [] [] [] []]. Qed.

Lemma lower_idemp s : to_ascii_lowercase (to_ascii_lowercase s) = to_ascii_lowercase s.
Proof. induction s as [|c s IH]; [done|]. simpl. by rewrite ascii_lower_idemp, IH. Qed.

Definition is_letter (c : ascii) : bool := is_ascii_upper c || is_ascii_lower c.

Lemma ascii_lower_letter b c : is_letter c = false → ascii_lower b = c ↔ b = c.
Proof.
  intros Hc. split.
  - intros <-. revert Hc. by destruct b as [[] [] [] [] [] [] [] []].
  - intros ->. revert Hc. by destruct c as [[] [] [] [] [] [] [] []].
Qed.

Lemma strip_prefix_lower p s :
  all_chars (λ c, negb (is_letter c)) p = true →
  strip_prefix p (to_ascii_lowercase s) = to_ascii_lowercase <$> strip_prefix p s.
Proof.
  revert s. induction p as [|c p IH]; intros s Hp; [done|].
  unfold all_chars in Hp. simpl in Hp. apply andb_true_iff in Hp as [Hc Hp].
  apply negb_true_iff in Hc. destruct s as [|b s]; [done|]. simpl.
  destruct (decide (b = c)) as [->|Hne].
  - rewrite decide_True, decide_True by (done || (symmetry; by apply ascii_lower_letter)). by apply IH.
  - rewrite decide_False, decide_False; [done|congruence|].
    intros E. symmetry in E. by apply (ascii_lower_letter b c Hc) in E.
Qed.

Lemma str_contains_lower p s :
  all_chars (λ c, negb (is_letter c)) p = true →
  str_contains p (to_ascii_lowercase s) = str_contains p s.
Proof.
  intros Hp. assert (∀ t, starts_with p (to_ascii_lowercase t) = starts_with p t) as Hst.
  { intros t. unfold starts_with. rewrite strip_prefix_lower by done.
    apply bool_decide_ext. apply fmap_is_Some. }
  induction s as [|c s IH]; [done|]. cbn [str_contains to_ascii_lowercase]. rewrite IH. f_equal.
  apply (Hst (String c s)).
Qed.

Lemma has_whitespace_lower s : has_whitespace (to_ascii_lowercase s) = has_whitespace s.
Proof.
  unfold has_whitespace.
  assert (Forall (λ p, all_chars (λ c, negb (is_letter c)) p = true) white_space) as Hws
    by (apply (bool_decide_unpack _); vm_compute; exact I).
  induction Hws as [|w ws Hw _ IH]; [done|]. simpl. by rewrite str_contains_lower, IH.
Qed.

(** ** Lossy UTF-8

    [String::from_utf8_lossy]: every maximal prefix of an ill-formed sequence becomes one
    replacement character. *)

Definition in_range (lo hi : N) (c : byte) : bool := (lo <=? code c)%N && (code c <=? hi)%N.

(** How many bytes the second byte range of a leading byte admits: the number of
    continuation bytes and the range of the first of them. *)
Definition utf8_lead (c : byte) : option (nat * N * N) :=
  if in_range 194 223 c then Some (1%nat, 128, 191)%N
  else if in_range 224 224 c then Some (2%nat, 160, 191)%N
  else if in_range 225 236 c || in_range 238 239 c then Some (2%nat, 128, 191)%N
  else if in_range 237 237 c then Some (2%nat, 128, 159)%N
  else if in_range 240 240 c then Some (3%nat, 144, 191)%N
  else if in_range 241 243 c then Some (3%nat, 128, 191)%N
  else if in_range 244 244 c then Some (3%nat, 128, 143)%N
  else None.

(** The continuation bytes present: how many of [n] were found. *)
Fixpoint utf8_tail (n : nat) (lo hi : N) (bs : list byte) : nat :=
  match n, bs with
  | S n, b :: bs => if in_range lo hi b then S (utf8_tail n 128 191 bs) else O
  | _, _ => O
  end.

Definition replacement : list byte := ascii_of_N <$> [239; 191; 189]%N.

Fixpoint utf8_lossy (fuel : nat) (bs : list byte) : list byte :=
  match fuel, bs with
  | S fuel, b :: rest =>
    if (code b <? 128)%N then b :: utf8_lossy fuel rest
    else match utf8_lead b with
         | None => replacement ++ utf8_lossy fuel rest
         | Some (n, lo, hi) =>
           let found := utf8_tail n lo hi rest in
           (if bool_decide (found = n) then b :: take n rest else replacement)
           ++ utf8_lossy fuel (drop found rest)
         end
  | _, _ => []
  end.

Definition from_utf8_lossy (bs : list byte) : string := string_of_bytes (utf8_lossy (length bs) bs).

(** ** Characters of texts *)

Local Open Scope string_scope.

Lemma all_chars_elem f s c : all_chars f s = true → c ∈ bytes_of s → f c = true.
Proof.
  unfold all_chars. rewrite forallb_forall. intros Hf Hc. by apply Hf, list_elem_of_In.
Qed.

Lemma all_chars_without f s c : all_chars f s = true → f c = false → c ∉ bytes_of s.
Proof. intros Hs Hc Hin. pose proof (all_chars_elem _ _ _ Hs Hin). congruence. Qed.

Lemma not_contains c s : str_contains (String c "") s = false ↔ c ∉ bytes_of s.
Proof. rewrite <-str_contains_char. by destruct (str_contains _ s). Qed.

Lemma rsplit_once_some sep s a b : rsplit_once sep s = Some (a, b) → s = a +:+ String sep b.
Proof.
  revert a b. induction s as [|c s IH]; intros a b; [done|]. cbn.
  destruct (rsplit_once sep s) as [[a' b']|].
  - intros [= <- <-]. by rewrite (IH a' b').
  - case_decide; [|done]. intros [= <- <-]. by subst.
Qed.

Lemma count_char_app c s t : count_char c (s +:+ t) = (count_char c s + count_char c t)%nat.
Proof. unfold count_char. by rewrite bytes_of_app, filter_app, length_app. Qed.

Lemma count_char_none c s : c ∉ bytes_of s → count_char c s = 0%nat.
Proof.
  unfold count_char. induction (bytes_of s) as [|x l IH]; [done|].
  intros [Hx Hl]%not_elem_of_cons. rewrite filter_cons_False by done. by apply IH.
Qed.

Lemma starts_with_none p s : starts_with p s = false → strip_prefix p s = None.
Proof. unfold starts_with. by destruct (strip_prefix p s). Qed.

Lemma split_once_first sep a b :
  sep ∉ bytes_of a → split_once sep (a +:+ String sep b) = Some (a, b).
Proof. intros Ha. by apply split_once_spec. Qed.
