(* ===== verification/IpAddr.v ===== *)
(** * IP addresses as text

    What the daemon uses of [std::net]: the parser and the printer of [IpAddr].  The parser
    is the recursive descent of the standard library: four decimal octets without leading
    zeros, or eight hexadecimal groups, one run of which may be left out as a double colon
    and the last two of which may be written as an IPv4 address.  The printer writes the
    longest run of zero groups as a double colon.  Shown: parsing inverts printing. *)

From S2P Require Import Prelude Text.

Open Scope Z_scope.

(** An address is its bits: 32 or 128 of them. *)
Inductive IpAddr := V4 (bits : Z) | V6 (bits : Z).
#[export] Instance IpAddr_eq_dec : EqDecision IpAddr.
Proof. solve_decision. Defined.

Definition ip_ok (ip : IpAddr) : Prop :=
  match ip with V4 b => 0 ≤ b < 2 ^ 32 | V6 b => 0 ≤ b < 2 ^ 128 end.

(** ** Parser

    A parser consumes a prefix of the text or fails. *)

Definition parser (A : Type) : Type := list ascii → option (A * list ascii).

Definition to_digit (radix : Z) (c : ascii) : option Z :=
  let v := Z.of_N (code c) in
  let d := if is_ascii_digit c then Some (v - 48)
           else if (97 <=? v) && (v <=? 122) then Some (v - 97 + 10)
           else if (65 <=? v) && (v <=? 90) then Some (v - 65 + 10)
           else None in
  match d with Some d => if d <? radix then Some d else None | None => None end.

Definition read_given_char (c : ascii) : parser unit := λ s,
  match s with x :: s => if decide (x = c) then Some (tt, s) else None | [] => None end.

(** The digits of a number, most significant first; [None] when it overflows [max] or has
    more than [max_digits] digits. *)
Fixpoint read_digits (radix max : Z) (max_digits : nat) (count : nat) (acc : Z) (s : list ascii)
    : option (Z * nat * list ascii) :=
  match s with
  | c :: s' =>
    match to_digit radix c with
    | Some d =>
      let acc := acc * radix + d in
      if (max <? acc) || bool_decide (max_digits < S count)%nat then None
      else read_digits radix max max_digits (S count) acc s'
    | None => Some (acc, count, s)
    end
  | [] => Some (acc, count, [])
  end.

Definition read_number (radix max : Z) (max_digits : nat) (allow_zero_prefix : bool) : parser Z :=
  λ s,
  '(n, count, rest) ← read_digits radix max max_digits 0 0 s;
  if bool_decide (count = 0%nat) then None
  else if negb allow_zero_prefix && bool_decide (head s = Some "0"%char) && bool_decide (1 < count)%nat
  then None
  else Some (n, rest).

(** [read_separator]: the separator precedes every element but the first. *)
Definition read_separator {A} (sep : ascii) (index : nat) (p : parser A) : parser A := λ s,
  if bool_decide (index = 0%nat) then p s
  else '(_, s) ← read_given_char sep s; p s.

Definition read_octet (i : nat) : parser Z :=
  read_separator "."%char i (read_number 10 255 3 false).

Definition read_ipv4_addr : parser Z := λ s,
  '(a, s) ← read_octet 0 s; '(b, s) ← read_octet 1 s; '(c, s) ← read_octet 2 s;
  '(d, s) ← read_octet 3 s;
  Some (((a * 256 + b) * 256 + c) * 256 + d, s).

(** Up to [limit] groups from the [i]-th on; the flag tells that an IPv4 address ended them. *)
Fixpoint read_groups (limit : nat) (i : nat) (s : list ascii) : list Z * bool * list ascii :=
  match limit with
  | O => ([], false, s)
  | S limit =>
    match (if bool_decide (limit = 0%nat) then None
           else read_separator ":"%char i read_ipv4_addr s) with
    | Some (v4, s) => ([v4 / 2 ^ 16; v4 mod 2 ^ 16], true, s)
    | None =>
      match read_separator ":"%char i (read_number 16 65535 4 true) s with
      | Some (g, s) =>
        let '(gs, v4, s) := read_groups limit (S i) s in (g :: gs, v4, s)
      | None => ([], false, s)
      end
    end
  end.

Definition of_segments (segments : list Z) : Z := foldl (λ acc g, acc * 2 ^ 16 + g) 0 segments.

Definition read_ipv6_addr : parser Z := λ s,
  let '(head, head_ipv4, s) := read_groups 8 0 s in
  if bool_decide (length head = 8%nat) then Some (of_segments head, s)
  else if head_ipv4 then None
  else
    '(_, s) ← read_given_char ":"%char s;
    '(_, s) ← read_given_char ":"%char s;
    let '(tail, _, s) := read_groups (8 - (length head + 1)) 0 s in
    Some (of_segments (head ++ replicate (8 - length head - length tail) 0 ++ tail), s).

(** [str::parse::<IpAddr>]: the whole text must be consumed. *)
Definition parse_ip (text : string) : option IpAddr :=
  match read_ipv4_addr (bytes_of text) with
  | Some (b, []) => Some (V4 b)
  | Some _ => None
  | None =>
    match read_ipv6_addr (bytes_of text) with
    | Some (b, []) => Some (V6 b)
    | _ => None
    end
  end.

Definition parse_ipv6 (text : string) : option Z :=
  match read_ipv6_addr (bytes_of text) with Some (b, []) => Some b | _ => None end.

(** ** Printer *)

Fixpoint segments_of (n : nat) (bits : Z) : list Z :=
  match n with
  | O => []
  | S n => segments_of n (bits / 2 ^ 16) ++ [bits mod 2 ^ 16]
  end.
Definition segments (bits : Z) : list Z := segments_of 8 bits.

Definition digit_char (n : Z) : ascii := ascii_of_N (Z.to_N (if n <? 10 then 48 + n else 87 + n)).

(** [{n}] and [{n:x}] for numbers of at most [fuel] digits. *)
Fixpoint print_number (radix : Z) (fuel : nat) (n : Z) : list ascii :=
  match fuel with
  | O => []
  | S fuel =>
    (if n <? radix then [] else print_number radix fuel (n / radix)) ++ [digit_char (n mod radix)]
  end.

Definition print_octet (n : Z) : list ascii := print_number 10 3 n.
Definition print_group (n : Z) : list ascii := print_number 16 4 n.

Definition print_v4 (b : Z) : list ascii :=
  print_octet (b / 2 ^ 24) ++ "."%char :: print_octet (b / 2 ^ 16 mod 256) ++
  "."%char :: print_octet (b / 2 ^ 8 mod 256) ++ "."%char :: print_octet (b mod 256).

Definition fmt_subslice (chunk : list Z) : list ascii :=
  match chunk with
  | [] => []
  | first :: tail => print_group first ++ (tail ≫= λ g, ":"%char :: print_group g)
  end.

(** The longest run of zeros as [(start, length)], the first of equal ones. *)
Fixpoint longest_zeros (i : nat) (current longest : nat * nat) (gs : list Z) : nat * nat :=
  match gs with
  | [] => longest
  | g :: gs =>
    if g =? 0 then
      let start := if bool_decide (current.2 = 0%nat) then i else current.1 in
      let current := (start, S current.2) in
      longest_zeros (S i) current (if bool_decide (longest.2 < current.2)%nat then current else longest) gs
    else longest_zeros (S i) (0, 0)%nat longest gs
  end.

Definition print_v6 (b : Z) : list ascii :=
  let gs := segments b in
  if bool_decide (take 6 gs = [0; 0; 0; 0; 0; 65535]) then
    bytes_of "::ffff:" ++ print_v4 (b mod 2 ^ 32)
  else
    let '(start, len) := longest_zeros 0 (0, 0)%nat (0, 0)%nat gs in
    if bool_decide (1 < len)%nat then
      fmt_subslice (take start gs) ++ bytes_of "::" ++ fmt_subslice (drop (start + len) gs)
    else fmt_subslice gs.

Definition ip_to_string (ip : IpAddr) : string :=
  string_of_bytes (match ip with V4 b => print_v4 b | V6 b => print_v6 b end).

(** ** Numbers *)

Definition is_radix (radix : Z) : Prop := radix = 10 ∨ radix = 16.

Lemma to_digit_char radix n : is_radix radix → 0 ≤ n < radix → to_digit radix (digit_char n) = Some n.
Proof.
  intros Hr Hn. rewrite <-(Z2Nat.id n) by lia. assert (Z.to_nat n < 16)%nat as Hm by (destruct Hr; lia).
  assert (Z.of_nat (Z.to_nat n) < radix) as Hlt by lia. clear Hn. generalize dependent (Z.to_nat n).
  intros m Hm Hlt. destruct Hr as [-> | ->].
  - do 10 (destruct m as [|m]; [done|]). lia.
  - do 16 (destruct m as [|m]; [done|]). lia.
Qed.

Lemma print_number_digits radix fuel n :
  is_radix radix → 0 ≤ n → Forall (λ c, is_Some (to_digit radix c)) (print_number radix fuel n).
Proof.
  intros Hr. assert (0 < radix) by (destruct Hr; lia). revert n.
  induction fuel as [|fuel IH]; intros n Hn; simpl; [done|]. apply Forall_app. split.
  - case_match; [done|]. apply IH. by apply Z.div_pos.
  - constructor; [|done]. rewrite to_digit_char; [eauto|done|]. by apply Z.mod_pos_bound.
Qed.

Lemma print_number_length radix fuel n :
  (0 < fuel)%nat → (0 < length (print_number radix fuel n) ≤ fuel)%nat.
Proof.
  revert n. induction fuel as [|fuel IH]; intros n Hf; [lia|]. simpl. rewrite length_app. simpl.
  case_match; simpl; [lia|]. destruct fuel as [|fuel]; [simpl; lia|].
  specialize (IH (n / radix)). lia.
Qed.

(** Reading back the digits of a number. *)
Lemma read_digits_print radix max max_digits fuel : ∀ n count acc rest,
  is_radix radix → 0 ≤ n < radix ^ Z.of_nat fuel → 0 ≤ acc →
  let k := length (print_number radix fuel n) in
  acc * radix ^ Z.of_nat k + n ≤ max → (count + k ≤ max_digits)%nat →
  read_digits radix max max_digits count acc (print_number radix fuel n ++ rest) =
    read_digits radix max max_digits (count + k) (acc * radix ^ Z.of_nat k + n) rest.
Proof.
  induction fuel as [|fuel IH]; intros n count acc rest Hr Hn Hacc k Hmax Hmd.
  { simpl in Hn. unfold k. simpl. f_equal; lia. }
  assert (2 ≤ radix) by (destruct Hr; lia). unfold k in *. clear k. simpl in *.
  assert (Hdm : n = radix * (n / radix) + n mod radix) by (apply Z.div_mod; lia).
  pose proof (Z.mod_pos_bound n radix ltac:(lia)).
  destruct (Z.ltb_spec n radix) as [Hlt|Hge]; simpl in *.
  - rewrite to_digit_char by done. rewrite Z.mod_small in * by lia.
    rewrite (proj2 (Z.ltb_ge _ _)) by lia. rewrite bool_decide_false by lia. simpl.
    f_equal; lia.
  - rewrite <-app_assoc. rewrite length_app in *. simpl in *.
    assert (0 ≤ n / radix) by (apply Z.div_pos; lia).
    set (k := length (print_number radix fuel (n / radix))) in *.
    replace (Z.of_nat (k + 1)) with (Z.of_nat k + 1) in * by lia.
    rewrite Z.pow_add_r, Z.pow_1_r in * by lia.
    pose proof (Z.pow_pos_nonneg radix (Z.of_nat k) ltac:(lia) ltac:(lia)).
    rewrite IH; [|done| |done| |lia].
    + fold k. simpl. rewrite to_digit_char by done.
      assert (Heq : (acc * radix ^ Z.of_nat k + n / radix) * radix + n mod radix =
        acc * (radix ^ Z.of_nat k * radix) + n) by nia.
      rewrite Heq, (proj2 (Z.ltb_ge _ _)) by lia. rewrite bool_decide_false by lia. simpl.
      f_equal; lia.
    + split; [lia|]. apply Z.div_lt_upper_bound; [lia|].
      replace (Z.of_nat (S fuel)) with (1 + Z.of_nat fuel) in Hn by lia.
      rewrite Z.pow_add_r, Z.pow_1_r in Hn by lia. lia.
    + fold k. nia.
Qed.

(** The text after a number does not go on with a digit. *)
Definition ends_number (radix : Z) (rest : list ascii) : Prop :=
  match rest with [] => True | c :: _ => to_digit radix c = None end.

Lemma print_number_zero radix fuel n :
  is_radix radix → (0 < fuel)%nat → 0 ≤ n < radix ^ Z.of_nat fuel →
  head (print_number radix fuel n) = Some "0"%char → length (print_number radix fuel n) = 1%nat.
Proof.
  intros Hr. assert (2 ≤ radix) by (destruct Hr; lia). revert n.
  induction fuel as [|fuel IH]; intros n Hf Hn Hh; [lia|]. simpl in *.
  destruct (Z.ltb_spec n radix) as [Hlt|Hge]; [done|]. exfalso.
  assert (0 < n / radix) as Hpos by (apply Z.div_str_pos; lia).
  assert (n / radix < radix ^ Z.of_nat fuel) as Hlt.
  { apply Z.div_lt_upper_bound; [lia|]. replace (Z.of_nat (S fuel)) with (1 + Z.of_nat fuel) in Hn by lia.
    rewrite Z.pow_add_r, Z.pow_1_r in Hn by lia. lia. }
  destruct fuel as [|fuel]; [simpl in Hlt; lia|].
  pose proof (print_number_length radix (S fuel) (n / radix) ltac:(lia)) as Hlen.
  destruct (print_number radix (S fuel) (n / radix)) as [|c cs] eqn:Ep; [simpl in Hlen; lia|].
  simpl in Hh. injection Hh as ->.
  specialize (IH (n / radix) ltac:(lia) ltac:(lia)). rewrite Ep in IH. specialize (IH eq_refl).
  simpl in IH. destruct cs; [|done]. simpl in Ep.
  destruct (Z.ltb_spec (n / radix) radix) as [Hs|Hb].
  - simpl in Ep. rewrite Z.mod_small in Ep by lia. injection Ep as Ec.
    pose proof (to_digit_char radix (n / radix) Hr ltac:(lia)) as Hd. rewrite Ec in Hd.
    assert (to_digit radix "0" = Some 0) as E by (by destruct Hr as [-> | ->]).
    rewrite E in Hd. injection Hd as Hd. lia.
  - apply (f_equal length) in Ep. rewrite length_app in Ep. simpl in Ep.
    destruct fuel; [simpl in Hlt; lia|].
    pose proof (print_number_length radix (S fuel) (n / radix / radix) ltac:(lia)). lia.
Qed.

Lemma read_number_print radix max max_digits allow n rest :
  is_radix radix → (0 < max_digits)%nat → 0 ≤ n ≤ max → n < radix ^ Z.of_nat max_digits →
  ends_number radix rest →
  read_number radix max max_digits allow (print_number radix max_digits n ++ rest) = Some (n, rest).
Proof.
  intros Hr Hmd Hn Hlt Hend. unfold read_number.
  pose proof (print_number_length radix max_digits n Hmd) as Hlen.
  rewrite read_digits_print by (done || lia).
  rewrite Z.mul_0_l, Z.add_0_l, Nat.add_0_l.
  assert (read_digits radix max max_digits (length (print_number radix max_digits n)) n rest =
    Some (n, length (print_number radix max_digits n), rest)) as ->.
  { destruct rest as [|c rest]; [done|]. simpl in *. by rewrite Hend. }
  cbn [mbind option_bind]. rewrite bool_decide_false by lia.
  destruct (negb allow && _ && _) eqn:E; [|done]. exfalso.
  rewrite !andb_true_iff, !bool_decide_eq_true in E. destruct E as [[_ Hh] Hlong].
  assert (head (print_number radix max_digits n) = Some "0"%char) as Hz
    by (destruct (print_number radix max_digits n); [simpl in Hlen; lia|done]).
  apply print_number_zero in Hz; [lia|done|done|lia].
Qed.

Lemma read_octet_print n rest :
  0 ≤ n < 256 → ends_number 10 rest →
  read_number 10 255 3 false (print_octet n ++ rest) = Some (n, rest).
Proof. intros Hn He. apply read_number_print; try done; [by left|lia..]. Qed.

Lemma read_group_print n rest :
  0 ≤ n < 65536 → ends_number 16 rest →
  read_number 16 65535 4 true (print_group n ++ rest) = Some (n, rest).
Proof. intros Hn He. apply read_number_print; try done; [by right|lia..]. Qed.

(** ** IPv4 *)

Lemma read_ipv4_print b rest :
  0 ≤ b < 2 ^ 32 → ends_number 10 rest → read_ipv4_addr (print_v4 b ++ rest) = Some (b, rest).
Proof.
  intros Hb He. unfold read_ipv4_addr, read_octet, read_separator, print_v4.
  assert (0 ≤ b / 2 ^ 24 < 256) by (split; [apply Z.div_pos|apply Z.div_lt_upper_bound]; lia).
  pose proof (Z.mod_pos_bound (b / 2 ^ 16) 256 ltac:(lia)).
  pose proof (Z.mod_pos_bound (b / 2 ^ 8) 256 ltac:(lia)).
  pose proof (Z.mod_pos_bound b 256 ltac:(lia)).
  repeat (rewrite <-?app_assoc; rewrite <-?app_comm_cons).
  repeat (rewrite read_octet_print by (done || lia); simpl).
  do 2 f_equal.
  Z.to_euclidean_division_equations. lia.
Qed.

(** ** IPv6 *)

(** Hexadecimal digits, then the end of the text or a colon: no IPv4 address begins here. *)
Definition no_dotted (s : list ascii) : Prop :=
  ∃ ds rest, s = ds ++ rest ∧ Forall (λ c, is_Some (to_digit 16 c)) ds ∧
    (rest = [] ∨ head rest = Some ":"%char).

Lemma to_digit_dot c : is_Some (to_digit 16 c) → c ≠ "."%char.
Proof. by intros [d Hd] ->. Qed.

Lemma to_digit_colon radix c : is_radix radix → is_Some (to_digit radix c) → c ≠ ":"%char.
Proof. by intros [-> | ->] [d Hd] ->. Qed.

Lemma read_digits_no_dot max md ds : ∀ rest count acc n k s',
  Forall (λ c, is_Some (to_digit 16 c)) ds → (rest = [] ∨ head rest = Some ":"%char) →
  read_digits 10 max md count acc (ds ++ rest) = Some (n, k, s') → head s' ≠ Some "."%char.
Proof.
  induction ds as [|c ds IH]; intros rest count acc n k s' Hf Hr Hd; simpl in Hd.
  - destruct rest as [|c rest]; simpl in *; [by simplify_eq|].
    destruct Hr as [?|[= ->]]; [done|]. simpl in Hd. by simplify_eq.
  - apply Forall_cons in Hf as [Hc Hf]. destruct (to_digit 10 c).
    + case_match; [done|]. by eapply IH.
    + simplify_eq. simpl. intros [= ->]. by apply to_digit_dot in Hc.
Qed.

Lemma read_ipv4_none s : no_dotted s → read_ipv4_addr s = None.
Proof.
  intros (ds & rest & -> & Hf & Hr). unfold read_ipv4_addr, read_octet, read_separator, read_number.
  simpl. destruct (read_digits 10 255 3 0 0 (ds ++ rest)) as [[[n k] s']|] eqn:E; [|done]. simpl.
  apply read_digits_no_dot in E; [|done|done].
  repeat (case_bool_decide || case_match; try done); simplify_eq/=.
  all: unfold read_given_char; destruct s' as [|c s']; try done.
  all: by rewrite decide_False by (intros ->; by apply E).
Qed.

Lemma print_group_digits g : 0 ≤ g → Forall (λ c, is_Some (to_digit 16 c)) (print_group g).
Proof. intros. apply print_number_digits; [by right|done]. Qed.

(** Groups of 16 bits. *)
Definition groups_ok (gs : list Z) : Prop := Forall (λ g, 0 ≤ g < 65536) gs.

Definition print_more (gs : list Z) : list ascii := gs ≫= λ g, ":"%char :: print_group g.

Lemma print_more_cons g gs : print_more (g :: gs) = ":"%char :: print_group g ++ print_more gs.
Proof. done. Qed.

(** Where a list of groups stops: the text ends or a double colon follows. *)
Definition stops (rest : list ascii) : Prop :=
  rest = [] ∨ ∃ r, rest = ":"%char :: ":"%char :: r.

Lemma print_more_head gs rest :
  stops rest → print_more gs ++ rest = [] ∨ head (print_more gs ++ rest) = Some ":"%char.
Proof. destruct gs; [|by right]. intros [->|[r ->]]; [by left|by right]. Qed.

Lemma ends_colon rest radix :
  is_radix radix → rest = [] ∨ head rest = Some ":"%char → ends_number radix rest.
Proof.
  intros Hr [->|Hh]; [done|]. destruct rest as [|c rest]; [done|]. simpl in *. simplify_eq.
  destruct (to_digit radix ":") eqn:E; [|done]. by destruct (to_digit_colon radix ":" Hr).
Qed.

Lemma read_group_more (limit i : nat) g gs rest :
  stops rest → 0 ≤ g < 65536 →
  (if bool_decide (limit = 0%nat) then None
   else read_separator ":"%char (S i) read_ipv4_addr (print_more (g :: gs) ++ rest)) = None ∧
  read_separator ":"%char (S i) (read_number 16 65535 4 true) (print_more (g :: gs) ++ rest) =
    Some (g, print_more gs ++ rest).
Proof.
  intros Hs Hg. rewrite print_more_cons. unfold read_separator. simpl.
  rewrite <-app_assoc. split.
  - case_bool_decide; [done|]. apply read_ipv4_none. eexists _, _. split; [done|].
    split; [apply print_group_digits; lia|by apply print_more_head].
  - apply read_group_print; [done|]. apply ends_colon; [by right|by apply print_more_head].
Qed.

Lemma read_groups_more gs : ∀ limit i rest,
  groups_ok gs → stops rest → (length gs ≤ limit)%nat →
  read_groups limit (S i) (print_more gs ++ rest) = (gs, false, rest).
Proof.
  induction gs as [|g gs IH]; intros limit i rest Hok Hs Hl.
  - simpl. destruct limit as [|limit]; [done|]. simpl.
    destruct Hs as [->|[r ->]]; simpl; [by case_bool_decide|].
    unfold read_separator. simpl. case_bool_decide; [done|]. by rewrite read_ipv4_none by (by exists [], (":"%char :: r); auto).
  - apply Forall_cons in Hok as [Hg Hok]. destruct limit as [|limit]; simpl in Hl; [lia|].
    destruct (read_group_more limit i g gs rest Hs Hg) as [H4 H6].
    cbn [read_groups]. rewrite H4, H6, IH by (done || lia). done.
Qed.

Lemma fmt_subslice_cons g gs : fmt_subslice (g :: gs) = print_group g ++ print_more gs.
Proof. done. Qed.

Lemma read_groups_fmt gs limit rest :
  groups_ok gs → stops rest → (length gs ≤ limit)%nat →
  read_groups limit 0 (fmt_subslice gs ++ rest) = (gs, false, rest).
Proof.
  intros Hok Hs Hl. destruct gs as [|g gs].
  - simpl. destruct limit as [|limit]; [done|]. simpl.
    assert (no_dotted rest) as Hnd.
    { exists [], rest. split_and!; [done|done|]. destruct Hs as [->|[r ->]]; auto. }
    unfold read_separator. simpl. destruct Hs as [->|[r ->]].
    + by case_bool_decide.
    + case_bool_decide; [done|]. by rewrite read_ipv4_none.
  - apply Forall_cons in Hok as [Hg Hok]. destruct limit as [|limit]; simpl in Hl; [lia|].
    rewrite fmt_subslice_cons, <-app_assoc. cbn [read_groups]. unfold read_separator at 1 2. simpl.
    assert (H4 : read_ipv4_addr (print_group g ++ print_more gs ++ rest) = None).
    { apply read_ipv4_none. eexists _, _. split; [done|].
      split; [apply print_group_digits; lia|by apply print_more_head]. }
    rewrite H4, read_group_print; [|done|].
    + rewrite read_groups_more by (done || lia). by case_bool_decide.
    + apply ends_colon; [by right|by apply print_more_head].
Qed.

(** *** The run of zeros *)

Definition zero_run (gs : list Z) (run : nat * nat) : Prop :=
  ∀ j, (run.1 ≤ j < run.1 + run.2)%nat → gs !! j = Some 0.

Lemma longest_zeros_run all gs : ∀ i current longest,
  drop i all = gs → zero_run all longest →
  (current.2 ≠ 0%nat → (current.1 + current.2 = i)%nat) → zero_run all current →
  zero_run all (longest_zeros i current longest gs).
Proof.
  induction gs as [|g gs IH]; intros i current longest Hd Hl Hc Hr; simpl; [done|].
  assert (Hi : all !! i = Some g).
  { rewrite <-(Nat.add_0_r i), <-lookup_drop, Hd. done. }
  assert (Hd' : drop (S i) all = gs).
  { replace (S i) with (i + 1)%nat by lia. by rewrite <-drop_drop, Hd. }
  destruct (Z.eqb_spec g 0) as [->|Hg].
  - assert (Hcur : zero_run all (if bool_decide (current.2 = 0%nat) then i else current.1, S current.2)).
    { intros j. simpl. case_bool_decide as E; intros Hj.
      - by replace j with i by lia.
      - destruct (decide (j = i)) as [->|]; [done|]. apply Hr. specialize (Hc E). lia. }
    apply IH; [done|by destruct (bool_decide (longest.2 < _)%nat)| |done].
    intros _. simpl. case_bool_decide; [lia|]. specialize (Hc ltac:(done)). lia.
  - apply IH; [done|done|done|]. intros j. simpl. lia.
Qed.

Lemma zero_run_split gs start len :
  zero_run gs (start, len) → (0 < len)%nat →
  (start + len ≤ length gs)%nat ∧
  gs = take start gs ++ replicate len 0 ++ drop (start + len) gs.
Proof.
  intros Hz Hlen. assert (start + len ≤ length gs)%nat as Hle.
  { assert (is_Some (gs !! (start + len - 1)%nat)) as H%lookup_lt_is_Some by (rewrite Hz; [eauto|simpl; lia]).
    lia. }
  split; [done|]. rewrite <-(take_drop start gs) at 1. f_equal.
  rewrite <-(take_drop len (drop start gs)) at 1. rewrite drop_drop. f_equal.
  apply list_eq. intros j. destruct (decide (j < len)%nat) as [Hj|Hj].
  - rewrite lookup_take_lt, lookup_drop, lookup_replicate_2 by done. apply Hz. simpl. lia.
  - rewrite lookup_take_ge by lia. symmetry. apply lookup_ge_None. rewrite length_replicate. lia.
Qed.

(** *** Segments *)

Lemma of_segments_app gs g : of_segments (gs ++ [g]) = of_segments gs * 2 ^ 16 + g.
Proof. unfold of_segments. by rewrite foldl_app. Qed.

Lemma segments_of_spec n : ∀ bits, 0 ≤ bits < 2 ^ (16 * Z.of_nat n) →
  of_segments (segments_of n bits) = bits ∧ groups_ok (segments_of n bits) ∧
  length (segments_of n bits) = n.
Proof.
  induction n as [|n IH]; intros bits Hb.
  { simpl in *. split_and!; [unfold of_segments; simpl; lia|constructor|done]. }
  assert (0 ≤ bits / 2 ^ 16 < 2 ^ (16 * Z.of_nat n)) as Hd.
  { split; [apply Z.div_pos; lia|]. apply Z.div_lt_upper_bound; [lia|].
    rewrite <-Z.pow_add_r by lia. replace (16 + 16 * Z.of_nat n) with (16 * Z.of_nat (S n)) by lia.
    apply Hb. }
  destruct (IH _ Hd) as (Ho & Hg & Hl). cbn [segments_of]. split_and!.
  - rewrite of_segments_app, Ho. pose proof (Z.div_mod bits (2 ^ 16) ltac:(lia)). lia.
  - apply Forall_app. split; [done|]. apply Forall_singleton.
    pose proof (Z.mod_pos_bound bits (2 ^ 16) ltac:(lia)). lia.
  - rewrite length_app, Hl. simpl. lia.
Qed.

(** The two lowest segments are the lowest 32 bits. *)
Lemma segments_low b :
  0 ≤ b < 2 ^ 128 →
  drop 6 (segments b) = [b mod 2 ^ 32 / 2 ^ 16; b mod 2 ^ 32 mod 2 ^ 16].
Proof.
  intros Hb. unfold segments.
  change (segments_of 8 b) with ((segments_of 6 (b / 2 ^ 16 / 2 ^ 16) ++ [b / 2 ^ 16 mod 2 ^ 16]) ++
    [b mod 2 ^ 16]). rewrite <-app_assoc.
  destruct (segments_of_spec 6 (b / 2 ^ 16 / 2 ^ 16)) as (_ & _ & Hl).
  { split; [repeat apply Z.div_pos; lia|do 2 (apply Z.div_lt_upper_bound; [lia|]); lia]. }
  rewrite drop_app_length' by done.
  simpl. f_equal; [|f_equal]; Z.to_euclidean_division_equations; lia.
Qed.

Lemma ends_nil radix : ends_number radix [].
Proof. done. Qed.

Lemma read_given_colon s : read_given_char ":"%char (":"%char :: s) = Some (tt, s).
Proof. unfold read_given_char. by rewrite decide_True. Qed.

Lemma read_groups_S limit i s :
  read_groups (S limit) i s =
    match (if bool_decide (limit = 0%nat) then None
           else read_separator ":"%char i read_ipv4_addr s) with
    | Some (v4, s) => ([v4 / 2 ^ 16; v4 mod 2 ^ 16], true, s)
    | None =>
      match read_separator ":"%char i (read_number 16 65535 4 true) s with
      | Some (g, s) =>
        let '(gs, v4, s) := read_groups limit (S i) s in (g :: gs, v4, s)
      | None => ([], false, s)
      end
    end.
Proof. done. Qed.

Lemma read_groups_v4 n i v :
  0 ≤ v < 2 ^ 32 →
  read_groups (S (S n)) (S i) (":"%char :: print_v4 v) = ([v / 2 ^ 16; v mod 2 ^ 16], true, []).
Proof.
  intros Hv. rewrite read_groups_S. unfold read_separator. rewrite !bool_decide_false by done.
  rewrite read_given_colon. cbn [mbind option_bind].
  by rewrite <-(app_nil_r (print_v4 v)), read_ipv4_print.
Qed.

Lemma read_ipv6_mapped b :
  0 ≤ b < 2 ^ 128 → take 6 (segments b) = [0; 0; 0; 0; 0; 65535] →
  read_ipv6_addr (bytes_of "::ffff:" ++ print_v4 (b mod 2 ^ 32)) = Some (b, []).
Proof.
  intros Hb Ht. pose proof (Z.mod_pos_bound b (2 ^ 32) ltac:(lia)) as Hlow.
  unfold read_ipv6_addr.
  change (bytes_of "::ffff:" ++ print_v4 (b mod 2 ^ 32)) with
    (fmt_subslice [] ++ ":"%char :: ":"%char ::
       (print_group 65535 ++ ":"%char :: print_v4 (b mod 2 ^ 32))).
  rewrite read_groups_fmt; [|constructor|by right; eexists|simpl; lia].
  rewrite bool_decide_false by done. do 2 (rewrite read_given_colon; cbn [mbind option_bind]).
  assert (read_groups 7 0 (print_group 65535 ++ ":"%char :: print_v4 (b mod 2 ^ 32)) =
    ([65535; b mod 2 ^ 32 / 2 ^ 16; b mod 2 ^ 32 mod 2 ^ 16], true, [])) as E.
  { rewrite (read_groups_S 6). unfold read_separator. rewrite bool_decide_false, bool_decide_true by done.
    rewrite read_ipv4_none by (eexists _, _; split; [done|]; split;
      [by apply print_group_digits|by right]).
    by rewrite read_group_print, (read_groups_v4 4). }
  simpl length. change (8 - (0 + 1))%nat with 7%nat. rewrite E. do 2 f_equal.
  destruct (segments_of_spec 8 b Hb) as (Ho & _ & _). fold (segments b) in Ho.
  rewrite <-(take_drop 6 (segments b)), Ht, segments_low in Ho by done. exact Ho.
Qed.

(** Printed text is read back, and is not mistaken for IPv4. *)
Lemma read_ipv6_print b :
  0 ≤ b < 2 ^ 128 → read_ipv6_addr (print_v6 b) = Some (b, []) ∧ no_dotted (print_v6 b).
Proof.
  intros Hb. destruct (segments_of_spec 8 b Hb) as (Ho & Hg & Hl). fold (segments b) in Ho, Hg, Hl.
  unfold print_v6. case_bool_decide as Em.
  { split; [by apply read_ipv6_mapped|]. exists [], (bytes_of "::ffff:" ++ print_v4 (b mod 2 ^ 32)).
    split_and!; [done|done|by right]. }
  pose proof (longest_zeros_run (segments b) (segments b) 0 (0, 0)%nat (0, 0)%nat eq_refl
    ltac:(intros j; simpl; lia) ltac:(done) ltac:(intros j; simpl; lia)) as Hz.
  destruct (longest_zeros _ _ _ _) as [start len]. case_bool_decide as Hlen.
  - destruct (zero_run_split _ _ _ Hz ltac:(lia)) as [Hle Hsplit].
    assert (groups_ok (take start (segments b)) ∧ groups_ok (drop (start + len) (segments b)))
      as [Hgt Hgd] by (split; [by apply Forall_take|by apply Forall_drop]).
    assert (Hst : stops (bytes_of "::" ++ fmt_subslice (drop (start + len) (segments b))))
      by (right; by eexists).
    split.
    + unfold read_ipv6_addr. rewrite read_groups_fmt; [|done|done|rewrite length_take; lia].
      rewrite length_take, Nat.min_l, bool_decide_false by lia.
      change (bytes_of "::" ++ ?x) with (":"%char :: ":"%char :: x).
      do 2 (rewrite read_given_colon; cbn [mbind option_bind]).
      rewrite <-(app_nil_r (fmt_subslice (drop _ _))), read_groups_fmt;
        [|done|by left|rewrite length_drop; lia].
      rewrite length_drop, Hl. replace (8 - start - (8 - (start + len)))%nat with len by lia.
      by rewrite <-Hsplit, Ho.
    + destruct (take start (segments b)) as [|g gs] eqn:Et.
      * exists [], (bytes_of "::" ++ fmt_subslice (drop (start + len) (segments b))).
        split_and!; [done|done|by right].
      * rewrite fmt_subslice_cons, <-app_assoc. eexists _, _. split; [done|].
        apply Forall_cons in Hgt as [? _]. split; [apply print_group_digits; lia|].
        by apply print_more_head.
  - split.
    + unfold read_ipv6_addr. rewrite <-(app_nil_r (fmt_subslice _)), read_groups_fmt;
        [|done|by left|lia]. by rewrite bool_decide_true, Ho.
    + destruct (segments b) as [|g gs]; [done|]. rewrite fmt_subslice_cons.
      apply Forall_cons in Hg as [? _]. exists (print_group g), (print_more gs).
      split; [done|]. split; [apply print_group_digits; lia|].
      rewrite <-(app_nil_r (print_more gs)). apply print_more_head. by left.
Qed.

(** Parsing the text of an address gives the address back. *)
Theorem parse_ip_to_string ip : ip_ok ip → parse_ip (ip_to_string ip) = Some ip.
Proof.
  intros Hok. unfold parse_ip, ip_to_string, bytes_of, string_of_bytes.
  rewrite String.list_ascii_of_string_of_list_ascii. destruct ip as [b|b]; simpl in Hok.
  { by rewrite <-(app_nil_r (print_v4 b)), read_ipv4_print. }
  destruct (read_ipv6_print b Hok) as [H6 Hn]. by rewrite read_ipv4_none, H6.
Qed.

(** ** Case

    The parser does not distinguish upper and lower case. *)

Definition lowered {A} (p : parser A) : Prop :=
  ∀ s : list ascii, p (ascii_lower <$> s) =
    match p s with Some (a, r) => Some (a, ascii_lower <$> r) | None => None end.

Lemma to_digit_lower radix c : to_digit radix (ascii_lower c) = to_digit radix c.
Proof. by destruct c as [[] [] [] [] [] [] [] []]. Qed.

Lemma read_digits_lower radix max digits s : ∀ count acc,
  read_digits radix max digits count acc (ascii_lower <$> s) =
    match read_digits radix max digits count acc s with
    | Some (n, k, r) => Some (n, k, ascii_lower <$> r)
    | None => None
    end.
Proof.
  induction s as [|c s IH]; intros count acc; [done|]. cbn [fmap list_fmap read_digits].
  rewrite to_digit_lower. destruct (to_digit radix c); [|done]. destruct (_ || _); [done|]. apply IH.
Qed.

Lemma lowered_bind {A B} (p : parser A) (q : A → parser B) :
  lowered p → (∀ a, lowered (q a)) → lowered (λ s, '(a, s) ← p s; q a s).
Proof. intros Hp Hq s. rewrite Hp. destruct (p s) as [[a r]|]; [|done]. simpl. apply Hq. Qed.

Lemma lowered_ret {A} (a : A) : lowered (λ s, Some (a, s)).
Proof. by intros s. Qed.

Lemma lowered_given_char c : is_letter c = false → lowered (read_given_char c).
Proof.
  intros Hc [|b s]; [done|]. simpl. pose proof (ascii_lower_letter b c Hc) as Hb.
  destruct (decide (b = c)) as [->|Hne].
  - by rewrite decide_True by by apply Hb.
  - by rewrite decide_False by by intros ?%Hb.
Qed.

Lemma lowered_number radix max digits zero : lowered (read_number radix max digits zero).
Proof.
  intros s. unfold read_number. rewrite read_digits_lower.
  destruct (read_digits radix max digits 0 0 s) as [[[n k] r]|]; [|done].
  cbn [mbind option_bind]. destruct (bool_decide (k = 0%nat)); [done|].
  assert (bool_decide (head (ascii_lower <$> s) = Some "0"%char) =
          bool_decide (head s = Some "0"%char)) as ->.
  { apply bool_decide_ext. destruct s as [|c s]; [done|]. simpl.
    pose proof (ascii_lower_letter c "0"%char eq_refl). naive_solver. }
  by destruct (_ && _ && _).
Qed.

Lemma lowered_separator {A} sep i (p : parser A) :
  is_letter sep = false → lowered p → lowered (read_separator sep i p).
Proof.
  intros Hsep Hp s. unfold read_separator. destruct (bool_decide (i = 0%nat)); [apply Hp|].
  apply (lowered_bind (read_given_char sep) (λ _, p)); [by apply lowered_given_char|done].
Qed.

Lemma lowered_octet i : lowered (read_octet i).
Proof. apply lowered_separator; [done|apply lowered_number]. Qed.

Lemma lowered_ipv4 : lowered read_ipv4_addr.
Proof.
  unfold read_ipv4_addr. do 4 (apply lowered_bind; [apply lowered_octet|intros ?]). apply lowered_ret.
Qed.

Lemma read_groups_lower limit : ∀ i s,
  read_groups limit i (ascii_lower <$> s) =
    let '(gs, v4, r) := read_groups limit i s in (gs, v4, ascii_lower <$> r).
Proof.
  induction limit as [|limit IH]; intros i s; [done|]. rewrite !read_groups_S.
  rewrite (lowered_separator ":"%char i _ eq_refl lowered_ipv4 s).
  rewrite (lowered_separator ":"%char i _ eq_refl (lowered_number 16 65535 4 true) s).
  destruct (bool_decide (limit = 0%nat));
    [|destruct (read_separator ":" i read_ipv4_addr s) as [[v r]|]; [done|]];
    (destruct (read_separator ":" i (read_number 16 65535 4 true) s) as [[g r]|]; [|done]);
    simpl; rewrite IH; by destruct (read_groups limit (S i) r) as [[gs v4] r'].
Qed.

Lemma lowered_ipv6 : lowered read_ipv6_addr.
Proof.
  intros s. unfold read_ipv6_addr. rewrite read_groups_lower.
  destruct (read_groups 8 0 s) as [[gs v4] r]. destruct (bool_decide _); [done|].
  destruct v4; [done|].
  apply (lowered_bind (read_given_char ":"%char) (λ _ s, '(_, s) ← read_given_char ":"%char s;
    let '(tail, _, s) := read_groups (8 - (length gs + 1)) 0 s in
    Some (of_segments (gs ++ replicate (8 - length gs - length tail) 0 ++ tail), s)));
    [by apply lowered_given_char|intros _].
  apply (lowered_bind (read_given_char ":"%char)); [by apply lowered_given_char|intros _ t].
  rewrite read_groups_lower. by destruct (read_groups _ 0 t) as [[tl v4] r'].
Qed.

Lemma parse_ip_lower text : parse_ip (to_ascii_lowercase text) = parse_ip text.
Proof.
  unfold parse_ip. rewrite bytes_of_lower, lowered_ipv4, lowered_ipv6.
  destruct (read_ipv4_addr _) as [[b [|c r]]|]; [done|done|]. simpl.
  by destruct (read_ipv6_addr _) as [[b [|c r]]|].
Qed.

(** ** Range *)

Lemma to_digit_bound radix c d : to_digit radix c = Some d → 0 ≤ d < radix.
Proof.
  unfold to_digit. intros H. destruct (is_ascii_digit c) eqn:Hd.
  - case_match; simplify_eq. unfold is_ascii_digit in Hd.
    apply andb_true_iff in Hd as [Hd _]. apply N.leb_le in Hd. lia.
  - repeat (case_match; simplify_eq); lia.
Qed.

Lemma read_digits_bound radix max digits s : ∀ count acc n k r,
  0 < radix → 0 ≤ acc ≤ max → read_digits radix max digits count acc s = Some (n, k, r) → 0 ≤ n ≤ max.
Proof.
  induction s as [|c s IH]; intros count acc n k r Hr Ha H; simpl in H; [by simplify_eq|].
  destruct (to_digit radix c) as [d|] eqn:Hd; [|by simplify_eq].
  apply to_digit_bound in Hd. destruct (_ || _) eqn:E; [done|].
  apply orb_false_iff in E as [E _]. apply Z.ltb_ge in E. eapply IH; [done| |exact H]. nia.
Qed.

Lemma read_number_bound radix max digits zero s n r :
  0 < radix → 0 ≤ max → read_number radix max digits zero s = Some (n, r) → 0 ≤ n ≤ max.
Proof.
  intros Hr Hm. unfold read_number. destruct (read_digits _ _ _ _ _ s) as [[[x k] t]|] eqn:E; [|done].
  simpl. repeat (case_match; try done). intros [= -> ->]. eapply read_digits_bound in E; [done|lia|lia].
Qed.

Lemma read_separator_inv {A} sep i (p : parser A) s a r :
  read_separator sep i p s = Some (a, r) → ∃ t, p t = Some (a, r).
Proof.
  unfold read_separator. destruct (bool_decide _); [eauto|].
  destruct (read_given_char sep s) as [[[] t]|]; [|done]. simpl. eauto.
Qed.

Lemma read_octet_bound i s n r : read_octet i s = Some (n, r) → 0 ≤ n ≤ 255.
Proof. intros [t H]%read_separator_inv. apply read_number_bound in H; lia. Qed.

Lemma read_ipv4_bound s b r : read_ipv4_addr s = Some (b, r) → 0 ≤ b < 2 ^ 32.
Proof.
  unfold read_ipv4_addr. intros H.
  destruct (read_octet 0 s) as [[o0 s0]|] eqn:E0; [|done].
  apply read_octet_bound in E0. simpl in H.
  destruct (read_octet 1 s0) as [[o1 s1]|] eqn:E1; [|done]. apply read_octet_bound in E1. simpl in H.
  destruct (read_octet 2 s1) as [[o2 s2]|] eqn:E2; [|done]. apply read_octet_bound in E2. simpl in H.
  destruct (read_octet 3 s2) as [[o3 s3]|] eqn:E3; [|done]. apply read_octet_bound in E3. simpl in H.
  simplify_eq. lia.
Qed.

Lemma read_groups_bound limit : ∀ i s gs v4 r,
  read_groups limit i s = (gs, v4, r) → groups_ok gs ∧ (length gs ≤ limit)%nat.
Proof.
  induction limit as [|limit IH]; intros i s gs v4 r; [intros [= <- <- <-]; by split; [constructor|]|].
  rewrite read_groups_S. destruct (if bool_decide (limit = 0%nat) then None else _) as [[v t]|] eqn:E4.
  - intros [= <- <- <-]. case_bool_decide as Hl; [done|].
    apply read_separator_inv in E4 as [u E4]. apply read_ipv4_bound in E4. split; [|simpl; lia].
    repeat constructor; try apply Z.div_pos; try apply Z.div_lt_upper_bound;
      try apply Z.mod_pos_bound; lia.
  - destruct (read_separator ":" i (read_number 16 65535 4 true) s) as [[g t]|] eqn:E6.
    + apply read_separator_inv in E6 as [u E6]. apply read_number_bound in E6; [|lia|lia].
      destruct (read_groups limit (S i) t) as [[gs' v'] r'] eqn:Er. intros [= <- <- <-].
      apply IH in Er as [? ?]. split; [constructor; [lia|done]|simpl; lia].
    + intros [= <- <- <-]. split; [constructor|simpl; lia].
Qed.

Lemma of_segments_bound gs : groups_ok gs → 0 ≤ of_segments gs < 2 ^ (16 * Z.of_nat (length gs)).
Proof.
  induction gs as [|g gs IH] using rev_ind; intros Hg; [unfold of_segments; simpl; lia|].
  apply Forall_app in Hg as [Hgs Hg]. rewrite Forall_singleton in Hg. specialize (IH Hgs).
  rewrite of_segments_app, length_app. simpl.
  replace (16 * Z.of_nat (length gs + 1)) with (16 * Z.of_nat (length gs) + 16) by lia.
  rewrite Z.pow_add_r by lia. change (2 ^ 16) with 65536. nia.
Qed.

Lemma read_ipv6_bound s b r : read_ipv6_addr s = Some (b, r) → 0 ≤ b < 2 ^ 128.
Proof.
  unfold read_ipv6_addr. destruct (read_groups 8 0 s) as [[gs v4] t] eqn:E.
  apply read_groups_bound in E as [Hg Hl]. case_bool_decide as H8.
  { intros [= <- <-]. apply of_segments_bound in Hg. by rewrite H8 in Hg. }
  destruct v4; [done|]. destruct (read_given_char _ t) as [[[] t1]|]; [|done]. simpl.
  destruct (read_given_char _ t1) as [[[] t2]|]; [|done]. simpl.
  destruct (read_groups _ 0 t2) as [[tl v4] t3] eqn:Et. apply read_groups_bound in Et as [Htg Htl].
  intros [= <- <-].
  assert (groups_ok (gs ++ replicate (8 - length gs - length tl) 0 ++ tl)) as Hall.
  { apply Forall_app. split; [done|]. apply Forall_app. split; [|done].
    apply Forall_replicate. lia. }
  apply of_segments_bound in Hall. rewrite !length_app, length_replicate in Hall.
  replace (length gs + (8 - length gs - length tl + length tl))%nat with 8%nat in Hall by lia. done.
Qed.

Lemma parse_ip_ok text ip : parse_ip text = Some ip → ip_ok ip.
Proof.
  unfold parse_ip. destruct (read_ipv4_addr _) as [[b [|]]|] eqn:E4.
  - intros [= <-]. by eapply read_ipv4_bound.
  - done.
  - destruct (read_ipv6_addr _) as [[b [|]]|] eqn:E6; [|done|done].
    intros [= <-]. by eapply read_ipv6_bound.
Qed.

Lemma parse_ipv6_ok text b : parse_ipv6 text = Some b → ip_ok (V6 b).
Proof.
  unfold parse_ipv6. destruct (read_ipv6_addr _) as [[? [|]]|] eqn:E6; [|done|done].
  intros [= <-]. by eapply read_ipv6_bound.
Qed.

(** ** Characters *)

(** The printer uses lower-case hexadecimal digits, dots and colons. *)
Definition is_ip_char (c : ascii) : bool :=
  is_ascii_digit c || ((97 <=? code c)%N && (code c <=? 102)%N) || bool_decide (c = ":"%char)
  || bool_decide (c = "."%char).

Lemma digit_ip_char n : 0 ≤ n < 16 → is_ip_char (digit_char n) = true.
Proof.
  intros Hn. assert (n ∈ seqZ 0 16) as Hin by (apply elem_of_seqZ; lia). revert n Hn Hin.
  assert (Forall (λ n, is_ip_char (digit_char n) = true) (seqZ 0 16)) as Hall
    by (apply (bool_decide_unpack _); vm_compute; exact I).
  rewrite Forall_forall in Hall. intros n _. apply Hall.
Qed.

Lemma print_number_ip_chars radix fuel n :
  is_radix radix → 0 ≤ n → Forall (λ c, is_ip_char c = true) (print_number radix fuel n).
Proof.
  intros Hr. assert (0 < radix ≤ 16) by (destruct Hr; lia). revert n.
  induction fuel as [|fuel IH]; intros n Hn; simpl; [done|]. apply Forall_app. split.
  - case_match; [done|]. apply IH. apply Z.div_pos; lia.
  - constructor; [|done]. apply digit_ip_char. pose proof (Z.mod_pos_bound n radix). lia.
Qed.

Lemma fmt_subslice_ip_chars gs : groups_ok gs → Forall (λ c, is_ip_char c = true) (fmt_subslice gs).
Proof.
  destruct gs as [|g gs]; intros Hg; [constructor|]. rewrite fmt_subslice_cons.
  apply Forall_cons in Hg as [Hg Hgs]. apply Forall_app. split.
  { apply print_number_ip_chars; [by right|lia]. }
  induction Hgs as [|x xs Hx _ IH]; [constructor|]. rewrite print_more_cons. constructor; [done|].
  apply Forall_app. split; [apply print_number_ip_chars; [by right|lia]|done].
Qed.

Lemma print_v4_ip_chars b : 0 ≤ b → Forall (λ c, is_ip_char c = true) (print_v4 b).
Proof.
  intros Hb. assert (∀ n, 0 ≤ n → Forall (λ c, is_ip_char c = true) (print_octet n)) as Ho
    by (intros; apply print_number_ip_chars; [by left|done]).
  unfold print_v4. repeat (apply Forall_app; split; [apply Ho|constructor; [done|]]).
  4: apply Ho. all: repeat (apply Z.mod_pos_bound || apply Z.div_pos); lia.
Qed.

Lemma ip_to_string_chars ip : ip_ok ip → all_chars is_ip_char (ip_to_string ip) = true.
Proof.
  intros Hok. unfold all_chars, ip_to_string, bytes_of, string_of_bytes.
  rewrite String.list_ascii_of_string_of_list_ascii. apply forallb_forall.
  intros c Hc%list_elem_of_In. revert c Hc. apply Forall_forall.
  destruct ip as [b|b]; simpl in *; [apply print_v4_ip_chars; lia|].
  destruct (segments_of_spec 8 b Hok) as (_ & Hg & _). fold (segments b) in Hg.
  unfold print_v6. case_bool_decide.
  - apply Forall_app. split; [by repeat constructor|].
    apply print_v4_ip_chars. apply Z.mod_pos_bound. lia.
  - destruct (longest_zeros _ _ _ _) as [start len]. case_bool_decide; [|by apply fmt_subslice_ip_chars].
    apply Forall_app. split; [by apply fmt_subslice_ip_chars, Forall_take|].
    apply Forall_app. split; [by repeat constructor|]. by apply fmt_subslice_ip_chars, Forall_drop.
Qed.

(** So does the parser, in either case: what it reads are characters of a class. *)
Section eats.
Context (class : ascii → bool).

Definition eaten (s r : list ascii) : Prop := ∃ k, s = k ++ r ∧ Forall (λ c, class c = true) k.
Definition eats {A} (p : parser A) : Prop := ∀ s a r, p s = Some (a, r) → eaten s r.

Lemma eaten_refl s : eaten s s.
Proof. by exists []. Qed.
Lemma eaten_trans s t r : eaten s t → eaten t r → eaten s r.
Proof.
  intros (k & -> & Hk) (l & -> & Hl). exists (k ++ l). rewrite app_assoc. split; [done|].
  by apply Forall_app.
Qed.

Lemma eats_bind {A B} (p : parser A) (q : A → parser B) :
  eats p → (∀ a, eats (q a)) → eats (λ s, '(a, s) ← p s; q a s).
Proof.
  intros Hp Hq s b r. destruct (p s) as [[a t]|] eqn:E; [|done]. simpl. intros Hb.
  eapply eaten_trans; [by eapply Hp|by eapply Hq].
Qed.
Lemma eats_ret {A} (a : A) : eats (λ s, Some (a, s)).
Proof. intros s b r [= <- <-]. apply eaten_refl. Qed.
Lemma eats_given_char c : class c = true → eats (read_given_char c).
Proof.
  intros Hc [|x s] [] r; simpl; [done|]. case_decide as E; [|done]. intros [= <-]. subst.
  exists [c]. split; [done|]. by repeat constructor.
Qed.
Lemma eats_separator {A} sep i (p : parser A) : class sep = true → eats p → eats (read_separator sep i p).
Proof.
  intros Hsep Hp s a r. unfold read_separator. destruct (bool_decide (i = 0%nat)); [apply Hp|].
  apply (eats_bind (read_given_char sep) (λ _, p)); [by apply eats_given_char|done].
Qed.

Lemma read_digits_eats radix max digits s :
  (∀ c d, to_digit radix c = Some d → class c = true) → ∀ count acc n k r,
  read_digits radix max digits count acc s = Some (n, k, r) → eaten s r.
Proof.
  intros Hr. induction s as [|c s IH]; intros count acc n k r; cbn [read_digits].
  { intros [= <- <- <-]. apply eaten_refl. }
  destruct (to_digit radix c) as [d|] eqn:Hd; [|intros [= <- <- <-]; apply eaten_refl].
  destruct (_ || _); [done|]. intros E%IH. apply (eaten_trans _ s); [|done].
  exists [c]. split; [done|]. repeat constructor. by eapply Hr.
Qed.
Lemma eats_number radix max digits zero :
  (∀ c d, to_digit radix c = Some d → class c = true) → eats (read_number radix max digits zero).
Proof.
  intros Hr s n r. unfold read_number.
  destruct (read_digits radix max digits 0 0 s) as [[[x k] t]|] eqn:E; [|done]. simpl.
  repeat (case_match; [done|]). intros [= <- <-]. by eapply read_digits_eats.
Qed.
End eats.

Lemma eaten_weaken (P Q : ascii → bool) s r :
  (∀ c, P c = true → Q c = true) → eaten P s r → eaten Q s r.
Proof. intros HPQ (k & -> & Hk). exists k. split; [done|]. by eapply Forall_impl. Qed.

Definition is_v4_char (c : ascii) : bool := is_ascii_digit c || bool_decide (c = "."%char).
Definition is_address_char (c : ascii) : bool := is_ip_char (ascii_lower c).

Lemma to_digit_class :
  (∀ c d, to_digit 10 c = Some d → is_v4_char c = true) ∧
  ∀ c d, to_digit 16 c = Some d → is_address_char c = true.
Proof. split; intros c d; by destruct c as [[] [] [] [] [] [] [] []]. Qed.

Lemma eats_v4_chars : eats is_v4_char read_ipv4_addr.
Proof.
  unfold read_ipv4_addr.
  do 4 (apply eats_bind; [apply eats_separator; [done|apply eats_number, to_digit_class]|intros ?]).
  apply eats_ret.
Qed.
Lemma eats_ipv4 : eats is_address_char read_ipv4_addr.
Proof.
  intros s a r E%eats_v4_chars. eapply eaten_weaken, E. clear.
  intros c. by destruct c as [[] [] [] [] [] [] [] []].
Qed.
Lemma eats_group : eats is_address_char (read_number 16 65535 4 true).
Proof. apply eats_number, to_digit_class. Qed.

Definition colons_of (s : list ascii) : nat := length (filter (.= ":"%char) s).

Lemma eaten_colons P s r : eaten P s r → (colons_of r ≤ colons_of s)%nat.
Proof. intros (k & -> & _). unfold colons_of. rewrite filter_app, length_app. lia. Qed.
Lemma given_colon s u r : read_given_char ":"%char s = Some (u, r) → colons_of s = S (colons_of r).
Proof.
  destruct s as [|x s]; simpl; [done|]. case_decide as E; [|done]. intros [= <- <-]. subst.
  unfold colons_of. by rewrite filter_cons_True.
Qed.
Lemma separator_colons {A} i (p : parser A) s a r :
  eats is_address_char p → read_separator ":"%char i p s = Some (a, r) →
  (colons_of r + (if bool_decide (i = 0%nat) then 0 else 1) ≤ colons_of s)%nat.
Proof.
  intros Hp. unfold read_separator. destruct (bool_decide (i = 0%nat)).
  { intros E%Hp%eaten_colons. lia. }
  destruct (read_given_char ":" s) as [[[] t]|] eqn:Ec; [|done]. simpl. apply given_colon in Ec.
  intros E%Hp%eaten_colons. lia.
Qed.

(** What the groups of an address were read from, and how many colons that had. *)
Lemma read_groups_eats limit : ∀ i s,
  let '(gs, v4, r) := read_groups limit i s in
  eaten is_address_char s r ∧
  (colons_of r + length gs ≤
   colons_of s + (if bool_decide (i = 0%nat) then 1 else 0) + (if (v4 : bool) then 1 else 0))%nat.
Proof.
  induction limit as [|limit IH]; intros i s; [split; [apply eaten_refl|simpl; lia]|].
  rewrite read_groups_S.
  destruct (if bool_decide (limit = 0%nat) then None else _) as [[v t]|] eqn:E4.
  - case_bool_decide; [done|]. split; [by eapply (eats_separator _ ":"%char); [|apply eats_ipv4|]|].
    apply separator_colons in E4; [|apply eats_ipv4]. simpl. destruct (bool_decide (i = 0%nat)); lia.
  - destruct (read_separator ":" i (read_number 16 65535 4 true) s) as [[g t]|] eqn:E6;
      [|split; [apply eaten_refl|simpl; lia]].
    specialize (IH (S i) t). destruct (read_groups limit (S i) t) as [[gs v4] r].
    destruct IH as [He Hc]. split.
    + eapply eaten_trans; [|done]. by eapply (eats_separator _ ":"%char); [|apply eats_group|].
    + apply separator_colons in E6; [|apply eats_group]. rewrite bool_decide_false in Hc by done.
      simpl. destruct (bool_decide (i = 0%nat)); lia.
Qed.
Lemma read_ipv6_eats s b r :
  read_ipv6_addr s = Some (b, r) → eaten is_address_char s r ∧ (2 + colons_of r ≤ colons_of s)%nat.
Proof.
  unfold read_ipv6_addr. pose proof (read_groups_eats 8 0 s) as Hg.
  destruct (read_groups 8 0 s) as [[gs v4] t]. destruct Hg as [He Hc].
  rewrite bool_decide_true in Hc by done.
  case_bool_decide as Hl; [intros [= <- <-]; split; [done|destruct v4; simpl in *; lia]|].
  destruct v4; [done|].
  destruct (read_given_char _ t) as [[[] t1]|] eqn:E1; [|done]. simpl.
  destruct (read_given_char _ t1) as [[[] t2]|] eqn:E2; [|done]. simpl.
  pose proof (read_groups_eats (8 - (length gs + 1)) 0 t2) as Ht.
  destruct (read_groups _ 0 t2) as [[tl v4] t3]. destruct Ht as [Ht _]. intros [= <- <-]. split.
  - apply (eaten_trans _ _ t), (eaten_trans _ _ t1), (eaten_trans _ _ t2), Ht; [done| |];
      by eapply (eats_given_char _ ":"%char).
  - apply given_colon in E1, E2. apply eaten_colons in He, Ht. lia.
Qed.

Lemma eaten_all text :
  eaten is_address_char (bytes_of text) [] → all_chars is_ip_char (to_ascii_lowercase text) = true.
Proof.
  intros (k & Hk & Hc). rewrite app_nil_r in Hk. unfold all_chars. rewrite bytes_of_lower, Hk.
  apply forallb_forall. intros c (x & -> & Hx)%list_elem_of_In%list_elem_of_fmap.
  rewrite Forall_forall in Hc. by apply Hc.
Qed.
Lemma parse_ip_chars text ip :
  parse_ip text = Some ip → all_chars is_ip_char (to_ascii_lowercase text) = true.
Proof.
  unfold parse_ip. intros E. apply eaten_all.
  destruct (read_ipv4_addr _) as [[b [|]]|] eqn:E4; [by eapply eats_ipv4|done|].
  destruct (read_ipv6_addr _) as [[b [|]]|] eqn:E6; [by eapply read_ipv6_eats|done..].
Qed.
Lemma parse_ipv6_chars text b :
  parse_ipv6 text = Some b → all_chars is_ip_char (to_ascii_lowercase text) = true.
Proof.
  unfold parse_ipv6. intros E. apply eaten_all.
  destruct (read_ipv6_addr _) as [[? [|]]|] eqn:E6; [by eapply read_ipv6_eats|done..].
Qed.

(** An address with a colon has more than one. *)
Lemma parse_ip_colons text ip :
  parse_ip text = Some ip → ":"%char ∈ bytes_of text → (1 < count_char ":"%char text)%nat.
Proof.
  unfold parse_ip, count_char. intros E Hc.
  destruct (read_ipv4_addr _) as [[b [|]]|] eqn:E4; [|done|].
  - apply eats_v4_chars in E4 as (k & Hk & Hf). rewrite app_nil_r in Hk. rewrite Hk in Hc.
    rewrite Forall_forall in Hf. by apply Hf in Hc.
  - destruct (read_ipv6_addr _) as [[b [|]]|] eqn:E6; [|done..].
    apply read_ipv6_eats in E6 as [_ H2]. exact H2.
Qed.

Lemma ip_to_string_nonempty ip : ip_ok ip → ip_to_string ip ≠ "".
Proof. intros Hok E. apply parse_ip_to_string in Hok. by rewrite E in Hok. Qed.
