(* ===== verification/Ipc.v ===== *)
(** * Contracts between the manager and its runners

    [crates/imagod-ipc/src/ipc/mod.rs]: the bootstrap a runner receives, the outbound rules
    it enforces, the control and invocation messages, and the tokens the manager signs.
    [hex], [base64], [ciborium] and [hmac] are the class [TokenCrates]; its laws are the
    round trips those crates document.  Shown: the texts of outbound rules are
    those of a grammar, and a parsed rule is one the runner accepts and authorizes exactly the
    requests its text stands for; a token verifies exactly when its claims carry the signature
    of the secret and have not expired. *)

From S2P Require Import Prelude Protocol Text IpAddr.

Open Scope Z_scope.

(** ** Validation helpers *)

Definition validate_non_empty (value field : string) : vresult :=
  ensure (negb (is_blank value)) (ve_empty field).

Fixpoint validate_non_empty_fields (fields : list (string * string)) : vresult :=
  match fields with
  | [] => Ok tt
  | (value, field) :: rest =>
    _ ← validate_non_empty value field; validate_non_empty_fields rest
  end.

Definition validate_non_empty_path (path field : string) : vresult :=
  ensure (negb (bool_decide (path = ""))) (ve_empty field).

Definition validate_positive_u64 (value : Z) (field : string) : vresult :=
  ensure (negb (value =? 0)) (ve_invalid field "must be greater than zero").

Definition validation_error (code : ErrorCode) (stage : string) (error : ValidationError)
    : ImagodError := new_error code stage (ve_to_string error).

(** [for v in values { validate_non_empty(v, field)? }]. *)
Fixpoint validate_each (field : string) (values : list string) : vresult :=
  match values with
  | [] => Ok tt
  | v :: rest => _ ← validate_non_empty v field; validate_each field rest
  end.

(** ** Bindings, sockets, mounts *)

Record ServiceBinding := { bind_name : string; bind_wit : string }.

#[export] Instance ServiceBinding_eq_dec : EqDecision ServiceBinding.
Proof. solve_decision. Defined.

#[export] Instance ServiceBinding_validate : Validate ServiceBinding := λ b,
  validate_non_empty_fields [(bind_name b, "name"); (bind_wit b, "wit")].

Inductive RunnerAppType := Cli | Rpc | Http | Socket.

#[export] Instance RunnerAppType_eq_dec : EqDecision RunnerAppType.
Proof. solve_decision. Defined.

Inductive RunnerSocketProtocol := Udp | Tcp | BothProtocols.
Inductive RunnerSocketDirection := Inbound | Outbound | BothDirections.

#[export] Instance RunnerSocketProtocol_eq_dec : EqDecision RunnerSocketProtocol.
Proof. solve_decision. Defined.
#[export] Instance RunnerSocketDirection_eq_dec : EqDecision RunnerSocketDirection.
Proof. solve_decision. Defined.

Definition allows_udp (p : RunnerSocketProtocol) : bool :=
  match p with Udp | BothProtocols => true | Tcp => false end.
Definition allows_tcp (p : RunnerSocketProtocol) : bool :=
  match p with Tcp | BothProtocols => true | Udp => false end.
Definition allows_inbound (d : RunnerSocketDirection) : bool :=
  match d with Inbound | BothDirections => true | Outbound => false end.
Definition allows_outbound (d : RunnerSocketDirection) : bool :=
  match d with Outbound | BothDirections => true | Inbound => false end.

Record RunnerSocketConfig := {
  sock_protocol : RunnerSocketProtocol;
  sock_direction : RunnerSocketDirection;
  sock_listen_addr : string;
  sock_listen_port : Z;
}.

#[export] Instance RunnerSocketConfig_eq_dec : EqDecision RunnerSocketConfig.
Proof. solve_decision. Defined.

#[export] Instance RunnerSocketConfig_validate : Validate RunnerSocketConfig := λ s,
  _ ← validate_non_empty (sock_listen_addr s) "listen_addr";
  ensure (negb (allows_inbound (sock_direction s) && (sock_listen_port s =? 0)))
    (ve_invalid "listen_port" "must be greater than zero").

Record RunnerWasiMount := {
  mount_host_path : string;
  mount_guest_path : string;
  mount_read_only : bool;
}.

#[export] Instance RunnerWasiMount_eq_dec : EqDecision RunnerWasiMount.
Proof. solve_decision. Defined.

Fixpoint validate_guest_components (cs : list Component) : vresult :=
  match cs with
  | [] => Ok tt
  | (RootDir | Normal _) :: rest => validate_guest_components rest
  | (CurDir | ParentDir) :: _ => Err (ve_invalid "guest_path" "must not contain path traversal")
  end.

#[export] Instance RunnerWasiMount_validate : Validate RunnerWasiMount := λ m,
  _ ← validate_non_empty_path (mount_host_path m) "host_path";
  _ ← validate_non_empty (mount_guest_path m) "guest_path";
  _ ← ensure (starts_with "/" (mount_guest_path m))
        (ve_invalid "guest_path" "must be an absolute path");
  _ ← ensure (negb (str_contains "\" (mount_guest_path m)))
        (ve_invalid "guest_path" "must not contain backslashes");
  validate_guest_components (components (mount_guest_path m)).

(** ** Outbound rules *)

Inductive WasiHttpOutboundRule :=
  | Host (host : string)
  | HostPort (host : string) (port : Z)
  | Cidr (network : IpAddr) (prefix_len : Z).

#[export] Instance WasiHttpOutboundRule_eq_dec : EqDecision WasiHttpOutboundRule.
Proof. solve_decision. Defined.

Definition normalize_wasi_http_outbound_host (raw : string) : option string :=
  let value := trim raw in
  if bool_decide (value = "") then None
  else if str_contains "*" value || str_contains "/" value || str_contains "\" value
          || has_whitespace value then None
  else if starts_with "[" value || ends_with "]" value then None
  else
    match parse_ip value with
    | Some ip => Some (ip_to_string ip)
    | None => if str_contains ":" value then None else Some (to_ascii_lowercase value)
    end.

(** [u32::MAX << k] and [u128::MAX << k]: the shift stays below the width, because it is
    taken only for a positive prefix length. *)
Definition cidr_mask (width prefix_len : Z) : Z :=
  if prefix_len =? 0 then 0
  else Z.land (Z.shiftl (Z.ones width) (Z.max (width - prefix_len) 0)) (Z.ones width).

Definition cidr_network_ip (ip : IpAddr) (prefix_len : Z) : IpAddr :=
  match ip with
  | V4 bits => V4 (Z.land bits (cidr_mask 32 prefix_len))
  | V6 bits => V6 (Z.land bits (cidr_mask 128 prefix_len))
  end.

Definition ip_in_cidr (ip network : IpAddr) (prefix_len : Z) : bool :=
  match ip, network with
  | V4 ip_bits, V4 net_bits =>
    let mask := cidr_mask 32 prefix_len in Z.land ip_bits mask =? Z.land net_bits mask
  | V6 ip_bits, V6 net_bits =>
    let mask := cidr_mask 128 prefix_len in Z.land ip_bits mask =? Z.land net_bits mask
  | _, _ => false
  end.

Definition max_prefix_of (ip : IpAddr) : Z := match ip with V4 _ => 32 | V6 _ => 128 end.

Definition parse_wasi_http_outbound_cidr (value : string) : result string WasiHttpOutboundRule :=
  let invalid := ("invalid CIDR rule: " +:+ value)%string in
  '(ip_text, prefix_text) ← ok_or (split_once "/"%char value) invalid;
  _ ← ensure (negb (bool_decide (ip_text = "") || bool_decide (prefix_text = "")
                    || str_contains "/" prefix_text)) invalid;
  ip ← ok_or (parse_ip ip_text)
        ("invalid CIDR IP '" +:+ ip_text +:+ "': invalid IP address syntax")%string;
  prefix_len ← map_err (λ err, "invalid CIDR prefix '" +:+ prefix_text +:+ "': " +:+ err)%string
                (parse_uint 255 prefix_text);
  _ ← ensure (prefix_len <=? max_prefix_of ip)
        ("CIDR prefix must be in range 0..=" +:+ to_string (max_prefix_of ip) +:+ ": "
         +:+ to_string prefix_len)%string;
  Ok (Cidr (cidr_network_ip ip prefix_len) prefix_len).

Definition parse_wasi_http_outbound_port (text : string) : result string Z :=
  port ← map_err (λ err, "port must be in range 1..=65535 (got '" +:+ text +:+ "'): " +:+ err)%string
          (parse_uint 65535 text);
  if port =? 0 then Err "port must be in range 1..=65535 (got 0)" else Ok port.

(** A bracketed IPv6 host, after the opening bracket. *)
Definition parse_bracketed (value rest : string) : result string WasiHttpOutboundRule :=
  '(host_text, rest) ← ok_or (split_once "]"%char rest)
                        ("invalid bracketed host rule: " +:+ value)%string;
  bits ← ok_or (parse_ipv6 host_text)
          ("invalid IPv6 host '" +:+ host_text +:+ "': invalid IPv6 address syntax")%string;
  let host := ip_to_string (V6 bits) in
  if bool_decide (rest = "") then Ok (Host host)
  else
    port_text ← ok_or (strip_prefix ":" rest) ("invalid bracketed host: " +:+ value)%string;
    port ← parse_wasi_http_outbound_port port_text;
    Ok (HostPort host port).

Definition parse_wasi_http_outbound_host_or_port (value : string)
    : result string WasiHttpOutboundRule :=
  match strip_prefix "[" value with
  | Some rest => parse_bracketed value rest
  | None =>
    if bool_decide (1 < count_char ":"%char value)%nat then
      ip ← ok_or (parse_ip value)
            ("IPv6 host with port must use [ipv6]:port: " +:+ value
             +:+ " (invalid IP address syntax)")%string;
      Ok (Host (ip_to_string ip))
    else
      let whole :=
        host ← ok_or (normalize_wasi_http_outbound_host value)
                ("invalid host rule: " +:+ value)%string;
        Ok (Host host) in
      match rsplit_once ":"%char value with
      | Some (host_text, port_text) =>
        if all_chars is_ascii_digit port_text then
          host ← ok_or (normalize_wasi_http_outbound_host host_text)
                  ("invalid host in host:port rule: " +:+ host_text)%string;
          port ← parse_wasi_http_outbound_port port_text;
          Ok (HostPort host port)
        else whole
      | None => whole
      end
  end.

(** [WasiHttpOutboundRule::parse]. *)
Definition parse_rule (raw : string) : result string WasiHttpOutboundRule :=
  let value := trim raw in
  if bool_decide (value = "") then Err "rule must not be empty"
  else if str_contains "*" value then Err ("wildcard is not supported: " +:+ value)%string
  else if has_whitespace value then
    Err ("rule must not contain whitespace: " +:+ value)%string
  else if str_contains "/" value then parse_wasi_http_outbound_cidr value
  else parse_wasi_http_outbound_host_or_port value.

Definition matches_authority (rule : WasiHttpOutboundRule) (request_host : string)
    (request_port : Z) : bool :=
  let normalized_request_host := normalize_wasi_http_outbound_host request_host in
  let host_matches host :=
    match normalized_request_host with
    | Some v => eq_ignore_ascii_case v host
    | None => false
    end in
  match rule with
  | Host host => host_matches host
  | HostPort host port => if negb (port =? request_port) then false else host_matches host
  | Cidr network prefix_len =>
    match parse_ip request_host with
    | Some ip => ip_in_cidr ip network prefix_len
    | None => false
    end
  end.

Definition validate_rule_host (host : string) : vresult :=
  normalized ← ok_or (normalize_wasi_http_outbound_host host)
                (ve_invalid "wasi_http_outbound.host" "contains invalid host");
  ensure (bool_decide (normalized = host))
    (ve_invalid "wasi_http_outbound.host" "must be normalized").

#[export] Instance WasiHttpOutboundRule_validate : Validate WasiHttpOutboundRule := λ rule,
  match rule with
  | Host host => validate_rule_host host
  | HostPort host port =>
    _ ← validate_rule_host host;
    ensure (negb (port =? 0)) (ve_invalid "wasi_http_outbound.port" "must be between 1 and 65535")
  | Cidr network prefix_len =>
    _ ← ensure (prefix_len <=? max_prefix_of network)
          (ve_invalid "wasi_http_outbound.prefix_len" "is out of range for network address family");
    ensure (bool_decide (cidr_network_ip network prefix_len = network))
      (ve_invalid "wasi_http_outbound.network" "must be normalized to network address")
  end.

(** ** Plugins and capabilities *)

Inductive PluginKind := Native | Wasm.

#[export] Instance PluginKind_eq_dec : EqDecision PluginKind.
Proof. solve_decision. Defined.

Record PluginComponent := {
  pc_path : string;
  pc_sha256 : string;
  pc_imports : option (list string);
  pc_exports : option (list string);
}.

#[export] Instance PluginComponent_eq_dec : EqDecision PluginComponent.
Proof. solve_decision. Defined.

#[export] Instance PluginComponent_validate : Validate PluginComponent := λ c,
  _ ← validate_non_empty_path (pc_path c) "path";
  _ ← validate_non_empty (pc_sha256 c) "sha256";
  _ ← match pc_imports c with Some imports => validate_each "imports" imports | None => Ok tt end;
  match pc_exports c with Some exports => validate_each "exports" exports | None => Ok tt end.

Record CapabilityPolicy := {
  cap_privileged : bool;
  cap_deps : gmap string (list string);
  cap_wasi : gmap string (list string);
}.

Fixpoint validate_rule_map (key_field function_field : string)
    (entries : list (string * list string)) : vresult :=
  match entries with
  | [] => Ok tt
  | (key, functions) :: rest =>
    _ ← validate_non_empty key key_field;
    _ ← validate_each function_field functions;
    validate_rule_map key_field function_field rest
  end.

#[export] Instance CapabilityPolicy_validate : Validate CapabilityPolicy := λ p,
  _ ← validate_rule_map "deps.key" "deps.function" (btree_iter (cap_deps p));
  validate_rule_map "wasi.key" "wasi.function" (btree_iter (cap_wasi p)).

Record PluginDependency := {
  dep_name : string;
  dep_version : string;
  dep_kind : PluginKind;
  dep_wit : string;
  dep_requires : list string;
  dep_component : option PluginComponent;
  dep_capabilities : CapabilityPolicy;
}.

#[export] Instance PluginDependency_validate : Validate PluginDependency := λ d,
  _ ← validate_non_empty_fields
        [(dep_name d, "name"); (dep_version d, "version"); (dep_wit d, "wit")];
  _ ← validate_each "requires" (dep_requires d);
  _ ← validate (dep_capabilities d);
  match dep_kind d with
  | Wasm => component ← ok_or (dep_component d) (ve_missing "component"); validate component
  | Native => match dep_component d with Some component => validate component | None => Ok tt end
  end.

(** *** Built-in native plugins ([imagod-common/src/builtin_native_plugins.rs]) *)

Record BuiltinNativePluginDescriptor := { bp_package_name : string; bp_default_enabled : bool }.

Definition BUILTIN_NATIVE_PLUGIN_DESCRIPTORS : list BuiltinNativePluginDescriptor :=
  [{| bp_package_name := "imago:admin"; bp_default_enabled := true |};
   {| bp_package_name := "imago:node"; bp_default_enabled := true |};
   {| bp_package_name := "imago:experimental-gpio"; bp_default_enabled := false |};
   {| bp_package_name := "imago:experimental-i2c"; bp_default_enabled := false |};
   {| bp_package_name := "imago:usb"; bp_default_enabled := false |};
   {| bp_package_name := "imago:v4l2"; bp_default_enabled := false |}].

Definition is_builtin_native_plugin_package_name (package_name : string) : bool :=
  existsb (λ d, bool_decide (bp_package_name d = package_name)) BUILTIN_NATIVE_PLUGIN_DESCRIPTORS.

(** ** Bootstrap *)

(** [serde_json::Value] and the constructors the daemon applies. *)
Class Json := {
  JsonValue : Type;
  json_string : string → JsonValue;
  json_array : list JsonValue → JsonValue;
  json_object : gmap string JsonValue → JsonValue;
}.

Record RunnerBootstrap `{Json} := {
  rb_runner_id : string;
  rb_service_name : string;
  rb_release_hash : string;
  rb_app_type : RunnerAppType;
  rb_http_port : option Z;
  rb_http_listen_addr : option string;
  rb_http_max_body_bytes : option Z;
  rb_http_worker_count : Z;
  rb_http_worker_queue_capacity : Z;
  rb_socket : option RunnerSocketConfig;
  rb_component_path : string;
  rb_args : list string;
  rb_envs : gmap string string;
  rb_wasi_mounts : list RunnerWasiMount;
  rb_wasi_http_outbound : list WasiHttpOutboundRule;
  rb_resources : gmap string JsonValue;
  rb_bindings : list ServiceBinding;
  rb_plugin_dependencies : list PluginDependency;
  rb_enabled_native_plugins : list string;
  rb_capabilities : CapabilityPolicy;
  rb_manager_control_endpoint : string;
  rb_runner_endpoint : string;
  rb_manager_auth_secret : string;
  rb_invocation_secret : string;
  rb_epoch_tick_interval_ms : Z;
  rb_wasm_memory_reservation_bytes : Z;
  rb_wasm_memory_reservation_for_growth_bytes : Z;
  rb_wasm_memory_guard_size_bytes : Z;
  rb_wasm_guard_before_linear_memory : bool;
  rb_wasm_parallel_compilation : bool;
}.

(** The settings that depend on the application type. *)
Definition validate_app_type `{Json} (b : RunnerBootstrap) : vresult :=
  match rb_app_type b with
  | Http =>
    port ← ok_or (rb_http_port b) (ve_missing "http_port");
    _ ← ensure (negb (port =? 0)) (ve_invalid "http_port" "must be greater than zero");
    listen_addr ← ok_or (rb_http_listen_addr b) (ve_missing "http_listen_addr");
    _ ← validate_non_empty listen_addr "http_listen_addr";
    _ ← ok_or (parse_ip listen_addr)
          (ve_invalid "http_listen_addr" "must be a valid IP address literal");
    match rb_http_max_body_bytes b with
    | Some max_body_bytes => validate_positive_u64 max_body_bytes "http_max_body_bytes"
    | None => Ok tt
    end
  | Socket => socket ← ok_or (rb_socket b) (ve_missing "socket"); validate socket
  | Cli | Rpc => Ok tt
  end.

Fixpoint validate_native_plugins (names : list string) : vresult :=
  match names with
  | [] => Ok tt
  | name :: rest =>
    _ ← validate_non_empty name "enabled_native_plugins";
    _ ← ensure (is_builtin_native_plugin_package_name name)
          (ve_invalid "enabled_native_plugins"
             "must contain only built-in native plugin package names");
    validate_native_plugins rest
  end.

#[export] Instance RunnerBootstrap_validate `{Json} : Validate RunnerBootstrap := λ b,
  _ ← validate_non_empty_fields
        [(rb_runner_id b, "runner_id"); (rb_service_name b, "service_name");
         (rb_release_hash b, "release_hash"); (rb_manager_auth_secret b, "manager_auth_secret");
         (rb_invocation_secret b, "invocation_secret")];
  _ ← validate_non_empty_path (rb_component_path b) "component_path";
  _ ← validate_non_empty_path (rb_manager_control_endpoint b) "manager_control_endpoint";
  _ ← validate_non_empty_path (rb_runner_endpoint b) "runner_endpoint";
  _ ← validate_positive_u64 (rb_epoch_tick_interval_ms b) "epoch_tick_interval_ms";
  _ ← validate_positive_u64 (rb_wasm_memory_reservation_bytes b) "wasm_memory_reservation_bytes";
  _ ← validate_positive_u64 (rb_wasm_memory_reservation_for_growth_bytes b)
        "wasm_memory_reservation_for_growth_bytes";
  _ ← ensure ((1 <=? rb_http_worker_count b) && (rb_http_worker_count b <=? 4))
        (ve_invalid "http_worker_count" "must be between 1 and 4");
  _ ← ensure ((1 <=? rb_http_worker_queue_capacity b) && (rb_http_worker_queue_capacity b <=? 16))
        (ve_invalid "http_worker_queue_capacity" "must be between 1 and 16");
  _ ← validate_app_type b;
  _ ← validate_all (rb_bindings b);
  _ ← validate_all (rb_wasi_mounts b);
  _ ← validate_all (rb_wasi_http_outbound b);
  _ ← validate_each "resources.key" (btree_keys (rb_resources b));
  _ ← validate_all (rb_plugin_dependencies b);
  _ ← validate_native_plugins (rb_enabled_native_plugins b);
  validate (rb_capabilities b).

(** ** Control and invocation messages *)

Inductive ControlRequest :=
  | RegisterRunner (runner_id service_name release_hash runner_endpoint manager_auth_proof : string)
  | RunnerReady (runner_id manager_auth_proof : string)
  | Heartbeat (runner_id manager_auth_proof : string)
  | ResolveInvocationTarget (runner_id manager_auth_proof target_service wit : string)
  | RpcConnectRemote (runner_id manager_auth_proof authority : string)
  | RpcInvokeRemote (runner_id manager_auth_proof connection_id target_service interface_id
                     function : string) (args_cbor : list byte)
  | RpcDisconnectRemote (runner_id manager_auth_proof connection_id : string).

#[export] Instance ControlRequest_validate : Validate ControlRequest := λ r,
  match r with
  | RegisterRunner runner_id service_name release_hash runner_endpoint proof =>
    _ ← validate_non_empty_fields
          [(runner_id, "runner_id"); (service_name, "service_name");
           (release_hash, "release_hash"); (proof, "manager_auth_proof")];
    validate_non_empty_path runner_endpoint "runner_endpoint"
  | RunnerReady runner_id proof | Heartbeat runner_id proof =>
    validate_non_empty_fields [(runner_id, "runner_id"); (proof, "manager_auth_proof")]
  | ResolveInvocationTarget runner_id proof target_service wit =>
    validate_non_empty_fields
      [(runner_id, "runner_id"); (proof, "manager_auth_proof");
       (target_service, "target_service"); (wit, "wit")]
  | RpcConnectRemote runner_id proof authority =>
    validate_non_empty_fields
      [(runner_id, "runner_id"); (proof, "manager_auth_proof"); (authority, "authority")]
  | RpcInvokeRemote runner_id proof connection_id target_service interface_id function _ =>
    validate_non_empty_fields
      [(runner_id, "runner_id"); (proof, "manager_auth_proof");
       (connection_id, "connection_id"); (target_service, "target_service");
       (interface_id, "interface_id"); (function, "function")]
  | RpcDisconnectRemote runner_id proof connection_id =>
    validate_non_empty_fields
      [(runner_id, "runner_id"); (proof, "manager_auth_proof"); (connection_id, "connection_id")]
  end.

Record IpcErrorPayload := { ipc_code : ErrorCode; ipc_stage : string; ipc_message : string }.

#[export] Instance IpcErrorPayload_eq_dec : EqDecision IpcErrorPayload.
Proof. solve_decision. Defined.

#[export] Instance IpcErrorPayload_validate : Validate IpcErrorPayload := λ e,
  validate_non_empty_fields [(ipc_stage e, "stage"); (ipc_message e, "message")].

Definition ipc_from_error (err : ImagodError) : IpcErrorPayload :=
  {| ipc_code := err_code err; ipc_stage := err_stage err; ipc_message := err_message err |}.
Definition ipc_to_error (e : IpcErrorPayload) : ImagodError :=
  new_error (ipc_code e) (ipc_stage e) (ipc_message e).

Inductive ControlResponse :=
  | Ack
  | ResolvedInvocationTarget (endpoint token : string)
  | RpcRemoteConnected (connection_id : string)
  | RpcRemoteInvokeResult (result_cbor : list byte)
  | ControlError (error : IpcErrorPayload).

#[export] Instance ControlResponse_validate : Validate ControlResponse := λ r,
  match r with
  | Ack | RpcRemoteInvokeResult _ => Ok tt
  | ResolvedInvocationTarget endpoint token =>
    _ ← validate_non_empty_path endpoint "endpoint"; validate_non_empty token "token"
  | RpcRemoteConnected connection_id => validate_non_empty connection_id "connection_id"
  | ControlError error => validate error
  end.

Inductive RunnerInboundRequest :=
  | ShutdownRunner (manager_auth_proof : string)
  | Invoke (interface_id function : string) (payload_cbor : list byte) (token : string).

#[export] Instance RunnerInboundRequest_validate : Validate RunnerInboundRequest := λ r,
  match r with
  | ShutdownRunner proof => validate_non_empty proof "manager_auth_proof"
  | Invoke interface_id function _ token =>
    validate_non_empty_fields
      [(interface_id, "interface_id"); (function, "function"); (token, "token")]
  end.

Inductive RunnerInboundResponse :=
  | RunnerAck
  | InvokeResult (payload_cbor : list byte)
  | RunnerError (error : IpcErrorPayload).

#[export] Instance RunnerInboundResponse_validate : Validate RunnerInboundResponse := λ r,
  match r with RunnerAck | InvokeResult _ => Ok tt | RunnerError error => validate error end.

(** ** Tokens *)

Record InvocationTokenClaims := {
  tc_source_service : string;
  tc_target_service : string;
  tc_wit : string;
  tc_exp : Z;
  tc_nonce : string;
}.

#[export] Instance InvocationTokenClaims_eq_dec : EqDecision InvocationTokenClaims.
Proof. solve_decision. Defined.

#[export] Instance InvocationTokenClaims_validate : Validate InvocationTokenClaims := λ c,
  _ ← validate_non_empty_fields
        [(tc_source_service c, "source_service"); (tc_target_service c, "target_service");
         (tc_wit c, "wit"); (tc_nonce c, "nonce")];
  validate_positive_u64 (tc_exp c) "exp".

Record SignedInvocationToken := { tok_claims : InvocationTokenClaims; tok_signature : string }.

#[export] Instance SignedInvocationToken_validate : Validate SignedInvocationToken := λ t,
  _ ← validate (tok_claims t); validate_non_empty (tok_signature t) "signature".

(** The codecs and the keyed hash.  [hmac key payload] is the tag, or the error of
    [new_from_slice]; [verify_slice] compares a candidate with the tag. *)
Class TokenCrates := {
  hex_encode : list byte → string;
  hex_decode : string → result string (list byte);
  b64_encode : list byte → string;
  b64_decode : string → result string (list byte);
  claims_to_cbor : InvocationTokenClaims → result string (list byte);
  token_to_cbor : SignedInvocationToken → result string (list byte);
  token_from_cbor : list byte → result string SignedInvocationToken;
  hmac : list byte → list byte → result string (list byte);
}.

(** Decoding inverts encoding, and neither text is blank unless the bytes are empty. *)
Class TokenCratesLaws `{TokenCrates} : Prop := {
  hex_roundtrip bs : hex_decode (hex_encode bs) = Ok bs;
  hex_not_blank bs : bs ≠ [] → is_blank (hex_encode bs) = false;
  b64_roundtrip bs : b64_decode (b64_encode bs) = Ok bs;
  token_cbor_roundtrip t bs : token_to_cbor t = Ok bs → token_from_cbor bs = Ok t;
  hmac_tag_nonempty key payload tag : hmac key payload = Ok tag → tag ≠ [];
}.

Definition STAGE_TOKEN : string := "ipc.token".
Definition MAX_INVOCATION_TOKEN_CHARS : Z := 4096.

Section tokens.
Context `{TokenCrates}.

Definition prefixed (what err : string) : string := (what +:+ ": " +:+ err)%string.

Definition decode_secret_hex (secret_hex : string) : iresult (list byte) :=
  map_err (λ e, new_error Internal STAGE_TOKEN (prefixed "secret decode failed" e))
    (hex_decode secret_hex).

Definition compute_hmac_signature (secret payload : list byte) : iresult string :=
  tag ← map_err (λ e, new_error Internal STAGE_TOKEN (prefixed "hmac initialization failed" e))
         (hmac secret payload);
  Ok (hex_encode tag).

Definition verify_hmac_signature_hex (secret payload : list byte)
    (signature_hex stage decode_error_message mismatch_message : string) : iresult unit :=
  provided ← map_err (λ e, new_error Unauthorized stage (prefixed decode_error_message e))
              (hex_decode signature_hex);
  tag ← map_err (λ e, new_error Internal stage (prefixed "hmac initialization failed" e))
         (hmac secret payload);
  ensure (bool_decide (provided = tag)) (new_error Unauthorized stage mismatch_message).

Definition compute_manager_auth_proof (secret_hex runner_id : string) : iresult string :=
  secret ← decode_secret_hex secret_hex;
  compute_hmac_signature secret (bytes_of runner_id).

Definition verify_manager_auth_proof (secret_hex runner_id proof_hex : string) : iresult unit :=
  secret ← decode_secret_hex secret_hex;
  verify_hmac_signature_hex secret (bytes_of runner_id) proof_hex "ipc"
    "manager auth proof decode failed" "manager auth proof mismatch".

Definition claims_bytes (claims : InvocationTokenClaims) : iresult (list byte) :=
  map_err (λ e, new_error Internal STAGE_TOKEN (prefixed "claims encode failed" e))
    (claims_to_cbor claims).

Definition compute_token_signature (secret : list byte) (claims : InvocationTokenClaims)
    : iresult string :=
  bytes ← claims_bytes claims; compute_hmac_signature secret bytes.

Definition issue_invocation_token (secret_hex : string) (claims : InvocationTokenClaims)
    : iresult string :=
  _ ← map_err (validation_error Internal STAGE_TOKEN) (validate claims);
  secret ← decode_secret_hex secret_hex;
  signature ← compute_token_signature secret claims;
  bytes ← map_err (λ e, new_error Internal STAGE_TOKEN (prefixed "token encode failed" e))
           (token_to_cbor {| tok_claims := claims; tok_signature := signature |});
  Ok (b64_encode bytes).

(** [now] is the clock read at the expiration check. *)
Definition verify_invocation_token (now : Z) (secret_hex token : string)
    : iresult InvocationTokenClaims :=
  let len := zlen (bytes_of token) in
  _ ← ensure (len <=? MAX_INVOCATION_TOKEN_CHARS)
        (new_error Unauthorized STAGE_TOKEN
           ("token is too large: " +:+ to_string len +:+ " chars (max 4096)"));
  secret ← decode_secret_hex secret_hex;
  bytes ← map_err (λ e, new_error Unauthorized STAGE_TOKEN (prefixed "token decode failed" e))
           (b64_decode token);
  envelope ← map_err (λ e, new_error Unauthorized STAGE_TOKEN (prefixed "token parse failed" e))
              (token_from_cbor bytes);
  _ ← map_err (validation_error Unauthorized STAGE_TOKEN) (validate envelope);
  payload ← claims_bytes (tok_claims envelope);
  _ ← verify_hmac_signature_hex secret payload (tok_signature envelope) STAGE_TOKEN
        "token signature decode failed" "token signature mismatch";
  _ ← ensure (negb (tc_exp (tok_claims envelope) <=? now))
        (new_error Unauthorized STAGE_TOKEN "token expired");
  Ok (tok_claims envelope).

(** Two version 4 UUIDs, 32 bytes in all; [u1] and [u2] are their bytes. *)
Definition random_secret_hex (u1 u2 : list byte) : string := hex_encode (u1 ++ u2).

End tokens.

Definition map_ipc_error (stage message : string) : ImagodError :=
  new_error Internal ("ipc." +:+ stage)%string message.

(** ** Lemmas: outbound rules *)

Lemma normalize_trimmed raw :
  let v := trim raw in
  v ≠ "" → has_whitespace v = false →
  str_contains "*" v = false → str_contains "/" v = false → str_contains "\" v = false →
  starts_with "[" v = false → ends_with "]" v = false →
  normalize_wasi_http_outbound_host raw =
    match parse_ip v with
    | Some ip => Some (ip_to_string ip)
    | None => if str_contains ":" v then None else Some (to_ascii_lowercase v)
    end.
Proof.
  intros v Hne Hws H1 H2 H3 H4 H5. unfold normalize_wasi_http_outbound_host. fold v.
  by rewrite bool_decide_false, H1, H2, H3, Hws, H4, H5 by done.
Qed.
Lemma normalize_clean v :
  v ≠ "" → has_whitespace v = false →
  str_contains "*" v = false → str_contains "/" v = false → str_contains "\" v = false →
  starts_with "[" v = false → ends_with "]" v = false →
  normalize_wasi_http_outbound_host v =
    match parse_ip v with
    | Some ip => Some (ip_to_string ip)
    | None => if str_contains ":" v then None else Some (to_ascii_lowercase v)
    end.
Proof.
  intros Hne Hws H1 H2 H3 H4 H5. pose proof (normalize_trimmed v) as Hn. cbv zeta in Hn.
  rewrite trim_id in Hn by done. by apply Hn.
Qed.

Lemma ip_char_not f c s :
  all_chars is_ip_char s = true → is_ip_char c = false → f = String c "" →
  str_contains f s = false ∧ starts_with f s = false ∧ ends_with f s = false.
Proof.
  intros Hs Hc ->. assert (c ∉ bytes_of s) as Hn.
  { intros Hin. unfold all_chars in Hs. rewrite forallb_forall in Hs.
    apply list_elem_of_In in Hin. apply Hs in Hin. congruence. }
  rewrite <-!not_true_iff_false, str_contains_char, starts_with_char, ends_with_char.
  split_and!; [done| |].
  - intros Hh. apply Hn. destruct (bytes_of s); simplify_eq/=. left.
  - intros (l & E)%last_Some. apply Hn. rewrite E. apply elem_of_app. right. left.
Qed.

Lemma ip_chars_graphic s : all_chars is_ip_char s = true → all_chars is_ascii_graphic s = true.
Proof.
  unfold all_chars. rewrite !forallb_forall. intros Hs c Hc. specialize (Hs c Hc).
  revert Hs. by destruct c as [[] [] [] [] [] [] [] []].
Qed.

Lemma ip_chars_lower s : all_chars is_ip_char s = true → to_ascii_lowercase s = s.
Proof.
  unfold all_chars. induction s as [|c s IH]; [done|]. simpl. intros [Hc Hs]%andb_true_iff.
  rewrite IH by done. f_equal. revert Hc. by destruct c as [[] [] [] [] [] [] [] []].
Qed.

(** The text of an address is its own normal form. *)
Lemma normalize_ip ip :
  ip_ok ip → normalize_wasi_http_outbound_host (ip_to_string ip) = Some (ip_to_string ip).
Proof.
  intros Hok. pose proof (ip_to_string_chars ip Hok) as Hc.
  destruct (ip_char_not "*" "*"%char _ Hc eq_refl eq_refl) as (? & _ & _).
  destruct (ip_char_not "/" "/"%char _ Hc eq_refl eq_refl) as (? & _ & _).
  destruct (ip_char_not "\" "\"%char _ Hc eq_refl eq_refl) as (? & _ & _).
  destruct (ip_char_not "[" "["%char _ Hc eq_refl eq_refl) as (_ & ? & _).
  destruct (ip_char_not "]" "]"%char _ Hc eq_refl eq_refl) as (_ & _ & ?).
  rewrite normalize_clean; [by rewrite parse_ip_to_string|by apply ip_to_string_nonempty| |done..].
  by apply graphic_no_whitespace, ip_chars_graphic.
Qed.

(** What a normalized host is: the text of an address, or lower-case text without colon. *)
Lemma normalize_inv raw h :
  normalize_wasi_http_outbound_host raw = Some h →
  (∃ ip, ip_ok ip ∧ h = ip_to_string ip) ∨
  (∃ v, h = to_ascii_lowercase v ∧ v ≠ "" ∧ has_whitespace v = false ∧
    str_contains "*" v = false ∧ str_contains "/" v = false ∧ str_contains "\" v = false ∧
    starts_with "[" v = false ∧ ends_with "]" v = false ∧
    parse_ip v = None ∧ str_contains ":" v = false).
Proof.
  unfold normalize_wasi_http_outbound_host. generalize (trim raw). intros v.
  case_bool_decide as Hne; [done|].
  destruct (str_contains "*" v || _ || _ || _) eqn:Hbad; [done|].
  apply orb_false_iff in Hbad as [[[H1 H2]%orb_false_iff H3]%orb_false_iff Hws].
  destruct (starts_with "[" v || ends_with "]" v) eqn:Hbr; [done|].
  apply orb_false_iff in Hbr as [H4 H5].
  destruct (parse_ip v) as [ip|] eqn:Hip.
  - intros [= <-]. left. exists ip. split; [by eapply parse_ip_ok|done].
  - destruct (str_contains ":" v) eqn:Hcol; [done|]. intros [= <-]. right. exists v. done.
Qed.

Lemma to_lower_nonempty v : v ≠ "" → to_ascii_lowercase v ≠ "".
Proof. by destruct v. Qed.

Lemma ends_with_lower c v :
  is_letter c = false →
  ends_with (String c "") (to_ascii_lowercase v) = ends_with (String c "") v.
Proof.
  intros Hc. apply eq_bool_prop_intro. rewrite !Is_true_true, !ends_with_char, bytes_of_lower.
  rewrite fmap_last. change byte with ascii. generalize (@last ascii (bytes_of v)). intros [b|]; simpl.
  - pose proof (ascii_lower_letter b c Hc) as Hb. by split; intros [= E]; f_equal; apply Hb.
  - done.
Qed.

Lemma starts_with_lower c v :
  is_letter c = false →
  starts_with (String c "") (to_ascii_lowercase v) = starts_with (String c "") v.
Proof.
  intros Hc. unfold starts_with. rewrite strip_prefix_lower.
  - apply bool_decide_ext, fmap_is_Some.
  - unfold all_chars. simpl. by rewrite Hc.
Qed.

Lemma normalize_idemp raw h :
  normalize_wasi_http_outbound_host raw = Some h →
  normalize_wasi_http_outbound_host h = Some h ∧ to_ascii_lowercase h = h.
Proof.
  intros [(ip & Hok & ->)|(v & -> & Hne & Hws & H1 & H2 & H3 & H4 & H5 & Hip & Hcol)]%normalize_inv.
  { split; [by apply normalize_ip|]. by apply ip_chars_lower, ip_to_string_chars. }
  split; [|apply lower_idemp].
  rewrite normalize_clean;
    rewrite ?str_contains_lower, ?has_whitespace_lower, ?starts_with_lower, ?ends_with_lower by done;
    [|by apply to_lower_nonempty|done..].
  by rewrite parse_ip_lower, Hip, Hcol, lower_idemp.
Qed.

(** *** Networks *)

Definition ip_width (ip : IpAddr) : Z := max_prefix_of ip.
Definition ip_bits (ip : IpAddr) : Z := match ip with V4 b | V6 b => b end.

(** Two addresses of one family agree on their first [prefix_len] bits. *)
Definition in_network (ip net : IpAddr) (prefix_len : Z) : Prop :=
  ip_width ip = ip_width net ∧
  ip_bits ip / 2 ^ (ip_width net - prefix_len) = ip_bits net / 2 ^ (ip_width net - prefix_len).

Lemma land_cidr_mask width p bits :
  0 ≤ p ≤ width → 0 ≤ bits < 2 ^ width →
  Z.land bits (cidr_mask width p) = bits / 2 ^ (width - p) * 2 ^ (width - p).
Proof.
  intros Hp Hb. unfold cidr_mask. destruct (Z.eqb_spec p 0) as [->|Hp0].
  { rewrite Z.land_0_r, Z.sub_0_r, Z.div_small by done. done. }
  rewrite Z.max_l by lia. set (k := width - p).
  rewrite <-Z.shiftr_div_pow2, <-Z.shiftl_mul_pow2 by lia.
  apply Z.bits_inj'. intros n Hn. rewrite !Z.land_spec, !Z.shiftl_spec by done.
  destruct (Z.ltb_spec n k) as [Hlt|Hge].
  { rewrite !(Z.testbit_neg_r _ (n - k)) by lia. by rewrite andb_false_r. }
  rewrite Z.shiftr_spec by lia. replace (n - k + k) with n by lia.
  destruct (Z.ltb_spec n width) as [Hlt'|Hge'].
  - rewrite !Z.ones_spec_low by lia. by rewrite andb_true_r.
  - rewrite (Z.bits_above_log2 bits n); [done|lia|].
    destruct (decide (bits = 0)) as [->|]; [simpl; lia|]. apply Z.log2_lt_pow2; [lia|].
    pose proof (Z.pow_le_mono_r 2 width n). lia.
Qed.

Lemma land_mask_eq width p a b :
  0 ≤ p ≤ width → 0 ≤ a < 2 ^ width → 0 ≤ b < 2 ^ width →
  Z.land a (cidr_mask width p) = Z.land b (cidr_mask width p) ↔
  a / 2 ^ (width - p) = b / 2 ^ (width - p).
Proof.
  intros Hp Ha Hb. rewrite !land_cidr_mask by done.
  pose proof (Z.pow_pos_nonneg 2 (width - p)). split; [|by intros ->]. intros E.
  apply Z.mul_reg_r in E; [done|lia].
Qed.

Lemma ip_ok_width ip : ip_ok ip ↔ 0 ≤ ip_bits ip < 2 ^ ip_width ip.
Proof. by destruct ip. Qed.

Lemma ip_in_cidr_iff ip net p :
  ip_ok ip → ip_ok net → 0 ≤ p ≤ max_prefix_of net →
  ip_in_cidr ip net p = true ↔ in_network ip net p.
Proof.
  intros Hi Hn Hp. unfold in_network, ip_width.
  destruct ip as [a|a], net as [b|b]; simpl in *; [|naive_solver lia..|];
    rewrite Z.eqb_eq, land_mask_eq by done; naive_solver.
Qed.

Lemma cidr_network_ip_facts ip p :
  ip_ok ip → 0 ≤ p ≤ max_prefix_of ip →
  ip_ok (cidr_network_ip ip p) ∧ max_prefix_of (cidr_network_ip ip p) = max_prefix_of ip ∧
  cidr_network_ip (cidr_network_ip ip p) p = cidr_network_ip ip p ∧
  ip_bits (cidr_network_ip ip p) / 2 ^ (max_prefix_of ip - p) =
    ip_bits ip / 2 ^ (max_prefix_of ip - p).
Proof.
  assert (∀ w b, 0 ≤ p ≤ w → 0 ≤ b < 2 ^ w →
    let m := Z.land b (cidr_mask w p) in
    0 ≤ m < 2 ^ w ∧ m / 2 ^ (w - p) = b / 2 ^ (w - p) ∧ Z.land m (cidr_mask w p) = m) as Hw.
  { intros w b Hp Hb. cbv zeta. rewrite land_cidr_mask by done.
    pose proof (Z.pow_pos_nonneg 2 (w - p)). pose proof (Z.div_mod b (2 ^ (w - p))).
    pose proof (Z.mod_pos_bound b (2 ^ (w - p))). pose proof (Z.div_pos b (2 ^ (w - p))).
    assert (0 ≤ b / 2 ^ (w - p) * 2 ^ (w - p) < 2 ^ w) by nia.
    split; [done|]. rewrite land_cidr_mask, Z.div_mul by lia. done. }
  intros Hok Hp. destruct ip as [b|b]; simpl in *;
    [destruct (Hw 32 b) as (? & ? & ->)|destruct (Hw 128 b) as (? & ? & ->)]; done.
Qed.

(** *** What the text of a rule says

    A grammar of the texts themselves, each with the requests it stands for. *)

(** A host written as a name or as an IPv4 address. *)
Record host_text (text : string) : Prop := {
  ht_nonempty : text ≠ "";
  ht_blank : has_whitespace text = false;
  ht_star : str_contains "*" text = false;
  ht_slash : str_contains "/" text = false;
  ht_backslash : str_contains "\" text = false;
  ht_colon : str_contains ":" text = false;
  ht_opening : starts_with "[" text = false;
  ht_closing : ends_with "]" text = false;
}.

(** The requested host is an address, however it is spelled. *)
Definition at_address (ip : IpAddr) (host : string) : Prop := parse_ip (trim host) = Some ip.
(** It is the address or the name that [text] is; names do not distinguish case. *)
Definition same_host (text host : string) : Prop :=
  match parse_ip text with
  | Some ip => at_address ip host
  | None => to_ascii_lowercase (trim host) = to_ascii_lowercase text
  end.

(** [digits] is the decimal numeral of a port. *)
Definition port_text (digits : string) (port : Z) : Prop := parse_uint 65535 digits = Ok port ∧ port ≠ 0.

Inductive written : string → (string → Z → Prop) → Prop :=
  | written_host text :
      host_text text → written text (λ host _, same_host text host)
  | written_v6 text ip :
      parse_ip text = Some ip → str_contains ":" text = true →
      written text (λ host _, at_address ip host)
  | written_host_port text digits p :
      host_text text → all_chars is_ascii_digit digits = true → port_text digits p →
      written (text +:+ ":" +:+ digits) (λ host port, same_host text host ∧ port = p)
  | written_bracketed text bits :
      parse_ipv6 text = Some bits →
      written ("[" +:+ text +:+ "]") (λ host _, at_address (V6 bits) host)
  | written_bracketed_port text bits digits p :
      parse_ipv6 text = Some bits → str_contains "/" digits = false → port_text digits p →
      written ("[" +:+ text +:+ "]:" +:+ digits) (λ host port, at_address (V6 bits) host ∧ port = p)
  | written_cidr ip_text digits net p :
      parse_ip ip_text = Some net → parse_uint 255 digits = Ok p → p ≤ ip_width net →
      str_contains "/" digits = false →
      written (ip_text +:+ "/" +:+ digits)
        (λ host _, ∃ ip, parse_ip host = Some ip ∧ in_network ip net p).

(** The rule written as [raw] allows the requests [allows]. *)
Definition rule_written (raw : string) (allows : string → Z → Prop) : Prop :=
  has_whitespace (trim raw) = false ∧ str_contains "*" (trim raw) = false ∧ written (trim raw) allows.

(** [rule] passes the validation of the runner and matches the requests [allows]. *)
Definition enforces (rule : WasiHttpOutboundRule) (allows : string → Z → Prop) : Prop :=
  validate rule = Ok tt ∧
  ∀ host port, matches_authority rule host port = true ↔ allows host port.

(** **** Hosts *)

(** The text of an address has none of the characters a host may not have. *)
Lemma address_clean text c :
  all_chars is_ip_char (to_ascii_lowercase text) = true → is_ip_char c = false → is_letter c = false →
  c ∉ bytes_of text.
Proof.
  intros Hs Hc Hl. destruct (ip_char_not (String c "") c _ Hs Hc eq_refl) as (H & _ & _).
  rewrite str_contains_lower in H; [by apply not_contains|]. unfold all_chars. simpl. by rewrite Hl.
Qed.
Lemma address_host raw ip :
  parse_ip (trim raw) = Some ip → normalize_wasi_http_outbound_host raw = Some (ip_to_string ip).
Proof.
  set (text := trim raw). intros Hip. pose proof (parse_ip_chars _ _ Hip) as Hc.
  assert (∀ c, is_ip_char c = false → is_letter c = false → str_contains (String c "") text = false ∧
    starts_with (String c "") text = false ∧ ends_with (String c "") text = false) as Hno.
  { intros c H1 H2. destruct (ip_char_not (String c "") c _ Hc H1 eq_refl) as (E1 & E2 & E3).
    by rewrite str_contains_lower, starts_with_lower, ends_with_lower in *
      by (done || (unfold all_chars; simpl; by rewrite H2)). }
  rewrite normalize_trimmed; fold text; [by rewrite Hip|by intros E; rewrite E in Hip| |by apply Hno..].
  rewrite <-has_whitespace_lower. by apply graphic_no_whitespace, ip_chars_graphic.
Qed.

Lemma normalize_inv_trim raw h :
  normalize_wasi_http_outbound_host raw = Some h →
  (∃ ip, parse_ip (trim raw) = Some ip ∧ h = ip_to_string ip) ∨
  (parse_ip (trim raw) = None ∧ h = to_ascii_lowercase (trim raw)).
Proof.
  unfold normalize_wasi_http_outbound_host. repeat (case_match; try done); intros [= <-]; eauto.
Qed.

Lemma normalize_at_address ip host :
  ip_ok ip → normalize_wasi_http_outbound_host host = Some (ip_to_string ip) ↔ at_address ip host.
Proof.
  intros Hok. unfold at_address. split.
  - intros [(ip' & Hip & E)|[Hn E]]%normalize_inv_trim.
    + apply (f_equal parse_ip) in E. pose proof (parse_ip_ok _ _ Hip).
      rewrite !parse_ip_to_string in E by done. congruence.
    + rewrite <-parse_ip_lower, <-E, parse_ip_to_string in Hn by done. done.
  - apply address_host.
Qed.

Lemma normalize_same_host text h host :
  host_text text → normalize_wasi_http_outbound_host text = Some h →
  normalize_wasi_http_outbound_host host = Some h ↔ same_host text host.
Proof.
  intros [Hne Hw H1 H2 H3 Hcol H4 H5] Hh. rewrite normalize_clean in Hh by done.
  unfold same_host. destruct (parse_ip text) as [ip|] eqn:Hip.
  { injection Hh as <-. by eapply normalize_at_address, parse_ip_ok. }
  rewrite Hcol in Hh. injection Hh as <-. split.
  - intros [(ip & Hip' & E)|[_ E]]%normalize_inv_trim; [|done].
    apply (f_equal parse_ip) in E. rewrite parse_ip_lower, Hip, parse_ip_to_string in E; [done|].
    by eapply parse_ip_ok.
  - intros E. rewrite normalize_trimmed, <-(parse_ip_lower (trim host)), E, parse_ip_lower, Hip.
    1: rewrite <-(str_contains_lower ":" (trim host)), E, str_contains_lower, Hcol by done; done.
    2: by rewrite <-has_whitespace_lower, E, has_whitespace_lower.
    2-4: by rewrite <-str_contains_lower, E, str_contains_lower.
    2: by rewrite <-starts_with_lower, E, starts_with_lower.
    2: by rewrite <-ends_with_lower, E, ends_with_lower.
    intros Hn. rewrite Hn in E. by destruct text.
Qed.

Lemma host_matches_iff h host :
  to_ascii_lowercase h = h →
  match normalize_wasi_http_outbound_host host with
  | Some v => eq_ignore_ascii_case v h
  | None => false
  end = true ↔ normalize_wasi_http_outbound_host host = Some h.
Proof.
  intros Hl. destruct (normalize_wasi_http_outbound_host host) as [v|] eqn:E; [|done].
  apply normalize_idemp in E as [_ Hv]. unfold eq_ignore_ascii_case.
  rewrite bool_decide_eq_true, Hv, Hl. naive_solver.
Qed.

(** **** Rules *)

Lemma validate_normal_host text h :
  normalize_wasi_http_outbound_host text = Some h → validate_rule_host h = Ok tt.
Proof.
  intros [Hn _]%normalize_idemp. unfold validate_rule_host. rewrite Hn. simpl.
  by rewrite bool_decide_true.
Qed.

Lemma enforces_host text h (allowed : string → Prop) :
  normalize_wasi_http_outbound_host text = Some h →
  (∀ host, normalize_wasi_http_outbound_host host = Some h ↔ allowed host) →
  enforces (Host h) (λ host _, allowed host).
Proof.
  intros Hn Ha. split; [by eapply validate_normal_host|]. intros host port. rewrite <-Ha.
  by apply host_matches_iff, (normalize_idemp text).
Qed.

Lemma enforces_host_port text h p (allowed : string → Prop) :
  normalize_wasi_http_outbound_host text = Some h → p ≠ 0 →
  (∀ host, normalize_wasi_http_outbound_host host = Some h ↔ allowed host) →
  enforces (HostPort h p) (λ host port, allowed host ∧ port = p).
Proof.
  intros Hn Hp Ha. split.
  - unfold validate, WasiHttpOutboundRule_validate. rewrite (validate_normal_host text h Hn). simpl.
    by destruct (Z.eqb_spec p 0).
  - intros host port. rewrite <-Ha. simpl. destruct (Z.eqb_spec p port) as [->|Hne]; simpl.
    + rewrite host_matches_iff by by apply (normalize_idemp text). naive_solver.
    + naive_solver.
Qed.

Lemma enforces_cidr net p :
  ip_ok net → 0 ≤ p ≤ max_prefix_of net →
  enforces (Cidr (cidr_network_ip net p) p)
    (λ host _, ∃ ip, parse_ip host = Some ip ∧ in_network ip net p).
Proof.
  intros Hok Hp. destruct (cidr_network_ip_facts net p Hok Hp) as (Hok' & Hmax & Hid & Hdiv). split.
  - unfold validate, WasiHttpOutboundRule_validate. rewrite Hmax.
    destruct (Z.leb_spec p (max_prefix_of net)); [|lia]. simpl. by rewrite bool_decide_true.
  - intros host port. simpl. destruct (parse_ip host) as [ip|] eqn:Hh; [|naive_solver].
    assert (ip_ok ip) by by eapply parse_ip_ok.
    rewrite ip_in_cidr_iff by (done || lia). unfold in_network, ip_width.
    rewrite Hmax, Hdiv. naive_solver.
Qed.

Lemma parse_port_Ok digits p :
  parse_wasi_http_outbound_port digits = Ok p ↔ port_text digits p.
Proof.
  unfold parse_wasi_http_outbound_port, port_text.
  destruct (parse_uint 65535 digits) as [n|]; simpl; [|naive_solver].
  destruct (Z.eqb_spec n 0); naive_solver.
Qed.

Lemma host_text_Some text :
  host_text text → ∃ h, normalize_wasi_http_outbound_host text = Some h.
Proof.
  intros [Hne Hw H1 H2 H3 Hcol H4 H5]. rewrite normalize_clean by done.
  destruct (parse_ip text); [by eauto|]. rewrite Hcol. eauto.
Qed.

Lemma host_text_of text h :
  has_whitespace text = false → str_contains ":" text = false →
  normalize_wasi_http_outbound_host text = Some h → host_text text.
Proof.
  intros Hw Hc. unfold normalize_wasi_http_outbound_host. rewrite trim_id by done.
  case_bool_decide; [done|].
  destruct (str_contains "*" text || _ || _ || _) eqn:Hbad; [done|].
  apply orb_false_iff in Hbad as [[[? ?]%orb_false_iff ?]%orb_false_iff _].
  destruct (starts_with "[" text || ends_with "]" text) eqn:Hbr; [done|].
  apply orb_false_iff in Hbr as [? ?]. intros _. by split.
Qed.

(** The text after the checks of [WasiHttpOutboundRule::parse]. *)
Definition parse_checked (value : string) : result string WasiHttpOutboundRule :=
  if str_contains "/" value then parse_wasi_http_outbound_cidr value
  else parse_wasi_http_outbound_host_or_port value.

Lemma parse_rule_Ok raw rule :
  parse_rule raw = Ok rule ↔
  trim raw ≠ "" ∧ has_whitespace (trim raw) = false ∧ str_contains "*" (trim raw) = false ∧
  parse_checked (trim raw) = Ok rule.
Proof.
  unfold parse_rule, parse_checked. case_bool_decide; [naive_solver|].
  destruct (str_contains "*" (trim raw)); [naive_solver|].
  destruct (has_whitespace (trim raw)); naive_solver.
Qed.

Lemma no_char_app c s t :
  str_contains (String c "") s = false → str_contains (String c "") t = false →
  str_contains (String c "") (s +:+ t) = false.
Proof. rewrite !not_contains, bytes_of_app. intros ? ?. by apply not_elem_of_app. Qed.
Lemma digits_without c digits :
  is_ascii_digit c = false → all_chars is_ascii_digit digits = true →
  str_contains (String c "") digits = false.
Proof. intros Hc Hd. apply not_contains. by eapply all_chars_without. Qed.
Lemma starts_with_head c s t :
  s ≠ "" → starts_with (String c "") s = false → strip_prefix (String c "") (s +:+ t) = None.
Proof.
  intros Hne Hs. apply starts_with_none, not_true_iff_false. rewrite starts_with_char.
  apply not_true_iff_false in Hs. rewrite starts_with_char in Hs. by destruct s.
Qed.

Lemma parse_written_host text h :
  host_text text → normalize_wasi_http_outbound_host text = Some h → parse_checked text = Ok (Host h).
Proof.
  intros [Hne Hw H1 H2 H3 Hcol%not_contains H4 H5] Hh. unfold parse_checked. rewrite H2.
  unfold parse_wasi_http_outbound_host_or_port. rewrite starts_with_none by done.
  rewrite count_char_none, rsplit_once_none by done. simpl. by rewrite Hh.
Qed.

Lemma parse_written_v6 text ip :
  parse_ip text = Some ip → str_contains ":" text = true →
  parse_checked text = Ok (Host (ip_to_string ip)).
Proof.
  intros Hip Hc%str_contains_char. pose proof (parse_ip_chars _ _ Hip) as Ht.
  pose proof (parse_ip_colons _ _ Hip Hc). unfold parse_checked.
  rewrite (proj2 (not_contains "/" text)) by by apply address_clean.
  unfold parse_wasi_http_outbound_host_or_port. rewrite starts_with_none, bool_decide_true, Hip; [done..|].
  apply not_true_iff_false. rewrite starts_with_char. intros E.
  apply (address_clean text "["%char Ht); [done..|]. destruct (bytes_of text); simplify_eq/=. left.
Qed.

Lemma parse_written_host_port text digits h p :
  host_text text → normalize_wasi_http_outbound_host text = Some h →
  all_chars is_ascii_digit digits = true → port_text digits p →
  parse_checked (text +:+ ":" +:+ digits) = Ok (HostPort h p).
Proof.
  intros [Hne Hw H1 H2 H3 Hcol H4 H5] Hh Hd Hp%parse_port_Ok. unfold parse_checked.
  assert (":"%char ∉ bytes_of digits) by by apply not_contains, digits_without.
  rewrite no_char_app; [|done|by apply no_char_app, digits_without].
  unfold parse_wasi_http_outbound_host_or_port. rewrite starts_with_head by done.
  change (":" +:+ digits) with (String ":" digits).
  rewrite rsplit_once_last, Hd, Hh by done. cbn [ok_or mbind result_bind]. rewrite Hp.
  rewrite count_char_app, (count_char_none _ text) by by apply not_contains.
  change (String ":" digits) with (":" +:+ digits).
  by rewrite count_char_app, (count_char_none _ digits) by done.
Qed.

Lemma parse_written_bracketed text bits rest :
  parse_ipv6 text = Some bits → str_contains "/" rest = false →
  parse_checked ("[" +:+ text +:+ "]" +:+ rest) =
    if bool_decide (rest = "") then Ok (Host (ip_to_string (V6 bits)))
    else
      port_text ← ok_or (strip_prefix ":" rest)
                   ("invalid bracketed host: " +:+ "[" +:+ text +:+ "]" +:+ rest);
      port ← parse_wasi_http_outbound_port port_text;
      Ok (HostPort (ip_to_string (V6 bits)) port).
Proof.
  intros Hb Hr. pose proof (parse_ipv6_chars _ _ Hb) as Ht. unfold parse_checked.
  assert (str_contains "/" text = false) by by apply not_contains, address_clean.
  rewrite !no_char_app by by repeat apply no_char_app.
  unfold parse_wasi_http_outbound_host_or_port.
  assert (strip_prefix "[" ("[" +:+ text +:+ "]" +:+ rest) = Some (text +:+ "]" +:+ rest)) as ->
    by by apply strip_prefix_app.
  unfold parse_bracketed. change ("]" +:+ rest) with (String "]" rest).
  rewrite split_once_first by by apply address_clean. cbn [ok_or mbind result_bind]. by rewrite Hb.
Qed.

Lemma parse_written_cidr ip_text digits net p :
  parse_ip ip_text = Some net → parse_uint 255 digits = Ok p → p ≤ ip_width net →
  str_contains "/" digits = false →
  parse_checked (ip_text +:+ "/" +:+ digits) = Ok (Cidr (cidr_network_ip net p) p).
Proof.
  intros Hip Hp Hle Hs. pose proof (parse_ip_chars _ _ Hip) as Ht. unfold parse_checked.
  rewrite str_contains_app. unfold parse_wasi_http_outbound_cidr.
  change ("/" +:+ digits) with (String "/" digits).
  rewrite split_once_first by by apply address_clean. cbn [ok_or mbind result_bind].
  rewrite !bool_decide_false, Hs by by intros ->. cbn [orb negb ensure mbind result_bind].
  rewrite Hip, Hp. cbn [ok_or map_err mbind result_bind]. by rewrite (proj2 (Z.leb_le _ _)).
Qed.

(** Every text of the grammar parses, to a rule that enforces it. *)
Lemma written_parses value allows :
  written value allows → ∃ rule, parse_checked value = Ok rule ∧ enforces rule allows.
Proof.
  destruct 1 as [text Ht|text ip Hip Hc|text digits p Ht Hd Hp|text bits Hb|text bits digits p Hb Hs Hp
    |ip_text digits net p Hip Hp Hle Hs].
  - destruct (host_text_Some text Ht) as [h Hh]. exists (Host h). split; [by apply parse_written_host|].
    eapply enforces_host; [done|]. intros host. by apply normalize_same_host.
  - exists (Host (ip_to_string ip)). split; [by apply parse_written_v6|].
    pose proof (parse_ip_ok _ _ Hip). eapply enforces_host; [by apply normalize_ip|].
    intros host. by apply normalize_at_address.
  - destruct (host_text_Some text Ht) as [h Hh]. exists (HostPort h p).
    split; [by apply parse_written_host_port|]. eapply enforces_host_port; [done|apply Hp|].
    intros host. by apply normalize_same_host.
  - exists (Host (ip_to_string (V6 bits))). pose proof (parse_ipv6_ok _ _ Hb). split.
    + by apply (parse_written_bracketed text bits "").
    + eapply enforces_host; [by apply normalize_ip|]. intros host. by apply normalize_at_address.
  - exists (HostPort (ip_to_string (V6 bits)) p). pose proof (parse_ipv6_ok _ _ Hb). split.
    + change ("]:" +:+ digits) with ("]" +:+ ":" +:+ digits).
      rewrite (parse_written_bracketed text bits (":" +:+ digits)) by (done || by apply no_char_app).
      rewrite bool_decide_false by done.
      assert (strip_prefix ":" (":" +:+ digits) = Some digits) as -> by by apply strip_prefix_app.
      cbn [ok_or mbind result_bind]. by rewrite (proj2 (parse_port_Ok digits p) Hp).
    + eapply enforces_host_port; [by apply normalize_ip|apply Hp|]. intros host. by apply normalize_at_address.
  - exists (Cidr (cidr_network_ip net p) p). split; [by apply parse_written_cidr|].
    apply enforces_cidr; [by eapply parse_ip_ok|]. apply parse_uint_bound in Hp; [|lia].
    unfold ip_width in Hle. lia.
Qed.

Lemma cidr_written value rule :
  parse_wasi_http_outbound_cidr value = Ok rule → ∃ allows, written value allows.
Proof.
  unfold parse_wasi_http_outbound_cidr.
  destruct (split_once "/" value) as [[ip_text digits]|] eqn:Es; [|done].
  apply split_once_spec in Es as [-> _]. cbn [ok_or mbind result_bind]. intros E.
  apply bind_Ok in E as ([] & Hn%ensure_Ok & E).
  apply bind_Ok in E as (net & Hip%ok_or_Ok & E). apply bind_Ok in E as (p & Hp%map_err_Ok & E).
  apply bind_Ok in E as ([] & Hle%ensure_Ok%Z.leb_le & _).
  apply negb_true_iff in Hn as [_ Hs]%orb_false_iff. eexists. by eapply written_cidr.
Qed.

Lemma bracketed_written value rest rule :
  value = "[" +:+ rest → str_contains "/" value = false →
  parse_bracketed value rest = Ok rule → ∃ allows, written value allows.
Proof.
  intros Hv Hs. unfold parse_bracketed.
  destruct (split_once "]" rest) as [[text tail]|] eqn:Es; [|done].
  apply split_once_spec in Es as [-> _]. cbn [ok_or mbind result_bind].
  destruct (parse_ipv6 text) as [bits|] eqn:Hb; [|done]. cbn [ok_or mbind result_bind].
  case_bool_decide as Hr; [intros _; subst; eexists; by eapply written_bracketed|].
  intros (digits & Hd%ok_or_Ok%strip_prefix_app & E)%bind_Ok.
  apply bind_Ok in E as (p & Hp%parse_port_Ok & _). rewrite Hv, Hd. eexists.
  eapply written_bracketed_port; [done| |done]. rewrite Hv, Hd in Hs.
  apply not_contains in Hs. apply not_contains. intros Hin. apply Hs.
  rewrite bytes_of_app, bytes_of_app. apply elem_of_app. right. apply elem_of_app. right.
  by do 2 right.
Qed.

Lemma normalize_inv_colon raw h :
  normalize_wasi_http_outbound_host raw = Some h → str_contains ":" (trim raw) = true →
  ∃ ip, parse_ip (trim raw) = Some ip.
Proof.
  unfold normalize_wasi_http_outbound_host. intros E Hc. rewrite Hc in E.
  destruct (parse_ip (trim raw)); [by eauto|]. by repeat (case_match; try done).
Qed.
Lemma no_whitespace_prefix s t : has_whitespace (s +:+ t) = false → has_whitespace s = false.
Proof.
  rewrite <-!not_true_iff_false. unfold has_whitespace. intros Hn (w & Hw & Hc)%existsb_exists. apply Hn.
  apply existsb_exists. exists w. split; [done|]. clear -Hc.
  induction s as [|c s IH]; [by destruct w, t|]. cbn [str_contains] in Hc.
  change (String c s +:+ t) with (String c (s +:+ t)). cbn [str_contains].
  apply orb_true_iff in Hc as [Hc|Hc]; apply orb_true_iff; [left|right; by apply IH].
  unfold starts_with in *. rewrite bool_decide_eq_true in *. destruct Hc as [r Hr%strip_prefix_app].
  exists (r +:+ t). apply strip_prefix_app.
  change (String c (s +:+ t)) with (String c s +:+ t). by rewrite Hr, string_app_assoc.
Qed.
Lemma one_colon a b :
  ¬ (1 < count_char ":"%char (a +:+ String ":"%char b))%nat → str_contains ":" a = false.
Proof.
  intros Hc. apply not_contains. intros (l & k & Hl)%list_elem_of_split. apply Hc.
  unfold count_char. rewrite bytes_of_app. simpl. rewrite Hl, !filter_app, !length_app.
  rewrite !filter_cons_True by done. simpl. lia.
Qed.

Lemma host_or_port_written value rule :
  has_whitespace value = false → str_contains "/" value = false →
  parse_wasi_http_outbound_host_or_port value = Ok rule → ∃ allows, written value allows.
Proof.
  intros Hw Hs. unfold parse_wasi_http_outbound_host_or_port.
  destruct (strip_prefix "[" value) as [rest|] eqn:Hr.
  { apply strip_prefix_app in Hr. by apply bracketed_written. }
  case_bool_decide as Hc.
  { intros (ip & Hip%ok_or_Ok & _)%bind_Ok. eexists. eapply written_v6; [done|].
    apply not_false_iff_true. intros Hn%not_contains%count_char_none. lia. }
  assert (∀ e : string, (host ← ok_or (normalize_wasi_http_outbound_host value) e; Ok (Host host)) = Ok rule →
    ∃ allows, written value allows) as Hwhole.
  { intros e (h & Hh%ok_or_Ok & _)%bind_Ok. eexists. eapply written_host, host_text_of; [done| |done].
    apply not_true_iff_false. intros Hcol. apply normalize_inv_colon in Hh as [ip Hip]; [|by rewrite trim_id].
    rewrite trim_id in Hip by done. apply Hc. eapply parse_ip_colons; [done|by apply str_contains_char]. }
  destruct (rsplit_once ":" value) as [[text digits]|] eqn:Es; [|apply Hwhole].
  destruct (all_chars is_ascii_digit digits) eqn:Hd; [|apply Hwhole].
  intros (h & Hh%ok_or_Ok & E)%bind_Ok. apply bind_Ok in E as (p & Hp%parse_port_Ok & _).
  apply rsplit_once_some in Es as ->. eexists. apply (written_host_port text digits p); [|done|done].
  eapply host_text_of; [|by eapply one_colon|done]. by eapply no_whitespace_prefix.
Qed.

Lemma parsed_written raw rule : parse_rule raw = Ok rule → ∃ allows, rule_written raw allows.
Proof.
  intros (Hne & Hw & Hs & E)%parse_rule_Ok. unfold parse_checked in E.
  assert (∃ allows, written (trim raw) allows) as [allows Ha]; [|by exists allows].
  destruct (str_contains "/" (trim raw)) eqn:Hsl; [by eapply cidr_written|by eapply host_or_port_written].
Qed.

Lemma rule_written_parses raw allows :
  rule_written raw allows → ∃ rule, parse_rule raw = Ok rule ∧ enforces rule allows.
Proof.
  intros (Hw & Hs & Ha). destruct (written_parses _ _ Ha) as (rule & E & He). exists rule.
  split; [|done]. apply parse_rule_Ok. split_and!; [|done..]. intros Hn. by rewrite Hn in E.
Qed.

Lemma parse_rule_valid raw rule : parse_rule raw = Ok rule → validate rule = Ok tt.
Proof.
  intros E. destruct (parsed_written _ _ E) as [allows (rule' & E' & He & _)%rule_written_parses].
  congruence.
Qed.

(** C19 (equivalence). An outbound rule is read as it is written.  The parser accepts exactly
    the texts of the grammar: a host, a host and a port, an IPv6 address in brackets or without,
    a bracketed address and a port, a network.  A rule it answers is one a runner's bootstrap
    validation accepts, and at run time it authorizes exactly the requests the text stands for:
    the host that was written, however it is spelled and on every port; that host on the port
    that was written only; or the addresses of the family of the written one that agree with it
    on as many leading bits as were written. *)
Theorem outbound_rules_exact raw :
  match parse_rule raw with
  | Ok rule => (∃ allows, rule_written raw allows) ∧ validate rule = Ok tt ∧
      ∀ allows, rule_written raw allows →
      ∀ host port, matches_authority rule host port = true ↔ allows host port
  | Err _ => ∀ allows, ¬ rule_written raw allows
  end.
Proof.
  destruct (parse_rule raw) as [rule|e] eqn:E.
  - split_and!; [by eapply parsed_written|by eapply parse_rule_valid|].
    intros allows (rule' & E' & _ & Hm)%rule_written_parses. rewrite E in E'. by injection E' as <-.
  - intros allows (rule & E' & _)%rule_written_parses. congruence.
Qed.

Lemma outbound_rules_exact_witness :
  let raw := " Example.COM:8443 " in
  ∃ rule allows, parse_rule raw = Ok rule ∧ rule_written raw allows ∧
    matches_authority rule "EXAMPLE.com" 8443 = true ∧ allows "EXAMPLE.com" 8443 ∧
    ¬ allows "example.com" 80.
Proof.
  cbv zeta. pose proof (outbound_rules_exact " Example.COM:8443 ") as Hr.
  assert (parse_rule " Example.COM:8443 " = Ok (HostPort "example.com" 8443)) as E
    by (vm_compute; reflexivity).
  rewrite E in Hr. destruct Hr as ([allows Ha] & _ & Hm). specialize (Hm allows Ha).
  exists (HostPort "example.com" 8443), allows. rewrite <-(Hm "EXAMPLE.com" 8443), <-(Hm "example.com" 80).
  split_and!; [exact E|exact Ha|vm_compute; reflexivity|vm_compute; reflexivity|vm_compute; discriminate].
Defined.

(** ** Lemmas: tokens *)

Section token_lemmas.
Context `{TokenCratesLaws}.

(** What a verified token is. *)
Definition authentic (now : Z) (secret token : string) (claims : InvocationTokenClaims) : Prop :=
  ∃ key bytes sig payload tag,
    hex_decode secret = Ok key ∧ b64_decode token = Ok bytes ∧
    token_from_cbor bytes = Ok {| tok_claims := claims; tok_signature := sig |} ∧
    validate claims = Ok tt ∧ claims_to_cbor claims = Ok payload ∧
    hmac key payload = Ok tag ∧ hex_decode sig = Ok tag ∧ now < tc_exp claims.

Lemma verify_authentic now secret token claims :
  verify_invocation_token now secret token = Ok claims → authentic now secret token claims.
Proof.
  unfold verify_invocation_token, decode_secret_hex, claims_bytes, verify_hmac_signature_hex.
  intros E. inv_ok.
  match goal with Hv : validate ?t = Ok _ |- _ => destruct t as [c sig]; simpl in *;
    unfold validate, SignedInvocationToken_validate in Hv; simpl in Hv end.
  inv_ok. repeat match goal with u : unit |- _ => destruct u end.
  match goal with Hb : bool_decide (_ = _) = true |- _ => apply bool_decide_eq_true in Hb; subst end.
  match goal with Hl : negb (_ <=? _) = true |- _ =>
    apply negb_true_iff, Z.leb_gt in Hl end.
  by eexists _, _, sig, _, _.
Qed.

(** What an issued token is. *)
Lemma issue_inv secret claims token :
  issue_invocation_token secret claims = Ok token →
  ∃ key payload tag bytes,
    validate claims = Ok tt ∧ hex_decode secret = Ok key ∧ claims_to_cbor claims = Ok payload ∧
    hmac key payload = Ok tag ∧ token = b64_encode bytes ∧
    token_to_cbor {| tok_claims := claims; tok_signature := hex_encode tag |} = Ok bytes.
Proof.
  unfold issue_invocation_token, decode_secret_hex, compute_token_signature, claims_bytes,
    compute_hmac_signature.
  intros E. inv_ok. repeat match goal with u : unit |- _ => destruct u end.
  by eexists _, _, _, _.
Qed.

Lemma issue_verify secret claims token now :
  issue_invocation_token secret claims = Ok token →
  zlen (bytes_of token) ≤ MAX_INVOCATION_TOKEN_CHARS → now < tc_exp claims →
  verify_invocation_token now secret token = Ok claims.
Proof.
  intros (key & payload & tag & bytes & Hv & Hk & Hp & Ht & -> & Hb)%issue_inv Hlen Hnow.
  unfold verify_invocation_token, decode_secret_hex, claims_bytes, verify_hmac_signature_hex.
  apply Z.leb_le in Hlen. rewrite Hlen, Hk. simpl. rewrite b64_roundtrip. simpl.
  rewrite (token_cbor_roundtrip _ _ Hb). simpl.
  unfold validate, SignedInvocationToken_validate. simpl. rewrite Hv. simpl.
  unfold validate_non_empty. rewrite hex_not_blank by (by eapply hmac_tag_nonempty). simpl.
  rewrite Hp. simpl. rewrite hex_roundtrip. simpl. rewrite Ht. simpl. rewrite bool_decide_true by done. simpl.
  by destruct (Z.leb_spec (tc_exp claims) now); [lia|].
Qed.

(** A token the manager issues verifies under the same secret until it
    expires and yields the claims it was issued for.  Under any secret whatsoever it yields
    no other claims, never after its expiration, and only if the two secrets give the
    claims the same signature. *)
Theorem invocation_tokens secret claims token :
  issue_invocation_token secret claims = Ok token →
  (∀ now, zlen (bytes_of token) ≤ MAX_INVOCATION_TOKEN_CHARS → now < tc_exp claims →
     verify_invocation_token now secret token = Ok claims) ∧
  (∀ now other c, verify_invocation_token now other token = Ok c →
     c = claims ∧ now < tc_exp claims ∧
     ∃ key key' payload, hex_decode secret = Ok key ∧ hex_decode other = Ok key' ∧
       claims_to_cbor claims = Ok payload ∧ hmac key' payload = hmac key payload).
Proof.
  intros Hi. split; [intros now; by apply issue_verify|].
  apply issue_inv in Hi as (key & payload & tag & bytes & Hv & Hk & Hp & Ht & -> & Hb).
  intros now other c (key' & bytes' & sig & payload' & tag' & Hk' & Hb' & Hc & _ & Hp' & Ht' & Hs & Hn)
    %verify_authentic.
  rewrite b64_roundtrip in Hb'. injection Hb' as <-.
  rewrite (token_cbor_roundtrip _ _ Hb) in Hc. injection Hc as <- <-.
  rewrite hex_roundtrip in Hs. injection Hs as <-. rewrite Hp in Hp'. injection Hp' as <-.
  split_and!; [done|done|]. exists key, key', payload. by rewrite Ht, Ht'.
Qed.

End token_lemmas.

(** *** A concrete instance

    Codecs that keep the bytes behind a marker, a table with one token, and a keyed hash
    that keeps key and payload. *)

Definition demo_mark (bs : list byte) : string := String "x" (string_of_bytes bs).
Definition demo_unmark (s : string) : result string (list byte) :=
  match s with String "x" r => Ok (bytes_of r) | _ => Err "bad encoding" end.
Definition demo_hmac (key payload : list byte) : list byte := "#"%char :: key ++ payload.

Definition demo_crates (claims : InvocationTokenClaims) (secret : string) : TokenCrates :=
  let cbor := bytes_of "claims" in
  let token := {| tok_claims := claims;
                  tok_signature := demo_mark (demo_hmac (bytes_of secret) cbor) |} in
  {| hex_encode := demo_mark; hex_decode := demo_unmark;
     b64_encode := demo_mark; b64_decode := demo_unmark;
     claims_to_cbor := λ c, if decide (c = claims) then Ok cbor else Err "unknown claims";
     token_to_cbor := λ t,
       if decide (tok_claims t = tok_claims token ∧ tok_signature t = tok_signature token)
       then Ok (bytes_of "token") else Err "unknown token";
     token_from_cbor := λ bs, if decide (bs = bytes_of "token") then Ok token else Err "bad token";
     hmac := λ key payload, Ok (demo_hmac key payload) |}.

Lemma demo_crates_laws claims secret : @TokenCratesLaws (demo_crates claims secret).
Proof.
  assert (∀ bs, demo_unmark (demo_mark bs) = Ok bs) as Hm.
  { intros bs. simpl. unfold bytes_of, string_of_bytes.
    by rewrite String.list_ascii_of_string_of_list_ascii. }
  split; simpl; [exact Hm| |exact Hm| |].
  - intros bs _. apply (not_blank "x"%char); [done|]. left.
  - intros [c sig] bs. destruct (decide _) as [[E1 E2]|]; [|done]. simpl in E1, E2. subst c sig.
    intros [= <-]. by rewrite decide_True.
  - by intros key payload tag [= <-].
Qed.

Definition demo_claims : InvocationTokenClaims :=
  {| tc_source_service := "web"; tc_target_service := "db"; tc_wit := "acme:db/query";
     tc_exp := 130; tc_nonce := "n1" |}.

Lemma invocation_tokens_witness :
  let _ := demo_crates demo_claims "key" in
  issue_invocation_token (demo_mark (bytes_of "key")) demo_claims = Ok (demo_mark (bytes_of "token")) ∧
  verify_invocation_token 100 (demo_mark (bytes_of "key")) (demo_mark (bytes_of "token"))
    = Ok demo_claims ∧
  verify_invocation_token 130 (demo_mark (bytes_of "key")) (demo_mark (bytes_of "token"))
    = Err (new_error Unauthorized "ipc.token" "token expired").
Proof.
  cbv zeta. assert (@issue_invocation_token (demo_crates demo_claims "key")
    (demo_mark (bytes_of "key")) demo_claims = Ok (demo_mark (bytes_of "token"))) as Hi
    by (vm_compute; reflexivity).
  destruct (@invocation_tokens _ (demo_crates_laws demo_claims "key") _ _ _ Hi) as [Hv _].
  split_and!; [exact Hi| |vm_compute; reflexivity].
  apply Hv; [vm_compute; discriminate|vm_compute; reflexivity].
Defined.
