(* ===== verification/Supervisor.v ===== *)
(** * The service supervisor

    [crates/imagod-control/src/service_supervisor.rs] and [runner_spawn.rs]: one runner
    process per service, started, stopped and reaped by concurrent tasks that share
    lock-protected maps.  This file has the data, the pure parts (the bootstrap of a
    runner, the effective queue capacity, the reports) and every lock-held section as a
    function on the shared state; [SupervisorLts] interleaves the sections.

    A [Child] is its process number; the state of the processes, which the operating system
    may change at any time, is part of the shared state.  The retained log store is a type
    [R] with the operations of [Class Retained]. *)

From S2P Require Import Prelude Protocol Text LogBuffer IpAddr Ipc.

Open Scope Z_scope.

Record ServiceLaunch `{Json} := {
  sl_name : string;
  sl_release_hash : string;
  sl_app_type : RunnerAppType;
  sl_http_port : option Z;
  sl_http_listen_addr : option string;
  sl_http_max_body_bytes : option Z;
  sl_socket : option RunnerSocketConfig;
  sl_component_path : string;
  sl_args : list string;
  sl_envs : gmap string string;
  sl_wasi_mounts : list RunnerWasiMount;
  sl_wasi_http_outbound : list WasiHttpOutboundRule;
  sl_resources : gmap string JsonValue;
  sl_bindings : list ServiceBinding;
  sl_plugin_dependencies : list PluginDependency;
  sl_capabilities : CapabilityPolicy;
}.

Inductive RunningStatus := Running | Stopping.

#[export] Instance RunningStatus_eq_dec : EqDecision RunningStatus.
Proof. solve_decision. Defined.

Record RuntimeServiceState := {
  rt_name : string;
  rt_release_hash : string;
  rt_started_at : string;
  rt_status : RunningStatus;
}.

Inductive ServiceLogSnapshot :=
  | SnapBytes (bytes : list byte)
  | SnapEvents (events : list ServiceLogEvent).

Definition snap_as_bytes (s : ServiceLogSnapshot) : option (list byte) :=
  match s with SnapBytes bytes => Some bytes | SnapEvents _ => None end.
Definition snap_as_events (s : ServiceLogSnapshot) : option (list ServiceLogEvent) :=
  match s with SnapBytes _ => None | SnapEvents events => Some events end.

(** The receiver, when there is one, follows the log of a process. *)
Record ServiceLogSubscription := {
  sub_service_name : string;
  sub_snapshot : ServiceLogSnapshot;
  sub_receiver : option N;
}.

(** The child also stands for its log buffer and its broadcast channel. *)
Record RunningService := {
  rs_release_hash : string;
  rs_started_at : string;
  rs_status : RunningStatus;
  rs_is_ready : bool;
  rs_runner_id : string;
  rs_runner_endpoint : string;
  rs_manager_auth_secret : string;
  rs_invocation_secret : string;
  rs_bindings : list ServiceBinding;
  rs_child : N;
  rs_last_heartbeat_at : string;
}.

#[export] Instance RunningService_eq_dec : EqDecision RunningService.
Proof. solve_decision. Defined.

Definition with_status (st : RunningStatus) (s : RunningService) : RunningService :=
  {| rs_release_hash := rs_release_hash s; rs_started_at := rs_started_at s; rs_status := st;
     rs_is_ready := rs_is_ready s; rs_runner_id := rs_runner_id s;
     rs_runner_endpoint := rs_runner_endpoint s;
     rs_manager_auth_secret := rs_manager_auth_secret s;
     rs_invocation_secret := rs_invocation_secret s; rs_bindings := rs_bindings s;
     rs_child := rs_child s; rs_last_heartbeat_at := rs_last_heartbeat_at s |}.

(** [service.is_ready = ready; service.last_heartbeat_at = at]. *)
Definition with_heartbeat (ready : bool) (at_ : string) (s : RunningService) : RunningService :=
  {| rs_release_hash := rs_release_hash s; rs_started_at := rs_started_at s;
     rs_status := rs_status s; rs_is_ready := ready; rs_runner_id := rs_runner_id s;
     rs_runner_endpoint := rs_runner_endpoint s;
     rs_manager_auth_secret := rs_manager_auth_secret s;
     rs_invocation_secret := rs_invocation_secret s; rs_bindings := rs_bindings s;
     rs_child := rs_child s; rs_last_heartbeat_at := at_ |}.

(** ** Configuration *)

Record SupervisorConfig := {
  sc_storage_root : string;
  sc_stop_grace_timeout_secs : Z;
  sc_runner_ready_timeout_secs : Z;
  sc_manager_control_read_timeout_ms : Z;
  sc_http_worker_count : Z;
  sc_http_worker_queue_capacity : Z;
  sc_http_queue_memory_budget_bytes : Z;
  sc_wasm_memory_reservation_bytes : Z;
  sc_wasm_memory_reservation_for_growth_bytes : Z;
  sc_wasm_memory_guard_size_bytes : Z;
  sc_wasm_guard_before_linear_memory : bool;
  sc_wasm_parallel_compilation : bool;
  sc_enabled_native_plugins : list string;
  sc_runner_log_buffer_bytes : Z;
  sc_epoch_tick_interval_ms : Z;
  sc_manager_control_endpoint : string;
}.

Definition STAGE_START : string := "service.start".
Definition STAGE_STOP : string := "service.stop".
Definition STAGE_CONTROL : string := "service.control".
Definition STAGE_INVOKE : string := "service.invoke".
Definition STAGE_LOGS : string := "service.logs".
Definition INVOCATION_TOKEN_TTL_SECS : Z := 30.
Definition MAX_UNIX_SOCKET_PATH_BYTES : Z := 107.
Definition DEFAULT_HTTP_QUEUE_MEMORY_BUDGET_BYTES : Z := 32 * 1024 * 1024.

Definition validate_unix_socket_path_len (path socket_name : string) : iresult unit :=
  let path_len := zlen (bytes_of path) in
  ensure (path_len <=? MAX_UNIX_SOCKET_PATH_BYTES)
    (new_error Internal STAGE_CONTROL
       (socket_name +:+ " path is too long for AF_UNIX: actual length " +:+ to_string path_len
        +:+ ", max " +:+ to_string MAX_UNIX_SOCKET_PATH_BYTES +:+ ", path=" +:+ path)).

(** What the operating system answers while the supervisor is created. *)
Record SetupIo := {
  su_mkdir : option string;
  su_endpoint_exists : bool;
  su_remove : option string;
  su_bind : option string;
}.

Definition setup_ok (fault : option string) (what : string) : iresult unit :=
  match fault with
  | None => Ok tt
  | Some e => Err (new_error Internal STAGE_CONTROL (what +:+ ": " +:+ e))
  end.

(** [new_with_config_path]; [open_retained] opens the retained log store with a capacity. *)
Definition new_supervisor {R} (io : SetupIo) (open_retained : Z → iresult R)
    (storage_root : string)
    (stop_grace_timeout_secs runner_ready_timeout_secs manager_control_read_timeout_ms
     http_worker_count http_worker_queue_capacity runner_log_buffer_bytes
     retained_logs_capacity_bytes epoch_tick_interval_ms : Z) : iresult (SupervisorConfig * R) :=
  let runtime_root := path_join (path_join storage_root "runtime") "ipc" in
  _ ← setup_ok (su_mkdir io) ("failed to create runtime dir " +:+ runtime_root);
  let endpoint := path_join runtime_root "manager-control.sock" in
  _ ← validate_unix_socket_path_len endpoint "manager control endpoint";
  _ ← (if su_endpoint_exists io
       then setup_ok (su_remove io) ("failed to remove stale manager control endpoint " +:+ endpoint)
       else Ok tt);
  _ ← setup_ok (su_bind io) ("failed to bind manager control endpoint " +:+ endpoint);
  retained ← open_retained (Z.max retained_logs_capacity_bytes 1);
  Ok ({| sc_storage_root := storage_root;
         sc_stop_grace_timeout_secs := Z.max stop_grace_timeout_secs 1;
         sc_runner_ready_timeout_secs := Z.max runner_ready_timeout_secs 1;
         sc_manager_control_read_timeout_ms := Z.max manager_control_read_timeout_ms 1;
         sc_http_worker_count := http_worker_count;
         sc_http_worker_queue_capacity := http_worker_queue_capacity;
         sc_http_queue_memory_budget_bytes := DEFAULT_HTTP_QUEUE_MEMORY_BUDGET_BYTES;
         sc_wasm_memory_reservation_bytes := 64 * 1024 * 1024;
         sc_wasm_memory_reservation_for_growth_bytes := 16 * 1024 * 1024;
         sc_wasm_memory_guard_size_bytes := 64 * 1024;
         sc_wasm_guard_before_linear_memory := false;
         sc_wasm_parallel_compilation := false;
         sc_enabled_native_plugins :=
           bp_package_name <$> filter (λ d, bp_default_enabled d = true)
             BUILTIN_NATIVE_PLUGIN_DESCRIPTORS;
         sc_runner_log_buffer_bytes := Z.max runner_log_buffer_bytes 1024;
         sc_epoch_tick_interval_ms := Z.max epoch_tick_interval_ms 1;
         sc_manager_control_endpoint := endpoint |}, retained).

Definition with_http_queue_memory_budget_bytes (budget : Z) (c : SupervisorConfig)
    : SupervisorConfig :=
  {| sc_storage_root := sc_storage_root c;
     sc_stop_grace_timeout_secs := sc_stop_grace_timeout_secs c;
     sc_runner_ready_timeout_secs := sc_runner_ready_timeout_secs c;
     sc_manager_control_read_timeout_ms := sc_manager_control_read_timeout_ms c;
     sc_http_worker_count := sc_http_worker_count c;
     sc_http_worker_queue_capacity := sc_http_worker_queue_capacity c;
     sc_http_queue_memory_budget_bytes := budget;
     sc_wasm_memory_reservation_bytes := sc_wasm_memory_reservation_bytes c;
     sc_wasm_memory_reservation_for_growth_bytes := sc_wasm_memory_reservation_for_growth_bytes c;
     sc_wasm_memory_guard_size_bytes := sc_wasm_memory_guard_size_bytes c;
     sc_wasm_guard_before_linear_memory := sc_wasm_guard_before_linear_memory c;
     sc_wasm_parallel_compilation := sc_wasm_parallel_compilation c;
     sc_enabled_native_plugins := sc_enabled_native_plugins c;
     sc_runner_log_buffer_bytes := sc_runner_log_buffer_bytes c;
     sc_epoch_tick_interval_ms := sc_epoch_tick_interval_ms c;
     sc_manager_control_endpoint := sc_manager_control_endpoint c |}.

Definition with_wasm_engine_tuning (reservation growth guard_size : Z)
    (guard_before parallel : bool) (c : SupervisorConfig) : SupervisorConfig :=
  {| sc_storage_root := sc_storage_root c;
     sc_stop_grace_timeout_secs := sc_stop_grace_timeout_secs c;
     sc_runner_ready_timeout_secs := sc_runner_ready_timeout_secs c;
     sc_manager_control_read_timeout_ms := sc_manager_control_read_timeout_ms c;
     sc_http_worker_count := sc_http_worker_count c;
     sc_http_worker_queue_capacity := sc_http_worker_queue_capacity c;
     sc_http_queue_memory_budget_bytes := sc_http_queue_memory_budget_bytes c;
     sc_wasm_memory_reservation_bytes := reservation;
     sc_wasm_memory_reservation_for_growth_bytes := growth;
     sc_wasm_memory_guard_size_bytes := guard_size;
     sc_wasm_guard_before_linear_memory := guard_before;
     sc_wasm_parallel_compilation := parallel;
     sc_enabled_native_plugins := sc_enabled_native_plugins c;
     sc_runner_log_buffer_bytes := sc_runner_log_buffer_bytes c;
     sc_epoch_tick_interval_ms := sc_epoch_tick_interval_ms c;
     sc_manager_control_endpoint := sc_manager_control_endpoint c |}.

Definition with_enabled_native_plugins (plugins : list string) (c : SupervisorConfig)
    : SupervisorConfig :=
  {| sc_storage_root := sc_storage_root c;
     sc_stop_grace_timeout_secs := sc_stop_grace_timeout_secs c;
     sc_runner_ready_timeout_secs := sc_runner_ready_timeout_secs c;
     sc_manager_control_read_timeout_ms := sc_manager_control_read_timeout_ms c;
     sc_http_worker_count := sc_http_worker_count c;
     sc_http_worker_queue_capacity := sc_http_worker_queue_capacity c;
     sc_http_queue_memory_budget_bytes := sc_http_queue_memory_budget_bytes c;
     sc_wasm_memory_reservation_bytes := sc_wasm_memory_reservation_bytes c;
     sc_wasm_memory_reservation_for_growth_bytes := sc_wasm_memory_reservation_for_growth_bytes c;
     sc_wasm_memory_guard_size_bytes := sc_wasm_memory_guard_size_bytes c;
     sc_wasm_guard_before_linear_memory := sc_wasm_guard_before_linear_memory c;
     sc_wasm_parallel_compilation := sc_wasm_parallel_compilation c;
     sc_enabled_native_plugins := plugins;
     sc_runner_log_buffer_bytes := sc_runner_log_buffer_bytes c;
     sc_epoch_tick_interval_ms := sc_epoch_tick_interval_ms c;
     sc_manager_control_endpoint := sc_manager_control_endpoint c |}.

(** ** Launching *)

Section launch.
Context `{Json, Crates}.

Definition quoted_service (name rest : string) : string :=
  ("service '" +:+ name +:+ "' " +:+ rest)%string.

Definition effective_http_worker_queue_capacity (c : SupervisorConfig) (launch : ServiceLaunch)
    : iresult Z :=
  if negb (bool_decide (sl_app_type launch = Http)) then Ok (sc_http_worker_queue_capacity c)
  else
    match sl_http_max_body_bytes launch with
    | None =>
      Err (new_error Internal STAGE_START (quoted_service (sl_name launch)
             "is missing manifest.http.max_body_bytes for app_type=http"))
    | Some max_body_bytes =>
      if max_body_bytes =? 0 then
        Err (new_error BadRequest STAGE_START (quoted_service (sl_name launch)
               "must declare manifest.http.max_body_bytes greater than zero"))
      else
        let max_queue_by_budget := sc_http_queue_memory_budget_bytes c / max_body_bytes in
        if max_queue_by_budget =? 0 then
          Err (new_error BadRequest STAGE_START (quoted_service (sl_name launch)
                 ("exceeds runtime.http_queue_memory_budget_bytes: budget="
                  +:+ to_string (sc_http_queue_memory_budget_bytes c) +:+ " max_body_bytes="
                  +:+ to_string max_body_bytes)%string))
        else
          let effective_capacity := Z.min (sc_http_worker_queue_capacity c) max_queue_by_budget in
          if effective_capacity <=? 2 ^ 32 - 1 then Ok effective_capacity
          else Err (new_error Internal STAGE_START
                      ("effective HTTP queue capacity is too large: "
                       +:+ to_string effective_capacity))
    end.

(** The first 16 bytes of the hash, in hexadecimal. *)
Definition build_runner_endpoint (storage_root service_name runner_id : string) : string :=
  let endpoint_hash := substring 0 32 (sha256_hex (bytes_of (service_name +:+ ":" +:+ runner_id))) in
  path_join (path_join (path_join (path_join storage_root "runtime") "ipc") "runners")
    ("runner-" +:+ endpoint_hash +:+ ".sock").

Definition make_bootstrap (c : SupervisorConfig) (launch : ServiceLaunch) (capacity : Z)
    (runner_id manager_auth_secret invocation_secret : string) : RunnerBootstrap :=
  {| rb_runner_id := runner_id;
     rb_service_name := sl_name launch;
     rb_release_hash := sl_release_hash launch;
     rb_app_type := sl_app_type launch;
     rb_http_port := sl_http_port launch;
     rb_http_listen_addr := sl_http_listen_addr launch;
     rb_http_max_body_bytes := sl_http_max_body_bytes launch;
     rb_http_worker_count := sc_http_worker_count c;
     rb_http_worker_queue_capacity := capacity;
     rb_socket := sl_socket launch;
     rb_component_path := sl_component_path launch;
     rb_args := sl_args launch;
     rb_envs := sl_envs launch;
     rb_wasi_mounts := sl_wasi_mounts launch;
     rb_wasi_http_outbound := sl_wasi_http_outbound launch;
     rb_resources := sl_resources launch;
     rb_bindings := sl_bindings launch;
     rb_plugin_dependencies := sl_plugin_dependencies launch;
     rb_enabled_native_plugins := sc_enabled_native_plugins c;
     rb_capabilities := sl_capabilities launch;
     rb_manager_control_endpoint := sc_manager_control_endpoint c;
     rb_runner_endpoint := build_runner_endpoint (sc_storage_root c) (sl_name launch) runner_id;
     rb_manager_auth_secret := manager_auth_secret;
     rb_invocation_secret := invocation_secret;
     rb_epoch_tick_interval_ms := sc_epoch_tick_interval_ms c;
     rb_wasm_memory_reservation_bytes := sc_wasm_memory_reservation_bytes c;
     rb_wasm_memory_reservation_for_growth_bytes := sc_wasm_memory_reservation_for_growth_bytes c;
     rb_wasm_memory_guard_size_bytes := sc_wasm_memory_guard_size_bytes c;
     rb_wasm_guard_before_linear_memory := sc_wasm_guard_before_linear_memory c;
     rb_wasm_parallel_compilation := sc_wasm_parallel_compilation c |}.

(** The entry a started runner gets in the map. *)
Definition running_service (launch : ServiceLaunch) (b : RunnerBootstrap) (child : N) (now : Z)
    : RunningService :=
  {| rs_release_hash := sl_release_hash launch; rs_started_at := to_string now;
     rs_status := Running; rs_is_ready := false; rs_runner_id := rb_runner_id b;
     rs_runner_endpoint := rb_runner_endpoint b;
     rs_manager_auth_secret := rb_manager_auth_secret b;
     rs_invocation_secret := rb_invocation_secret b; rs_bindings := sl_bindings launch;
     rs_child := child; rs_last_heartbeat_at := to_string now |}.

End launch.

Definition runner_env_overrides (wasm_parallel_compilation : bool) : list (string * string) :=
  ("TOKIO_WORKER_THREADS", "1") ::
  (if wasm_parallel_compilation then [] else [("RAYON_NUM_THREADS", "1")]).

Definition start_busy_error (service_name : string) : ImagodError :=
  new_error Busy STAGE_START (quoted_service service_name "is already running").

Definition not_running_error (stage service_name : string) : ImagodError :=
  new_error NotFound stage (quoted_service service_name "is not running").

Definition runner_ready_channel_closed_error (runner_id : string) : ImagodError :=
  new_error Internal STAGE_START
    ("runner '" +:+ runner_id +:+ "' readiness channel closed unexpectedly").

Definition collect_stream_snapshot_bytes (events : list ServiceLogEvent) (stream : ServiceLogStream)
    : list byte :=
  events ≫= λ e, if decide (ev_stream e = stream) then ev_bytes e else [].

Definition with_stream_detail (key : string) (bytes : list byte) (err : ImagodError) : ImagodError :=
  match bytes with
  | [] => err
  | _ =>
    let text := from_utf8_lossy bytes in
    if bool_decide (text = "") then err else with_detail key text err
  end.

Definition attach_start_failure_wasm_log_details (err : ImagodError) (include : bool)
    (snapshot : list ServiceLogEvent) : ImagodError :=
  if negb include then err
  else
    let err := with_stream_detail "wasm.stdout" (collect_stream_snapshot_bytes snapshot Stdout) err in
    with_stream_detail "wasm.stderr" (collect_stream_snapshot_bytes snapshot Stderr) err.

(** ** Shared state *)

(** The retained log store, as the supervisor uses it. *)
Class Retained (R : Type) := {
  retain_events : string → list ServiceLogEvent → R → R;
  retained_events : R → string → iresult (option (list ServiceLogEvent));
  retained_names : R → list string;
}.

Record ChildState := { ch_exited : bool; ch_stdin : bool }.

#[export] Instance ChildState_eq_dec : EqDecision ChildState.
Proof. solve_decision. Defined.

(** [pending_ready] holds the senders of the readiness channels by runner, [ready_sent] the
    channels that carry their message, [ready_rx] those whose receiver is alive. *)
Record Sup (R : Type) := {
  inner : gmap string RunningService;
  runner_index : gmap string string;
  retained_logs : R;
  stopping_services : gmap string Z;
  pending_ready : gset string;
  ready_sent : gset string;
  ready_rx : gset string;
  starting_services : gset string;
  stopping_count : Z;
  children : gmap N ChildState;
  logs : gmap N BoundedLogEventBuffer;
}.
Arguments inner {R}.
Arguments runner_index {R}.
Arguments retained_logs {R}.
Arguments stopping_services {R}.
Arguments pending_ready {R}.
Arguments ready_sent {R}.
Arguments ready_rx {R}.
Arguments starting_services {R}.
Arguments stopping_count {R}.
Arguments children {R}.
Arguments logs {R}.

Definition new_sup {R} (retained : R) : Sup R :=
  {| inner := ∅; runner_index := ∅; retained_logs := retained; stopping_services := ∅;
     pending_ready := ∅; ready_sent := ∅; ready_rx := ∅; starting_services := ∅;
     stopping_count := 0; children := ∅; logs := ∅ |}.

Section state.
Context {R : Type}.
Implicit Types s : Sup R.

Definition set_inner (m : gmap string RunningService) s : Sup R :=
  {| inner := m; runner_index := runner_index s; retained_logs := retained_logs s;
     stopping_services := stopping_services s; pending_ready := pending_ready s;
     ready_sent := ready_sent s; ready_rx := ready_rx s;
     starting_services := starting_services s; stopping_count := stopping_count s;
     children := children s; logs := logs s |}.
Definition set_index (m : gmap string string) s : Sup R :=
  {| inner := inner s; runner_index := m; retained_logs := retained_logs s;
     stopping_services := stopping_services s; pending_ready := pending_ready s;
     ready_sent := ready_sent s; ready_rx := ready_rx s;
     starting_services := starting_services s; stopping_count := stopping_count s;
     children := children s; logs := logs s |}.
Definition set_retained (r : R) s : Sup R :=
  {| inner := inner s; runner_index := runner_index s; retained_logs := r;
     stopping_services := stopping_services s; pending_ready := pending_ready s;
     ready_sent := ready_sent s; ready_rx := ready_rx s;
     starting_services := starting_services s; stopping_count := stopping_count s;
     children := children s; logs := logs s |}.
Definition set_stopping (m : gmap string Z) (count : Z) s : Sup R :=
  {| inner := inner s; runner_index := runner_index s; retained_logs := retained_logs s;
     stopping_services := m; pending_ready := pending_ready s;
     ready_sent := ready_sent s; ready_rx := ready_rx s;
     starting_services := starting_services s; stopping_count := count;
     children := children s; logs := logs s |}.
Definition set_channels (pending sent rx : gset string) s : Sup R :=
  {| inner := inner s; runner_index := runner_index s; retained_logs := retained_logs s;
     stopping_services := stopping_services s; pending_ready := pending;
     ready_sent := sent; ready_rx := rx;
     starting_services := starting_services s; stopping_count := stopping_count s;
     children := children s; logs := logs s |}.
Definition set_starting (names : gset string) s : Sup R :=
  {| inner := inner s; runner_index := runner_index s; retained_logs := retained_logs s;
     stopping_services := stopping_services s; pending_ready := pending_ready s;
     ready_sent := ready_sent s; ready_rx := ready_rx s;
     starting_services := names; stopping_count := stopping_count s;
     children := children s; logs := logs s |}.
Definition set_children (m : gmap N ChildState) s : Sup R :=
  {| inner := inner s; runner_index := runner_index s; retained_logs := retained_logs s;
     stopping_services := stopping_services s; pending_ready := pending_ready s;
     ready_sent := ready_sent s; ready_rx := ready_rx s;
     starting_services := starting_services s; stopping_count := stopping_count s;
     children := m; logs := logs s |}.
Definition set_logs (m : gmap N BoundedLogEventBuffer) s : Sup R :=
  {| inner := inner s; runner_index := runner_index s; retained_logs := retained_logs s;
     stopping_services := stopping_services s; pending_ready := pending_ready s;
     ready_sent := ready_sent s; ready_rx := ready_rx s;
     starting_services := starting_services s; stopping_count := stopping_count s;
     children := children s; logs := m |}.

(** *** Processes *)

(** [child.try_wait()] without a fault: whether the process has exited. *)
Definition has_exited (pid : N) s : bool :=
  match children s !! pid with Some c => ch_exited c | None => true end.

Definition exit_child (pid : N) s : Sup R :=
  set_children (alter (λ c, {| ch_exited := true; ch_stdin := ch_stdin c |}) pid (children s)) s.

Definition log_of (pid : N) s : list ServiceLogEvent :=
  match logs s !! pid with Some b => snapshot_events b | None => [] end.

(** *** Index, reservations, guards *)

Definition upsert_runner_index (runner_id service_name : string) s : Sup R :=
  set_index (<[runner_id := service_name]> (runner_index s)) s.
Definition remove_runner_index (runner_id : string) s : Sup R :=
  set_index (delete runner_id (runner_index s)) s.

(** The part of [reserve_start] under the lock of [starting_services]. *)
Definition reserve_start (service_name : string) s : Sup R * iresult unit :=
  if decide (service_name ∈ starting_services s) then (s, Err (start_busy_error service_name))
  else (set_starting ({[ service_name ]} ∪ starting_services s) s, Ok tt).
Definition release_start (service_name : string) s : Sup R :=
  set_starting (starting_services s ∖ {[ service_name ]}) s.

(** [begin_stop_service] and [StoppingCounterGuard::new]. *)
Definition begin_stop_service (service_name : string) s : Sup R :=
  let count := default 0 (stopping_services s !! service_name) in
  set_stopping (<[service_name := count +ˢ 1]> (stopping_services s)) (stopping_count s + 1) s.

(** Both guards are dropped. *)
Definition end_stop_service (service_name : string) s : Sup R :=
  let m :=
    match stopping_services s !! service_name with
    | Some count =>
      if count -ˢ 1 =? 0 then delete service_name (stopping_services s)
      else <[service_name := count -ˢ 1]> (stopping_services s)
    | None => stopping_services s
    end in
  set_stopping m (stopping_count s - 1) s.

Definition stopping_service_names s : list string := btree_keys (stopping_services s).
Definition is_service_stopping (service_name : string) s : bool :=
  bool_decide (is_Some (stopping_services s !! service_name)).

(** *** Channels *)

(** [oneshot::channel()], with the sender stored under the runner. *)
Definition open_channel (runner_id : string) s : Sup R :=
  set_channels ({[ runner_id ]} ∪ pending_ready s) (ready_sent s ∖ {[ runner_id ]})
    ({[ runner_id ]} ∪ ready_rx s) s.
Definition remove_pending (runner_id : string) s : Sup R :=
  set_channels (pending_ready s ∖ {[ runner_id ]}) (ready_sent s) (ready_rx s) s.
Definition drop_receiver (runner_id : string) s : Sup R :=
  set_channels (pending_ready s) (ready_sent s) (ready_rx s ∖ {[ runner_id ]}) s.

(** [if let Some(sender) = pending_ready.remove(id) { sender.send(Ok(())) }]. *)
Definition send_ready (runner_id : string) s : Sup R :=
  if decide (runner_id ∈ pending_ready s) then
    set_channels (pending_ready s ∖ {[ runner_id ]})
      (if decide (runner_id ∈ ready_rx s) then {[ runner_id ]} ∪ ready_sent s else ready_sent s)
      (ready_rx s) s
  else s.

(** [pending_ready.retain(|_, sender| !sender.is_closed())]. *)
Definition drop_closed_senders s : Sup R :=
  set_channels (pending_ready s ∩ ready_rx s) (ready_sent s) (ready_rx s) s.

(** *** Removing runners *)

(** The lock-held part of [reap_finished_service]; a faulty [try_wait] removes nothing. *)
Definition take_finished (fault : bool) (service_name : string) s : Sup R * option RunningService :=
  match inner s !! service_name with
  | Some service =>
    if negb fault && has_exited (rs_child service) s
    then (set_inner (delete service_name (inner s)) s, Some service)
    else (s, None)
  | None => (s, None)
  end.

(** The lock-held loop of [reap_finished] over the names of the map. *)
Fixpoint take_all_finished (faults : gset string) (names : list string) s
    : Sup R * list (string * RunningService) :=
  match names with
  | [] => (s, [])
  | name :: rest =>
    let '(s, taken) := take_finished (bool_decide (name ∈ faults)) name s in
    let '(s, finished) := take_all_finished faults rest s in
    (s, match taken with Some service => (name, service) :: finished | None => finished end)
  end.

(** [inner.remove(service_name)] of [take_running] and [cleanup_start_failure]. *)
Definition remove_running (service_name : string) s : Sup R * option RunningService :=
  (set_inner (delete service_name (inner s)) s, inner s !! service_name).

(** [child.stdin.take()] of [write_bootstrap_to_running_service]. *)
Definition take_stdin (service_name : string) s : Sup R * iresult unit :=
  match inner s !! service_name with
  | None =>
    (s, Err (new_error Internal STAGE_START
               (quoted_service service_name "disappeared before bootstrap write")))
  | Some service =>
    match children s !! rs_child service with
    | Some c =>
      if ch_stdin c
      then (set_children (<[rs_child service :=
              {| ch_exited := ch_exited c; ch_stdin := false |}]> (children s)) s, Ok tt)
      else (s, Err (new_error Internal STAGE_START "runner stdin is not available"))
    | None => (s, Err (new_error Internal STAGE_START "runner stdin is not available"))
    end
  end.

(** One check of [wait_for_runner_exit]. *)
Definition runner_exited (fault : bool) (service_name : string) s : bool :=
  match inner s !! service_name with
  | Some service => negb fault && has_exited (rs_child service) s
  | None => true
  end.

(** The lock-held part of [restore_service_after_stop_error]: [Some] when the name is taken
    and the displaced runner is handed back. *)
Definition restore_service (service_name : string) (service : RunningService) s
    : Sup R * option RunningService :=
  let service := with_status Running service in
  match inner s !! service_name with
  | Some _ => (s, Some service)
  | None => (set_inner (<[service_name := service]> (inner s)) s, None)
  end.

(** *** Reports *)

Definition has_live_services s : bool :=
  (0 <? stopping_count s) || negb (bool_decide (inner s = ∅)).

Definition running_service_names s : list string :=
  omap (λ '(name, service), if decide (rs_status service = Running) then Some name else None)
    (btree_iter (inner s)).

Definition runtime_service_states s : list RuntimeServiceState :=
  (λ '(name, service),
     {| rt_name := name; rt_release_hash := rs_release_hash service;
        rt_started_at := rs_started_at service; rt_status := rs_status service |})
  <$> btree_iter (inner s).

Context `{Retained R}.

Definition retain_composite_snapshot (service_name : string) (pid : N) s : Sup R :=
  set_retained (retain_events service_name (log_of pid s) (retained_logs s)) s.

(** Sorted and without duplicates, like the set it is collected from. *)
Definition loggable_service_names s : list string :=
  let merged : gset string :=
    list_to_set (running_service_names s) ∪ list_to_set (retained_names (retained_logs s)) in
  btree_keys (set_to_map (λ name, (name, tt))
    (filter (λ name, name ∉ stopping_service_names s) merged) : gmap string unit).

Definition open_logs (service_name : string) (tail_lines : Z) (follow with_timestamp : bool) s
    : iresult ServiceLogSubscription :=
  let snapshot events :=
    if with_timestamp then SnapEvents (tail_snapshot_events_from_events events tail_lines)
    else SnapBytes (tail_snapshot_bytes_from_events events tail_lines) in
  let retained :=
    if is_service_stopping service_name s then Err (not_running_error STAGE_LOGS service_name)
    else
      events ← retained_events (retained_logs s) service_name;
      events ← ok_or events (new_error NotFound STAGE_LOGS
                 (quoted_service service_name "has no available logs"));
      Ok {| sub_service_name := service_name; sub_snapshot := snapshot events;
            sub_receiver := None |} in
  match inner s !! service_name with
  | Some service =>
    if decide (rs_status service = Running) then
      let pid := rs_child service in
      let buffer := default (new_buffer 1) (logs s !! pid) in
      Ok {| sub_service_name := service_name;
            sub_snapshot :=
              if with_timestamp then SnapEvents (tail_snapshot_events buffer tail_lines)
              else SnapBytes (tail_snapshot_bytes buffer tail_lines);
            sub_receiver := if follow then Some pid else None |}
    else retained
  | None => retained
  end.

End state.

(** ** Invocation of a running service *)

Section invoke.
Context {R : Type} `{TokenCrates, Crates}.

(** The target must be running and ready; [call] is the round trip to its endpoint. *)
Definition invoke (call : string → RunnerInboundRequest → iresult RunnerInboundResponse)
    (now : Z) (nonce : Uuid) (target_service_name interface_id function : string)
    (payload_cbor : list byte) (s : Sup R) : iresult (list byte) :=
  service ← ok_or (inner s !! target_service_name)
             (not_running_error STAGE_INVOKE target_service_name);
  _ ← ensure (bool_decide (rs_status service = Running) && rs_is_ready service)
        (not_running_error STAGE_INVOKE target_service_name);
  token ← issue_invocation_token (rs_invocation_secret service)
            {| tc_source_service := "remote"; tc_target_service := target_service_name;
               tc_wit := interface_id; tc_exp := now + INVOCATION_TOKEN_TTL_SECS;
               tc_nonce := uuid_to_string nonce |};
  response ← call (rs_runner_endpoint service)
               (Invoke interface_id function payload_cbor token);
  match response with
  | InvokeResult payload => Ok payload
  | RunnerError err => Err (ipc_to_error err)
  | RunnerAck => Err (new_error Internal STAGE_INVOKE "unexpected ack response for invoke")
  end.

End invoke.
