(* ===== verification/ManagerControl.v ===== *)
(** * The manager's control socket

    [service_supervisor/manager_control.rs] and the connection table of [remote_rpc.rs]:
    runners register, report that they are ready, send heartbeats and ask for access to
    other services.  A request resolves its runner to a service name and then, under the
    lock of the running services, checks it again and acts.  Between the two the other tasks
    may run, so the locked part is a function of any state and any resolved name.

    What other hosts answer is a function of all calls made to them before ([RemoteWorld]), and
    the calls made are part of the state ([Remote]).

    Shown: whatever the interleaving, a request changes something, asks another host or yields a
    token only for a runner that proves its secret, and then does exactly one thing; a token is
    for a declared binding, and the target accepts it as exactly that. *)

From S2P Require Import Prelude Protocol Text LogBuffer IpAddr Ipc Supervisor.

Open Scope Z_scope.

Definition control_error (code : ErrorCode) (message : string) : ControlResponse :=
  ControlError {| ipc_code := code; ipc_stage := STAGE_CONTROL; ipc_message := message |}.

Definition is_binding_allowed (bindings : list ServiceBinding) (target_service wit : string) : bool :=
  existsb (λ b, bool_decide (bind_name b = target_service) && bool_decide (bind_wit b = wit))
    bindings.

(** ** Remote connections *)

Record RemoteAuthority := {
  ra_key : string;
  ra_host : string;
  ra_host_for_url : string;
  ra_port : Z;
}.

(** What the manager asks of other hosts. *)
Inductive RemoteCall :=
  | Probed (authority : string)
  | Invoked (authority : RemoteAuthority) (target_service interface_id function : string)
      (args_cbor : list byte).

(** [by_runner] of [RemoteRpcManager], and every call made to other hosts so far. *)
Record Remote := {
  by_runner : gmap string (gmap string RemoteAuthority);
  made : list RemoteCall;
}.

Definition no_remote : Remote := {| by_runner := ∅; made := [] |}.

Definition called (call : RemoteCall) (r : Remote) : Remote :=
  {| by_runner := by_runner r; made := made r ++ [call] |}.

Definition insert_connection (connection_id runner_id : string) (authority : RemoteAuthority)
    (r : Remote) : Remote :=
  {| by_runner := <[runner_id := <[connection_id := authority]> (default ∅ (by_runner r !! runner_id))]>
                    (by_runner r);
     made := made r |}.

Definition connection_for (runner_id connection_id : string) (r : Remote) : option RemoteAuthority :=
  connections ← by_runner r !! runner_id; connections !! connection_id.

Definition disconnect (runner_id connection_id : string) (r : Remote) : Remote * bool :=
  match by_runner r !! runner_id with
  | None => (r, false)
  | Some connections =>
    let rest := delete connection_id connections in
    ({| by_runner := if bool_decide (rest = ∅) then delete runner_id (by_runner r)
                     else <[runner_id := rest]> (by_runner r);
        made := made r |},
     bool_decide (is_Some (connections !! connection_id)))
  end.

(** ** Requests *)

Section control.
Context {R : Type} `{TokenCrates, Crates}.
Implicit Types s : Sup R.

Definition validate_manager_auth (secret runner_id proof : string) : iresult unit :=
  match verify_manager_auth_proof secret runner_id proof with
  | Ok u => Ok u
  | Err err =>
    if decide (err_code err = Unauthorized)
    then Err (new_error Unauthorized STAGE_CONTROL "manager auth proof mismatch")
    else Err (new_error (err_code err) STAGE_CONTROL
                ("manager auth proof verification failed: " +:+ err_message err))
  end.

(** [resolve_runner_service_name]: the index, or a scan that repairs it. *)
Definition resolve_runner_service_name (runner_id : string) s : Sup R * option string :=
  let scan s :=
    let found := (λ '(name, _), name) <$>
      head (filter (λ '(_, service), rs_runner_id service = runner_id) (btree_iter (inner s))) in
    match found with
    | Some name => (upsert_runner_index runner_id name s, Some name)
    | None => (s, None)
    end in
  match runner_index s !! runner_id with
  | Some indexed =>
    match inner s !! indexed with
    | Some service =>
      if decide (rs_runner_id service = runner_id) then (s, Some indexed)
      else scan (remove_runner_index runner_id s)
    | None => scan (remove_runner_index runner_id s)
    end
  | None => scan s
  end.

(** The checks every request starts with, under the lock: the resolved service still is the
    runner's, and the proof is right.  A stale name is dropped from the index. *)
Definition with_source (missing runner_id proof name : string)
    (k : RunningService → Sup R * ControlResponse) s : Sup R * ControlResponse :=
  let stale := (remove_runner_index runner_id s, control_error NotFound missing) in
  match inner s !! name with
  | None => stale
  | Some service =>
    if negb (bool_decide (rs_runner_id service = runner_id)) then stale
    else
      match validate_manager_auth (rs_manager_auth_secret service) runner_id proof with
      | Err err => (s, ControlError (ipc_from_error err))
      | Ok _ => k service
      end
  end.

Definition update_service (name : string) (service : RunningService) s : Sup R :=
  set_inner (<[name := service]> (inner s)) s.

(** [RegisterRunner] under the lock. *)
Definition register_runner (now : Z) (name runner_id service_name release_hash runner_endpoint
    proof : string) s : Sup R * ControlResponse :=
  with_source "runner is not registered for startup" runner_id proof name (λ service,
    if negb (bool_decide (name = service_name))
       || negb (bool_decide (rs_release_hash service = release_hash))
    then (s, control_error BadRequest "register_runner metadata mismatch")
    else if negb (bool_decide (rs_runner_endpoint service = runner_endpoint))
    then (s, control_error BadRequest "register_runner endpoint mismatch")
    else (update_service name (with_heartbeat (rs_is_ready service) (to_string now) service) s,
          Ack)) s.

(** [RunnerReady] under the lock; the message on the channel follows in [send_ready]. *)
Definition runner_ready (now : Z) (name runner_id proof : string) s : Sup R * ControlResponse :=
  with_source "runner is not registered" runner_id proof name (λ service,
    (update_service name (with_heartbeat true (to_string now) service) s, Ack)) s.

Definition heartbeat (now : Z) (name runner_id proof : string) s : Sup R * ControlResponse :=
  with_source "runner is not registered" runner_id proof name (λ service,
    (update_service name (with_heartbeat (rs_is_ready service) (to_string now) service) s, Ack)) s.

Definition SOURCE_MISSING : string := "source runner is not registered".
Definition BINDING_DENIED : string := "binding does not allow target service/interface".

Definition resolve_invocation_target (now : Z) (nonce : Uuid)
    (name runner_id proof target_service wit : string) s : Sup R * ControlResponse :=
  with_source SOURCE_MISSING runner_id proof name (λ source,
    if negb (is_binding_allowed (rs_bindings source) target_service wit)
    then (s, control_error Unauthorized BINDING_DENIED)
    else
      match inner s !! target_service with
      | None => (s, control_error NotFound "target service is not running")
      | Some target =>
        if negb (rs_is_ready target)
        then (s, control_error NotFound "target service is not running")
        else
          match issue_invocation_token (rs_invocation_secret target)
                  {| tc_source_service := name; tc_target_service := target_service;
                     tc_wit := wit; tc_exp := now + INVOCATION_TOKEN_TTL_SECS;
                     tc_nonce := uuid_to_string nonce |} with
          | Err err => (s, ControlError (ipc_from_error err))
          | Ok token => (s, ResolvedInvocationTarget (rs_runner_endpoint target) token)
          end
      end) s.

(** What the other hosts answer to a probe of an authority and to a call; it may depend on
    everything they were asked before. *)
Record RemoteWorld := {
  rw_probe : list RemoteCall → string → iresult RemoteAuthority;
  rw_invoke : list RemoteCall → RemoteAuthority → string → string → string → list byte →
    iresult (list byte);
}.

Definition rpc_unavailable (connection_id : string) : ControlResponse :=
  control_error NotFound ("rpc connection '" +:+ connection_id +:+ "' is not available").

(** The three remote requests check the source under the lock and release it before they
    talk to the other host; [remote] is the table of connections, under its own lock. *)
Definition rpc_connect_remote (world : RemoteWorld) (connection_id : Uuid)
    (name runner_id proof authority : string) s (remote : Remote)
    : Sup R * Remote * ControlResponse :=
  match with_source SOURCE_MISSING runner_id proof name (λ _, (s, Ack)) s with
  | (s, Ack) =>
    let asked := called (Probed authority) remote in
    match rw_probe world (made remote) authority with
    | Err err => (s, asked, ControlError (ipc_from_error err))
    | Ok authority =>
      let id := uuid_to_string connection_id in
      (s, insert_connection id runner_id authority asked, RpcRemoteConnected id)
    end
  | (s, response) => (s, remote, response)
  end.

Definition rpc_invoke_remote (world : RemoteWorld)
    (name runner_id proof connection_id target_service interface_id function : string)
    (args_cbor : list byte) s (remote : Remote) : Sup R * Remote * ControlResponse :=
  let checked :=
    with_source SOURCE_MISSING runner_id proof name (λ source,
      if negb (is_binding_allowed (rs_bindings source) target_service interface_id)
      then (s, control_error Unauthorized BINDING_DENIED)
      else (s, Ack)) s in
  match checked with
  | (s, Ack) =>
    match connection_for runner_id connection_id remote with
    | None => (s, remote, rpc_unavailable connection_id)
    | Some authority =>
      let asked := called (Invoked authority target_service interface_id function args_cbor) remote in
      match rw_invoke world (made remote) authority target_service interface_id function args_cbor with
      | Ok result_cbor => (s, asked, RpcRemoteInvokeResult result_cbor)
      | Err err => (s, asked, ControlError (ipc_from_error err))
      end
    end
  | (s, response) => (s, remote, response)
  end.

Definition rpc_disconnect_remote (name runner_id proof connection_id : string) s
    (remote : Remote) : Sup R * Remote * ControlResponse :=
  match with_source SOURCE_MISSING runner_id proof name (λ _, (s, Ack)) s with
  | (s, Ack) =>
    let '(remote, removed) := disconnect runner_id connection_id remote in
    (s, remote, if removed then Ack else rpc_unavailable connection_id)
  | (s, response) => (s, remote, response)
  end.

(** [handle_control_request_impl] after the runner was resolved to [name]. *)
Definition control_locked (world : RemoteWorld) (now : Z) (uuid : Uuid) (name : string)
    (request : ControlRequest) s (remote : Remote) : Sup R * Remote * ControlResponse :=
  let local '(s, response) := (s, remote, response) in
  match request with
  | RegisterRunner runner_id service_name release_hash endpoint proof =>
    local (register_runner now name runner_id service_name release_hash endpoint proof s)
  | RunnerReady runner_id proof => local (runner_ready now name runner_id proof s)
  | Heartbeat runner_id proof => local (heartbeat now name runner_id proof s)
  | ResolveInvocationTarget runner_id proof target_service wit =>
    local (resolve_invocation_target now uuid name runner_id proof target_service wit s)
  | RpcConnectRemote runner_id proof authority =>
    rpc_connect_remote world uuid name runner_id proof authority s remote
  | RpcInvokeRemote runner_id proof connection_id target_service interface_id function args =>
    rpc_invoke_remote world name runner_id proof connection_id target_service interface_id
      function args s remote
  | RpcDisconnectRemote runner_id proof connection_id =>
    rpc_disconnect_remote name runner_id proof connection_id s remote
  end.

Definition request_runner_id (request : ControlRequest) : string :=
  match request with
  | RegisterRunner runner_id _ _ _ _ | RunnerReady runner_id _ | Heartbeat runner_id _
  | ResolveInvocationTarget runner_id _ _ _ | RpcConnectRemote runner_id _ _
  | RpcInvokeRemote runner_id _ _ _ _ _ _ | RpcDisconnectRemote runner_id _ _ => runner_id
  end.

Definition unresolved_message (request : ControlRequest) : string :=
  match request with
  | RegisterRunner _ _ _ _ _ => "runner is not registered for startup"
  | RunnerReady _ _ | Heartbeat _ _ => "runner is not registered"
  | _ => SOURCE_MISSING
  end.

(** [handle_control_request_impl] without interleaving. *)
Definition handle_control_request (world : RemoteWorld) (now : Z) (uuid : Uuid)
    (request : ControlRequest) s (remote : Remote) : Sup R * Remote * ControlResponse :=
  let '(s, resolved) := resolve_runner_service_name (request_runner_id request) s in
  match resolved with
  | None => (s, remote, control_error NotFound (unresolved_message request))
  | Some name =>
    let '(s, remote, response) := control_locked world now uuid name request s remote in
    match request, response with
    | RunnerReady runner_id _, Ack => (send_ready runner_id s, remote, response)
    | _, _ => (s, remote, response)
    end
  end.

End control.

(** ** Access control *)

Section access.
Context {R : Type} `{TokenCratesLaws, Crates}.
Implicit Types s : Sup R.

(** The proof is the signature of the runner's name under the secret of its service. *)
Definition proves (source : RunningService) (runner_id proof : string) : Prop :=
  rs_runner_id source = runner_id ∧
  ∃ key tag, hex_decode (rs_manager_auth_secret source) = Ok key ∧
    hmac key (bytes_of runner_id) = Ok tag ∧ hex_decode proof = Ok tag.

Definition request_proof (request : ControlRequest) : string :=
  match request with
  | RegisterRunner _ _ _ _ proof | RunnerReady _ proof | Heartbeat _ proof
  | ResolveInvocationTarget _ proof _ _ | RpcConnectRemote _ proof _
  | RpcInvokeRemote _ proof _ _ _ _ _ | RpcDisconnectRemote _ proof _ => proof
  end.

Lemma validate_manager_auth_Ok secret runner_id proof u :
  validate_manager_auth secret runner_id proof = Ok u →
  ∃ key tag, hex_decode secret = Ok key ∧ hmac key (bytes_of runner_id) = Ok tag ∧
    hex_decode proof = Ok tag.
Proof.
  unfold validate_manager_auth. destruct (verify_manager_auth_proof _ _ _) eqn:E; [|by case_decide].
  intros _. unfold verify_manager_auth_proof, decode_secret_hex, verify_hmac_signature_hex in E.
  inv_ok. match goal with Hb : bool_decide _ = true |- _ => apply bool_decide_eq_true in Hb; subst end.
  by eexists _, _.
Qed.

(** The readiness channels of the starts. *)
Definition channels s : gset string * gset string * gset string :=
  (pending_ready s, ready_sent s, ready_rx s).

Lemma with_source_inv missing runner_id proof name k s s' response :
  with_source missing runner_id proof name k s = (s', response) →
  (∃ e, response = ControlError e ∧ inner s' = inner s ∧ channels s' = channels s) ∨
  (∃ source, inner s !! name = Some source ∧ proves source runner_id proof ∧
     k source = (s', response)).
Proof.
  unfold with_source. destruct (inner s !! name) as [source|]; [|intros [= <- <-]; left; by eexists].
  case_bool_decide as Hid; simpl; [|intros [= <- <-]; left; by eexists].
  destruct (validate_manager_auth _ _ _) as [[]|e] eqn:Hv; [|intros [= <- <-]; left; by eexists].
  intros Hk. right. exists source. split_and!; [done| |done].
  split; [done|]. by eapply validate_manager_auth_Ok.
Qed.

Lemma is_binding_allowed_In bindings target wit :
  is_binding_allowed bindings target wit = true →
  {| bind_name := target; bind_wit := wit |} ∈ bindings.
Proof.
  unfold is_binding_allowed. intros ([n w] & Hin & [Hn Hw]%andb_true_iff)%existsb_exists. simpl in *.
  apply bool_decide_eq_true in Hn, Hw. subst. by apply list_elem_of_In.
Qed.

(** A token that the runner of [target] takes, until it expires, for one of [name] to call [wit]. *)
Definition token_for (now : Z) (name target_service wit : string) (target : RunningService)
    (nonce token : string) : Prop :=
  ∀ at_, at_ < now + INVOCATION_TOKEN_TTL_SECS → zlen (bytes_of token) ≤ MAX_INVOCATION_TOKEN_CHARS →
    verify_invocation_token at_ (rs_invocation_secret target) token =
      Ok {| tc_source_service := name; tc_target_service := target_service; tc_wit := wit;
            tc_exp := now + INVOCATION_TOKEN_TTL_SECS; tc_nonce := nonce |}.

Definition only_connection (runner_id connection_id : string) (authority : option RemoteAuthority)
    (remote remote' : Remote) : Prop :=
  ∀ r c, connection_for r c remote' =
    if decide (r = runner_id ∧ c = connection_id) then authority else connection_for r c remote.

(** What a request of a proven runner may do, with its answer: everything else stays. *)
Definition permitted (world : RemoteWorld) (now : Z) (uuid : Uuid) (name : string)
    (source : RunningService) (request : ControlRequest) (response : ControlResponse)
    s (remote : Remote) s' (remote' : Remote) : Prop :=
  match request, response with
  | RegisterRunner _ service_name release_hash endpoint _, Ack =>
    name = service_name ∧ rs_release_hash source = release_hash ∧ rs_runner_endpoint source = endpoint ∧
    inner s' = <[name := with_heartbeat (rs_is_ready source) (to_string now) source]> (inner s) ∧
    remote' = remote
  | Heartbeat _ _, Ack =>
    inner s' = <[name := with_heartbeat (rs_is_ready source) (to_string now) source]> (inner s) ∧
    remote' = remote
  | RunnerReady _ _, Ack =>
    inner s' = <[name := with_heartbeat true (to_string now) source]> (inner s) ∧ remote' = remote
  | ResolveInvocationTarget _ _ target_service wit, ResolvedInvocationTarget endpoint token =>
    inner s' = inner s ∧ remote' = remote ∧
    {| bind_name := target_service; bind_wit := wit |} ∈ rs_bindings source ∧
    ∃ target, inner s !! target_service = Some target ∧ rs_is_ready target = true ∧
      endpoint = rs_runner_endpoint target ∧
      token_for now name target_service wit target (uuid_to_string uuid) token
  | RpcConnectRemote runner_id _ authority, RpcRemoteConnected id =>
    inner s' = inner s ∧ made remote' = made remote ++ [Probed authority] ∧ id = uuid_to_string uuid ∧
    ∃ a, rw_probe world (made remote) authority = Ok a ∧
      only_connection runner_id id (Some a) remote remote'
  | RpcConnectRemote _ _ authority, ControlError e =>
    inner s' = inner s ∧ remote' = called (Probed authority) remote ∧
    ∃ err, rw_probe world (made remote) authority = Err err ∧ e = ipc_from_error err
  | RpcInvokeRemote runner_id _ connection_id target_service interface_id function args, _ =>
    inner s' = inner s ∧
    {| bind_name := target_service; bind_wit := interface_id |} ∈ rs_bindings source ∧
    ∃ a, connection_for runner_id connection_id remote = Some a ∧
      remote' = called (Invoked a target_service interface_id function args) remote ∧
      response = match rw_invoke world (made remote) a target_service interface_id function args with
                 | Ok result => RpcRemoteInvokeResult result
                 | Err err => ControlError (ipc_from_error err)
                 end
  | RpcDisconnectRemote runner_id _ connection_id, Ack =>
    inner s' = inner s ∧ made remote' = made remote ∧
    is_Some (connection_for runner_id connection_id remote) ∧
    only_connection runner_id connection_id None remote remote'
  | _, _ => False
  end.

(** A request is refused, and then nothing happened, or its runner proved its secret. *)
Definition control_outcome (world : RemoteWorld) (now : Z) (uuid : Uuid) (name : string)
    (request : ControlRequest) (response : ControlResponse) s (remote : Remote) s' (remote' : Remote)
    : Prop :=
  (∃ e, response = ControlError e ∧ inner s' = inner s ∧ made remote' = made remote ∧
     ∀ r c, connection_for r c remote' = connection_for r c remote) ∨
  ∃ source, inner s !! name = Some source ∧
    proves source (request_runner_id request) (request_proof request) ∧
    permitted world now uuid name source request response s remote s' remote'.

Lemma refused_outcome world now uuid name request e s remote s' :
  inner s' = inner s → control_outcome world now uuid name request (ControlError e) s remote s' remote.
Proof. intros Hi. left. by exists e. Qed.

Lemma disconnect_spec runner_id connection_id remote remote' removed :
  disconnect runner_id connection_id remote = (remote', removed) →
  made remote' = made remote ∧ only_connection runner_id connection_id None remote remote' ∧
  (removed = true ↔ is_Some (connection_for runner_id connection_id remote)).
Proof.
  unfold disconnect, only_connection, connection_for.
  destruct (by_runner remote !! runner_id) as [cs|] eqn:Hcs.
  - intros [= <- <-]. cbn [made by_runner]. split_and!; [done| |].
    + intros r c. destruct (decide (r = runner_id)) as [->|Hr].
      * rewrite Hcs. case_bool_decide as He; rewrite ?lookup_delete_eq, ?lookup_insert_eq; simpl;
          case_decide as Hc.
        -- done.
        -- apply (f_equal (.!! c)) in He. by rewrite lookup_delete_ne, lookup_empty in He by naive_solver.
        -- destruct Hc as [_ ->]. by rewrite lookup_delete_eq.
        -- by rewrite lookup_delete_ne by naive_solver.
      * rewrite (decide_False (P := _ ∧ _)) by naive_solver.
        case_bool_decide; by rewrite ?lookup_delete_ne, ?lookup_insert_ne.
    + simpl. by rewrite bool_decide_eq_true.
  - intros [= <- <-]. split_and!; [done| |by split; [|intros []]].
    intros r c. case_decide as Hd; [|done]. destruct Hd as [-> _]. by rewrite Hcs.
Qed.

Lemma insert_connection_spec id runner_id a remote :
  only_connection runner_id id (Some a) remote (insert_connection id runner_id a remote).
Proof.
  intros r c. unfold connection_for, insert_connection. cbn [by_runner].
  destruct (decide (r = runner_id)) as [->|Hr].
  - rewrite lookup_insert_eq. simpl. destruct (decide (c = id)) as [->|Hc].
    + by rewrite lookup_insert_eq, decide_True.
    + rewrite lookup_insert_ne, decide_False by naive_solver.
      by destruct (by_runner remote !! runner_id).
  - by rewrite lookup_insert_ne, decide_False by naive_solver.
Qed.

Section locked.
Context (world : RemoteWorld) (now : Z) (uuid : Uuid) (name : string).

Lemma register_outcome runner_id service_name release_hash endpoint proof s remote s' response :
  register_runner now name runner_id service_name release_hash endpoint proof s = (s', response) →
  channels s' = channels s ∧ control_outcome world now uuid name
    (RegisterRunner runner_id service_name release_hash endpoint proof) response s remote s' remote.
Proof.
  intros [(e & -> & ? & ?)|(source & Hs & Hp & Hk)]%with_source_inv; [by split; [|apply refused_outcome]|].
  destruct (bool_decide_reflect (name = service_name)), (bool_decide_reflect (rs_release_hash source = release_hash)),
    (bool_decide_reflect (rs_runner_endpoint source = endpoint)); simplify_eq/=;
    (split; [done|]); (by apply refused_outcome) || (right; by exists source).
Qed.

Lemma resolve_target_outcome runner_id proof target_service wit s remote s' response :
  resolve_invocation_target now uuid name runner_id proof target_service wit s = (s', response) →
  channels s' = channels s ∧ control_outcome world now uuid name
    (ResolveInvocationTarget runner_id proof target_service wit) response s remote s' remote.
Proof.
  intros [(e & -> & ? & ?)|(source & Hs & Hp & Hk)]%with_source_inv; [by split; [|apply refused_outcome]|].
  destruct (is_binding_allowed _ _ _) eqn:Hb; simplify_eq/=; [|by split; [|apply refused_outcome]].
  destruct (inner s !! target_service) as [target|] eqn:Ht; simplify_eq/=; [|by split; [|apply refused_outcome]].
  destruct (rs_is_ready target) eqn:Hr; simplify_eq/=; [|by split; [|apply refused_outcome]].
  destruct (issue_invocation_token _ _) as [token|] eqn:Hi; simplify_eq/=; [|by split; [|apply refused_outcome]].
  split; [done|]. right. exists source. split_and!; [done|done|].
  split_and!; [done|done|by apply is_binding_allowed_In|]. exists target. split_and!; [done..|]. intros at_ Hat Hlen. by apply issue_verify.
Qed.

Lemma connect_outcome runner_id proof authority s remote s' remote' response :
  rpc_connect_remote world uuid name runner_id proof authority s remote = (s', remote', response) →
  channels s' = channels s ∧ control_outcome world now uuid name
    (RpcConnectRemote runner_id proof authority) response s remote s' remote'.
Proof.
  unfold rpc_connect_remote. destruct (with_source _ _ _ _ _ _) as [t r] eqn:E.
  apply with_source_inv in E as [(e & -> & ? & ?)|(source & Hs & Hp & [= <- <-])]; intros Hc.
  { injection Hc as <- <- <-. by split; [|apply refused_outcome]. }
  destruct (rw_probe _ _ _) as [a|err] eqn:Hw; simplify_eq; (split; [done|]); right; exists source;
    (split_and!; [done..|]); simpl; rewrite Hw; [|by eauto].
  split_and!; [done..|]. exists a. split; [done|]. apply (insert_connection_spec _ _ _ (called _ remote)).
Qed.

Lemma invoke_outcome runner_id proof connection_id target_service interface_id function args
    s remote s' remote' response :
  rpc_invoke_remote world name runner_id proof connection_id target_service interface_id function args
    s remote = (s', remote', response) →
  channels s' = channels s ∧ control_outcome world now uuid name
    (RpcInvokeRemote runner_id proof connection_id target_service interface_id function args)
    response s remote s' remote'.
Proof.
  unfold rpc_invoke_remote. destruct (with_source _ _ _ _ _ _) as [t r] eqn:E.
  apply with_source_inv in E as [(e & -> & ? & ?)|(source & Hs & Hp & Hk)]; intros Hc.
  { injection Hc as <- <- <-. by split; [|apply refused_outcome]. }
  destruct (is_binding_allowed _ _ _) eqn:Hb; simplify_eq/=; [|by split; [|apply refused_outcome]].
  destruct (connection_for _ _ _) as [a|] eqn:Ha; simplify_eq; [|by split; [|apply refused_outcome]].
  destruct (rw_invoke _ _ _ _ _ _ _) as [result|err] eqn:Hw; simplify_eq; (split; [done|]); right;
    exists source; (split_and!; [done..|]); simpl; (split_and!; [done|by apply is_binding_allowed_In|]); exists a; by rewrite Hw.
Qed.

Lemma disconnect_outcome runner_id proof connection_id s remote s' remote' response :
  rpc_disconnect_remote name runner_id proof connection_id s remote = (s', remote', response) →
  channels s' = channels s ∧ control_outcome world now uuid name
    (RpcDisconnectRemote runner_id proof connection_id) response s remote s' remote'.
Proof.
  unfold rpc_disconnect_remote. destruct (with_source _ _ _ _ _ _) as [t r] eqn:E.
  apply with_source_inv in E as [(e & -> & ? & ?)|(source & Hs & Hp & [= <- <-])]; intros Hc.
  { injection Hc as <- <- <-. by split; [|apply refused_outcome]. }
  destruct (disconnect _ _ _) as [r2 removed] eqn:Hd. simplify_eq. split; [done|].
  apply disconnect_spec in Hd as (Hm & Ho & Hr). destruct removed.
  - right. exists source. split_and!; [done..|]. split_and!; [done|done|by apply Hr|done].
  - left. eexists. split_and!; [done|done|done|]. intros x c. rewrite Ho. case_decide as Hx; [|done].
    destruct Hx as [-> ->]. destruct (connection_for runner_id connection_id remote); [|done].
    destruct Hr as [_ Hr]. by discriminate Hr.
Qed.

Lemma locked_outcome request s remote s' remote' response :
  control_locked world now uuid name request s remote = (s', remote', response) →
  channels s' = channels s ∧ control_outcome world now uuid name request response s remote s' remote'.
Proof.
  destruct request; cbn [control_locked];
    [|..|apply connect_outcome|apply invoke_outcome|apply disconnect_outcome].
  - destruct (register_runner _ _ _ _ _ _ _ _) eqn:E. intros [= <- <- <-]. by apply register_outcome.
  - destruct (runner_ready _ _ _ _ _) eqn:E. intros [= <- <- <-].
    apply with_source_inv in E as [(e & -> & ? & ?)|(source & Hs & Hp & Hk)]; [by split; [|apply refused_outcome]|].
    simplify_eq. split; [done|]. right. by exists source.
  - destruct (heartbeat _ _ _ _ _) eqn:E. intros [= <- <- <-].
    apply with_source_inv in E as [(e & -> & ? & ?)|(source & Hs & Hp & Hk)]; [by split; [|apply refused_outcome]|].
    simplify_eq. split; [done|]. right. by exists source.
  - destruct (resolve_invocation_target _ _ _ _ _ _ _ _) eqn:E. intros [= <- <- <-].
    by apply resolve_target_outcome.
Qed.

End locked.

Lemma resolve_keeps runner_id s s' resolved :
  resolve_runner_service_name runner_id s = (s', resolved) →
  inner s' = inner s ∧ channels s' = channels s.
Proof. unfold resolve_runner_service_name. intros H'. by repeat case_match; simplify_eq. Qed.

(** The channels after the answer: a runner that reported itself ready wakes its start. *)
Definition channels_after (request : ControlRequest) (response : ControlResponse) s :
    gset string * gset string * gset string :=
  match request, response with
  | RunnerReady runner_id _, Ack => channels (send_ready runner_id s)
  | _, _ => channels s
  end.

Lemma send_ready_channels runner_id s s' :
  channels s = channels s' → channels (send_ready runner_id s) = channels (send_ready runner_id s').
Proof.
  unfold channels, send_ready. destruct s, s'. cbn. intros [= <- <- <-]. by case_decide.
Qed.

Lemma send_ready_inner runner_id s : inner (send_ready runner_id s) = inner s.
Proof. unfold send_ready. by case_decide. Qed.

Lemma outcome_inner world now uuid name request response s s1 remote s' s1' remote' :
  inner s = inner s1 → inner s' = inner s1' →
  control_outcome world now uuid name request response s remote s' remote' →
  control_outcome world now uuid name request response s1 remote s1' remote'.
Proof.
  unfold control_outcome, permitted. intros <- <- Ho. exact Ho.
Qed.

(** C6 (safety). A control request has an effect only with the proof of the runner it names.
    Whatever the state of the supervisor and whatever service a request was resolved to, either
    it is answered with an error, the services and connections are as before and no other host
    was asked anything; or the runner of that service proved its secret, and then exactly one
    thing happens: the heartbeat of that service is recorded, it becomes ready, a token is
    issued for a bound and ready target, which verifies it as one of the caller for that
    interface, a connection of that runner appears or disappears after one probe, or one call
    is made for a bound interface on a connection that the same runner opened and its answer is
    passed on.  The whole handler wakes the start of a service only after its runner proved that
    it is ready. *)
Theorem control_requests_authorized world now uuid request s remote s' remote' response :
  (∀ name, control_locked world now uuid name request s remote = (s', remote', response) →
     channels s' = channels s ∧
     control_outcome world now uuid name request response s remote s' remote') ∧
  (handle_control_request world now uuid request s remote = (s', remote', response) →
     channels s' = channels_after request response s ∧
     ∃ name, control_outcome world now uuid name request response s remote s' remote').
Proof.
  split; [intros name; apply locked_outcome|]. unfold handle_control_request.
  destruct (resolve_runner_service_name _ s) as [s1 [name|]] eqn:Er; apply resolve_keeps in Er as [Hi Hc].
  - destruct (control_locked _ _ _ _ _ _ _) as [[s2 remote2] response2] eqn:El.
    apply locked_outcome in El as [Hc2 Ho]. intros Hh.
    assert (response2 = response ∧ remote2 = remote' ∧ inner s' = inner s2 ∧
      channels s' = channels_after request response s2) as (-> & -> & Hi' & ->).
    { destruct request, response2; injection Hh as <- <- <-; split_and!; try done; apply send_ready_inner. }
    split.
    + unfold channels_after. rewrite Hc2, Hc. destruct request, response; try done.
      apply send_ready_channels. by rewrite Hc2, Hc.
    + exists name. by eapply outcome_inner; [exact Hi|symmetry; exact Hi'|].
  - intros [= <- <- <-]. split; [by destruct request|]. exists "". by apply refused_outcome.
Qed.

End access.

(** *** An example: a web service bound to a database *)

Definition demo_uuids : Crates := {| sha256_hex := string_of_bytes; uuid_to_string := λ u, pretty u |}.

Definition demo_runner (id secret : string) (bindings : list ServiceBinding) (pid : N) : RunningService :=
  {| rs_release_hash := "r1"; rs_started_at := "1"; rs_status := Running; rs_is_ready := true;
     rs_runner_id := id; rs_runner_endpoint := ("/run/" +:+ id)%string;
     rs_manager_auth_secret := demo_mark (bytes_of secret);
     rs_invocation_secret := demo_mark (bytes_of secret); rs_bindings := bindings; rs_child := pid;
     rs_last_heartbeat_at := "1" |}.

Definition demo_services : Sup unit :=
  set_inner {[ "web" := demo_runner "w1" "wkey"
                 [{| bind_name := "db"; bind_wit := "acme:db/query" |}] 1;
               "db" := demo_runner "d1" "key" [] 2 ]} (new_sup tt).

Definition demo_world : RemoteWorld :=
  {| rw_probe := λ _ _, Err (new_error Internal "net" "unreachable");
     rw_invoke := λ _ _ _ _ _ _, Err (new_error Internal "net" "unreachable") |}.

Definition demo_web_claims : InvocationTokenClaims :=
  {| tc_source_service := "web"; tc_target_service := "db"; tc_wit := "acme:db/query";
     tc_exp := 130; tc_nonce := "7" |}.

Definition demo_web_proof : string :=
  demo_mark (demo_hmac (bytes_of "wkey") (bytes_of "w1")).

Lemma control_requests_authorized_witness :
  let _ := demo_crates demo_web_claims "key" in
  let _ := demo_uuids in
  let request := ResolveInvocationTarget "w1" demo_web_proof "db" "acme:db/query" in
  let response := ResolvedInvocationTarget "/run/d1" (demo_mark (bytes_of "token")) in
  handle_control_request demo_world 100 7%N request demo_services no_remote
    = (upsert_runner_index "w1" "web" demo_services, no_remote, response) ∧
  ∃ name, control_outcome demo_world 100 7%N name request response demo_services no_remote
    (upsert_runner_index "w1" "web" demo_services) no_remote.
Proof.
  cbv zeta. match goal with |- ?A ∧ _ => assert A as Hc by (vm_compute; reflexivity) end.
  split; [exact Hc|].
  exact (proj2 (proj2 (@control_requests_authorized unit _ (demo_crates_laws demo_web_claims "key") demo_uuids
    demo_world 100 7%N _ demo_services no_remote _ _ _) Hc)).
Defined.
