(* ===== verification/SupervisorLts.v ===== *)
(** * Interleavings of the supervisor's tasks

    The asynchronous operations of [service_supervisor.rs] ([start_internal], [stop],
    [replace], [reap_finished]) and of the control socket as tasks.  A step runs one
    lock-held section of one task, or lets the operating system act: a process exits or
    prints.  A task has a queue of sections that need no decision ([action]) and a program
    counter for the rest.  [choice] resolves what the code does not determine: faults of
    system calls, random identifiers, which branch of a [select!] wins.

    Shown: as long as processes that are told to die do so, the supervisor refines a
    machine in which a service has at most one registered runner, a registered runner is
    never overwritten and every live process is either registered or in the hands of exactly
    one task.  When a stop fails while a start is under way, a runner can be lost. *)

From S2P Require Import Prelude Protocol Text LogBuffer IpAddr Ipc Supervisor ManagerControl.

Open Scope Z_scope.

Section lts.
Context {R : Type} `{Retained R, Json, TokenCrates, Crates} (config : SupervisorConfig).

(** ** Tasks *)

Inductive action :=
  | ARemoveIndex (runner_id : string)
  | AUpsertIndex (runner_id service_name : string)
  | ARetain (service_name : string) (pid : N)
  | ADropClosed
  | ARemovePending (runner_id : string)
  | ADropReceiver (runner_id : string)
  | AReleaseStart (service_name : string)
  | AEndStop (service_name : string).

Definition run_action (a : action) (s : Sup R) : Sup R :=
  match a with
  | ARemoveIndex runner_id => remove_runner_index runner_id s
  | AUpsertIndex runner_id service_name => upsert_runner_index runner_id service_name s
  | ARetain service_name pid => retain_composite_snapshot service_name pid s
  | ADropClosed => drop_closed_senders s
  | ARemovePending runner_id => remove_pending runner_id s
  | ADropReceiver runner_id => drop_receiver runner_id s
  | AReleaseStart service_name => release_start service_name s
  | AEndStop service_name => end_stop_service service_name s
  end.

(** Who called [stop]: a client, with its [force] flag, or [replace], which goes on to start
    the launch. *)
Inductive stop_caller :=
  | ByStop (force : bool)
  | ByReplace (launch : ServiceLaunch).
Definition forced (next : stop_caller) : bool :=
  match next with ByStop force => force | ByReplace _ => false end.

(** Program counters: of [start_internal], with the flag that asks for log details; of
    [stop]; of [reap_finished]; of one control request. *)
Inductive pc :=
  | StReap (launch : ServiceLaunch) (details : bool)
  | StReserve (launch : ServiceLaunch) (details : bool)
  | StReapAgain (launch : ServiceLaunch) (details : bool)
  | StCheck (launch : ServiceLaunch) (details : bool)
  | StPrepare (launch : ServiceLaunch) (details : bool)
  | StSpawn (launch : ServiceLaunch) (details : bool) (b : RunnerBootstrap)
  | StInsert (launch : ServiceLaunch) (details : bool) (service : RunningService)
  | StBootstrap (launch : ServiceLaunch) (details : bool) (runner_id : string) (pid : N)
  | StWait (launch : ServiceLaunch) (details : bool) (runner_id : string) (pid : N)
  | StCleanup (launch : ServiceLaunch) (runner_id : string) (err : ImagodError)
  | StKill (launch : ServiceLaunch) (runner_id : string) (service : RunningService) (err : ImagodError)
  | SpBegin (name : string) (next : stop_caller)
  | SpTake (name : string) (next : stop_caller)
  | SpTry (name : string) (next : stop_caller) (service : RunningService)
  | SpWork (name : string) (next : stop_caller) (service : RunningService)
  | SpRestore (name : string) (next : stop_caller) (service : RunningService)
      (err : ImagodError)
  | SpReinsert (name : string) (next : stop_caller) (service : RunningService)
      (err : ImagodError)
  | SpDisplaced (name : string) (next : stop_caller) (service : RunningService)
      (err : ImagodError)
  | RpAll
  | CtResolve (request : ControlRequest)
  | CtLocked (request : ControlRequest) (name : string)
  | CtSend (runner_id : string)
  | Done (outcome : iresult unit).

Record task := { t_actions : list action; t_pc : pc }.

Record world := {
  w_sup : Sup R;
  w_conns : Remote;
  w_tasks : gmap N task;
}.

(** What the operating system answers to [kill_and_wait]: the process dies and is waited for,
    the wait fails, or the signal cannot be sent, with the fault of the check that follows. *)
Inductive KillIo :=
  | Killed
  | KillWaitFailed (message : string)
  | KillSignalFailed (message : string) (check : option string).

(** What happens while [stop] works: the grace period is over when the shutdown request
    returns, the wait for the process ([None] when it times out), the kill. *)
Record StopIo := {
  io_expired : bool;
  io_wait : option (result string unit);
  io_kill : KillIo;
}.

(** [None] is the branch without fault. *)
Inductive choice :=
  | CTryWait (fault : bool)
  | CIds (runner_id manager_auth_secret invocation_secret : string)
  | CSpawn (outcome : result string N) (now : Z)
  | CWrite (encode write : option string)
  | CReady
  | CExited (fault : bool)
  | CTimeout
  | CStop (io : StopIo)
  | CKill (died : bool)
  | CKillWait (io : KillIo)
  | CReap (faults : gset string)
  | CControl (rw : RemoteWorld) (now : Z) (uuid : Uuid)
  | CGo.

(** ** Steps *)

(** The tail of [reap_finished_service] for a removed runner. *)
Definition reaped (name : string) (taken : option RunningService) : list action :=
  match taken with
  | Some service => [ARemoveIndex (rs_runner_id service); ARetain name (rs_child service); ADropClosed]
  | None => []
  end.

(** The result of [stop]; [replace] goes on when the service is stopped or was not running. *)
Definition stopped (next : stop_caller) (outcome : iresult unit) : pc :=
  match next with
  | ByStop _ => Done outcome
  | ByReplace launch =>
    match outcome with
    | Ok _ => StReap launch true
    | Err err => if decide (err_code err = NotFound) then StReap launch true else Done (Err err)
    end
  end.

Definition start_failed (details : bool) (pid : N) (s : Sup R) (err : ImagodError) : ImagodError :=
  attach_start_failure_wasm_log_details err details (log_of pid s).

Definition fault_result (fault : option string) : iresult unit :=
  match fault with
  | None => Ok tt
  | Some message => Err (new_error Internal STAGE_START message)
  end.

(** [write_bootstrap_to_running_service]; [encode] and [write] are the messages of the
    encoder and of the pipe. *)
Definition write_bootstrap (name : string) (encode write : option string) (s : Sup R)
    : Sup R * iresult unit :=
  match fault_result encode with
  | Err e => (s, Err e)
  | Ok _ =>
    let '(s, taken) := take_stdin name s in
    (s, _ ← taken; fault_result write)
  end.

(** [wait_for_runner_ready]: the branch that wins, when it is enabled. *)
Definition ready_outcome (name runner_id : string) (c : choice) (s : Sup R) : option (iresult unit) :=
  let closed := Err (runner_ready_channel_closed_error runner_id) in
  match c with
  | CReady =>
    if decide (runner_id ∈ ready_sent s) then Some (Ok tt)
    else if decide (runner_id ∈ pending_ready s) then None else Some closed
  | CExited fault =>
    if runner_exited fault name s
    then Some (Err (new_error Internal STAGE_START (quoted_service name "exited before ready")))
    else None
  | CTimeout =>
    Some (if decide (runner_id ∈ ready_sent s) then Ok tt
          else if decide (runner_id ∈ pending_ready s)
          then Err (new_error OperationTimeout STAGE_START
                      (quoted_service name "did not send runner_ready in time"))
          else closed)
  | _ => None
  end.

(** The end of [start_internal]. *)
Definition start_over (name runner_id : string) (outcome : iresult unit) : task :=
  {| t_actions := [ADropReceiver runner_id; AReleaseStart name]; t_pc := Done outcome |}.

(** [kill_and_wait]: when the signal cannot be sent, a process that is gone is as good. *)
Definition kill_and_wait (io : KillIo) (pid : N) (s : Sup R) : Sup R * iresult unit :=
  match io with
  | Killed => (exit_child pid s, Ok tt)
  | KillWaitFailed e =>
    (s, Err (new_error Internal STAGE_STOP ("failed to wait killed runner: " +:+ e)))
  | KillSignalFailed e None =>
    (s, if has_exited pid s then Ok tt
        else Err (new_error Internal STAGE_STOP ("failed to signal runner kill: " +:+ e)))
  | KillSignalFailed e (Some wait_err) =>
    (s, Err (new_error Internal STAGE_STOP
               ("failed to signal runner kill: " +:+ e +:+
                "; failed to check child state: " +:+ wait_err)))
  end.

(** [stop_result] of [stop].  The answer to the shutdown request is only logged. *)
Definition stop_result (force : bool) (io : StopIo) (pid : N) (s : Sup R)
    : Sup R * iresult unit :=
  if force || io_expired io then kill_and_wait (io_kill io) pid s
  else
    match io_wait io with
    | None => kill_and_wait (io_kill io) pid s
    | Some (Ok _) => (exit_child pid s, Ok tt)
    | Some (Err e) => (s, Err (new_error Internal STAGE_STOP ("runner wait failed: " +:+ e)))
    end.

Definition at_pc (p : pc) : task := {| t_actions := []; t_pc := p |}.

Definition pid_fresh (pid : N) (s : Sup R) : bool := bool_decide (children s !! pid = None).

Definition add_child (pid : N) (s : Sup R) : Sup R :=
  set_logs (<[pid := new_buffer (sc_runner_log_buffer_bytes config)]> (logs s))
    (set_children (<[pid := {| ch_exited := false; ch_stdin := true |}]> (children s)) s).

(** One section of [start_internal]. *)
Definition start_step (p : pc) (c : choice) (s : Sup R) : option (Sup R * task) :=
  match p, c with
  | StReap launch details, CTryWait fault =>
    let '(s, taken) := take_finished fault (sl_name launch) s in
    Some (s, {| t_actions := reaped (sl_name launch) taken; t_pc := StReserve launch details |})
  | StReserve launch details, CGo =>
    let '(s, reserved) := reserve_start (sl_name launch) s in
    Some (s, at_pc match reserved with
                   | Ok _ => StReapAgain launch details
                   | Err e => Done (Err e)
                   end)
  | StReapAgain launch details, CTryWait fault =>
    let '(s, taken) := take_finished fault (sl_name launch) s in
    Some (s, {| t_actions := reaped (sl_name launch) taken; t_pc := StCheck launch details |})
  | StCheck launch details, CGo =>
    Some (s, if decide (is_Some (inner s !! sl_name launch))
             then {| t_actions := [AReleaseStart (sl_name launch)];
                     t_pc := Done (Err (start_busy_error (sl_name launch))) |}
             else at_pc (StPrepare launch details))
  | StPrepare launch details, CIds runner_id manager_auth_secret invocation_secret =>
    Some match effective_http_worker_queue_capacity config launch with
         | Err e => (s, {| t_actions := [AReleaseStart (sl_name launch)]; t_pc := Done (Err e) |})
         | Ok capacity =>
           (open_channel runner_id s,
            at_pc (StSpawn launch details
              (make_bootstrap config launch capacity runner_id manager_auth_secret
                 invocation_secret)))
         end
  | StSpawn launch details b, CSpawn (Err e) _ =>
    Some (s, {| t_actions := [ARemovePending (rb_runner_id b); ADropReceiver (rb_runner_id b);
                              AReleaseStart (sl_name launch)];
                t_pc := Done (Err (new_error Internal STAGE_START e)) |})
  | StSpawn launch details b, CSpawn (Ok pid) now =>
    if pid_fresh pid s
    then Some (add_child pid s, at_pc (StInsert launch details (running_service launch b pid now)))
    else None
  | StInsert launch details service, CGo =>
    Some (set_inner (<[sl_name launch := service]> (inner s)) s,
          {| t_actions := [AUpsertIndex (rs_runner_id service) (sl_name launch)];
             t_pc := StBootstrap launch details (rs_runner_id service) (rs_child service) |})
  | StBootstrap launch details runner_id pid, CWrite encode write =>
    let '(s, written) := write_bootstrap (sl_name launch) encode write s in
    Some (s, match written with
             | Ok _ => at_pc (StWait launch details runner_id pid)
             | Err e => {| t_actions := [ARemovePending runner_id];
                           t_pc := StCleanup launch runner_id (start_failed details pid s e) |}
             end)
  | StWait launch details runner_id pid, _ =>
    outcome ← ready_outcome (sl_name launch) runner_id c s;
    Some (s, match outcome with
             | Ok _ =>
               {| t_actions := [ARemovePending runner_id; ADropReceiver runner_id;
                                AReleaseStart (sl_name launch)];
                  t_pc := Done (Ok tt) |}
             | Err e =>
               {| t_actions := [ARemovePending runner_id];
                  t_pc := StCleanup launch runner_id (start_failed details pid s e) |}
             end)
  | StCleanup launch runner_id err, CGo =>
    let '(s, removed) := remove_running (sl_name launch) s in
    Some (s, match removed with
             | Some service => {| t_actions := [ARemoveIndex (rs_runner_id service)];
                                  t_pc := StKill launch runner_id service err |}
             | None => start_over (sl_name launch) runner_id (Err err)
             end)
  | StKill launch runner_id service err, CKill died =>
    Some (if died then exit_child (rs_child service) s else s,
          start_over (sl_name launch) runner_id (Err err))
  | _, _ => None
  end.

(** One section of [stop]. *)
Definition stop_step (p : pc) (c : choice) (s : Sup R) : option (Sup R * task) :=
  match p, c with
  | SpBegin name next, CGo => Some (begin_stop_service name s, at_pc (SpTake name next))
  | SpTake name next, CGo =>
    let '(s, removed) := remove_running name s in
    Some (s, match removed with
             | None => {| t_actions := [AEndStop name];
                          t_pc := stopped next (Err (not_running_error STAGE_STOP name)) |}
             | Some service => {| t_actions := [ARemoveIndex (rs_runner_id service)];
                                  t_pc := SpTry name next service |}
             end)
  | SpTry name next service, CTryWait fault =>
    Some (s, if negb fault && has_exited (rs_child service) s
             then {| t_actions := [ARemoveIndex (rs_runner_id service);
                                   ARetain name (rs_child service); AEndStop name];
                     t_pc := stopped next (Err (not_running_error STAGE_STOP name)) |}
             else at_pc (SpWork name next (with_status Stopping service)))
  | SpWork name next service, CStop io =>
    let '(s, outcome) := stop_result (forced next) io (rs_child service) s in
    Some (s, match outcome with
             | Ok _ => {| t_actions := [ARetain name (rs_child service); AEndStop name];
                          t_pc := stopped next (Ok tt) |}
             | Err err => at_pc (SpRestore name next service err)
             end)
  | SpRestore name next service err, CTryWait fault =>
    Some (s, if negb fault && has_exited (rs_child service) s
             then {| t_actions := [AEndStop name]; t_pc := stopped next (Err err) |}
             else at_pc (SpReinsert name next service err))
  | SpReinsert name next service err, CGo =>
    let '(s, displaced) := restore_service name service s in
    Some (s, match displaced with
             | Some service => at_pc (SpDisplaced name next service err)
             | None => {| t_actions := [AUpsertIndex (rs_runner_id service) name; AEndStop name];
                          t_pc := stopped next (Err err) |}
             end)
  | SpDisplaced name next service err, CKillWait io =>
    Some ((kill_and_wait io (rs_child service) s).1,
          {| t_actions := [AEndStop name]; t_pc := stopped next (Err err) |})
  | _, _ => None
  end.

(** [reap_finished]. *)
Definition reap_step (c : choice) (s : Sup R) : option (Sup R * task) :=
  match c with
  | CReap faults =>
    let '(s, finished) := take_all_finished faults (btree_keys (inner s)) s in
    Some (s, {| t_actions := finished ≫= λ '(name, service),
                  [ARemoveIndex (rs_runner_id service); ARetain name (rs_child service)];
                t_pc := Done (Ok tt) |})
  | _ => None
  end.

(** A control request; the response is not kept. *)
Definition control_step (p : pc) (c : choice) (s : Sup R) (conns : Remote)
    : option (Sup R * Remote * task) :=
  match p, c with
  | CtResolve request, CGo =>
    let '(s, resolved) := resolve_runner_service_name (request_runner_id request) s in
    Some (s, conns, at_pc match resolved with
                          | Some name => CtLocked request name
                          | None => Done (Ok tt)
                          end)
  | CtLocked request name, CControl rw now uuid =>
    let '(s, conns, response) := control_locked rw now uuid name request s conns in
    Some (s, conns, at_pc match request, response with
                          | RunnerReady runner_id _, Ack => CtSend runner_id
                          | _, _ => Done (Ok tt)
                          end)
  | CtSend runner_id, CGo => Some (send_ready runner_id s, conns, at_pc (Done (Ok tt)))
  | _, _ => None
  end.

Definition is_control (p : pc) : bool :=
  match p with CtResolve _ | CtLocked _ _ | CtSend _ => true | _ => false end.

(** One section of a task whose queue is empty. *)
Definition pc_step (p : pc) (c : choice) (s : Sup R) (conns : Remote)
    : option (Sup R * Remote * task) :=
  if is_control p then control_step p c s conns
  else
    '(s, t) ← match p with
              | RpAll => reap_step c s
              | SpBegin _ _ | SpTake _ _ | SpTry _ _ _ | SpWork _ _ _ | SpRestore _ _ _ _
              | SpReinsert _ _ _ _ | SpDisplaced _ _ _ _ => stop_step p c s
              | _ => start_step p c s
              end;
    Some (s, conns, t).

Inductive label :=
  | LStart (t : N) (launch : ServiceLaunch)
  | LStop (t : N) (name : string) (force : bool)
  | LReplace (t : N) (launch : ServiceLaunch)
  | LReapAll (t : N)
  | LControl (t : N) (request : ControlRequest)
  | LRun (t : N) (c : choice)
  | LExit (pid : N)
  | LOutput (pid : N) (event : ServiceLogEvent).

Definition spawn_task (t : N) (p : pc) (w : world) : option world :=
  match w_tasks w !! t with
  | Some _ => None
  | None => Some {| w_sup := w_sup w; w_conns := w_conns w;
                    w_tasks := <[t := at_pc p]> (w_tasks w) |}
  end.

Definition with_sup (s : Sup R) (w : world) : world :=
  {| w_sup := s; w_conns := w_conns w; w_tasks := w_tasks w |}.

Definition step (l : label) (w : world) : option world :=
  match l with
  | LStart t launch => spawn_task t (StReap launch false) w
  | LStop t name force => spawn_task t (SpBegin name (ByStop force)) w
  | LReplace t launch => spawn_task t (SpBegin (sl_name launch) (ByReplace launch)) w
  | LReapAll t => spawn_task t RpAll w
  | LControl t request => spawn_task t (CtResolve request) w
  | LRun t c =>
    tk ← w_tasks w !! t;
    match t_actions tk with
    | a :: rest =>
      Some {| w_sup := run_action a (w_sup w); w_conns := w_conns w;
              w_tasks := <[t := {| t_actions := rest; t_pc := t_pc tk |}]> (w_tasks w) |}
    | [] =>
      '(s, conns, tk) ← pc_step (t_pc tk) c (w_sup w) (w_conns w);
      Some {| w_sup := s; w_conns := conns; w_tasks := <[t := tk]> (w_tasks w) |}
    end
  | LExit pid => Some (with_sup (exit_child pid (w_sup w)) w)
  | LOutput pid event =>
    Some (with_sup (set_logs (alter (push_event event) pid (logs (w_sup w))) (w_sup w)) w)
  end.

(** [stop_all] spawns a stop of every registered service; the errors it reports are those of
    the stops that did not find their service gone, and of the stops that could not be
    joined. *)
Definition stop_all (force : bool) (ids : list N) (w : world) : option world :=
  let names := btree_keys (inner (w_sup w)) in
  if decide (length ids = length names)
  then foldl (λ ow '(t, name), w ← ow; step (LStop t name force) w) (Some w) (zip ids names)
  else None.
Definition stop_all_errors (joined : list (result string (string * iresult unit)))
    : list (string * ImagodError) :=
  omap (λ r,
    match r with
    | Ok (_, Ok _) => None
    | Ok (name, Err err) => if decide (err_code err = NotFound) then None else Some (name, err)
    | Err e => Some ("<unknown>", new_error Internal STAGE_STOP ("stop_all task join failed: " +:+ e))
    end) joined.

Definition run (ls : list label) (w : world) : option world :=
  foldl (λ ow l, w ← ow; step l w) (Some w) ls.

Definition initial (retained : R) : world :=
  {| w_sup := new_sup retained; w_conns := no_remote; w_tasks := ∅ |}.

(** ** Specification: who owns a process

    A service has at most one registered process; a task holds at most one; a process that
    leaves the books is dead. *)

Record owners := {
  o_registered : gmap string N;
  o_held : gmap N N;
  o_live : gset N;
  o_known : gset N;
}.

Inductive owner_step : owners → owners → Prop :=
  | os_exit o pid :
      owner_step o {| o_registered := o_registered o; o_held := o_held o;
                      o_live := o_live o ∖ {[ pid ]}; o_known := o_known o |}
  | os_spawn o t pid :
      pid ∉ o_known o → o_held o !! t = None →
      owner_step o {| o_registered := o_registered o; o_held := <[t := pid]> (o_held o);
                      o_live := {[ pid ]} ∪ o_live o; o_known := {[ pid ]} ∪ o_known o |}
  | os_register o t name pid :
      o_held o !! t = Some pid → o_registered o !! name = None →
      owner_step o {| o_registered := <[name := pid]> (o_registered o);
                      o_held := delete t (o_held o); o_live := o_live o; o_known := o_known o |}
  | os_take o t name pid :
      o_registered o !! name = Some pid → o_held o !! t = None →
      owner_step o {| o_registered := delete name (o_registered o);
                      o_held := <[t := pid]> (o_held o); o_live := o_live o; o_known := o_known o |}
  | os_forget o name pid :
      o_registered o !! name = Some pid → pid ∉ o_live o →
      owner_step o {| o_registered := delete name (o_registered o); o_held := o_held o;
                      o_live := o_live o; o_known := o_known o |}
  | os_release o t pid :
      o_held o !! t = Some pid → pid ∉ o_live o →
      owner_step o {| o_registered := o_registered o; o_held := delete t (o_held o);
                      o_live := o_live o; o_known := o_known o |}.

(** The process a task holds: spawned and not yet registered, or removed and not yet known
    to be gone. *)
Definition held (p : pc) : option N :=
  match p with
  | StInsert _ _ service | StKill _ _ service _ | SpTry _ _ service | SpWork _ _ service
  | SpRestore _ _ service _ | SpReinsert _ _ service _ | SpDisplaced _ _ service _ =>
    Some (rs_child service)
  | _ => None
  end.

Definition live_children (s : Sup R) : gset N :=
  dom (filter (λ '(_, c), ch_exited c = false) (children s)).

Definition own (s : Sup R) (hs : gmap N N) : owners :=
  {| o_registered := rs_child <$> inner s; o_held := hs; o_live := live_children s;
     o_known := dom (children s) |}.

Definition owners_of (w : world) : owners :=
  own (w_sup w) (omap (λ tk, held (t_pc tk)) (w_tasks w)).

(** A label under which a process told to die does so, and waiting for it works. *)
Definition stop_works (io : StopIo) : Prop :=
  io_kill io = Killed ∧ match io_wait io with Some (Err _) => False | _ => True end.
Definition calm (l : label) : Prop :=
  match l with
  | LRun _ (CStop io) => stop_works io
  | LRun _ (CKill false) => False
  | _ => True
  end.

(** ** Reservations *)

(** The service whose start a task has reserved: until the last action of its queue. *)
Definition reserving (p : pc) : option string :=
  match p with
  | StReapAgain launch _ | StCheck launch _ | StPrepare launch _ | StSpawn launch _ _
  | StInsert launch _ _ | StBootstrap launch _ _ _ | StWait launch _ _ _ | StCleanup launch _ _
  | StKill launch _ _ _ => Some (sl_name launch)
  | _ => None
  end.

Definition releasing (acts : list action) : option string :=
  match last acts with Some (AReleaseStart name) => Some name | _ => None end.

Definition reserves (tk : task) : option string :=
  match reserving (t_pc tk) with Some name => Some name | None => releasing (t_actions tk) end.

(** A release is the last action of its queue. *)
Fixpoint queue_ok (acts : list action) : Prop :=
  match acts with
  | [] => True
  | AReleaseStart _ :: rest => rest = []
  | _ :: rest => queue_ok rest
  end.

(** Between the check that the service is not running and the insertion. *)
Definition inserting (p : pc) : option string :=
  match p with
  | StPrepare launch _ | StSpawn launch _ _ | StInsert launch _ _ => Some (sl_name launch)
  | _ => None
  end.

Definition restoring (p : pc) : bool :=
  match p with SpRestore _ _ _ _ | SpReinsert _ _ _ _ | SpDisplaced _ _ _ _ => true | _ => false end.

(** What a task satisfies by itself. *)
Record task_ok (s : Sup R) (tk : task) : Prop := {
  tk_queue : queue_ok (t_actions tk);
  tk_release : is_Some (reserving (t_pc tk)) → releasing (t_actions tk) = None;
  tk_reserved name : reserves tk = Some name → name ∈ starting_services s;
  tk_vacant name : inserting (t_pc tk) = Some name → inner s !! name = None;
  tk_calm : restoring (t_pc tk) = false;
}.

Record inv (w : world) : Prop := {
  inv_tasks t tk : w_tasks w !! t = Some tk → task_ok (w_sup w) tk;
  inv_unique t1 t2 tk1 tk2 name :
    w_tasks w !! t1 = Some tk1 → w_tasks w !! t2 = Some tk2 →
    reserves tk1 = Some name → reserves tk2 = Some name → t1 = t2;
}.

(** ** Effects of the sections *)

(** The owners are untouched. *)
Record same_owners (s s' : Sup R) : Prop := {
  so_inner name : rs_child <$> inner s' !! name = rs_child <$> inner s !! name;
  so_children : children s' = children s;
}.

Lemma same_owners_refl s : same_owners s s.
Proof. done. Qed.

Lemma run_action_effect a s :
  same_owners s (run_action a s) ∧ inner (run_action a s) = inner s ∧
  starting_services (run_action a s) =
    match a with AReleaseStart name => starting_services s ∖ {[ name ]} | _ => starting_services s end.
Proof. by destruct a. Qed.

Lemma resolve_effect runner_id s :
  let s' := (resolve_runner_service_name runner_id s).1 in
  same_owners s s' ∧ starting_services s' = starting_services s.
Proof.
  unfold resolve_runner_service_name. cbv zeta. repeat (case_match; simplify_eq/=; try done).
Qed.

Lemma same_inner s s' : inner s' = inner s → children s' = children s → same_owners s s'.
Proof. intros Hi Hc. split; [by intros; rewrite Hi|done]. Qed.

Lemma update_heartbeat name service ready at_ s :
  inner s !! name = Some service →
  same_owners s (update_service name (with_heartbeat ready at_ service) s) ∧
  starting_services (update_service name (with_heartbeat ready at_ service) s) = starting_services s.
Proof.
  intros Hs. split; [|done]. split; [|done]. intros n. simpl.
  destruct (decide (n = name)) as [->|]; [by rewrite lookup_insert_eq, Hs|by rewrite lookup_insert_ne].
Qed.

Lemma with_source_effect missing runner_id proof name k s :
  (∀ service, inner s !! name = Some service →
     same_owners s (k service).1 ∧ starting_services (k service).1 = starting_services s) →
  same_owners s (with_source missing runner_id proof name k s).1 ∧
  starting_services (with_source missing runner_id proof name k s).1 = starting_services s.
Proof.
  intros Hk. unfold with_source. destruct (inner s !! name) as [service|] eqn:Hs; [|done].
  case_bool_decide; simpl; [|done]. destruct (validate_manager_auth _ _ _); [by apply Hk|done].
Qed.

Lemma source_checked missing runner_id proof name (k : RunningService → Sup R * ControlResponse) s :
  (∀ service, (k service).1 = s) →
  same_owners s (with_source missing runner_id proof name k s).1 ∧
  starting_services (with_source missing runner_id proof name k s).1 = starting_services s.
Proof. intros Hk. apply with_source_effect. intros service _. by rewrite Hk. Qed.

Lemma control_locked_effect rw now uuid name request s conns :
  let s' := (control_locked rw now uuid name request s conns).1.1 in
  same_owners s s' ∧ starting_services s' = starting_services s.
Proof.
  cbv zeta. assert (∀ x : Sup R * ControlResponse,
    (let '(s, response) := x in (s, conns, response)).1.1 = x.1) as Hl by by intros [].
  destruct request; cbn [control_locked]; rewrite ?Hl.
  - apply with_source_effect. intros service Hs. repeat case_match; simpl; try done.
    by apply update_heartbeat.
  - apply with_source_effect. intros service Hs. by apply update_heartbeat.
  - apply with_source_effect. intros service Hs. by apply update_heartbeat.
  - apply source_checked. intros service. by repeat case_match.
  - unfold rpc_connect_remote. destruct (with_source _ _ _ _ _ _) as [s' r] eqn:E.
    assert (same_owners s s' ∧ starting_services s' = starting_services s) as Heff.
    { replace s' with (with_source SOURCE_MISSING runner_id manager_auth_proof name
        (λ _, (s, Ack)) s).1 by by rewrite E. by apply source_checked. }
    by repeat case_match.
  - unfold rpc_invoke_remote. destruct (with_source _ _ _ _ _ _) as [s' r] eqn:E.
    assert (same_owners s s' ∧ starting_services s' = starting_services s) as Heff.
    { match type of E with ?x = _ => replace s' with x.1 by by rewrite E end.
      apply source_checked. intros. by case_match. }
    by repeat case_match.
  - unfold rpc_disconnect_remote. destruct (with_source _ _ _ _ _ _) as [s' r] eqn:E.
    assert (same_owners s s' ∧ starting_services s' = starting_services s) as Heff.
    { match type of E with ?x = _ => replace s' with x.1 by by rewrite E end.
      by apply source_checked. }
    by repeat case_match.
Qed.

(** *** Owners of a state *)

Lemma owners_eq o o' :
  o_registered o = o_registered o' → o_held o = o_held o' → o_live o = o_live o' →
  o_known o = o_known o' → o = o'.
Proof. destruct o, o'. simpl. by intros -> -> -> ->. Qed.

Lemma own_same s s' hs : same_owners s s' → own s' hs = own s hs.
Proof.
  intros [Hi Hc]. apply owners_eq; simpl; [|done|by unfold live_children; rewrite Hc|by rewrite Hc].
  apply map_eq. intros n. by rewrite !lookup_fmap, Hi.
Qed.

Lemma elem_of_live pid s : pid ∈ live_children s ↔ ∃ c, children s !! pid = Some c ∧ ch_exited c = false.
Proof.
  unfold live_children. rewrite elem_of_dom. split.
  - intros [c (Hc & He)%map_lookup_filter_Some]. eauto.
  - intros (c & Hc & He). exists c. by apply map_lookup_filter_Some.
Qed.

Lemma exited_not_live pid s : has_exited pid s = true → pid ∉ live_children s.
Proof. unfold has_exited. rewrite elem_of_live. intros He (c & Hc & Hn). rewrite Hc in He. congruence. Qed.

Lemma own_exit pid s hs :
  own (exit_child pid s) hs =
    {| o_registered := o_registered (own s hs); o_held := hs;
       o_live := live_children s ∖ {[ pid ]}; o_known := dom (children s) |}.
Proof.
  apply owners_eq; simpl; [done|done| |].
  - apply set_eq. intros q. rewrite elem_of_difference, elem_of_singleton, !elem_of_live. simpl.
    destruct (decide (q = pid)) as [->|Hne].
    + rewrite lookup_alter_eq. split; [|naive_solver].
      intros (c & (c0 & _ & ->)%fmap_Some & He). done.
    + rewrite lookup_alter_ne by done. naive_solver.
  - by rewrite dom_alter_L.
Qed.

Lemma own_delete name s hs :
  own (set_inner (delete name (inner s)) s) hs =
    {| o_registered := delete name (o_registered (own s hs)); o_held := hs;
       o_live := live_children s; o_known := dom (children s) |}.
Proof. apply owners_eq; simpl; [by rewrite fmap_delete|done..]. Qed.

Lemma own_insert name service s hs :
  own (set_inner (<[name := service]> (inner s)) s) hs =
    {| o_registered := <[name := rs_child service]> (o_registered (own s hs)); o_held := hs;
       o_live := live_children s; o_known := dom (children s) |}.
Proof. apply owners_eq; simpl; [by rewrite fmap_insert|done..]. Qed.

Lemma own_delete_absent name s hs :
  inner s !! name = None → own (set_inner (delete name (inner s)) s) hs = own s hs.
Proof. intros Hn. apply own_same, same_inner; [by apply delete_id|done]. Qed.

(** *** Removing finished runners *)

Lemma take_finished_effect fault name s :
  let '(s', taken) := take_finished fault name s in
  children s' = children s ∧ starting_services s' = starting_services s ∧
  (∀ n, inner s !! n = None → inner s' !! n = None) ∧
  ∀ hs, rtc owner_step (own s hs) (own s' hs).
Proof.
  unfold take_finished. destruct (inner s !! name) as [service|] eqn:Hs; [|by split_and!].
  destruct (negb fault && has_exited (rs_child service) s) eqn:Hf; [|by split_and!].
  apply andb_true_iff in Hf as [_ He].
  split_and!; [done|done|intros n Hn; simpl; by apply lookup_delete_None; right|].
  intros hs. rewrite own_delete. apply rtc_once.
  apply (os_forget (own s hs) name (rs_child service));
    [simpl; by rewrite lookup_fmap, Hs|by apply exited_not_live].
Qed.

Lemma take_all_finished_effect faults names : ∀ s,
  let '(s', finished) := take_all_finished faults names s in
  children s' = children s ∧ starting_services s' = starting_services s ∧
  (∀ n, inner s !! n = None → inner s' !! n = None) ∧
  ∀ hs, rtc owner_step (own s hs) (own s' hs).
Proof.
  induction names as [|name names IH]; intros s; simpl; [by split_and!|].
  pose proof (take_finished_effect (bool_decide (name ∈ faults)) name s) as Hone.
  destruct (take_finished _ name s) as [s1 taken]. specialize (IH s1).
  destruct (take_all_finished faults names s1) as [s2 finished].
  destruct Hone as (Hc1 & Hs1 & Hi1 & Hr1), IH as (Hc2 & Hs2 & Hi2 & Hr2).
  split_and!; [congruence|congruence|auto|]. intros hs.
  etrans; [apply Hr1|apply Hr2].
Qed.

(** *** One section of a task *)

(** The processes the tasks hold once task [t] holds [o]. *)
Definition hold (t : N) (o : option N) (hs : gmap N N) : gmap N N :=
  match o with Some pid => <[t := pid]> hs | None => delete t hs end.

Lemma held_insert t tk (tasks : gmap N task) :
  omap (λ tk, held (t_pc tk)) (<[t := tk]> tasks) =
    hold t (held (t_pc tk)) (omap (λ tk, held (t_pc tk)) tasks).
Proof.
  unfold hold. destruct (held (t_pc tk)) eqn:Hh.
  - by rewrite omap_insert_Some with (y := n).
  - by rewrite omap_insert_None.
Qed.

Lemma hold_same t hs : hold t (hs !! t) hs = hs.
Proof. unfold hold. destruct (hs !! t) eqn:E; [by rewrite insert_id|by rewrite delete_id]. Qed.

(** What a section does: it moves the owners, keeps services unregistered except by the
    insertion of a start, and changes the reservations only when it makes one. *)
Record section (t : N) (p : pc) (s s' : Sup R) (tk : task) : Prop := {
  sec_owners hs : hs !! t = held p → (∀ name, inserting p = Some name → inner s !! name = None) →
    rtc owner_step (own s hs) (own s' (hold t (held (t_pc tk)) hs));
  sec_inner name : inner s !! name = None →
    inner s' !! name = None ∨ inserting p = Some name;
  sec_starting : starting_services s' = starting_services s ∧
      (reserves tk = reserving p ∨ reserves tk = None) ∨
    ∃ name, name ∉ starting_services s ∧ reserves tk = Some name ∧ reserving p = None ∧
      starting_services s' = {[ name ]} ∪ starting_services s;
  sec_queue : queue_ok (t_actions tk);
  sec_release : is_Some (reserving (t_pc tk)) → releasing (t_actions tk) = None;
  sec_vacant name : inserting (t_pc tk) = Some name →
    (∀ name, inserting p = Some name → inner s !! name = None) → inner s' !! name = None;
  sec_calm : restoring (t_pc tk) = false;
}.

(** A section that leaves the owners alone. *)
Lemma section_quiet t p s s' tk :
  same_owners s s' → held (t_pc tk) = held p → starting_services s' = starting_services s →
  (reserves tk = reserving p ∨ reserves tk = None) →
  queue_ok (t_actions tk) → (is_Some (reserving (t_pc tk)) → releasing (t_actions tk) = None) →
  (inserting (t_pc tk) = inserting p ∨ inserting (t_pc tk) = None) → restoring (t_pc tk) = false →
  section t p s s' tk.
Proof.
  intros Hso Hh Hst Hres Hq Hrel Hins Hcalm.
  assert (∀ name, inner s !! name = None → inner s' !! name = None) as Hinner.
  { intros name Hn. pose proof (so_inner _ _ Hso name) as E. rewrite Hn in E.
    by apply fmap_None in E. }
  split; [|naive_solver|by left|done|done| |done].
  - intros hs Hhs _. rewrite Hh, <-Hhs, hold_same. by rewrite (own_same s s').
  - intros name Hn Hp. apply Hinner, Hp. destruct Hins as [<-|E]; [done|congruence].
Qed.

Lemma reaped_queue name taken : queue_ok (reaped name taken) ∧ releasing (reaped name taken) = None.
Proof. by destruct taken. Qed.

Lemma reap_section t p fault name s s' taken tk :
  take_finished fault name s = (s', taken) → held p = None → held (t_pc tk) = None →
  reserving (t_pc tk) = reserving p → inserting p = None → inserting (t_pc tk) = None →
  t_actions tk = reaped name taken → restoring (t_pc tk) = false → section t p s s' tk.
Proof.
  intros E Hp Hh Hr Hip Hi Ha Hc. pose proof (take_finished_effect fault name s) as Heff.
  rewrite E in Heff. destruct Heff as (Hch & Hst & Hin & Hrtc).
  destruct (reaped_queue name taken) as [Hq Hrel]. rewrite <-Ha in Hq, Hrel. split; try done.
  - intros hs Hhs _. rewrite Hh. simpl. rewrite delete_id by congruence. apply Hrtc.
  - intros n Hn. left. auto.
  - left. split; [done|]. unfold reserves. rewrite Hr, Hrel. destruct (reserving p); auto.
  - congruence.
Qed.

Lemma take_stdin_effect name s :
  let s' := (take_stdin name s).1 in
  inner s' = inner s ∧ starting_services s' = starting_services s ∧
  ∀ hs, own s' hs = own s hs.
Proof.
  unfold take_stdin. cbv zeta. destruct (inner s !! name) as [service|]; [|done].
  destruct (children s !! rs_child service) as [c|] eqn:Hc; [|done]. destruct (ch_stdin c); [|done].
  split_and!; [done|done|]. intros hs. apply owners_eq; simpl; [done|done| |].
  - apply set_eq. intros q. rewrite !elem_of_live. simpl.
    destruct (decide (q = rs_child service)) as [->|].
    + rewrite lookup_insert_eq. naive_solver.
    + by rewrite lookup_insert_ne.
  - rewrite dom_insert_L. apply elem_of_dom_2 in Hc. set_solver.
Qed.

Lemma write_bootstrap_effect name encode write s :
  let s' := (write_bootstrap name encode write s).1 in
  inner s' = inner s ∧ starting_services s' = starting_services s ∧
  ∀ hs, own s' hs = own s hs.
Proof.
  unfold write_bootstrap. cbv zeta. destruct (fault_result encode); [|done].
  pose proof (take_stdin_effect name s) as Heff. by destruct (take_stdin name s).
Qed.

Lemma own_add_child pid s hs :
  own (add_child pid s) hs =
    {| o_registered := o_registered (own s hs); o_held := hs;
       o_live := {[ pid ]} ∪ live_children s; o_known := {[ pid ]} ∪ dom (children s) |}.
Proof.
  apply owners_eq; simpl; [done|done| |by rewrite dom_insert_L].
  apply set_eq. intros q. rewrite elem_of_union, elem_of_singleton, !elem_of_live. simpl.
  destruct (decide (q = pid)) as [->|].
  - rewrite lookup_insert_eq. naive_solver.
  - rewrite lookup_insert_ne by done. naive_solver.
Qed.

Lemma exit_release t pid s hs :
  hs !! t = Some pid → rtc owner_step (own s hs) (own (exit_child pid s) (delete t hs)).
Proof.
  intros Hh. eapply rtc_l; [apply (os_exit _ pid)|]. apply rtc_once. rewrite own_exit.
  apply (os_release {| o_registered := _; o_held := hs; o_live := _; o_known := _ |} t pid); [done|].
  simpl. set_solver.
Qed.

Lemma take_registered t name service s hs :
  inner s !! name = Some service → hs !! t = None →
  owner_step (own s hs)
    (own (set_inner (delete name (inner s)) s) (<[t := rs_child service]> hs)).
Proof.
  intros Hs Hh. rewrite own_delete. apply (os_take (own s hs) t name); [|done].
  simpl. by rewrite lookup_fmap, Hs.
Qed.

Ltac quiet :=
  apply section_quiet; try done; try (by left); try (by right); try (by intros [? ?]).

Lemma spawn_section t launch details b pid now s :
  children s !! pid = None →
  section t (StSpawn launch details b) s (add_child pid s)
    (at_pc (StInsert launch details (running_service launch b pid now))).
Proof.
  intros Hf. split; try done.
  - intros hs Hhs _. simpl. rewrite own_add_child. apply rtc_once.
    apply (os_spawn (own s hs) t pid); [|done]. simpl. by apply not_elem_of_dom.
  - auto.
  - left. split; [done|by left].
  - intros name [= <-] Hp. by apply Hp.
Qed.

Lemma insert_section t launch details service s :
  section t (StInsert launch details service) s
    (set_inner (<[sl_name launch := service]> (inner s)) s)
    {| t_actions := [AUpsertIndex (rs_runner_id service) (sl_name launch)];
       t_pc := StBootstrap launch details (rs_runner_id service) (rs_child service) |}.
Proof.
  split; try done.
  - intros hs Hhs Hp. simpl. apply rtc_once.
    rewrite own_insert. apply (os_register (own s hs)); [done|]. simpl. by rewrite lookup_fmap, Hp.
  - intros name Hn. simpl. destruct (decide (name = sl_name launch)) as [->|]; [by right|].
    left. by rewrite lookup_insert_ne.
  - left. split; [done|by left].
Qed.

Lemma write_section t launch details runner_id pid encode write s s' written :
  write_bootstrap (sl_name launch) encode write s = (s', written) →
  section t (StBootstrap launch details runner_id pid) s s'
    match written with
    | Ok _ => at_pc (StWait launch details runner_id pid)
    | Err e => {| t_actions := [ARemovePending runner_id];
                  t_pc := StCleanup launch runner_id (start_failed details pid s' e) |}
    end.
Proof.
  intros Ew. pose proof (write_bootstrap_effect (sl_name launch) encode write s) as (Hi & Hst & Ho).
  rewrite Ew in Hi, Hst, Ho. simpl in *. split; try (by destruct written).
  - intros hs Hhs _. replace (held _) with (@None N) by by destruct written. simpl.
    by rewrite delete_id, Ho.
  - intros name Hn. left. by rewrite Hi.
  - left. split; [done|]. left. by destruct written.
Qed.

Lemma start_step_section t p c s s' tk :
  start_step p c s = Some (s', tk) → c ≠ CKill false → section t p s s' tk.
Proof.
  intros E Hcalm. destruct p; try done; simpl in E.
  - destruct c; try done. destruct (take_finished _ _ s) as [s1 taken] eqn:Et. simplify_eq.
    by eapply reap_section.
  - destruct c; try done. unfold reserve_start in E. case_decide as Hin; simplify_eq/=; [by quiet|].
    split; try done.
    + intros hs Hhs _. simpl. by rewrite delete_id.
    + auto.
    + right. by exists (sl_name launch).
  - destruct c; try done. destruct (take_finished _ _ s) as [s1 taken] eqn:Et. simplify_eq.
    by eapply reap_section.
  - destruct c; try done. case_decide as Hin; simplify_eq/=; [by quiet|].
    apply eq_None_not_Some in Hin. split; try done.
    + intros hs Hhs _. simpl. by rewrite delete_id.
    + auto.
    + left. split; [done|by left].
    + intros name [= <-] _. done.
  - destruct c; try done. destruct (effective_http_worker_queue_capacity _ _); simplify_eq/=; by quiet.
  - destruct c as [| |[pid|e] now| | | | | | | | | |]; try done; simpl in E; simplify_eq; [|by quiet].
    unfold pid_fresh in E. case_bool_decide as Hf; simplify_eq. by apply spawn_section.
  - destruct c; try done. simplify_eq. apply insert_section.
  - destruct c; try done. destruct (write_bootstrap _ _ _ s) as [s1 written] eqn:Ew. simplify_eq.
    by eapply write_section.
  - destruct (ready_outcome _ _ c s) as [outcome|]; [|done]. simplify_eq/=.
    destruct outcome; by quiet.
  - destruct c; try done. unfold remove_running in E. simplify_eq/=.
    destruct (inner s !! sl_name launch) as [service|] eqn:Hs.
    + split; try done.
      * intros hs Hhs _. apply rtc_once. by apply take_registered.
      * intros name Hn. left. simpl. apply lookup_delete_None. by right.
      * left. split; [done|by left].
    + split; try done.
      * intros hs Hhs _. simpl. rewrite own_delete_absent, delete_id by done. done.
      * intros name Hn. left. simpl. apply lookup_delete_None. by right.
      * left. split; [done|by left].
      * by intros [? ?].
  - destruct c; try done. destruct died; [|done]. simplify_eq/=. split; try done.
    + intros hs Hhs _. by apply exit_release.
    + intros name Hn. by left.
    + left. split; [done|by left].
    + by intros [? ?].
Qed.

Lemma stopped_pc next outcome :
  held (stopped next outcome) = None ∧ reserving (stopped next outcome) = None ∧
  inserting (stopped next outcome) = None ∧ restoring (stopped next outcome) = false.
Proof. destruct next, outcome; simpl; try done. by case_decide. Qed.

Lemma stop_result_works force io pid s :
  stop_works io → stop_result force io pid s = (exit_child pid s, Ok tt).
Proof.
  intros [Hk Hw]. unfold stop_result. rewrite Hk.
  by destruct (force || io_expired io), (io_wait io) as [[]|].
Qed.

Lemma stop_step_section t p c s s' tk :
  stop_step p c s = Some (s', tk) → restoring p = false → (∀ io, c = CStop io → stop_works io) →
  section t p s s' tk.
Proof.
  intros E Hr Hcalm. destruct p; try done; simpl in E.
  - destruct c; try done. simplify_eq. by quiet.
  - destruct c; try done. unfold remove_running in E. simplify_eq/=.
    destruct (inner s !! name) as [service|] eqn:Hs.
    + split; try done.
      * intros hs Hhs _. apply rtc_once. by apply take_registered.
      * intros n Hn. left. simpl. apply lookup_delete_None. by right.
      * left. split; [done|by left].
    + destruct (stopped_pc next (Err (not_running_error STAGE_STOP name))) as (Hh & Hres & Hins & Hrst).
      split; simpl; try done.
      * intros hs Hhs _. rewrite Hh. simpl. rewrite own_delete_absent, delete_id by done. done.
      * intros n Hn. left. apply lookup_delete_None. by right.
      * left. split; [done|]. unfold reserves. simpl. rewrite Hres. by left.
      * intros n Hn. congruence.
  - destruct c; try done.
    destruct (negb fault && has_exited (rs_child service) s) eqn:Hx; simplify_eq/=; [|by quiet].
    apply andb_true_iff in Hx as [_ Hx].
    destruct (stopped_pc next (Err (not_running_error STAGE_STOP name))) as (Hh & Hres & Hins & Hrst).
    split; simpl; try done.
    + intros hs Hhs _. rewrite Hh. simpl. apply rtc_once.
      apply (os_release (own s' hs) t (rs_child service)); [done|]. by apply exited_not_live.
    + auto.
    + left. split; [done|]. unfold reserves. simpl. rewrite Hres. by left.
    + congruence.
  - destruct c; try done. rewrite stop_result_works in E by eauto. simplify_eq.
    destruct (stopped_pc next (Ok tt)) as (Hh & Hres & Hins & Hrst).
    split; simpl; try done.
    + intros hs Hhs _. rewrite Hh. by apply exit_release.
    + auto.
    + left. split; [done|]. unfold reserves. simpl. rewrite Hres. by left.
    + congruence.
Qed.

Lemma no_release_queue acts :
  Forall (λ a, match a with AReleaseStart _ => False | _ => True end) acts →
  queue_ok acts ∧ releasing acts = None.
Proof.
  intros Ha. split.
  - induction Ha as [|a acts Ha _ IH]; [done|]. by destruct a.
  - unfold releasing. destruct (last acts) as [a|] eqn:E; [|done].
    apply last_Some in E as [l ->]. apply Forall_app in Ha as [_ Ha].
    rewrite Forall_singleton in Ha. by destruct a.
Qed.

Lemma reap_step_section t c s s' tk : reap_step c s = Some (s', tk) → section t RpAll s s' tk.
Proof.
  intros E. destruct c; try done. simpl in E.
  pose proof (take_all_finished_effect faults (btree_keys (inner s)) s) as Heff.
  destruct (take_all_finished _ _ s) as [s1 finished]. simplify_eq/=.
  destruct Heff as (Hc & Hst & Hin & Hrtc).
  match goal with |- section _ _ _ _ {| t_actions := ?acts |} =>
    assert (queue_ok acts ∧ releasing acts = None) as [Hq Hrel] end.
  { apply no_release_queue, Forall_bind. apply Forall_forall. intros [n sv] _. by repeat constructor. }
  split; simpl; try done.
  - intros hs Hhs _. rewrite delete_id by done. apply Hrtc.
  - auto.
  - left. split; [done|]. right. done.
Qed.

Lemma control_step_section t p c s conns s' conns' tk :
  control_step p c s conns = Some (s', conns', tk) → section t p s s' tk.
Proof.
  intros E. destruct p; try done; simpl in E.
  - destruct c; try done. pose proof (resolve_effect (request_runner_id request) s) as [Hso Hst].
    destruct (resolve_runner_service_name _ s) as [s1 [name|]]; simplify_eq/=; by quiet.
  - destruct c; try done.
    pose proof (control_locked_effect rw now uuid name request s conns) as [Hso Hst].
    destruct (control_locked _ _ _ _ _ _ _) as [[s1 conns1] response]. simplify_eq/=.
    destruct request, response; by quiet.
  - destruct c; try done. simplify_eq/=. quiet; unfold send_ready; by case_decide.
Qed.

Lemma pc_step_section t p c s conns s' conns' tk :
  pc_step p c s conns = Some (s', conns', tk) → restoring p = false → calm (LRun t c) →
  section t p s s' tk.
Proof.
  intros E Hr Hcalm. unfold pc_step in E.
  assert (c ≠ CKill false) by (intros ->; done).
  assert (∀ io, c = CStop io → stop_works io) by (intros io ->; done).
  destruct (is_control p) eqn:Hct; [by eapply control_step_section|].
  destruct p; try done; simpl in E;
    (match type of E with (?x ≫= _ = _) => destruct x as [[s1 tk1]|] eqn:Es; [|done] end);
    simplify_eq/=; try (by eapply start_step_section); try (by eapply stop_step_section).
  by eapply reap_step_section.
Qed.

(** *** Steps of the whole *)

(** After one section the other tasks keep what they satisfied. *)
Lemma others_ok t p s s' tk (tasks : gmap N task) :
  section t p s s' tk →
  (∃ tk0, tasks !! t = Some tk0 ∧ t_pc tk0 = p) →
  (∀ u tku, tasks !! u = Some tku → task_ok s tku) →
  (∀ u1 u2 tk1 tk2 name, tasks !! u1 = Some tk1 → tasks !! u2 = Some tk2 →
     reserves tk1 = Some name → reserves tk2 = Some name → u1 = u2) →
  ∀ u tku, u ≠ t → tasks !! u = Some tku → task_ok s' tku.
Proof.
  intros Hsec (tk0 & Ht & Hp) Hok Huniq u tku Hne Hu. destruct (Hok u tku Hu) as [Hq Hrel Hres Hvac Hc].
  split; try done.
  - intros name Hn. specialize (Hres name Hn).
    destruct (sec_starting _ _ _ _ _ Hsec) as [[-> _]|(n & _ & _ & _ & ->)]; [done|set_solver].
  - intros name Hn. destruct (sec_inner _ _ _ _ _ Hsec name (Hvac name Hn)) as [?|Hi]; [done|].
    exfalso. apply Hne, (Huniq u t tku tk0 name Hu Ht).
    + unfold reserves. destruct (t_pc tku); simplify_eq/=; done.
    + unfold reserves. rewrite Hp. destruct p; simplify_eq/=; done.
Qed.

Lemma section_inv t p s s' conns conns' tk tasks :
  section t p s s' tk → tasks !! t = Some {| t_actions := []; t_pc := p |} →
  inv {| w_sup := s; w_conns := conns; w_tasks := tasks |} →
  inv {| w_sup := s'; w_conns := conns'; w_tasks := <[t := tk]> tasks |} ∧
  rtc owner_step (owners_of {| w_sup := s; w_conns := conns; w_tasks := tasks |})
    (owners_of {| w_sup := s'; w_conns := conns'; w_tasks := <[t := tk]> tasks |}).
Proof.
  intros Hsec Ht [Hok Huniq]. simpl in *.
  pose proof (others_ok t p s s' tk tasks Hsec ltac:(by eexists) Hok Huniq) as Hothers.
  destruct (Hok t _ Ht) as [_ _ Hres0 Hvac0 _]. simpl in *.
  assert (∀ name, reserves tk = Some name →
    name ∈ starting_services s' ∧
    ∀ u tku, u ≠ t → tasks !! u = Some tku → reserves tku ≠ Some name) as Hnew.
  { intros name Hn. destruct (sec_starting _ _ _ _ _ Hsec) as [[-> Hr]|(n & Hns & Hr & _ & ->)].
    - destruct Hr as [Hr|Hr]; [|congruence].
      assert (reserves {| t_actions := []; t_pc := p |} = Some name) as Hold
        by (unfold reserves; simpl; rewrite <-Hr, Hn; done).
      split; [by apply Hres0|]. intros u tku Hne Hu Hru.
      by apply Hne, (Huniq u t tku {| t_actions := []; t_pc := p |} name).
    - rewrite Hr in Hn. injection Hn as ->. split; [set_solver|].
      intros u tku Hne Hu Hru. apply Hns. by eapply (tk_reserved _ _ (Hok u tku Hu)). }
  split.
  - split; simpl.
    + intros u tku [[<- <-]|[Hne Hu]]%lookup_insert_Some; [|by eapply Hothers].
      split; [apply Hsec|apply Hsec|apply Hnew| |apply Hsec].
      intros name Hn. by apply (sec_vacant _ _ _ _ _ Hsec name Hn).
    + intros u1 u2 tk1 tk2 name [[<- <-]|[Hne1 Hu1]]%lookup_insert_Some
        [[<- <-]|[Hne2 Hu2]]%lookup_insert_Some Hr1 Hr2; [done|..].
      * exfalso. by eapply (proj2 (Hnew name Hr1)).
      * exfalso. by eapply (proj2 (Hnew name Hr2)).
      * by eapply Huniq.
  - unfold owners_of. simpl. rewrite held_insert. apply (sec_owners _ _ _ _ _ Hsec); [|done].
    by rewrite lookup_omap, Ht.
Qed.

Lemma releasing_cons a acts : acts ≠ [] → releasing (a :: acts) = releasing acts.
Proof. unfold releasing. by destruct acts. Qed.

(** A queued action: only the last one of a queue changes the reservations. *)
Lemma action_inv t a rest p s conns tasks :
  tasks !! t = Some {| t_actions := a :: rest; t_pc := p |} →
  inv {| w_sup := s; w_conns := conns; w_tasks := tasks |} →
  let tk := {| t_actions := rest; t_pc := p |} in
  inv {| w_sup := run_action a s; w_conns := conns; w_tasks := <[t := tk]> tasks |} ∧
  owners_of {| w_sup := run_action a s; w_conns := conns; w_tasks := <[t := tk]> tasks |} =
    owners_of {| w_sup := s; w_conns := conns; w_tasks := tasks |}.
Proof.
  intros Ht [Hok Huniq]. simpl in *. destruct (run_action_effect a s) as (Hso & Hi & Hst).
  destruct (Hok t _ Ht) as [Hq Hrel Hres Hvac Hc]. simpl in *.
  assert (∀ name, reserves {| t_actions := rest; t_pc := p |} = Some name →
    reserves {| t_actions := a :: rest; t_pc := p |} = Some name) as Hmono.
  { unfold reserves. simpl. intros name. destruct (reserving p); [done|].
    destruct rest as [|b rest]; [done|]. by rewrite (releasing_cons a). }
  assert (∀ u tku name, (<[t := {| t_actions := rest; t_pc := p |}]> tasks) !! u = Some tku →
    reserves tku = Some name → name ∈ starting_services (run_action a s)) as Hstill.
  { intros u tku name Hu Hn. rewrite Hst. destruct a; simpl;
      try (by apply lookup_insert_Some in Hu as [[<- <-]|[Hne Hu]];
           [by apply Hres, Hmono|by eapply (tk_reserved _ _ (Hok u tku Hu))]).
    simpl in Hq. subst rest.
    assert (reserving p = None) as Hp.
    { destruct (reserving p) eqn:E; [|done]. by discriminate (Hrel ltac:(by eexists)). }
    apply lookup_insert_Some in Hu as [[<- <-]|[Hne Hu]].
    { unfold reserves in Hn. simpl in Hn. by rewrite Hp in Hn. }
    apply elem_of_difference. split; [by eapply (tk_reserved _ _ (Hok u tku Hu))|].
    rewrite elem_of_singleton. intros ->. apply Hne, (Huniq t u _ tku service_name Ht Hu); [|done].
    unfold reserves. simpl. by rewrite Hp. }
  split.
  - split; simpl.
    + intros u tku Hu. specialize (Hstill u tku). split.
      * apply lookup_insert_Some in Hu as [[<- <-]|[Hne Hu]]; [|by apply (Hok u tku Hu)].
        simpl. destruct a; simpl in Hq; try done. by subst.
      * apply lookup_insert_Some in Hu as [[<- <-]|[Hne Hu]]; [|by apply (Hok u tku Hu)].
        simpl. intros Hs. specialize (Hrel Hs). destruct rest; [done|]. by rewrite (releasing_cons a) in Hrel.
      * intros name Hn. by apply Hstill.
      * intros name Hn. rewrite Hi.
        apply lookup_insert_Some in Hu as [[<- <-]|[Hne Hu]]; [by apply Hvac|].
        by eapply (tk_vacant _ _ (Hok u tku Hu)).
      * apply lookup_insert_Some in Hu as [[<- <-]|[Hne Hu]]; [done|by apply (Hok u tku Hu)].
    + intros u1 u2 tk1 tk2 name [[<- <-]|[Hne1 Hu1]]%lookup_insert_Some
        [[<- <-]|[Hne2 Hu2]]%lookup_insert_Some Hr1 Hr2; [done|..].
      * by eapply (Huniq t u2); [exact Ht|exact Hu2|by apply Hmono|].
      * by eapply (Huniq u1 t); [exact Hu1|exact Ht| |by apply Hmono].
      * by eapply Huniq.
  - unfold owners_of. simpl. rewrite held_insert. simpl.
    rewrite (own_same s (run_action a s)) by done. f_equal.
    replace (held p) with (omap (λ tk, held (t_pc tk)) tasks !! t) by by rewrite lookup_omap, Ht.
    apply hold_same.
Qed.

Lemma spawn_inv t p w w' :
  spawn_task t p w = Some w' → held p = None → reserving p = None → inserting p = None →
  restoring p = false → inv w → inv w' ∧ owners_of w' = owners_of w.
Proof.
  unfold spawn_task. destruct (w_tasks w !! t) eqn:Ht; [done|]. intros [= <-] Hh Hr Hi Hc [Hok Huniq].
  split.
  - split; simpl.
    + intros u tku [[<- <-]|[Hne Hu]]%lookup_insert_Some; [|by eapply Hok].
      split; simpl; try done; unfold reserves; simpl; rewrite ?Hr, ?Hi; done.
    + intros u1 u2 tk1 tk2 name [[<- <-]|[Hne1 Hu1]]%lookup_insert_Some
        [[<- <-]|[Hne2 Hu2]]%lookup_insert_Some Hr1 Hr2; [done|..].
      * unfold reserves in Hr1. simpl in Hr1. by rewrite Hr in Hr1.
      * unfold reserves in Hr2. simpl in Hr2. by rewrite Hr in Hr2.
      * by eapply Huniq.
  - unfold owners_of. simpl. rewrite held_insert. simpl. rewrite Hh. simpl.
    by rewrite delete_id by by rewrite lookup_omap, Ht.
Qed.

Lemma sup_inv s' w :
  inner s' = inner (w_sup w) → starting_services s' = starting_services (w_sup w) →
  inv w → inv (with_sup s' w).
Proof.
  intros Hi Hs [Hok Huniq]. split; [|done]. simpl. intros t tk Ht.
  destruct (Hok t tk Ht) as [? ? ? ? ?]. split; rewrite ?Hi, ?Hs; done.
Qed.

Lemma step_inv l w w' :
  step l w = Some w' → calm l → inv w → inv w' ∧ rtc owner_step (owners_of w) (owners_of w').
Proof.
  intros E Hcalm Hinv.
  assert (∀ t p, spawn_task t p w = Some w' → held p = None → reserving p = None →
    inserting p = None → restoring p = false →
    inv w' ∧ rtc owner_step (owners_of w) (owners_of w')) as Hspawn.
  { intros t p Es ? ? ? ?. destruct (spawn_inv t p w w') as [? Ho]; try done. rewrite Ho. done. }
  destruct l; simpl in E; try (by eapply Hspawn).
  - destruct (w_tasks w !! t) as [[acts p]|] eqn:Ht; [|done]. destruct w as [s conns tasks]. simpl in *.
    destruct acts as [|a rest].
    + destruct (pc_step p c s conns) as [[[s1 conns1] tk1]|] eqn:Ep; [|done]. simplify_eq/=.
      eapply section_inv; [|done|done]. eapply pc_step_section; [done| |done].
      apply (tk_calm _ _ (inv_tasks _ Hinv t _ Ht)).
    + simplify_eq. destruct (action_inv t a rest p s conns tasks Ht Hinv) as [? Ho]. by rewrite Ho.
  - simplify_eq. split; [by apply sup_inv|]. apply rtc_once.
    unfold owners_of. simpl. rewrite own_exit. apply os_exit.
  - simplify_eq. split; [by apply sup_inv|].
    unfold owners_of. simpl. by erewrite own_same.
Qed.

(** *** The specification's own invariant *)

(** Every live process is registered or held, none twice. *)
Record owners_ok (o : owners) : Prop := {
  ok_live pid : pid ∈ o_live o →
    (∃ name, o_registered o !! name = Some pid) ∨ (∃ t, o_held o !! t = Some pid);
  ok_known pid : pid ∈ o_live o → pid ∈ o_known o;
  ok_registered name pid : o_registered o !! name = Some pid → pid ∈ o_known o;
  ok_held t pid : o_held o !! t = Some pid → pid ∈ o_known o;
  ok_one_name n1 n2 pid :
    o_registered o !! n1 = Some pid → o_registered o !! n2 = Some pid → n1 = n2;
  ok_one_task t1 t2 pid : o_held o !! t1 = Some pid → o_held o !! t2 = Some pid → t1 = t2;
  ok_disjoint name t pid : o_registered o !! name = Some pid → o_held o !! t = Some pid → False;
}.

Ltac split_lookup :=
  repeat match goal with
  | E : <[_ := _]> _ !! _ = Some _ |- _ => apply lookup_insert_Some in E as [[? ?]|[? ?]]
  | E : delete _ _ !! _ = Some _ |- _ => apply lookup_delete_Some in E as [? ?]
  end; subst.

Lemma spawned_ok o t pid :
  owners_ok o → pid ∉ o_known o → o_held o !! t = None →
  owners_ok {| o_registered := o_registered o; o_held := <[t := pid]> (o_held o);
               o_live := {[ pid ]} ∪ o_live o; o_known := {[ pid ]} ∪ o_known o |}.
Proof.
  intros [Hl Hk Hr Hh Hn Ht Hd] Hf Hnone. split; simpl.
  - intros q [->%elem_of_singleton|Hq]%elem_of_union.
    + right. exists t. apply lookup_insert_eq.
    + destruct (Hl q Hq) as [[n Hq']|[u Hu]]; [by left; exists n|]. right. exists u.
      rewrite lookup_insert_ne; [done|congruence].
  - intros q [Hq|Hq]%elem_of_union; apply elem_of_union; auto.
  - intros n q Hq. apply elem_of_union; eauto.
  - intros u q E. apply elem_of_union.
    split_lookup; [left; by apply elem_of_singleton|right; eauto].
  - done.
  - intros t1 t2 q E1 E2. split_lookup; try done; [| |by eapply Ht]; exfalso; naive_solver.
  - intros n u q E1 E2. split_lookup; [apply Hf; by eapply Hr|by eapply Hd].
Qed.

Lemma registered_ok o t name pid :
  owners_ok o → o_held o !! t = Some pid → o_registered o !! name = None →
  owners_ok {| o_registered := <[name := pid]> (o_registered o); o_held := delete t (o_held o);
               o_live := o_live o; o_known := o_known o |}.
Proof.
  intros [Hl Hk Hr Hh Hn Ht Hd] Hheld Hnone. split; simpl; [|done|..].
  - intros q Hq. destruct (Hl q Hq) as [[n Hq']|[u Hu]].
    + left. exists n. rewrite lookup_insert_ne; [done|congruence].
    + destruct (decide (u = t)) as [->|].
      * left. exists name. rewrite lookup_insert_eq. congruence.
      * right. exists u. by rewrite lookup_delete_ne.
  - intros n q E. split_lookup; eauto.
  - intros u q E. split_lookup; eauto.
  - intros n1 n2 q E1 E2. split_lookup; try done; [| |by eapply Hn]; exfalso; eauto.
  - intros t1 t2 q E1 E2. split_lookup. eauto.
  - intros n u q E1 E2. split_lookup; [|by eapply Hd]. by apply (Ht u t) in Hheld.
Qed.

Lemma taken_ok o t name pid :
  owners_ok o → o_registered o !! name = Some pid → o_held o !! t = None →
  owners_ok {| o_registered := delete name (o_registered o); o_held := <[t := pid]> (o_held o);
               o_live := o_live o; o_known := o_known o |}.
Proof.
  intros [Hl Hk Hr Hh Hn Ht Hd] Hreg Hnone. split; simpl; [|done|..].
  - intros q Hq. destruct (Hl q Hq) as [[n Hq']|[u Hu]].
    + destruct (decide (n = name)) as [->|].
      * right. exists t. rewrite lookup_insert_eq. congruence.
      * left. exists n. by rewrite lookup_delete_ne.
    + right. exists u. rewrite lookup_insert_ne; [done|congruence].
  - intros n q E. split_lookup; eauto.
  - intros u q E. split_lookup; eauto.
  - intros n1 n2 q E1 E2. split_lookup. eauto.
  - intros t1 t2 q E1 E2. split_lookup; try done; [| |by eapply Ht]; exfalso; eauto.
  - intros n u q E1 E2. split_lookup; [|by eapply Hd]. by apply (Hn n name) in Hreg.
Qed.

Lemma owner_step_ok o o' : owner_step o o' → owners_ok o → owners_ok o'.
Proof.
  intros Hs Hok. pose proof Hok as [Hl Hk Hr Hh Hn Ht Hd].
  destruct Hs as [o pid|o t pid Hf Hnone|o t name pid Hheld Hnone|o t name pid Hreg Hnone
    |o name pid Hreg Hdead|o t pid Hheld Hdead].
  - split; simpl; try done; intros q [Hq _]%elem_of_difference; eauto.
  - by apply spawned_ok.
  - by apply registered_ok.
  - by apply taken_ok.
  - split; simpl; try done.
    + intros q Hq. destruct (Hl q Hq) as [[n Hq']|[u Hu]]; [|by right; exists u].
      left. exists n. rewrite lookup_delete_ne; [done|]. intros ->. congruence.
    + intros n q E. split_lookup. eauto.
    + intros n1 n2 q E1 E2. split_lookup. eauto.
    + intros n u q E1 E2. split_lookup. eauto.
  - split; simpl; try done.
    + intros q Hq. destruct (Hl q Hq) as [[n Hq']|[u Hu]]; [by left; exists n|].
      right. exists u. rewrite lookup_delete_ne; [done|]. intros ->. congruence.
    + intros u q E. split_lookup. eauto.
    + intros t1 t2 q E1 E2. split_lookup. eauto.
    + intros n u q E1 E2. split_lookup. eauto.
Qed.

Lemma run_app ls l w : run (ls ++ [l]) w = (w' ← run ls w; step l w').
Proof. unfold run. by rewrite foldl_app. Qed.

Lemma initial_inv retained : inv (initial retained).
Proof. split; simpl; intros; by rewrite lookup_empty in *. Qed.

Lemma run_inv ls retained w :
  run ls (initial retained) = Some w → Forall calm ls →
  inv w ∧ rtc owner_step (owners_of (initial retained)) (owners_of w).
Proof.
  revert w. induction ls as [|l ls IH] using rev_ind; intros w E Hc.
  { injection E as <-. split; [apply initial_inv|done]. }
  rewrite run_app in E. destruct (run ls _) as [w1|]; [|done]. simpl in E.
  apply Forall_app in Hc as [Hc Hl]. rewrite Forall_singleton in Hl.
  destruct (IH w1 eq_refl Hc) as [Hinv Hrtc].
  destruct (step_inv l w1 w E Hl Hinv) as [Hinv' Hrtc']. split; [done|]. by etrans.
Qed.

Definition no_owners : owners :=
  {| o_registered := ∅; o_held := ∅; o_live := ∅; o_known := ∅ |}.

Lemma owners_of_initial retained : owners_of (initial retained) = no_owners.
Proof. by apply owners_eq. Qed.

Lemma no_owners_ok : owners_ok no_owners.
Proof. split; simpl; intros; rewrite ?lookup_empty in *; set_solver. Qed.

(** C5 (refinement). However starts, stops, replacements, reaping and control requests
    interleave, as long as a process that is killed or waited for does go away, the
    supervisor refines the machine of owners: a runner is registered only under a name that
    has none, and only a dead process leaves the books. *)
Theorem supervisor_refines_owners ls retained w :
  run ls (initial retained) = Some w → Forall calm ls →
  rtc owner_step no_owners (owners_of w).
Proof. intros Hr Hc. rewrite <-(owners_of_initial retained). by apply (run_inv ls retained w). Qed.

(** C22 (invariant). In every state the supervisor reaches while processes that are told to
    die do so, each live runner process is the registered process of exactly one service
    or in the hands of exactly one start or stop in progress: no runner is lost and none is
    run twice. *)
Theorem no_runner_lost ls retained w pid :
  run ls (initial retained) = Some w → Forall calm ls →
  pid ∈ live_children (w_sup w) →
  (∃ name service, inner (w_sup w) !! name = Some service ∧ rs_child service = pid ∧
     (∀ n sv, inner (w_sup w) !! n = Some sv → rs_child sv = pid → n = name) ∧
     ∀ t tk, w_tasks w !! t = Some tk → held (t_pc tk) ≠ Some pid) ∨
  (∃ t tk, w_tasks w !! t = Some tk ∧ held (t_pc tk) = Some pid ∧
     (∀ u tku, w_tasks w !! u = Some tku → held (t_pc tku) = Some pid → u = t) ∧
     ∀ n sv, inner (w_sup w) !! n = Some sv → rs_child sv ≠ pid).
Proof.
  intros Hr Hc Hlive. destruct (run_inv ls retained w Hr Hc) as [_ Hrtc].
  rewrite owners_of_initial in Hrtc.
  assert (owners_ok (owners_of w)) as [Hl _ _ _ Hn Ht Hd].
  { pose proof no_owners_ok as Hok. revert Hok. by induction Hrtc; eauto using owner_step_ok. }
  simpl in *.
  assert (∀ n sv, inner (w_sup w) !! n = Some sv →
    (rs_child <$> inner (w_sup w)) !! n = Some (rs_child sv)) as Hi
    by (intros n sv E; by rewrite lookup_fmap, E).
  assert (∀ u tku q, w_tasks w !! u = Some tku → held (t_pc tku) = Some q →
    omap (λ tk, held (t_pc tk)) (w_tasks w) !! u = Some q) as Hh
    by (intros u tku q E Hq; by rewrite lookup_omap, E).
  destruct (Hl pid Hlive) as [[name Hname]|[t Htk]].
  - left. rewrite lookup_fmap in Hname. apply fmap_Some in Hname as (service & Hs & ->).
    exists name, service. split_and!; [done|done| |].
    + intros n sv E Eq. apply (Hn n name (rs_child sv)); [by apply Hi|rewrite Eq; by apply Hi].
    + intros t tk E Eq. by eapply (Hd name t); [by apply Hi|eapply Hh].
  - right. rewrite lookup_omap in Htk. destruct (w_tasks w !! t) as [tk|] eqn:E; [|done].
    exists t, tk. split_and!; [done|done| |].
    + intros u tku Eu Hu. by eapply Ht; [eapply Hh|eapply (Hh t)].
    + intros n sv En <-. by eapply (Hd n t); [by apply Hi|eapply Hh].
Qed.

End lts.

(** ** Examples *)

Module Demo.

#[export] Instance retained : Retained unit :=
  {| retain_events := λ _ _ r, r; retained_events := λ _ _, Ok None; retained_names := λ _, [] |}.
#[export] Instance json : Json :=
  {| JsonValue := unit; json_string := λ _, tt; json_array := λ _, tt; json_object := λ _, tt |}.
#[export] Instance crates : Crates := demo_uuids.
#[export] Instance token_crates : TokenCrates := demo_crates demo_claims "key".

Definition config : SupervisorConfig :=
  {| sc_storage_root := "/var/lib/imago"; sc_stop_grace_timeout_secs := 30;
     sc_runner_ready_timeout_secs := 60; sc_manager_control_read_timeout_ms := 500;
     sc_http_worker_count := 2; sc_http_worker_queue_capacity := 4;
     sc_http_queue_memory_budget_bytes := 33554432;
     sc_wasm_memory_reservation_bytes := 67108864;
     sc_wasm_memory_reservation_for_growth_bytes := 16777216;
     sc_wasm_memory_guard_size_bytes := 65536; sc_wasm_guard_before_linear_memory := false;
     sc_wasm_parallel_compilation := false; sc_enabled_native_plugins := ["imago:admin"];
     sc_runner_log_buffer_bytes := 4096; sc_epoch_tick_interval_ms := 50;
     sc_manager_control_endpoint := "/var/lib/imago/runtime/ipc/manager-control.sock" |}.

Definition launch : ServiceLaunch :=
  {| sl_name := "web"; sl_release_hash := "r1"; sl_app_type := Cli; sl_http_port := None;
     sl_http_listen_addr := None; sl_http_max_body_bytes := None; sl_socket := None;
     sl_component_path := "/srv/web.wasm"; sl_args := []; sl_envs := ∅; sl_wasi_mounts := [];
     sl_wasi_http_outbound := []; sl_resources := ∅; sl_bindings := [];
     sl_plugin_dependencies := [];
     sl_capabilities := {| cap_privileged := false; cap_deps := ∅; cap_wasi := ∅ |} |}.

(** A start up to the wait for the runner, and the report of the runner that ends it. *)
Definition reserve (t : N) : list label :=
  [LStart t launch; LRun t (CTryWait false); LRun t CGo; LRun t (CTryWait false); LRun t CGo].
Definition spawn (t pid : N) (id : string) : list label :=
  [LRun t (CIds id (demo_mark (bytes_of id)) (demo_mark (bytes_of id)));
   LRun t (CSpawn (Ok pid) 100); LRun t CGo; LRun t CGo; LRun t (CWrite None None)].
Definition report (t u : N) (id : string) : list label :=
  [LControl u (RunnerReady id (demo_mark (demo_hmac (bytes_of id) (bytes_of id))));
   LRun u CGo; LRun u (CControl demo_world 101 0%N); LRun u CGo;
   LRun t CReady; LRun t CGo; LRun t CGo; LRun t CGo].

Definition started : list label := reserve 1 ++ spawn 1 7 "w1" ++ report 1 2 "w1".

(** A stop fails while the next start has passed its check: the stop puts the runner back,
    and the start overwrites it. *)
Definition lost : list label :=
  started ++
  [LStop 3 "web" false; LRun 3 CGo; LRun 3 CGo; LRun 3 CGo; LRun 3 (CTryWait false)] ++
  reserve 4 ++
  [LRun 3 (CStop {| io_expired := false; io_wait := None;
                    io_kill := KillSignalFailed "EPERM" None |}); LRun 3 (CTryWait false);
   LRun 3 CGo; LRun 3 CGo; LRun 3 CGo] ++
  spawn 4 8 "w2" ++ report 4 5 "w2".

Definition finished (p : pc) : bool := match p with Done _ => true | _ => false end.

End Demo.

Import Demo.

Definition one_runner : owners :=
  {| o_registered := {[ "web" := 7%N ]}; o_held := ∅; o_live := {[ 7%N ]}; o_known := {[ 7%N ]} |}.

Lemma started_owners : owners_of <$> run config started (initial tt) = Some one_runner.
Proof. vm_compute. reflexivity. Qed.

Lemma supervisor_refines_owners_witness :
  owners_of <$> run config started (initial tt) = Some one_runner ∧
  rtc owner_step no_owners one_runner.
Proof.
  split; [apply started_owners|]. pose proof started_owners as Ho.
  destruct (run config started (initial tt)) as [w|] eqn:E; [|discriminate Ho].
  apply (inj Some) in Ho. rewrite <-Ho.
  apply (supervisor_refines_owners config started tt w E). repeat constructor.
Defined.

Lemma no_runner_lost_witness :
  match run config started (initial tt) with
  | Some w => 7%N ∈ live_children (w_sup w) ∧
      ∃ name service, inner (w_sup w) !! name = Some service ∧ rs_child service = 7%N
  | None => False
  end.
Proof.
  pose proof started_owners as Ho.
  destruct (run config started (initial tt)) as [w|] eqn:E; [|discriminate Ho]. apply (inj Some) in Ho.
  assert (7%N ∈ live_children (w_sup w)) as Hl.
  { apply (f_equal o_live) in Ho. simpl in Ho. rewrite Ho. by apply elem_of_singleton. }
  split; [exact Hl|].
  destruct (no_runner_lost config started tt w 7 E ltac:(repeat constructor) Hl)
    as [(name & service & Hn & Hs & _)|(t & tk & Ht & Hh & _)];
    clear E; [by exists name, service|].
  exfalso. apply (f_equal (λ o, o_held o !! t)) in Ho. simpl in Ho.
  rewrite lookup_omap, Ht, lookup_empty in Ho. simpl in Ho. congruence.
Defined.

(** A stop whose kill fails puts the runner back under its name without regard
    for a start of the same service that has already found the name free.  That start then
    overwrites it: in the end all tasks are done, the old runner process is still alive, and
    neither the table of services nor any task knows of it. *)
Theorem failed_stop_can_lose_a_runner :
  match run config lost (initial tt) with
  | Some w =>
    bool_decide (7%N ∈ live_children (w_sup w)) = true ∧
    bool_decide (map_Forall (λ _ service, rs_child service ≠ 7%N) (inner (w_sup w))) = true ∧
    bool_decide (map_Forall (λ _ tk, finished (t_pc tk) = true) (w_tasks w)) = true
  | None => False
  end.
Proof. vm_compute. split_and!; reflexivity. Qed.
