(* ===== verification/Paths.v ===== *)
(** * Lemmas on trimmed text and on paths

    What the manifest and the orchestrator rely on of [str::trim], [str::split],
    [Path::components] and [Path::join] as [Text] defines them: trimming twice is trimming
    once, and joining a name-only relative path to a directory appends its names. *)

From S2P Require Import Prelude Text.

Open Scope Z_scope.

(** ** Trimming *)

Lemma length_bytes_of s : length (bytes_of s) = String.length s.
Proof. induction s as [|c s IH]; [done|]. simpl. f_equal. exact IH. Qed.

Lemma string_app_nil_r s : (s +:+ "")%string = s.
Proof. apply bytes_of_inj. by rewrite bytes_of_app, app_nil_r. Qed.

Lemma strip_all_suffix pats : ∀ fuel s, ∃ w, s = (w +:+ strip_all fuel pats s)%string.
Proof.
  induction fuel as [|fuel IH]; intros s; simpl; [by exists ""|].
  destruct (omap _ pats) as [|s' l] eqn:E; [by exists ""|].
  assert (s' ∈ omap (λ p, strip_prefix p s) pats) as Hin by (rewrite E; left).
  apply list_elem_of_omap in Hin as (p & _ & Hs). apply strip_prefix_app in Hs.
  destruct (IH s') as [w Hw]. exists (p +:+ w)%string. rewrite Hs. rewrite Hw at 1.
  by rewrite string_app_assoc.
Qed.

Lemma strip_all_none pats : ∀ fuel s p,
  "" ∉ pats → (String.length s ≤ fuel)%nat → p ∈ pats →
  strip_prefix p (strip_all fuel pats s) = None.
Proof.
  induction fuel as [|fuel IH]; intros s p Hne Hlen Hp; simpl.
  - destruct s; [|simpl in Hlen; lia]. by destruct p.
  - destruct (omap _ pats) as [|s' l] eqn:E.
    + destruct (strip_prefix p s) as [r|] eqn:Er; [|done].
      assert (r ∈ omap (λ p, strip_prefix p s) pats) as Hin
        by (apply list_elem_of_omap; eauto). rewrite E in Hin. by apply not_elem_of_nil in Hin.
    + apply IH; [done| |done].
      assert (s' ∈ omap (λ p, strip_prefix p s) pats) as Hin by (rewrite E; left).
      apply list_elem_of_omap in Hin as (q & Hq & Hs). apply strip_prefix_app in Hs.
      destruct q as [|c q]; [done|]. subst s. rewrite <-!length_bytes_of in Hlen |- *.
      rewrite bytes_of_app, length_app in Hlen. simpl in Hlen. lia.
Qed.

Lemma white_space_nonempty : "" ∉ white_space ∧ "" ∉ (String.rev <$> white_space).
Proof. split; apply (bool_decide_unpack _); vm_compute; exact I. Qed.

Lemma trim_start_none s p : p ∈ white_space → strip_prefix p (trim_start s) = None.
Proof. intros Hp. apply strip_all_none; [apply white_space_nonempty|done|done]. Qed.

Lemma trim_end_none s p :
  p ∈ String.rev <$> white_space → strip_prefix p (String.rev (trim_end s)) = None.
Proof.
  intros Hp. unfold trim_end. rewrite string_rev_involutive.
  apply strip_all_none; [apply white_space_nonempty| |done].
  rewrite <-!length_bytes_of, bytes_of_rev_eq, length_reverse. done.
Qed.

Lemma trim_end_prefix s : ∃ w, s = (trim_end s +:+ w)%string.
Proof.
  destruct (strip_all_suffix (String.rev <$> white_space) (String.length s) (String.rev s)) as [w Hw].
  exists (String.rev w). apply (f_equal String.rev) in Hw.
  by rewrite string_rev_involutive, string_rev_app in Hw.
Qed.

Lemma trim_idemp s : trim (trim s) = trim s.
Proof.
  unfold trim. set (s1 := trim_start s).
  assert (trim_start (trim_end s1) = trim_end s1) as ->.
  { apply strip_all_id. intros p Hp. destruct (strip_prefix p (trim_end s1)) as [r|] eqn:E; [|done].
    apply strip_prefix_app in E. destruct (trim_end_prefix s1) as [w Hw].
    rewrite E, <-string_app_assoc in Hw.
    apply strip_prefix_app in Hw. pose proof (trim_start_none s p Hp) as Hn. fold s1 in Hn. congruence. }
  set (s2 := trim_end s1). unfold trim_end at 1.
  rewrite strip_all_id; [apply string_rev_involutive|]. intros p Hp. by apply trim_end_none.
Qed.

Lemma trim_not_blank s : trim s ≠ "" → is_blank (trim s) = false.
Proof. intros Hs. unfold is_blank. by rewrite trim_idemp, bool_decide_false. Qed.

(** ** Splitting *)

Lemma split_nonnil sep s : split sep s ≠ [].
Proof.
  induction s as [|c s IH]; [done|]. cbn [split]. case_decide; [done|].
  by destruct (split sep s).
Qed.

Lemma split_app sep a b : split sep (a +:+ String sep b)%string = split sep a ++ split sep b.
Proof.
  induction a as [|c a IH].
  - change (("" +:+ String sep b)%string) with (String sep b). cbn [split]. by rewrite decide_True.
  - change ((String c a +:+ String sep b)%string) with (String c (a +:+ String sep b)%string).
    cbn [split]. rewrite IH. case_decide; [done|].
    pose proof (split_nonnil sep a). by destruct (split sep a).
Qed.

Lemma split_none sep s : sep ∉ bytes_of s → split sep s = [s].
Proof.
  induction s as [|c s IH]; [done|]. intros Hn. simpl in Hn.
  apply not_elem_of_cons in Hn as [Hc Hn]. cbn [split]. by rewrite decide_False, IH.
Qed.

Lemma split_no_sep sep s x : x ∈ split sep s → sep ∉ bytes_of x.
Proof.
  revert x. induction s as [|c s IH]; intros x; cbn [split].
  - intros ->%list_elem_of_singleton. apply not_elem_of_nil.
  - case_decide as E.
    + intros [->|Hx]%elem_of_cons; [apply not_elem_of_nil|by apply IH].
    + destruct (split sep s) as [|y l] eqn:Hs; [by intros ?%not_elem_of_nil|].
      intros [->|Hx]%elem_of_cons.
      * simpl. apply not_elem_of_cons. split; [done|]. apply IH. left.
      * apply IH. by right.
Qed.

Lemma split_chars sep s x b : x ∈ split sep s → b ∈ bytes_of x → b ∈ bytes_of s.
Proof.
  revert x. induction s as [|c s IH]; intros x; cbn [split].
  - intros ->%list_elem_of_singleton. by intros ?%not_elem_of_nil.
  - simpl. case_decide as E.
    + intros [->|Hx]%elem_of_cons Hb; [by apply not_elem_of_nil in Hb|]. right. by eapply IH.
    + destruct (split sep s) as [|y l] eqn:Hs; [by intros ?%not_elem_of_nil|].
      intros [->|Hx]%elem_of_cons Hb.
      * simpl in Hb. apply elem_of_cons in Hb as [->|Hb]; [left|right]. eapply IH; [left|done].
      * right. eapply IH; [by right|done].
Qed.

(** ** Components *)

(** A name a path may have as one of its components. *)
Definition proper (name : string) : Prop :=
  name ≠ "" ∧ name ≠ "." ∧ name ≠ ".." ∧ "/"%char ∉ bytes_of name.

#[export] Instance proper_dec name : Decision (proper name).
Proof. unfold proper. apply _. Defined.

Lemma component_of_proper name : proper name → component_of name = [Normal name].
Proof.
  intros (H1 & H2 & H3 & _). unfold component_of.
  by rewrite !bool_decide_false by done.
Qed.

Lemma components_proper path name : Normal name ∈ components path → proper name.
Proof.
  unfold components. intros [Hin|(part & Hin & Hp)%list_elem_of_bind]%elem_of_app.
  - repeat case_match; set_solver.
  - unfold component_of in Hin. revert Hin.
    destruct (bool_decide_reflect (part = "")); simpl; [set_solver|].
    destruct (bool_decide_reflect (part = ".")); simpl; [set_solver|].
    destruct (bool_decide_reflect (part = "..")); simpl; [set_solver|].
    intros [= ->]%list_elem_of_singleton. split_and!; [done..|]. by eapply split_no_sep.
Qed.

(** The components of the parts of a path, without its anchor. *)
Definition parts (path : string) : list Component := split "/"%char path ≫= component_of.

Lemma parts_proper path names :
  split "/"%char path = names → Forall proper names → parts path = Normal <$> names.
Proof.
  unfold parts. intros ->. induction 1 as [|name names Hn _ IH]; [done|]. cbn.
  rewrite component_of_proper by done. simpl. f_equal. exact IH.
Qed.

Lemma split_head_anchor sep s : head (split sep s) = Some "" → s ≠ "" → ∃ r, s = String sep r.
Proof.
  destruct s as [|c s]; [done|]. cbn [split]. case_decide; [subst; eauto|].
  by destruct (split sep s).
Qed.

Lemma relative_names s :
  Forall proper (split "/"%char s) → starts_with "/" s = false ∧ ends_with "/" s = false ∧ s ≠ "".
Proof.
  intros Hp.
  assert (s ≠ "") as Hne by (intros ->; apply Forall_inv in Hp; by destruct Hp).
  split_and!; [| |done].
  - apply not_true_iff_false. intros Hs%starts_with_char.
    destruct s as [|c s]; [done|]. injection Hs as ->. cbn [split] in Hp. rewrite decide_True in Hp by done.
    apply Forall_inv in Hp. by destruct Hp.
  - apply not_true_iff_false. intros Hs%ends_with_char. apply last_Some in Hs as [l Hl].
    assert (s = (string_of_bytes l +:+ String "/" "")%string) as ->.
    { apply bytes_of_inj. rewrite bytes_of_app, bytes_of_string_of_bytes, Hl. done. }
    rewrite split_app in Hp. apply Forall_app in Hp as [_ Hp]. apply Forall_inv in Hp.
    by destruct Hp.
Qed.

Lemma ends_with_slash s : ends_with "/" s = true → ∃ r, s = (r +:+ String "/" "")%string.
Proof.
  intros Hs%ends_with_char. apply last_Some in Hs as [l Hl]. exists (string_of_bytes l).
  apply bytes_of_inj. by rewrite bytes_of_app, bytes_of_string_of_bytes, Hl.
Qed.

Lemma starts_with_slash_app s t : s ≠ "" → starts_with "/" (s +:+ t)%string = starts_with "/" s.
Proof.
  intros Hs. apply eq_true_iff_eq. rewrite !starts_with_char, bytes_of_app. by destruct s.
Qed.

Lemma split_head_app sep s t :
  s ≠ "" → head (split sep (s +:+ String sep t)%string) = head (split sep s).
Proof. intros Hs. rewrite split_app. pose proof (split_nonnil sep s). by destruct (split sep s). Qed.

(** [components] of a directory and a relative path joined below it. *)
Lemma components_app dir rel :
  dir ≠ "" → components (dir +:+ String "/" rel)%string = components dir ++ parts rel.
Proof.
  intros Hd. unfold components, parts.
  rewrite starts_with_slash_app, split_head_app, split_app, bind_app, app_assoc by done. done.
Qed.

Lemma components_join_rel dir rel :
  starts_with "/" rel = false → head (split "/"%char rel) ≠ Some "." →
  components (path_join dir rel) = components dir ++ parts rel.
Proof.
  intros Hs Hdot. unfold path_join. rewrite Hs.
  destruct (bool_decide_reflect (dir = "")) as [->|Hd]; simpl.
  - change (("" +:+ rel)%string) with rel. unfold components. rewrite Hs. simpl.
    by rewrite bool_decide_false.
  - destruct (ends_with "/" dir) eqn:He; [|by apply components_app].
    apply ends_with_slash in He as [r ->].
    rewrite <-string_app_assoc. change ((String "/" "" +:+ rel)%string) with (String "/" rel).
    destruct (decide (r = "")) as [->|Hr].
    + done.
    + rewrite !components_app by done. unfold parts at 2. cbn. by rewrite app_nil_r.
Qed.

Lemma components_join dir rel :
  Forall proper (split "/"%char rel) → components (path_join dir rel) = components dir ++ parts rel.
Proof.
  intros Hp. destruct (relative_names rel Hp) as (Hs & _ & Hne).
  apply components_join_rel; [done|]. intros Hh.
  destruct (split "/" rel) as [|x l]; [done|]. injection Hh as ->. apply Forall_inv in Hp. by destruct Hp as (_ & ? & _).
Qed.

(** The names of a relative path; the empty path has none. *)
Definition names_of (path : string) : list string :=
  if decide (path = "") then [] else split "/"%char path.

Lemma names_of_join acc name :
  proper name → Forall proper (names_of acc) →
  names_of (path_join acc name) = names_of acc ++ [name].
Proof.
  intros (Hne & _ & _ & Hs) Hp.
  assert (starts_with "/" name = false) as Hst.
  { apply not_true_iff_false. rewrite starts_with_char. destruct name; [done|]. simpl. intros [= ->].
    apply Hs. left. }
  unfold names_of, path_join in *. rewrite Hst.
  destruct (decide (acc = "")) as [->|Ha]; simpl.
  - change (("" +:+ name)%string) with name. rewrite decide_False by done. by apply split_none.
  - destruct (relative_names acc Hp) as (_ & -> & _).
    rewrite bool_decide_false by done. simpl.
    change (("/" +:+ name)%string) with (String "/" name).
    rewrite decide_False by by destruct acc. by rewrite split_app, (split_none _ name).
Qed.

Lemma components_names path :
  path ≠ "" → Forall proper (names_of path) → components path = Normal <$> names_of path.
Proof.
  unfold names_of. intros Hne. rewrite decide_False by done. intros Hp.
  pose proof (components_join "" path Hp) as Hj.
  rewrite (parts_proper path _ eq_refl Hp) in Hj. change (components "") with (@nil Component) in Hj.
  rewrite app_nil_l in Hj. rewrite <-Hj. unfold path_join. by destruct (relative_names path Hp) as (-> & _ & _).
Qed.

Lemma components_join_names dir path :
  path ≠ "" → Forall proper (names_of path) →
  components (path_join dir path) = components dir ++ (Normal <$> names_of path).
Proof.
  intros Hne Hp. rewrite <-components_names by done. unfold names_of in *.
  rewrite decide_False in Hp by done. rewrite components_join by done. f_equal.
  rewrite components_names; unfold names_of; rewrite ?decide_False by done; [|done|done].
  by apply parts_proper.
Qed.

(** [segments.join("/")]. *)
Fixpoint join_slash (segments : list string) : string :=
  match segments with
  | [] => ""
  | [s] => s
  | s :: rest => (s +:+ "/" +:+ join_slash rest)%string
  end.

Lemma names_of_join_slash segments :
  Forall proper segments → names_of (join_slash segments) = segments.
Proof.
  unfold names_of. induction 1 as [|s rest Hs Hrest IH]; [done|].
  pose proof Hs as (Hne & _ & _ & Hno). destruct rest as [|s' rest].
  - cbn [join_slash]. rewrite decide_False by done. by apply split_none.
  - change (join_slash (s :: s' :: rest)) with (s +:+ String "/" (join_slash (s' :: rest)))%string.
    rewrite decide_False by by destruct s.
    rewrite split_app, (split_none _ s) by done. simpl app. f_equal.
    destruct (decide _); [discriminate|exact IH].
Qed.
