(* ===== verification/Tree.v ===== *)
(** * Directory trees

    The part of [tokio::fs] the orchestrator uses.  A tree maps a path, given as the list
    of its names, to a file or a directory; the text of a path is read by its components, so
    repeated separators and single dots do not matter.  An operation that the operating
    system refuses ([io_fault]) changes nothing; a failing write may leave the file
    truncated ([io_torn]). *)

From S2P Require Import Prelude Protocol Text Paths.

Open Scope Z_scope.

(** ** Paths as lists of names *)

Definition key (path : string) : list string :=
  components path ≫= λ c, match c with Normal name => [name] | ParentDir => [".."] | _ => [] end.

(** [p.starts_with(q)] on lists of names. *)
Definition under (root k : list string) : Prop := ∃ rest, k = root ++ rest.

Fixpoint strip_root (root k : list string) : option (list string) :=
  match root, k with
  | [], _ => Some k
  | r :: root, x :: k => if decide (r = x) then strip_root root k else None
  | _ :: _, [] => None
  end.

Definition underb (root k : list string) : bool := bool_decide (is_Some (strip_root root k)).

(** ** Trees *)

Inductive entry := File (content : list byte) | Directory.

#[export] Instance entry_eq_dec : EqDecision entry.
Proof. solve_decision. Defined.

Abbreviation tree := (gmap (list string) entry).

Inductive FsOp :=
  | OpMeta | OpRead | OpCreate | OpWrite | OpSync | OpMkdir | OpRemoveFile | OpRemoveDir | OpRename
  | OpList | OpNext.

#[export] Instance FsOp_eq_dec : EqDecision FsOp.
Proof. solve_decision. Defined.

Record FsIo := {
  io_fault : FsOp → list string → option string;
  io_torn : nat;
}.

Inductive FsError := NotFoundError | AlreadyExistsError | OtherError (message : string).

Definition fs_error_text (e : FsError) : string :=
  match e with
  | NotFoundError => "No such file or directory (os error 2)"
  | AlreadyExistsError => "File exists (os error 17)"
  | OtherError m => m
  end.

(** A call changes the tree and answers. *)
Definition fs_call (A : Type) : Type := tree → tree * result FsError A.

Section calls.
Context (io : FsIo).

Definition guarded {A} (op : FsOp) (k : list string) (call : fs_call A) : fs_call A := λ t,
  match io_fault io op k with Some m => (t, Err (OtherError m)) | None => call t end.

(** [fs::metadata]. *)
Definition metadata (path : string) : fs_call entry :=
  guarded OpMeta (key path) (λ t, (t, ok_or (t !! key path) NotFoundError)).

(** [fs::read]. *)
Definition read (path : string) : fs_call (list byte) :=
  guarded OpRead (key path) (λ t,
    (t, match t !! key path with
        | Some (File content) => Ok content
        | Some Directory => Err (OtherError "Is a directory (os error 21)")
        | None => Err NotFoundError
        end)).

(** The directory a name lives in exists; the top of the tree always does. *)
Definition has_parent (k : list string) (t : tree) : bool :=
  match removelast k with [] => true | parent => bool_decide (t !! parent = Some Directory) end.

(** [fs::read_to_string]; the bytes are UTF-8 when decoding them replaces nothing. *)
Definition is_utf8 (bs : list byte) : bool := bool_decide (utf8_lossy (length bs) bs = bs).
Definition read_to_string (path : string) : fs_call string := λ t,
  match read path t with
  | (t, Ok content) =>
    (t, if is_utf8 content then Ok (string_of_bytes content)
        else Err (OtherError "stream did not contain valid UTF-8"))
  | (t, Err e) => (t, Err e)
  end.

(** [fs::write]: the file is truncated first, so a fault may leave a prefix. *)
Definition write (path : string) (content : list byte) : fs_call unit := λ t,
  let k := key path in
  match t !! k with
  | Some Directory => (t, Err (OtherError "Is a directory (os error 21)"))
  | _ =>
    if has_parent k t then
      match io_fault io OpWrite k with
      | Some m => (<[k := File (take (io_torn io) content)]> t, Err (OtherError m))
      | None => (<[k := File content]> t, Ok tt)
      end
    else (t, Err NotFoundError)
  end.

(** [File::create]; [write_all] on the file is [write] and [sync_all] is [sync_file]. *)
Definition create_file (path : string) : fs_call unit := λ t,
  let k := key path in
  match t !! k with
  | Some Directory => (t, Err (OtherError "Is a directory (os error 21)"))
  | _ =>
    if has_parent k t then guarded OpCreate k (λ t, (<[k := File []]> t, Ok tt)) t
    else (t, Err NotFoundError)
  end.
(** [OpenOptions::new().create_new(true)]. *)
Definition create_new_file (path : string) : fs_call unit := λ t,
  let k := key path in
  match t !! k with
  | Some _ => (t, Err AlreadyExistsError)
  | None =>
    if has_parent k t then guarded OpCreate k (λ t, (<[k := File []]> t, Ok tt)) t
    else (t, Err NotFoundError)
  end.
Definition sync_file (path : string) : fs_call unit := guarded OpSync (key path) (λ t, (t, Ok tt)).

(** [fs::canonicalize] in a tree without symbolic links, whose top is the working directory. *)
Definition canonicalize (path : string) : fs_call string :=
  guarded OpMeta (key path) (λ t,
    (t, match t !! key path, key path with
        | Some _, _ | None, [] => Ok ("/" +:+ join_slash (key path))%string
        | None, _ => Err NotFoundError
        end)).

(** Every directory on the way to [rest] below [done]; a file in the way is an error. *)
Fixpoint mkdirs (done rest : list string) (t : tree) : tree * result FsError unit :=
  match rest with
  | [] => (t, Ok tt)
  | name :: rest =>
    let k := done ++ [name] in
    match t !! k with
    | Some (File _) => (t, Err (OtherError "Not a directory (os error 20)"))
    | _ => mkdirs k rest (<[k := Directory]> t)
    end
  end.

(** [fs::create_dir_all]. *)
Definition create_dir_all (path : string) : fs_call unit :=
  guarded OpMkdir (key path) (mkdirs [] (key path)).

(** [fs::copy] of a file. *)
Definition copy (from_ to_ : string) : fs_call unit := λ t,
  match read from_ t with
  | (t, Ok content) => write to_ content t
  | (t, Err e) => (t, Err e)
  end.

(** [fs::remove_file]. *)
Definition remove_file (path : string) : fs_call unit :=
  guarded OpRemoveFile (key path) (λ t,
    match t !! key path with
    | Some (File _) => (delete (key path) t, Ok tt)
    | Some Directory => (t, Err (OtherError "Is a directory (os error 21)"))
    | None => (t, Err NotFoundError)
    end).

Definition prune (k : list string) (t : tree) : tree := filter (λ '(x, _), underb k x = false) t.

(** [fs::remove_dir_all]. *)
Definition remove_dir_all_key (k : list string) : fs_call unit :=
  guarded OpRemoveDir k (λ t,
    match t !! k with
    | Some Directory => (prune k t, Ok tt)
    | Some (File _) => (t, Err (OtherError "Not a directory (os error 20)"))
    | None => (t, Err NotFoundError)
    end).
Definition remove_dir_all (path : string) : fs_call unit := remove_dir_all_key (key path).

(** The subtree at [from], moved to [to]. *)
Definition moved (from to : list string) (t : tree) : tree :=
  list_to_map (omap (λ '(x, e), rest ← strip_root from x; Some (to ++ rest, e)) (map_to_list t)).

Definition is_leaf_dir (k : list string) (t : tree) : bool :=
  bool_decide (t !! k = Some Directory) &&
  forallb (λ '(x, _), negb (underb k x) || bool_decide (x = k)) (map_to_list t).

(** [fs::rename].  A file replaces a file; the target of a directory is missing or an empty
    directory, and not inside the source. *)
Definition rename (from_ to_ : string) : fs_call unit := λ t,
  let from := key from_ in let to := key to_ in
  match io_fault io OpRename from with
  | Some m => (t, Err (OtherError m))
  | None =>
    match t !! from with
    | None => (t, Err NotFoundError)
    | Some (File content) =>
      if negb (has_parent to t) then (t, Err NotFoundError)
      else if bool_decide (t !! to = Some Directory)
      then (t, Err (OtherError "Is a directory (os error 21)"))
      else (<[to := File content]> (delete from t), Ok tt)
    | Some Directory =>
      if underb from to then (t, Err (OtherError "Invalid argument (os error 22)"))
      else if negb (has_parent to t) then (t, Err NotFoundError)
      else if bool_decide (is_Some (t !! to)) && negb (is_leaf_dir to t)
      then (t, Err (OtherError "Directory not empty (os error 39)"))
      else (moved from to t ∪ prune from t, Ok tt)
    end
  end.

(** [fs::read_dir]: the names in a directory, in some order; a directory entry is a name a
    path can have. *)
Definition child_of (k x : list string) : option string :=
  match strip_root k x with
  | Some [name] => if decide (proper name) then Some name else None
  | _ => None
  end.
Definition children_of (k : list string) (t : tree) : list string :=
  omap (λ '(x, _), child_of k x) (map_to_list t).
Definition read_dir (path : string) : fs_call (list string) :=
  guarded OpList (key path) (λ t,
    (t, match t !! key path with
        | Some Directory => Ok (children_of (key path) t)
        | Some (File _) => Err (OtherError "Not a directory (os error 20)")
        | None => Err NotFoundError
        end)).

End calls.

(** ** The orchestrator's monad: the tree is threaded, errors are the daemon's *)

Definition fsm (A : Type) : Type := tree → tree * iresult A.

#[export] Instance fsm_ret : MRet fsm := λ A a t, (t, Ok a).
#[export] Instance fsm_bind : MBind fsm := λ A B f m t,
  match m t with (t, Ok a) => f a t | (t, Err e) => (t, Err e) end.

(** [call.map_err(f)?]. *)
Definition lift {A} (call : fs_call A) (f : FsError → ImagodError) : fsm A := λ t,
  let '(t, r) := call t in (t, map_err f r).
(** A pure result. *)
Definition pure {A} (r : iresult A) : fsm A := λ t, (t, r).
(** Run a call and look at its outcome. *)
Definition attempt {A} (call : fs_call A) : fsm (result FsError A) := λ t,
  let '(t, r) := call t in (t, Ok r).

(** [while let Some(entry) = entries.next_entry().await? { .. }] over a listing: the next entry may
    fail to be read, also the one after the last. *)
Fixpoint for_entries {S} (io : FsIo) (dir : string) (err : string → ImagodError)
    (body : string → S → fsm S) (names : list string) (s : S) : fsm S :=
  match names with
  | [] =>
    match io_fault io OpNext (key dir) with Some m => pure (Err (err m)) | None => mret s end
  | name :: rest =>
    match io_fault io OpNext (key dir ++ [name]) with
    | Some m => pure (Err (err m))
    | None => s ← body name s; for_entries io dir err body rest s
    end
  end.

Lemma fsm_bind_inv {A B} (m : fsm A) (f : A → fsm B) t t' b :
  (m ≫= f) t = (t', Ok b) → ∃ t1 a, m t = (t1, Ok a) ∧ f a t1 = (t', Ok b).
Proof. unfold mbind, fsm_bind. destruct (m t) as [t1 [a|e]]; [eauto|done]. Qed.

Lemma pure_inv {A} (r : iresult A) t t' a : pure r t = (t', Ok a) → t = t' ∧ r = Ok a.
Proof. by intros [= -> ->]. Qed.

Lemma mret_inv {A} (x a : A) t t' : (mret x : fsm A) t = (t', Ok a) → t = t' ∧ x = a.
Proof. by intros [= -> ->]. Qed.

(** Split a run of the monad that answered [Ok] into the runs of its parts. *)
Ltac inv_fsm :=
  repeat match goal with
  | H : (_ ≫= _) _ = (_, Ok _) |- _ => apply fsm_bind_inv in H as (? & ? & ? & H)
  | H : pure _ _ = (_, Ok _) |- _ => apply pure_inv in H as [? H]; subst; inv_ok
  | H : mret _ _ = (_, Ok _) |- _ => apply mret_inv in H as [? H]; subst
  | H : (let '(_, _) := ?x in _) _ = (_, Ok _) |- _ => is_var x; destruct x
  end.
