(* ===== verification/TreeFacts.v ===== *)
(** * What an operation on a directory tree may change

    [touches P C m]: the only places [m] may change are those in [P], and the missing
    directories in [C], which it may create.  Every call of [Tree] has such a bound, and the
    bounds compose along the monad. *)

From S2P Require Import Prelude Protocol Text Paths Tree.

Open Scope Z_scope.

(** ** [under] *)

Lemma under_refl k : under k k.
Proof. exists []. by rewrite app_nil_r. Qed.
Lemma under_app k l : under k (k ++ l).
Proof. by exists l. Qed.
Lemma under_trans a b c : under a b → under b c → under a c.
Proof. intros [l ->] [l' ->]. exists (l ++ l'). by rewrite app_assoc. Qed.
Lemma under_app_cancel r a b : under (r ++ a) (r ++ b) ↔ under a b.
Proof.
  split; intros [l Hl].
  - exists l. rewrite <-app_assoc in Hl. by apply app_inv_head in Hl.
  - exists l. by rewrite Hl, app_assoc.
Qed.
Lemma under_cons a l b k : under (a :: l) (b :: k) ↔ a = b ∧ under l k.
Proof. unfold under. simpl. naive_solver. Qed.
Lemma under_nil_l k : under [] k.
Proof. by exists k. Qed.
Lemma under_nil_r a l : ¬ under (a :: l) [].
Proof. by intros [? ?]. Qed.

Lemma strip_root_Some root k rest : strip_root root k = Some rest ↔ k = root ++ rest.
Proof.
  revert k. induction root as [|r root IH]; intros k; simpl; [naive_solver|].
  destruct k as [|x k]; [naive_solver|]. case_decide as E; [subst|naive_solver].
  rewrite IH. naive_solver.
Qed.

Lemma underb_true root k : underb root k = true ↔ under root k.
Proof.
  unfold underb, under. rewrite bool_decide_eq_true. unfold is_Some.
  by setoid_rewrite strip_root_Some.
Qed.

Lemma underb_false root k : underb root k = false ↔ ¬ under root k.
Proof. rewrite <-underb_true. by destruct (underb root k). Qed.

#[export] Instance under_dec root k : Decision (under root k).
Proof.
  destruct (underb root k) eqn:E; [left; by apply underb_true|right; by apply underb_false].
Defined.

(** Settles whether one path is below another, when both extend the same directory. *)
Ltac solve_under :=
  repeat match goal with
  | H : under (?r ++ _) (?r ++ _) |- _ => apply under_app_cancel in H
  | H : under (_ :: _) (_ :: _) |- _ => apply under_cons in H as [? H]
  | H : under (_ :: _) [] |- _ => by apply under_nil_r in H
  | H : under _ _ |- _ => progress cbn [app] in H
  end; simplify_eq; try done.

(** ** Bounds *)

Definition changed_within (P C : list string → Prop) (t t' : tree) : Prop :=
  ∀ x, P x ∨ t' !! x = t !! x ∨ (C x ∧ t !! x = None ∧ t' !! x = Some Directory).

Definition touches {A} (P C : list string → Prop) (m : tree → tree * A) : Prop :=
  ∀ t, changed_within P C t (m t).1.

Lemma changed_refl P C t : changed_within P C t t.
Proof. intros x. by right; left. Qed.

Lemma changed_trans P C t1 t2 t3 :
  changed_within P C t1 t2 → changed_within P C t2 t3 → changed_within P C t1 t3.
Proof.
  intros H1 H2 x. destruct (H1 x) as [?|[E|(? & E & E1)]]; [by left| |].
  - destruct (H2 x) as [?|[E2|(? & E2 & ?)]]; [by left| |].
    + right; left. by rewrite E2.
    + right; right. by rewrite <-E.
  - destruct (H2 x) as [?|[E2|(? & E2 & ?)]]; [by left| |by rewrite E1 in E2].
    right; right. by rewrite E2.
Qed.

Definition nothing : list string → Prop := λ _, False.

Lemma touches_mono {A} (P C P' C' : list string → Prop) (m : tree → tree * A) :
  touches P C m → (∀ x, P x → P' x) → (∀ x, C x → P' x ∨ C' x) → touches P' C' m.
Proof. intros Hm HP HC t x. destruct (Hm t x) as [?|[?|(Hc & ? & ?)]]; [by left; auto|by auto|].
  destruct (HC _ Hc); auto.
Qed.

Lemma touches_pure {A} P C (r : iresult A) : touches P C (pure r).
Proof. intros t x. by right; left. Qed.
Lemma touches_ret {A} P C (a : A) : touches P C (mret a : fsm A).
Proof. intros t x. by right; left. Qed.

Lemma touches_lift {A} P C (c : fs_call A) f : touches P C c → touches P C (lift c f).
Proof. intros Hc t x. specialize (Hc t x). unfold lift. by destruct (c t). Qed.
Lemma touches_attempt {A} P C (c : fs_call A) : touches P C c → touches P C (attempt c).
Proof. intros Hc t x. specialize (Hc t x). unfold attempt. by destruct (c t). Qed.

Lemma touches_bind_known {A B} P C (m : fsm A) (f : A → fsm B) :
  touches P C m → (∀ t t1 a, m t = (t1, Ok a) → touches P C (f a)) → touches P C (m ≫= f).
Proof.
  intros Hm Hf t. unfold mbind, fsm_bind. specialize (Hm t).
  destruct (m t) as [t1 [a|e]] eqn:Em; [|done].
  eapply changed_trans; [exact Hm|]. by apply (Hf t t1 a Em t1).
Qed.

Lemma touches_bind {A B} P C (m : fsm A) (f : A → fsm B) :
  touches P C m → (∀ a, touches P C (f a)) → touches P C (m ≫= f).
Proof. intros Hm Hf. by apply touches_bind_known. Qed.

Lemma touches_bind_pure {A B} P C (r : iresult A) (f : A → fsm B) :
  (∀ a, r = Ok a → touches P C (f a)) → touches P C (pure r ≫= f).
Proof.
  intros Hf t x. unfold mbind, fsm_bind, pure. destruct r as [a|e]; [|by right; left].
  by apply Hf.
Qed.

Lemma touches_for_entries {S} P C io dir err (body : string → S → fsm S) names s :
  (∀ name s, name ∈ names → touches P C (body name s)) →
  touches P C (for_entries io dir err body names s).
Proof.
  revert s. induction names as [|n names IH]; intros s Hb; simpl;
    (destruct (io_fault _ _ _); [apply touches_pure|]); [apply touches_ret|].
  apply touches_bind; [apply Hb; left|]. intros a. apply IH. intros. apply Hb. by right.
Qed.

(** *** Calls *)

Section calls.
Context (io : FsIo).

Lemma touches_guarded {A} P C op k (c : fs_call A) : touches P C c → touches P C (guarded io op k c).
Proof. intros Hc t x. unfold guarded. destruct (io_fault io op k); [by right; left|apply Hc]. Qed.

Lemma touches_metadata P C path : touches P C (metadata io path).
Proof. apply touches_guarded. intros t x. by right; left. Qed.
Lemma touches_read P C path : touches P C (read io path).
Proof. apply touches_guarded. intros t x. by right; left. Qed.
Lemma touches_read_dir P C path : touches P C (read_dir io path).
Proof. apply touches_guarded. intros t x. by right; left. Qed.
Lemma read_same path t : (read io path t).1 = t.
Proof. unfold read, guarded. by destruct (io_fault _ _ _). Qed.
Lemma touches_read_to_string P C path : touches P C (read_to_string io path).
Proof.
  intros t x. right; left. unfold read_to_string. pose proof (read_same path t) as E.
  destruct (read io path t) as [t1 [c|e]]; simpl in *; by rewrite E.
Qed.

Lemma touches_write (P C : list string → Prop) path content :
  P (key path) → touches P C (write io path content).
Proof.
  intros Hp t x. unfold write. destruct (decide (x = key path)) as [->|Hx]; [by left|]. right; left.
  repeat case_match; simpl; rewrite ?lookup_insert_ne by done; done.
Qed.

Lemma touches_copy (P C : list string → Prop) from_ to_ :
  P (key to_) → touches P C (copy io from_ to_).
Proof.
  intros Hp t x. unfold copy. pose proof (read_same from_ t) as E.
  destruct (read io from_ t) as [t1 [c|e]]; simpl in E; subst; [|by right; left].
  by apply touches_write.
Qed.

Lemma touches_remove_file (P C : list string → Prop) path :
  P (key path) → touches P C (remove_file io path).
Proof.
  intros Hp. apply touches_guarded. intros t x. destruct (decide (x = key path)) as [->|Hx]; [by left|].
  right; left. repeat case_match; simpl; rewrite ?lookup_delete_ne by done; done.
Qed.

Lemma touches_mkdirs (P C : list string → Prop) : ∀ rest done,
  (∀ x, under x (done ++ rest) → C x) → touches P C (mkdirs done rest).
Proof.
  induction rest as [|name rest IH]; intros done HC t x; simpl; [by right; left|].
  assert (∀ y, under y ((done ++ [name]) ++ rest) → C y) as HC'
    by (intros y Hy; apply HC; by rewrite <-app_assoc in Hy).
  assert (C (done ++ [name])) as Hk by (apply HC'; apply under_app).
  specialize (IH _ HC' (<[done ++ [name] := Directory]> t) x).
  destruct (t !! (done ++ [name])) as [[c|]|] eqn:E; [by right; left|..];
    (destruct (decide (x = done ++ [name])) as [->|Hx];
     [rewrite lookup_insert_eq in IH|rewrite lookup_insert_ne in IH by done; exact IH]).
  - destruct IH as [?|[->|(? & ? & ?)]]; [by left| |done]. right; left. by rewrite E.
  - destruct IH as [?|[->|(? & ? & ?)]]; [by left| |done]. by right; right.
Qed.

Lemma touches_create_dir_all (P C : list string → Prop) path :
  (∀ x, under x (key path) → C x) → touches P C (create_dir_all io path).
Proof. intros HC. by apply touches_guarded, touches_mkdirs. Qed.

Lemma lookup_prune k t x : prune k t !! x = if underb k x then None else t !! x.
Proof.
  unfold prune. destruct (underb k x) eqn:E.
  - apply map_lookup_filter_None. right. intros e _. simpl. by rewrite E.
  - destruct (t !! x) as [e|] eqn:Ex.
    + apply map_lookup_filter_Some. by rewrite E.
    + apply map_lookup_filter_None. by left.
Qed.

Lemma touches_remove_dir_all (P C : list string → Prop) path :
  (∀ x, under (key path) x → P x) → touches P C (remove_dir_all io path).
Proof.
  intros HP. apply touches_guarded. intros t x.
  destruct (t !! key path) as [[c|]|]; simpl; [by right; left| |by right; left].
  rewrite lookup_prune. destruct (underb _ _) eqn:E; [|by right; left]. left. by apply HP, underb_true.
Qed.

Lemma lookup_moved_out from to t x : ¬ under to x → moved from to t !! x = None.
Proof.
  intros Hx. apply not_elem_of_list_to_map_1. intros Hin.
  apply list_elem_of_fmap in Hin as ([y e] & -> & Hy). apply list_elem_of_omap in Hy as ([z e'] & _ & Hz).
  destruct (strip_root from z) as [rest|]; simpl in Hz; [|done]. injection Hz as <- <-.
  by apply Hx, under_app.
Qed.

Lemma touches_rename (P C : list string → Prop) from_ to_ :
  (∀ x, under (key from_) x → P x) → (∀ x, under (key to_) x → P x) →
  touches P C (rename io from_ to_).
Proof.
  intros Hfrom Hto t x. destruct (decide (under (key from_) x)) as [?|Hf]; [by left; auto|].
  destruct (decide (under (key to_) x)) as [?|Ht]; [by left; auto|]. right; left.
  unfold rename. repeat case_match; try done; cbn [fst].
  - rewrite lookup_insert_ne by (intros <-; apply Ht, under_refl).
    by rewrite lookup_delete_ne by (intros <-; apply Hf, under_refl).
  - rewrite lookup_union_r by by apply lookup_moved_out.
    rewrite lookup_prune. by rewrite (proj2 (underb_false _ _) Hf).
Qed.

End calls.

(** *** One place

    [stays x m]: [m] leaves what is at [x] alone, unless it is a directory. *)

Definition stays {A} (x : list string) (m : tree → tree * A) : Prop :=
  ∀ t, t !! x ≠ Some Directory → (m t).1 !! x = t !! x.

Lemma touches_stays {A} (P C : list string → Prop) (x : list string) (m : tree → tree * A) :
  touches P C m → ¬ P x → ¬ C x → stays x m.
Proof. intros Hm HP HC t _. destruct (Hm t x) as [?|[?|(? & _)]]; done. Qed.

Lemma stays_bind {A B} (x : list string) (m : fsm A) (f : A → fsm B) :
  stays x m → (∀ a, stays x (f a)) → stays x (m ≫= f).
Proof.
  intros Hm Hf t Ht. unfold mbind, fsm_bind. specialize (Hm t Ht).
  destruct (m t) as [t1 [a|e]]; [|done]. simpl in *. rewrite (Hf a t1); [done|by rewrite Hm].
Qed.

Lemma stays_for_entries {S} (x : list string) io dir err (body : string → S → fsm S) names s :
  (∀ name s, name ∈ names → stays x (body name s)) → stays x (for_entries io dir err body names s).
Proof.
  revert s. induction names as [|n names IH]; intros s Hb; simpl; (destruct (io_fault _ _ _); [done|]);
    [done|].
  apply stays_bind; [apply Hb; left|]. intros a. apply IH. intros. apply Hb. by right.
Qed.

Lemma touches_directory {A} (P C : list string → Prop) (x : list string) (m : tree → tree * A) t :
  touches P C m → ¬ P x → t !! x = Some Directory → (m t).1 !! x = Some Directory.
Proof. intros Hm HP Ht. destruct (Hm t x) as [?|[?|(_ & ? & _)]]; congruence. Qed.

Lemma mkdirs_directory : ∀ rest acc t t' u,
  mkdirs acc rest t = (t', Ok u) → rest ≠ [] → t' !! (acc ++ rest) = Some Directory.
Proof.
  induction rest as [|name rest IH]; intros acc t t' u H Hne; [done|]. simpl in H.
  assert (mkdirs (acc ++ [name]) rest (<[acc ++ [name] := Directory]> t) = (t', Ok u)) as H'
    by (destruct (t !! (acc ++ [name])) as [[c|]|]; done).
  destruct rest as [|n rest].
  - injection H' as <- _. by rewrite lookup_insert_eq.
  - apply IH in H'; [|done]. by rewrite <-app_assoc in H'.
Qed.

Lemma create_dir_all_directory io path t t' u :
  create_dir_all io path t = (t', Ok u) → key path ≠ [] → t' !! key path = Some Directory.
Proof.
  unfold create_dir_all, guarded. destruct (io_fault _ _ _); [done|]. intros H Hne.
  by apply mkdirs_directory in H.
Qed.

Lemma write_Ok io path content t :
  io_fault io OpWrite (key path) = None → t !! key path ≠ Some Directory → has_parent (key path) t = true →
  write io path content t = (<[key path := File content]> t, Ok tt).
Proof.
  intros Hf Hd Hp. unfold write. rewrite Hp, Hf. by destruct (t !! key path) as [[|]|].
Qed.

Lemma write_Ok_inv io path content t t' u :
  write io path content t = (t', Ok u) → t' = <[key path := File content]> t.
Proof. unfold write. repeat case_match; naive_solver. Qed.

Lemma has_parent_snoc k name t :
  k ≠ [] → has_parent (k ++ [name]) t = bool_decide (t !! k = Some Directory).
Proof. intros Hk. unfold has_parent. rewrite removelast_last. by destruct k. Qed.

Lemma lift_inv {A} (c : fs_call A) f t t' a : lift c f t = (t', Ok a) → c t = (t', Ok a).
Proof. unfold lift. destruct (c t) as [t1 [x|e]]; naive_solver. Qed.

Lemma read_dir_proper io path t t1 names :
  read_dir io path t = (t1, Ok names) → Forall proper names.
Proof.
  unfold read_dir, guarded. repeat case_match; intros [= <- <-]. apply Forall_forall.
  intros name (p & _ & Hp)%list_elem_of_omap. destruct p as [y ?]. unfold child_of in Hp.
  repeat case_match; naive_solver.
Qed.

(** Peel a monadic definition down to its calls. *)
Ltac touch :=
  repeat match goal with
  | |- ∀ _, _ => intro
  | |- touches _ _ (pure _ ≫= _) => apply touches_bind_pure
  | |- touches _ _ (_ ≫= _) => apply touches_bind
  | |- touches _ _ (pure _) => apply touches_pure
  | |- touches _ _ (mret _) => apply touches_ret
  | |- touches _ _ (lift _ _) => apply touches_lift
  | |- touches _ _ (attempt _) => apply touches_attempt
  | |- touches _ _ (for_entries _ _ _ _ _ _) => apply touches_for_entries
  | |- touches _ _ (metadata _ _) => apply touches_metadata
  | |- touches _ _ (read _ _) => apply touches_read
  | |- touches _ _ (read_dir _ _) => apply touches_read_dir
  | |- touches _ _ (read_to_string _ _) => apply touches_read_to_string
  | |- touches _ _ (match _ with _ => _ end) => case_match
  end.
