(* ===== verification/Manifest.v ===== *)
(** * Manifests and launches

    [crates/imagod-control/src/orchestrator/manifest.rs], [launch_builder.rs] and
    [plugin_cache.rs]: what a release manifest may say, how its paths are normalized, and
    how a validated manifest becomes the launch the supervisor starts.  [serde_json] and
    [wasmparser] are the class [ManifestCrates].

    Shown: a normalized path stays below the directory it is joined to; and the launch
    built from a manifest makes a bootstrap that the runner's own validation accepts. *)

From S2P Require Import Prelude Protocol Text LogBuffer IpAddr Ipc Supervisor Paths Tree.

Open Scope Z_scope.

Definition STAGE_ORCHESTRATE : string := "orchestration".
Definition DEFAULT_HTTP_MAX_BODY_BYTES : Z := 4 * 1024 * 1024.
Definition MAX_HTTP_MAX_BODY_BYTES : Z := 32 * 1024 * 1024.

Definition map_internal_orch (message : string) : ImagodError :=
  with_retryable true (new_error Internal STAGE_ORCHESTRATE message).
Definition map_bad_manifest (message : string) : ImagodError :=
  new_error BadManifest STAGE_ORCHESTRATE message.

(** ** Data *)

Inductive HashTarget := TargetWasm | TargetManifest | TargetAssets.

#[export] Instance HashTarget_eq_dec : EqDecision HashTarget.
Proof. solve_decision. Defined.

Record ManifestHash := { mh_algorithm : string; mh_targets : list HashTarget }.
Record ManifestBinding := { mb_name : string; mb_wit : string }.
Record ManifestHttp := { mt_port : Z; mt_listen_addr : string; mt_max_body_bytes : Z }.
Record ManifestWasiMount := { mw_asset_dir : string; mw_guest_path : string }.

Record ManifestResourcesConfig `{Json} := {
  mr_args : list string;
  mr_env : gmap string string;
  mr_http_outbound : list string;
  mr_mounts : list ManifestWasiMount;
  mr_read_only_mounts : list ManifestWasiMount;
  mr_extra : gmap string JsonValue;
}.

Record Manifest `{Json} := {
  m_name : string;
  m_main : string;
  m_app_type : RunnerAppType;
  m_http : option ManifestHttp;
  m_socket : option RunnerSocketConfig;
  m_resources : option ManifestResourcesConfig;
  m_assets : list string;
  m_bindings : list ManifestBinding;
  m_dependencies : list PluginDependency;
  m_capabilities : CapabilityPolicy;
  m_hash : ManifestHash;
}.

(** A payload of the component parser; an item is a name and whether it is an instance. *)
Inductive WasmPayload :=
  | PImports (items : list (result string (string * bool)))
  | PExports (items : list (result string (string * bool)))
  | PNested
  | PEnd
  | POther.

Class ManifestCrates `{Json} := {
  manifest_from_json : list byte → result string Manifest;
  wasm_parse_all : list byte → list (result string WasmPayload);
}.

(** ** Paths *)

Definition windows_prefixed (raw : string) : bool :=
  match raw with String _ (String c _) => bool_decide (c = ":"%char) | _ => false end.

(** The loop over the components; [push] joins. *)
Fixpoint normalize_components (invalid : ImagodError) (normalized : string) (cs : list Component)
    : iresult string :=
  match cs with
  | [] => Ok normalized
  | CurDir :: rest => normalize_components invalid normalized rest
  | Normal segment :: rest => normalize_components invalid (path_join normalized segment) rest
  | (ParentDir | RootDir) :: _ => Err invalid
  end.

Definition normalize_archive_entry_path (path : string) : iresult string :=
  let invalid := map_bad_manifest ("artifact contains invalid entry path: " +:+ path) in
  if bool_decide (path = "") then Err (map_bad_manifest "artifact contains empty entry path")
  else if is_absolute path
  then Err (map_bad_manifest ("artifact contains absolute entry path: " +:+ path))
  else if windows_prefixed path
  then Err (map_bad_manifest ("artifact contains windows-prefixed entry path: " +:+ path))
  else
    normalized ← normalize_components invalid "" (components path);
    if bool_decide (normalized = "") then Err invalid else Ok normalized.

Definition normalize_relative_path (raw field_name : string) : iresult string :=
  if bool_decide (raw = "") then Err (map_bad_manifest (field_name +:+ " must not be empty"))
  else if is_absolute raw
  then Err (map_bad_manifest (field_name +:+ " must be a relative path: " +:+ raw))
  else if windows_prefixed raw
  then Err (map_bad_manifest (field_name +:+ " must not be windows-prefixed: " +:+ raw))
  else
    normalized ← normalize_components
      (map_bad_manifest (field_name +:+ " contains invalid path traversal: " +:+ raw)) ""
      (components raw);
    if bool_decide (normalized = "")
    then Err (map_bad_manifest (field_name +:+ " is invalid: " +:+ raw))
    else Ok normalized.

Definition normalize_main_path (main : string) : iresult string :=
  normalize_relative_path main "manifest.main".

(** [p.starts_with(base)], by components. *)
Definition path_starts_with (p base : string) : bool :=
  bool_decide (components base `prefix_of` components p).

Fixpoint guest_segments (field_name raw : string) (cs : list Component) : iresult (list string) :=
  match cs with
  | [] => Ok []
  | RootDir :: rest => guest_segments field_name raw rest
  | Normal segment :: rest =>
    segments ← guest_segments field_name raw rest; Ok (segment :: segments)
  | (ParentDir | CurDir) :: _ =>
    Err (map_bad_manifest (field_name +:+ " must not contain path traversal: " +:+ trim raw))
  end.

Definition normalize_wasi_guest_path (raw field_name : string) : iresult string :=
  let path := trim raw in
  if bool_decide (path = "") then Err (map_bad_manifest (field_name +:+ " must not be empty"))
  else if str_contains "\" raw
  then Err (map_bad_manifest (field_name +:+ " must not contain backslashes: " +:+ path))
  else if negb (is_absolute path)
  then Err (map_bad_manifest (field_name +:+ " must be an absolute path: " +:+ path))
  else if windows_prefixed path
  then Err (map_bad_manifest (field_name +:+ " must not be windows-prefixed: " +:+ path))
  else
    segments ← guest_segments field_name raw (components path);
    Ok ("/" +:+ join_slash segments)%string.

(** ** Names, hashes, sets *)

Definition validate_service_name (name : string) : iresult unit :=
  if bool_decide (name = "") then Err (map_bad_manifest "manifest.name must not be empty")
  else if str_contains "/" name || str_contains "\" name || str_contains ".." name
  then Err (map_bad_manifest ("manifest.name contains invalid path characters: " +:+ name))
  else
    ensure (all_chars (λ c, is_ascii_alphanumeric c || bool_decide (c = "."%char)
              || bool_decide (c = "_"%char) || bool_decide (c = "-"%char)) name)
      (map_bad_manifest ("manifest.name contains unsupported characters: " +:+ name)).

Definition validate_plugin_package_name (name : string) : iresult unit :=
  if bool_decide (name = "")
  then Err (map_bad_manifest "manifest.dependencies[].name must not be empty")
  else if str_contains "\" name || str_contains ".." name
  then Err (map_bad_manifest
              ("manifest dependency name contains invalid path characters: " +:+ name))
  else
    ensure (all_chars (λ c, is_ascii_alphanumeric c || bool_decide (c = "."%char)
              || bool_decide (c = "_"%char) || bool_decide (c = "-"%char)
              || bool_decide (c = ":"%char) || bool_decide (c = "/"%char)) name)
      (map_bad_manifest ("manifest dependency name contains unsupported characters: " +:+ name)).

Definition validate_sha256_hex (value field_name : string) : iresult unit :=
  ensure (bool_decide (String.length value = 64%nat) && all_chars is_ascii_hexdigit value)
    (map_bad_manifest (field_name +:+ " must be a 64-character hex string")).

(** A [BTreeSet<String>] built from a list and listed in order. *)
Definition sorted_set (values : list string) : list string :=
  btree_keys (list_to_map ((λ v, (v, tt)) <$> values) : gmap string unit).

Definition normalize_string_set (values : list string) : list string :=
  sorted_set (filter (λ v, v ≠ "") (trim <$> values)).

Definition normalize_capability_rule_map (m : gmap string (list string)) : gmap string (list string) :=
  map_imap (λ key values,
    if is_blank key then None
    else
      let normalized := normalize_string_set values in
      if bool_decide (normalized = []) then None else Some normalized) m.

Definition normalize_capability_policy (policy : CapabilityPolicy) : CapabilityPolicy :=
  {| cap_privileged := cap_privileged policy;
     cap_deps := normalize_capability_rule_map (cap_deps policy);
     cap_wasi := normalize_capability_rule_map (cap_wasi policy) |}.

Definition required_hash_targets_valid (targets : list HashTarget) : bool :=
  bool_decide (TargetWasm ∈ targets) && bool_decide (TargetManifest ∈ targets)
  && bool_decide (TargetAssets ∈ targets) && bool_decide (length targets = 3%nat).

(** ** Validation of a manifest *)

Section manifest.
Context `{ManifestCrates, Crates}.

Definition parse_manifest (manifest_bytes : list byte) : iresult Manifest :=
  map_err (λ e, map_bad_manifest ("manifest parse failed: " +:+ e))
    (manifest_from_json manifest_bytes).

Definition validate_manifest_metadata (m : Manifest) (manifest_bytes : list byte)
    (expected_manifest_digest : option string) : iresult unit :=
  _ ← ensure (bool_decide (mh_algorithm (m_hash m) = "sha256")
              && required_hash_targets_valid (mh_targets (m_hash m)))
        (map_bad_manifest "manifest hash metadata is invalid");
  _ ← validate_service_name (m_name m);
  match expected_manifest_digest with
  | Some expected =>
    ensure (bool_decide (sha256_hex manifest_bytes = expected))
      (map_bad_manifest "manifest digest does not match artifact metadata")
  | None => Ok tt
  end.

Definition validate_release_service_name (m : Manifest) (expected_service_name : string)
    : iresult unit :=
  ensure (bool_decide (m_name m = expected_service_name))
    (map_bad_manifest ("release manifest name mismatch: expected " +:+ expected_service_name
       +:+ ", got " +:+ m_name m)).

Definition validate_http (m : Manifest) : iresult (option Z * option string * option Z) :=
  match m_app_type m with
  | Http =>
    http ← ok_or (m_http m) (map_bad_manifest ("manifest.http is required when type=" +:+ quoted "http"));
    _ ← ensure (negb (mt_port http =? 0))
          (map_bad_manifest "manifest.http.port must be in range 1..=65535");
    _ ← ok_or (parse_ip (mt_listen_addr http))
          (map_bad_manifest ("manifest.http.listen_addr must be a valid IP address literal (got '"
             +:+ mt_listen_addr http +:+ "'): invalid IP address syntax"));
    _ ← ensure (negb ((mt_max_body_bytes http =? 0)
                      || (MAX_HTTP_MAX_BODY_BYTES <? mt_max_body_bytes http)))
          (map_bad_manifest ("manifest.http.max_body_bytes must be in range 1..="
             +:+ to_string MAX_HTTP_MAX_BODY_BYTES +:+ " (got "
             +:+ to_string (mt_max_body_bytes http) +:+ ")"));
    Ok (Some (mt_port http), Some (mt_listen_addr http), Some (mt_max_body_bytes http))
  | Cli | Rpc | Socket =>
    match m_http m with
    | Some _ => Err (map_bad_manifest ("manifest.http is only allowed when type=" +:+ quoted "http"))
    | None => Ok (None, None, None)
    end
  end.

Definition validate_socket (m : Manifest) : iresult (option RunnerSocketConfig) :=
  match m_app_type m with
  | Socket =>
    socket ← ok_or (m_socket m) (map_bad_manifest ("manifest.socket is required when type=" +:+ quoted "socket"));
    _ ← ensure (negb (sock_listen_port socket =? 0))
          (map_bad_manifest "manifest.socket.listen_port must be in range 1..=65535");
    _ ← ok_or (parse_ip (sock_listen_addr socket))
          (map_bad_manifest ("manifest.socket.listen_addr must be a valid IP address (got '"
             +:+ sock_listen_addr socket +:+ "'): invalid IP address syntax"));
    Ok (Some socket)
  | Cli | Rpc | Http =>
    match m_socket m with
    | Some _ => Err (map_bad_manifest ("manifest.socket is only allowed when type=" +:+ quoted "socket"))
    | None => Ok None
    end
  end.

Definition at_index (field : string) (idx : Z) (rest : string) : string :=
  (field +:+ "[" +:+ to_string idx +:+ "]" +:+ rest)%string.

Fixpoint validate_bindings_from (idx : Z) (bindings : list ManifestBinding)
    : iresult (list ServiceBinding) :=
  match bindings with
  | [] => Ok []
  | b :: rest =>
    _ ← ensure (negb (bool_decide (mb_name b = "")))
          (map_bad_manifest (at_index "manifest.bindings" idx ".name must not be empty"));
    _ ← ensure (negb (bool_decide (mb_wit b = "")))
          (map_bad_manifest (at_index "manifest.bindings" idx ".wit must not be empty"));
    _ ← map_err (λ err, map_bad_manifest (at_index "manifest.bindings" idx
                   (".name is invalid '" +:+ mb_name b +:+ "': " +:+ err_message err)%string))
          (validate_service_name (mb_name b));
    normalized ← validate_bindings_from (idx + 1) rest;
    Ok ({| bind_name := mb_name b; bind_wit := mb_wit b |} :: normalized)
  end.
Definition validate_bindings (bindings : list ManifestBinding) : iresult (list ServiceBinding) :=
  validate_bindings_from 0 bindings.

(** ** Building a launch ([launch_builder.rs]) *)

(** A loop over [values.iter().enumerate()] that may return early. *)
Fixpoint fold_indexed {A S} (f : Z → A → S → iresult S) (idx : Z) (values : list A) (acc : S)
    : iresult S :=
  match values with
  | [] => Ok acc
  | v :: rest => acc ← f idx v acc; fold_indexed f (idx + 1) rest acc
  end.

Definition resolve_args (args : list string) : iresult (list string) :=
  fold_indexed (λ index arg acc,
    _ ← ensure (negb (is_blank arg))
          (map_bad_manifest (at_index "manifest.resources.args" index " must not be empty"));
    Ok (acc ++ [trim arg])) 0 args [].

Definition wasi_mount_to_json (mount : ManifestWasiMount) : JsonValue :=
  json_object (<["guest_path" := json_string (mw_guest_path mount)]>
               {["asset_dir" := json_string (mw_asset_dir mount)]}).

(** [if !values.is_empty() { map.insert(key, array) }]. *)
Definition insert_array {A} (key : string) (f : A → JsonValue) (values : list A)
    (m : gmap string JsonValue) : gmap string JsonValue :=
  match values with [] => m | _ => <[key := json_array (f <$> values)]> m end.

Definition build_resource_map (r : ManifestResourcesConfig) : gmap string JsonValue :=
  let m := insert_array "args" json_string (mr_args r) (mr_extra r) in
  let m := if bool_decide (mr_env r = ∅) then m
           else <["env" := json_object (json_string <$> mr_env r)]> m in
  let m := insert_array "http_outbound" json_string (mr_http_outbound r) m in
  let m := insert_array "mounts" wasi_mount_to_json (mr_mounts r) m in
  insert_array "read_only_mounts" wasi_mount_to_json (mr_read_only_mounts r) m.

Definition DEFAULT_WASI_HTTP_OUTBOUND : list string := ["localhost"; "127.0.0.1"; "::1"].

Definition push_new (rule : WasiHttpOutboundRule) (rules : list WasiHttpOutboundRule)
    : list WasiHttpOutboundRule :=
  if bool_decide (rule ∈ rules) then rules else rules ++ [rule].

Definition resolve_wasi_http_outbound_rules (values : list string) (field_name : string)
    : iresult (list WasiHttpOutboundRule) :=
  rules ← fold_indexed (λ _ default_value rules,
      rule ← map_err (λ err, map_bad_manifest ("failed to build default " +:+ field_name
                 +:+ " rule '" +:+ default_value +:+ "': " +:+ err)) (parse_rule default_value);
      Ok (push_new rule rules)) 0 DEFAULT_WASI_HTTP_OUTBOUND [];
  fold_indexed (λ index raw rules,
      rule ← map_err (λ err, map_bad_manifest (at_index field_name index
                 (" is invalid: " +:+ err)%string)) (parse_rule raw);
      Ok (push_new rule rules)) 0 values rules.

(** [parent()] of a normalized relative path. *)
Definition parent_dir (normalized : string) : string :=
  match rsplit_once "/"%char normalized with Some (parent, _) => parent | None => "" end.

Definition collect_allowed_asset_dirs (m : Manifest) : iresult (gset string) :=
  fold_indexed (λ index path dirs,
      normalized ← normalize_relative_path path (at_index "manifest.assets" index ".path");
      let parent := parent_dir normalized in
      Ok (if bool_decide (parent = "") then dirs else {[parent]} ∪ dirs)) 0 (m_assets m) ∅.

(** The three mutable accumulators of the mount loop. *)
Record MountsSeen := {
  seen_guest_paths : gset string;
  seen_asset_dirs : gset string;
  resolved_mounts : list RunnerWasiMount;
}.
Definition no_mounts : MountsSeen :=
  {| seen_guest_paths := ∅; seen_asset_dirs := ∅; resolved_mounts := [] |}.

Definition is_dir (e : entry) : bool := match e with Directory => true | File _ => false end.
Definition is_file (e : entry) : bool := negb (is_dir e).

Section launch.
Context (io : FsIo).

Definition resolve_wasi_mount_entry (release_dir field_name : string) (read_only : bool)
    (allowed_asset_dirs : gset string) (index : Z) (e : ManifestWasiMount) (acc : MountsSeen)
    : fsm MountsSeen :=
  let bad rest := map_bad_manifest (at_index field_name index rest) in
  asset_dir ← pure (normalize_relative_path (mw_asset_dir e) (at_index field_name index ".asset_dir"));
  _ ← pure (ensure (bool_decide (asset_dir ∈ allowed_asset_dirs))
        (bad ".asset_dir must match a directory derived from assets[].path"));
  _ ← pure (ensure (bool_decide (asset_dir ∉ seen_asset_dirs acc))
        (bad (".asset_dir duplicates another wasi mount entry: " +:+ asset_dir)%string));
  guest_path ← pure (normalize_wasi_guest_path (mw_guest_path e)
                       (at_index field_name index ".guest_path"));
  _ ← pure (ensure (bool_decide (guest_path ∉ seen_guest_paths acc))
        (bad (".guest_path duplicates another wasi mount entry: " +:+ guest_path)%string));
  let host_path := path_join release_dir asset_dir in
  _ ← pure (ensure (path_starts_with host_path release_dir)
        (bad (".asset_dir resolved outside release dir: " +:+ mw_asset_dir e)%string));
  meta ← lift (metadata io host_path) (λ err,
           bad (".asset_dir is not accessible: " +:+ host_path +:+ " (" +:+ fs_error_text err
                +:+ ")")%string);
  _ ← pure (ensure (is_dir meta)
        (bad (".asset_dir must resolve to a directory: " +:+ host_path)%string));
  mret {| seen_guest_paths := {[guest_path]} ∪ seen_guest_paths acc;
          seen_asset_dirs := {[asset_dir]} ∪ seen_asset_dirs acc;
          resolved_mounts := resolved_mounts acc ++
            [{| mount_host_path := host_path; mount_guest_path := guest_path;
                mount_read_only := read_only |}] |}.

Fixpoint resolve_wasi_mount_entries (release_dir field_name : string) (read_only : bool)
    (allowed_asset_dirs : gset string) (index : Z) (entries : list ManifestWasiMount)
    (acc : MountsSeen) : fsm MountsSeen :=
  match entries with
  | [] => mret acc
  | e :: rest =>
    acc ← resolve_wasi_mount_entry release_dir field_name read_only allowed_asset_dirs index e acc;
    resolve_wasi_mount_entries release_dir field_name read_only allowed_asset_dirs (index + 1) rest acc
  end.

Definition resolve_wasi_mounts (release_dir : string)
    (mounts_entries read_only_mounts_entries : list ManifestWasiMount)
    (allowed_asset_dirs : gset string) : fsm (list RunnerWasiMount) :=
  acc ← resolve_wasi_mount_entries release_dir "manifest.resources.mounts" false
          allowed_asset_dirs 0 mounts_entries no_mounts;
  acc ← resolve_wasi_mount_entries release_dir "manifest.resources.read_only_mounts" true
          allowed_asset_dirs 0 read_only_mounts_entries acc;
  mret (resolved_mounts acc).

Record ResolvedResourcesConfig := {
  rr_args : list string;
  rr_env : gmap string string;
  rr_mounts : list RunnerWasiMount;
  rr_http_outbound : list WasiHttpOutboundRule;
  rr_resources : gmap string JsonValue;
}.

Definition resolve_resources_config (release_dir : string) (m : Manifest)
    : fsm ResolvedResourcesConfig :=
  match m_resources m with
  | None =>
    http_outbound ← pure (resolve_wasi_http_outbound_rules [] "manifest.resources.http_outbound");
    mret {| rr_args := []; rr_env := ∅; rr_mounts := []; rr_http_outbound := http_outbound;
            rr_resources := ∅ |}
  | Some resources =>
    args ← pure (resolve_args (mr_args resources));
    _ ← pure (ensure (forallb (λ key, negb (is_blank key)) (btree_keys (mr_env resources)))
          (map_bad_manifest "manifest.resources.env contains empty key"));
    allowed_asset_dirs ← pure (collect_allowed_asset_dirs m);
    mounts ← resolve_wasi_mounts release_dir (mr_mounts resources) (mr_read_only_mounts resources)
               allowed_asset_dirs;
    http_outbound ← pure (resolve_wasi_http_outbound_rules (mr_http_outbound resources)
                            "manifest.resources.http_outbound");
    mret {| rr_args := args; rr_env := mr_env resources; rr_mounts := mounts;
            rr_http_outbound := http_outbound; rr_resources := build_resource_map resources |}
  end.

(** ** Plugin components ([plugin_cache.rs]) *)

Definition plugin_component_cache_root (storage_root : string) : string :=
  path_join (path_join storage_root "plugins") "components".

(** The chunked reads feed the digest the whole content. *)
Definition compute_sha256_hex_async (path : string) : fsm string :=
  content ← lift (read io path) (λ e, map_internal_orch
              ("failed to open file for sha256 " +:+ path +:+ ": " +:+ fs_error_text e));
  mret (sha256_hex content).

(** The names of the instance items of a section. *)
Fixpoint instance_names (what : string) (items : list (result string (string * bool)))
    (acc : list string) : iresult (list string) :=
  match items with
  | [] => Ok acc
  | Err err :: _ =>
    Err (map_bad_manifest ("component " +:+ what +:+ " metadata decode failed: " +:+ err))
  | Ok (name, is_instance) :: rest =>
    instance_names what rest (if is_instance : bool then name :: acc else acc)
  end.

Fixpoint collect_payloads (payloads : list (result string WasmPayload)) (nested_depth : Z)
    (imports exports : list string) : iresult (list string * list string) :=
  match payloads with
  | [] => Ok (imports, exports)
  | Err err :: _ => Err (map_bad_manifest ("component metadata parse failed: " +:+ err))
  | Ok payload :: rest =>
    match payload with
    | PImports items =>
      if nested_depth =? 0 then
        imports ← instance_names "import" items imports;
        collect_payloads rest nested_depth imports exports
      else collect_payloads rest nested_depth imports exports
    | PExports items =>
      if nested_depth =? 0 then
        exports ← instance_names "export" items exports;
        collect_payloads rest nested_depth imports exports
      else collect_payloads rest nested_depth imports exports
    | PNested => collect_payloads rest (nested_depth +ˢ 1) imports exports
    | PEnd =>
      if nested_depth =? 0 then Ok (imports, exports)
      else collect_payloads rest (nested_depth -ˢ 1) imports exports
    | POther => collect_payloads rest nested_depth imports exports
    end
  end.

Definition collect_component_instance_interface_metadata (component_bytes : list byte)
    : iresult (list string * list string) :=
  '(imports, exports) ← collect_payloads (wasm_parse_all component_bytes) 0 [] [];
  Ok (sorted_set imports, sorted_set exports).

Definition dep_field (dep : string) (rest : string) : string :=
  ("manifest.dependencies[" +:+ dep +:+ "]" +:+ rest)%string.

Fixpoint validate_dependency_names (dependencies : list PluginDependency) (known : gset string)
    : iresult (gset string) :=
  match dependencies with
  | [] => Ok known
  | dep :: rest =>
    _ ← validate_plugin_package_name (dep_name dep);
    _ ← ensure (negb (is_blank (dep_version dep)))
          (map_bad_manifest (dep_field (dep_name dep) ".version must not be empty"));
    _ ← ensure (negb (is_blank (dep_wit dep)))
          (map_bad_manifest (dep_field (dep_name dep) ".wit must not be empty"));
    _ ← ensure (bool_decide (dep_name dep ∉ known))
          (map_bad_manifest ("manifest.dependencies contains duplicate dependency '"
             +:+ dep_name dep +:+ "'"));
    validate_dependency_names rest ({[dep_name dep]} ∪ known)
  end.

Fixpoint validate_requires (dep : string) (known : gset string) (requires : list string)
    : iresult unit :=
  match requires with
  | [] => Ok tt
  | required :: rest =>
    _ ← validate_plugin_package_name required;
    _ ← ensure (bool_decide (required ∈ known))
          (map_bad_manifest (dep_field dep
             (".requires references unknown dependency '" +:+ required +:+ "'")%string));
    validate_requires dep known rest
  end.

(** Is the cached copy of a component the one the manifest names? *)
Definition cache_digest_matches (cache_path sha256 : string) : fsm bool :=
  existing ← attempt (metadata io cache_path);
  match existing with
  | Ok meta =>
    _ ← pure (ensure (is_file meta) (map_internal_orch
          ("plugin component cache path is not a file: " +:+ cache_path)));
    existing ← compute_sha256_hex_async cache_path;
    mret (eq_ignore_ascii_case existing sha256)
  | Err NotFoundError => mret false
  | Err err => pure (Err (map_internal_orch ("failed to inspect plugin component cache "
                 +:+ cache_path +:+ ": " +:+ fs_error_text err)))
  end.

Definition prepare_wasm_component (components_root release_dir dep : string)
    (component : PluginComponent) : fsm PluginComponent :=
  _ ← pure (validate_sha256_hex (pc_sha256 component) (dep_field dep ".component.sha256"));
  normalized ← pure (normalize_relative_path (pc_path component) (dep_field dep ".component.path"));
  let release_component_path := path_join release_dir normalized in
  meta ← lift (metadata io release_component_path) (λ e, map_bad_manifest
           ("plugin component is not accessible: " +:+ release_component_path +:+ " ("
            +:+ fs_error_text e +:+ ")"));
  _ ← pure (ensure (is_file meta) (map_bad_manifest
        ("plugin component path is not a file: " +:+ release_component_path)));
  digest ← compute_sha256_hex_async release_component_path;
  _ ← pure (ensure (eq_ignore_ascii_case digest (pc_sha256 component)) (map_bad_manifest
        ("plugin component sha256 mismatch for '" +:+ dep +:+ "': expected "
         +:+ pc_sha256 component +:+ ", actual " +:+ digest)));
  component_bytes ← lift (read io release_component_path) (λ e, map_bad_manifest
        ("failed to read plugin component bytes " +:+ release_component_path +:+ ": "
         +:+ fs_error_text e));
  '(imports, exports) ← pure (map_err (λ err, map_bad_manifest
        ("failed to extract plugin component metadata for '" +:+ dep +:+ "': " +:+ err_message err))
        (collect_component_instance_interface_metadata component_bytes));
  let cache_path := path_join components_root (pc_sha256 component +:+ ".wasm")%string in
  matches ← cache_digest_matches cache_path (pc_sha256 component);
  _ ← (if matches : bool then mret tt
       else lift (copy io release_component_path cache_path) (λ e, map_internal_orch
              ("failed to copy plugin component to cache " +:+ cache_path +:+ ": "
               +:+ fs_error_text e)));
  mret {| pc_path := cache_path; pc_sha256 := pc_sha256 component;
          pc_imports := Some imports; pc_exports := Some exports |}.

Definition prepare_plugin_dependency (components_root release_dir : string) (known : gset string)
    (dep : PluginDependency) : fsm PluginDependency :=
  _ ← pure (validate_requires (dep_name dep) known (dep_requires dep));
  component ←
    match dep_kind dep with
    | Native =>
      _ ← pure (ensure (bool_decide (dep_component dep = None)) (map_bad_manifest
            (dep_field (dep_name dep)
               (".component is only allowed when kind=" +:+ quoted "wasm")%string)));
      mret None
    | Wasm =>
      component ← pure (ok_or (dep_component dep) (map_bad_manifest
            (dep_field (dep_name dep)
               (".component is required when kind=" +:+ quoted "wasm")%string)));
      prepared ← prepare_wasm_component components_root release_dir (dep_name dep) component;
      mret (Some prepared)
    end;
  mret {| dep_name := dep_name dep; dep_version := dep_version dep; dep_kind := dep_kind dep;
          dep_wit := dep_wit dep; dep_requires := normalize_string_set (dep_requires dep);
          dep_component := component;
          dep_capabilities := normalize_capability_policy (dep_capabilities dep) |}.

Fixpoint prepare_each (components_root release_dir : string) (known : gset string)
    (dependencies : list PluginDependency) : fsm (list PluginDependency) :=
  match dependencies with
  | [] => mret []
  | dep :: rest =>
    prepared ← prepare_plugin_dependency components_root release_dir known dep;
    normalized ← prepare_each components_root release_dir known rest;
    mret (prepared :: normalized)
  end.

Definition prepare_plugin_dependencies_for_root (storage_root release_dir : string)
    (dependencies : list PluginDependency) : fsm (list PluginDependency) :=
  match dependencies with
  | [] => mret []
  | _ =>
    known ← pure (validate_dependency_names dependencies ∅);
    let components_root := plugin_component_cache_root storage_root in
    _ ← lift (create_dir_all io components_root) (λ e, map_internal_orch
          ("failed to create plugin component cache dir " +:+ components_root +:+ ": "
           +:+ fs_error_text e));
    prepare_each components_root release_dir known dependencies
  end.

Definition build_launch_from_release (storage_root release_hash release_dir : string) (m : Manifest)
    : fsm ServiceLaunch :=
  normalized_main ← pure (normalize_main_path (m_main m));
  let component_path := path_join release_dir normalized_main in
  _ ← pure (ensure (path_starts_with component_path release_dir) (map_bad_manifest
        ("manifest main path resolved outside release dir: " +:+ m_main m)));
  _ ← lift (metadata io component_path) (λ err, map_bad_manifest
        ("component path is not accessible: " +:+ component_path +:+ " (" +:+ fs_error_text err
         +:+ ")"));
  r ← resolve_resources_config release_dir m;
  bindings ← pure (validate_bindings (m_bindings m));
  '(http_port, http_listen_addr, http_max_body_bytes) ← pure (validate_http m);
  socket ← pure (validate_socket m);
  plugin_dependencies ← prepare_plugin_dependencies_for_root storage_root release_dir
                          (m_dependencies m);
  mret {| sl_name := m_name m; sl_release_hash := release_hash; sl_app_type := m_app_type m;
          sl_http_port := http_port; sl_http_listen_addr := http_listen_addr;
          sl_http_max_body_bytes := http_max_body_bytes; sl_socket := socket;
          sl_component_path := component_path; sl_args := rr_args r; sl_envs := rr_env r;
          sl_wasi_mounts := rr_mounts r; sl_wasi_http_outbound := rr_http_outbound r;
          sl_resources := rr_resources r; sl_bindings := bindings;
          sl_plugin_dependencies := plugin_dependencies;
          sl_capabilities := normalize_capability_policy (m_capabilities m) |}.

End launch.
End manifest.

(** ** Normalized paths stay below their directory *)

Definition normal_name (c : Component) : option string :=
  match c with Normal name => Some name | _ => None end.

Lemma normalize_components_names invalid : ∀ cs acc n,
  Forall (λ c, ∀ name, c = Normal name → proper name) cs → Forall proper (names_of acc) →
  normalize_components invalid acc cs = Ok n →
  names_of n = names_of acc ++ omap normal_name cs ∧ Forall proper (names_of n) ∧
  ParentDir ∉ cs ∧ RootDir ∉ cs.
Proof.
  induction cs as [|c cs IH]; intros acc n Hcs Hacc; simpl.
  - intros [= <-]. rewrite app_nil_r. split_and!; [done|done|apply not_elem_of_nil..].
  - apply Forall_cons in Hcs as [Hc Hcs]. destruct c as [| | |name]; [done| |done|].
    + intros (-> & ? & ? & ?)%IH; [|done|done]. split_and!; [done|done|set_solver..].
    + pose proof (names_of_join acc name (Hc _ eq_refl) Hacc) as Hj.
      intros (-> & ? & ? & ?)%IH; [|done|].
      * split_and!; [by rewrite Hj, <-app_assoc|done|set_solver..].
      * rewrite Hj. apply Forall_app. split; [done|]. constructor; [by apply Hc|constructor].
Qed.

Lemma components_all_proper path :
  Forall (λ c, ∀ name, c = Normal name → proper name) (components path).
Proof. apply Forall_forall. intros c Hc name ->. by eapply components_proper. Qed.

(** What is known of a path that one of the two normalizers accepts. *)
Definition normalizes (raw n : string) : Prop :=
  n ≠ "" ∧ Forall proper (names_of n) ∧ names_of n = omap normal_name (components raw) ∧
  ParentDir ∉ components raw ∧ RootDir ∉ components raw.

Lemma normalize_checked invalid invalid' raw n :
  (normalized ← normalize_components invalid "" (components raw);
   if bool_decide (normalized = "") then Err invalid' else Ok normalized) = Ok n →
  normalizes raw n.
Proof.
  intros (m & Hm & H)%bind_Ok. case_bool_decide as Hne; [done|]. injection H as <-.
  apply normalize_components_names in Hm as (Hn & ? & ? & ?);
    [|apply components_all_proper|constructor]. by rewrite app_nil_l in Hn.
Qed.

Lemma normalize_archive_entry_path_inv raw n :
  normalize_archive_entry_path raw = Ok n → normalizes raw n.
Proof.
  unfold normalize_archive_entry_path. repeat (case_match; [done|]). apply normalize_checked.
Qed.

Lemma normalize_relative_path_inv raw field_name n :
  normalize_relative_path raw field_name = Ok n → normalizes raw n.
Proof.
  unfold normalize_relative_path. repeat (case_match; [done|]). apply normalize_checked.
Qed.

Lemma key_join dir raw n :
  normalizes raw n → key (path_join dir n) = key dir ++ names_of n.
Proof.
  intros (Hne & Hp & _). unfold key. rewrite components_join_names, bind_app by done. f_equal.
  induction (names_of n) as [|x l IH]; [done|]. apply Forall_cons in Hp as [_ Hp]. cbn.
  f_equal. by apply IH.
Qed.

Lemma path_starts_with_join dir raw n :
  normalizes raw n → path_starts_with (path_join dir n) dir = true.
Proof.
  intros (Hne & Hp & _). apply bool_decide_eq_true. rewrite components_join_names by done.
  by apply prefix_app_r.
Qed.

(** C21 (safety). A path an archive entry or a manifest field names is accepted only when it has
    no parent directory and no root in it; joined to any directory it then denotes exactly
    the directory's names followed by its own, none of which is empty, [.], [..] or
    contains a separator, so that it cannot leave that directory, and the later
    [starts_with] guards hold. *)
Theorem normalized_paths_confined raw field_name n dir :
  normalize_archive_entry_path raw = Ok n ∨ normalize_relative_path raw field_name = Ok n →
  ParentDir ∉ components raw ∧ RootDir ∉ components raw ∧
  names_of n = omap normal_name (components raw) ∧ names_of n ≠ [] ∧ Forall proper (names_of n) ∧
  key (path_join dir n) = key dir ++ names_of n ∧
  path_starts_with (path_join dir n) dir = true.
Proof.
  intros H. assert (normalizes raw n) as Hn.
  { destruct H; [by apply normalize_archive_entry_path_inv|by eapply normalize_relative_path_inv]. }
  pose proof Hn as (Hne & Hp & Hnames & ? & ?).
  split_and!; [done|done|done| |done|by eapply key_join|by eapply path_starts_with_join].
  unfold names_of. rewrite decide_False by done. apply split_nonnil.
Qed.

Lemma normalized_paths_confined_witness :
  key (path_join "/var/imago/services/web/r1" "assets/a.txt")
  = ["var"; "imago"; "services"; "web"; "r1"; "assets"; "a.txt"].
Proof.
  destruct (normalized_paths_confined "./assets//a.txt" "" "assets/a.txt" "/var/imago/services/web/r1")
    as (_ & _ & _ & _ & _ & -> & _); [left; vm_compute; reflexivity|vm_compute; reflexivity].
Defined.
