(* ===== verification/Launch.v ===== *)
(** * The launch of an accepted manifest

    Between the two validations of a service's settings, the daemon's of the manifest and
    the runner's of its bootstrap: what the first lets through, the second accepts, except
    for three kinds of blank name that only the second looks at. *)

From S2P Require Import Prelude Protocol Text LogBuffer IpAddr Ipc Supervisor Paths Tree Manifest.

Open Scope Z_scope.

(** ** The runner's validations, as conjunctions *)

#[local] Opaque is_blank.

Lemma seq_Ok {E} (a b : result E unit) : (_ ← a; b) = Ok tt ↔ a = Ok tt ∧ b = Ok tt.
Proof. destruct a as [[]|e]; naive_solver. Qed.

Lemma validate_non_empty_Ok v field : validate_non_empty v field = Ok tt ↔ is_blank v = false.
Proof. unfold validate_non_empty. rewrite ensure_Ok. apply negb_true_iff. Qed.

Lemma validate_each_Ok field l : validate_each field l = Ok tt ↔ Forall (λ v, is_blank v = false) l.
Proof.
  induction l as [|v l IH]; simpl; [by rewrite Forall_nil|].
  by rewrite seq_Ok, Forall_cons, validate_non_empty_Ok, IH.
Qed.

Lemma validate_rule_map_Ok k f l :
  validate_rule_map k f l = Ok tt ↔
  Forall (λ '(key, values), is_blank key = false ∧ Forall (λ v, is_blank v = false) values) l.
Proof.
  induction l as [|[key values] l IH]; simpl; [by rewrite Forall_nil|].
  rewrite !seq_Ok, Forall_cons, validate_non_empty_Ok, validate_each_Ok, IH. naive_solver.
Qed.

Lemma validate_native_plugins_Ok l :
  validate_native_plugins l = Ok tt ↔
  Forall (λ name, is_blank name = false ∧ is_builtin_native_plugin_package_name name = true) l.
Proof.
  induction l as [|v l IH]; simpl; [by rewrite Forall_nil|].
  rewrite !seq_Ok, Forall_cons, validate_non_empty_Ok, ensure_Ok, IH. naive_solver.
Qed.

(** ** Names and sets *)

Lemma all_chars_not_blank f s :
  (∀ c, f c = true → is_ascii_graphic c = true) → all_chars f s = true → s ≠ "" → is_blank s = false.
Proof.
  intros Hf Hs Hne. destruct s as [|c s]; [done|]. unfold all_chars in Hs. simpl in Hs.
  apply andb_true_iff in Hs as [Hc _]. apply (not_blank c); [by apply Hf|]. left.
Qed.

Lemma name_char_graphic c :
  (is_ascii_alphanumeric c || bool_decide (c = "."%char) || bool_decide (c = "_"%char)
   || bool_decide (c = "-"%char)) = true → is_ascii_graphic c = true.
Proof. by destruct c as [[] [] [] [] [] [] [] []]. Qed.

Lemma service_name_not_blank name u : validate_service_name name = Ok u → is_blank name = false.
Proof.
  unfold validate_service_name. case_bool_decide as Hne; [done|]. destruct (_ || _); [done|].
  intros Hc%ensure_Ok. by eapply all_chars_not_blank; [apply name_char_graphic|..].
Qed.

Lemma package_name_not_blank name u :
  validate_plugin_package_name name = Ok u → is_blank name = false.
Proof.
  unfold validate_plugin_package_name. case_bool_decide as Hne; [done|]. destruct (_ || _); [done|].
  intros Hc%ensure_Ok. eapply all_chars_not_blank; [|done..].
  by intros [[] [] [] [] [] [] [] []].
Qed.

Lemma elem_of_sorted_set values v : v ∈ sorted_set values ↔ v ∈ values.
Proof.
  unfold sorted_set. rewrite elem_of_btree_keys, <-elem_of_dom, dom_list_to_map_L.
  rewrite elem_of_list_to_set, <-list_fmap_compose. unfold compose. simpl.
  by rewrite list_fmap_id.
Qed.

Lemma normalize_string_set_not_blank values :
  Forall (λ v, is_blank v = false) (normalize_string_set values).
Proof.
  apply Forall_forall. intros v. unfold normalize_string_set.
  rewrite elem_of_sorted_set, list_elem_of_filter, list_elem_of_fmap.
  intros [Hne (w & -> & _)]. by apply trim_not_blank.
Qed.

Lemma normalize_capability_rule_map_Ok k f m :
  validate_rule_map k f (btree_iter (normalize_capability_rule_map m)) = Ok tt.
Proof.
  apply validate_rule_map_Ok, Forall_forall. intros [key values] Hin%elem_of_btree_iter.
  unfold normalize_capability_rule_map in Hin. rewrite map_lookup_imap in Hin.
  apply bind_Some in Hin as (v & _ & Hv). destruct (is_blank key); [done|].
  case_bool_decide; [done|]. injection Hv as <-. split; [done|].
  apply normalize_string_set_not_blank.
Qed.

Lemma normalize_capability_policy_Ok p : validate (normalize_capability_policy p) = Ok tt.
Proof.
  unfold validate, CapabilityPolicy_validate. rewrite seq_Ok. split; apply normalize_capability_rule_map_Ok.
Qed.

(** ** Mounts *)

Lemma trim_chars s b : b ∈ bytes_of (trim s) → b ∈ bytes_of s.
Proof.
  unfold trim. intros Hb. destruct (trim_end_prefix (trim_start s)) as [w Hw].
  destruct (strip_all_suffix white_space (String.length s) s) as [w' Hs]. fold (trim_start s) in Hs.
  rewrite Hs, bytes_of_app. apply elem_of_app. right. rewrite Hw, bytes_of_app. apply elem_of_app.
  by left.
Qed.

Lemma components_chars path name b :
  Normal name ∈ components path → b ∈ bytes_of name → b ∈ bytes_of path.
Proof.
  unfold components. intros [Hin|(part & Hin & Hp)%list_elem_of_bind]%elem_of_app Hb.
  - repeat case_match; set_solver.
  - unfold component_of in Hin. repeat case_match; [by apply not_elem_of_nil in Hin|..].
    + by apply list_elem_of_singleton in Hin.
    + apply list_elem_of_singleton in Hin as [= ->]. by eapply split_chars.
Qed.

Lemma join_slash_chars segments b :
  b ∈ bytes_of (join_slash segments) → b = "/"%char ∨ ∃ s, s ∈ segments ∧ b ∈ bytes_of s.
Proof.
  induction segments as [|s rest IH]; [by intros ?%not_elem_of_nil|].
  destruct rest as [|s' rest]; [set_solver|].
  change (join_slash (s :: s' :: rest)) with (s +:+ String "/" (join_slash (s' :: rest)))%string.
  rewrite bytes_of_app, elem_of_app. intros [?|Hb]; [right; set_solver|].
  apply elem_of_cons in Hb as [->|[->|(x & ? & ?)]%IH]; [by left|by left|right; set_solver].
Qed.

Lemma guest_segments_in field_name raw : ∀ cs segments,
  guest_segments field_name raw cs = Ok segments → Forall (λ s, Normal s ∈ cs) segments.
Proof.
  induction cs as [|c cs IH]; intros segments; simpl.
  - intros [= <-]. constructor.
  - destruct c as [| | |s]; [|done|done|].
    + intros H%IH. eapply Forall_impl; [exact H|]. by right.
    + intros H. inv_ok. constructor; [by left|]. eapply Forall_impl; [by apply IH|]. by right.
Qed.

Lemma validate_guest_components_Ok cs :
  CurDir ∉ cs → ParentDir ∉ cs → validate_guest_components cs = Ok tt.
Proof. induction cs as [|[] cs IH]; simpl; set_solver. Qed.

Lemma rooted_components segments :
  Forall proper segments →
  components ("/" +:+ join_slash segments)%string = RootDir :: (Normal <$> segments).
Proof.
  intros Hp. change (("/" +:+ join_slash segments)%string) with (String "/" (join_slash segments)).
  pose proof (names_of_join_slash segments Hp) as Hn. unfold names_of in Hn.
  destruct (decide (join_slash segments = "")) as [E|Hne]; [by rewrite E, <-Hn|].
  unfold components. rewrite (proj2 (starts_with_char "/" _)) by done.
  cbn [split]. rewrite decide_True by done. cbn. f_equal.
  apply (parts_proper (join_slash segments)); done.
Qed.

Lemma guest_path_valid raw field_name g host_path read_only :
  normalize_wasi_guest_path raw field_name = Ok g → host_path ≠ "" →
  validate {| mount_host_path := host_path; mount_guest_path := g;
              mount_read_only := read_only |} = Ok tt.
Proof.
  unfold normalize_wasi_guest_path. case_bool_decide; [done|].
  destruct (str_contains "\" raw) eqn:Hback; [done|]. destruct (negb _); [done|].
  destruct (windows_prefixed _); [done|]. intros Hseg Hh. inv_ok. rename x into segments.
  match goal with G : guest_segments _ _ _ = Ok _ |- _ => apply guest_segments_in in G as Hin end.
  assert (Forall proper segments) as Hp
    by (eapply Forall_impl; [exact Hin|]; intros s Hs; by apply (components_proper (trim raw))).
  unfold validate, RunnerWasiMount_validate. cbn [mount_host_path mount_guest_path].
  rewrite !seq_Ok, validate_non_empty_Ok. unfold validate_non_empty_path.
  rewrite !ensure_Ok, bool_decide_false, rooted_components by done. split_and!; [done| | | |].
  - apply (not_blank "/"%char); [done|]. left.
  - by apply starts_with_char.
  - apply negb_true_iff, not_true_iff_false. rewrite str_contains_char. intros Hb.
    apply not_true_iff_false in Hback. apply Hback, str_contains_char.
    apply elem_of_cons in Hb as [?|[?|(s & Hs & Hb)]%join_slash_chars]; [done..|].
    apply trim_chars. rewrite Forall_forall in Hin. by eapply components_chars; [apply Hin|].
  - apply validate_guest_components_Ok; set_solver.
Qed.

(** ** The parts of a launch *)

Lemma fold_indexed_inv {A S} (P : S → Prop) (f : Z → A → S → iresult S) :
  (∀ i v s s', P s → f i v s = Ok s' → P s') →
  ∀ values i s s', P s → fold_indexed f i values s = Ok s' → P s'.
Proof.
  intros Hf. induction values as [|v values IH]; intros i s s' Hs; simpl; [by intros [= <-]|].
  intros H. inv_ok. eapply IH; [|done]. by eapply Hf.
Qed.

Lemma push_new_Forall P rule rules : P rule → Forall P rules → Forall P (push_new rule rules).
Proof.
  intros Hr Hrs. unfold push_new. case_bool_decide; [done|]. apply Forall_app. split; [done|].
  by constructor.
Qed.

Lemma outbound_rules_valid values field_name rules :
  resolve_wasi_http_outbound_rules values field_name = Ok rules →
  Forall (λ r, validate r = Ok tt) rules.
Proof.
  unfold resolve_wasi_http_outbound_rules. intros H. inv_ok.
  revert H0. apply (fold_indexed_inv (Forall (λ r, validate r = Ok tt))).
  - intros i v s s' Hs Hv. inv_ok. apply push_new_Forall; [|done]. by eapply parse_rule_valid.
  - revert H. apply (fold_indexed_inv (Forall (λ r, validate r = Ok tt))); [|constructor].
    intros i v s s' Hs Hv. inv_ok. apply push_new_Forall; [|done]. by eapply parse_rule_valid.
Qed.

(** No key of a map is blank. *)
Definition keys_ok {V} (m : gmap string V) : Prop := ∀ k, k ∈ dom m → is_blank k = false.

Lemma keys_ok_btree {V} (m : gmap string V) :
  Forall (λ k, is_blank k = false) (btree_keys m) ↔ keys_ok m.
Proof.
  rewrite Forall_forall. unfold keys_ok. setoid_rewrite elem_of_btree_keys.
  by setoid_rewrite elem_of_dom.
Qed.

Lemma keys_ok_insert {V} k (v : V) m :
  is_blank k = false → keys_ok (<[k := v]> m) ↔ keys_ok m.
Proof. intros Hk. unfold keys_ok. rewrite dom_insert_L. set_solver. Qed.

Section launch.
Context {J : Json} {MC : ManifestCrates} {CR : Crates} (io : FsIo).

Lemma keys_ok_insert_array {A} key (f : A → JsonValue) values m :
  is_blank key = false → keys_ok (insert_array key f values m) ↔ keys_ok m.
Proof. intros Hk. unfold insert_array. destruct values; [done|]. by apply keys_ok_insert. Qed.

Lemma keys_ok_build_resource_map r : keys_ok (build_resource_map r) ↔ keys_ok (mr_extra r).
Proof.
  unfold build_resource_map. rewrite !keys_ok_insert_array by (vm_compute; reflexivity).
  case_bool_decide; [|rewrite keys_ok_insert by (vm_compute; reflexivity)];
    by rewrite keys_ok_insert_array by (vm_compute; reflexivity).
Qed.

(** *** Mounts *)

Lemma path_join_nonempty dir name : name ≠ "" → path_join dir name ≠ "".
Proof. intros Hn. unfold path_join. repeat case_match; by destruct dir, name. Qed.

Lemma mount_entry_valid release_dir field_name read_only dirs index e acc t t' acc' :
  Forall (λ m, validate m = Ok tt) (resolved_mounts acc) →
  resolve_wasi_mount_entry io release_dir field_name read_only dirs index e acc t = (t', Ok acc') →
  Forall (λ m, validate m = Ok tt) (resolved_mounts acc').
Proof.
  unfold resolve_wasi_mount_entry. intros Hacc H. cbv zeta in H. inv_fsm. simpl.
  apply Forall_app. split; [done|]. constructor; [|constructor].
  eapply guest_path_valid; [done|]. apply path_join_nonempty.
  match goal with Hr : normalize_relative_path _ _ = Ok _ |- _ =>
    apply normalize_relative_path_inv in Hr as [? _] end. done.
Qed.

Lemma mount_entries_valid release_dir field_name read_only dirs : ∀ entries index acc t t' acc',
  Forall (λ m, validate m = Ok tt) (resolved_mounts acc) →
  resolve_wasi_mount_entries io release_dir field_name read_only dirs index entries acc t = (t', Ok acc') →
  Forall (λ m, validate m = Ok tt) (resolved_mounts acc').
Proof.
  induction entries as [|e entries IH]; intros index acc t t' acc' Hacc H; cbn in H; inv_fsm; [done|].
  eapply IH; [|done]. by eapply mount_entry_valid.
Qed.

Lemma mounts_valid release_dir es rs dirs t t' mounts :
  resolve_wasi_mounts io release_dir es rs dirs t = (t', Ok mounts) →
  Forall (λ m, validate m = Ok tt) mounts.
Proof.
  unfold resolve_wasi_mounts. intros H. inv_fsm.
  eapply mount_entries_valid; [|done]. eapply mount_entries_valid; [|done]. constructor.
Qed.

Lemma resources_valid release_dir m t t' r :
  resolve_resources_config io release_dir m t = (t', Ok r) →
  Forall (λ m, validate m = Ok tt) (rr_mounts r) ∧
  Forall (λ r, validate r = Ok tt) (rr_http_outbound r) ∧
  (keys_ok (rr_resources r) ↔ ∀ res, m_resources m = Some res → keys_ok (mr_extra res)).
Proof.
  unfold resolve_resources_config. intros H. destruct (m_resources m) as [res|]; inv_fsm; simpl.
  - split_and!; [by eapply mounts_valid|by eapply outbound_rules_valid|].
    rewrite keys_ok_build_resource_map. split; [by intros Hk ? [= <-]|intros Hk; by apply Hk].
  - split_and!; [constructor|by eapply outbound_rules_valid|]. split; [done|].
    intros _ k Hk. exfalso. apply elem_of_dom in Hk as [v Hk]. by rewrite lookup_empty in Hk.
Qed.

(** *** Bindings and the application type *)

Lemma bindings_valid : ∀ bs idx out,
  validate_bindings_from idx bs = Ok out →
  (Forall (λ b, validate b = Ok tt) out ↔ ∀ b, b ∈ bs → is_blank (mb_wit b) = false).
Proof.
  induction bs as [|b bs IH]; intros idx out H; simpl in H.
  - injection H as <-. rewrite Forall_nil. set_solver.
  - inv_ok. rewrite Forall_cons.
    match goal with Hr : validate_bindings_from _ bs = Ok _ |- _ => rewrite (IH _ _ Hr) end.
    match goal with Hn : validate_service_name _ = Ok _ |- _ =>
      apply service_name_not_blank in Hn end.
    unfold validate, ServiceBinding_validate. cbn. rewrite !seq_Ok, !validate_non_empty_Ok.
    set_solver.
Qed.

Lemma read_ip_first c s :
  is_ascii_graphic c = false → read_ipv4_addr (c :: s) = None ∧ read_ipv6_addr (c :: s) = None.
Proof. destruct c as [[] [] [] [] [] [] [] []]; intros Hc; vm_compute in Hc; done. Qed.

Lemma parse_ip_not_blank s ip : parse_ip s = Some ip → is_blank s = false.
Proof.
  destruct s as [|c s]; [done|]. intros Hp. destruct (is_ascii_graphic c) eqn:Hc.
  - apply (not_blank c); [done|]. left.
  - exfalso. revert Hp. unfold parse_ip. simpl. by destruct (read_ip_first c (bytes_of s) Hc) as [-> ->].
Qed.

Lemma app_type_valid m port addr body socket b :
  validate_http m = Ok (port, addr, body) → validate_socket m = Ok socket →
  rb_app_type b = m_app_type m → rb_http_port b = port → rb_http_listen_addr b = addr →
  rb_http_max_body_bytes b = body → rb_socket b = socket →
  validate_app_type b = Ok tt.
Proof.
  unfold validate_http, validate_socket, validate_app_type. intros Hh Hs -> -> -> -> ->.
  destruct (m_app_type m); [done|done|..].
  - clear Hs. inv_ok. rename x into http.
    match goal with Hp : parse_ip _ = Some _ |- _ => pose proof (parse_ip_not_blank _ _ Hp) as Hb;
      simpl; rewrite Hp end.
    rewrite seq_Ok, ensure_Ok. split; [done|]. rewrite seq_Ok, validate_non_empty_Ok.
    split; [done|]. simpl. unfold validate_positive_u64. rewrite ensure_Ok.
    match goal with Hm : negb (_ || _) = true |- _ =>
      apply negb_true_iff, orb_false_iff in Hm as [-> _] end. done.
  - clear Hh. inv_ok. unfold validate, RunnerSocketConfig_validate. simpl.
    match goal with Hp : parse_ip _ = Some _ |- _ => pose proof (parse_ip_not_blank _ _ Hp) end.
    rewrite seq_Ok, validate_non_empty_Ok, ensure_Ok. split; [done|].
    match goal with Hp : negb (sock_listen_port _ =? 0) = true |- _ =>
      apply negb_true_iff in Hp as -> end. by rewrite andb_false_r.
Qed.

(** *** Plugin dependencies *)

(** The interface names a prepared dependency carries. *)
Definition interface_names (d : PluginDependency) : list string :=
  match dep_component d with
  | Some c => default [] (pc_imports c) ++ default [] (pc_exports c)
  | None => []
  end.

Lemma dependency_names_valid : ∀ deps known known',
  validate_dependency_names deps known = Ok known' →
  Forall (λ d, is_blank (dep_name d) = false ∧ is_blank (dep_version d) = false
               ∧ is_blank (dep_wit d) = false) deps.
Proof.
  induction deps as [|d deps IH]; intros known known' H; simpl in H; [constructor|].
  inv_ok. constructor; [|by eapply IH].
  split_and!; [by eapply package_name_not_blank|by apply negb_true_iff..].
Qed.

Lemma sha256_hex_not_blank value field_name u :
  validate_sha256_hex value field_name = Ok u → is_blank value = false.
Proof.
  unfold validate_sha256_hex. intros [Hlen%bool_decide_eq_true Hc]%ensure_Ok%andb_true_iff.
  eapply all_chars_not_blank; [|done|by intros ->]. by intros [[] [] [] [] [] [] [] []].
Qed.

Lemma prepared_component_valid root release_dir dep c t t' c' :
  prepare_wasm_component io root release_dir dep c t = (t', Ok c') →
  (validate c' = Ok tt ↔
   Forall (λ v, is_blank v = false) (default [] (pc_imports c') ++ default [] (pc_exports c'))).
Proof.
  unfold prepare_wasm_component. intros H. cbv zeta in H. inv_fsm.
  match goal with Hh : validate_sha256_hex _ _ = Ok _ |- _ => apply sha256_hex_not_blank in Hh end.
  unfold validate, PluginComponent_validate. simpl.
  rewrite !seq_Ok, !validate_each_Ok, validate_non_empty_Ok, Forall_app.
  assert (validate_non_empty_path (path_join root (pc_sha256 c +:+ ".wasm")%string) "path" = Ok tt) as ->.
  { unfold validate_non_empty_path. rewrite ensure_Ok, bool_decide_false; [done|].
    apply path_join_nonempty. by destruct (pc_sha256 c). }
  naive_solver.
Qed.

Lemma prepared_dependency_valid root release_dir known d t t' d' :
  is_blank (dep_name d) = false → is_blank (dep_version d) = false → is_blank (dep_wit d) = false →
  prepare_plugin_dependency io root release_dir known d t = (t', Ok d') →
  (validate d' = Ok tt ↔ Forall (λ v, is_blank v = false) (interface_names d')).
Proof.
  unfold prepare_plugin_dependency. intros Hn Hv Hw H. inv_fsm.
  unfold validate, PluginDependency_validate, interface_names. cbn.
  rewrite !seq_Ok, !validate_non_empty_Ok, validate_each_Ok, normalize_capability_policy_Ok.
  pose proof (normalize_string_set_not_blank (dep_requires d)).
  destruct (dep_kind d); inv_fsm; simpl.
  - rewrite Forall_nil. naive_solver.
  - match goal with Hc : prepare_wasm_component _ _ _ _ _ _ = _ |- _ =>
      apply prepared_component_valid in Hc as Hc' end. naive_solver.
Qed.

Lemma prepared_dependencies_valid root release_dir known : ∀ deps t t' deps',
  Forall (λ d, is_blank (dep_name d) = false ∧ is_blank (dep_version d) = false
               ∧ is_blank (dep_wit d) = false) deps →
  prepare_each io root release_dir known deps t = (t', Ok deps') →
  (Forall (λ d, validate d = Ok tt) deps' ↔
   Forall (λ d, Forall (λ v, is_blank v = false) (interface_names d)) deps').
Proof.
  induction deps as [|d deps IH]; intros t t' deps' Hd H; cbn in H; inv_fsm; [by rewrite !Forall_nil|].
  apply Forall_cons in Hd as [(? & ? & ?) Hd]. rewrite !Forall_cons.
  match goal with Hp : prepare_plugin_dependency _ _ _ _ d _ = _ |- _ =>
    apply prepared_dependency_valid in Hp as -> end; [|done..].
  match goal with Hp : prepare_each _ _ _ _ deps _ = _ |- _ => by rewrite (IH _ _ _ Hd Hp) end.
Qed.

Lemma plugin_dependencies_valid storage_root release_dir deps t t' deps' :
  prepare_plugin_dependencies_for_root io storage_root release_dir deps t = (t', Ok deps') →
  (Forall (λ d, validate d = Ok tt) deps' ↔
   Forall (λ d, Forall (λ v, is_blank v = false) (interface_names d)) deps').
Proof.
  unfold prepare_plugin_dependencies_for_root. intros H. destruct deps as [|d deps].
  - inv_fsm. by rewrite !Forall_nil.
  - cbv zeta in H. inv_fsm. eapply prepared_dependencies_valid; [|done].
    by eapply dependency_names_valid.
Qed.

(** ** The theorem *)

(** What the daemon's own configuration guarantees of the supervisor. *)
Record supervisor_config_ok (c : SupervisorConfig) : Prop := {
  sco_endpoint : sc_manager_control_endpoint c ≠ "";
  sco_epoch : sc_epoch_tick_interval_ms c ≠ 0;
  sco_reservation : sc_wasm_memory_reservation_bytes c ≠ 0;
  sco_growth : sc_wasm_memory_reservation_for_growth_bytes c ≠ 0;
  sco_workers : 1 ≤ sc_http_worker_count c ≤ 4;
  sco_queue : 1 ≤ sc_http_worker_queue_capacity c ≤ 16;
  sco_budget : 0 ≤ sc_http_queue_memory_budget_bytes c;
  sco_plugins : Forall (λ n, is_builtin_native_plugin_package_name n = true)
                  (sc_enabled_native_plugins c);
}.

Lemma builtin_not_blank name :
  is_builtin_native_plugin_package_name name = true → is_blank name = false.
Proof.
  unfold is_builtin_native_plugin_package_name. intros (d & Hd & E%bool_decide_eq_true)%existsb_exists.
  subst name. simpl in Hd. by destruct_or?; subst; vm_compute.
Qed.

Lemma capacity_in_range c launch capacity :
  supervisor_config_ok c → (∀ b, sl_http_max_body_bytes launch = Some b → 0 ≤ b) →
  effective_http_worker_queue_capacity c launch = Ok capacity → 1 ≤ capacity ≤ 16.
Proof.
  intros [_ _ _ _ _ Hq Hb _] Hbody. unfold effective_http_worker_queue_capacity.
  destruct (negb _); [by intros [= <-]|].
  destruct (sl_http_max_body_bytes launch) as [body|]; [|done]. specialize (Hbody _ eq_refl).
  destruct (Z.eqb_spec body 0) as [|Hne]; [done|]. cbv zeta.
  destruct (Z.eqb_spec (sc_http_queue_memory_budget_bytes c / body) 0); [done|].
  assert (0 ≤ sc_http_queue_memory_budget_bytes c / body) by (apply Z.div_pos; lia).
  case_match; [|done]. intros [= <-]. lia.
Qed.

Lemma non_empty_path_Ok path field : validate_non_empty_path path field = Ok tt ↔ path ≠ "".
Proof. unfold validate_non_empty_path. rewrite ensure_Ok, negb_true_iff. apply bool_decide_eq_false. Qed.

Lemma positive_u64_Ok v field : validate_positive_u64 v field = Ok tt ↔ v ≠ 0.
Proof. unfold validate_positive_u64. rewrite ensure_Ok, negb_true_iff. apply Z.eqb_neq. Qed.

Lemma bootstrap_Ok b :
  validate b = Ok tt ↔
  Forall (λ v, is_blank v = false)
    [rb_runner_id b; rb_service_name b; rb_release_hash b; rb_manager_auth_secret b;
     rb_invocation_secret b] ∧
  rb_component_path b ≠ "" ∧ rb_manager_control_endpoint b ≠ "" ∧ rb_runner_endpoint b ≠ "" ∧
  rb_epoch_tick_interval_ms b ≠ 0 ∧ rb_wasm_memory_reservation_bytes b ≠ 0 ∧
  rb_wasm_memory_reservation_for_growth_bytes b ≠ 0 ∧
  1 ≤ rb_http_worker_count b ≤ 4 ∧ 1 ≤ rb_http_worker_queue_capacity b ≤ 16 ∧
  validate_app_type b = Ok tt ∧
  Forall (λ x, validate x = Ok tt) (rb_bindings b) ∧
  keys_ok (rb_resources b) ∧
  Forall (λ x, validate x = Ok tt) (rb_plugin_dependencies b) ∧
  Forall (λ x, validate x = Ok tt) (rb_wasi_mounts b) ∧
  Forall (λ x, validate x = Ok tt) (rb_wasi_http_outbound b) ∧
  Forall (λ n, is_blank n = false ∧ is_builtin_native_plugin_package_name n = true)
    (rb_enabled_native_plugins b) ∧
  validate (rb_capabilities b) = Ok tt.
Proof.
  unfold validate at 1, RunnerBootstrap_validate. cbn [validate_non_empty_fields].
  rewrite !seq_Ok, !validate_non_empty_Ok, !non_empty_path_Ok, !positive_u64_Ok, !ensure_Ok,
    !andb_true_iff, !Z.leb_le, !validate_all_Ok, validate_each_Ok, keys_ok_btree,
    validate_native_plugins_Ok, !Forall_cons, Forall_nil. tauto.
Qed.

(** What is known of a launch that was built. *)
Lemma launch_parts storage_root release_hash release_dir m t t' launch :
  build_launch_from_release io storage_root release_hash release_dir m t = (t', Ok launch) →
  sl_name launch = m_name m ∧ sl_release_hash launch = release_hash ∧
  sl_component_path launch ≠ "" ∧
  (∀ c capacity r s1 s2, validate_app_type (make_bootstrap c launch capacity r s1 s2) = Ok tt) ∧
  Forall (λ x, validate x = Ok tt) (sl_wasi_mounts launch) ∧
  Forall (λ x, validate x = Ok tt) (sl_wasi_http_outbound launch) ∧
  (keys_ok (sl_resources launch) ↔ ∀ res, m_resources m = Some res → keys_ok (mr_extra res)) ∧
  (Forall (λ x, validate x = Ok tt) (sl_bindings launch) ↔
   ∀ b, b ∈ m_bindings m → is_blank (mb_wit b) = false) ∧
  (Forall (λ x, validate x = Ok tt) (sl_plugin_dependencies launch) ↔
   Forall (λ d, Forall (λ v, is_blank v = false) (interface_names d)) (sl_plugin_dependencies launch)) ∧
  validate (sl_capabilities launch) = Ok tt ∧
  ((∀ http, m_http m = Some http → 0 ≤ mt_max_body_bytes http) →
   ∀ b, sl_http_max_body_bytes launch = Some b → 0 ≤ b).
Proof.
  unfold build_launch_from_release. intros H. cbv zeta in H. inv_fsm. simpl.
  match goal with Hr : resolve_resources_config _ _ _ _ = _ |- _ =>
    apply resources_valid in Hr as (? & ? & ?) end.
  split_and!; [done|done| | |done|done|done|by eapply bindings_valid|by eapply plugin_dependencies_valid
              |apply normalize_capability_policy_Ok|].
  - apply path_join_nonempty.
    match goal with Hm : normalize_main_path _ = Ok _ |- _ =>
      by apply normalize_relative_path_inv in Hm as [? _] end.
  - intros. by eapply app_type_valid.
  - intros Hu b ->. match goal with Hh : validate_http _ = Ok _ |- _ => revert Hh end.
    unfold validate_http. destruct (m_app_type m), (m_http m) as [http|]; simpl; try done.
    intros Hh. inv_ok. by apply Hu.
Qed.

(** What remains for the runner to reject. *)
Definition no_blank_names (m : Manifest) (launch : ServiceLaunch) : Prop :=
  (∀ b, b ∈ m_bindings m → is_blank (mb_wit b) = false) ∧
  (∀ res, m_resources m = Some res → keys_ok (mr_extra res)) ∧
  Forall (λ d, Forall (λ v, is_blank v = false) (interface_names d)) (sl_plugin_dependencies launch).

(** C20 (type). When the daemon has accepted a manifest and built its launch, under a
    valid daemon configuration, the bootstrap it sends passes the runner's own validation
    exactly when no binding has a blank interface, no extra resource key is blank and no
    plugin component has a blank interface name; every other check of the runner (paths,
    addresses, ports, mounts, outbound rules, capabilities, queue capacity) is already
    guaranteed by the daemon's. *)
Theorem launch_bootstrap_valid storage_root release_hash release_dir m t t' launch c capacity
    runner_id auth_secret invocation_secret :
  build_launch_from_release io storage_root release_hash release_dir m t = (t', Ok launch) →
  validate_service_name (m_name m) = Ok tt →
  (∀ http, m_http m = Some http → 0 ≤ mt_max_body_bytes http) →
  supervisor_config_ok c → effective_http_worker_queue_capacity c launch = Ok capacity →
  Forall (λ v, is_blank v = false) [release_hash; runner_id; auth_secret; invocation_secret] →
  validate (make_bootstrap c launch capacity runner_id auth_secret invocation_secret) = Ok tt ↔
  no_blank_names m launch.
Proof.
  intros Hl Hname Hu Hc Hcap Hids.
  apply launch_parts in Hl as (name & hash & comp & Happ & Hmounts & Hrules & Hres & Hbind & Hdeps & Hcaps & Hbody).
  specialize (Happ c capacity runner_id auth_secret invocation_secret).
  rewrite bootstrap_Ok. unfold make_bootstrap, no_blank_names in *. cbn [rb_runner_id rb_service_name
    rb_release_hash rb_http_worker_count rb_http_worker_queue_capacity rb_component_path
    rb_wasi_mounts rb_wasi_http_outbound rb_resources rb_bindings rb_plugin_dependencies
    rb_enabled_native_plugins rb_capabilities rb_manager_control_endpoint rb_runner_endpoint
    rb_manager_auth_secret rb_invocation_secret rb_epoch_tick_interval_ms
    rb_wasm_memory_reservation_bytes rb_wasm_memory_reservation_for_growth_bytes].
  rewrite name, hash in *. rewrite Hbind, Hres, Hdeps. rewrite !Forall_cons in Hids.
  destruct Hids as (? & ? & ? & ? & _). apply service_name_not_blank in Hname.
  pose proof (capacity_in_range c launch capacity Hc (Hbody Hu) Hcap) as Hrange.
  destruct Hc as [? ? ? ? ? ? ? Hplug].
  assert (Forall (λ n, is_blank n = false ∧ is_builtin_native_plugin_package_name n = true)
            (sc_enabled_native_plugins c)) as Hplug'
    by (eapply Forall_impl; [exact Hplug|]; eauto using builtin_not_blank).
  assert (build_runner_endpoint (sc_storage_root c) (m_name m) runner_id ≠ "") as Hend
    by by apply path_join_nonempty.
  split; [by intros (? & ? & ? & ? & ? & ? & ? & ? & ? & ? & ? & ? & ? & ? & ? & _)|].
  intros (? & ? & ?). split_and!; try done; [by repeat constructor|lia..].
Qed.

End launch.

(** ** A release, its manifest and its launch *)

Module Demo.

#[local] Instance json : Json :=
  {| JsonValue := nat; json_string := λ _, 0%nat; json_array := λ _, 1%nat; json_object := λ _, 2%nat |}.
#[local] Instance manifest_crates : ManifestCrates :=
  {| manifest_from_json := λ _, Err "no manifest"; wasm_parse_all := λ _, [Ok PEnd] |}.
#[local] Instance crates : Crates := {| sha256_hex := λ _, "00"; uuid_to_string := λ u, to_string (Z.of_N u) |}.

Definition io : FsIo := {| io_fault := λ _ _, None; io_torn := 0 |}.

Definition release_tree : tree :=
  list_to_map [(["s"; "web"; "r1"; "app.wasm"], File []); (["s"; "web"; "r1"; "public"], Directory)].

Definition manifest (wit : string) : Manifest :=
  {| m_name := "web"; m_main := "./app.wasm"; m_app_type := Http;
     m_http := Some {| mt_port := 8080; mt_listen_addr := "0.0.0.0"; mt_max_body_bytes := 1024 |};
     m_socket := None;
     m_resources := Some {| mr_args := ["--x"]; mr_env := ∅; mr_http_outbound := ["10.0.0.0/8"];
       mr_mounts := [{| mw_asset_dir := "public"; mw_guest_path := "/www/" |}];
       mr_read_only_mounts := []; mr_extra := ∅ |};
     m_assets := ["public/index.html"];
     m_bindings := [{| mb_name := "db"; mb_wit := wit |}];
     m_dependencies := []; m_capabilities := {| cap_privileged := false; cap_deps := ∅; cap_wasi := ∅ |};
     m_hash := {| mh_algorithm := "sha256"; mh_targets := [TargetWasm; TargetManifest; TargetAssets] |} |}.

Definition config : SupervisorConfig :=
  {| sc_storage_root := "/v"; sc_stop_grace_timeout_secs := 30; sc_runner_ready_timeout_secs := 3;
     sc_manager_control_read_timeout_ms := 500; sc_http_worker_count := 2;
     sc_http_worker_queue_capacity := 4; sc_http_queue_memory_budget_bytes := 3000;
     sc_wasm_memory_reservation_bytes := 1; sc_wasm_memory_reservation_for_growth_bytes := 1;
     sc_wasm_memory_guard_size_bytes := 0; sc_wasm_guard_before_linear_memory := true;
     sc_wasm_parallel_compilation := true; sc_enabled_native_plugins := ["imago:admin"];
     sc_runner_log_buffer_bytes := 1024; sc_epoch_tick_interval_ms := 50;
     sc_manager_control_endpoint := "/v/manager.sock" |}.

Definition launch (wit : string) : ServiceLaunch :=
  {| sl_name := "web"; sl_release_hash := "r1"; sl_app_type := Http; sl_http_port := Some 8080;
     sl_http_listen_addr := Some "0.0.0.0"; sl_http_max_body_bytes := Some 1024; sl_socket := None;
     sl_component_path := "/s/web/r1/app.wasm"; sl_args := ["--x"]; sl_envs := ∅;
     sl_wasi_mounts := [{| mount_host_path := "/s/web/r1/public"; mount_guest_path := "/www";
                           mount_read_only := false |}];
     sl_wasi_http_outbound :=
       [Host "localhost"; Host "127.0.0.1"; Host "::1"; Cidr (V4 (10 * 2 ^ 24)) 8];
     sl_resources := build_resource_map (default {| mr_args := []; mr_env := ∅; mr_http_outbound := [];
       mr_mounts := []; mr_read_only_mounts := []; mr_extra := ∅ |} (m_resources (manifest wit)));
     sl_bindings := [{| bind_name := "db"; bind_wit := wit |}]; sl_plugin_dependencies := [];
     sl_capabilities := {| cap_privileged := false; cap_deps := ∅; cap_wasi := ∅ |} |}.

Lemma config_ok : supervisor_config_ok config.
Proof. constructor; simpl; try lia; [done|]. by repeat constructor. Qed.

Lemma built wit :
  wit = "db:api/get" ∨ wit = " " →
  build_launch_from_release io "/v" "r1" "/s/web/r1" (manifest wit) release_tree
  = (release_tree, Ok (launch wit)).
Proof.
  intros [-> | ->].
  - vm_cast_no_check (@eq_refl (tree * iresult ServiceLaunch) (release_tree, Ok (launch "db:api/get"))).
  - vm_cast_no_check (@eq_refl (tree * iresult ServiceLaunch) (release_tree, Ok (launch " "))).
Qed.

(** With a written interface the runner accepts the bootstrap; a blank one passes the daemon's
    validation but not the runner's. *)
Lemma launch_bootstrap_valid_witness :
  validate (make_bootstrap config (launch "db:api/get") 2 "r" "a" "i") = Ok tt ∧
  validate (make_bootstrap config (launch " ") 2 "r" "a" "i") ≠ Ok tt.
Proof.
  split.
  - eapply (launch_bootstrap_valid io "/v" "r1" "/s/web/r1" (manifest "db:api/get"));
      [apply built; by left|by vm_compute| |apply config_ok|by vm_compute|by repeat constructor|].
    + by intros http [= <-].
    + split_and!; [|by intros res [= <-] k Hk|constructor].
      by intros b ->%list_elem_of_singleton.
  - intros Hv. eapply (launch_bootstrap_valid io "/v" "r1" "/s/web/r1" (manifest " ")) in Hv;
      [|apply built; by right|by vm_compute|by intros http [= <-]|apply config_ok|by vm_compute
       |by repeat constructor].
    destruct Hv as [Hb _]. by specialize (Hb _ (list_elem_of_here _ _)).
Defined.

End Demo.
