(* ===== verification/Orchestrator.v ===== *)
(** * Deploying, running and stopping services

    [crates/imagod-control/src/orchestrator.rs]: a committed artifact is extracted into a
    staging directory, its manifest is checked, the release is promoted into the service's
    directory, old releases are removed, the launch is built and handed to the supervisor,
    and the active release and restart policy are recorded; a failed start may be rolled
    back.  One command per service at a time passes the gate, so a command is a function
    of the world it starts in.

    The artifact store and the supervisor are reached through the interfaces
    [ArtifactSource] and [SupervisorOps]; the [tar] crate is the class [Tar]. *)

From S2P Require Import Prelude Protocol Text LogBuffer Files ArtifactStore IpAddr Ipc Supervisor Paths Tree Manifest.

Open Scope Z_scope.

Definition EXPECTED_CURRENT_RELEASE_ANY : string := "any".
Definition RESTART_POLICY_NEVER : string := "never".
Definition RESTART_POLICY_ON_FAILURE : string := "on-failure".
Definition RESTART_POLICY_ALWAYS : string := "always".
Definition RESTART_POLICY_UNLESS_STOPPED : string := "unless-stopped".
Definition RESTART_POLICY_FILE_NAME : string := "restart_policy".
Definition STOPPED_SERVICE_STARTED_AT : string := "".

(** ** Data *)

Record DeploySummary := { ds_service_name : string; ds_release_hash : string }.
Record RunSummary := { ru_service_name : string; ru_release_hash : string }.
Record StopSummary := { st_service_name : string }.
Record RestoreFailure := { rf_service_name : string; rf_error : ImagodError }.
Record RestoreActiveServicesSummary := { ra_started : list RunSummary; ra_failed : list RestoreFailure }.
Record BootRestoreCandidate := {
  bc_service_name : string;
  bc_service_root : string;
  bc_release_hash : string;
}.

Record PreparedRelease `{Json} := {
  pr_service_name : string;
  pr_service_root : string;
  pr_release_hash : string;
  pr_active_file : string;
  pr_restart_policy_file : string;
  pr_previous_release : option string;
  pr_previous_restart_policy : option string;
  pr_launch : ServiceLaunch;
}.

Record StagedRelease `{Json} := {
  sg_service_name : string;
  sg_staging_dir : string;
  sg_manifest : Manifest;
  sg_artifact_digest : string;
}.

Inductive RollbackOutcome :=
  | SkippedNoPreviousRelease
  | RestoredPreviousRelease
  | RecoveredByForceStop.

(** ** Errors *)

Definition service_command_busy_error (service_name : string) : ImagodError :=
  new_error Busy STAGE_ORCHESTRATE (quoted_service service_name "command is already in progress").

(** [with_detail] for every entry. *)
Definition with_details (details : gmap string string) (e : ImagodError) : ImagodError :=
  {| err_code := err_code e; err_stage := err_stage e; err_message := err_message e;
     err_retryable := err_retryable e; err_details := details ∪ err_details e |}.

Definition map_rollback_error (err : ImagodError) : ImagodError :=
  with_details (err_details err)
    (with_retryable (err_retryable err)
       (new_error RollbackFailed STAGE_ORCHESTRATE (err_message err))).

Definition with_message (message : string) (e : ImagodError) : ImagodError :=
  {| err_code := err_code e; err_stage := err_stage e; err_message := message;
     err_retryable := err_retryable e; err_details := err_details e |}.

Definition append_rollback_success_message (start_error : ImagodError) (outcome : RollbackOutcome)
    : ImagodError :=
  let note n := with_message (err_message start_error +:+ "; " +:+ n)%string start_error in
  match outcome with
  | SkippedNoPreviousRelease => start_error
  | RestoredPreviousRelease => note "rollback: restored previous release"
  | RecoveredByForceStop => note "rollback: recovered by force-stop and restored previous release"
  end.

Definition compose_rollback_failure_error (start_error rollback_error : ImagodError) : ImagodError :=
  foldl (λ composed '(key, value),
      if bool_decide (is_Some (err_details start_error !! key))
      then with_detail ("rollback." +:+ key) value composed
      else with_detail key value composed)
    (with_details (err_details start_error)
       (with_retryable (err_retryable rollback_error)
          (new_error RollbackFailed STAGE_ORCHESTRATE
             (err_message start_error +:+ "; rollback failed: " +:+ err_message rollback_error))))
    (btree_iter (err_details rollback_error)).

(** ** The command gate *)

Definition acquire (service_name : string) (inflight : gset string) : iresult (gset string) :=
  if bool_decide (service_name ∈ inflight) then Err (service_command_busy_error service_name)
  else Ok ({[service_name]} ∪ inflight).

(** [Drop for ServiceCommandGuard]. *)
Definition drop_guard (service_name : string) (inflight : gset string) : gset string :=
  inflight ∖ {[service_name]}.

(** The name that is held afterwards; assigning the new guard drops the old one. *)
Definition rebind_deploy_service_command_guard (current manifest_service_name : string)
    (inflight : gset string) : iresult (string * gset string) :=
  if bool_decide (current = manifest_service_name) then Ok (current, inflight)
  else
    inflight ← acquire manifest_service_name inflight;
    Ok (manifest_service_name, drop_guard current inflight).

(** ** Interfaces *)

Inductive TarEntryType := TarFile | TarDirectory | TarOther (name : string).

(** The [tar] crate: the entries of an archive, and unpacking one of them to a path. *)
Class Tar := {
  TarEntry : Type;
  tar_entries : list byte → result string (list (result string TarEntry));
  entry_type : TarEntry → TarEntryType;
  entry_path : TarEntry → result string string;
  entry_unpack : TarEntry → string → fs_call unit;
}.

(** Unpacking an entry to a path changes nothing but that path. *)
Class TarLaws `{Tar} : Prop := {
  entry_unpack_at e path t t' r x :
    entry_unpack e path t = (t', r) → x ≠ key path → t' !! x = t !! x;
}.

(** What the orchestrator asks of the artifact store. *)
Class ArtifactSource (N : Type) := {
  src_pin : string → N → N;
  src_unpin : string → N → N;
  src_service_name_for_deploy : string → Z → N → N * iresult string;
  src_committed_artifact : string → Z → N → N * iresult CommittedArtifact;
  src_read : string → N → option (list byte);
}.

Class ArtifactSourceLaws (N : Type) `{ArtifactSource N} := {
  src_ok : N → Prop;
  src_pin_ok d n : src_ok n → src_ok (src_pin d n);
  src_service_name_ok d now n n' r :
    src_ok n → src_service_name_for_deploy d now n = (n', r) → src_ok n';
  src_committed_proper d now n n' ca :
    src_ok n → src_committed_artifact d now n = (n', Ok ca) → proper (ca_deploy_id ca);
}.

(** What the orchestrator asks of the supervisor. *)
Class SupervisorOps `{Json} (W : Type) := {
  sup_start : ServiceLaunch → W → W * iresult unit;
  sup_stop : string → bool → W → W * iresult unit;
  sup_replace : ServiceLaunch → W → W * iresult unit;
  sup_runtime_states : W → list RuntimeServiceState;
}.

(** ** Files of a service *)

Definition is_supported_restart_policy (value : string) : bool :=
  bool_decide (value ∈ [RESTART_POLICY_NEVER; RESTART_POLICY_ON_FAILURE; RESTART_POLICY_ALWAYS;
                        RESTART_POLICY_UNLESS_STOPPED]).

Definition validate_deploy_preconditions (payload : DeployCommandPayload)
    (active_release : option string) : iresult unit :=
  if negb (is_supported_restart_policy (dc_restart_policy payload)) then
    Err (new_error BadRequest STAGE_ORCHESTRATE
           ("unsupported restart_policy '" +:+ dc_restart_policy payload
            +:+ "': supported values are 'never', 'on-failure', 'always' and 'unless-stopped'"))
  else if bool_decide (dc_expected_current_release payload = EXPECTED_CURRENT_RELEASE_ANY)
  then Ok tt
  else
    let actual := default "none" active_release in
    if bool_decide (dc_expected_current_release payload = actual) then Ok tt
    else Err (with_detail "actual_current_release" actual
               (with_detail "expected_current_release" (dc_expected_current_release payload)
                 (new_error PreconditionFailed STAGE_ORCHESTRATE
                    "expected_current_release does not match active release"))).

Section files.
Context (io : FsIo).

Definition write_restart_policy (path policy : string) : fsm unit :=
  if negb (is_supported_restart_policy policy)
  then pure (Err (new_error BadRequest STAGE_ORCHESTRATE ("invalid restart_policy: " +:+ policy)))
  else lift (write io path (bytes_of policy))
         (λ e, map_internal_orch ("restart policy update failed: " +:+ fs_error_text e)).

Definition restore_restart_policy (path : string) (policy : option string) : fsm unit :=
  match policy with
  | Some policy => write_restart_policy path policy
  | None =>
    r ← attempt (remove_file io path);
    match r with
    | Ok _ | Err NotFoundError => mret tt
    | Err err => pure (Err (map_internal_orch ("failed to remove restart policy file " +:+ path
                   +:+ ": " +:+ fs_error_text err)))
    end
  end.

Definition read_active_release (path : string) : fsm (option string) :=
  r ← attempt (read_to_string io path);
  match r with
  | Ok content => mret (Some (trim content))
  | Err NotFoundError => mret None
  | Err e => pure (Err (map_internal_orch ("failed to read active release: " +:+ fs_error_text e)))
  end.

Definition read_restart_policy (path : string) : fsm (option string) :=
  r ← attempt (read_to_string io path);
  match r with
  | Ok content =>
    let policy := trim content in
    if negb (is_supported_restart_policy policy)
    then pure (Err (map_internal_orch ("invalid restart policy persisted in " +:+ path +:+ ": "
           +:+ policy)))
    else mret (Some policy)
  | Err NotFoundError => mret None
  | Err e => pure (Err (map_internal_orch ("failed to read restart policy: " +:+ fs_error_text e)))
  end.

Definition read_restart_policy_or_default (path : string) : fsm string :=
  policy ← read_restart_policy path; mret (default RESTART_POLICY_NEVER policy).

Definition clean_dir (path : string) : fsm unit :=
  r ← attempt (remove_dir_all io path);
  match r with
  | Ok _ | Err NotFoundError => mret tt
  | Err e => pure (Err (map_internal_orch ("failed to remove dir " +:+ path +:+ ": "
               +:+ fs_error_text e)))
  end.

Definition cleanup_old_releases (service_root new_release : string)
    (previous_release : option string) : fsm unit :=
  entries ← lift (read_dir io service_root)
              (λ e, map_internal_orch ("failed to read service root: " +:+ fs_error_text e));
  for_entries io service_root (λ m, map_internal_orch ("failed to iterate service root: " +:+ m))
    (λ name _,
      let path := path_join service_root name in
      file_type ← lift (metadata io path)
                    (λ e, map_internal_orch ("failed to read entry type: " +:+ fs_error_text e));
      if negb (is_dir file_type) then mret tt
      else if bool_decide (name = new_release) then mret tt
      else if bool_decide (previous_release = Some name) then mret tt
      else lift (remove_dir_all io path)
             (λ e, map_internal_orch ("failed to cleanup old release " +:+ path +:+ ": "
                     +:+ fs_error_text e))) entries tt.

(** The last name of a path, and the path with that name replaced. *)
Definition file_name (path : string) : option string :=
  match last (components path) with Some (Normal name) => Some name | _ => None end.
Definition with_file_name (path name : string) : string := path_join (parent_dir path) name.

Definition promote_staging_release `{Crates} (uuid : N) (staging_dir release_dir : string) : fsm unit :=
  existing ← attempt (metadata io release_dir);
  match existing with
  | Err NotFoundError =>
    lift (rename io staging_dir release_dir)
      (λ err, map_internal_orch ("release move failed: " +:+ fs_error_text err))
  | Err e => pure (Err (map_internal_orch ("failed to inspect release dir " +:+ release_dir
               +:+ ": " +:+ fs_error_text e)))
  | Ok _ =>
    let release_name := default "release" (file_name release_dir) in
    let backup_dir := with_file_name release_dir
                        (release_name +:+ ".swap-backup-" +:+ uuid_to_string uuid) in
    _ ← lift (rename io release_dir backup_dir)
          (λ e, map_internal_orch ("failed to move release to backup: " +:+ fs_error_text e));
    r ← attempt (rename io staging_dir release_dir);
    match r with
    | Ok _ =>
      lift (remove_dir_all io backup_dir)
        (λ e, map_internal_orch ("failed to cleanup release backup " +:+ backup_dir +:+ ": "
                +:+ fs_error_text e))
    | Err e =>
      restore ← attempt (rename io backup_dir release_dir);
      match restore with
      | Err restore_err =>
        pure (Err (map_internal_orch ("release move failed: " +:+ fs_error_text e
               +:+ "; rollback restore failed: " +:+ fs_error_text restore_err)))
      | Ok _ => pure (Err (map_internal_orch ("release move failed and backup restored: "
                       +:+ fs_error_text e)))
      end
    end
  end.

End files.

(** ** Staging and preparing a release *)

Section release.
Context `{ManifestCrates, Crates, Tar} (io : FsIo).

Fixpoint extract_entries (dest : string) (entries : list (result string TarEntry)) : fsm unit :=
  match entries with
  | [] => mret tt
  | Err e :: _ => pure (Err (map_bad_manifest ("artifact entry read failed: " +:+ e)))
  | Ok entry :: rest =>
    match entry_type entry with
    | TarOther name =>
      pure (Err (map_bad_manifest ("artifact contains unsupported entry type: " +:+ name)))
    | (TarFile | TarDirectory) as kind =>
      path ← pure (map_err (λ e, map_bad_manifest ("artifact entry path failed: " +:+ e))
                     (entry_path entry));
      relative ← pure (normalize_archive_entry_path path);
      let output_path := path_join dest relative in
      _ ← pure (ensure (path_starts_with output_path dest)
            (map_bad_manifest "artifact entry resolved outside destination"));
      _ ← match kind with
          | TarDirectory =>
            lift (create_dir_all io output_path) (λ e, map_bad_manifest
              ("artifact directory create failed " +:+ output_path +:+ ": " +:+ fs_error_text e))
          | _ =>
            _ ← lift (create_dir_all io (parent_dir output_path)) (λ e, map_bad_manifest
                  ("artifact parent directory create failed " +:+ parent_dir output_path +:+ ": "
                   +:+ fs_error_text e));
            lift (entry_unpack entry output_path) (λ e, map_bad_manifest
              ("artifact unpack failed for " +:+ output_path +:+ ": " +:+ fs_error_text e))
          end;
      extract_entries dest rest
    end
  end.

(** [bundle] is what opening and reading the archive file yields. *)
Definition extract_tar (bundle : option (list byte)) (dest : string) : fsm unit :=
  bytes ← pure (ok_or bundle (map_bad_manifest
            ("artifact open failed: " +:+ fs_error_text NotFoundError)));
  entries ← pure (map_err (λ e, map_bad_manifest ("artifact entries failed: " +:+ e))
                    (tar_entries bytes));
  extract_entries dest entries.

Definition stage_committed_release (storage_root : string) (committed : CommittedArtifact)
    (bundle : option (list byte)) : fsm StagedRelease :=
  let staging_dir := path_join (path_join storage_root "staging") (ca_deploy_id committed) in
  _ ← clean_dir io staging_dir;
  _ ← lift (create_dir_all io staging_dir)
        (λ e, map_internal_orch ("failed to create staging dir: " +:+ fs_error_text e));
  _ ← extract_tar bundle staging_dir;
  manifest_bytes ← lift (read io (path_join staging_dir "manifest.json"))
                     (λ e, map_bad_manifest ("manifest read failed: " +:+ fs_error_text e));
  manifest ← pure (parse_manifest manifest_bytes);
  _ ← pure (validate_manifest_metadata manifest manifest_bytes (Some (ca_manifest_digest committed)));
  mret {| sg_service_name := m_name manifest; sg_staging_dir := staging_dir;
          sg_manifest := manifest; sg_artifact_digest := ca_artifact_digest committed |}.

Definition release_id_from_artifact_digest (full : string) : string := sha256_hex (bytes_of full).

Definition service_root_of (storage_root service_name : string) : string :=
  path_join (path_join storage_root "services") service_name.

Definition prepare_release_from_staged_inner (storage_root : string) (uuid : N)
    (payload : DeployCommandPayload) (staged : StagedRelease) : fsm PreparedRelease :=
  let release_hash := release_id_from_artifact_digest (sg_artifact_digest staged) in
  let service_root := service_root_of storage_root (sg_service_name staged) in
  let release_dir := path_join service_root release_hash in
  let active_file := path_join service_root "active_release" in
  let restart_policy_file := path_join service_root RESTART_POLICY_FILE_NAME in
  previous_release ← read_active_release io active_file;
  previous_restart_policy ← read_restart_policy io restart_policy_file;
  _ ← pure (validate_deploy_preconditions payload previous_release);
  _ ← lift (create_dir_all io service_root)
        (λ e, map_internal_orch ("service root creation failed: " +:+ fs_error_text e));
  _ ← promote_staging_release io uuid (sg_staging_dir staged) release_dir;
  _ ← cleanup_old_releases io service_root release_hash previous_release;
  launch ← build_launch_from_release io storage_root release_hash release_dir (sg_manifest staged);
  mret {| pr_service_name := sg_service_name staged; pr_service_root := service_root;
          pr_release_hash := release_hash; pr_active_file := active_file;
          pr_restart_policy_file := restart_policy_file;
          pr_previous_release := previous_release;
          pr_previous_restart_policy := previous_restart_policy; pr_launch := launch |}.

Definition load_launch_from_release (storage_root service_name service_root release_hash : string)
    : fsm ServiceLaunch :=
  let release_dir := path_join service_root release_hash in
  manifest_bytes ← lift (read io (path_join release_dir "manifest.json"))
                     (λ e, map_bad_manifest ("manifest read failed: " +:+ fs_error_text e));
  manifest ← pure (parse_manifest manifest_bytes);
  _ ← pure (validate_release_service_name manifest service_name);
  build_launch_from_release io storage_root release_hash release_dir manifest.

(** *** Listings *)

Definition collect_active (services_root service_name : string) (deployed : gmap string string)
    : fsm (gmap string string) :=
  active ← read_active_release io (path_join (path_join services_root service_name) "active_release");
  mret (match active with
        | Some active_release =>
          if bool_decide (active_release = "") then deployed
          else <[service_name := active_release]> deployed
        | None => deployed
        end).

Fixpoint collect_filtered (services_root : string) (names : list string)
    (deployed : gmap string string) : fsm (gmap string string) :=
  match names with
  | [] => mret deployed
  | name :: rest =>
    deployed ← collect_active services_root name deployed; collect_filtered services_root rest deployed
  end.

Definition collect_deployed_service_releases (storage_root : string)
    (names_filter : option (gmap string unit)) : fsm (gmap string string) :=
  let services_root := path_join storage_root "services" in
  match names_filter with
  | Some names => collect_filtered services_root (btree_keys names) ∅
  | None =>
    listing ← attempt (read_dir io services_root);
    match listing with
    | Err NotFoundError => mret ∅
    | Err err => pure (Err (map_internal_orch ("failed to read services root " +:+ services_root
                   +:+ ": " +:+ fs_error_text err)))
    | Ok entries =>
      for_entries io services_root
        (λ m, map_internal_orch ("failed to iterate services root: " +:+ m))
        (λ name deployed,
          let path := path_join services_root name in
          file_type ← lift (metadata io path) (λ err, map_internal_orch
                        ("failed to read service entry type " +:+ path +:+ ": " +:+ fs_error_text err));
          if negb (is_dir file_type) then mret deployed
          else collect_active services_root name deployed) entries ∅
    end
  end.

Definition runtime_status_to_service_state (status : RunningStatus) : ServiceState :=
  match status with Running => SvcRunning | Stopping => SvcStopping end.

Definition merge_deployed_and_runtime_service_states (deployed_releases : gmap string string)
    (runtime_states : list RuntimeServiceState) : list ServiceStatusEntry :=
  let deployed := map_imap (λ name release_hash,
      Some {| ss_name := name; ss_release_hash := release_hash;
              ss_started_at := STOPPED_SERVICE_STARTED_AT; ss_state := SvcStopped |})
      deployed_releases in
  let merged := foldl (λ merged s,
      <[rt_name s := {| ss_name := rt_name s; ss_release_hash := rt_release_hash s;
                        ss_started_at := rt_started_at s;
                        ss_state := runtime_status_to_service_state (rt_status s) |}]> merged)
      deployed runtime_states in
  (btree_iter merged).*2.

(** *** Boot *)

Definition classify_boot_restore_entry (service_name service_root : string)
    (file_type : result FsError entry)
    (acc : list (string * string) * list RestoreFailure)
    : list (string * string) * list RestoreFailure :=
  let '(service_entries, failed) := acc in
  match file_type with
  | Ok file_type =>
    if is_dir file_type then (service_entries ++ [(service_name, service_root)], failed) else acc
  | Err err =>
    (service_entries,
     failed ++ [{| rf_service_name := service_name;
                   rf_error := map_internal_orch ("failed to read service entry type for '"
                     +:+ service_name +:+ "': " +:+ fs_error_text err) |}])
  end.

Definition boot_candidate (service_name service_root : string)
    (acc : list BootRestoreCandidate * list RestoreFailure)
    : fsm (list BootRestoreCandidate * list RestoreFailure) := λ t,
  let '(candidates, failed) := acc in
  let fail error := (candidates, failed ++ [{| rf_service_name := service_name; rf_error := error |}]) in
  match read_restart_policy_or_default io (path_join service_root RESTART_POLICY_FILE_NAME) t with
  | (t, Err error) => (t, Ok (fail error))
  | (t, Ok restart_policy) =>
    if negb (bool_decide (restart_policy = RESTART_POLICY_ALWAYS)) then (t, Ok acc)
    else
      match read_active_release io (path_join service_root "active_release") t with
      | (t, Err error) => (t, Ok (fail error))
      | (t, Ok None) => (t, Ok acc)
      | (t, Ok (Some active_release)) =>
        if bool_decide (active_release = "")
        then (t, Ok (fail (map_bad_manifest "active_release must not be empty")))
        else (t, Ok (candidates ++ [{| bc_service_name := service_name;
                                       bc_service_root := service_root;
                                       bc_release_hash := active_release |}], failed))
      end
  end.

Fixpoint boot_candidates (entries : list (string * string))
    (acc : list BootRestoreCandidate * list RestoreFailure)
    : fsm (list BootRestoreCandidate * list RestoreFailure) :=
  match entries with
  | [] => mret acc
  | (name, root) :: rest => acc ← boot_candidate name root acc; boot_candidates rest acc
  end.

Definition collect_boot_restore_candidates (storage_root : string)
    : fsm (list BootRestoreCandidate * list RestoreFailure) :=
  let services_root := path_join storage_root "services" in
  listing ← attempt (read_dir io services_root);
  match listing with
  | Err NotFoundError => mret ([], [])
  | Err e => pure (Err (map_internal_orch ("failed to read services root " +:+ services_root
               +:+ ": " +:+ fs_error_text e)))
  | Ok entries =>
    '(service_entries, failed) ← for_entries io services_root
      (λ m, map_internal_orch ("failed to iterate services root: " +:+ m))
      (λ name acc,
        let service_root := path_join services_root name in
        file_type ← attempt (metadata io service_root);
        mret (classify_boot_restore_entry name service_root file_type acc)) entries ([], []);
    boot_candidates (sort_by key_leb service_entries) ([], failed)
  end.

(** *** Unused plugin components ([plugin_cache.rs]) *)

Definition referenced_by (m : Manifest) : list string :=
  omap (λ d, match dep_kind d with Wasm => pc_sha256 <$> dep_component d | Native => None end)
    (m_dependencies m).

(** The components the active release of one service names; anything unreadable is skipped. *)
Definition referenced_of_service (service_root : string) (referenced : gset string)
    : fsm (gset string) := λ t,
  match metadata io service_root t with
  | (t, Ok Directory) =>
    match read_active_release io (path_join service_root "active_release") t with
    | (t, Ok (Some active)) =>
      if bool_decide (active = "") then (t, Ok referenced)
      else
        match read io (path_join (path_join service_root active) "manifest.json") t with
        | (t, Ok manifest_bytes) =>
          match parse_manifest manifest_bytes with
          | Ok manifest => (t, Ok (list_to_set (referenced_by manifest) ∪ referenced))
          | Err _ => (t, Ok referenced)
          end
        | (t, Err _) => (t, Ok referenced)
        end
    | (t, _) => (t, Ok referenced)
    end
  | (t, _) => (t, Ok referenced)
  end.

Definition collect_referenced_plugin_component_hashes_for_root (storage_root : string)
    : fsm (gset string) :=
  let services_root := path_join storage_root "services" in
  listing ← attempt (read_dir io services_root);
  match listing with
  | Err NotFoundError => mret ∅
  | Err err => pure (Err (map_internal_orch ("failed to read services root for plugin gc "
                 +:+ services_root +:+ ": " +:+ fs_error_text err)))
  | Ok entries =>
    for_entries io services_root
      (λ m, map_internal_orch ("failed to iterate services root: " +:+ m))
      (λ name referenced, referenced_of_service (path_join services_root name) referenced)
      entries ∅
  end.

(** [file_stem] and [extension] of a name: a leading dot starts no extension. *)
Definition stem_and_extension (name : string) : string * option string :=
  match rsplit_once "."%char name with
  | Some (stem, ext) => if bool_decide (stem = "") then (name, None) else (stem, Some ext)
  | None => (name, None)
  end.

Definition gc_entry (components_root : string) (referenced : gset string) (name : string) : fsm unit :=
  let path := path_join components_root name in
  file_type ← attempt (metadata io path);
  match file_type with
  | Ok (File _) =>
    let '(stem, ext) := stem_and_extension name in
    if negb (bool_decide (ext = Some "wasm")) then mret tt
    else if bool_decide (stem ∈ referenced) then mret tt
    else _ ← attempt (remove_file io path); mret tt
  | _ => mret tt
  end.

Definition gc_unused_plugin_components_on_boot_for_root (storage_root : string) : fsm unit :=
  let components_root := plugin_component_cache_root storage_root in
  referenced ← collect_referenced_plugin_component_hashes_for_root storage_root;
  listing ← attempt (read_dir io components_root);
  match listing with
  | Err NotFoundError => mret tt
  | Err err => pure (Err (map_internal_orch ("failed to read plugin components dir "
                 +:+ components_root +:+ ": " +:+ fs_error_text err)))
  | Ok entries =>
    for_entries io components_root
      (λ m, map_internal_orch ("failed to iterate plugin components dir: " +:+ m))
      (λ name _, gc_entry components_root referenced name) entries tt
  end.

End release.

(** ** Commands *)

Record World (Src Sup : Type) := mkWorld {
  wd_tree : tree;
  wd_inflight : gset string;
  wd_source : Src;
  wd_sup : Sup;
}.
Arguments mkWorld {Src Sup} _ _ _ _.
Arguments wd_tree {Src Sup} _.
Arguments wd_inflight {Src Sup} _.
Arguments wd_source {Src Sup} _.
Arguments wd_sup {Src Sup} _.

Section commands.
Context `{ManifestCrates, Crates, Tar} {Src Sup : Type} {SRC : ArtifactSource Src} {SUP : SupervisorOps Sup}.
Context (io : FsIo) (storage_root : string).

Definition cmd (A : Type) : Type := World Src Sup → World Src Sup * iresult A.

#[local] Instance cmd_ret : MRet cmd := λ A a w, (w, Ok a).
#[local] Instance cmd_bind : MBind cmd := λ A B f m w,
  match m w with (w, Ok a) => f a w | (w, Err e) => (w, Err e) end.

Definition on_tree {A} (m : fsm A) : cmd A := λ w,
  let '(t, r) := m (wd_tree w) in (mkWorld t (wd_inflight w) (wd_source w) (wd_sup w), r).
Definition on_sup {A} (f : Sup → Sup * A) : World Src Sup → World Src Sup * A := λ w,
  let '(s, r) := f (wd_sup w) in (mkWorld (wd_tree w) (wd_inflight w) (wd_source w) s, r).
Definition on_source {A} (f : Src → Src * iresult A) : cmd A := λ w,
  let '(n, r) := f (wd_source w) in (mkWorld (wd_tree w) (wd_inflight w) n (wd_sup w), r).
Definition set_inflight (g : gset string) (w : World Src Sup) : World Src Sup :=
  mkWorld (wd_tree w) g (wd_source w) (wd_sup w).
Definition set_source (n : Src) (w : World Src Sup) : World Src Sup :=
  mkWorld (wd_tree w) (wd_inflight w) n (wd_sup w).
Definition cmd_err {A} (f : ImagodError → ImagodError) (m : cmd A) : cmd A := λ w,
  let '(w, r) := m w in (w, map_err f r).

(** Run [m] while [service_name] passes the gate. *)
Definition with_gate {A} (service_name : string) (m : cmd A) : cmd A := λ w,
  match acquire service_name (wd_inflight w) with
  | Err e => (w, Err e)
  | Ok g =>
    let '(w, r) := m (set_inflight g w) in
    (set_inflight (drop_guard service_name (wd_inflight w)) w, r)
  end.

(** Start the previous release; when the service is busy, force it to stop first. *)
Definition start_previous_release_with_busy_recovery (start stop : cmd unit) : cmd RollbackOutcome :=
  λ w,
  match start w with
  | (w, Ok _) => (w, Ok RestoredPreviousRelease)
  | (w, Err start_error) =>
    if bool_decide (err_code start_error = Busy) then
      let restart w :=
        let '(w, r) := start w in
        (w, match r with Ok _ => Ok RecoveredByForceStop | Err e => Err (map_rollback_error e) end) in
      match stop w with
      | (w, Ok _) => restart w
      | (w, Err stop_error) =>
        if bool_decide (err_code stop_error = NotFound) then restart w
        else (w, Err (map_rollback_error stop_error))
      end
    else (w, Err (map_rollback_error start_error))
  end.

Definition rollback_previous_release (prepared : PreparedRelease) : cmd RollbackOutcome :=
  match pr_previous_release prepared with
  | None => mret SkippedNoPreviousRelease
  | Some previous_release =>
    _ ← on_tree (lift (write io (pr_active_file prepared) (bytes_of previous_release)) (λ e,
          new_error RollbackFailed STAGE_ORCHESTRATE
            ("failed to write rollback release: " +:+ fs_error_text e)));
    _ ← cmd_err map_rollback_error (on_tree (restore_restart_policy io
          (pr_restart_policy_file prepared) (pr_previous_restart_policy prepared)));
    previous_launch ← cmd_err map_rollback_error (on_tree (load_launch_from_release io storage_root
          (pr_service_name prepared) (pr_service_root prepared) previous_release));
    start_previous_release_with_busy_recovery (on_sup (sup_start previous_launch))
      (on_sup (sup_stop (pr_service_name prepared) true))
  end.

(** [deploy] once the release is prepared: replace the running service, then record the release. *)
Definition activate_prepared (payload : DeployCommandPayload) (prepared : PreparedRelease)
    : cmd DeploySummary := λ w,
  match on_sup (sup_replace (pr_launch prepared)) w with
  | (w, Err start_error) =>
    if dc_auto_rollback payload then
      match rollback_previous_release prepared w with
      | (w, Ok outcome) => (w, Err (append_rollback_success_message start_error outcome))
      | (w, Err rollback_error) => (w, Err (compose_rollback_failure_error start_error rollback_error))
      end
    else (w, Err start_error)
  | (w, Ok _) =>
    (_ ← on_tree (lift (write io (pr_active_file prepared) (bytes_of (pr_release_hash prepared)))
           (λ e, map_internal_orch ("active release update failed: " +:+ fs_error_text e)));
     _ ← on_tree (write_restart_policy io (pr_restart_policy_file prepared) (dc_restart_policy payload));
     mret {| ds_service_name := pr_service_name prepared;
             ds_release_hash := pr_release_hash prepared |} : cmd DeploySummary) w
  end.

Definition activate (uuid : N) (payload : DeployCommandPayload) (staged : StagedRelease)
    : cmd DeploySummary :=
  prepared ← on_tree (prepare_release_from_staged_inner io storage_root uuid payload staged);
  activate_prepared payload prepared.

Definition prepare_release_staging (payload : DeployCommandPayload) (now : Z) : cmd StagedRelease := λ w,
  match on_source (src_committed_artifact (dc_deploy_id payload) now) w with
  | (w, Err e) => (w, Err e)
  | (w, Ok committed) =>
    on_tree (stage_committed_release io storage_root committed
               (src_read (ca_path committed) (wd_source w))) w
  end.

(** [now1] and [now2] are the times the artifact store reads, [uuid] the one of the backup
    directory.  The pin covers the staging; the guards are dropped on every way out. *)
Definition deploy (payload : DeployCommandPayload) (now1 now2 : Z) (uuid : N) : cmd DeploySummary :=
  λ w,
  let id := dc_deploy_id payload in
  let unpin w := set_source (src_unpin id (wd_source w)) w in
  let drop name w := set_inflight (drop_guard name (wd_inflight w)) w in
  let w := set_source (src_pin id (wd_source w)) w in
  match on_source (src_service_name_for_deploy id now1) w with
  | (w, Err e) => (unpin w, Err e)
  | (w, Ok service_name) =>
    match acquire service_name (wd_inflight w) with
    | Err e => (unpin w, Err e)
    | Ok g =>
      match prepare_release_staging payload now2 (set_inflight g w) with
      | (w, Err e) => (unpin (drop service_name w), Err e)
      | (w, Ok staged) =>
        let w := unpin w in
        match rebind_deploy_service_command_guard service_name (sg_service_name staged)
                (wd_inflight w) with
        | Err e => (drop service_name w, Err e)
        | Ok (service_name, g) =>
          let '(w, r) := activate uuid payload staged (set_inflight g w) in
          (drop service_name w, r)
        end
      end
    end
  end.

Definition run (payload : RunCommandPayload) : cmd RunSummary :=
  let name := rc_name payload in
  with_gate name (
    active ← on_tree (read_active_release io
               (path_join (service_root_of storage_root name) "active_release"));
    active_release ← on_tree (pure (ok_or active (new_error NotFound STAGE_ORCHESTRATE
                       (quoted_service name "has no active release"))));
    launch ← on_tree (load_launch_from_release io storage_root name
               (service_root_of storage_root name) active_release);
    _ ← on_sup (sup_start launch);
    mret {| ru_service_name := name; ru_release_hash := active_release |}).

Definition stop (payload : StopCommandPayload) : cmd StopSummary :=
  with_gate (sc_name payload) (
    _ ← on_sup (sup_stop (sc_name payload) (sc_force payload));
    mret {| st_service_name := sc_name payload |}).

Definition restore_service_from_release (candidate : BootRestoreCandidate) : cmd RunSummary :=
  launch ← on_tree (load_launch_from_release io storage_root (bc_service_name candidate)
             (bc_service_root candidate) (bc_release_hash candidate));
  _ ← on_sup (sup_start launch);
  mret {| ru_service_name := bc_service_name candidate; ru_release_hash := bc_release_hash candidate |}.

Fixpoint restore_each (candidates : list BootRestoreCandidate) (started : list RunSummary)
    (failed : list RestoreFailure) (w : World Src Sup)
    : World Src Sup * RestoreActiveServicesSummary :=
  match candidates with
  | [] => (w, {| ra_started := started; ra_failed := failed |})
  | c :: rest =>
    match restore_service_from_release c w with
    | (w, Ok summary) => restore_each rest (started ++ [summary]) failed w
    | (w, Err error) =>
      restore_each rest started
        (failed ++ [{| rf_service_name := bc_service_name c; rf_error := error |}]) w
    end
  end.

Definition restore_active_services_on_boot : cmd RestoreActiveServicesSummary := λ w,
  match on_tree (collect_boot_restore_candidates io storage_root) w with
  | (w, Err e) => (w, Err e)
  | (w, Ok (candidates, failed)) =>
    let '(w, summary) := restore_each candidates [] failed w in (w, Ok summary)
  end.

Definition list_service_states (names_filter : option (list string)) : cmd (list ServiceStatusEntry) :=
  λ w,
  let names := (λ l, list_to_map ((λ n, (n, tt)) <$> l) : gmap string unit) <$> names_filter in
  match on_tree (collect_deployed_service_releases io storage_root names) w with
  | (w, Err e) => (w, Err e)
  | (w, Ok deployed_releases) =>
    let runtime_states := filter (λ s,
        match names with Some names => bool_decide (is_Some (names !! rt_name s)) | None => true end
        = true)
        (sup_runtime_states (wd_sup w)) in
    (w, Ok (merge_deployed_and_runtime_service_states deployed_releases runtime_states))
  end.

End commands.
