(* ===== verification/Deploy.v ===== *)
(** * What a deployment changes

    The theorems on [Orchestrator.deploy]: which places of the storage tree it can change and
    which release a service is on afterwards, when the manifest does not call its service [.],
    and that a deployment of a service called [.] deletes the others. *)

From S2P Require Import Prelude Protocol Text LogBuffer Files ArtifactStore IpAddr Ipc Supervisor Paths Tree TreeFacts Manifest Launch Orchestrator.

Open Scope Z_scope.

(** ** Keys of the paths the orchestrator builds *)

Lemma names_of_proper name : proper name → names_of name = [name].
Proof. intros (Hne & _ & _ & Hs). unfold names_of. rewrite decide_False by done. by apply split_none. Qed.

Lemma key_join_name dir name : proper name → key (path_join dir name) = key dir ++ [name].
Proof.
  intros Hp. pose proof (names_of_proper name Hp) as Hn.
  unfold key. rewrite components_join_names, Hn, bind_app by
    (try (by destruct Hp); rewrite Hn; by constructor). done.
Qed.

Lemma key_join_dot dir : key (path_join dir ".") = key dir.
Proof.
  unfold path_join. cbn [starts_with]. destruct (bool_decide_reflect (dir = "")) as [->|Hd]; [done|].
  assert (starts_with "/" "." = false) as -> by done. simpl. unfold key. destruct (ends_with "/" dir) eqn:He.
  - apply ends_with_slash in He as [r ->]. rewrite <-string_app_assoc.
    change ((String "/" "" +:+ ".")%string) with (String "/" ".").
    destruct (decide (r = "")) as [->|Hr]; [done|].
    rewrite (components_app r "."), (components_app r "") by done. by rewrite !bind_app.
  - change (("/" +:+ ".")%string) with (String "/" "."). rewrite components_app by done.
    rewrite bind_app. by rewrite app_nil_r.
Qed.

Lemma rsplit_once_spec c s a b : rsplit_once c s = Some (a, b) → s = (a +:+ String c b)%string.
Proof.
  revert a b. induction s as [|x s IH]; intros a b; [done|]. cbn [rsplit_once].
  destruct (rsplit_once c s) as [[a' b']|].
  - intros [= <- <-]. by rewrite (IH _ _ eq_refl).
  - case_decide; [|done]. intros [= <- <-]. by subst.
Qed.

Lemma key_app dir rel : ∃ l, key (dir +:+ String "/" rel)%string = key dir ++ l.
Proof.
  destruct (decide (dir = "")) as [->|Hd]; [by eexists|].
  unfold key. rewrite components_app, bind_app by done. by eexists.
Qed.

Lemma key_parent path : under (key (parent_dir path)) (key path).
Proof.
  unfold parent_dir. destruct (rsplit_once _ _) as [[a b]|] eqn:E; [|apply under_nil_l].
  apply rsplit_once_spec in E as ->. destruct (key_app a b) as [l ->]. apply under_app.
Qed.

Lemma proper_chars f s :
  all_chars f s = true → f "/"%char = false → s ≠ "" → s ≠ "." → s ≠ ".." → proper s.
Proof.
  intros Hs Hf ? ? ?. split_and!; [done..|]. intros Hin.
  unfold all_chars in Hs. rewrite forallb_forall in Hs. apply list_elem_of_In, Hs in Hin. congruence.
Qed.

Lemma key_parent_join dir name : proper name → key (parent_dir (path_join dir name)) = key dir.
Proof.
  intros (Hne & _ & _ & Hs). unfold parent_dir, path_join.
  assert (starts_with "/" name = false) as ->.
  { apply not_true_iff_false. rewrite starts_with_char. destruct name; [done|]. simpl. intros [= ->].
    apply Hs. left. }
  destruct (bool_decide_reflect (dir = "")) as [->|Hd]; simpl.
  - change (("" +:+ name)%string) with name.
    destruct (rsplit_once "/" name) as [[a b]|] eqn:E; [|done].
    apply rsplit_once_spec in E. exfalso. apply Hs. rewrite E, bytes_of_app.
    apply elem_of_app. right. left.
  - destruct (ends_with "/" dir) eqn:He.
    + apply ends_with_slash in He as [r ->]. rewrite <-string_app_assoc.
      change ((String "/" "" +:+ name)%string) with (String "/" name).
      rewrite rsplit_once_last by done. destruct (decide (r = "")) as [->|Hr]; [done|].
      unfold key. rewrite (components_app r "") by done. by rewrite app_nil_r.
    + change (("/" +:+ name)%string) with (String "/" name). by rewrite rsplit_once_last.
Qed.

Lemma key_with_file_name dir name n :
  proper name → proper n → key (with_file_name (path_join dir name) n) = key dir ++ [n].
Proof. intros Hn Hp. unfold with_file_name. by rewrite key_join_name, key_parent_join. Qed.

Lemma under_split x k l : under x (k ++ l) → under x k ∨ under k x.
Proof.
  intros [r Hr]. revert k Hr. induction x as [|a x IH]; intros k Hr; [left; apply under_nil_l|].
  destruct k as [|b k]; [right; apply under_nil_l|]. simpl in Hr. injection Hr as -> Hr.
  destruct (IH _ Hr); [left|right]; by apply under_cons.
Qed.

Lemma file_name_proper path name : file_name path = Some name → proper name.
Proof.
  unfold file_name. destruct (last (components path)) as [[| | |n]|] eqn:E; [done..| |done].
  intros [= ->]. apply last_Some in E as [l E]. apply (components_proper path). rewrite E. set_solver.
Qed.

Lemma proper_app s t : proper s → "/"%char ∉ bytes_of t → (2 < String.length t)%nat → proper (s +:+ t)%string.
Proof.
  intros (Hne & _ & _ & Hs) Ht Hlen.
  assert (3 ≤ length (bytes_of (s +:+ t)))%nat as Hl
    by (rewrite bytes_of_app, length_app, (length_bytes_of t); lia).
  split_and!; [by intros E; rewrite E in Hl; simpl in Hl; lia..|].
  rewrite bytes_of_app. by intros [?|?]%elem_of_app.
Qed.

(** ** The launch builder touches only the plugin cache *)

Section touches.
Context {J : Json} {MC : ManifestCrates} {CR : Crates} {CL : CratesLaws} {TR : Tar} {TL : TarLaws}.
Context (io : FsIo) (storage_root : string).
Hypothesis sha256_hex_digits : ∀ b, all_chars is_ascii_hexdigit (sha256_hex b) = true ∧ sha256_hex b ≠ "".

Definition plugins_key : list string := key storage_root ++ ["plugins"; "components"].

Lemma key_plugins : key (plugin_component_cache_root storage_root) = plugins_key.
Proof.
  unfold plugin_component_cache_root, plugins_key.
  by rewrite !key_join_name, <-app_assoc by (apply (bool_decide_unpack _); vm_compute; exact I).
Qed.

Lemma hex_proper s : all_chars is_ascii_hexdigit s = true → s ≠ "" → proper s.
Proof. intros Hs Hne. apply (proper_chars is_ascii_hexdigit); try done; by intros ->. Qed.

Lemma touches_sha P C path : touches P C (compute_sha256_hex_async io path).
Proof. unfold compute_sha256_hex_async. touch. Qed.

Lemma sha256_name_proper value field_name u :
  validate_sha256_hex value field_name = Ok u → proper (value +:+ ".wasm")%string.
Proof.
  unfold validate_sha256_hex. intros [Hlen%bool_decide_eq_true Hc]%ensure_Ok%andb_true_iff.
  apply proper_app; [|by apply (bool_decide_unpack _); vm_compute|simpl; lia].
  apply hex_proper; [done|by intros ->].
Qed.

Lemma touches_component P C root release_dir dep c :
  (∀ name, proper name → P (key root ++ [name])) →
  touches P C (prepare_wasm_component io root release_dir dep c).
Proof.
  intros HP. unfold prepare_wasm_component, cache_digest_matches. touch; try apply touches_sha;
    apply touches_copy; match goal with Hs : validate_sha256_hex _ _ = Ok _ |- _ =>
      apply sha256_name_proper in Hs; rewrite key_join_name by done; by apply HP end.
Qed.

Lemma touches_mount_entries P C release_dir field_name ro dirs : ∀ entries index acc,
  touches P C (resolve_wasi_mount_entries io release_dir field_name ro dirs index entries acc).
Proof.
  induction entries as [|e entries IH]; intros index acc; cbn [resolve_wasi_mount_entries]; [touch|].
  apply touches_bind; [unfold resolve_wasi_mount_entry; touch|done].
Qed.

Lemma touches_prepare_each P C root release_dir known : ∀ deps,
  (∀ name, proper name → P (key root ++ [name])) →
  touches P C (prepare_each io root release_dir known deps).
Proof.
  induction deps as [|d deps IH]; intros HP; cbn [prepare_each]; [touch|].
  apply touches_bind; [unfold prepare_plugin_dependency; touch; by apply touches_component|].
  intros a. apply touches_bind; [by apply IH|touch].
Qed.

Lemma touches_build_launch (P C : list string → Prop) release_hash release_dir m :
  (∀ x, under plugins_key x → P x) → (∀ x, under x plugins_key → C x) →
  touches P C (build_launch_from_release io storage_root release_hash release_dir m).
Proof.
  intros HP HC.
  unfold build_launch_from_release, resolve_resources_config, resolve_wasi_mounts,
    prepare_plugin_dependencies_for_root.
  touch; try apply touches_mount_entries.
  - apply touches_create_dir_all. by rewrite key_plugins.
  - apply touches_prepare_each. intros name _. rewrite key_plugins. apply HP, under_app.
Qed.

Lemma touches_load_launch (P C : list string → Prop) service_name service_root release_hash :
  (∀ x, under plugins_key x → P x) → (∀ x, under x plugins_key → C x) →
  touches P C (load_launch_from_release io storage_root service_name service_root release_hash).
Proof. intros HP HC. unfold load_launch_from_release. touch. by apply touches_build_launch. Qed.

(** ** Staging *)

Lemma touches_extract (P C : list string → Prop) dest : ∀ entries,
  (∀ x, under (key dest) x → P x) → (∀ x, under x (key dest) → C x) →
  touches P C (extract_entries io dest entries).
Proof.
  induction entries as [|[e|err] entries IH]; intros HP HC; cbn [extract_entries]; [touch| |touch].
  assert (∀ path n p, normalize_archive_entry_path path = Ok n →
    under (key p) (key (path_join dest n)) → touches P C (create_dir_all io p)) as Hmk.
  { intros path n p Hn Hu. apply (touches_mono P (λ x, under x (key p))).
    - by apply touches_create_dir_all.
    - done.
    - intros x Hx. apply normalize_archive_entry_path_inv in Hn.
      assert (under x (key dest ++ names_of n)) as Hx'
        by (rewrite <-(key_join dest path n) by done; by eapply under_trans).
      apply under_split in Hx' as [?|?]; auto. }
  assert (∀ path n e, normalize_archive_entry_path path = Ok n →
    touches P C (entry_unpack e (path_join dest n))) as Hun.
  { intros path n e' Hn t x. apply normalize_archive_entry_path_inv in Hn.
    destruct (decide (x = key (path_join dest n))) as [->|Hx].
    - left. apply HP. rewrite (key_join dest path n) by done. apply under_app.
    - right; left. destruct (entry_unpack _ _ t) as [t' r] eqn:E. simpl. by eapply entry_unpack_at. }
  destruct (entry_type e); [| |touch];
    (apply touches_bind_pure; intros path _; apply touches_bind_pure; intros n Hn;
     apply touches_bind_pure; intros _ _; apply touches_bind; [|by auto]).
  - apply touches_bind; intros; apply touches_lift; [|by eapply Hun]. eapply Hmk; [done|].
    apply key_parent.
  - apply touches_lift. eapply Hmk; [done|apply under_refl].
Qed.

Definition staging_key (id : string) : list string := key storage_root ++ ["staging"; id].
Definition service_key (name : string) : list string := key storage_root ++ ["services"; name].

Lemma literal_proper name : bool_decide (proper name) = true → proper name.
Proof. by intros ?%bool_decide_eq_true. Qed.

Lemma key_staging id : proper id → key (path_join (path_join storage_root "staging") id) = staging_key id.
Proof.
  intros Hid. unfold staging_key.
  by rewrite !key_join_name, <-app_assoc by (done || by apply literal_proper).
Qed.

Lemma key_service name : proper name → key (service_root_of storage_root name) = service_key name.
Proof.
  intros Hn. unfold service_root_of, service_key.
  by rewrite !key_join_name, <-app_assoc by (done || by apply literal_proper).
Qed.

Lemma touches_clean_dir (P C : list string → Prop) path :
  (∀ x, under (key path) x → P x) → touches P C (clean_dir io path).
Proof. intros HP. unfold clean_dir. touch. by apply touches_remove_dir_all. Qed.

Lemma touches_stage (P C : list string → Prop) committed bundle :
  proper (ca_deploy_id committed) →
  (∀ x, under (staging_key (ca_deploy_id committed)) x → P x) →
  (∀ x, under x (staging_key (ca_deploy_id committed)) → C x) →
  touches P C (stage_committed_release io storage_root committed bundle).
Proof.
  intros Hid HP HC. unfold stage_committed_release, extract_tar. cbv zeta.
  rewrite <-key_staging in HP, HC by done. touch.
  - by apply touches_clean_dir.
  - by apply touches_create_dir_all.
  - by apply touches_extract.
Qed.

(** ** Promotion and clean-up *)

(** The names a promotion uses below the service's directory. *)
Definition release_name (hash n : string) : Prop := n = hash ∨ "."%char ∈ bytes_of n.

(** The directory the previous copy of a release is moved to while it is replaced. *)
Definition backup_name (hash : string) (uuid : N) : string :=
  (hash +:+ ".swap-backup-" +:+ uuid_to_string uuid)%string.

Lemma backup_proper hash uuid : proper hash → proper (backup_name hash uuid).
Proof.
  intros Hh. apply proper_app; [done| |].
  - rewrite bytes_of_app, elem_of_app. intros [Hin|Hin].
    + revert Hin. apply (bool_decide_unpack _). vm_compute. exact I.
    + pose proof (uuid_to_string_chars uuid) as Hc. unfold all_chars in Hc.
      rewrite forallb_forall in Hc. by apply list_elem_of_In, Hc in Hin.
  - rewrite <-length_bytes_of, bytes_of_app, length_app. simpl. lia.
Qed.

Lemma file_name_join dir name : proper name → file_name (path_join dir name) = Some name.
Proof.
  intros Hp. pose proof (names_of_proper name Hp) as Hn.
  unfold file_name. rewrite components_join_names, Hn by
    (try (by destruct Hp); rewrite Hn; by constructor). cbn [fmap list_fmap]. by rewrite last_snoc.
Qed.

Lemma touches_promote_at (P C : list string → Prop) uuid staging_dir service_root hash :
  proper hash → (∀ x, under (key staging_dir) x → P x) →
  (∀ x, under (key service_root ++ [hash]) x → P x) →
  (∀ x, under (key service_root ++ [backup_name hash uuid]) x → P x) →
  touches P C (promote_staging_release io uuid staging_dir (path_join service_root hash)).
Proof.
  intros Hh Hs Hr Hb. unfold promote_staging_release. cbv zeta. rewrite file_name_join by done.
  cbn [default from_option id]. change (hash +:+ ".swap-backup-" +:+ uuid_to_string uuid)%string
    with (backup_name hash uuid).
  rewrite <-(key_join_name service_root hash) in Hr by done.
  rewrite <-(key_with_file_name service_root hash) in Hb by (done || by apply backup_proper).
  touch; (apply touches_rename || apply touches_remove_dir_all); done.
Qed.

Lemma touches_promote (P C : list string → Prop) uuid staging_dir service_root hash :
  proper hash → (∀ x, under (key staging_dir) x → P x) →
  (∀ n x, release_name hash n → under (key service_root ++ [n]) x → P x) →
  touches P C (promote_staging_release io uuid staging_dir (path_join service_root hash)).
Proof.
  intros Hh Hs Hn. apply touches_promote_at; [done|done|intros x; apply Hn; by left|].
  intros x. apply Hn. right. unfold backup_name. rewrite !bytes_of_app. set_solver.
Qed.

Lemma touches_cleanup (P C : list string → Prop) service_root hash prev :
  (∀ n x, prev ≠ Some n → under (key service_root ++ [n]) x → P x) →
  touches P C (cleanup_old_releases io service_root hash prev).
Proof.
  intros HP. unfold cleanup_old_releases. apply touches_bind_known; [touch|].
  intros t t1 names Hnames. unfold lift in Hnames.
  destruct (read_dir io service_root t) as [t2 [ns|]] eqn:E; [|done]. injection Hnames as -> ->.
  apply read_dir_proper in E. rewrite Forall_forall in E. apply touches_for_entries.
  intros n [] Hin. apply touches_bind; [touch|]. intros e.
  destruct (negb _); [apply touches_ret|]. case_bool_decide; [apply touches_ret|].
  case_bool_decide; [apply touches_ret|].
  apply touches_lift, touches_remove_dir_all. rewrite key_join_name by auto. intros x. by apply HP.
Qed.

(** Every directory is removed but the new release and the previous one. *)
Lemma cleanup_step service_root hash prev name t t1 :
  proper name →
  (file_type ← lift (metadata io (path_join service_root name))
                 (λ e, map_internal_orch ("failed to read entry type: " +:+ fs_error_text e));
   if negb (is_dir file_type) then mret tt
   else if bool_decide (name = hash) then mret tt
   else if bool_decide (prev = Some name) then mret tt
   else lift (remove_dir_all io (path_join service_root name))
          (λ e, map_internal_orch ("failed to cleanup old release " +:+ path_join service_root name
                  +:+ ": " +:+ fs_error_text e))) t = (t1, Ok tt) →
  let k := key service_root ++ [name] in
  (t1 = t ∨ t1 = prune k t) ∧
  (t !! k = Some Directory → name ≠ hash → prev ≠ Some name → t1 = prune k t).
Proof.
  intros Hn E k. apply fsm_bind_inv in E as (t0 & e & Hm%lift_inv & E).
  unfold metadata, guarded in Hm. destruct (io_fault io OpMeta _); [done|]. injection Hm as <- Hm.
  rewrite key_join_name in Hm by done. fold k in Hm.
  destruct e as [c|]; [injection E as <-; split; [by left|]; intros Hd; by rewrite Hd in Hm|].
  cbn [is_dir negb] in E. repeat (case_bool_decide; [injection E as <-; split; [by left|done]|]).
  apply lift_inv in E. unfold remove_dir_all, remove_dir_all_key, guarded in E.
  rewrite key_join_name in E by done. fold k in E. destruct (io_fault io OpRemoveDir k); [done|].
  destruct (t !! k) as [[]|]; try done. injection E as <-. by split; [right|].
Qed.

Lemma cleanup_removes service_root hash prev t t' n x :
  cleanup_old_releases io service_root hash prev t = (t', Ok tt) →
  proper n → t !! (key service_root ++ [n]) = Some Directory → n ≠ hash → prev ≠ Some n →
  under (key service_root ++ [n]) x → t' !! x = None.
Proof.
  intros E Hn Ht Hh Hp Hx. apply fsm_bind_inv in E as (t0 & names & Hr%lift_inv & E).
  pose proof (read_dir_proper _ _ _ _ _ Hr) as Hnames.
  assert (t0 = t ∧ n ∈ names) as [-> Hin].
  { unfold read_dir, guarded in Hr. destruct (io_fault io OpList _); [done|].
    destruct (t !! key service_root) as [[]|]; try done. injection Hr as <- <-. split; [done|].
    apply list_elem_of_omap. exists (key service_root ++ [n], Directory).
    split; [by apply elem_of_map_to_list|]. unfold child_of.
    rewrite (proj2 (strip_root_Some _ _ [n])) by done. by rewrite decide_True. }
  assert (t !! x = None ∨ t !! (key service_root ++ [n]) = Some Directory ∧ n ∈ names) as Hor by by right.
  clear Ht Hin Hr. revert t Hor E. induction Hnames as [|m names Hm _ IH]; intros t Hor E; cbn in E.
  { destruct (io_fault _ _ _); [done|]. injection E as <-.
    destruct Hor as [?|[_ []%not_elem_of_nil]]. done. }
  destruct (io_fault _ _ _); [done|]. apply fsm_bind_inv in E as (t1 & [] & Hb & E).
  apply cleanup_step in Hb as [Hb Hrm]; [|done]. cbv zeta in Hb, Hrm. eapply IH; [|exact E].
  assert (t !! x = None → t1 !! x = None) as Hnone.
  { destruct Hb as [->| ->]; [done|]. rewrite lookup_prune. by destruct (underb _ x). }
  destruct Hor as [?|[Hd Hin]]; [by left; auto|]. destruct (decide (m = n)) as [->|Hne].
  { left. rewrite Hrm, lookup_prune by done. by rewrite (proj2 (underb_true _ _) Hx). }
  right. apply elem_of_cons in Hin as [?|Hin]; [done|]. split; [|done].
  destruct Hb as [->| ->]; [done|]. rewrite lookup_prune.
  destruct (underb _ _) eqn:Eu; [|done]. apply underb_true in Eu. solve_under.
Qed.

(** A file of the service survives: only directories are removed. *)
Lemma cleanup_stays service_root hash prev f :
  stays (key service_root ++ [f]) (cleanup_old_releases io service_root hash prev).
Proof.
  unfold cleanup_old_releases. intros t Ht. unfold mbind, fsm_bind, lift.
  destruct (read_dir io service_root t) as [t1 r] eqn:E.
  assert (t1 = t) as -> by (revert E; unfold read_dir, guarded; repeat case_match; by intros [= <- _]).
  destruct r as [names|e]; [|done]. simpl.
  apply read_dir_proper in E. rewrite Forall_forall in E. revert t Ht.
  apply stays_for_entries. intros name [] Hin t Ht. specialize (E name Hin).
  unfold mbind, fsm_bind, lift, metadata, guarded. rewrite key_join_name by done.
  destruct (io_fault io OpMeta _); [done|]. simpl.
  destruct (t !! (key service_root ++ [name])) as [e|] eqn:Ee; [|done]. simpl.
  destruct e as [c|]; [done|]. simpl. repeat (case_bool_decide; [done|]).
  unfold remove_dir_all, remove_dir_all_key, guarded. rewrite key_join_name by done.
  destruct (io_fault io OpRemoveDir _); [done|]. rewrite Ee. simpl. rewrite lookup_prune.
  destruct (underb _ _) eqn:Eu; [|done]. apply underb_true in Eu. solve_under.
Qed.

(** ** The files that say which release is active *)

Definition text_at (x : list string) (t : tree) : option string :=
  match t !! x with Some (File c) => Some (trim (string_of_bytes c)) | _ => None end.
Definition active_key (name : string) : list string := service_key name ++ ["active_release"].
Definition policy_key (name : string) : list string := service_key name ++ ["restart_policy"].
(** The release a service is on, and its restart policy, as the daemon reads them. *)
Definition active_of (name : string) : tree → option string := text_at (active_key name).
Definition policy_of (name : string) : tree → option string := text_at (policy_key name).

Lemma key_active name :
  proper name → key (path_join (service_root_of storage_root name) "active_release") = active_key name.
Proof.
  intros Hn. unfold active_key. by rewrite key_join_name, key_service by (done || by apply literal_proper).
Qed.
Lemma key_policy name :
  proper name →
  key (path_join (service_root_of storage_root name) RESTART_POLICY_FILE_NAME) = policy_key name.
Proof.
  intros Hn. unfold policy_key. by rewrite key_join_name, key_service by (done || by apply literal_proper).
Qed.

Lemma read_to_string_inv path t :
  ∃ r, read_to_string io path t = (t, r) ∧
    (∀ s, r = Ok s → t !! key path = Some (File (bytes_of s))) ∧
    (r = Err NotFoundError → t !! key path = None).
Proof.
  unfold read_to_string. unfold read, guarded. destruct (io_fault io OpRead (key path)); [by eexists|].
  destruct (t !! key path) as [[c|]|] eqn:E; [|by eexists..]. eexists. split; [done|].
  destruct (is_utf8 c); split; try done. intros s [= <-]. by rewrite bytes_of_string_of_bytes.
Qed.

Lemma read_active_inv path t t' r :
  read_active_release io path t = (t', Ok r) →
  t' = t ∧ t !! key path ≠ Some Directory ∧ r = text_at (key path) t.
Proof.
  unfold read_active_release, mbind, fsm_bind, attempt.
  destruct (read_to_string_inv path t) as (res & -> & Hok & Hnf).
  unfold text_at. destruct res as [s|[| |m]]; [| |done..]; intros [= <- <-].
  - rewrite (Hok s eq_refl). by rewrite string_of_bytes_of.
  - by rewrite (Hnf eq_refl).
Qed.

Lemma read_policy_inv path t t' r :
  read_restart_policy io path t = (t', Ok r) → t' = t ∧ t !! key path ≠ Some Directory.
Proof.
  unfold read_restart_policy, mbind, fsm_bind, attempt.
  destruct (read_to_string_inv path t) as (res & -> & Hok & Hnf).
  destruct res as [s|[| |m]]; [| |done..].
  - rewrite (Hok s eq_refl). simpl. case_match; [done|]. by intros [= <- _].
  - rewrite (Hnf eq_refl). by intros [= <- _].
Qed.

(** ** Preparing a release *)

Definition staged_ok (id : string) (staged : StagedRelease) : Prop :=
  proper (sg_service_name staged) ∧ key (sg_staging_dir staged) = staging_key id ∧
  m_name (sg_manifest staged) = sg_service_name staged.

Lemma hash_proper digest : proper (release_id_from_artifact_digest digest).
Proof. destruct (sha256_hex_digits (bytes_of digest)). by apply hex_proper. Qed.

Lemma hash_not_dotted digest n :
  release_name (release_id_from_artifact_digest digest) n → n ≠ "active_release" ∧ n ≠ "restart_policy".
Proof.
  intros [->|Hdot]; [|split; intros ->; revert Hdot; apply (bool_decide_unpack _); vm_compute; exact I].
  destruct (sha256_hex_digits (bytes_of digest)) as [Hh _]. unfold release_id_from_artifact_digest.
  split; intros E; rewrite E in Hh; discriminate.
Qed.

(** The places a deployment may change: the staging directory, the plugin cache, and in the
    service's directory everything but the previous release. *)
Definition own_name (hash : string) (prev : option string) (n : string) : Prop :=
  release_name hash n ∨ n = "active_release" ∨ n = "restart_policy" ∨ prev ≠ Some n.
Definition deploy_places (id name hash : string) (prev : option string) (x : list string) : Prop :=
  under (staging_key id) x ∨ under plugins_key x ∨
  ∃ n, own_name hash prev n ∧ under (service_key name ++ [n]) x.
(** The directories it may create on the way to them. *)
Definition deploy_parents (id name : string) (x : list string) : Prop :=
  under x (staging_key id) ∨ under x (service_key name) ∨ under x plugins_key.

Lemma touches_read_active P C path : touches P C (read_active_release io path).
Proof. unfold read_active_release. touch. Qed.
Lemma touches_read_policy P C path : touches P C (read_restart_policy io path).
Proof. unfold read_restart_policy. touch. Qed.

Section prepare.
Context (uuid : N) (payload : DeployCommandPayload) (staged : StagedRelease) (id : string).
Hypothesis staged_is_ok : staged_ok id staged.
Let name := sg_service_name staged.

Lemma prepare_changed t :
  changed_within
    (deploy_places id name (release_id_from_artifact_digest (sg_artifact_digest staged)) (active_of name t))
    (deploy_parents id name) t
    (prepare_release_from_staged_inner io storage_root uuid payload staged t).1.
Proof.
  destruct staged_is_ok as (Hn & Hst & _). unfold prepare_release_from_staged_inner. cbv zeta.
  unfold mbind at 1, fsm_bind at 1. unfold active_of.
  destruct (read_active_release io _ t) as [t1 [prev|e]] eqn:Er.
  2:{ pose proof (touches_read_active nothing nothing
        (path_join (service_root_of storage_root (sg_service_name staged)) "active_release") t) as Hc.
      rewrite Er in Hc. intros x. destruct (Hc x) as [[]|[?|[[] _]]]. by right; left. }
  apply read_active_inv in Er as (-> & _ & ->). rewrite key_active by done. unfold name. revert t.
  intros t0. generalize (text_at (active_key (sg_service_name staged)) t0). intros prev. fold name.
  revert t0. match goal with |- ∀ t0, changed_within ?P ?C t0 (?m t0).1 => change (touches P C m) end.
  touch.
  - apply touches_read_policy.
  - apply touches_create_dir_all. rewrite key_service by done. intros x Hx. by right; left.
  - apply touches_promote; [apply hash_proper|..].
    + rewrite Hst. intros x Hx. by left.
    + rewrite key_service by done. intros n x Hr Hx. right; right. exists n. split; [by left|done].
  - apply touches_cleanup. rewrite key_service by done. intros n x Hne Hx. right; right.
    exists n. split; [by right; right; right|done].
  - apply touches_build_launch; intros x Hx; [by right; left|by right; right].
Qed.

Lemma prepare_stays f :
  f = "active_release" ∨ f = "restart_policy" →
  stays (service_key name ++ [f])
    (prepare_release_from_staged_inner io storage_root uuid payload staged).
Proof.
  intros Hf. destruct staged_is_ok as (Hn & Hst & _).
  unfold prepare_release_from_staged_inner. cbv zeta.
  repeat match goal with
  | |- ∀ _, _ => intro
  | |- stays _ (_ ≫= _) => apply stays_bind
  end.
  - eapply touches_stays; [apply (touches_read_active nothing nothing)|by intros []..].
  - eapply touches_stays; [apply (touches_read_policy nothing nothing)|by intros []..].
  - by intros t.
  - apply (touches_stays nothing (λ x, under x (key (service_root_of storage_root name))));
      [by apply touches_lift, touches_create_dir_all|by intros []|].
    unfold name. rewrite key_service by done. unfold service_key. rewrite <-app_assoc. intros Hu. solve_under.
  - eapply touches_stays; [apply (touches_promote (λ x, under (staging_key id) x ∨
      ∃ n, release_name (release_id_from_artifact_digest (sg_artifact_digest staged)) n
           ∧ under (service_key name ++ [n]) x) nothing)|..].
    + apply hash_proper.
    + rewrite Hst. by left.
    + rewrite key_service by done. intros n x Hr Hx. right. eauto.
    + unfold staging_key, service_key. rewrite <-app_assoc.
      intros [Hu|(n & Hr & Hu)]; [solve_under|]. rewrite <-app_assoc in Hu. solve_under.
      apply hash_not_dotted in Hr as [? ?]. naive_solver.
    + by intros [].
  - unfold name. rewrite <-key_service by done. apply cleanup_stays.
  - apply (touches_stays (under plugins_key) (λ x, under x plugins_key));
      [by apply touches_build_launch|..];
      unfold plugins_key, service_key; rewrite <-app_assoc; intros Hu; solve_under.
  - by intros t.
Qed.

Lemma prepare_active t :
  active_of name (prepare_release_from_staged_inner io storage_root uuid payload staged t).1
  = active_of name t.
Proof.
  unfold active_of, text_at.
  destruct (decide (t !! active_key name = Some Directory)) as [E|E].
  - destruct staged_is_ok as (Hn & _ & _). unfold prepare_release_from_staged_inner. cbv zeta.
    unfold mbind at 1, fsm_bind at 1.
    destruct (read_active_release io _ t) as [t1 [r|e]] eqn:Er.
    + apply read_active_inv in Er as (_ & Hd & _). by rewrite key_active in Hd.
    + simpl. destruct (touches_read_active nothing nothing
        (path_join (service_root_of storage_root (sg_service_name staged)) "active_release") t
        (active_key name)) as [[]|[Hk|[[] _]]]. rewrite Er in Hk. simpl in Hk. by rewrite Hk.
  - unfold active_key. rewrite prepare_stays by (done || by left). done.
Qed.

(** The service's directory is there once it has been created. *)
Lemma service_dir_kept t :
  t !! service_key name = Some Directory →
  (promote_staging_release io uuid (sg_staging_dir staged) (path_join
     (service_root_of storage_root name)
     (release_id_from_artifact_digest (sg_artifact_digest staged))) t).1 !! service_key name
   = Some Directory ∧
  (∀ hash prev, (cleanup_old_releases io (service_root_of storage_root name) hash prev t).1
                !! service_key name = Some Directory) ∧
  (∀ hash dir m, (build_launch_from_release io storage_root hash dir m t).1 !! service_key name
                 = Some Directory).
Proof.
  intros Ht. destruct staged_is_ok as (Hn & Hst & _).
  assert (∀ n, ¬ under (service_key name ++ [n]) (service_key name)) as Hself.
  { intros n [l Hl]. rewrite <-app_assoc in Hl. apply (f_equal length) in Hl.
    rewrite length_app in Hl. simpl in Hl. lia. }
  split_and!; intros.
  - apply (touches_directory (λ x, under (staging_key id) x ∨ ∃ n, under (service_key name ++ [n]) x)
             nothing); [|unfold staging_key|done].
    + apply touches_promote; [apply hash_proper|by rewrite Hst; left|].
      unfold name. rewrite key_service by done. intros n x _ Hx. right. by exists n.
    + intros [Hu|[n Hu]]; [unfold service_key in Hu; solve_under|by apply Hself in Hu].
  - apply (touches_directory (λ x, ∃ n, under (service_key name ++ [n]) x) nothing);
      [|by intros [n ?%Hself]|done].
    apply touches_cleanup. unfold name. rewrite key_service by done. intros n x _ Hx. by exists n.
  - apply (touches_directory (under plugins_key) (λ x, under x plugins_key));
      [by apply touches_build_launch| |done].
    unfold plugins_key, service_key. intros Hu. solve_under.
Qed.

Lemma prepare_Ok t t' pr :
  prepare_release_from_staged_inner io storage_root uuid payload staged t = (t', Ok pr) →
  pr_service_name pr = name ∧
  pr_service_root pr = service_root_of storage_root name ∧
  pr_release_hash pr = release_id_from_artifact_digest (sg_artifact_digest staged) ∧
  key (pr_active_file pr) = active_key name ∧ key (pr_restart_policy_file pr) = policy_key name ∧
  pr_previous_release pr = active_of name t ∧
  is_supported_restart_policy (dc_restart_policy payload) = true ∧
  t' !! service_key name = Some Directory ∧
  t' !! active_key name ≠ Some Directory ∧ t' !! policy_key name ≠ Some Directory ∧
  active_of name t' = active_of name t ∧
  sl_name (pr_launch pr) = name ∧ sl_release_hash (pr_launch pr) = pr_release_hash pr.
Proof.
  intros H. pose proof (prepare_active t) as Ha. rewrite H in Ha. simpl in Ha.
  pose proof (prepare_stays _ (or_introl eq_refl) t) as Hact.
  pose proof (prepare_stays _ (or_intror eq_refl) t) as Hpol. rewrite H in Hact, Hpol. simpl in *.
  destruct staged_is_ok as (Hn & Hst & Hm). unfold prepare_release_from_staged_inner in H. cbv zeta in H.
  inv_fsm.
  repeat match goal with
  | Hr : read_active_release _ _ _ = (_, Ok _) |- _ => apply read_active_inv in Hr as (? & ? & ?); subst
  | Hr : read_restart_policy _ _ _ = (_, Ok _) |- _ => apply read_policy_inv in Hr as (? & ?); subst
  | Hr : lift (create_dir_all _ _) _ _ = (_, Ok _) |- _ => apply lift_inv, create_dir_all_directory in Hr
  | Hk : context [key (path_join _ "active_release")] |- _ => rewrite key_active in Hk by done
  | Hk : context [key (path_join _ RESTART_POLICY_FILE_NAME)] |- _ => rewrite key_policy in Hk by done
  | Hk : context [key (service_root_of _ _)] |- _ => rewrite key_service in Hk by done
  end.
  2:{ rewrite key_service by done. unfold service_key. by destruct (key storage_root). }
  cbn. rewrite key_active, key_policy by done.
  specialize (Hact ltac:(done)). specialize (Hpol ltac:(done)).
  match goal with Hb : build_launch_from_release _ _ _ _ _ _ = _ |- _ =>
    pose proof Hb as Hbuilt; apply launch_parts in Hb as (Hsl & Hsh & _) end.
  split_and!; try done.
  - match goal with Hv : validate_deploy_preconditions _ _ = Ok _ |- _ => revert Hv end.
    unfold validate_deploy_preconditions. by destruct (is_supported_restart_policy _).
  - match goal with
    | Hd : ?t1 !! service_key _ = _, Hp : promote_staging_release _ _ _ _ ?t1 = _,
      Hc : cleanup_old_releases _ _ ?h ?p _ = _ |- _ =>
      destruct (service_dir_kept _ Hd) as (Hd1 & _ & _); unfold name in Hd1; rewrite Hp in Hd1; simpl in Hd1;
      destruct (service_dir_kept _ Hd1) as (_ & Hd2 & _); unfold name in Hd2;
      specialize (Hd2 h p); rewrite Hc in Hd2; simpl in Hd2
    end.
    destruct (service_dir_kept _ Hd2) as (_ & _ & Hd3).
    match type of Hbuilt with build_launch_from_release _ _ ?h ?d ?m _ = _ =>
      specialize (Hd3 h d m) end. by rewrite Hbuilt in Hd3.
  - by unfold active_key, name in *; rewrite Hact.
  - by unfold policy_key, name in *; rewrite Hpol.
  - by rewrite Hsl.
Qed.

End prepare.

(** ** Staged releases *)

(** A checked service name is a name a directory can have, but for the one that stands for the
    directory it is in. *)
Lemma service_name_proper name u : validate_service_name name = Ok u → name ≠ "." → proper name.
Proof.
  unfold validate_service_name. case_bool_decide as Hne; [done|].
  destruct (str_contains "/" name) eqn:Hs; [done|]. simpl.
  destruct (str_contains "\" name); [done|]. simpl.
  destruct (str_contains ".." name) eqn:Hd; [done|]. intros _ Hdot. split_and!; [done|done|by intros ->|].
  by rewrite <-str_contains_char, Hs.
Qed.

Lemma stage_Ok committed bundle t t' staged :
  proper (ca_deploy_id committed) →
  stage_committed_release io storage_root committed bundle t = (t', Ok staged) →
  (sg_service_name staged ≠ "." → staged_ok (ca_deploy_id committed) staged) ∧
  key (sg_staging_dir staged) = staging_key (ca_deploy_id committed).
Proof.
  intros Hid Hs. unfold stage_committed_release in Hs. cbv zeta in Hs. inv_fsm.
  match goal with Hp : parse_manifest _ = Ok _ |- _ => unfold parse_manifest in Hp end. inv_ok.
  unfold validate_manifest_metadata in *. inv_ok.
  split; [|by apply key_staging]. intros Hdot. split_and!; [|by apply key_staging|done].
  by eapply service_name_proper.
Qed.

End touches.

(** ** Commands *)

Section commands.
Context {J : Json} {MC : ManifestCrates} {CR : Crates} {CL : CratesLaws} {TR : Tar} {TL : TarLaws}.
Context {Src Sup : Type} {SRC : ArtifactSource Src} {SL : ArtifactSourceLaws Src} {SUP : SupervisorOps Sup}.
Context (io : FsIo) (storage_root : string).
Hypothesis sha256_hex_digits : ∀ b, all_chars is_ascii_hexdigit (sha256_hex b) = true ∧ sha256_hex b ≠ "".
#[local] Existing Instance cmd_bind.
#[local] Existing Instance cmd_ret.

Abbreviation world := (World Src Sup).

(** A command changes the tree within bounds and holds the gate for the same services as before. *)
Definition world_within (P C : list string → Prop) (w w' : world) : Prop :=
  changed_within P C (wd_tree w) (wd_tree w') ∧ wd_inflight w' = wd_inflight w.
Definition within {A} (P C : list string → Prop) (m : world → world * A) : Prop :=
  ∀ w, world_within P C w (m w).1.

Lemma world_within_trans P C w1 w2 w3 :
  world_within P C w1 w2 → world_within P C w2 w3 → world_within P C w1 w3.
Proof. intros [? E] [? E']. split; [by eapply changed_trans|by rewrite E', E]. Qed.

Lemma within_on_tree {A} P C (m : fsm A) : touches P C m → within P C (on_tree m).
Proof. intros Hm w. unfold on_tree. specialize (Hm (wd_tree w)). by destruct (m _). Qed.

Lemma within_on_sup {A} P C (f : Sup → Sup * A) : within P C (on_sup f).
Proof. intros w. unfold on_sup. destruct (f _). split; [apply changed_refl|done]. Qed.

Lemma within_ret {A} P C (a : A) : within P C (mret a : cmd A).
Proof. intros w. split; [apply changed_refl|done]. Qed.

Lemma within_bind {A B} P C (m : cmd A) (f : A → cmd B) :
  within P C m → (∀ a, within P C (f a)) → within P C (m ≫= f).
Proof.
  intros Hm Hf w. unfold mbind, cmd_bind. specialize (Hm w).
  destruct (m w) as [w1 [a|e]]; [|done]. eapply world_within_trans; [exact Hm|apply Hf].
Qed.

Lemma within_cmd_err {A} P C f (m : cmd A) : within P C m → within P C (cmd_err f m).
Proof. intros Hm w. unfold cmd_err. specialize (Hm w). by destruct (m w). Qed.

Lemma within_recovery P C (start stop : cmd unit) :
  within P C start → within P C stop →
  within P C (start_previous_release_with_busy_recovery start stop).
Proof.
  intros Hstart Hstop w. unfold start_previous_release_with_busy_recovery. cbv zeta.
  pose proof (Hstart w) as H1. destruct (start w) as [w1 [u|e]]; [done|].
  case_bool_decide; [|done]. pose proof (Hstop w1) as H2. destruct (stop w1) as [w2 r]. simpl in *.
  assert (world_within P C w (let '(w3, r) := start w2 in
    (w3, match r with Ok _ => Ok RecoveredByForceStop | Err e => Err (map_rollback_error e) end)).1).
  { eapply world_within_trans; [exact H1|]. eapply world_within_trans; [exact H2|].
    pose proof (Hstart w2). by destruct (start w2). }
  destruct r as [?|e2]; [done|]. case_bool_decide; [done|].
  eapply world_within_trans; [exact H1|exact H2].
Qed.

Lemma touches_restore_policy (P C : list string → Prop) path policy :
  P (key path) → touches P C (restore_restart_policy io path policy).
Proof.
  intros HP. unfold restore_restart_policy, write_restart_policy. destruct policy; touch.
  - by apply touches_write.
  - by apply touches_remove_file.
Qed.

Lemma within_rollback (P C : list string → Prop) prepared :
  P (key (pr_active_file prepared)) → P (key (pr_restart_policy_file prepared)) →
  (∀ x, under (plugins_key storage_root) x → P x) → (∀ x, under x (plugins_key storage_root) → C x) →
  within P C (rollback_previous_release io storage_root prepared).
Proof.
  intros Ha Hr HP HC. unfold rollback_previous_release. destruct (pr_previous_release prepared);
    [|apply within_ret].
  apply within_bind; [by apply within_on_tree, touches_lift, touches_write|intros _].
  apply within_bind; [by apply within_cmd_err, within_on_tree, touches_restore_policy|intros _].
  apply within_bind; [by apply within_cmd_err, within_on_tree, touches_load_launch|intros l].
  apply within_recovery; apply within_on_sup.
Qed.

Lemma within_activate_prepared (P C : list string → Prop) payload prepared :
  P (key (pr_active_file prepared)) → P (key (pr_restart_policy_file prepared)) →
  (∀ x, under (plugins_key storage_root) x → P x) → (∀ x, under x (plugins_key storage_root) → C x) →
  within P C (activate_prepared io storage_root payload prepared).
Proof.
  intros Ha Hr HP HC w. unfold activate_prepared.
  pose proof (within_on_sup P C (sup_replace (pr_launch prepared)) w) as H1.
  destruct (on_sup _ w) as [w1 [u|e]].
  - eapply world_within_trans; [exact H1|]. simpl.
    apply within_bind; [by apply within_on_tree, touches_lift, touches_write|intros _].
    apply within_bind; [|intros; apply within_ret].
    apply within_on_tree. unfold write_restart_policy. touch. by apply touches_write.
  - destruct (dc_auto_rollback payload); [|done].
    pose proof (within_rollback P C prepared Ha Hr HP HC w1) as H2.
    destruct (rollback_previous_release _ _ _ _) as [w2 [o|e2]];
      (eapply world_within_trans; [exact H1|exact H2]).
Qed.

Lemma activate_within id uuid payload staged w :
  staged_ok storage_root id staged →
  world_within
    (deploy_places storage_root id (sg_service_name staged)
       (release_id_from_artifact_digest (sg_artifact_digest staged))
       (active_of storage_root (sg_service_name staged) (wd_tree w)))
    (deploy_parents storage_root id (sg_service_name staged)) w
    (activate io storage_root uuid payload staged w).1.
Proof.
  intros Hst. unfold activate, mbind, cmd_bind, on_tree.
  pose proof (prepare_changed io storage_root sha256_hex_digits uuid payload staged id Hst (wd_tree w)) as H1.
  destruct (prepare_release_from_staged_inner _ _ _ _ _ _) as [t1 [pr|e]] eqn:Ep; [|by split].
  apply (world_within_trans _ _ w (mkWorld t1 (wd_inflight w) (wd_source w) (wd_sup w))); [by split|].
  apply (prepare_Ok io storage_root sha256_hex_digits uuid payload staged id Hst) in Ep
    as (_ & _ & _ & Ha & Hp & _).
  apply within_activate_prepared; rewrite ?Ha, ?Hp; unfold deploy_places, deploy_parents, own_name.
  - right; right. eexists. split; [by right; left|apply under_refl].
  - right; right. eexists. split; [by right; right; left|apply under_refl].
  - by right; left.
  - by right; right.
Qed.

(** *** The ways a deployment can go *)

(** The service that the manifest in the archive of this deployment names: what [deploy] stages. *)
Definition declared_service (payload : DeployCommandPayload) (now1 now2 : Z) (w : world) : option string :=
  let w := set_source (src_pin (dc_deploy_id payload) (wd_source w)) w in
  match on_source (src_service_name_for_deploy (dc_deploy_id payload) now1) w with
  | (w, Ok service_name) =>
    match acquire service_name (wd_inflight w) with
    | Ok g =>
      match prepare_release_staging io storage_root payload now2 (set_inflight g w) with
      | (_, Ok staged) => Some (sg_service_name staged)
      | (_, Err _) => None
      end
    | Err _ => None
    end
  | (_, Err _) => None
  end.

Inductive deploy_run (payload : DeployCommandPayload) (uuid : N) (declared : option string) (t : tree)
    : tree → Sup → iresult DeploySummary → Prop :=
  | not_staged sup e : deploy_run payload uuid declared t t sup (Err e)
  | not_activated id committed bundle t1 sup r e :
      proper id → ca_deploy_id committed = id →
      stage_committed_release io storage_root committed bundle t = (t1, r) →
      deploy_run payload uuid declared t t1 sup (Err e)
  | activated id committed bundle t1 staged (w1 w2 : world) r :
      proper id → ca_deploy_id committed = id →
      stage_committed_release io storage_root committed bundle t = (t1, Ok staged) →
      declared = Some (sg_service_name staged) →
      wd_tree w1 = t1 → activate io storage_root uuid payload staged w1 = (w2, r) →
      deploy_run payload uuid declared t (wd_tree w2) (wd_sup w2) r.

(** Activating a release leaves the command gate alone. *)
Lemma activate_gate uuid payload staged (w w' : world) r :
  activate io storage_root uuid payload staged w = (w', r) → wd_inflight w' = wd_inflight w.
Proof.
  intros Ha. assert (within (λ _, True) (λ _, True) (activate io storage_root uuid payload staged)) as Hw.
  { apply within_bind; [apply within_on_tree; intros t x; by left|intros pr].
    by apply within_activate_prepared. }
  destruct (Hw w) as [_ Hg]. by rewrite Ha in Hg.
Qed.

Lemma gate_drop (name : string) (g : gset string) : name ∉ g → drop_guard name ({[name]} ∪ g) = g.
Proof. intros Hn. unfold drop_guard. set_solver. Qed.

Lemma acquire_Ok name g g' : acquire name g = Ok g' → name ∉ g ∧ g' = {[name]} ∪ g.
Proof. unfold acquire. case_bool_decide; [done|]. by intros [= <-]. Qed.

Lemma deploy_inv payload now1 now2 uuid w w' r :
  src_ok (wd_source w) →
  deploy io storage_root payload now1 now2 uuid w = (w', r) →
  deploy_run payload uuid (declared_service payload now1 now2 w) (wd_tree w) (wd_tree w') (wd_sup w') r ∧ wd_inflight w' = wd_inflight w.
Proof.
  intros Hsrc. unfold deploy. cbv zeta.
  pose proof (src_pin_ok (dc_deploy_id payload) _ Hsrc) as Hs0.
  unfold on_source at 1. cbn [set_source wd_source wd_tree wd_inflight wd_sup].
  destruct (src_service_name_for_deploy _ _ _) as [n1 [name|e]] eqn:E1.
  2:{ intros [= <- <-]. split; [constructor|done]. }
  apply (src_service_name_ok _ _ _ _ _ Hs0) in E1 as Hs1. cbn [wd_inflight].
  destruct (acquire name (wd_inflight w)) as [g|e] eqn:Eg.
  2:{ intros [= <- <-]. split; [constructor|done]. }
  pose proof Eg as Eg1. apply acquire_Ok in Eg as [Hg ->].
  unfold prepare_release_staging, on_source. cbn [set_inflight wd_source wd_tree wd_inflight wd_sup].
  destruct (src_committed_artifact _ _ _) as [n2 [ca|e]] eqn:E2.
  2:{ intros [= <- <-]. split; [constructor|by apply gate_drop]. }
  apply (src_committed_proper _ _ _ _ _ Hs1) in E2 as Hid. unfold on_tree. cbn [wd_tree wd_source wd_inflight wd_sup].
  destruct (stage_committed_release _ _ _ _ _) as [t1 [staged|e]] eqn:E3.
  2:{ intros [= <- <-]. split; [by eapply not_activated; [exact Hid|..]|by apply gate_drop]. }
  assert (declared_service payload now1 now2 w = Some (sg_service_name staged)) as Hdec.
  { unfold declared_service, prepare_release_staging, on_source. cbn. rewrite E1. cbn. rewrite Eg1. cbn.
    rewrite E2. unfold on_tree. cbn. by rewrite E3. }
  unfold rebind_deploy_service_command_guard. cbn [set_source wd_inflight wd_tree wd_source wd_sup].
  case_bool_decide as Hsame.
  - destruct (activate _ _ _ _ _ _) as [w2 r2] eqn:E4. intros [= <- <-]. cbn [set_inflight wd_tree wd_inflight wd_sup].
    split; [eapply activated; [exact Hid|done|exact E3|done| |exact E4]; done|].
    apply activate_gate in E4. simpl in E4. rewrite E4. by apply gate_drop.
  - destruct (acquire (sg_service_name staged) _) as [g|e] eqn:Eg; cbn.
    2:{ intros [= <- <-]. split; [by eapply not_activated; [exact Hid|..]|by apply gate_drop]. }
    apply acquire_Ok in Eg as [Hg2 ->].
    destruct (activate _ _ _ _ _ _) as [w2 r2] eqn:E4. intros [= <- <-]. cbn [set_inflight wd_tree wd_inflight wd_sup].
    split; [eapply activated; [exact Hid|done|exact E3|done| |exact E4]; done|].
    apply activate_gate in E4. simpl in E4. rewrite E4. unfold drop_guard. set_solver.
Qed.

(** *** What a deployment leaves as the active release *)

Lemma supported_policy_trim p : is_supported_restart_policy p = true → trim p = p.
Proof.
  unfold is_supported_restart_policy. rewrite bool_decide_eq_true, !elem_of_cons.
  intros [->|[->|[->|[->|Hp]]]]; [vm_compute; reflexivity..|by apply not_elem_of_nil in Hp].
Qed.

Lemma hash_trim digest :
  trim (release_id_from_artifact_digest digest) = release_id_from_artifact_digest digest.
Proof.
  apply trim_id, graphic_no_whitespace. destruct (sha256_hex_digits (bytes_of digest)) as [Hh _].
  unfold all_chars, release_id_from_artifact_digest in *. rewrite forallb_forall in *.
  intros c Hc%Hh. revert Hc. by destruct c as [[] [] [] [] [] [] [] []].
Qed.

Lemma text_at_insert (x : list string) (s : string) (t : tree) :
  text_at x (<[x := File (bytes_of s)]> t) = Some (trim s).
Proof. unfold text_at. by rewrite lookup_insert_eq, string_of_bytes_of. Qed.

Lemma active_policy_ne name : active_key storage_root name ≠ policy_key storage_root name.
Proof. unfold active_key, policy_key. by intros [= ?%app_inv_head]. Qed.

Lemma on_tree_write path content f (w w' : world) r :
  on_tree (lift (write io path content) f) w = (w', r) →
  (∃ e, r = Err e) ∨
  (r = Ok tt ∧ w' = mkWorld (<[key path := File content]> (wd_tree w)) (wd_inflight w) (wd_source w) (wd_sup w)).
Proof.
  unfold on_tree, lift. destruct (write io path content (wd_tree w)) as [t1 [[]|e]] eqn:E.
  - intros [= <- <-]. right. apply write_Ok_inv in E as ->. done.
  - intros [= <- <-]. left. by eexists.
Qed.

(** A deployment that succeeded prepared its release, had it started and recorded it. *)
Lemma activate_inv uuid payload staged (w w' : world) s :
  activate io storage_root uuid payload staged w = (w', Ok s) →
  ∃ t pr, prepare_release_from_staged_inner io storage_root uuid payload staged (wd_tree w) = (t, Ok pr) ∧
    sup_replace (pr_launch pr) (wd_sup w) = (wd_sup w', Ok tt) ∧
    wd_tree w' = <[key (pr_restart_policy_file pr) := File (bytes_of (dc_restart_policy payload))]>
                   (<[key (pr_active_file pr) := File (bytes_of (pr_release_hash pr))]> t) ∧
    ds_service_name s = pr_service_name pr ∧ ds_release_hash s = pr_release_hash pr.
Proof.
  intros Ha. unfold activate, mbind, cmd_bind in Ha. unfold on_tree at 1 in Ha.
  destruct (prepare_release_from_staged_inner _ _ _ _ _ _) as [t1 [pr|e]] eqn:Ep; [|done].
  exists t1, pr. unfold activate_prepared, on_sup in Ha. cbn [wd_sup wd_tree wd_inflight wd_source] in Ha.
  destruct (sup_replace (pr_launch pr) (wd_sup w)) as [sup [[]|e]] eqn:Er.
  2:{ exfalso. destruct (dc_auto_rollback payload); [|done].
      by destruct (rollback_previous_release _ _ _ _) as [? [?|?]]. }
  unfold mbind, cmd_bind in Ha.
  destruct (on_tree (lift (write io (pr_active_file pr) _) _) _) as [w1 r1] eqn:E1.
  apply on_tree_write in E1 as [[e ->]|[-> ->]]; [done|].
  unfold write_restart_policy in Ha. destruct (is_supported_restart_policy _); [|done]. cbn [negb] in Ha.
  destruct (on_tree (lift (write io (pr_restart_policy_file pr) _) _) _) as [w2 r2] eqn:E2.
  apply on_tree_write in E2 as [[e ->]|[-> ->]]; [done|]. by injection Ha as <- <-.
Qed.

Lemma activate_Ok id uuid payload staged (w w' : world) s :
  staged_ok storage_root id staged →
  activate io storage_root uuid payload staged w = (w', Ok s) →
  let name := sg_service_name staged in
  let hash := release_id_from_artifact_digest (sg_artifact_digest staged) in
  ds_service_name s = name ∧ ds_release_hash s = hash ∧
  active_of storage_root name (wd_tree w') = Some hash ∧
  policy_of storage_root name (wd_tree w') = Some (dc_restart_policy payload) ∧
  ∃ launch sup, sl_name launch = name ∧ sl_release_hash launch = hash ∧
    sup_replace launch sup = (wd_sup w', Ok tt).
Proof.
  intros Hst Ha. cbv zeta. destruct (activate_inv _ _ _ _ _ _ Ha) as (t1 & pr & Ep & Er & -> & -> & ->).
  apply (prepare_Ok io storage_root sha256_hex_digits uuid payload staged id Hst) in Ep
    as (Hname & _ & Hhash & Hka & Hkp & _ & Hsup & _ & _ & _ & _ & Hsl & Hsh).
  rewrite Hka, Hkp, Hhash. unfold active_of, policy_of. split_and!; [done|done| | |].
  - unfold text_at. rewrite lookup_insert_ne by (symmetry; apply active_policy_ne).
    by rewrite lookup_insert_eq, string_of_bytes_of, hash_trim.
  - by rewrite text_at_insert, supported_policy_trim.
  - exists (pr_launch pr), (wd_sup w). by rewrite Hsl, Hsh.
Qed.

Lemma active_of_trimmed name t p : active_of storage_root name t = Some p → trim p = p.
Proof.
  unfold active_of, text_at. repeat case_match; try done. intros [= <-]. apply trim_idemp.
Qed.

(** Once the previous release is written back, nothing more touches the file. *)
Lemma rollback_active prepared name (w : world) :
  key (pr_active_file prepared) = active_key storage_root name →
  key (pr_restart_policy_file prepared) = policy_key storage_root name →
  pr_previous_release prepared = active_of storage_root name (wd_tree w) →
  io_fault io OpWrite (active_key storage_root name) = None →
  wd_tree w !! service_key storage_root name = Some Directory →
  wd_tree w !! active_key storage_root name ≠ Some Directory →
  active_of storage_root name (wd_tree (rollback_previous_release io storage_root prepared w).1)
  = active_of storage_root name (wd_tree w).
Proof.
  intros Hka Hkp Hprev Hf Hdir Hda. unfold rollback_previous_release. rewrite Hprev.
  destruct (active_of storage_root name (wd_tree w)) as [p|] eqn:Ep; [|done].
  unfold mbind at 1, cmd_bind at 1. unfold on_tree at 1, lift at 1.
  rewrite write_Ok; rewrite ?Hka; [|done|done|].
  2:{ unfold active_key. rewrite has_parent_snoc by by unfold service_key; destruct (key storage_root).
      by apply bool_decide_eq_true. }
  simpl. match goal with |- context [mkWorld ?t ?g ?n ?s] => set (w1 := mkWorld t g n s) end.
  match goal with |- active_of _ _ (wd_tree (?m w1).1) = _ =>
    assert (within (λ x, x = policy_key storage_root name ∨ under (plugins_key storage_root) x)
      (λ x, under x (plugins_key storage_root)) m) as Hw end.
  { apply within_bind; [apply within_cmd_err, within_on_tree, touches_restore_policy; by left|intros _].
    apply within_bind; [|intros l; apply within_recovery; apply within_on_sup].
    apply within_cmd_err, within_on_tree, touches_load_launch; [by right|done]. }
  destruct (Hw w1) as [Hc _]. unfold active_of, text_at.
  destruct (Hc (active_key storage_root name)) as [[Heq|Hu]|[->|(Hu & _)]].
  - by apply active_policy_ne in Heq.
  - unfold active_key, service_key, plugins_key in Hu. rewrite <-app_assoc in Hu. solve_under.
  - unfold w1. cbn [wd_tree]. rewrite lookup_insert_eq, string_of_bytes_of.
    f_equal. by eapply active_of_trimmed.
  - unfold active_key, service_key, plugins_key in Hu. rewrite <-app_assoc in Hu. solve_under.
Qed.

(** Recording a release cannot fail when the operating system lets the files be written. *)
Lemma record_never_fails prepared payload name (w w' : world) r :
  key (pr_active_file prepared) = active_key storage_root name →
  key (pr_restart_policy_file prepared) = policy_key storage_root name →
  is_supported_restart_policy (dc_restart_policy payload) = true →
  io_fault io OpWrite (active_key storage_root name) = None →
  io_fault io OpWrite (policy_key storage_root name) = None →
  wd_tree w !! service_key storage_root name = Some Directory →
  wd_tree w !! active_key storage_root name ≠ Some Directory →
  wd_tree w !! policy_key storage_root name ≠ Some Directory →
  (_ ← on_tree (lift (write io (pr_active_file prepared) (bytes_of (pr_release_hash prepared)))
         (λ e, map_internal_orch ("active release update failed: " +:+ fs_error_text e)));
   _ ← on_tree (write_restart_policy io (pr_restart_policy_file prepared) (dc_restart_policy payload));
   mret {| ds_service_name := pr_service_name prepared;
           ds_release_hash := pr_release_hash prepared |} : cmd DeploySummary) w = (w', r) →
  ∃ s, r = Ok s.
Proof.
  intros Hka Hkp Hsup Hfa Hfp Hdir Hda Hdp. unfold mbind, cmd_bind, write_restart_policy.
  rewrite Hsup. cbn [negb]. unfold on_tree, lift.
  assert (service_key storage_root name ≠ []) as Hne by by unfold service_key; destruct (key storage_root).
  rewrite write_Ok; rewrite ?Hka; [|done|done|].
  2:{ unfold active_key. rewrite has_parent_snoc by done. by apply bool_decide_eq_true. }
  cbn [map_err wd_tree wd_inflight wd_source wd_sup].
  rewrite write_Ok; rewrite ?Hkp; [|done|..].
  - intros [= <- <-]. by eexists.
  - by rewrite lookup_insert_ne by apply active_policy_ne.
  - unfold policy_key. rewrite has_parent_snoc by done. apply bool_decide_eq_true.
    rewrite lookup_insert_ne; [done|]. unfold active_key. intros E. apply (f_equal length) in E.
    rewrite length_app in E. simpl in E. lia.
Qed.

Lemma activate_Err id uuid payload staged (w w' : world) e :
  staged_ok storage_root id staged →
  io_fault io OpWrite (active_key storage_root (sg_service_name staged)) = None →
  io_fault io OpWrite (policy_key storage_root (sg_service_name staged)) = None →
  activate io storage_root uuid payload staged w = (w', Err e) →
  active_of storage_root (sg_service_name staged) (wd_tree w')
  = active_of storage_root (sg_service_name staged) (wd_tree w).
Proof.
  intros Hst Hfa Hfp Ha. unfold activate in Ha. unfold mbind at 1, cmd_bind at 1 in Ha.
  unfold on_tree at 1 in Ha.
  pose proof (prepare_active io storage_root sha256_hex_digits uuid payload staged id Hst (wd_tree w)) as Hpa.
  destruct (prepare_release_from_staged_inner _ _ _ _ _ _) as [t1 [pr|e1]] eqn:Ep.
  2:{ injection Ha as <- <-. exact Hpa. }
  apply (prepare_Ok io storage_root sha256_hex_digits uuid payload staged id Hst) in Ep
    as (Hname & _ & Hhash & Hka & Hkp & Hprev & Hsup & Hdir & Hda & Hdp & _).
  simpl in Hpa. rewrite <-Hpa in Hprev. rewrite <-Hpa.
  unfold activate_prepared, on_sup in Ha. cbn [wd_sup wd_tree wd_inflight wd_source] in Ha.
  destruct (sup_replace (pr_launch pr) (wd_sup w)) as [sup [u|e2]].
  - apply (record_never_fails pr payload (sg_service_name staged)) in Ha as [s ?]; done.
  - set (w1 := mkWorld t1 _ _ sup) in Ha.
    pose proof (rollback_active pr (sg_service_name staged) w1 Hka Hkp Hprev Hfa Hdir Hda) as Hroll.
    destruct (dc_auto_rollback payload); [|by injection Ha as <- <-].
    destruct (rollback_previous_release _ _ _ _) as [w2 [o|e3]]; injection Ha as <- <-; exact Hroll.
Qed.

(** *** Where a deployment can reach *)

Lemma stage_changed committed bundle t name hash prev :
  proper (ca_deploy_id committed) →
  changed_within (deploy_places storage_root (ca_deploy_id committed) name hash prev)
    (deploy_parents storage_root (ca_deploy_id committed) name) t
    (stage_committed_release io storage_root committed bundle t).1.
Proof. intros Hid. apply touches_stage; [done|by left|by left]. Qed.

Lemma stage_active committed bundle t name :
  proper (ca_deploy_id committed) →
  active_of storage_root name (stage_committed_release io storage_root committed bundle t).1
  = active_of storage_root name t.
Proof.
  intros Hid. unfold active_of, text_at.
  destruct (touches_stage io storage_root (under (staging_key storage_root (ca_deploy_id committed)))
    (λ x, under x (staging_key storage_root (ca_deploy_id committed))) committed bundle Hid
    (λ x H, H) (λ x H, H) t (active_key storage_root name)) as [Hu|[->|(Hu & _)]]; [|done|];
    unfold staging_key, active_key, service_key in Hu; rewrite <-?app_assoc in Hu; solve_under.
Qed.

Lemma deploy_run_changed payload uuid declared t t' sup r :
  deploy_run payload uuid declared t t' sup r → declared ≠ Some "." →
  let name := default "" declared in
  ∃ id hash, (∀ s, r = Ok s → ds_service_name s = name ∧ ds_release_hash s = hash) ∧
    changed_within (deploy_places storage_root id name hash (active_of storage_root name t))
      (deploy_parents storage_root id name) t t'.
Proof.
  intros Hrun Hdot name.
  destruct Hrun as [sup' e|id ca b t1 sup' r1 e Hid <- E|id ca b t1 staged w1 w2 r2 Hid <- E Hd <- Ea].
  - exists "", "". split; [done|apply changed_refl].
  - exists (ca_deploy_id ca), "". split; [done|].
    pose proof (stage_changed ca b t name "" (active_of storage_root name t) Hid) as Hc. by rewrite E in Hc.
  - subst declared. simpl in name.
    destruct (stage_Ok io storage_root ca _ _ _ _ Hid E) as [Hst _].
    specialize (Hst ltac:(by intros Hn; rewrite Hn in Hdot)).
    exists (ca_deploy_id ca), (release_id_from_artifact_digest (sg_artifact_digest staged)). split.
    + intros s ->. by destruct (activate_Ok _ _ _ _ _ _ _ Hst Ea) as (? & ? & _).
    + pose proof (stage_active ca b t (sg_service_name staged) Hid) as Hact. rewrite E in Hact. simpl in Hact.
      destruct (activate_within _ uuid payload staged w1 Hst) as [Hc _]. rewrite Ea, Hact in Hc.
      eapply changed_trans; [|exact Hc].
      match goal with |- changed_within (deploy_places _ _ ?n ?h ?p) _ _ _ =>
        pose proof (stage_changed ca b t n h p Hid) as Hs end. by rewrite E in Hs.
Qed.

Lemma other_service_kept id name hash prev t t' other x :
  changed_within (deploy_places storage_root id name hash prev) (deploy_parents storage_root id name) t t' →
  other ≠ name → under (service_key storage_root other) x → t' !! x = t !! x.
Proof.
  intros Hc Hne [l ->]. unfold deploy_places, deploy_parents, service_key, staging_key, plugins_key in *.
  rewrite <-app_assoc. specialize (Hc (key storage_root ++ ["services"; other] ++ l)).
  destruct Hc as [[Hu|[Hu|(n & _ & Hu)]]|[?|([Hu|[Hu|Hu]] & _)]]; try done;
    rewrite <-?app_assoc in Hu; solve_under.
Qed.

Lemma previous_release_kept id name hash prev t t' x :
  changed_within (deploy_places storage_root id name hash (Some prev))
    (deploy_parents storage_root id name) t t' →
  all_chars is_ascii_hexdigit prev = true → prev ≠ hash →
  under (service_key storage_root name ++ [prev]) x → t' !! x = t !! x.
Proof.
  intros Hc Hhex Hne [l ->]. unfold deploy_places, deploy_parents, service_key, staging_key, plugins_key in *.
  specialize (Hc ((((key storage_root ++ ["services"; name]) ++ [prev]) ++ l))).
  rewrite <-!app_assoc in *. cbn [app] in *.
  destruct Hc as [[Hu|[Hu|(n & Hown & Hu)]]|[?|([Hu|[Hu|Hu]] & _)]]; try done;
    rewrite <-?app_assoc in Hu; solve_under.
  destruct Hown as [[->|Hdot]|[->|[->|?]]]; [done| |done|done|done].
  unfold all_chars in Hhex. rewrite forallb_forall in Hhex. by apply list_elem_of_In, Hhex in Hdot.
Qed.


Lemma other_active_kept id name hash prev t t' other :
  changed_within (deploy_places storage_root id name hash prev) (deploy_parents storage_root id name) t t' →
  other ≠ name → active_of storage_root other t' = active_of storage_root other t.
Proof.
  intros Hc Hne. unfold active_of, text_at.
  by rewrite (other_service_kept _ _ _ _ _ _ _ (active_key storage_root other) Hc Hne (under_app _ _)).
Qed.

Definition records_writable : Prop := ∀ name,
  io_fault io OpWrite (active_key storage_root name) = None ∧
  io_fault io OpWrite (policy_key storage_root name) = None.

Lemma failed_active payload uuid declared t t' sup r e :
  records_writable → deploy_run payload uuid declared t t' sup r → declared ≠ Some "." → r = Err e →
  ∀ svc, active_of storage_root svc t' = active_of storage_root svc t.
Proof.
  intros Hf Hrun Hdot Hr svc.
  destruct Hrun as [sup' e'|id ca b t1 sup' r1 e' Hid <- E|id ca b t1 staged w1 w2 r2 Hid <- E Hd <- Ea].
  - done.
  - pose proof (stage_active ca b t svc Hid) as Hs. by rewrite E in Hs.
  - subst declared. destruct (stage_Ok io storage_root ca _ _ _ _ Hid E) as [Hst _].
    specialize (Hst ltac:(by intros Hn; rewrite Hn in Hdot)).
    pose proof (stage_active ca b t svc Hid) as Hs. rewrite E in Hs. rewrite <-Hs. simpl. subst r2.
    destruct (decide (svc = sg_service_name staged)) as [->|Hne].
    + destruct (Hf (sg_service_name staged)). by eapply activate_Err.
    + destruct (activate_within _ uuid payload staged w1 Hst) as [Hc _]. rewrite Ea in Hc.
      by eapply other_active_kept.
Qed.

(** C4 (functional). When the files of the active releases and the restart policies can be
    written and the manifest does not call its service [.], a deployment that fails, with or
    without a rollback, leaves every service on the release it was on; one that succeeds leaves
    the service the manifest names on the release it reports, which is the one the supervisor
    accepted, with the requested restart policy, and every other service on the release it was
    on. *)
Theorem deploy_active_release payload now1 now2 uuid (w w' : world) r :
  src_ok (wd_source w) → declared_service payload now1 now2 w ≠ Some "." →
  records_writable →
  deploy io storage_root payload now1 now2 uuid w = (w', r) →
  match r with
  | Err _ => ∀ name, active_of storage_root name (wd_tree w') = active_of storage_root name (wd_tree w)
  | Ok s =>
    declared_service payload now1 now2 w = Some (ds_service_name s) ∧
    active_of storage_root (ds_service_name s) (wd_tree w') = Some (ds_release_hash s) ∧
    policy_of storage_root (ds_service_name s) (wd_tree w') = Some (dc_restart_policy payload) ∧
    (∃ launch sup, sl_name launch = ds_service_name s ∧ sl_release_hash launch = ds_release_hash s ∧
       sup_replace launch sup = (wd_sup w', Ok tt)) ∧
    ∀ other, other ≠ ds_service_name s →
      active_of storage_root other (wd_tree w') = active_of storage_root other (wd_tree w)
  end.
Proof.
  intros Hsrc Hdot Hf Hd. destruct (deploy_inv _ _ _ _ _ _ _ Hsrc Hd) as [Hrun _].
  destruct r as [s|e]; [|by eapply failed_active].
  destruct (deploy_run_changed _ _ _ _ _ _ _ Hrun Hdot) as (id & hash & Hs & Hc).
  destruct (Hs s eq_refl) as [Hname Hhash]. clear Hs.
  inversion Hrun as [| |? ca b t1 staged w1 w2 ? Hid ? E Hdec Ht1 Ea Ht2 Hsup]. subst.
  destruct (stage_Ok io storage_root ca _ _ _ _ Hid E) as [Hst _].
  specialize (Hst ltac:(by intros Hn; rewrite Hdec, Hn in Hdot)).
  destruct (activate_Ok _ _ _ _ _ _ _ Hst Ea) as (Hn & Hh & Ha & Hp & Hl). rewrite Hdec in *. simpl in *.
  rewrite Hn, Hh in *. split_and!; [done..|]. intros other Hne. rewrite Ht2. by eapply other_active_kept.
Qed.

(** *** A service called [.] *)

Definition services_key : list string := key storage_root ++ ["services"].

Lemma service_key_services name : service_key storage_root name = services_key ++ [name].
Proof. unfold service_key, services_key. by rewrite <-app_assoc. Qed.

Lemma key_dot : key (service_root_of storage_root ".") = services_key.
Proof.
  unfold service_root_of, services_key. rewrite <-key_join_name by by apply literal_proper.
  apply key_join_dot.
Qed.

(** The directory of another service, before and after it is cleaned up. *)
Lemma prepare_dot_removes uuid payload staged id other t t' pr x :
  key (sg_staging_dir staged) = staging_key storage_root id → sg_service_name staged = "." →
  prepare_release_from_staged_inner io storage_root uuid payload staged t = (t', Ok pr) →
  let hash := release_id_from_artifact_digest (sg_artifact_digest staged) in
  proper other → t !! (services_key ++ [other]) = Some Directory →
  other ≠ hash → other ≠ backup_name hash uuid →
  text_at (services_key ++ ["active_release"]) t ≠ Some other →
  under (services_key ++ [other]) x →
  t' !! x = None ∧ x ≠ key (pr_active_file pr) ∧ x ≠ key (pr_restart_policy_file pr) ∧
  pr_release_hash pr = hash.
Proof.
  intros Hst Hname H hash Hother Ht Hh Hb Hprev Hx.
  unfold prepare_release_from_staged_inner in H. cbv zeta in H. rewrite Hname in H.
  assert (∀ f, proper f → key (path_join (service_root_of storage_root ".") f) = services_key ++ [f]) as Hk
    by (intros f Hf; by rewrite key_join_name, key_dot).
  inv_fsm.
  repeat match goal with
  | Hr : read_active_release _ _ _ = (_, Ok _) |- _ =>
    apply read_active_inv in Hr as (? & Hda & ?); rewrite Hk in Hda by by apply literal_proper
  | Hr : read_restart_policy _ _ _ = (_, Ok _) |- _ =>
    apply read_policy_inv in Hr as (? & Hdp); rewrite Hk in Hdp by by apply literal_proper
  end. subst.
  match goal with Hc : lift (create_dir_all _ _) _ ?ta = (?tb, _) |- _ =>
    assert (tb !! (services_key ++ [other]) = Some Directory) as Htb;
    [apply (f_equal fst) in Hc; simpl in Hc; rewrite <-Hc|] end.
  { apply (touches_directory nothing (λ _, True)); [|by intros []|done].
    by apply touches_lift, touches_create_dir_all. }
  match goal with Hp : promote_staging_release _ _ _ _ ?ta = (?tb, _) |- _ =>
    assert (tb !! (services_key ++ [other]) = Some Directory) as Htc;
    [apply (f_equal fst) in Hp; simpl in Hp; rewrite <-Hp|] end.
  { apply (touches_directory (λ x, under (staging_key storage_root id) x ∨
      under (services_key ++ [hash]) x ∨ under (services_key ++ [backup_name hash uuid]) x) nothing);
      [|unfold staging_key, services_key|done].
    - apply touches_promote_at; rewrite ?key_dot, ?Hst; [apply hash_proper|..]; auto.
    - rewrite <-!app_assoc. intros [Hu|[Hu|Hu]]; solve_under. }
  match goal with Hc : cleanup_old_releases _ _ _ _ _ = (?td, Ok ?u) |- _ =>
    destruct u; assert (td !! x = None) as Hgone;
    [eapply (cleanup_removes io _ _ _ _ _ other x Hc); rewrite ?key_dot; try done|] end.
  { by rewrite Hk by by apply literal_proper. }
  split_and!; try done; cbn [pr_active_file pr_restart_policy_file].
  - match goal with Hb : build_launch_from_release _ _ _ _ _ ?ta = (?tb, _) |- _ =>
      pose proof (touches_build_launch io storage_root (under (plugins_key storage_root))
        (λ x, under x (plugins_key storage_root)) hash
        (path_join (service_root_of storage_root ".") hash) (sg_manifest staged) (λ _ F, F) (λ _ F, F) ta x) as Hc;
      unfold hash in Hc; rewrite Hb in Hc; simpl in Hc end.
    destruct Hc as [Hu|[->|(Hu & _)]]; [|done|]; exfalso; destruct Hx as [l ->];
      unfold services_key, plugins_key in Hu; rewrite <-!app_assoc in Hu; solve_under.
  - rewrite Hk by by apply literal_proper. intros ->. solve_under.
  - rewrite Hk by by apply literal_proper. intros ->. solve_under.
Qed.

Lemma stage_keeps_services committed bundle t t1 r x :
  proper (ca_deploy_id committed) → under services_key x →
  stage_committed_release io storage_root committed bundle t = (t1, r) → t1 !! x = t !! x.
Proof.
  intros Hid [l ->] E.
  destruct (touches_stage io storage_root (under (staging_key storage_root (ca_deploy_id committed)))
    (λ x, under x (staging_key storage_root (ca_deploy_id committed))) committed bundle Hid
    (λ x H, H) (λ x H, H) t (services_key ++ l)) as [Hu|[Hx|(Hu & _)]]; [|by rewrite E in Hx|];
    unfold staging_key, services_key in Hu; rewrite <-?app_assoc in Hu; solve_under.
Qed.

(** C29 (error). A manifest may call its service [.], which the name check accepts.  The
    directory of that service is then the directory of all services: a deployment of it that
    reports success has deleted the whole directory of every other service, with its releases and
    its record of the active one.  Only a service whose name is the hash of the deployed
    release, the name of its backup or the text in the file [active_release] next to the
    services' directories can remain. *)
Theorem dot_service_wipes_services payload now1 now2 uuid (w w' : world) s other :
  src_ok (wd_source w) →
  deploy io storage_root payload now1 now2 uuid w = (w', Ok s) →
  declared_service payload now1 now2 w = Some "." →
  proper other → wd_tree w !! service_key storage_root other = Some Directory →
  other ≠ ds_release_hash s → other ≠ backup_name (ds_release_hash s) uuid →
  text_at (services_key ++ ["active_release"]) (wd_tree w) ≠ Some other →
  validate_service_name "." = Ok tt ∧
  active_of storage_root other (wd_tree w') = None ∧
  ∀ x, under (service_key storage_root other) x → wd_tree w' !! x = None.
Proof.
  intros Hsrc Hd Hdot Hother Ht Hh Hb Hprev. split; [reflexivity|].
  assert (∀ x, under (service_key storage_root other) x → wd_tree w' !! x = None) as Hx.
  { intros x Hx. destruct (deploy_inv _ _ _ _ _ _ _ Hsrc Hd) as [Hrun _].
    inversion Hrun as [| |? ca b t1 staged w1 w2 ? Hid ? E Hdec Ht1 Ea Ht2 Hsup]. subst.
    rewrite Hdot in Hdec. injection Hdec as Hdec.
    destruct (stage_Ok io storage_root ca _ _ _ _ Hid E) as [_ Hst].
    destruct (activate_inv _ _ _ _ _ _ Ea) as (t2 & pr & Ep & _ & Hw & _ & Hrel).
    rewrite service_key_services in *.
    assert (pr_release_hash pr = release_id_from_artifact_digest (sg_artifact_digest staged)) as Hpr.
    { unfold prepare_release_from_staged_inner in Ep. cbv zeta in Ep. by inv_fsm. }
    rewrite Hrel, Hpr in *.
    destruct (prepare_dot_removes uuid payload staged (ca_deploy_id ca) other (wd_tree w1) t2 pr x)
      as (Hn & Ha & Hp & _); try done.
    - rewrite (stage_keeps_services _ _ _ _ _ _ Hid (under_app _ _) E). done.
    - unfold text_at. rewrite (stage_keeps_services _ _ _ _ _ _ Hid (under_app _ _) E). exact Hprev.
    - by rewrite Hw, !lookup_insert_ne by done. }
  split; [|exact Hx]. unfold active_of, text_at. rewrite Hx; [done|apply under_app].
Qed.

End commands.

(** ** The artifact store behind the interface *)

Section source.
Context {CR : Crates} {CL : CratesLaws} (cfg : StoreConfig).

#[export] Instance node_source : ArtifactSource Node := {|
  src_pin := λ d n, {| node_store := node_store n;
                       node_pinned := pin_deploy_session d (node_pinned n); node_fs := node_fs n |};
  src_unpin := λ d n, {| node_store := node_store n;
                         node_pinned := unpin_deploy_session d (node_pinned n); node_fs := node_fs n |};
  src_service_name_for_deploy := service_name_for_deploy cfg;
  src_committed_artifact := committed_artifact cfg;
  src_read := λ path n, fs_read path (node_fs n);
|}.

(** Every session carries a UUID that the daemon made. *)
Definition node_ids (n : Node) : Prop :=
  ∀ d s, sessions (node_store n) !! d = Some s → uuid_text (us_deploy_id s).

Lemma uuid_text_proper d : uuid_text d → proper d.
Proof.
  intros [u ->]. apply (proper_chars is_uuid_char); [apply uuid_to_string_chars|vm_compute; reflexivity|..].
  - apply uuid_to_string_nonempty.
  - intros E. pose proof (uuid_to_string_chars u) as Hc. by rewrite E in Hc.
  - intros E. pose proof (uuid_to_string_chars u) as Hc. by rewrite E in Hc.
Qed.

Lemma lookup_ids {A} (view : UploadSession → A) d now n n' r :
  node_ids n →
  finish_lookup (with_committed_session cfg (node_pinned n) view d now (node_store n)) n = (n', r) →
  node_ids n' ∧ ∀ a, r = Ok a → ∃ s, a = view s ∧ uuid_text (us_deploy_id s).
Proof.
  intros Hn. unfold finish_lookup, with_committed_session.
  destruct (collect_session_cleanup_locked _ _ _ _ _) as [st plan] eqn:E.
  apply collect_session_cleanup_spec, cleaned_sub in E.
  assert (∀ d s, sessions st !! d = Some s → uuid_text (us_deploy_id s)) as Hst
    by (intros d' s Hs; eapply Hn, lookup_weaken; [exact Hs|exact E]).
  destruct (sessions st !! d) as [s|] eqn:Es; [|intros [= <- <-]; split; [exact Hst|done]].
  destruct (us_committed s); intros [= <- <-]; [|split; [exact Hst|done]]. split.
  - intros d' s' Hs'. simpl in Hs'. destruct (decide (d' = d)) as [->|Hne].
    + rewrite lookup_insert_eq in Hs'. injection Hs' as <-. exact (Hst d s Es).
    + rewrite lookup_insert_ne in Hs' by done. by eapply Hst.
  - intros a [= <-]. exists s. split; [done|by eapply Hst].
Qed.

#[export] Instance node_source_laws : ArtifactSourceLaws Node.
Proof.
  refine {| src_ok := node_ids |}.
  - done.
  - intros d now n n' r Hn E. by apply lookup_ids in E as [? _].
  - intros d now n n' ca Hn E. apply lookup_ids in E as [_ H]; [|done].
    destruct (H _ eq_refl) as (s & -> & Hu). by apply uuid_text_proper.
Defined.

End source.

(** ** Deployments *)

Module Demo.

#[export] Instance json : Json :=
  {| JsonValue := unit; json_string := λ _, tt; json_array := λ _, tt; json_object := λ _, tt |}.
#[export] Instance crates : Crates :=
  {| sha256_hex := λ b, if bool_decide (b = bytes_of "artifact") then "ab" else "cd";
     uuid_to_string := λ u, pretty u |}.
#[export] Instance crates_laws : CratesLaws.
Proof.
  split.
  - apply _.
  - intros u. apply pretty_N_nonempty.
  - intros u. pose proof (pretty_N_digits u) as Hd. unfold all_chars in *.
    rewrite forallb_forall in *. intros c Hc. unfold is_uuid_char, is_ascii_hexdigit.
    by rewrite Hd.
Qed.

Definition manifest (name : string) : Manifest :=
  {| m_name := name; m_main := "app.wasm"; m_app_type := Cli; m_http := None; m_socket := None;
     m_resources := None; m_assets := []; m_bindings := []; m_dependencies := [];
     m_capabilities := {| cap_privileged := false; cap_deps := ∅; cap_wasi := ∅ |};
     m_hash := {| mh_algorithm := "sha256"; mh_targets := [TargetWasm; TargetManifest; TargetAssets] |} |}.

(** A manifest whose text is the name of the service. *)
#[export] Instance manifest_crates : ManifestCrates :=
  {| manifest_from_json := λ bytes, Ok (manifest (string_of_bytes bytes));
     wasm_parse_all := λ _, [Ok PEnd] |}.
(** An archive of a manifest and a component. *)
#[export] Instance tar : Tar := {|
  TarEntry := string * list byte;
  tar_entries := λ bytes, Ok [Ok ("manifest.json", bytes); Ok ("app.wasm", [])];
  entry_type := λ _, TarFile;
  entry_path := λ e, Ok e.1;
  entry_unpack := λ e path t, (<[key path := File e.2]> t, Ok tt);
|}.
#[export] Instance tar_laws : TarLaws.
Proof. split. intros e path t t' r x [= <- _] Hx. by rewrite lookup_insert_ne. Qed.

(** A supervisor that knows which release of a service runs. *)
#[export] Instance supervisor : SupervisorOps (gmap string string) := {|
  sup_start := λ l m, (<[sl_name l := sl_release_hash l]> m, Ok tt);
  sup_stop := λ name _ m, (delete name m, Ok tt);
  sup_replace := λ l m, (<[sl_name l := sl_release_hash l]> m, Ok tt);
  sup_runtime_states := λ _, [];
|}.

Definition io : FsIo := {| io_fault := λ _ _, None; io_torn := 0 |}.
Definition cfg : StoreConfig := new_store "/v/artifacts" 100 100 4 1024 4 4096.

(** A committed upload of an archive for the service [name]. *)
Definition node (name : string) : Node :=
  {| node_store := put_session "7"
       {| us_deploy_id := "7"; us_service_name := "web"; us_idempotency_key := "k"; us_fingerprint := "";
          us_artifact_digest := "artifact"; us_artifact_size := 1; us_manifest_digest := "cd";
          us_upload_token := ""; us_file_path := "/v/artifacts/7"; us_received_ranges := [];
          us_committed := true; us_inflight_writes := 0; us_commit_in_progress := false;
          us_updated_at_epoch_secs := 10 |} empty_store;
     node_pinned := ∅;
     node_fs := {| fs_paths := {["/v/artifacts/7" := 1%N]}; fs_inodes := {[1%N := bytes_of name]} |} |}.

Definition storage : tree := list_to_map
  [(["v"], Directory); (["v"; "services"], Directory);
   (["v"; "services"; "web"], Directory); (["v"; "services"; "web"; "aa"], Directory);
   (["v"; "services"; "web"; "aa"; "manifest.json"], File (bytes_of "web"));
   (["v"; "services"; "web"; "active_release"], File (bytes_of "aa"));
   (["v"; "services"; "db"], Directory); (["v"; "services"; "db"; "ee"], Directory);
   (["v"; "services"; "db"; "active_release"], File (bytes_of "ee"))].

Definition world (name : string) : World Node (gmap string string) :=
  mkWorld storage ∅ (node name) ({["web" := "aa"]}).

Definition payload : DeployCommandPayload :=
  {| dc_deploy_id := "7"; dc_expected_current_release := "any"; dc_restart_policy := "always";
     dc_auto_rollback := true |}.

Definition deployed (name : string) :=
  deploy (Src := Node) (SRC := node_source cfg) io "/v" payload 20 21 9%N (world name).

Lemma sha_digits b : all_chars is_ascii_hexdigit (sha256_hex b) = true ∧ sha256_hex b ≠ "".
Proof. unfold sha256_hex. simpl. by case_bool_decide. Qed.

Lemma node_ids_ok name : node_ids (node name).
Proof.
  intros d s Hs. simpl in Hs. apply lookup_singleton_Some in Hs as [_ <-]. by exists 7%N.
Qed.

Lemma web_deployed :
  (deployed "web").2
  = Ok {| ds_service_name := "web"; ds_release_hash := "ab" |}.
Proof. vm_compute. reflexivity. Qed.

Lemma web_declared :
  declared_service (SRC := node_source cfg) io "/v" payload 20 21 (world "web") ≠ Some ".".
Proof. vm_compute. discriminate. Qed.


Lemma deploy_active_release_witness :
  let w' := (deployed "web").1 in
  active_of "/v" "web" (wd_tree w') = Some "ab" ∧ policy_of "/v" "web" (wd_tree w') = Some "always" ∧
  active_of "/v" "db" (wd_tree w') = Some "ee".
Proof.
  pose proof (deploy_active_release (SRC := node_source cfg)
    (SL := node_source_laws cfg) io "/v" sha_digits payload 20 21 9%N (world "web") _ _ (node_ids_ok "web")
    web_declared (λ name, conj eq_refl eq_refl) (surjective_pairing _)) as Hd.
  fold (deployed "web") in Hd. rewrite web_deployed in Hd.
  destruct Hd as (_ & Ha & Hp & _ & Hother). split_and!; [exact Ha|exact Hp|].
  rewrite (Hother "db") by done. vm_compute. reflexivity.
Defined.

(** An archive for a service called [.] deletes the service [db]. *)
Lemma dot_service_wipes_services_witness :
  let w' := (deployed ".").1 in
  (deployed ".").2 = Ok {| ds_service_name := "."; ds_release_hash := "ab" |} ∧
  active_of "/v" "db" (wd_tree (world ".")) = Some "ee" ∧
  active_of "/v" "db" (wd_tree w') = None ∧ wd_tree w' !! ["v"; "services"; "db"; "ee"] = None.
Proof.
  cbv zeta. assert (deployed "." = ((deployed ".").1, Ok {| ds_service_name := "."; ds_release_hash := "ab" |}))
    as E by (vm_compute; reflexivity).
  destruct (dot_service_wipes_services (SRC := node_source cfg) (SL := node_source_laws cfg) io "/v" sha_digits
    payload 20 21 9%N (world ".") _ _ "db" (node_ids_ok ".") E) as (_ & Ha & Hx);
    [vm_compute; reflexivity|by apply literal_proper|vm_compute; reflexivity|done|done|done|].
  split_and!; [by rewrite E|vm_compute; reflexivity|exact Ha|]. apply Hx. by exists ["ee"].
Defined.

End Demo.
