(* ===== verification/Component.v ===== *)
(** * Component values and the payload of a remote call

    The types and values of the component model, with the constructors that
    [imagod-runtime-wasmtime] matches on, and [rpc_values.rs]: the values that travel in the
    payload of a call, their encoding and decoding by type.  Floats are bit patterns and
    characters code points; both are only carried along.  CBOR is a parameter.

    Shown: exactly the well-typed values without resources can be encoded, a decoded payload
    is well typed, decoding inverts encoding, and a payload stands for the same values whatever the
    types it was written and is read with. *)

From S2P Require Import Prelude Protocol Text.

Open Scope Z_scope.

Definition STAGE_RUNTIME : string := "runtime.start".
Definition map_runtime_error (message : string) : ImagodError :=
  new_error Internal STAGE_RUNTIME message.
Definition map_runtime_unauthorized_error (message : string) : ImagodError :=
  new_error Unauthorized STAGE_RUNTIME message.

(** ** Types and values

    [R] is the identity of a resource type and [H] a handle to a resource; both belong to the
    engine. *)

Inductive Ty (R : Type) :=
  | TBool | TS8 | TU8 | TS16 | TU16 | TS32 | TU32 | TS64 | TU64
  | TFloat32 | TFloat64 | TChar | TString | TErrorContext
  | TOwn (r : R)
  | TBorrow (r : R)
  | TList (t : Ty R)
  | TRecord (fields : list (string * Ty R))
  | TTuple (types : list (Ty R))
  | TVariant (cases : list (string * option (Ty R)))
  | TEnum (names : list string)
  | TOption (t : Ty R)
  | TResult (ok err : option (Ty R))
  | TFlags (names : list string)
  | TFuture (t : option (Ty R))
  | TStream (t : option (Ty R)).
Arguments TBool {R}. Arguments TS8 {R}. Arguments TU8 {R}. Arguments TS16 {R}.
Arguments TU16 {R}. Arguments TS32 {R}. Arguments TU32 {R}. Arguments TS64 {R}.
Arguments TU64 {R}. Arguments TFloat32 {R}. Arguments TFloat64 {R}. Arguments TChar {R}.
Arguments TString {R}. Arguments TErrorContext {R}. Arguments TOwn {R}. Arguments TBorrow {R}.
Arguments TList {R}. Arguments TRecord {R}. Arguments TTuple {R}. Arguments TVariant {R}.
Arguments TEnum {R}. Arguments TOption {R}. Arguments TResult {R}. Arguments TFlags {R}.
Arguments TFuture {R}. Arguments TStream {R}.

Inductive Val (H : Type) :=
  | VBool (v : bool)
  | VS8 (v : Z) | VU8 (v : Z) | VS16 (v : Z) | VU16 (v : Z)
  | VS32 (v : Z) | VU32 (v : Z) | VS64 (v : Z) | VU64 (v : Z)
  | VFloat32 (v : Z) | VFloat64 (v : Z) | VChar (v : Z) | VString (v : string)
  | VList (items : list (Val H))
  | VRecord (fields : list (string * Val H))
  | VTuple (items : list (Val H))
  | VVariant (name : string) (value : option (Val H))
  | VEnum (name : string)
  | VOption (value : option (Val H))
  | VResult (is_ok : bool) (value : option (Val H))
  | VFlags (names : list string)
  | VResource (h : H)
  | VOther.
Arguments VBool {H}. Arguments VS8 {H}. Arguments VU8 {H}. Arguments VS16 {H}.
Arguments VU16 {H}. Arguments VS32 {H}. Arguments VU32 {H}. Arguments VS64 {H}.
Arguments VU64 {H}. Arguments VFloat32 {H}. Arguments VFloat64 {H}. Arguments VChar {H}.
Arguments VString {H}. Arguments VList {H}. Arguments VRecord {H}. Arguments VTuple {H}.
Arguments VVariant {H}. Arguments VEnum {H}. Arguments VOption {H}. Arguments VResult {H}.
Arguments VFlags {H}. Arguments VResource {H}. Arguments VOther {H}.

(** [VOther] stands for futures, streams and error contexts. *)

(** ** Induction through the nested lists *)

Section val_ind.
Context {H : Type} (P : Val H → Prop).
Definition on_option {A} (Q : A → Prop) (o : option A) : Prop :=
  match o with Some a => Q a | None => True end.

Hypothesis on_scalar : ∀ v,
  match v with
  | VList _ | VRecord _ | VTuple _ | VVariant _ _ | VOption _ | VResult _ _ => False
  | _ => True
  end → P v.
Hypothesis on_list : ∀ items, Forall P items → P (VList items).
Hypothesis on_record : ∀ fields, Forall (λ f, P f.2) fields → P (VRecord fields).
Hypothesis on_tuple : ∀ items, Forall P items → P (VTuple items).
Hypothesis on_variant : ∀ name value, on_option P value → P (VVariant name value).
Hypothesis on_opt : ∀ value, on_option P value → P (VOption value).
Hypothesis on_result : ∀ is_ok value, on_option P value → P (VResult is_ok value).

Fixpoint Val_nested_ind (v : Val H) : P v :=
  let all := fix all (l : list (Val H)) : Forall P l :=
    match l with
    | [] => Forall_nil_2 _
    | x :: l => Forall_cons_2 _ _ _ (Val_nested_ind x) (all l)
    end in
  let fields := fix fields (l : list (string * Val H)) : Forall (λ f, P f.2) l :=
    match l with
    | [] => Forall_nil_2 _
    | (_, x) as f :: l => Forall_cons_2 (λ f, P f.2) f l (Val_nested_ind x) (fields l)
    end in
  let opt := λ o : option (Val H),
    match o as o return on_option P o with Some x => Val_nested_ind x | None => I end in
  match v with
  | VList items => on_list items (all items)
  | VRecord l => on_record l (fields l)
  | VTuple items => on_tuple items (all items)
  | VVariant name value => on_variant name value (opt value)
  | VOption value => on_opt value (opt value)
  | VResult is_ok value => on_result is_ok value (opt value)
  | VBool v => on_scalar (VBool v) I
  | VS8 v => on_scalar (VS8 v) I | VU8 v => on_scalar (VU8 v) I
  | VS16 v => on_scalar (VS16 v) I | VU16 v => on_scalar (VU16 v) I
  | VS32 v => on_scalar (VS32 v) I | VU32 v => on_scalar (VU32 v) I
  | VS64 v => on_scalar (VS64 v) I | VU64 v => on_scalar (VU64 v) I
  | VFloat32 v => on_scalar (VFloat32 v) I | VFloat64 v => on_scalar (VFloat64 v) I
  | VChar v => on_scalar (VChar v) I | VString v => on_scalar (VString v) I
  | VEnum name => on_scalar (VEnum name) I
  | VFlags names => on_scalar (VFlags names) I
  | VResource h => on_scalar (VResource h) I
  | VOther => on_scalar VOther I
  end.
End val_ind.

(** ** Payloads *)

Inductive RpcValue :=
  | RpcBool (v : bool)
  | RpcS8 (v : Z) | RpcU8 (v : Z) | RpcS16 (v : Z) | RpcU16 (v : Z)
  | RpcS32 (v : Z) | RpcU32 (v : Z) | RpcS64 (v : Z) | RpcU64 (v : Z)
  | RpcFloat32 (v : Z) | RpcFloat64 (v : Z) | RpcChar (v : Z) | RpcString (v : string)
  | RpcList (items : list RpcValue)
  | RpcRecord (fields : list (string * RpcValue))
  | RpcTuple (items : list RpcValue)
  | RpcVariant (name : string) (value : option RpcValue)
  | RpcEnum (name : string)
  | RpcOption (value : option RpcValue)
  | RpcResult (is_ok : bool) (value : option RpcValue)
  | RpcFlags (names : list string).

Section rpc_ind.
Context (P : RpcValue → Prop).
Hypothesis on_scalar : ∀ r,
  match r with
  | RpcList _ | RpcRecord _ | RpcTuple _ | RpcVariant _ _ | RpcOption _ | RpcResult _ _ => False
  | _ => True
  end → P r.
Hypothesis on_list : ∀ items, Forall P items → P (RpcList items).
Hypothesis on_record : ∀ fields, Forall (λ f, P f.2) fields → P (RpcRecord fields).
Hypothesis on_tuple : ∀ items, Forall P items → P (RpcTuple items).
Hypothesis on_variant : ∀ name value, on_option P value → P (RpcVariant name value).
Hypothesis on_opt : ∀ value, on_option P value → P (RpcOption value).
Hypothesis on_result : ∀ is_ok value, on_option P value → P (RpcResult is_ok value).

Fixpoint RpcValue_nested_ind (r : RpcValue) : P r :=
  let all := fix all (l : list RpcValue) : Forall P l :=
    match l with
    | [] => Forall_nil_2 _
    | x :: l => Forall_cons_2 _ _ _ (RpcValue_nested_ind x) (all l)
    end in
  let fields := fix fields (l : list (string * RpcValue)) : Forall (λ f, P f.2) l :=
    match l with
    | [] => Forall_nil_2 _
    | (_, x) as f :: l => Forall_cons_2 (λ f, P f.2) f l (RpcValue_nested_ind x) (fields l)
    end in
  let opt := λ o : option RpcValue,
    match o as o return on_option P o with Some x => RpcValue_nested_ind x | None => I end in
  match r with
  | RpcList items => on_list items (all items)
  | RpcRecord l => on_record l (fields l)
  | RpcTuple items => on_tuple items (all items)
  | RpcVariant name value => on_variant name value (opt value)
  | RpcOption value => on_opt value (opt value)
  | RpcResult is_ok value => on_result is_ok value (opt value)
  | RpcBool v => on_scalar (RpcBool v) I
  | RpcS8 v => on_scalar (RpcS8 v) I | RpcU8 v => on_scalar (RpcU8 v) I
  | RpcS16 v => on_scalar (RpcS16 v) I | RpcU16 v => on_scalar (RpcU16 v) I
  | RpcS32 v => on_scalar (RpcS32 v) I | RpcU32 v => on_scalar (RpcU32 v) I
  | RpcS64 v => on_scalar (RpcS64 v) I | RpcU64 v => on_scalar (RpcU64 v) I
  | RpcFloat32 v => on_scalar (RpcFloat32 v) I | RpcFloat64 v => on_scalar (RpcFloat64 v) I
  | RpcChar v => on_scalar (RpcChar v) I | RpcString v => on_scalar (RpcString v) I
  | RpcEnum name => on_scalar (RpcEnum name) I
  | RpcFlags names => on_scalar (RpcFlags names) I
  end.
End rpc_ind.

(** The optional payload of a case, checked against the optional type of the case. *)
Definition match_payload {A B T} (f : A → T → iresult B) (missing extra : ImagodError)
    (value : option A) (ty : option T) : iresult (option B) :=
  match value, ty with
  | None, None => Ok None
  | Some v, Some t => r ← f v t; Ok (Some r)
  | None, Some _ => Err missing
  | Some _, None => Err extra
  end.

Definition count_mismatch (what : string) (values types : nat) : ImagodError :=
  map_runtime_error (what +:+ " mismatch: values=" +:+ to_string (Z.of_nat values) +:+
    ", types=" +:+ to_string (Z.of_nat types)).
Definition field_name_mismatch (expected got : string) : ImagodError :=
  map_runtime_error ("record field name mismatch: expected='" +:+ expected +:+ "', got='" +:+
    got +:+ "'").

(** A field, checked against the name and the type the record expects in its place. *)
Definition match_field {A B T} (f : A → T → iresult B) (field : string * A)
    (expected : string * T) : iresult (string * B) :=
  let '(actual_name, actual) := field in
  let '(name, t) := expected in
  _ ← ensure (bool_decide (actual_name = name)) (field_name_mismatch name actual_name);
  r ← f actual t;
  Ok (actual_name, r).

Definition variant_missing (name : string) : ImagodError :=
  map_runtime_error ("variant '" +:+ name +:+ "' requires payload").
Definition variant_extra (name : string) : ImagodError :=
  map_runtime_error ("variant '" +:+ name +:+ "' must not contain payload").
Definition result_missing (is_ok : bool) : ImagodError :=
  map_runtime_error ("result " +:+ (if is_ok then "ok" else "err") +:+ " payload is missing").
Definition result_extra (is_ok : bool) : ImagodError :=
  map_runtime_error ("result " +:+ (if is_ok then "ok" else "err") +:+ " payload is not allowed").
Definition undefined (what name : string) : ImagodError :=
  map_runtime_error (what +:+ " '" +:+ name +:+ "' is not defined").
Definition no_resources : ImagodError :=
  map_runtime_error "resource values are not supported in rpc payload".
Definition payload_mismatch : ImagodError :=
  map_runtime_error "rpc payload type mismatch for component value".

(** [cases().find(|case| case.name == name)]. *)
Definition find_case {T} (name : string) (cases : list (string * option T)) : option (option T) :=
  snd <$> find (λ case, bool_decide (case.1 = name)) cases.

Fixpoint check_flags (defined names : list string) : iresult unit :=
  match names with
  | [] => Ok tt
  | name :: rest =>
    _ ← ensure (bool_decide (name ∈ defined)) (undefined "flag" name);
    check_flags defined rest
  end.

Section rpc.
Context {R H : Type}.

Fixpoint value_to_rpc (value : Val H) (ty : Ty R) : iresult RpcValue :=
  match value, ty with
  | _, (TOwn _ | TBorrow _) => Err no_resources
  | VBool v, TBool => Ok (RpcBool v)
  | VS8 v, TS8 => Ok (RpcS8 v)
  | VU8 v, TU8 => Ok (RpcU8 v)
  | VS16 v, TS16 => Ok (RpcS16 v)
  | VU16 v, TU16 => Ok (RpcU16 v)
  | VS32 v, TS32 => Ok (RpcS32 v)
  | VU32 v, TU32 => Ok (RpcU32 v)
  | VS64 v, TS64 => Ok (RpcS64 v)
  | VU64 v, TU64 => Ok (RpcU64 v)
  | VFloat32 v, TFloat32 => Ok (RpcFloat32 v)
  | VFloat64 v, TFloat64 => Ok (RpcFloat64 v)
  | VChar v, TChar => Ok (RpcChar v)
  | VString v, TString => Ok (RpcString v)
  | VList items, TList t =>
    encoded ← try_map (λ item, value_to_rpc item t) items;
    Ok (RpcList encoded)
  | VRecord fields, TRecord expected =>
    _ ← ensure (bool_decide (length fields = length expected))
          (count_mismatch "record field count" (length fields) (length expected));
    encoded ← try_zip (match_field (λ v t, value_to_rpc v t)) fields expected;
    Ok (RpcRecord encoded)
  | VTuple items, TTuple expected =>
    _ ← ensure (bool_decide (length items = length expected))
          (count_mismatch "tuple arity" (length items) (length expected));
    encoded ← try_zip (λ item t, value_to_rpc item t) items expected;
    Ok (RpcTuple encoded)
  | VVariant name value, TVariant cases =>
    case ← ok_or (find_case name cases) (undefined "variant case" name);
    encoded ← match_payload (λ v t, value_to_rpc v t) (variant_missing name) (variant_extra name)
                value case;
    Ok (RpcVariant name encoded)
  | VEnum name, TEnum names =>
    _ ← ensure (bool_decide (name ∈ names)) (undefined "enum case" name);
    Ok (RpcEnum name)
  | VOption value, TOption t =>
    encoded ← match value with
              | Some inner => r ← value_to_rpc inner t; Ok (Some r)
              | None => Ok None
              end;
    Ok (RpcOption encoded)
  | VResult is_ok value, TResult ok err =>
    encoded ← match_payload (λ v t, value_to_rpc v t) (result_missing is_ok) (result_extra is_ok)
                value (if is_ok then ok else err);
    Ok (RpcResult is_ok encoded)
  | VFlags names, TFlags defined =>
    _ ← check_flags defined names;
    Ok (RpcFlags names)
  | _, _ => Err payload_mismatch
  end.

Fixpoint rpc_to_value (value : RpcValue) (ty : Ty R) : iresult (Val H) :=
  match value, ty with
  | _, (TOwn _ | TBorrow _) => Err no_resources
  | RpcBool v, TBool => Ok (VBool v)
  | RpcS8 v, TS8 => Ok (VS8 v)
  | RpcU8 v, TU8 => Ok (VU8 v)
  | RpcS16 v, TS16 => Ok (VS16 v)
  | RpcU16 v, TU16 => Ok (VU16 v)
  | RpcS32 v, TS32 => Ok (VS32 v)
  | RpcU32 v, TU32 => Ok (VU32 v)
  | RpcS64 v, TS64 => Ok (VS64 v)
  | RpcU64 v, TU64 => Ok (VU64 v)
  | RpcFloat32 v, TFloat32 => Ok (VFloat32 v)
  | RpcFloat64 v, TFloat64 => Ok (VFloat64 v)
  | RpcChar v, TChar => Ok (VChar v)
  | RpcString v, TString => Ok (VString v)
  | RpcList items, TList t =>
    decoded ← try_map (λ item, rpc_to_value item t) items;
    Ok (VList decoded)
  | RpcRecord fields, TRecord expected =>
    _ ← ensure (bool_decide (length fields = length expected))
          (count_mismatch "record field count" (length fields) (length expected));
    decoded ← try_zip (match_field (λ v t, rpc_to_value v t)) fields expected;
    Ok (VRecord decoded)
  | RpcTuple items, TTuple expected =>
    _ ← ensure (bool_decide (length items = length expected))
          (count_mismatch "tuple arity" (length items) (length expected));
    decoded ← try_zip (λ item t, rpc_to_value item t) items expected;
    Ok (VTuple decoded)
  | RpcVariant name value, TVariant cases =>
    case ← ok_or (find_case name cases) (undefined "variant case" name);
    decoded ← match_payload (λ v t, rpc_to_value v t) (variant_missing name) (variant_extra name)
                value case;
    Ok (VVariant name decoded)
  | RpcEnum name, TEnum names =>
    _ ← ensure (bool_decide (name ∈ names)) (undefined "enum case" name);
    Ok (VEnum name)
  | RpcOption value, TOption t =>
    decoded ← match value with
              | Some inner => v ← rpc_to_value inner t; Ok (Some v)
              | None => Ok None
              end;
    Ok (VOption decoded)
  | RpcResult is_ok value, TResult ok err =>
    decoded ← match_payload (λ v t, rpc_to_value v t) (result_missing is_ok) (result_extra is_ok)
                value (if is_ok then ok else err);
    Ok (VResult is_ok decoded)
  | RpcFlags names, TFlags defined =>
    _ ← check_flags defined names;
    Ok (VFlags names)
  | _, _ => Err payload_mismatch
  end.

End rpc.

(** [ciborium] on lists of values.  The law is about the values it can write: signalling NaNs,
    which it may turn into quiet ones, and nesting beyond its recursion limit are outside it. *)
Class PayloadCbor := {
  payload_to_cbor : list RpcValue → result string (list byte);
  payload_from_cbor : list byte → result string (list RpcValue);
}.
Class PayloadCborLaws `{PayloadCbor} : Prop := {
  payload_from_to values payload :
    payload_to_cbor values = Ok payload → payload_from_cbor payload = Ok values;
}.

Section payload.
Context {R H : Type} `{PayloadCbor}.

Definition encode_payload_values (values : list (Val H)) (tys : list (Ty R)) : iresult (list byte) :=
  _ ← ensure (bool_decide (length values = length tys))
        (count_mismatch "rpc payload value count" (length values) (length tys));
  encoded ← try_zip (λ value ty, value_to_rpc value ty) values tys;
  map_err (λ err, map_runtime_error ("rpc payload encode failed: " +:+ err)) (payload_to_cbor encoded).

Definition decode_payload_values (payload : list byte) (tys : list (Ty R)) : iresult (list (Val H)) :=
  encoded ← map_err (λ err, map_runtime_error ("rpc payload decode failed: " +:+ err))
              (payload_from_cbor payload);
  _ ← ensure (bool_decide (length encoded = length tys))
        (count_mismatch "rpc payload value count" (length encoded) (length tys));
  try_zip (λ value ty, rpc_to_value value ty) encoded tys.

Definition placeholder_for_type (ty : Ty R) : iresult (Val H) :=
  match ty with
  | TBool => Ok (VBool false)
  | TS8 => Ok (VS8 0) | TU8 => Ok (VU8 0) | TS16 => Ok (VS16 0) | TU16 => Ok (VU16 0)
  | TS32 => Ok (VS32 0) | TU32 => Ok (VU32 0) | TS64 => Ok (VS64 0) | TU64 => Ok (VU64 0)
  | TFloat32 => Ok (VFloat32 0) | TFloat64 => Ok (VFloat64 0)
  | TChar => Ok (VChar 0)
  | TString => Ok (VString "")
  | TList _ => Ok (VList [])
  | TRecord _ => Ok (VRecord [])
  | TTuple _ => Ok (VTuple [])
  | TVariant cases =>
    case ← ok_or (head cases) (map_runtime_error "variant type has no cases");
    Ok (VVariant case.1 None)
  | TEnum names =>
    name ← ok_or (head names) (map_runtime_error "enum type has no cases");
    Ok (VEnum name)
  | TOption _ => Ok (VOption None)
  | TResult _ _ => Ok (VResult true None)
  | TFlags _ => Ok (VFlags [])
  | TOwn _ | TBorrow _ | TFuture _ | TStream _ | TErrorContext => Err no_resources
  end.

Definition placeholder_values (tys : list (Ty R)) : iresult (list (Val H)) :=
  try_map placeholder_for_type tys.

End payload.

(** ** Typing

    [ext] types what the rules below do not: resources and asynchronous values. *)

Section typing.
Context {R H : Type} (ext : Val H → Ty R → Prop).

Inductive has_type : Val H → Ty R → Prop :=
  | ht_bool v : has_type (VBool v) TBool
  | ht_s8 v : has_type (VS8 v) TS8
  | ht_u8 v : has_type (VU8 v) TU8
  | ht_s16 v : has_type (VS16 v) TS16
  | ht_u16 v : has_type (VU16 v) TU16
  | ht_s32 v : has_type (VS32 v) TS32
  | ht_u32 v : has_type (VU32 v) TU32
  | ht_s64 v : has_type (VS64 v) TS64
  | ht_u64 v : has_type (VU64 v) TU64
  | ht_float32 v : has_type (VFloat32 v) TFloat32
  | ht_float64 v : has_type (VFloat64 v) TFloat64
  | ht_char v : has_type (VChar v) TChar
  | ht_string v : has_type (VString v) TString
  | ht_list items t : Forall (λ v, has_type v t) items → has_type (VList items) (TList t)
  | ht_record fields expected :
      Forall2 (λ f e, f.1 = e.1 ∧ has_type f.2 e.2) fields expected →
      has_type (VRecord fields) (TRecord expected)
  | ht_tuple items types : Forall2 has_type items types → has_type (VTuple items) (TTuple types)
  | ht_variant name value cases case :
      find_case name cases = Some case → option_Forall2 has_type value case →
      has_type (VVariant name value) (TVariant cases)
  | ht_enum name names : name ∈ names → has_type (VEnum name) (TEnum names)
  | ht_none t : has_type (VOption None) (TOption t)
  | ht_some v t : has_type v t → has_type (VOption (Some v)) (TOption t)
  | ht_result (is_ok : bool) value ok err :
      option_Forall2 has_type value (if is_ok then ok else err) →
      has_type (VResult is_ok value) (TResult ok err)
  | ht_flags names defined : Forall (.∈ defined) names → has_type (VFlags names) (TFlags defined)
  | ht_ext v t : ext v t → has_type v t.

End typing.

(** A value without resources. *)
Definition plain {R H} : Val H → Ty R → Prop := has_type (λ _ _, False).

Lemma check_flags_Ok defined names u :
  check_flags defined names = Ok u ↔ Forall (.∈ defined) names.
Proof.
  destruct u. induction names as [|name names IH]; simpl; [by split|].
  rewrite Forall_cons, bind_Ok, <-IH. setoid_rewrite ensure_Ok.
  setoid_rewrite bool_decide_eq_true. split.
  - by intros (_ & ? & ?).
  - intros [? ?]. by exists tt.
Qed.

Lemma match_payload_Ok {A B T} (f : A → T → iresult B) missing extra value ty r :
  match_payload f missing extra value ty = Ok r ↔
  (value = None ∧ ty = None ∧ r = None) ∨
  ∃ v t b, value = Some v ∧ ty = Some t ∧ r = Some b ∧ f v t = Ok b.
Proof.
  destruct value as [v|], ty as [t|]; simpl; [|naive_solver..].
  rewrite bind_Ok. naive_solver.
Qed.

Lemma match_field_Ok {A B T} (f : A → T → iresult B) field expected r :
  match_field f field expected = Ok r ↔
  field.1 = expected.1 ∧ r.1 = field.1 ∧ f field.2 expected.2 = Ok r.2.
Proof.
  destruct field as [n x], expected as [n' t], r as [m z]. unfold match_field. rewrite bind_Ok.
  setoid_rewrite ensure_Ok. setoid_rewrite bool_decide_eq_true. setoid_rewrite bind_Ok. simpl.
  split; [naive_solver|]. intros (-> & -> & Hf). exists tt. split; [done|]. by exists z.
Qed.

(** Combining an induction hypothesis on the elements with facts about the zipped lists. *)
Lemma Forall_Forall2_impl {A B} (P : A → Prop) (Q Q' : A → B → Prop) l k :
  Forall P l → Forall2 Q l k → (∀ x y, P x → Q x y → Q' x y) → Forall2 Q' l k.
Proof. intros Hp Hq Himpl. induction Hq; inversion Hp; subst; constructor; eauto. Qed.

Lemma Forall_Forall3_impl {A B C} (P : A → Prop) (Q Q' : A → B → C → Prop) l k m :
  Forall P l → Forall3 Q l k m → (∀ x y z, P x → Q x y z → Q' x y z) → Forall3 Q' l k m.
Proof. intros Hp Hq Himpl. induction Hq; inversion Hp; subst; constructor; eauto. Qed.

Lemma Forall3_rotate {A B C} (Q : A → B → C → Prop) l k m :
  Forall3 Q l k m → Forall3 (λ z y x, Q x y z) m k l.
Proof. induction 1; by constructor. Qed.

Lemma Forall3_Forall2_lm {A B C} (Q : A → B → C → Prop) (Q' : A → B → Prop) l k m :
  Forall3 Q l k m → (∀ x y z, Q x y z → Q' x y) → Forall2 Q' l k.
Proof. intros Hq Himpl. induction Hq; constructor; eauto. Qed.

Lemma Forall3_lengths {A B C} (Q : A → B → C → Prop) l k m :
  Forall3 Q l k m → length l = length k ∧ length m = length k.
Proof. induction 1; simpl; intuition lia. Qed.

Lemma Forall_choose {A B} (Q : A → B → Prop) l :
  Forall (λ x, ∃ y, Q x y) l → ∃ k, Forall2 Q l k.
Proof.
  induction 1 as [|x l [y Hy] _ [k Hk]]; [by exists []|]. exists (y :: k). by constructor.
Qed.

Lemma Forall2_choose {A B C} (Q : A → B → C → Prop) l k :
  Forall2 (λ x y, ∃ z, Q x y z) l k → ∃ m, Forall3 Q l k m.
Proof.
  induction 1 as [|x y l k [z Hz] _ [m Hm]]; [exists []; constructor|]. exists (z :: m). by constructor.
Qed.

Section roundtrip.
Context {R H : Type}.
Implicit Types (v : Val H) (t : Ty R).

(** The loop over zipped lists of equal length, forwards and backwards. *)
Lemma try_zip_len {A B C} (f : A → B → iresult C) what xs ys zs u :
  ensure (bool_decide (length xs = length ys)) (count_mismatch what (length xs) (length ys)) = Ok u →
  try_zip f xs ys = Ok zs → Forall3 (λ x y z, f x y = Ok z) xs ys zs.
Proof. intros E%ensure_Ok Hz. apply bool_decide_eq_true in E. by apply try_zip_Ok. Qed.

Lemma try_zip_back {A B C D} (f : A → B → iresult C) (k : list C → iresult D) what xs ys zs :
  Forall3 (λ x y z, f x y = Ok z) xs ys zs →
  (_ ← ensure (bool_decide (length xs = length ys)) (count_mismatch what (length xs) (length ys));
   zs ← try_zip f xs ys; k zs) = k zs.
Proof.
  intros Hf. pose proof (Forall3_lengths _ _ _ _ Hf) as [Hl _].
  rewrite bool_decide_true by done. simpl. by apply try_zip_Ok in Hf as ->.
Qed.

Lemma value_to_rpc_inv v : ∀ t r,
  value_to_rpc v t = Ok r → plain v t ∧ rpc_to_value r t = Ok v.
Proof.
  induction v as [v Hv|items IH|fields IH|items IH|name value IH|value IH|is_ok value IH]
    using Val_nested_ind; intros t r E.
  { destruct v, t; simplify_eq/=; try (by split; [constructor|]); inv_ok.
    - rewrite bool_decide_eq_true in *. simpl. rewrite bool_decide_true by done. split; [|done].
      by constructor.
    - split; [|simpl; by match goal with Hc : check_flags _ _ = _ |- _ => rewrite Hc end].
      constructor. by eapply check_flags_Ok. }
  all: destruct t; try done; simpl in E.
  - apply bind_Ok in E as (rs & Hrs%try_map_Ok & [= <-]).
    eapply Forall_Forall2_impl in Hrs; [|done|intros x y Hx Hy; exact (Hx _ _ Hy)]. simpl. split.
    + constructor. clear -Hrs. induction Hrs; constructor; naive_solver.
    + assert (try_map (λ item, rpc_to_value item t) rs = Ok items) as ->; [|done].
      apply try_map_Ok, Forall2_flip. eapply Forall2_impl; [done|naive_solver].
  - apply bind_Ok in E as (u & Hl & E). apply bind_Ok in E as (rs & Hrs & [= <-]).
    eapply try_zip_len in Hrs; [|done].
    eapply (Forall_Forall3_impl _ _ (λ f e r, f.1 = e.1 ∧ plain f.2 e.2 ∧ r.1 = f.1 ∧
      rpc_to_value r.2 e.2 = Ok f.2)) in Hrs; [|done|].
    2: { intros f e r Hx (? & ? & ?)%match_field_Ok. split_and!; naive_solver. }
    split.
    + constructor. eapply Forall3_Forall2_lm; [done|]. naive_solver.
    + simpl. apply (try_zip_back _ (λ decoded, Ok (VRecord decoded))).
      apply Forall3_rotate in Hrs. eapply Forall3_impl; [done|].
      intros r e f (? & ? & ? & ?). apply match_field_Ok. split_and!; congruence.
  - apply bind_Ok in E as (u & Hl & E). apply bind_Ok in E as (rs & Hrs & [= <-]).
    eapply try_zip_len in Hrs; [|done].
    eapply (Forall_Forall3_impl _ _ (λ x y z, plain x y ∧ rpc_to_value z y = Ok x)) in Hrs; [|done|eauto].
    split.
    + constructor. eapply Forall3_Forall2_lm; [done|]. naive_solver.
    + simpl. apply (try_zip_back _ (λ decoded, Ok (VTuple decoded))).
      apply Forall3_rotate in Hrs. eapply Forall3_impl; [done|]. naive_solver.
  - apply bind_Ok in E as (case & Hc%ok_or_Ok & E). apply bind_Ok in E as (b & Hb & [= <-]).
    apply match_payload_Ok in Hb. simpl. rewrite Hc. simpl.
    destruct Hb as [(-> & -> & ->)|(x & ty & b' & -> & -> & -> & Hf)]; simpl in *.
    + split; [|done]. econstructor; [done|constructor].
    + apply IH in Hf as [Hp ->]. split; [|done]. econstructor; [done|by constructor].
  - apply bind_Ok in E as (b & Hb & [= <-]). destruct value as [x|]; simplify_eq/=.
    + apply bind_Ok in Hb as (r & Hr & [= <-]). apply IH in Hr as [? Hr].
      simpl. rewrite Hr. split; [|done]. by constructor.
    + split; [constructor|done].
  - apply bind_Ok in E as (b & Hb & [= <-]). apply match_payload_Ok in Hb. simpl.
    destruct Hb as [(-> & Hn & ->)|(x & ty & b' & -> & Hs & -> & Hf)]; simpl in *.
    + split; [|by rewrite Hn]. constructor. rewrite Hn. constructor.
    + apply IH in Hf as [Hp Hf]. rewrite Hs, Hf. split; [|done]. constructor. rewrite Hs. by constructor.
Qed.

Lemma rpc_to_value_inv r : ∀ t v, rpc_to_value r t = Ok v → value_to_rpc v t = Ok r.
Proof.
  induction r as [r Hr|items IH|fields IH|items IH|name value IH|value IH|is_ok value IH]
    using RpcValue_nested_ind; intros t v E.
  { destruct r, t; simplify_eq/=; try done; inv_ok; simpl.
    - by rewrite bool_decide_true by by eapply bool_decide_eq_true.
    - match goal with Hc : check_flags _ _ = _ |- _ => by rewrite Hc end. }
  all: destruct t; try done; simpl in E.
  - apply bind_Ok in E as (vs & Hvs%try_map_Ok & [= <-]). simpl.
    assert (try_map (λ item, value_to_rpc item t) vs = Ok items) as ->; [|done].
    apply try_map_Ok, Forall2_flip. by eapply Forall_Forall2_impl; [done..|eauto].
  - apply bind_Ok in E as (u & Hl & E). apply bind_Ok in E as (vs & Hvs & [= <-]).
    eapply try_zip_len in Hvs; [|done]. simpl.
    apply (try_zip_back _ (λ encoded, Ok (RpcRecord encoded))), (Forall3_rotate (λ r e f, _)).
    eapply Forall_Forall3_impl; [done..|]. intros r e f Hz (? & ? & ?)%match_field_Ok.
    apply match_field_Ok. split_and!; [congruence..|eauto].
  - apply bind_Ok in E as (u & Hl & E). apply bind_Ok in E as (vs & Hvs & [= <-]).
    eapply try_zip_len in Hvs; [|done]. simpl.
    apply (try_zip_back _ (λ encoded, Ok (RpcTuple encoded))), (Forall3_rotate (λ r e f, _)).
    eapply Forall_Forall3_impl; [done..|]. eauto.
  - apply bind_Ok in E as (case & Hc%ok_or_Ok & E). apply bind_Ok in E as (b & Hb & [= <-]).
    apply match_payload_Ok in Hb. simpl. rewrite Hc. simpl.
    destruct Hb as [(-> & -> & ->)|(x & ty & b' & -> & -> & -> & Hf)]; simpl in *; [done|].
    by rewrite (IH _ _ Hf).
  - apply bind_Ok in E as (b & Hb & [= <-]). destruct value as [x|]; simplify_eq/=; [|done].
    apply bind_Ok in Hb as (r & Hr & [= <-]). simpl. by rewrite (IH _ _ Hr).
  - apply bind_Ok in E as (b & Hb & [= <-]). apply match_payload_Ok in Hb. simpl.
    destruct Hb as [(-> & Hn & ->)|(x & ty & b' & -> & Hs & -> & Hf)]; simpl in *.
    + by rewrite Hn.
    + by rewrite Hs, (IH _ _ Hf).
Qed.

(** What a value on the wire stands for, whatever the type it is read at. *)
Fixpoint meant (r : RpcValue) : Val H :=
  match r with
  | RpcBool v => VBool v
  | RpcS8 v => VS8 v | RpcU8 v => VU8 v | RpcS16 v => VS16 v | RpcU16 v => VU16 v
  | RpcS32 v => VS32 v | RpcU32 v => VU32 v | RpcS64 v => VS64 v | RpcU64 v => VU64 v
  | RpcFloat32 v => VFloat32 v | RpcFloat64 v => VFloat64 v
  | RpcChar v => VChar v
  | RpcString v => VString v
  | RpcList items => VList (meant <$> items)
  | RpcRecord fields => VRecord ((λ f, (f.1, meant f.2)) <$> fields)
  | RpcTuple items => VTuple (meant <$> items)
  | RpcVariant name value => VVariant name (meant <$> value)
  | RpcEnum name => VEnum name
  | RpcOption value => VOption (meant <$> value)
  | RpcResult is_ok value => VResult is_ok (meant <$> value)
  | RpcFlags names => VFlags names
  end.

Lemma Forall2_mapped {A B} (f : A → B) l k : Forall2 (λ x y, y = f x) l k → k = f <$> l.
Proof. induction 1; simpl; by subst. Qed.
Lemma Forall3_mapped {A B C} (f : A → C) l (k : list B) m :
  Forall3 (λ x _ z, z = f x) l k m → m = f <$> l.
Proof. induction 1; simpl; by subst. Qed.

Lemma rpc_to_value_meant r : ∀ t v, rpc_to_value r t = Ok v → v = meant r.
Proof.
  induction r as [r Hr|items IH|fields IH|items IH|name value IH|value IH|is_ok value IH]
    using RpcValue_nested_ind; intros t v E.
  { destruct r, t; simplify_eq/=; try done; by inv_ok. }
  all: destruct t; try done; simpl in E.
  - apply bind_Ok in E as (vs & Hvs%try_map_Ok & [= <-]). simpl. f_equal.
    eapply Forall2_mapped, Forall_Forall2_impl; [done..|]. intros x y Hx Hy. exact (Hx _ _ Hy).
  - apply bind_Ok in E as (u & Hl & E). apply bind_Ok in E as (vs & Hvs & [= <-]).
    eapply try_zip_len in Hvs; [|done]. simpl. f_equal. eapply Forall3_mapped, Forall_Forall3_impl;
      [done..|]. intros r e [n x] Hz (_ & Hn & Hx)%match_field_Ok. simpl in *. f_equal; eauto.
  - apply bind_Ok in E as (u & Hl & E). apply bind_Ok in E as (vs & Hvs & [= <-]).
    eapply try_zip_len in Hvs; [|done]. simpl. f_equal.
    eapply Forall3_mapped, Forall_Forall3_impl; [done..|]. intros x y z Hx Hy. exact (Hx _ _ Hy).
  - apply bind_Ok in E as (case & _ & E). apply bind_Ok in E as (b & Hb & [= <-]).
    apply match_payload_Ok in Hb as [(-> & _ & ->)|(x & ty & b' & -> & _ & -> & Hf)]; simpl in *; [done|].
    by rewrite (IH _ _ Hf).
  - apply bind_Ok in E as (b & Hb & [= <-]). destruct value as [x|]; simplify_eq/=; [|done].
    apply bind_Ok in Hb as (r & Hr & [= <-]). by rewrite (IH _ _ Hr).
  - apply bind_Ok in E as (b & Hb & [= <-]).
    apply match_payload_Ok in Hb as [(-> & _ & ->)|(x & ty & b' & -> & _ & -> & Hf)]; simpl in *; [done|].
    by rewrite (IH _ _ Hf).
Qed.

Lemma mapped_inj {A B} (f : A → B) l :
  Forall (λ x, ∀ y, f x = f y → x = y) l → ∀ k, f <$> l = f <$> k → l = k.
Proof.
  induction 1 as [|x l Hx _ IH]; intros [|y k]; simpl; [done..|]. intros [= E%Hx Ek%IH]. by subst.
Qed.
Lemma opt_mapped_inj {A B} (f : A → B) (o : option A) :
  on_option (λ x, ∀ y, f x = f y → x = y) o → ∀ o', f <$> o = f <$> o' → o = o'.
Proof. destruct o; intros Hx [y|]; simpl in *; try done. intros [= E%Hx]. by subst. Qed.

Lemma meant_inj r : ∀ r', meant r = meant r' → r = r'.
Proof.
  induction r as [r Hr|items IH|fields IH|items IH|name value IH|value IH|is_ok value IH]
    using RpcValue_nested_ind; intros r' E.
  { destruct r, r'; by simplify_eq/=. }
  all: destruct r'; simpl in E; try done; injection E; clear E; intros; subst; f_equal;
    first [by eapply mapped_inj|by eapply opt_mapped_inj|idtac].
  eapply mapped_inj; [|done]. eapply Forall_impl; [exact IH|].
  intros [n x] Hx [m y]; simpl in *. intros [= -> E']. by rewrite (Hx _ E').
Qed.

Lemma plain_encodes v : ∀ t, plain v t → ∃ r, value_to_rpc v t = Ok r.
Proof.
  induction v as [v Hv|items IH|fields IH|items IH|name value IH|value IH|is_ok value IH]
    using Val_nested_ind; intros t Hp; inversion Hp as [| | | | | | | | | | | | |?? Hi|?? Hf|?? Hi
    |???? Hc Ho|?? Hn| |?? Hs|???? Ho|?? Hn|]; simplify_eq/=; try done; eauto.
  - rewrite bool_decide_true by done. eauto.
  - apply check_flags_Ok with (u := tt) in Hn. rewrite Hn. eauto.
  - assert (Forall (λ x, ∃ r, value_to_rpc x t0 = Ok r) items) as [rs Hrs%try_map_Ok]%Forall_choose.
    { eapply Forall_impl; [apply Forall_and; split; [exact IH|exact Hi]|]. naive_solver. }
    rewrite Hrs. simpl. eauto.
  - eapply (Forall_Forall2_impl _ _ (λ f e, ∃ z, match_field (λ v t, value_to_rpc v t) f e = Ok z))
      in Hf; [|exact IH|].
    { apply Forall2_choose in Hf as [rs Hrs].
      erewrite (try_zip_back _ (λ encoded, Ok (RpcRecord encoded))); eauto. }
    intros f e Hx [E Ht]. destruct (Hx _ Ht) as [r Hr]. exists (f.1, r). by apply match_field_Ok.
  - eapply Forall_Forall2_impl in Hi; [|exact IH|intros x ty Hx Ht; exact (Hx _ Ht)].
    apply Forall2_choose in Hi as [rs Hrs].
    erewrite (try_zip_back _ (λ encoded, Ok (RpcTuple encoded))); eauto.
  - rewrite Hc. simpl. destruct Ho as [x ty Hx|]; simpl; [|by eauto].
    destruct (IH _ Hx) as [r ->]. simpl. eauto.
  - destruct (IH _ Hs) as [r ->]. simpl. eauto.
  - destruct Ho as [x ty Hx|]; simpl; [|by eauto]. destruct (IH _ Hx) as [r ->]. simpl. eauto.
Qed.

End roundtrip.

Section theorem.
Context {R H : Type} `{PayloadCborLaws}.

Lemma encode_payload_Ok (values : list (Val H)) (tys : list (Ty R)) payload :
  encode_payload_values values tys = Ok payload ↔
  ∃ encoded, Forall3 (λ v t r, value_to_rpc v t = Ok r) values tys encoded ∧
    payload_to_cbor encoded = Ok payload.
Proof.
  unfold encode_payload_values. split.
  - intros E. apply bind_Ok in E as (u & Hl & E). apply bind_Ok in E as (encoded & Hz & E).
    exists encoded. split; [by eapply try_zip_len|by apply map_err_Ok in E].
  - intros (encoded & Hf & Hc). erewrite (try_zip_back _ (λ encoded, map_err _ (payload_to_cbor encoded)))
      by done. by apply map_err_Ok.
Qed.

Lemma encode_payload_decodes (values : list (Val H)) (tys : list (Ty R)) payload :
  encode_payload_values values tys = Ok payload →
  Forall2 plain values tys ∧ decode_payload_values payload tys = Ok values.
Proof.
  intros (encoded & Hf & Hc)%encode_payload_Ok.
  eapply Forall3_impl in Hf; [|exact (λ v t r Hr, value_to_rpc_inv v t r Hr)].
  split; [eapply Forall3_Forall2_lm; [done|naive_solver]|].
  unfold decode_payload_values. rewrite (payload_from_to _ _ Hc). simpl.
  apply Forall3_rotate in Hf. destruct (Forall3_lengths _ _ _ _ Hf) as [Hl _].
  rewrite bool_decide_true by done. apply try_zip_Ok; [done|]. eapply Forall3_impl; [done|naive_solver].
Qed.

Lemma decode_payload_Ok payload (tys : list (Ty R)) (values : list (Val H)) :
  decode_payload_values payload tys = Ok values →
  ∃ encoded, payload_from_cbor payload = Ok encoded ∧ values = meant <$> encoded ∧
    Forall2 plain values tys.
Proof.
  unfold decode_payload_values. intros (encoded & Hf%map_err_Ok & E)%bind_Ok.
  apply bind_Ok in E as (u & Hl & Hz). eapply try_zip_len in Hz; [|done].
  exists encoded. split_and!; [done| |].
  - eapply Forall3_mapped, Forall3_impl; [done|]. intros r t v Hv. exact (rpc_to_value_meant _ _ _ Hv).
  - apply Forall3_rotate in Hz. eapply Forall3_Forall2_lm; [done|].
    intros v t r Hv%rpc_to_value_inv%value_to_rpc_inv. apply Hv.
Qed.

(** A payload stands for the same values whatever the types it was written and is read with. *)
Lemma payload_same_values (values values' : list (Val H)) (tys tys' : list (Ty R)) payload :
  encode_payload_values values tys = Ok payload →
  decode_payload_values payload tys' = Ok values' → values' = values.
Proof.
  intros [_ (e & He & -> & _)%decode_payload_Ok]%encode_payload_decodes
    (e' & He' & -> & _)%decode_payload_Ok. congruence.
Qed.

Lemma payload_read_back (values : list (Val H)) (tys tys' : list (Ty R)) payload :
  encode_payload_values values tys = Ok payload → Forall2 plain values tys' →
  decode_payload_values payload tys' = Ok values.
Proof.
  intros [_ (e & He & Hv & _)%decode_payload_Ok]%encode_payload_decodes Hp.
  eapply (Forall2_impl _ (λ v t, ∃ r, value_to_rpc v t = Ok r)) in Hp; [|intros; by apply plain_encodes].
  apply Forall2_choose in Hp as [e' Hz].
  eapply Forall3_impl in Hz; [|exact (λ v t r Hr, proj2 (value_to_rpc_inv v t r Hr))].
  apply Forall3_rotate in Hz.
  assert (values = meant <$> e') as Hv'.
  { eapply Forall3_mapped, Forall3_impl; [done|]. intros r t v Hr. exact (rpc_to_value_meant _ _ _ Hr). }
  assert (e = e') as <-.
  { rewrite Hv in Hv'. eapply mapped_inj; [|done]. apply Forall_true. intros r. apply meant_inj. }
  unfold decode_payload_values. rewrite He. simpl. destruct (Forall3_lengths _ _ _ _ Hz) as [Hl _].
  rewrite bool_decide_true by done. by apply try_zip_Ok.
Qed.

(** A type that has values without resources has a placeholder. *)
Lemma plain_placeholder (v : Val H) (t : Ty R) :
  plain v t → ∃ p : Val H, placeholder_for_type t = Ok p.
Proof.
  intros Hp. destruct Hp as [| | | | | | | | | | | | | | | |? ? cases ? Hc ?|? names Hn| | | | |? ? []];
    try (by eexists).
  - destruct cases; [done|]. by eexists.
  - destruct names; [by apply elem_of_nil in Hn|]. by eexists.
Qed.
Lemma plain_placeholders (values : list (Val H)) (tys : list (Ty R)) :
  Forall2 plain values tys → ∃ ps : list (Val H), placeholder_values tys = Ok ps.
Proof.
  intros Hp. unfold placeholder_values.
  assert (Forall (λ t, ∃ p : Val H, placeholder_for_type t = Ok p) tys) as [ps Hps]%Forall_choose.
  { eapply Forall2_Forall_r; [exact Hp|]. apply Forall_true. intros t v. apply plain_placeholder. }
  exists ps. by apply try_map_Ok.
Qed.

(** C35 (roundtrip).  The payload of a remote call.  What was encoded against a signature is
    well typed, holds no resource, and decodes to the same values; what is decoded is well
    typed whatever the peer sent; and every well-typed list of values without resources is
    encoded, unless the CBOR encoder itself fails. *)
Theorem rpc_payload_roundtrip (values : list (Val H)) (tys : list (Ty R)) (payload : list byte) :
  (encode_payload_values values tys = Ok payload →
   Forall2 plain values tys ∧ decode_payload_values payload tys = Ok values) ∧
  (decode_payload_values payload tys = Ok values → Forall2 plain values tys) ∧
  (Forall2 plain values tys → ∃ encoded,
     encode_payload_values values tys =
       map_err (λ err, map_runtime_error ("rpc payload encode failed: " +:+ err))
         (payload_to_cbor encoded)).
Proof.
  split_and!.
  - apply encode_payload_decodes.
  - intros E. apply bind_Ok in E as (encoded & _ & E). apply bind_Ok in E as (u & Hl & E).
    eapply try_zip_len in E; [|done]. apply Forall3_rotate in E.
    eapply Forall3_Forall2_lm; [done|]. intros v t r Hr%rpc_to_value_inv. by eapply value_to_rpc_inv.
  - intros Hp. eapply Forall2_impl in Hp; [|exact (λ v t Ht, plain_encodes v t Ht)].
    apply Forall2_choose in Hp as [encoded Hf]. exists encoded.
    by apply (try_zip_back _ (λ encoded, map_err _ (payload_to_cbor encoded))).
Qed.
End theorem.

(** ** Example *)

Module PayloadDemo.

(** Lists of optional booleans, one byte each. *)
Definition cbor_item (r : RpcValue) : result string byte :=
  match r with
  | RpcOption None => Ok "n"%char
  | RpcOption (Some (RpcBool b)) => Ok (if b then "t"%char else "f"%char)
  | _ => Err "unsupported"
  end.
Definition item_cbor (c : byte) : result string RpcValue :=
  if bool_decide (c = "n"%char) then Ok (RpcOption None)
  else if bool_decide (c = "t"%char) then Ok (RpcOption (Some (RpcBool true)))
  else if bool_decide (c = "f"%char) then Ok (RpcOption (Some (RpcBool false)))
  else Err "invalid".
#[export] Instance cbor : PayloadCbor :=
  {| payload_to_cbor := try_map cbor_item; payload_from_cbor := try_map item_cbor |}.
#[export] Instance cbor_laws : PayloadCborLaws.
Proof.
  split. intros values payload E%try_map_Ok. apply try_map_Ok, Forall2_flip.
  eapply Forall2_impl; [done|]. intros r c Hr.
  destruct r as [| | | | | | | | | | | | | | | | | |[[[]| | | | | | | | | | | | | | | | | | | |]|]| |];
    simplify_eq/=; reflexivity.
Qed.

Definition values : list (Val unit) := [VOption (Some (VBool true)); VOption None].
Definition types : list (Ty unit) := [TOption TBool; TOption TBool].

Lemma rpc_payload_roundtrip_witness :
  encode_payload_values values types = Ok (bytes_of "tn") ∧
  Forall2 plain values types ∧ decode_payload_values (bytes_of "tn") types = Ok values.
Proof.
  split; [reflexivity|]. by apply (rpc_payload_roundtrip values types (bytes_of "tn")).
Defined.

End PayloadDemo.
