(* ===== verification/Bridge.v ===== *)
(** * Calls between plugin components

    The part of [imagod-runtime-wasmtime/src/plugin_resolver.rs] that connects an import of one
    component to an export of another: the comparison of signatures, and the translation of
    values in both directions.  Resources do not cross: the caller holds a host handle and the
    resource of the callee is kept in a table ([WasmDependencyResourceState] of [lib.rs]).

    Handles and resource types belong to the engine and are parameters; [wrap_own] and
    [unwrap_dynamic] are [ResourceDynamic::new_own(..).try_into_resource_any] and
    [ResourceDynamic::try_from_resource_any].

    Shown: signatures match exactly when they differ in paired resource types only; a resource
    returned by a component and handed back to it is the same resource, and the table ends as
    it began; a handle of one resource type is never accepted for another. *)

From S2P Require Import Prelude Protocol Text Component.

Open Scope Z_scope.

Definition u32_max : Z := 2 ^ 32 - 1.

(** ** The table of bridged resources *)

Record WasmDependencyResourceKey := {
  key_dependency_name : string;
  key_interface_name : string;
  key_resource_name : string;
}.

#[export] Instance key_eq_dec : EqDecision WasmDependencyResourceKey.
Proof. solve_decision. Defined.
#[export] Instance key_countable : Countable WasmDependencyResourceKey.
Proof.
  refine (inj_countable'
    (λ k, (key_dependency_name k, key_interface_name k, key_resource_name k))
    (λ '(d, i, r), {| key_dependency_name := d; key_interface_name := i; key_resource_name := r |}) _).
  by intros [].
Defined.

Record StoredWasmDependencyResource (H : Type) := { stored_type_id : Z; stored_resource : H }.
Arguments stored_type_id {H}.
Arguments stored_resource {H}.

Record WasmDependencyResourceState (H : Type) := {
  next_type_id : Z;
  next_rep : Z;
  wr_types : gmap WasmDependencyResourceKey Z;
  wr_resources : gmap Z (StoredWasmDependencyResource H);
}.
Arguments next_type_id {H}.
Arguments next_rep {H}.
Arguments wr_types {H}.
Arguments wr_resources {H}.

Section table.
Context {H : Type}.
Implicit Types s : WasmDependencyResourceState H.

Definition default_resource_state : WasmDependencyResourceState H :=
  {| next_type_id := 1; next_rep := 1; wr_types := ∅; wr_resources := ∅ |}.

(** [None] is the panic of [expect]. *)
Definition type_id_for (key : WasmDependencyResourceKey) s
    : option (WasmDependencyResourceState H * Z) :=
  match wr_types s !! key with
  | Some type_id => Some (s, type_id)
  | None =>
    let type_id := next_type_id s in
    if type_id + 1 <=? u32_max then
      Some ({| next_type_id := type_id + 1; next_rep := next_rep s;
               wr_types := <[key := type_id]> (wr_types s); wr_resources := wr_resources s |},
            type_id)
    else None
  end.

Definition with_resources (m : gmap Z (StoredWasmDependencyResource H)) s :
    WasmDependencyResourceState H :=
  {| next_type_id := next_type_id s; next_rep := next_rep s; wr_types := wr_types s;
     wr_resources := m |}.

Definition insert_resource (type_id : Z) (resource : H) s
    : WasmDependencyResourceState H * iresult Z :=
  let rep := next_rep s in
  if rep + 1 <=? u32_max then
    ({| next_type_id := next_type_id s; next_rep := rep + 1; wr_types := wr_types s;
        wr_resources := <[rep := {| stored_type_id := type_id; stored_resource := resource |}]>
                          (wr_resources s) |},
     Ok rep)
  else (s, Err (map_runtime_error "wasm dependency resource ids exhausted")).

Definition resource (rep : Z) s : option (StoredWasmDependencyResource H) := wr_resources s !! rep.

Definition remove_resource (rep : Z) s
    : WasmDependencyResourceState H * option (StoredWasmDependencyResource H) :=
  (with_resources (delete rep (wr_resources s)) s, wr_resources s !! rep).

End table.

(** ** Signatures *)

Record DependencyResourceBinding (R : Type) := {
  import_resource : R;
  callee_resource : R;
  host_dynamic_type_id : Z;
  rb_resource_name : string;
}.
Arguments import_resource {R}.
Arguments callee_resource {R}.
Arguments host_dynamic_type_id {R}.
Arguments rb_resource_name {R}.

(** [import.len() == callee.len() && zip.all(f)]. *)
Definition all2 {A B} (f : A → B → bool) : list A → list B → bool :=
  fix go xs ys :=
    match xs, ys with
    | [], [] => true
    | x :: xs, y :: ys => f x y && go xs ys
    | _, _ => false
    end.

Section signatures.
Context {R : Type} `{EqDecision R}.
Implicit Types bindings : option (list (DependencyResourceBinding R)).

Definition dependency_resource_types_match bindings (import callee : R) : bool :=
  bool_decide (import = callee) ||
  match bindings with
  | Some bindings => existsb (λ b, bool_decide (import_resource b = import) &&
                                   bool_decide (callee_resource b = callee)) bindings
  | None => false
  end.

Definition option_types_match (f : Ty R → Ty R → bool) (import callee : option (Ty R)) : bool :=
  match import, callee with
  | Some import, Some callee => f import callee
  | None, None => true
  | _, _ => false
  end.

Fixpoint component_types_match bindings (import callee : Ty R) : bool :=
  match import, callee with
  | TBool, TBool | TS8, TS8 | TU8, TU8 | TS16, TS16 | TU16, TU16 | TS32, TS32 | TU32, TU32
  | TS64, TS64 | TU64, TU64 | TFloat32, TFloat32 | TFloat64, TFloat64 | TChar, TChar
  | TString, TString | TErrorContext, TErrorContext => true
  | TOwn import, TOwn callee | TBorrow import, TBorrow callee =>
    dependency_resource_types_match bindings import callee
  | TList import, TList callee => component_types_match bindings import callee
  | TRecord import, TRecord callee =>
    all2 (λ '(n, t) '(n', t'), bool_decide (n = n') && component_types_match bindings t t')
      import callee
  | TTuple import, TTuple callee => all2 (λ t t', component_types_match bindings t t') import callee
  | TVariant import, TVariant callee =>
    all2 (λ '(n, t) '(n', t'), bool_decide (n = n') &&
           option_types_match (λ t t', component_types_match bindings t t') t t')
      import callee
  | TEnum import, TEnum callee => bool_decide (import = callee)
  | TOption import, TOption callee => component_types_match bindings import callee
  | TResult ok err, TResult ok' err' =>
    option_types_match (λ t t', component_types_match bindings t t') ok ok' &&
    option_types_match (λ t t', component_types_match bindings t t') err err'
  | TFlags import, TFlags callee => bool_decide (import = callee)
  | TFuture import, TFuture callee | TStream import, TStream callee =>
    option_types_match (λ t t', component_types_match bindings t t') import callee
  | _, _ => false
  end.

(** A function type: the types of the parameters and of the results. *)
Record ComponentFunc := { fn_params : list (Ty R); fn_results : list (Ty R) }.

Definition signature_mismatch (interface_name function_name what : string) : ImagodError :=
  map_runtime_error ("plugin import type mismatch for '" +:+ interface_name +:+ "." +:+
    function_name +:+ "': " +:+ what +:+ " types differ").

Definition ensure_component_signatures_match (import_ty callee_ty : ComponentFunc)
    (interface_name function_name : string) bindings : iresult unit :=
  _ ← ensure (all2 (component_types_match bindings) (fn_params import_ty) (fn_params callee_ty))
        (signature_mismatch interface_name function_name "parameter");
  ensure (all2 (component_types_match bindings) (fn_results import_ty) (fn_results callee_ty))
    (signature_mismatch interface_name function_name "result").

End signatures.
Arguments ComponentFunc R : clear implicits.

(** ** Values *)

(** The handles of the engine.  [unwrap_dynamic] says which resource a valid handle stands for;
    the engine's own table of handles, from which unwrapping an owned one also takes it, is not
    part of the model. *)
Class ResourceHandles (H : Type) := {
  wrap_own : Z → Z → result string H;
  unwrap_dynamic : H → result string (Z * Z);
}.
Class ResourceHandlesLaws (H : Type) `{ResourceHandles H} : Prop := {
  unwrap_wrap rep ty h : wrap_own rep ty = Ok h → unwrap_dynamic h = Ok (rep, ty);
}.

(** Programs over the table, which keeps its changes when an error is returned. *)
Definition bridge (H A : Type) : Type :=
  WasmDependencyResourceState H → WasmDependencyResourceState H * iresult A.
#[export] Instance bridge_ret {H} : MRet (bridge H) := λ A a s, (s, Ok a).
#[export] Instance bridge_bind {H} : MBind (bridge H) := λ A B f m s,
  let '(s, r) := m s in
  match r with Ok a => f a s | Err e => (s, Err e) end.
Definition lift_result {H A} (r : iresult A) : bridge H A := λ s, (s, r).

Definition bridge_map {H A B} (f : A → bridge H B) : list A → bridge H (list B) :=
  fix go l :=
    match l with
    | [] => mret []
    | x :: l => y ← f x; ys ← go l; mret (y :: ys)
    end.
Definition bridge_zip {H A B C} (f : A → B → bridge H C) : list A → list B → bridge H (list C) :=
  fix go xs ys {struct xs} :=
    match xs, ys with
    | x :: xs, y :: ys => z ← f x y; zs ← go xs ys; mret (z :: zs)
    | _, _ => mret []
    end.

Section values.
Context {R H : Type} `{EqDecision R} `{ResourceHandles H}.
Implicit Types bindings : list (DependencyResourceBinding R).

Definition dependency_resource_binding bindings (resource_ty : R)
    : iresult (DependencyResourceBinding R) :=
  ok_or (find (λ b, bool_decide (import_resource b = resource_ty)) bindings)
    (map_runtime_error "missing bridged wasm dependency resource binding").

Definition unexpected_host_type (binding : DependencyResourceBinding R) (seen : Z) : ImagodError :=
  map_runtime_error ("bridged dependency resource '" +:+ rb_resource_name binding +:+
    "' expected host type " +:+ to_string (host_dynamic_type_id binding) +:+ " but saw " +:+
    to_string seen).
Definition missing_resource (binding : DependencyResourceBinding R) (rep : Z) : ImagodError :=
  map_runtime_error ("missing bridged dependency resource '" +:+ rb_resource_name binding +:+
    "' rep=" +:+ to_string rep).

Definition stored_for (binding : DependencyResourceBinding R) (rep : Z) (take_ownership : bool)
    : bridge H (StoredWasmDependencyResource H) := λ s,
  let '(s, stored) := if take_ownership then remove_resource rep s else (s, resource rep s) in
  (s, ok_or stored (missing_resource binding rep)).

Definition map_resource_to_wasm_dependency bindings (handle : H) (resource_ty : R)
    (take_ownership : bool) : bridge H (Val H) :=
  binding ← lift_result (dependency_resource_binding bindings resource_ty);
  dynamic ← lift_result
    (map_err (λ e, map_runtime_error ("failed to unwrap bridged dependency resource: " +:+ e))
       (unwrap_dynamic handle));
  let '(rep, ty) := dynamic in
  _ ← lift_result (ensure (ty =? host_dynamic_type_id binding) (unexpected_host_type binding ty));
  stored ← stored_for binding rep take_ownership;
  mret (VResource (stored_resource stored)).

Definition map_resource_from_wasm_dependency bindings (handle : H) (resource_ty : R)
    (is_owned : bool) : bridge H (Val H) :=
  _ ← lift_result (ensure is_owned (map_runtime_error
        "borrowed resource results are unsupported for wasm dependency bridge"));
  binding ← lift_result (dependency_resource_binding bindings resource_ty);
  rep ← (insert_resource (host_dynamic_type_id binding) handle : bridge H Z);
  bridged ← lift_result
    (map_err (λ e, map_runtime_error ("failed to wrap bridged dependency resource: " +:+ e))
       (wrap_own rep (host_dynamic_type_id binding)));
  mret (VResource bridged).

Definition bridge_count_mismatch (what : string) : ImagodError :=
  map_runtime_error (what +:+ " field count mismatch in wasm dependency bridge").

Definition bridge_field {A} (f : Val H → Ty R → bridge H A) (field : string * Val H)
    (expected : string * Ty R) : bridge H (string * A) :=
  let '(field_name, value) := field in
  let '(name, t) := expected in
  _ ← lift_result (ensure (bool_decide (field_name = name)) (map_runtime_error
        ("record field mismatch in wasm dependency bridge: expected '" +:+ name +:+ "', got '" +:+
         field_name +:+ "'")));
  r ← f value t;
  mret (field_name, r).

(** [map_optional_value_to_wasm_dependency] and its counterpart. *)
Definition map_optional_value {A} (f : A → Ty R → bridge H A) (value : option A)
    (ty : option (Ty R)) : bridge H (option A) :=
  match value, ty with
  | Some value, Some ty => r ← f value ty; mret (Some r)
  | None, _ => mret None
  | Some _, None =>
    lift_result (Err (map_runtime_error "unexpected optional payload in wasm dependency bridge"))
  end.

Section direction.
Context (on_resource : H → R → bool → bridge H (Val H)).

(** The two directions differ in what happens to a resource; the flag tells an owned
    handle. *)
Fixpoint map_value_wasm_dependency (value : Val H) (ty : Ty R) : bridge H (Val H) :=
  match ty, value with
  | (TBool | TS8 | TU8 | TS16 | TU16 | TS32 | TU32 | TS64 | TU64 | TFloat32 | TFloat64 | TChar
     | TString | TEnum _ | TFlags _ | TFuture _ | TStream _ | TErrorContext), _ => mret value
  | TList t, VList values =>
    mapped ← bridge_map (λ v, map_value_wasm_dependency v t) values;
    mret (VList mapped)
  | TRecord fields, VRecord values =>
    _ ← lift_result (ensure (bool_decide (length values = length fields))
          (bridge_count_mismatch "record"));
    mapped ← bridge_zip (bridge_field (λ v t, map_value_wasm_dependency v t)) values fields;
    mret (VRecord mapped)
  | TTuple types, VTuple values =>
    _ ← lift_result (ensure (bool_decide (length values = length types))
          (bridge_count_mismatch "tuple"));
    mapped ← bridge_zip (λ v t, map_value_wasm_dependency v t) values types;
    mret (VTuple mapped)
  | TVariant cases, VVariant case_name payload =>
    case_ty ← lift_result (ok_or (find_case case_name cases) (map_runtime_error
                ("variant case '" +:+ case_name +:+ "' is not defined in wasm dependency bridge")));
    mapped ← map_optional_value (λ v t, map_value_wasm_dependency v t) payload case_ty;
    mret (VVariant case_name mapped)
  | TOption t, VOption value =>
    mapped ← map_optional_value (λ v t, map_value_wasm_dependency v t) value (Some t);
    mret (VOption mapped)
  | TResult ok err, VResult is_ok value =>
    mapped ← map_optional_value (λ v t, map_value_wasm_dependency v t) value
               (if is_ok then ok else err);
    mret (VResult is_ok mapped)
  | TOwn resource_ty, VResource handle => on_resource handle resource_ty true
  | TBorrow resource_ty, VResource handle => on_resource handle resource_ty false
  | _, _ =>
    lift_result (Err (map_runtime_error "unsupported value/type pair in wasm dependency bridge"))
  end.
End direction.

Definition map_value_to_wasm_dependency bindings (value : Val H) (ty : Ty R) : bridge H (Val H) :=
  map_value_wasm_dependency (map_resource_to_wasm_dependency bindings) value ty.
Definition map_value_from_wasm_dependency bindings (value : Val H) (ty : Ty R) : bridge H (Val H) :=
  map_value_wasm_dependency (map_resource_from_wasm_dependency bindings) value ty.

End values.

(** ** Signatures match up to paired resources *)

Section ty_ind.
Context {R : Type} (P : Ty R → Prop).
Hypothesis on_scalar : ∀ t,
  match t with
  | TList _ | TRecord _ | TTuple _ | TVariant _ | TOption _ | TResult _ _ | TFuture _ | TStream _ =>
    False
  | _ => True
  end → P t.
Hypothesis on_list : ∀ t, P t → P (TList t).
Hypothesis on_record : ∀ fields, Forall (λ f, P f.2) fields → P (TRecord fields).
Hypothesis on_tuple : ∀ types, Forall P types → P (TTuple types).
Hypothesis on_variant : ∀ cases, Forall (λ c, on_option P c.2) cases → P (TVariant cases).
Hypothesis on_opt : ∀ t, P t → P (TOption t).
Hypothesis on_result : ∀ ok err, on_option P ok → on_option P err → P (TResult ok err).
Hypothesis on_future : ∀ t, on_option P t → P (TFuture t).
Hypothesis on_stream : ∀ t, on_option P t → P (TStream t).

Fixpoint Ty_nested_ind (t : Ty R) : P t :=
  let all := fix all (l : list (Ty R)) : Forall P l :=
    match l with
    | [] => Forall_nil_2 _
    | x :: l => Forall_cons_2 _ _ _ (Ty_nested_ind x) (all l)
    end in
  let fields := fix fields (l : list (string * Ty R)) : Forall (λ f, P f.2) l :=
    match l with
    | [] => Forall_nil_2 _
    | (_, x) as f :: l => Forall_cons_2 (λ f, P f.2) f l (Ty_nested_ind x) (fields l)
    end in
  let opt := λ o : option (Ty R),
    match o as o return on_option P o with Some x => Ty_nested_ind x | None => I end in
  let cases := fix cases (l : list (string * option (Ty R))) : Forall (λ c, on_option P c.2) l :=
    match l with
    | [] => Forall_nil_2 _
    | (_, o) as c :: l => Forall_cons_2 (λ c, on_option P c.2) c l (opt o) (cases l)
    end in
  match t with
  | TList t => on_list t (Ty_nested_ind t)
  | TRecord l => on_record l (fields l)
  | TTuple l => on_tuple l (all l)
  | TVariant l => on_variant l (cases l)
  | TOption t => on_opt t (Ty_nested_ind t)
  | TResult ok err => on_result ok err (opt ok) (opt err)
  | TFuture t => on_future t (opt t)
  | TStream t => on_stream t (opt t)
  | TBool => on_scalar TBool I | TS8 => on_scalar TS8 I | TU8 => on_scalar TU8 I
  | TS16 => on_scalar TS16 I | TU16 => on_scalar TU16 I | TS32 => on_scalar TS32 I
  | TU32 => on_scalar TU32 I | TS64 => on_scalar TS64 I | TU64 => on_scalar TU64 I
  | TFloat32 => on_scalar TFloat32 I | TFloat64 => on_scalar TFloat64 I
  | TChar => on_scalar TChar I | TString => on_scalar TString I
  | TErrorContext => on_scalar TErrorContext I
  | TOwn r => on_scalar (TOwn r) I | TBorrow r => on_scalar (TBorrow r) I
  | TEnum names => on_scalar (TEnum names) I | TFlags names => on_scalar (TFlags names) I
  end.
End ty_ind.

(** Two types of the same shape whose resources are related. *)
Inductive ty_rel {R} (rel : R → R → Prop) : Ty R → Ty R → Prop :=
  | tr_scalar t : match t with
      | TOwn _ | TBorrow _ | TList _ | TRecord _ | TTuple _ | TVariant _ | TOption _ | TResult _ _
      | TFuture _ | TStream _ => False
      | _ => True
      end → ty_rel rel t t
  | tr_own r r' : rel r r' → ty_rel rel (TOwn r) (TOwn r')
  | tr_borrow r r' : rel r r' → ty_rel rel (TBorrow r) (TBorrow r')
  | tr_list t t' : ty_rel rel t t' → ty_rel rel (TList t) (TList t')
  | tr_record fs fs' :
      Forall2 (λ f f', f.1 = f'.1 ∧ ty_rel rel f.2 f'.2) fs fs' →
      ty_rel rel (TRecord fs) (TRecord fs')
  | tr_tuple ts ts' : Forall2 (ty_rel rel) ts ts' → ty_rel rel (TTuple ts) (TTuple ts')
  | tr_variant cs cs' :
      Forall2 (λ c c', c.1 = c'.1 ∧ option_Forall2 (ty_rel rel) c.2 c'.2) cs cs' →
      ty_rel rel (TVariant cs) (TVariant cs')
  | tr_option t t' : ty_rel rel t t' → ty_rel rel (TOption t) (TOption t')
  | tr_result ok ok' err err' :
      option_Forall2 (ty_rel rel) ok ok' → option_Forall2 (ty_rel rel) err err' →
      ty_rel rel (TResult ok err) (TResult ok' err')
  | tr_future t t' : option_Forall2 (ty_rel rel) t t' → ty_rel rel (TFuture t) (TFuture t')
  | tr_stream t t' : option_Forall2 (ty_rel rel) t t' → ty_rel rel (TStream t) (TStream t').

Lemma all2_Forall2 {A B} (f : A → B → bool) (Q : A → B → Prop) l :
  Forall (λ x, ∀ y, f x y = true ↔ Q x y) l →
  ∀ k, all2 f l k = true ↔ Forall2 Q l k.
Proof.
  induction 1 as [|x l Hx _ IH]; intros [|y k]; simpl; try (split; [done|by inversion 1]).
  rewrite andb_true_iff, Hx, IH, Forall2_cons. done.
Qed.

Lemma option_types_match_true {R} (f : Ty R → Ty R → bool) (Q : Ty R → Ty R → Prop) o :
  on_option (λ t, ∀ t', f t t' = true ↔ Q t t') o →
  ∀ o', option_types_match f o o' = true ↔ option_Forall2 Q o o'.
Proof.
  intros Ho [t'|]; destruct o as [t|]; simpl in *; [rewrite (Ho t')| | |];
    split; try done; try (by inversion 1); by constructor.
Qed.

Lemma Forall2_pointwise_eq {A} (Q : A → A → Prop) l :
  Forall (λ x, ∀ y, Q x y ↔ x = y) l → ∀ k, Forall2 Q l k ↔ l = k.
Proof.
  induction 1 as [|x l Hx _ IH]; intros [|y k]; try (split; [by inversion 1|done]).
  rewrite Forall2_cons, Hx, IH. naive_solver.
Qed.

Lemma option_pointwise_eq {A} (Q : A → A → Prop) o o' :
  on_option (λ x, ∀ y, Q x y ↔ x = y) o → option_Forall2 Q o o' ↔ o = o'.
Proof.
  intros Ho. destruct o as [x|], o' as [y|]; simpl in Ho.
  - split; [inversion 1; subst; f_equal; by apply Ho|].
    intros [= <-]. constructor. by apply Ho.
  - split; by inversion 1.
  - split; by inversion 1.
  - split; [done|constructor].
Qed.

Section match_exact.
Context {R : Type} `{EqDecision R}.
Implicit Types bindings : option (list (DependencyResourceBinding R)).

(** Equal resource types, or paired by a binding. *)
Definition paired bindings (r r' : R) : Prop :=
  r = r' ∨ ∃ bs b, bindings = Some bs ∧ b ∈ bs ∧ import_resource b = r ∧ callee_resource b = r'.

Lemma resource_types_match_true bindings r r' :
  dependency_resource_types_match bindings r r' = true ↔ paired bindings r r'.
Proof.
  unfold dependency_resource_types_match, paired. rewrite orb_true_iff, bool_decide_eq_true.
  destruct bindings as [bs|]; [|naive_solver]. rewrite existsb_exists.
  setoid_rewrite andb_true_iff. setoid_rewrite bool_decide_eq_true.
  setoid_rewrite <-list_elem_of_In. naive_solver.
Qed.

Lemma component_types_match_rel bindings a : ∀ b,
  component_types_match bindings a b = true ↔ ty_rel (paired bindings) a b.
Proof.
  induction a as [a Ha|t IH|fields IH|types IH|cases IH|t IH|ok err IHok IHerr|t IH|t IH]
    using Ty_nested_ind; intros b.
  { destruct a; try done; destruct b; simpl;
      rewrite ?resource_types_match_true, ?bool_decide_eq_true;
      (split; [intros E; try done; try subst; by constructor|by inversion 1]). }
  all: destruct b; simpl; try (split; [done|by inversion 1]).
  - rewrite IH. split; [by constructor|by inversion 1].
  - rewrite (all2_Forall2 _ (λ f f', f.1 = f'.1 ∧ ty_rel (paired bindings) f.2 f'.2)).
    { split; [by constructor|by inversion 1]. }
    eapply Forall_impl; [exact IH|]. intros [n t] Hf [n' t']. simpl in *.
    by rewrite andb_true_iff, bool_decide_eq_true, Hf.
  - rewrite (all2_Forall2 _ (ty_rel (paired bindings))) by done.
    split; [by constructor|by inversion 1].
  - rewrite (all2_Forall2 _ (λ c c', c.1 = c'.1 ∧ option_Forall2 (ty_rel (paired bindings)) c.2 c'.2)).
    { split; [by constructor|by inversion 1]. }
    eapply Forall_impl; [exact IH|]. intros [n t] Hf [n' t']. simpl in *.
    by rewrite andb_true_iff, bool_decide_eq_true, option_types_match_true by exact Hf.
  - rewrite IH. split; [by constructor|by inversion 1].
  - rewrite andb_true_iff, !option_types_match_true by done.
    split; [intros [? ?]; by constructor|by inversion 1].
  - rewrite option_types_match_true by done. split; [by constructor|by inversion 1].
  - rewrite option_types_match_true by done. split; [by constructor|by inversion 1].
Qed.

Lemma ty_rel_eq (rel : R → R → Prop) (Hrel : ∀ r r', rel r r' ↔ r = r') a : ∀ b,
  ty_rel rel a b ↔ a = b.
Proof.
  induction a as [a Ha|t IH|fields IH|types IH|cases IH|t IH|ok err IHok IHerr|t IH|t IH]
    using Ty_nested_ind; intros b.
  { split.
    - inversion 1; subst; try done; f_equal; by apply Hrel.
    - intros <-. destruct a; try done; constructor; by try apply Hrel. }
  all: split; [inversion 1; subst; try done; f_equal|].
  all: try (intros <-; first [apply tr_list|apply tr_record|apply tr_tuple|apply tr_variant
    |apply tr_option|apply tr_result|apply tr_future|apply tr_stream]).
  - by apply IH.
  - by apply IH.
  - eapply Forall2_pointwise_eq; [|done]. eapply Forall_impl; [exact IH|].
    intros [n t] Hf [n' t']. simpl in *. rewrite Hf. naive_solver.
  - eapply Forall2_pointwise_eq; [|done]. eapply Forall_impl; [exact IH|].
    intros [n t] Hf [n' t']. simpl in *. rewrite Hf. naive_solver.
  - by eapply Forall2_pointwise_eq.
  - by eapply Forall2_pointwise_eq.
  - eapply Forall2_pointwise_eq; [|done]. eapply Forall_impl; [exact IH|].
    intros [n t] Hf [n' t']. simpl in *. rewrite (option_pointwise_eq _ _ _ Hf). naive_solver.
  - eapply Forall2_pointwise_eq; [|done]. eapply Forall_impl; [exact IH|].
    intros [n t] Hf [n' t']. simpl in *. rewrite (option_pointwise_eq _ _ _ Hf). naive_solver.
  - by apply IH.
  - by apply IH.
  - by eapply option_pointwise_eq.
  - by eapply option_pointwise_eq.
  - by eapply option_pointwise_eq.
  - by eapply option_pointwise_eq.
  - by eapply option_pointwise_eq.
  - by eapply option_pointwise_eq.
  - by eapply option_pointwise_eq.
  - by eapply option_pointwise_eq.
Qed.


Lemma signatures_match_rel (import callee : ComponentFunc R) interface function bindings :
  ensure_component_signatures_match import callee interface function bindings = Ok () ↔
  Forall2 (ty_rel (paired bindings)) (fn_params import) (fn_params callee) ∧
  Forall2 (ty_rel (paired bindings)) (fn_results import) (fn_results callee).
Proof.
  assert (∀ l k, all2 (component_types_match bindings) l k = true ↔
            Forall2 (ty_rel (paired bindings)) l k) as Hall.
  { intros l k. apply all2_Forall2, Forall_true. intros a b. apply component_types_match_rel. }
  rewrite <-!Hall. unfold ensure_component_signatures_match, ensure.
  destruct (all2 _ (fn_params _) _), (all2 _ (fn_results _) _); simpl; naive_solver.
Qed.

Lemma signatures_match_self (import callee : ComponentFunc R) interface function :
  ensure_component_signatures_match import callee interface function None = Ok () ↔ import = callee.
Proof.
  assert (∀ l k : list (Ty R), Forall2 (ty_rel (paired None)) l k ↔ l = k) as Heq.
  { intros l k. apply Forall2_pointwise_eq, Forall_true. intros a b. apply ty_rel_eq.
    unfold paired. naive_solver. }
  rewrite signatures_match_rel, !Heq. destruct import, callee; simpl. naive_solver.
Qed.

(** C33 (equivalence). The signature check at link time is exact: it accepts the type of an
    import and the type of the function it is linked to precisely when the two have the same
    shape, the same field, case and flag names in the same order, and resources that are equal
    or paired by a binding of the dependency; with no bindings (a function of the component
    itself) precisely when the types are equal. *)
Theorem signature_match_exact (import callee : ComponentFunc R) interface function bindings :
  (ensure_component_signatures_match import callee interface function bindings = Ok () ↔
   Forall2 (ty_rel (paired bindings)) (fn_params import) (fn_params callee) ∧
   Forall2 (ty_rel (paired bindings)) (fn_results import) (fn_results callee)) ∧
  (ensure_component_signatures_match import callee interface function None = Ok () ↔
   import = callee).
Proof. split; [apply signatures_match_rel|apply signatures_match_self]. Qed.

End match_exact.

(** ** Resources cross the bridge and come back *)

Section bridged.
Context {R H : Type} `{EqDecision R} `{ResourceHandlesLaws H}.
Implicit Types (bindings : list (DependencyResourceBinding R)) (s : WasmDependencyResourceState H).
Implicit Types (N : gmap Z (StoredWasmDependencyResource H)).

(** Every stored representation was allocated. *)
Definition allocated s : Prop := ∀ rep, is_Some (wr_resources s !! rep) → rep < next_rep s.

(** The table grew by exactly [N], all of it freshly allocated. *)
Record grows_by N s s' : Prop := {
  grow_resources : wr_resources s' = wr_resources s ∪ N;
  grow_rep : next_rep s ≤ next_rep s';
  grow_fresh rep : is_Some (N !! rep) → next_rep s ≤ rep < next_rep s';
  grow_types : wr_types s' = wr_types s ∧ next_type_id s' = next_type_id s;
}.

(** Running [back] wherever [N] is stored gives [a] and takes [N] out. *)
Definition takes_back {A} N (back : bridge H A) (a : A) : Prop :=
  ∀ s, N ⊆ wr_resources s → back s = (with_resources (wr_resources s ∖ N) s, Ok a).

Lemma with_resources_id s : with_resources (wr_resources s) s = s.
Proof. by destruct s. Qed.

Lemma allocated_grow N s s' : allocated s → grows_by N s s' → allocated s'.
Proof.
  intros Hs [Hr Hle Hf _] rep. rewrite Hr, lookup_union_is_Some. intros [Hrep|Hrep].
  - specialize (Hs _ Hrep). lia.
  - by apply Hf.
Qed.

Lemma grows_refl s : grows_by ∅ s s.
Proof.
  split; [by rewrite (right_id_L ∅ (∪))|lia| |done].
  intros rep [x Hx]. by rewrite lookup_empty in Hx.
Qed.
Lemma grows_disjoint N1 N2 s s1 s2 : grows_by N1 s s1 → grows_by N2 s1 s2 → N1 ##ₘ N2.
Proof.
  intros G1 G2. apply map_disjoint_spec. intros rep x y Hx Hy.
  pose proof (grow_fresh _ _ _ G1 rep (mk_is_Some _ _ Hx)).
  pose proof (grow_fresh _ _ _ G2 rep (mk_is_Some _ _ Hy)). lia.
Qed.
Lemma grows_trans N1 N2 s s1 s2 :
  grows_by N1 s s1 → grows_by N2 s1 s2 → grows_by (N1 ∪ N2) s s2.
Proof.
  intros [R1 L1 F1 [T1 T1']] [R2 L2 F2 [T2 T2']]. split.
  - by rewrite R2, R1, (assoc_L (∪)).
  - lia.
  - intros rep. rewrite lookup_union_is_Some. intros [Hr|Hr]; [apply F1 in Hr|apply F2 in Hr]; lia.
  - split; congruence.
Qed.

Lemma takes_back_ret {A} (a : A) : takes_back ∅ (mret a) a.
Proof.
  intros s _. unfold mret, bridge_ret. f_equal.
  by rewrite map_difference_empty, with_resources_id.
Qed.
Lemma takes_back_bind {A B} N1 N2 (m : bridge H A) (f : A → bridge H B) a b :
  N1 ##ₘ N2 → takes_back N1 m a → takes_back N2 (f a) b → takes_back (N1 ∪ N2) (m ≫= f) b.
Proof.
  intros Hd Hm Hf s Hs. unfold mbind, bridge_bind.
  rewrite Hm by (etrans; [apply map_union_subseteq_l|done]).
  rewrite Hf.
  - unfold with_resources. simpl. do 2 f_equal. apply map_eq. intros rep.
    rewrite !lookup_difference, lookup_union.
    by destruct (N1 !! rep), (N2 !! rep).
  - simpl. apply map_subseteq_spec. intros rep x Hx.
    rewrite lookup_difference, (map_disjoint_Some_r _ _ _ _ Hd Hx).
    eapply lookup_weaken; [|exact Hs]. by apply lookup_union_Some_r.
Qed.
Lemma takes_back_map {A B} N (m : bridge H A) (f : A → B) a :
  takes_back N m a → takes_back N (m ≫= λ x, mret (f x)) (f a).
Proof.
  intros Hm. rewrite <-(right_id_L ∅ (∪) N).
  eapply takes_back_bind; [apply map_disjoint_empty_r|done|apply takes_back_ret].
Qed.

(** What the round trip of one value says. *)
Definition returns {A} (out : bridge H A) (back : A → bridge H A) (a : A) : Prop :=
  ∀ s s' a', allocated s → out s = (s', Ok a') →
  ∃ N, grows_by N s s' ∧ takes_back N (back a') a.

Lemma bridge_bind_Ok {A B} (m : bridge H A) (f : A → bridge H B) s s' b :
  (m ≫= f) s = (s', Ok b) → ∃ s1 a, m s = (s1, Ok a) ∧ f a s1 = (s', Ok b).
Proof.
  unfold mbind, bridge_bind. destruct (m s) as [s1 [a|e]] eqn:E; [|done]. eauto.
Qed.
Lemma lift_bind_Ok {A B} (r : iresult A) (f : A → bridge H B) s s' b :
  (lift_result r ≫= f) s = (s', Ok b) → ∃ a, r = Ok a ∧ f a s = (s', Ok b).
Proof. intros (s1 & a & [= <- ->] & Hf)%bridge_bind_Ok. eauto. Qed.

Lemma returns_same {A} (out : bridge H A) back a :
  (∀ s, out s = (s, Ok a)) → (∀ s, back a s = (s, Ok a)) → returns out back a.
Proof.
  intros Ho Hb s s' a' _ E. rewrite Ho in E. injection E as <- <-. exists ∅.
  split; [apply grows_refl|]. intros s2 Hs2. rewrite Hb. by apply takes_back_ret.
Qed.

Lemma returns_err {A} (out : bridge H A) back a e :
  (∀ s, out s = (s, Err e)) → returns out back a.
Proof. intros Ho s s' a' _ E. by rewrite Ho in E. Qed.

Lemma returns_map {A B} (out : bridge H A) back (f : A → B) (back' : B → bridge H B) a :
  returns out back a →
  (∀ s s' x, out s = (s', Ok x) → ∀ s, back' (f x) s = (y ← back x; mret (f y)) s) →
  returns (x ← out; mret (f x)) back' (f a).
Proof.
  intros Ho Hb s s' b Hs (s1 & a' & Hout & [= <- <-])%bridge_bind_Ok.
  destruct (Ho _ _ _ Hs Hout) as (N & HN & Hback). exists N. split; [done|].
  intros s2 Hs2. rewrite (Hb _ _ _ Hout). by apply takes_back_map.
Qed.
Lemma returns_lift {A B} (r : iresult B) (out : B → bridge H A) back a :
  (∀ x, r = Ok x → returns (out x) back a) → returns (x ← lift_result r; out x) back a.
Proof. intros Ho s s' b Hs (x & Hr & Hout)%lift_bind_Ok. by eapply Ho. Qed.

Lemma returns_zip {A T} (out : A → T → bridge H A) (back : A → T → bridge H A) l :
  Forall (λ a, ∀ t, returns (out a t) (λ a', back a' t) a) l → ∀ ts,
  length l = length ts →
  returns (bridge_zip out l ts) (λ l', bridge_zip back l' ts) l.
Proof.
  induction 1 as [|a l Ha _ IH]; intros [|t ts] Hl; try done.
  { by apply returns_same. }
  intros s s' l' Hs (s1 & a' & Ho & (s2 & l1 & Hz & [= <- <-])%bridge_bind_Ok)%bridge_bind_Ok.
  destruct (Ha _ _ _ _ Hs Ho) as (N1 & G1 & B1).
  destruct (IH ts ltac:(simpl in Hl; lia) _ _ _ (allocated_grow _ _ _ Hs G1) Hz) as (N2 & G2 & B2).
  exists (N1 ∪ N2). split; [by eapply grows_trans|]. simpl.
  eapply takes_back_bind; [by eapply grows_disjoint|exact B1|]. by apply takes_back_map.
Qed.

Lemma returns_list {A} (out : A → bridge H A) (back : A → bridge H A) l :
  Forall (λ a, returns (out a) back a) l → returns (bridge_map out l) (bridge_map back) l.
Proof.
  induction 1 as [|a l Ha _ IH].
  { by apply returns_same. }
  intros s s' l' Hs (s1 & a' & Ho & (s2 & l1 & Hz & [= <- <-])%bridge_bind_Ok)%bridge_bind_Ok.
  destruct (Ha _ _ _ Hs Ho) as (N1 & G1 & B1).
  destruct (IH _ _ _ (allocated_grow _ _ _ Hs G1) Hz) as (N2 & G2 & B2).
  exists (N1 ∪ N2). split; [by eapply grows_trans|]. simpl.
  eapply takes_back_bind; [by eapply grows_disjoint|exact B1|]. by apply takes_back_map.
Qed.

Lemma bridge_zip_length {A B C} (f : A → B → bridge H C) xs : ∀ ys s s' zs,
  bridge_zip f xs ys s = (s', Ok zs) → length xs = length ys → length zs = length ys.
Proof.
  induction xs as [|x xs IH]; intros [|y ys] s s' zs; simpl; try done; [by intros [= <- <-]|].
  intros (s1 & z & _ & (s2 & zs' & Hz & [= <- <-])%bridge_bind_Ok)%bridge_bind_Ok Hl.
  simpl. f_equal. eapply IH; [exact Hz|lia].
Qed.

(** The two directions on a resource. *)
Lemma resource_returns bindings h r owned :
  returns (map_resource_from_wasm_dependency bindings h r owned)
    (λ v, map_value_to_wasm_dependency bindings v (if owned then TOwn r else TBorrow r))
    (VResource h).
Proof.
  intros s s' v' Hs ([] & Hown & (b & Hb & (s1 & rep & Hins & (h' & Hw & [= <- <-])%lift_bind_Ok)
    %bridge_bind_Ok)%lift_bind_Ok)%lift_bind_Ok.
  unfold insert_resource in Hins.
  destruct (next_rep s + 1 <=? u32_max) eqn:Hmax; [|done]. injection Hins as <- <-.
  destruct owned; [|done]. clear Hown.
  destruct (wrap_own (next_rep s) (host_dynamic_type_id b)) as [h''|e] eqn:Hwr; [|done].
  injection Hw as <-. apply unwrap_wrap in Hwr.
  exists {[next_rep s := {| stored_type_id := host_dynamic_type_id b; stored_resource := h |}]}.
  split.
  - split; simpl; [|lia| |done].
    + rewrite insert_union_singleton_r; [done|].
      apply eq_None_not_Some. intros Hn%Hs. lia.
    + intros rep [x [<- _]%lookup_singleton_Some]. lia.
  - intros s2 Hs2. unfold map_value_to_wasm_dependency. simpl.
    unfold map_resource_to_wasm_dependency, mbind, bridge_bind, lift_result. rewrite Hb, Hwr. simpl.
    rewrite Z.eqb_refl. simpl. unfold stored_for, remove_resource.
    rewrite (lookup_weaken _ _ _ _ (lookup_singleton_eq _ _) Hs2). simpl.
    unfold mret, bridge_ret. do 3 f_equal. apply map_eq. intros rep.
    rewrite lookup_difference.
    destruct (decide (rep = next_rep s)) as [->|Hne].
    + by rewrite lookup_delete_eq, lookup_singleton_eq.
    + by rewrite lookup_delete_ne, lookup_singleton_ne by done.
Qed.

Lemma field_returns (out back : Val H → Ty R → bridge H (Val H)) (f : string * Val H) :
  (∀ t, returns (out f.2 t) (λ v, back v t) f.2) → ∀ t : string * Ty R,
  returns (bridge_field out f t) (λ f', bridge_field back f' t) f.
Proof.
  intros Hf [name t]. destruct f as [n v]. unfold bridge_field.
  apply returns_lift. intros [] Hn. apply (returns_map _ (λ v, back v t)); [apply Hf|].
  intros _ _ x _ s. by rewrite Hn.
Qed.

Lemma optional_returns (out back : Val H → Ty R → bridge H (Val H)) o t :
  on_option (λ v, ∀ t, returns (out v t) (λ v, back v t) v) o →
  returns (map_optional_value out o t) (λ o, map_optional_value back o t) o.
Proof.
  intros Ho. destruct o as [v|].
  - destruct t as [t|]; [|by intros s s' v' _]. simpl in *.
    apply (returns_map _ (λ v, back v t)); [apply Ho|done].
  - destruct t; by apply returns_same.
Qed.

(** Types without components pass a value unchanged; a value of another shape is refused. *)
Local Ltac bridge_trivial :=
  lazymatch goal with
  | |- returns (map_value_from_wasm_dependency _ ?v ?ty) _ _ =>
    lazymatch constr:((v, ty)) with
    | (VResource _, TOwn _) => idtac
    | (VResource _, TBorrow _) => idtac
    | (VList _, TList _) => idtac
    | (VRecord _, TRecord _) => idtac
    | (VTuple _, TTuple _) => idtac
    | (VVariant _ _, TVariant _) => idtac
    | (VOption _, TOption _) => idtac
    | (VResult _ _, TResult _ _) => idtac
    | (_, TOwn _) => exact (returns_err _ _ _ _ (λ s, eq_refl))
    | (_, TBorrow _) => exact (returns_err _ _ _ _ (λ s, eq_refl))
    | (_, TList _) => exact (returns_err _ _ _ _ (λ s, eq_refl))
    | (_, TRecord _) => exact (returns_err _ _ _ _ (λ s, eq_refl))
    | (_, TTuple _) => exact (returns_err _ _ _ _ (λ s, eq_refl))
    | (_, TVariant _) => exact (returns_err _ _ _ _ (λ s, eq_refl))
    | (_, TOption _) => exact (returns_err _ _ _ _ (λ s, eq_refl))
    | (_, TResult _ _) => exact (returns_err _ _ _ _ (λ s, eq_refl))
    | _ => exact (returns_same _ _ _ (λ s, eq_refl) (λ s, eq_refl))
    end
  end.

Lemma value_returns bindings v : ∀ ty,
  returns (map_value_from_wasm_dependency bindings v ty)
    (λ v', map_value_to_wasm_dependency bindings v' ty) v.
Proof.
  induction v as [v Hv|items IH|fields IH|items IH|name value IH|value IH|is_ok value IH]
    using Val_nested_ind; intros ty.
  { destruct v; try done; destruct ty; bridge_trivial.
    - apply (resource_returns _ _ _ true).
    - apply (resource_returns _ _ _ false). }
  all: destruct ty; bridge_trivial.
  - apply (returns_map _ (bridge_map (λ v, map_value_to_wasm_dependency bindings v ty)) VList); [|done].
    apply returns_list. eapply Forall_impl; [exact IH|]. auto.
  - apply returns_lift. intros [] Hl%ensure_Ok%bool_decide_eq_true.
    apply (returns_map _ (λ l, bridge_zip (bridge_field (map_value_to_wasm_dependency bindings))
             l fields0) VRecord).
    + apply returns_zip; [|done]. eapply Forall_impl; [exact IH|]. intros f Hf t.
      by apply (field_returns (map_value_from_wasm_dependency bindings)).
    + intros s s' x Hx%bridge_zip_length s2; [|done]. simpl. unfold map_value_to_wasm_dependency. simpl.
      by rewrite bool_decide_true.
  - apply returns_lift. intros [] Hl%ensure_Ok%bool_decide_eq_true.
    apply (returns_map _ (λ l, bridge_zip (map_value_to_wasm_dependency bindings) l types) VTuple).
    + apply returns_zip; [|done]. eapply Forall_impl; [exact IH|]. auto.
    + intros s s' x Hx%bridge_zip_length s2; [|done]. simpl. unfold map_value_to_wasm_dependency. simpl.
      by rewrite bool_decide_true.
  - apply returns_lift. intros case_ty Hcase.
    apply (returns_map _ (λ o, map_optional_value (map_value_to_wasm_dependency bindings) o case_ty)
             (VVariant name)).
    + by apply optional_returns.
    + intros s s' x _ s2. unfold map_value_to_wasm_dependency. simpl. by rewrite Hcase.
  - apply (returns_map _ (λ o, map_optional_value (map_value_to_wasm_dependency bindings) o (Some ty))
             VOption); [by apply optional_returns|done].
  - apply (returns_map _ (λ o, map_optional_value (map_value_to_wasm_dependency bindings) o
             (if is_ok then ok else err)) (VResult is_ok)); [by apply optional_returns|done].
Qed.

(** The tables a store can hold. *)
Inductive reachable : WasmDependencyResourceState H → Prop :=
  | reach_default : reachable default_resource_state
  | reach_type_id key s s' i : reachable s → type_id_for key s = Some (s', i) → reachable s'
  | reach_insert ty h s : reachable s → reachable (insert_resource ty h s).1
  | reach_remove rep s : reachable s → reachable (remove_resource rep s).1.

Record table_ok s : Prop := {
  ok_allocated : allocated s;
  ok_ids key i : wr_types s !! key = Some i → i < next_type_id s;
  ok_injective k k' i : wr_types s !! k = Some i → wr_types s !! k' = Some i → k = k';
}.

Lemma type_id_for_ok key s s' i : table_ok s → type_id_for key s = Some (s', i) → table_ok s'.
Proof.
  intros [Ha Hi Hj]. unfold type_id_for. destruct (wr_types s !! key) as [j|] eqn:Hk.
  { by intros [= <- <-]. }
  destruct (_ <=? _); [|done]. intros [= <- <-]. split; simpl; [exact Ha| |].
  - intros k j [[-> <-]|[_ Hj']]%lookup_insert_Some; [lia|]. apply Hi in Hj'. lia.
  - intros k k' j [[<- <-]|[Hn E]]%lookup_insert_Some [[<- E']|[Hn' E']]%lookup_insert_Some;
      try done; try (apply Hi in E; lia); try (apply Hi in E'; lia). by eapply Hj.
Qed.

Lemma reachable_ok s : reachable s → table_ok s.
Proof.
  induction 1 as [|key s s' i _ IH E|ty h s _ IH|rep s _ IH].
  - split; simpl; [|done..]. by intros rep [x Hx].
  - by eapply type_id_for_ok.
  - unfold insert_resource. destruct (_ <=? _); [|done]. destruct IH as [Ha Hi Hj].
    split; simpl; [|done..]. intros rep. simpl. rewrite lookup_insert_is_Some.
    intros [<-|[_ Hr]]; [|apply Ha in Hr]; simpl; lia.
  - destruct IH as [Ha Hi Hj]. split; simpl; [|done..]. intros r [x Hx]. simpl in Hx.
    apply lookup_delete_Some in Hx as [_ Hx]. apply Ha. eauto.
Qed.

(** A handle made for one bridged type does not pass for another. *)
Lemma other_type_refused bindings s k k' i h rep r b owned :
  table_ok s → k ≠ k' →
  wr_types s !! k = Some i → wr_types s !! k' = Some (host_dynamic_type_id b) →
  wrap_own rep i = Ok h → dependency_resource_binding bindings r = Ok b →
  map_resource_to_wasm_dependency bindings h r owned s = (s, Err (unexpected_host_type b i)).
Proof.
  intros Hs Hk Hi Hi' Hw Hb. apply unwrap_wrap in Hw.
  unfold map_resource_to_wasm_dependency, mbind, bridge_bind, lift_result. rewrite Hb, Hw. simpl.
  destruct (i =? host_dynamic_type_id b) eqn:E; [|done].
  apply Z.eqb_eq in E as ->. destruct Hk. by eapply ok_injective.
Qed.

(** C32 (invariant). A value a plugin returns, resources inside records, lists, variants and
    options included, comes back to the plugin as it was.  The call that passes it out stores
    each resource under a fresh representation and nothing else; passing the value in again
    yields the original value and takes exactly these resources out of the table, at any later
    time at which they are still stored, so an owned resource is given back once.  A handle of
    one resource type of one plugin is refused for any other, and the refusal changes
    nothing. *)
Theorem bridged_resources bindings v ty s s' v' (Hs : reachable s)
    (Hout : map_value_from_wasm_dependency bindings v ty s = (s', Ok v')) :
  (∃ N, wr_resources s' = wr_resources s ∪ N ∧ wr_resources s ##ₘ N ∧
     ∀ s2, N ⊆ wr_resources s2 →
       map_value_to_wasm_dependency bindings v' ty s2 =
         (with_resources (wr_resources s2 ∖ N) s2, Ok v)) ∧
  map_value_to_wasm_dependency bindings v' ty s' = (with_resources (wr_resources s) s', Ok v) ∧
  ∀ k k' i h rep r b owned, k ≠ k' →
    wr_types s !! k = Some i → wr_types s !! k' = Some (host_dynamic_type_id b) →
    wrap_own rep i = Ok h → dependency_resource_binding bindings r = Ok b →
    map_resource_to_wasm_dependency bindings h r owned s' = (s', Err (unexpected_host_type b i)).
Proof.
  pose proof (reachable_ok _ Hs) as Hok. pose proof (ok_allocated _ Hok) as Ha.
  destruct (value_returns bindings v ty s s' v' Ha Hout) as (N & HN & Hback).
  assert (wr_resources s ##ₘ N) as Hd.
  { apply map_disjoint_spec. intros rep x y Hx Hy.
    pose proof (Ha _ (mk_is_Some _ _ Hx)).
    pose proof (grow_fresh _ _ _ HN _ (mk_is_Some _ _ Hy)). lia. }
  pose proof (grow_resources _ _ _ HN) as Hr. destruct (grow_types _ _ _ HN) as [Ht Hid].
  split_and!.
  - exists N. auto.
  - rewrite Hback by (rewrite Hr; by apply map_union_subseteq_r).
    do 2 f_equal. rewrite Hr. apply map_eq. intros rep.
    rewrite lookup_difference, lookup_union.
    destruct (N !! rep) as [x|] eqn:Hx; [by rewrite (map_disjoint_Some_r _ _ _ _ Hd Hx)|].
    by destruct (wr_resources s !! rep).
  - intros k k' i h rep r b owned Hk Hi Hi' Hw Hb.
    rewrite <-Ht in Hi, Hi'. eapply other_type_refused; try done.
    split; [by eapply allocated_grow|rewrite Ht, Hid|rewrite Ht];
      [apply (ok_ids _ Hok)|apply (ok_injective _ Hok)].
Qed.

End bridged.

(** ** A plugin that returns a list of its resources *)

Module BridgeDemo.

(** A handle is its representation and its type, or a resource of the plugin. *)
Inductive handle := Guest (n : Z) | Host (rep ty : Z).

#[local] Instance demo_handles : ResourceHandles handle := {
  wrap_own rep ty := Ok (Host rep ty);
  unwrap_dynamic h := match h with Host rep ty => Ok (rep, ty) | Guest _ => Err "not dynamic" end;
}.
#[local] Instance demo_handles_laws : ResourceHandlesLaws handle.
Proof. split. by intros rep ty h [= <-]. Qed.

Definition file_binding : DependencyResourceBinding Z :=
  {| import_resource := 7; callee_resource := 9; host_dynamic_type_id := 1;
     rb_resource_name := "file" |}.
Definition file_key : WasmDependencyResourceKey :=
  {| key_dependency_name := "acme:fs"; key_interface_name := "acme:fs/files";
     key_resource_name := "file" |}.
Definition store : WasmDependencyResourceState handle :=
  {| next_type_id := 2; next_rep := 1; wr_types := {[ file_key := 1 ]}; wr_resources := ∅ |}.
Definition files : Val handle := VList [VResource (Guest 5); VResource (Guest 6)].
Definition handles : Val handle := VList [VResource (Host 1 1); VResource (Host 2 1)].
Definition store_after : WasmDependencyResourceState handle :=
  (map_value_from_wasm_dependency [file_binding] files (TList (TOwn 7)) store).1.

Lemma store_reachable : reachable store.
Proof. by eapply (reach_type_id file_key default_resource_state _ 1); [constructor|]. Qed.

Lemma bridged_resources_witness :
  map_value_to_wasm_dependency [file_binding] handles (TList (TOwn 7)) store_after =
    (with_resources ∅ store_after, Ok files) ∧
  map_value_from_wasm_dependency [file_binding] files (TList (TOwn 7)) store =
    (store_after, Ok handles).
Proof.
  assert (map_value_from_wasm_dependency [file_binding] files (TList (TOwn 7)) store =
    (store_after, Ok handles)) as E by (vm_compute; reflexivity).
  split; [|exact E].
  exact (proj1 (proj2 (bridged_resources [file_binding] files (TList (TOwn 7)) store store_after
    handles store_reachable E))).
Defined.

End BridgeDemo.
