(* ===== verification/PluginOrder.v ===== *)
(** * Plugin dependencies: their order and the providers of imports

    [DefaultPluginResolver] of [imagod-runtime-wasmtime/src/plugin_resolver.rs]: the order in
    which the plugins of a service are instantiated, and which component provides an import.

    Vectors indexed by dependency are lists; the worklist loop runs with fuel, and
    [drain_done] shows that one step more than there are dependencies is enough.

    Shown: the resolver succeeds exactly when the names are distinct, every required
    dependency exists and no dependency needs itself through others; the order then holds
    every dependency once, after all it needs. *)

From S2P Require Import Prelude Protocol Text Ipc Component.

Local Open Scope nat_scope.

Record PluginComponentInterfaces := { if_imports : list string; if_exports : gset string }.

Definition all_dependency_names (dependencies : list PluginDependency) : gset string :=
  list_to_set (dep_name <$> dependencies).

Definition parse_import_package_name (import_name : string) : option string :=
  fst <$> rsplit_once "/"%char import_name.

(** ** The graph *)

Fixpoint index_by_name (dependencies : list PluginDependency) (index : nat)
    (by_name : gmap string nat) : iresult (gmap string nat) :=
  match dependencies with
  | [] => Ok by_name
  | dep :: rest =>
    match by_name !! dep_name dep with
    | Some _ =>
      Err (map_runtime_error ("duplicate plugin dependency name '" +:+ dep_name dep +:+ "'"))
    | None => index_by_name rest (S index) (<[dep_name dep := index]> by_name)
    end
  end.

Record graph := { edges : list (gset nat); indegree : list nat }.

Definition add_dependency_edge (g : graph) (from to : nat) : graph :=
  if decide (to ∈ edges g !!! from) then g
  else {| edges := <[from := {[to]} ∪ edges g !!! from]> (edges g);
          indegree := <[to := S (indegree g !!! to)]> (indegree g) |}.

(** A [BTreeSet<usize>] is iterated in ascending order. *)
Definition ascending (s : gset nat) : list nat := sort_by Nat.leb (elements s).

Fixpoint collect_implicit_provider_indices (dependency_name : string) (import_names : list string)
    (self_export_interfaces : gset string) (by_name : gmap string nat) : gset nat :=
  match import_names with
  | [] => ∅
  | import_name :: rest =>
    let providers :=
      collect_implicit_provider_indices dependency_name rest self_export_interfaces by_name in
    if decide (import_name ∈ self_export_interfaces) then providers
    else match parse_import_package_name import_name with
         | None => providers
         | Some package_name =>
           if decide (package_name = dependency_name) then providers
           else match by_name !! package_name with
                | Some index => {[index]} ∪ providers
                | None => providers
                end
         end
  end.

Fixpoint link_requires (by_name : gmap string nat) (dep_name : string) (requires : list string)
    (index : nat) (g : graph) : iresult graph :=
  match requires with
  | [] => Ok g
  | req :: rest =>
    req_index ← ok_or (by_name !! req) (map_runtime_error ("plugin dependency '" +:+ dep_name +:+
      "' requires unknown dependency '" +:+ req +:+ "'"));
    link_requires by_name dep_name rest index (add_dependency_edge g req_index index)
  end.

Definition add_edges (g : graph) (froms : list nat) (to : nat) : graph :=
  foldl (λ g from, add_dependency_edge g from to) g froms.

Fixpoint link_dependencies (by_name : gmap string nat)
    (interfaces_by_dependency : gmap string PluginComponentInterfaces)
    (dependencies : list PluginDependency) (index : nat) (g : graph) : iresult graph :=
  match dependencies with
  | [] => Ok g
  | dep :: rest =>
    g ← link_requires by_name (dep_name dep) (dep_requires dep) index g;
    let g := match interfaces_by_dependency !! dep_name dep with
             | None => g
             | Some interfaces =>
               add_edges g (ascending (collect_implicit_provider_indices (dep_name dep)
                 (if_imports interfaces) (if_exports interfaces) by_name)) index
             end in
    link_dependencies by_name interfaces_by_dependency rest (S index) g
  end.

(** ** The worklist *)

Definition by_dependency_name (dependencies : list PluginDependency) (a b : nat) : bool :=
  String.leb (from_option dep_name "" (dependencies !! a))
    (from_option dep_name "" (dependencies !! b)).

(** The loop over the edges of a popped dependency. *)
Fixpoint release (targets : list nat) (indegree ready : list nat) : list nat * list nat :=
  match targets with
  | [] => (indegree, ready)
  | edge :: rest =>
    let d := pred (indegree !!! edge) in
    release rest (<[edge := d]> indegree) (if decide (d = 0) then ready ++ [edge] else ready)
  end.

(** [None]: out of fuel. *)
Fixpoint drain (fuel : nat) (dependencies : list PluginDependency) (edges : list (gset nat))
    (indegree ready order : list nat) : option (list nat) :=
  match fuel with
  | O => None
  | S fuel =>
    match rev ready with
    | [] => Some order
    | next :: rest =>
      let '(indegree, ready) := release (ascending (edges !!! next)) indegree (rev rest) in
      drain fuel dependencies edges indegree
        (sort_by (by_dependency_name dependencies) ready) (order ++ [next])
    end
  end.

Definition cycle_error : ImagodError :=
  map_runtime_error "plugin dependency graph contains a cycle".

Definition initially_ready (indegree : list nat) : list nat :=
  filter (λ i, indegree !!! i = 0) (seq 0 (length indegree)).

Definition dependency_graph (dependencies : list PluginDependency)
    (interfaces_by_dependency : gmap string PluginComponentInterfaces) : iresult graph :=
  by_name ← index_by_name dependencies 0 ∅;
  let n := length dependencies in
  link_dependencies by_name interfaces_by_dependency dependencies 0
    {| edges := replicate n ∅; indegree := replicate n 0 |}.

(** [None]: out of fuel. *)
Definition dependency_topological_order (dependencies : list PluginDependency)
    (interfaces_by_dependency : gmap string PluginComponentInterfaces)
    : option (iresult (list nat)) :=
  match dependency_graph dependencies interfaces_by_dependency with
  | Err e => Some (Err e)
  | Ok g =>
    let n := length dependencies in
    let ready := sort_by (by_dependency_name dependencies) (initially_ready (indegree g)) in
    order ← drain (S n) dependencies (edges g) (indegree g) ready [];
    Some (if decide (length order = n) then Ok order else Err cycle_error)
  end.

(** ** The provider of an import *)

Inductive PluginImportProvider := SelfComponent | Dependency (name : string).

Definition provider_error (caller_name import_name what : string) : ImagodError :=
  map_runtime_error ("failed to resolve plugin import provider for caller='" +:+ caller_name +:+
    "', import='" +:+ import_name +:+ "': checked=self, explicit_dep='" +:+ what).

Definition resolve_import_provider (caller_name import_name : string)
    (self_export_interfaces explicit_dependency_names available_dependency_names : gset string)
    (allow_self_provider : bool) : iresult PluginImportProvider :=
  if allow_self_provider && bool_decide (import_name ∈ self_export_interfaces)
  then Ok SelfComponent
  else
    match parse_import_package_name import_name with
    | Some name =>
      if decide (name ∈ explicit_dependency_names) then
        if decide (name ∈ available_dependency_names) then Ok (Dependency name)
        else Err (provider_error caller_name import_name
                    (name +:+ "' exists but is not instantiated yet"))
      else Err (provider_error caller_name import_name (name +:+ "', result=not-found"))
    | None => Err (provider_error caller_name import_name "<none>', result=not-found")
    end.

(** ** What the graph is meant to be *)

Section spec.
Context (dependencies : list PluginDependency)
  (interfaces_by_dependency : gmap string PluginComponentInterfaces).

Definition named (i : nat) (name : string) : Prop :=
  (dep_name <$> dependencies) !! i = Some name.

(** An import of [dep] that another dependency provides. *)
Definition imports_from (dep : PluginDependency) (package : string) : Prop :=
  ∃ interfaces import, interfaces_by_dependency !! dep_name dep = Some interfaces ∧
    import ∈ if_imports interfaces ∧ import ∉ if_exports interfaces ∧
    parse_import_package_name import = Some package ∧ package ≠ dep_name dep.

(** Dependency [j] needs dependency [i]. *)
Definition needed_by (i j : nat) : Prop :=
  ∃ dep name, dependencies !! j = Some dep ∧ named i name ∧
    (name ∈ dep_requires dep ∨ imports_from dep name).

Definition requires_known : Prop :=
  ∀ dep req, dep ∈ dependencies → req ∈ dep_requires dep → ∃ i, named i req.

End spec.

(** ** The graph is built as meant *)

Section build.
Context (dependencies : list PluginDependency)
  (interfaces_by_dependency : gmap string PluginComponentInterfaces).
Abbreviation n := (length dependencies).
Implicit Types g : graph.

Definition edge g (i j : nat) : Prop := j ∈ edges g !!! i.
Definition preds (es : list (gset nat)) (j : nat) : gset nat :=
  filter (λ i, j ∈ es !!! i) (set_seq 0 (length es)).

Record graph_ok (n : nat) g : Prop := {
  go_edges : length (edges g) = n;
  go_indegree : length (indegree g) = n;
  go_bound i j : edge g i j → i < n ∧ j < n;
  go_count j : j < n → indegree g !!! j = size (preds (edges g) j);
}.

Lemma elem_of_preds es i j : i ∈ preds es j ↔ i < length es ∧ j ∈ es !!! i.
Proof. unfold preds. rewrite elem_of_filter, elem_of_set_seq. naive_solver lia. Qed.

Lemma add_dependency_edge_edge g from to i j :
  from < length (edges g) →
  edge (add_dependency_edge g from to) i j ↔ edge g i j ∨ (i = from ∧ j = to).
Proof.
  intros Hf. unfold add_dependency_edge, edge. case_decide as Hin.
  { naive_solver. }
  simpl. destruct (decide (i = from)) as [->|Hne].
  - rewrite list_lookup_total_insert_eq by done. set_solver.
  - rewrite list_lookup_total_insert_ne by done. naive_solver.
Qed.

Lemma add_dependency_edge_ok m g from to :
  graph_ok m g → from < m → to < m → graph_ok m (add_dependency_edge g from to).
Proof.
  intros [He Hi Hb Hc] Hf Ht.
  assert (∀ i j, edge (add_dependency_edge g from to) i j → i < m ∧ j < m) as Hbound.
  { intros i j [?|[-> ->]]%add_dependency_edge_edge; [by apply Hb|done|lia]. }
  unfold add_dependency_edge in *. case_decide as Hin; [done|].
  split; simpl; [by rewrite length_insert..|done|].
  intros j Hj. destruct (decide (j = to)) as [->|Hne].
  - rewrite list_lookup_total_insert_eq by lia. rewrite Hc by done.
    assert (preds (<[from:={[to]} ∪ edges g !!! from]> (edges g)) to = {[from]} ∪ preds (edges g) to)
      as ->.
    { apply set_eq. intros i. rewrite elem_of_union, elem_of_singleton, !elem_of_preds, length_insert.
      destruct (decide (i = from)) as [->|]; [rewrite list_lookup_total_insert_eq by lia; set_solver by lia|].
      rewrite list_lookup_total_insert_ne by done. naive_solver. }
    rewrite size_union, size_singleton; [lia|].
    intros i. rewrite elem_of_singleton, elem_of_preds. naive_solver.
  - rewrite list_lookup_total_insert_ne by done. rewrite Hc by done. f_equal.
    apply set_eq. intros i. rewrite !elem_of_preds, length_insert.
    destruct (decide (i = from)) as [->|]; [rewrite list_lookup_total_insert_eq by lia; set_solver|].
    by rewrite list_lookup_total_insert_ne.
Qed.

Lemma add_edges_ok m froms to : ∀ g, graph_ok m g → to < m → Forall (λ from, from < m) froms →
  graph_ok m (add_edges g froms to) ∧
  ∀ i j, edge (add_edges g froms to) i j ↔ edge g i j ∨ (i ∈ froms ∧ j = to).
Proof.
  induction froms as [|from froms IH]; intros g Hg Ht; simpl.
  { split; [done|]. intros. rewrite elem_of_nil. naive_solver. }
  intros [Hf Hfs]%Forall_cons.
  destruct (IH (add_dependency_edge g from to)) as [Hok Hedge]; [|done|done|].
  { by apply add_dependency_edge_ok. }
  split; [done|]. intros i j. rewrite Hedge, add_dependency_edge_edge, elem_of_cons.
  - naive_solver.
  - by rewrite (go_edges _ _ Hg).
Qed.

Lemma index_by_name_spec rest : ∀ pre m,
  (∀ name i, m !! name = Some i ↔ named pre i name) → NoDup (dep_name <$> pre) →
  match index_by_name rest (length pre) m with
  | Ok m' => NoDup (dep_name <$> pre ++ rest) ∧
             ∀ name i, m' !! name = Some i ↔ named (pre ++ rest) i name
  | Err _ => ¬ NoDup (dep_name <$> pre ++ rest)
  end.
Proof.
  induction rest as [|dep rest IH]; intros pre m Hm Hnd; simpl.
  { by rewrite app_nil_r. }
  destruct (m !! dep_name dep) as [i|] eqn:Hi.
  - apply Hm in Hi. rewrite fmap_app. intros (_ & Hdis & _)%NoDup_app.
    apply (Hdis (dep_name dep)); [by eapply list_elem_of_lookup_2|left].
  - specialize (IH (pre ++ [dep]) (<[dep_name dep := length pre]> m)).
    rewrite length_app, Nat.add_1_r, <-app_assoc in IH. apply IH.
    + intros name i. unfold named. rewrite lookup_insert_Some, fmap_app, lookup_app_Some, length_fmap.
      specialize (Hm name i). rewrite Hm. unfold named.
      split; [intros [[<- <-]|[Hne H]]|intros [H|[Hle H]]].
      * right. by rewrite Nat.sub_diag.
      * by left.
      * right. split; [|done]. intros <-.
        apply Hm in H. by rewrite Hi in H.
      * left. simpl in H. apply list_lookup_singleton_Some in H as [H <-]. split; [done|lia].
    + rewrite fmap_app. apply NoDup_app. split_and!; [done| |apply NoDup_singleton].
      intros name [i Hn]%list_elem_of_lookup ->%list_elem_of_singleton.
      apply Hm in Hn. by rewrite Hi in Hn.
Qed.

Lemma link_requires_Ok by_name d reqs index : ∀ g g',
  link_requires by_name d reqs index g = Ok g' ↔
  ∃ froms, Forall2 (λ req i, by_name !! req = Some i) reqs froms ∧ g' = add_edges g froms index.
Proof.
  induction reqs as [|req reqs IH]; intros g g'; simpl.
  - split; [intros [= <-]; by exists []|]. by intros (? & ->%Forall2_nil_inv_l & ->).
  - destruct (by_name !! req) as [i|] eqn:Hreq; simpl.
    + rewrite IH. split.
      * intros (froms & Hf & ->). exists (i :: froms). split; [by constructor|done].
      * intros (froms & (k & l & Hk & Hl & ->)%Forall2_cons_inv_l & ->).
        exists l. split; [done|]. simpl. congruence.
    + split; [done|]. intros (froms & (k & l & Hk & Hl & ->)%Forall2_cons_inv_l & ->).
      congruence.
Qed.

Lemma link_requires_Err by_name d reqs index e : ∀ g,
  link_requires by_name d reqs index g = Err e → ∃ req, req ∈ reqs ∧ by_name !! req = None.
Proof.
  induction reqs as [|req reqs IH]; intros g; simpl; [done|].
  destruct (by_name !! req) as [i|] eqn:Hreq; simpl.
  - intros (r & Hr & Hn)%IH. exists r. split; [by right|done].
  - intros _. exists req. split; [left|done].
Qed.

Context (by_name : gmap string nat).
Context (by_name_named : ∀ name i, by_name !! name = Some i ↔ named dependencies i name).

Lemma elem_of_providers d imports exports i :
  i ∈ collect_implicit_provider_indices d imports exports by_name ↔
  ∃ import package, import ∈ imports ∧ import ∉ exports ∧
    parse_import_package_name import = Some package ∧ package ≠ d ∧ by_name !! package = Some i.
Proof.
  induction imports as [|import imports IH]; simpl.
  { split; [set_solver|]. by intros (? & ? & ?%elem_of_nil & _). }
  setoid_rewrite elem_of_cons.
  repeat case_match; rewrite ?elem_of_union, ?elem_of_singleton, IH; naive_solver.
Qed.

Lemma elem_of_ascending s i : i ∈ ascending s ↔ i ∈ s.
Proof. unfold ascending. by rewrite sort_by_Permutation, elem_of_elements. Qed.

Lemma named_bound i name : named dependencies i name → i < n.
Proof. intros H%lookup_lt_Some. by rewrite length_fmap in H. Qed.

Definition linked_upto (k : nat) g : Prop :=
  graph_ok n g ∧
  ∀ i j, edge g i j ↔ j < k ∧ needed_by dependencies interfaces_by_dependency i j.

(** One dependency adds the edges from all it needs. *)
Lemma link_one dep k g froms :
  dependencies !! k = Some dep → linked_upto k g →
  Forall2 (λ req i, by_name !! req = Some i) (dep_requires dep) froms →
  linked_upto (S k)
    (match interfaces_by_dependency !! dep_name dep with
     | None => add_edges g froms k
     | Some interfaces =>
       add_edges (add_edges g froms k)
         (ascending (collect_implicit_provider_indices (dep_name dep)
           (if_imports interfaces) (if_exports interfaces) by_name)) k
     end).
Proof.
  intros Hk [Hg He] Hf. pose proof (lookup_lt_Some _ _ _ Hk) as Hkn.
  assert (∀ i, i ∈ froms ↔ ∃ name, named dependencies i name ∧ name ∈ dep_requires dep) as Hfroms.
  { intros i. setoid_rewrite <-by_name_named. split.
    - intros [p Hp]%list_elem_of_lookup.
      destruct (Forall2_lookup_r _ _ _ _ _ Hf Hp) as (req & Hreq & Hi).
      exists req. split; [done|]. by eapply list_elem_of_lookup_2.
    - intros (name & Hi & [p Hp]%list_elem_of_lookup).
      destruct (Forall2_lookup_l _ _ _ _ _ Hf Hp) as (i' & Hi' & E).
      rewrite Hi in E. injection E as <-. by eapply list_elem_of_lookup_2. }
  destruct (add_edges_ok n froms k g) as [Hg1 He1]; [done|done| |].
  { apply Forall_forall. intros i (name & Hi & _)%Hfroms. by eapply named_bound. }
  assert (∀ i j, (j < S k ∧ needed_by dependencies interfaces_by_dependency i j) ↔
    (j < k ∧ needed_by dependencies interfaces_by_dependency i j) ∨ (i ∈ froms ∧ j = k) ∨
    (j = k ∧ ∃ name, named dependencies i name ∧ imports_from interfaces_by_dependency dep name))
    as Hsplit.
  { intros i j. rewrite Hfroms. destruct (decide (j = k)) as [->|Hne]; [|naive_solver lia].
    unfold needed_by. rewrite Hk. naive_solver lia. }
  destruct (interfaces_by_dependency !! dep_name dep) as [interfaces|] eqn:Hif.
  - set (ps := collect_implicit_provider_indices _ _ _ _).
    destruct (add_edges_ok n (ascending ps) k (add_edges g froms k)) as [Hg2 He2]; [done|done| |].
    + apply Forall_forall. intros i. rewrite elem_of_ascending. unfold ps. rewrite elem_of_providers.
      intros (import & package & _ & _ & _ & _ & Hi). apply by_name_named in Hi.
      by eapply named_bound.
    + split; [exact Hg2|]. intros i j. rewrite He2, He1, He, Hsplit, elem_of_ascending.
      unfold ps. rewrite elem_of_providers. unfold imports_from. rewrite Hif.
      setoid_rewrite by_name_named. naive_solver.
  - split; [done|]. intros i j. rewrite He1, He, Hsplit. unfold imports_from. rewrite Hif.
    naive_solver.
Qed.

Lemma link_dependencies_spec rest : ∀ pre g,
  dependencies = pre ++ rest → linked_upto (length pre) g →
  match link_dependencies by_name interfaces_by_dependency rest (length pre) g with
  | Ok g' => linked_upto n g' ∧
      ∀ dep req, dep ∈ rest → req ∈ dep_requires dep → ∃ i, named dependencies i req
  | Err _ => ∃ dep req, dep ∈ rest ∧ req ∈ dep_requires dep ∧ ∀ i, ¬ named dependencies i req
  end.
Proof.
  induction rest as [|dep rest IH]; intros pre g Hd Hg; simpl.
  { split; [by rewrite Hd, app_nil_r|]. by intros ? ? ?%elem_of_nil. }
  assert (dependencies !! length pre = Some dep) as Hk.
  { by rewrite Hd, lookup_app_r, Nat.sub_diag by lia. }
  destruct (link_requires _ _ _ _ g) as [g1|e] eqn:Hreq; simpl.
  - apply link_requires_Ok in Hreq as (froms & Hf & ->).
    specialize (IH (pre ++ [dep])). rewrite length_app, Nat.add_1_r in IH.
    pose proof (link_one _ _ _ _ Hk Hg Hf) as Hone.
    assert (dependencies = (pre ++ [dep]) ++ rest) as Hd' by by rewrite <-app_assoc.
    specialize (IH _ Hd' Hone).
    destruct (link_dependencies _ _ _ _ _) as [g'|e].
    + destruct IH as [Hg' Hknown]. split; [done|]. intros d req [->|Hin]%elem_of_cons; [|eauto].
      intros [p Hp]%list_elem_of_lookup. destruct (Forall2_lookup_l _ _ _ _ _ Hf Hp) as (i & _ & Hi).
      exists i. by apply by_name_named.
    + destruct IH as (d & req & Hin & H). exists d, req. split; [by right|done].
  - apply link_requires_Err in Hreq as (req & Hin & Hn). exists dep, req.
    split; [left|split; [done|]]. intros i Hi%by_name_named. congruence.
Qed.

End build.

Lemma no_edges_linked dependencies interfaces :
  linked_upto dependencies interfaces 0
    {| edges := replicate (length dependencies) ∅;
       indegree := replicate (length dependencies) 0 |}.
Proof.
  assert (∀ i, replicate (length dependencies) (∅ : gset nat) !!! i = ∅) as Hnone.
  { intros i. destruct (decide (i < length dependencies)).
    - by apply lookup_total_replicate_2.
    - by rewrite list_lookup_total_alt, lookup_ge_None_2 by (rewrite length_replicate; lia). }
  split.
  - split; simpl; [by rewrite length_replicate..| |].
    + intros i j. unfold edge. simpl. rewrite Hnone. set_solver.
    + intros j Hj. rewrite lookup_total_replicate_2 by done. symmetry. apply size_empty_iff.
      intros i. rewrite elem_of_preds, Hnone. set_solver.
  - intros i j. unfold edge. simpl. rewrite Hnone. split; [set_solver|]. intros [? _]. lia.
Qed.

(** The graph exists when names are distinct and known, and its edges are the needs. *)
Lemma dependency_graph_spec dependencies interfaces :
  match dependency_graph dependencies interfaces with
  | Ok g => NoDup (dep_name <$> dependencies) ∧ requires_known dependencies ∧
      graph_ok (length dependencies) g ∧ ∀ i j, edge g i j ↔ needed_by dependencies interfaces i j
  | Err _ => ¬ (NoDup (dep_name <$> dependencies) ∧ requires_known dependencies)
  end.
Proof.
  unfold dependency_graph.
  pose proof (index_by_name_spec dependencies [] ∅) as Hidx. simpl in Hidx.
  destruct (index_by_name dependencies 0 ∅) as [by_name|e]; simpl.
  2:{ intros [Hnd _]. by apply Hidx; [..|done]; [|constructor]. }
  destruct Hidx as [Hnd Hnamed]; [done|constructor|].
  pose proof (link_dependencies_spec dependencies interfaces by_name Hnamed dependencies []
    {| edges := replicate (length dependencies) ∅;
       indegree := replicate (length dependencies) 0 |} eq_refl (no_edges_linked _ _)) as Hlink.
  simpl in Hlink.
  destruct (link_dependencies _ _ _ _ _) as [g|e].
  - destruct Hlink as [[Hg He] Hknown].
    split_and!; [done|exact Hknown|done|]. intros i j. rewrite He.
    split; [naive_solver|]. intros Hn. split; [|done].
    destruct Hn as (dep & _ & Hj & _). by eapply lookup_lt_Some.
  - destruct Hlink as (dep & req & Hd & Hreq & Hn).
    intros [_ Hk]. destruct (Hk dep req Hd Hreq) as [i Hi]. by eapply Hn.
Qed.

(** ** The worklist drains the graph *)

(** A finite set each element of which needs another of the set holds a cycle. *)
Lemma no_source_cycle {A} `{EqDecision A} (k : nat) : ∀ (l : list A) (R : relation A),
  length l ≤ k → l ≠ [] → (∀ x, x ∈ l → ∃ y, y ∈ l ∧ R y x) → ∃ x, tc R x x.
Proof.
  induction k as [|k IH]; intros l R Hl Hne Hpred.
  { destruct l; [done|]. simpl in Hl. lia. }
  destruct l as [|x l]; [done|].
  destruct (Hpred x) as (y & Hy & Hyx); [left|].
  destruct (decide (y = x)) as [->|Hyne]; [exists x; by constructor|].
  (* contract x: its successors are reached from its predecessors *)
  set (R' := λ a b, R a b ∨ (R a x ∧ R x b)).
  destruct (IH (filter (λ a, a ≠ x) (x :: l)) R') as [z Hz].
  - rewrite filter_cons_False by naive_solver. etrans; [apply length_filter|]. simpl in Hl. lia.
  - intros E. eapply (not_elem_of_nil y). rewrite <-E. by apply list_elem_of_filter.
  - intros z [Hzx Hz]%list_elem_of_filter. destruct (Hpred z Hz) as (w & Hw & Hwz).
    destruct (decide (w = x)) as [->|Hwx].
    + exists y. split; [by apply list_elem_of_filter|]. by right.
    + exists w. split; [by apply list_elem_of_filter|]. by left.
  - exists z. enough (∀ a b, tc R' a b → tc R a b) as Hsub by auto. clear.
    induction 1 as [a b [H|[H H']]|a b c [H|[H H']] _ IHz].
    + by apply tc_once.
    + eapply tc_l; [done|]. by apply tc_once.
    + by eapply tc_l.
    + eapply tc_l; [done|]. by eapply tc_l.
Qed.

Lemma filter_ext_in {A} (P Q : A → Prop) `{∀ x, Decision (P x), ∀ x, Decision (Q x)}
    (l : list A) :
  (∀ x, x ∈ l → P x ↔ Q x) → filter P l = filter Q l.
Proof.
  induction l as [|x l IH]; intros HPQ; [done|]. rewrite !filter_cons, IH.
  - destruct (HPQ x ltac:(left)), (decide (P x)), (decide (Q x)); tauto.
  - intros y Hy. apply HPQ. by right.
Qed.

Section drain.
Context (dependencies : list PluginDependency) (g : graph).
Abbreviation n := (length dependencies).
Context (g_ok : graph_ok n g).
Implicit Types (ready order : list nat) (ind : list nat).

Lemma release_spec targets : ∀ ind ready,
  NoDup targets → Forall (λ j, j < length ind) targets →
  let '(ind', ready') := release targets ind ready in
  length ind' = length ind ∧
  (∀ j, ind' !!! j = if decide (j ∈ targets) then pred (ind !!! j) else ind !!! j) ∧
  ready' = ready ++ filter (λ j, pred (ind !!! j) = 0) targets.
Proof.
  induction targets as [|t targets IH]; intros ind ready Hnd Hlt; simpl.
  { split_and!; [done|done|by rewrite app_nil_r]. }
  apply NoDup_cons in Hnd as [Ht Hnd]. apply Forall_cons in Hlt as [Htl Hlt].
  specialize (IH (<[t := pred (ind !!! t)]> ind)
    (if decide (pred (ind !!! t) = 0) then ready ++ [t] else ready) Hnd).
  rewrite length_insert in IH. specialize (IH Hlt).
  destruct (release _ _ _) as [ind' ready']. destruct IH as (Hlen & Hind & Hready).
  assert (∀ j, j ∈ targets → <[t := pred (ind !!! t)]> ind !!! j = ind !!! j) as Hsame.
  { intros j Hj. apply list_lookup_total_insert_ne. by intros ->. }
  split_and!; [done| |].
  - intros j. rewrite Hind. destruct (decide (j = t)) as [->|Hne].
    + rewrite decide_False, decide_True by (done || left). by apply list_lookup_total_insert_eq.
    + rewrite list_lookup_total_insert_ne by done.
      destruct (decide (j ∈ targets)); [rewrite decide_True by by right|
        rewrite decide_False by (rewrite elem_of_cons; tauto)]; done.
  - rewrite Hready, filter_cons.
    rewrite (filter_ext_in _ (λ j, pred (ind !!! j) = 0) targets).
    2:{ intros j Hj. by rewrite Hsame. }
    destruct (decide (pred (ind !!! t) = 0)); [by rewrite <-app_assoc|done].
Qed.

Record drain_inv ind ready order : Prop := {
  di_length : length ind = n;
  di_nodup : NoDup (order ++ ready);
  di_zero j : j ∈ order ++ ready ↔ j < n ∧ ind !!! j = 0;
  di_count j : j < n → ind !!! j = size (preds (edges g) j ∖ list_to_set order);
  di_before p j i : order !! p = Some j → edge g i j → i ∈ take p order;
}.

Lemma drain_inv_Permutation ind ready ready' order :
  ready ≡ₚ ready' → drain_inv ind ready order → drain_inv ind ready' order.
Proof. intros Hp [? ? ? ? ?]. split; try done; by setoid_rewrite <-Hp. Qed.

Lemma initially_ready_inv : drain_inv (indegree g) (initially_ready (indegree g)) [].
Proof.
  destruct g_ok as [He Hi Hb Hc]. split; [done|..]; simpl.
  - apply NoDup_filter, NoDup_seq.
  - intros j. unfold initially_ready. rewrite list_elem_of_filter, elem_of_seq, Hi. naive_solver lia.
  - intros j Hj. rewrite Hc by done. f_equal. set_solver.
  - done.
Qed.

Lemma pred_of_popped ind ready order next j :
  drain_inv ind (ready ++ [next]) order → edge g next j →
  j < n ∧ j ∉ order ++ ready ++ [next] ∧
  size (preds (edges g) j ∖ list_to_set (order ++ [next])) = pred (ind !!! j).
Proof.
  intros [Hl Hnd Hz Hc Hb] Hj. destruct (go_bound _ _ g_ok _ _ Hj) as [Hnn Hjn].
  assert (next ∉ order) as Hnext.
  { apply NoDup_app in Hnd as (_ & Hdis & _). intros Hin. apply (Hdis _ Hin). set_solver. }
  assert (next ∈ preds (edges g) j ∖ list_to_set order) as Hmem.
  { rewrite elem_of_difference, elem_of_preds, (go_edges _ _ g_ok), elem_of_list_to_set. done. }
  assert (size (preds (edges g) j ∖ list_to_set (order ++ [next])) = pred (ind !!! j)) as Hsize.
  { rewrite Hc by done.
    assert (preds (edges g) j ∖ list_to_set (order ++ [next]) =
      (preds (edges g) j ∖ list_to_set order) ∖ {[next]}) as -> by set_solver.
    rewrite size_difference by set_solver. rewrite size_singleton. lia. }
  split_and!; [done| |done].
  rewrite Hz, Hc by done. intros [_ E%size_empty_inv]. set_solver.
Qed.

(** Popping one dependency keeps the invariant. *)
Lemma pop_inv ind ready order next ind' ready' :
  drain_inv ind (ready ++ [next]) order →
  release (ascending (edges g !!! next)) ind ready = (ind', ready') →
  drain_inv ind' ready' (order ++ [next]).
Proof.
  intros Hinv Hrel. pose proof Hinv as [Hl Hnd Hz Hc Hb].
  set (targets := ascending (edges g !!! next)) in *.
  assert (∀ j, j ∈ targets ↔ edge g next j) as Htargets.
  { intros j. unfold targets. by rewrite elem_of_ascending. }
  assert (NoDup targets) as Hndt.
  { unfold targets, ascending. rewrite sort_by_Permutation. apply NoDup_elements. }
  pose proof (release_spec targets ind ready Hndt) as Hspec. rewrite Hrel in Hspec.
  destruct Hspec as (Hlen & Hind & ->).
  { apply Forall_forall. intros j Hj%Htargets. rewrite Hl. by eapply go_bound. }
  assert (∀ j, edge g next j → j ∉ order ++ ready ++ [next]) as Hfresh.
  { intros j Hj. by eapply pred_of_popped. }
  assert (order ++ ready ++ [next] ≡ₚ (order ++ [next]) ++ ready) as Hperm.
  { rewrite <-app_assoc. by rewrite (Permutation_app_comm ready). }
  assert (∀ j, j < n → ind' !!! j = size (preds (edges g) j ∖ list_to_set (order ++ [next])))
    as Hcount.
  { intros j Hj. rewrite Hind. case_decide as Hin.
    - symmetry. eapply pred_of_popped; [done|]. by apply Htargets.
    - rewrite Hc by done. f_equal. apply set_eq. intros i.
      rewrite !elem_of_difference, !elem_of_list_to_set, elem_of_app, list_elem_of_singleton,
        elem_of_preds. rewrite Htargets in Hin. unfold edge in Hin. naive_solver. }
  split; [congruence| | |done|].
  - rewrite app_assoc. apply NoDup_app. split_and!.
    + by rewrite <-Hperm.
    + intros j Hj [_ Hin]%list_elem_of_filter. rewrite <-Hperm in Hj.
      eapply Hfresh; [|done]. by apply Htargets.
    + by apply NoDup_filter.
  - intros j. rewrite app_assoc, elem_of_app, <-Hperm, Hz, list_elem_of_filter, Htargets, Hind.
    destruct (decide (j ∈ targets)) as [Hin|Hin]; rewrite Htargets in Hin; [|naive_solver].
    destruct (pred_of_popped _ _ _ _ _ Hinv Hin) as (Hjn & Hjf & _).
    rewrite Hz in Hjf. naive_solver lia.
  - intros p j i Hp Hij. apply lookup_app_Some in Hp as [Hp|[Hle Hp]].
    + rewrite take_app_le by (apply lookup_lt_Some in Hp; lia). by eapply Hb.
    + apply list_lookup_singleton_Some in Hp as [Hp <-].
      assert (p = length order) as -> by lia. rewrite take_app_length.
      assert (next < n ∧ ind !!! next = 0) as [Hnn Hn0] by (apply Hz; set_solver).
      rewrite Hc in Hn0 by done. apply size_empty_inv in Hn0.
      destruct (decide (i ∈ order)) as [|Hi]; [done|]. exfalso.
      assert (i ∈ preds (edges g) next) as Hip.
      { apply elem_of_preds. rewrite (go_edges _ _ g_ok).
        split; [apply (go_bound _ _ g_ok _ _ Hij)|done]. }
      set_solver.
Qed.

Lemma drain_inv_bound ind ready order : drain_inv ind ready order → length order + length ready ≤ n.
Proof.
  intros [_ Hnd Hz _ _]. rewrite <-length_app.
  rewrite <-(length_seq n 0). apply submseteq_length, NoDup_submseteq; [done|].
  intros j [Hj _]%Hz. apply elem_of_seq. lia.
Qed.

(** The loop ends, with nothing ready. *)
Lemma drain_done fuel : ∀ ind ready order,
  drain_inv ind ready order → n < fuel + length order →
  ∃ ind' order', drain fuel dependencies (edges g) ind ready order = Some order' ∧
    drain_inv ind' [] order'.
Proof.
  induction fuel as [|fuel IH]; intros ind ready order Hinv Hfuel.
  { pose proof (drain_inv_bound _ _ _ Hinv). lia. }
  simpl. destruct (rev ready) as [|next rest] eqn:Hrev.
  - exists ind, order. split; [done|].
    assert (ready = []) as -> by (by rewrite <-(rev_involutive ready), Hrev). done.
  - assert (ready = rev rest ++ [next]) as -> by (by rewrite <-(rev_involutive ready), Hrev).
    destruct (release _ ind (rev rest)) as [ind' ready'] eqn:Hrel.
    eapply pop_inv in Hrel; [|done]. apply IH; [|rewrite length_app; simpl; lia].
    eapply drain_inv_Permutation; [|exact Hrel]. symmetry. apply sort_by_Permutation.
Qed.

(** A full order lists everything once, after what it needs. *)
Lemma full_order ind order :
  drain_inv ind [] order → length order = n → order ≡ₚ seq 0 n ∧ ∀ j, ¬ tc (edge g) j j.
Proof.
  intros [_ Hnd Hz _ Hb] Hlen. rewrite app_nil_r in *.
  assert (order ≡ₚ seq 0 n) as Hperm.
  { apply submseteq_length_Permutation; [|by rewrite length_seq, Hlen].
    apply NoDup_submseteq; [done|]. intros j [Hj _]%Hz. apply elem_of_seq. lia. }
  split; [done|].
  assert (∀ i j, tc (edge g) i j → ∀ p, order !! p = Some j → i ∈ take p order) as Hpos.
  { intros i j Htc. induction Htc as [i j H|i k j H _ IH]; intros p Hp; [by eapply Hb|].
    apply IH in Hp. apply list_elem_of_lookup in Hp as [q Hq].
    apply lookup_take_Some in Hq as [Hq Hqp]. apply (Hb _ _ _ Hq) in H.
    apply list_elem_of_lookup in H as [r [Hr Hrq]%lookup_take_Some].
    eapply list_elem_of_lookup_2. apply lookup_take_Some. split; [done|lia]. }
  intros j Hj.
  assert (j < n) as Hjn.
  { clear -Hj g_ok. inversion Hj as [? ? H|? k ? H _]; subst; by destruct (go_bound _ _ g_ok _ _ H). }
  assert (j ∈ order) as [p Hp]%list_elem_of_lookup.
  { rewrite Hperm. apply elem_of_seq. lia. }
  apply (Hpos _ _ Hj) in Hp as Hin. apply list_elem_of_lookup in Hin as [q [Hq Hqp]%lookup_take_Some].
  pose proof (NoDup_lookup _ _ _ _ Hnd Hp Hq). lia.
Qed.

(** A short order leaves a cycle. *)
Lemma short_order ind order :
  drain_inv ind [] order → length order ≠ n → ∃ j, tc (edge g) j j.
Proof.
  intros Hinv Hlen. pose proof (drain_inv_bound _ _ _ Hinv) as Hle. simpl in Hle.
  destruct Hinv as [_ Hnd Hz Hc _]. rewrite app_nil_r in *.
  set (rest := filter (λ j, j ∉ order) (seq 0 n)).
  eapply (no_source_cycle (length rest) rest); [done| |].
  - intros Hempty. apply Hlen. apply (anti_symm (≤)); [lia|].
    rewrite <-(length_seq n 0). apply submseteq_length, NoDup_submseteq; [apply NoDup_seq|].
    intros j Hj. destruct (decide (j ∈ order)) as [|Hn]; [done|].
    assert (j ∈ rest) as Hin by (by apply list_elem_of_filter).
    rewrite Hempty in Hin. by apply elem_of_nil in Hin.
  - intros j [Hj Hjn]%list_elem_of_filter. apply elem_of_seq in Hjn.
    assert (size (preds (edges g) j ∖ list_to_set order : gset nat) ≠ 0) as Hne.
    { rewrite <-Hc by lia. intros E. apply Hj, Hz. split; [lia|done]. }
    apply size_non_empty_iff, set_choose in Hne as [i Hi].
    rewrite elem_of_difference, elem_of_preds, elem_of_list_to_set, (go_edges _ _ g_ok) in Hi.
    exists i. split; [|apply Hi]. apply list_elem_of_filter. rewrite elem_of_seq. naive_solver lia.
Qed.

End drain.

(** What the resolver answers, case by case. *)
Lemma topological_order_cases dependencies interfaces :
  ∃ r, dependency_topological_order dependencies interfaces = Some r ∧
  match r with
  | Ok order =>
    NoDup (dep_name <$> dependencies) ∧ requires_known dependencies ∧
    (∀ j, ¬ tc (needed_by dependencies interfaces) j j) ∧
    order ≡ₚ seq 0 (length dependencies) ∧
    ∀ p j i, order !! p = Some j → needed_by dependencies interfaces i j → i ∈ take p order
  | Err e =>
    ¬ (NoDup (dep_name <$> dependencies) ∧ requires_known dependencies) ∨
    e = cycle_error ∧ ∃ j, tc (needed_by dependencies interfaces) j j
  end.
Proof.
  unfold dependency_topological_order.
  pose proof (dependency_graph_spec dependencies interfaces) as Hg.
  destruct (dependency_graph dependencies interfaces) as [g|e].
  2:{ exists (Err e). split; [done|by left]. }
  destruct Hg as (Hnd & Hk & Hok & Hedge).
  assert (∀ i j, tc (edge g) i j ↔ tc (needed_by dependencies interfaces) i j) as Htc.
  { intros i j. split; (eapply tc_subrel || apply (tc_congruence id)); intros ? ?; apply Hedge. }
  destruct (drain_done dependencies g Hok (S (length dependencies)) (indegree g)
    (sort_by (by_dependency_name dependencies) (initially_ready (indegree g))) [])
    as (ind & order & Hdrain & Hinv).
  { eapply drain_inv_Permutation; [symmetry; apply sort_by_Permutation|].
    by apply initially_ready_inv. }
  { simpl. lia. }
  cbv zeta. rewrite Hdrain. eexists. split; [done|]. case_decide as Hlen.
  - destruct (full_order _ _ Hok _ _ Hinv Hlen) as [Hperm Hacyc]. split_and!; [done..| |done|].
    + intros j Hj. by eapply Hacyc, Htc.
    + intros p j i Hp Hn. eapply (di_before _ _ _ _ _ Hinv); [done|]. by apply Hedge.
  - right. split; [done|]. destruct (short_order _ _ Hok _ _ Hinv Hlen) as [j Hj].
    exists j. by apply Htc.
Qed.

(** C34 (functional). The plugins of a service are ordered exactly when they can be: the
    resolver always answers, and it answers with an order precisely when no two dependencies
    share a name, every required dependency is declared and no dependency needs itself through
    others, where a dependency needs what it requires and what provides its imports.  The order
    lists every dependency once, each after all it needs; an order that comes up short is
    reported as a cycle only when there is one. *)
Theorem dependency_order_exact dependencies interfaces :
  ∃ r, dependency_topological_order dependencies interfaces = Some r ∧
  ((∃ order, r = Ok order) ↔
     NoDup (dep_name <$> dependencies) ∧ requires_known dependencies ∧
     ∀ j, ¬ tc (needed_by dependencies interfaces) j j) ∧
  (∀ order, r = Ok order →
     order ≡ₚ seq 0 (length dependencies) ∧
     ∀ p j i, order !! p = Some j → needed_by dependencies interfaces i j → i ∈ take p order) ∧
  (r = Err cycle_error →
     NoDup (dep_name <$> dependencies) → requires_known dependencies →
     ∃ j, tc (needed_by dependencies interfaces) j j).
Proof.
  destruct (topological_order_cases dependencies interfaces) as (r & -> & Hr).
  exists r. split; [done|]. destruct r as [order|e].
  - destruct Hr as (Hnd & Hk & Hac & Hperm & Hbefore).
    split_and!; [by split; eauto| |done]. by intros o [= <-].
  - split_and!; [split; [by intros [? ?]|]|done|].
    + intros (Hnd & Hk & Hac). destruct Hr as [Hr|(_ & j & Hj)]; [by destruct Hr|by destruct (Hac j)].
    + intros _ Hnd Hk. destruct Hr as [Hr|[_ Hj]]; [by destruct Hr|done].
Qed.
