(* ===== verification/Plugins.v ===== *)
(** * Plugins: capabilities and the linking of imports

    The capability checker ([imagod-runtime-wasmtime/src/capability_checker.rs]), the registry
    of native plugins ([native_plugins/registry.rs]) and the linking of a component
    ([plugin_resolver.rs]: [register_plugin_import_shims] and
    [instantiate_plugin_dependencies]).

    The engine is a parameter ([Engine]): how a component file is read, the types it imports
    and exports, the exports of an instance, which definitions a linker refuses, and what
    instantiation does.  A linker is the list of the operations applied to it.  What the
    closures registered with it do when called is the data of a [Shim].

    Shown: a component that links has the capability for every function it imports; no
    function of a dependency is ever defined in a linker without it, also when linking fails;
    all this for every plugin of a service, each under its own policy. *)

From S2P Require Import Prelude Protocol Text Ipc Component Bridge PluginOrder.

(** ** Capabilities *)

Definition rule_matches (rule interface_name function_name : string) : bool :=
  bool_decide (rule = "*") || bool_decide (rule = function_name) ||
  bool_decide (rule = interface_name +:+ "." +:+ function_name) ||
  bool_decide (rule = interface_name +:+ "/" +:+ function_name) ||
  bool_decide (rule = interface_name +:+ "#" +:+ function_name).

(** [map.get(key).or_else(|| map.get("*"))]. *)
Definition rules_for (rules : gmap string (list string)) (key : string) : option (list string) :=
  match rules !! key with Some found => Some found | None => rules !! "*" end.

Definition is_dependency_function_allowed (policy : CapabilityPolicy)
    (dependency_name interface_name function_name : string) : bool :=
  cap_privileged policy ||
  match rules_for (cap_deps policy) dependency_name with
  | None => false
  | Some rules => existsb (λ rule, rule_matches rule interface_name function_name) rules
  end.

Definition ensure_dependency_function_allowed (caller_name : string) (policy : CapabilityPolicy)
    (dependency_name interface_name function_name : string) : iresult unit :=
  ensure (is_dependency_function_allowed policy dependency_name interface_name function_name)
    (map_runtime_unauthorized_error ("capability denied caller '" +:+ caller_name +:+
      "' -> dependency '" +:+ dependency_name +:+ "' function '" +:+ interface_name +:+ "." +:+
      function_name +:+ "'")).

Definition is_wasi_function_allowed (policy : CapabilityPolicy)
    (interface_name function_name : string) : bool :=
  cap_privileged policy ||
  match rules_for (cap_wasi policy) interface_name with
  | None => false
  | Some rules => existsb (λ rule, rule_matches rule interface_name function_name) rules
  end.

Definition ensure_wasi_function_allowed (caller_name : string) (policy : CapabilityPolicy)
    (interface_name function_name : string) : iresult unit :=
  ensure (is_wasi_function_allowed policy interface_name function_name)
    (map_runtime_unauthorized_error ("capability denied caller '" +:+ caller_name +:+
      "' -> wasi '" +:+ interface_name +:+ "' function '" +:+ function_name +:+ "'")).

(** ** Component types *)

Inductive ComponentItem (R : Type) :=
  | ItemFunc (f : ComponentFunc R)
  | ItemInstance (exports : list (string * ComponentItem R))
  | ItemResource (r : R)
  | ItemOther.
Arguments ItemFunc {R}.
Arguments ItemInstance {R}.
Arguments ItemResource {R}.
Arguments ItemOther {R}.

Abbreviation items R := (list (string * ComponentItem R)).

(** The loops skip what is not a function, and what is not a resource. *)
Definition functions_of {R} (l : items R) : list (string * ComponentFunc R) :=
  omap (λ '(name, item), match item with ItemFunc f => Some (name, f) | _ => None end) l.
Definition resources_of {R} (l : items R) : list (string * R) :=
  omap (λ '(name, item), match item with ItemResource r => Some (name, r) | _ => None end) l.
Definition instances_of {R} (l : items R) : list (string * items R) :=
  omap (λ '(name, item), match item with ItemInstance l => Some (name, l) | _ => None end) l.

Definition enforce_wasi_import_capabilities {R} (caller_name : string) (policy : CapabilityPolicy)
    (interface_name : string) (instance_ty : items R) : iresult unit :=
  _ ← try_map (λ f : string * ComponentFunc R,
        ensure_wasi_function_allowed caller_name policy interface_name f.1)
      (functions_of instance_ty);
  Ok ().

(** ** Bindings to other services *)

Definition normalize_binding_wit_id (raw : string) : string :=
  let trimmed := trim raw in
  match split_once "/"%char trimmed with
  | None => trimmed
  | Some (package, interface_with_version) =>
    package +:+ "/" +:+ hd interface_with_version (split "@"%char interface_with_version)
  end.

Fixpoint build_binding_target_map_loop (bindings : list ServiceBinding)
    (by_wit : gmap string string) : iresult (gmap string string) :=
  match bindings with
  | [] => Ok by_wit
  | binding :: rest =>
    let normalized_wit := normalize_binding_wit_id (bind_wit binding) in
    _ ← ensure (negb (bool_decide (normalized_wit = "")))
          (map_runtime_error "binding wit must not be empty");
    match by_wit !! normalized_wit with
    | Some existing =>
      _ ← ensure (bool_decide (existing = bind_name binding))
            (map_runtime_error ("binding wit '" +:+ normalized_wit +:+
              "' maps to multiple services ('" +:+ existing +:+ "' and '" +:+
              bind_name binding +:+ "')"));
      build_binding_target_map_loop rest by_wit
    | None => build_binding_target_map_loop rest (<[normalized_wit := bind_name binding]> by_wit)
    end
  end.
Definition build_binding_target_map (bindings : list ServiceBinding)
    : iresult (gmap string string) :=
  build_binding_target_map_loop bindings ∅.

Definition resolve_binding_target_for_import (binding_targets : gmap string string)
    (import_name : string) : option (string * string) :=
  let normalized := normalize_binding_wit_id import_name in
  (λ target_service, (target_service, normalized)) <$> binding_targets !! normalized.

Record BindingShimSignature (R : Type) := { sig_param_types : list (Ty R); ok_type : option (Ty R) }.
Arguments sig_param_types {R}.
Arguments ok_type {R}.

Definition binding_import_error (import_name func_name what : string) : ImagodError :=
  map_runtime_error ("binding import '" +:+ import_name +:+ "." +:+ func_name +:+ "' " +:+ what).

Definition parse_binding_shim_signature {R} (import_ty : ComponentFunc R)
    (import_name func_name : string) : iresult (BindingShimSignature R) :=
  let error := binding_import_error import_name func_name in
  first_param ← ok_or (head (fn_params import_ty)) (error "must take connection as first argument");
  _ ← ensure (match first_param with TBorrow _ => true | _ => false end)
        (error "first argument must be borrow<connection>");
  result_type ← ok_or (match fn_results import_ty with [t] => Some t | _ => None end)
                  (error "must return exactly one result");
  '(ok, err) ← ok_or (match result_type with TResult ok err => Some (ok, err) | _ => None end)
                 (error "must return result<_, string>");
  err_ty ← ok_or err (error "result must define err type");
  _ ← ensure (match err_ty with TString => true | _ => false end)
        (error "err type must be string");
  Ok {| sig_param_types := fn_params import_ty; ok_type := ok |}.

(** ** Linkers *)

(** What a function registered with a linker does when it is called: it calls an export of
    the component itself, a function of another plugin through the bridge, or a function of
    another service over a connection. *)
Inductive Shim (R F : Type) :=
  | SelfShim (interface_name function_name : string)
  | DependencyShim (target_dependency : string) (callee : F)
      (import_param_types import_result_types : list (Ty R))
      (resource_bindings : list (DependencyResourceBinding R))
  | BindingShim (target_service interface_id function_name : string)
      (signature : BindingShimSignature R).
Arguments SelfShim {R F}.
Arguments DependencyShim {R F}.
Arguments BindingShim {R F}.

Inductive LinkOp (R F : Type) :=
  | AddWasi
  | AddWasiHttp
  | AddWasiNn
  | AllowShadowing (allow : bool)
  | AddNative (package_name : string)
  | DefineInstance (name : string)
  | DefineResource (interface_name resource_name : string) (host_dynamic_type_id : Z)
  | DefineFunc (interface_name function_name : string) (shim : Shim R F).
Arguments AddWasi {R F}.
Arguments AddWasiHttp {R F}.
Arguments AddWasiNn {R F}.
Arguments AllowShadowing {R F}.
Arguments AddNative {R F}.
Arguments DefineInstance {R F}.
Arguments DefineResource {R F}.
Arguments DefineFunc {R F}.

(** ** Native plugins *)

Record NativePlugin (RM Op : Type) := {
  np_package_name : string;
  np_supports_import : string → bool;
  np_symbols : list string;
  np_validate_resources : RM → iresult unit;
  np_add_to_linker : list Op → iresult unit;
}.
Arguments np_package_name {RM Op}.
Arguments np_supports_import {RM Op}.
Arguments np_symbols {RM Op}.
Arguments np_validate_resources {RM Op}.
Arguments np_add_to_linker {RM Op}.

Section registry.
Context {RM Op : Type}.
Abbreviation NativePluginRegistry := (gmap string (NativePlugin RM Op)).

Definition supports_symbol (plugin : NativePlugin RM Op) (symbol : string) : bool :=
  bool_decide (symbol ∈ np_symbols plugin).

Definition STAGE_NATIVE_PLUGIN_REGISTRY : string := "runtime.native_plugin_registry".

Definition register_plugin (plugin : NativePlugin RM Op) (plugins : NativePluginRegistry)
    : iresult NativePluginRegistry :=
  let package_name := trim (np_package_name plugin) in
  _ ← ensure (negb (bool_decide (package_name = ""))) (new_error Internal
        STAGE_NATIVE_PLUGIN_REGISTRY "native plugin package name must not be empty");
  _ ← ensure (negb (bool_decide (is_Some (plugins !! package_name)))) (new_error Internal
        STAGE_NATIVE_PLUGIN_REGISTRY
        ("native plugin '" +:+ package_name +:+ "' is already registered"));
  Ok (<[package_name := plugin]> plugins).

Fixpoint filtered_loop (include : string → bool) (plugins : list (string * NativePlugin RM Op))
    (builder : NativePluginRegistry) : iresult NativePluginRegistry :=
  match plugins with
  | [] => Ok builder
  | (package_name, plugin) :: rest =>
    if include package_name
    then builder ← register_plugin plugin builder; filtered_loop include rest builder
    else filtered_loop include rest builder
  end.
Definition filtered (include : string → bool) (plugins : NativePluginRegistry)
    : iresult NativePluginRegistry :=
  filtered_loop include (btree_iter plugins) ∅.

End registry.

(** ** The engine *)

Class Engine (R H C I X F : Type) := {
  from_file : string → result string C;
  component_imports : C → items R;
  component_exports : C → items R;
  get_export_index : I → option X → string → option X;
  get_func : I → X → option F;
  func_ty : F → ComponentFunc R;
  get_resource : I → X → option R;
  linker_refuses : list (LinkOp R F) → LinkOp R F → option string;
  instantiate_component : WasmDependencyResourceState H → list (LinkOp R F) → C →
    WasmDependencyResourceState H * result string I;
}.

Lemma omap_seq_lookup {A} (l : list A) : omap (l !!.) (seq 0 (length l)) = l.
Proof.
  enough (∀ pre, omap ((pre ++ l) !!.) (seq (length pre) (length l)) = l) as Hall by apply (Hall []).
  induction l as [|x l IH]; intros pre; [done|]. simpl.
  rewrite lookup_app_r, Nat.sub_diag by lia. simpl. f_equal.
  specialize (IH (pre ++ [x])). rewrite <-app_assoc, length_app, Nat.add_1_r in IH. exact IH.
Qed.

Section linking.
Context {RM R H C I X F : Type} `{EqDecision R} `{!Engine R H C I X F}.
Abbreviation Op := (LinkOp R F).
Abbreviation plugin := (NativePlugin RM Op).

(** An instance, with the linker it was made with. *)
Record AvailablePlugin := { ap_kind : PluginKind; ap_instance : option (I * list Op) }.

(** *** Programs over the resource table and a linker *)

Inductive fault := Failed (e : ImagodError) | Panicked.
Record link_state := { ls_table : WasmDependencyResourceState H; ls_linker : list Op }.
Definition linking (A : Type) : Type := link_state → link_state * result fault A.

#[local] Instance linking_ret : MRet linking := λ A a s, (s, Ok a).
#[local] Instance linking_bind : MBind linking := λ A B f m s,
  let '(s, r) := m s in
  match r with Ok a => f a s | Err e => (s, Err e) end.
Definition pure {A} (r : iresult A) : linking A := λ s, (s, map_err Failed r).

(** One operation on the linker, refused with an error described by [context]. *)
Definition link_op (context : string) (op : Op) : linking unit := λ s,
  match linker_refuses (ls_linker s) op with
  | Some e => (s, Err (Failed (map_runtime_error (context +:+ e))))
  | None => ({| ls_table := ls_table s; ls_linker := ls_linker s ++ [op] |}, Ok ())
  end.
(** [linker.allow_shadowing(allow)] cannot fail. *)
Definition allow_shadowing (allow : bool) : linking unit := λ s,
  ({| ls_table := ls_table s; ls_linker := ls_linker s ++ [AllowShadowing allow] |}, Ok ()).

Definition for_each {A} (f : A → linking unit) : list A → linking unit :=
  fix go l :=
    match l with
    | [] => mret ()
    | x :: l => _ ← f x; go l
    end.

(** *** Exports of a component and of an instance *)

Definition collect_component_instance_export_names (component : C) : gset string :=
  list_to_set (instances_of (component_exports component)).*1.
Definition collect_component_instance_import_names (component : C) : list string :=
  filter (λ name, starts_with "wasi:" name = false)
    (instances_of (component_imports component)).*1.

Definition find_named {A} (name : string) (l : list (string * A)) : option A :=
  match list_find (λ x, x.1 = name) l with Some (_, x) => Some x.2 | None => None end.

Definition resolve_component_export_type (component : C) (interface_name function_name : string)
    : iresult (ComponentFunc R) :=
  interface_ty ← ok_or (find_named interface_name (instances_of (component_exports component)))
    (map_runtime_error ("self provider export interface '" +:+ interface_name +:+
      "' was not found"));
  ok_or (find_named function_name (functions_of interface_ty))
    (map_runtime_error ("self provider export function '" +:+ interface_name +:+ "." +:+
      function_name +:+ "' was not found")).

Definition resolve_wasm_export_from_instance (instance : I) (interface_name function_name : string)
    : iresult F :=
  interface_index ← ok_or (get_export_index instance None interface_name)
    (map_runtime_error ("plugin export interface '" +:+ interface_name +:+ "' was not found"));
  function_index ← ok_or
    (match get_export_index instance (Some interface_index) function_name with
     | Some index => Some index
     | None => get_export_index instance None function_name
     end)
    (map_runtime_error ("plugin export function '" +:+ interface_name +:+ "." +:+ function_name +:+
      "' was not found"));
  ok_or (get_func instance function_index)
    (map_runtime_error ("plugin export '" +:+ interface_name +:+ "." +:+ function_name +:+
      "' is not a function")).

Definition resolve_wasm_plugin_export (p : AvailablePlugin)
    (interface_name function_name : string) : iresult F :=
  '(instance, _) ← ok_or (ap_instance p)
    (map_runtime_error "internal error: wasm plugin dependency is missing instance");
  resolve_wasm_export_from_instance instance interface_name function_name.

Definition resolve_dependency_resource_type (instance : I) (interface_name resource_name : string)
    : iresult R :=
  interface_export ← ok_or (get_export_index instance None interface_name)
    (map_runtime_error ("wasm dependency export interface '" +:+ interface_name +:+
      "' was not found"));
  resource_export ← ok_or (get_export_index instance (Some interface_export) resource_name)
    (map_runtime_error ("wasm dependency export resource '" +:+ interface_name +:+ "." +:+
      resource_name +:+ "' was not found"));
  ok_or (get_resource instance resource_export)
    (map_runtime_error ("wasm dependency export '" +:+ interface_name +:+ "." +:+ resource_name +:+
      "' is not a resource")).

(** [store.data_mut().wasm_dependency_resource_type_id(key)]. *)
Definition wasm_dependency_resource_type_id (key : WasmDependencyResourceKey) : linking Z := λ s,
  match type_id_for key (ls_table s) with
  | Some (table, type_id) => ({| ls_table := table; ls_linker := ls_linker s |}, Ok type_id)
  | None => (s, Err Panicked)
  end.

Fixpoint collect_dependency_resource_bindings (target_dependency interface_name : string)
    (resources : list (string * R)) (instance : I) : linking (list (DependencyResourceBinding R)) :=
  match resources with
  | [] => mret []
  | (resource_name, resource_ty) :: rest =>
    callee_resource ← pure (resolve_dependency_resource_type instance interface_name resource_name);
    type_id ← wasm_dependency_resource_type_id
      {| key_dependency_name := target_dependency; key_interface_name := interface_name;
         key_resource_name := resource_name |};
    bindings ← collect_dependency_resource_bindings target_dependency interface_name rest instance;
    mret ({| import_resource := resource_ty; callee_resource := callee_resource;
             host_dynamic_type_id := type_id; rb_resource_name := resource_name |} :: bindings)
  end.

(** The destructor registered for a bridged resource: the resource of the callee to drop. *)
Definition drop_bridged_resource (resource_name interface_name : string) (type_id rep : Z)
    (table : WasmDependencyResourceState H) : WasmDependencyResourceState H * result string H :=
  let '(table, stored) := remove_resource rep table in
  (table,
   stored ← ok_or stored ("missing bridged dependency resource '" +:+ resource_name +:+ "' rep=" +:+
              to_string rep +:+ " for '" +:+ interface_name +:+ "'");
   _ ← ensure (stored_type_id stored =? type_id)%Z
         ("bridged dependency resource '" +:+ resource_name +:+ "' rep=" +:+ to_string rep +:+
          " for '" +:+ interface_name +:+ "' has unexpected host type " +:+
          to_string (stored_type_id stored));
   Ok (stored_resource stored)).

(** *** The imports of a component *)

Definition register_binding_import_shims (import_name : string) (instance_ty : items R)
    (target_service interface_id : string) : linking unit :=
  _ ← link_op ("failed to define binding import namespace '" +:+ import_name +:+ "': ")
        (DefineInstance import_name);
  for_each (λ '(func_name, import_ty),
    signature ← pure (parse_binding_shim_signature import_ty import_name func_name);
    link_op ("failed to define binding rpc shim '" +:+ import_name +:+ "." +:+ func_name +:+ "': ")
      (DefineFunc import_name func_name
         (BindingShim target_service interface_id func_name signature)))
    (functions_of instance_ty).

(** [mark_native_plugin_linked] and the linking it guards. *)
Definition link_native_plugin (native_plugin : plugin) (linked : gset string)
    : linking (gset string) :=
  let package_name := np_package_name native_plugin in
  if decide (package_name ∈ linked) then mret linked
  else
    _ ← allow_shadowing true;
    _ ← (λ s,
      let '(s, link_result) :=
        (_ ← (λ s, match np_add_to_linker native_plugin (ls_linker s) with
                   | Ok _ => ({| ls_table := ls_table s;
                                 ls_linker := ls_linker s ++ [AddNative package_name] |}, Ok ())
                   | Err e => (s, Err (Failed e))
                   end) : linking unit;
         link_op ("failed to refresh WASI linker after native plugin '" +:+ package_name +:+
                  "' link: ") AddWasi) s in
      let '(s, _) := allow_shadowing false s in
      (s, link_result)) : linking unit;
    mret ({[package_name]} ∪ linked).

Section imports.
Context (native_plugins : gmap string plugin).
Context (component : C) (caller_name : string).
Context (explicit_dependency_names : gset string) (capabilities : CapabilityPolicy).
Context (available_plugins : gmap string AvailablePlugin).
Context (self_instance : bool).

Definition register_native_import (target_dependency import_name : string) (instance_ty : items R)
    (linked : gset string) : linking (gset string) :=
  native_plugin ← pure (ok_or (native_plugins !! target_dependency)
    (map_runtime_error ("native plugin '" +:+ target_dependency +:+
      "' is not registered in runtime registry")));
  _ ← pure (ensure (np_supports_import native_plugin import_name)
    (map_runtime_error ("native plugin '" +:+ target_dependency +:+
      "' does not support import '" +:+ import_name +:+ "'")));
  _ ← for_each (λ '(func_name, _),
    _ ← pure (ensure_dependency_function_allowed caller_name capabilities target_dependency
                import_name func_name);
    let native_symbol := import_name +:+ "." +:+ func_name in
    pure (ensure (supports_symbol native_plugin native_symbol)
      (map_runtime_error ("native plugin '" +:+ target_dependency +:+
        "' does not expose symbol '" +:+ native_symbol +:+ "'"))))
    (functions_of instance_ty);
  link_native_plugin native_plugin linked.

Definition resource_bindings_for (provider : PluginImportProvider) (import_name : string)
    (instance_ty : items R) : linking (list (DependencyResourceBinding R)) :=
  match provider with
  | SelfComponent => mret []
  | Dependency target_dependency =>
    p ← pure (ok_or (available_plugins !! target_dependency)
      (map_runtime_error ("missing target dependency '" +:+ target_dependency +:+
        "' for plugin import '" +:+ import_name +:+ "'")));
    match ap_kind p with
    | Native => mret []
    | Wasm =>
      '(instance, _) ← pure (ok_or (ap_instance p)
        (map_runtime_error ("internal error: wasm plugin dependency '" +:+ target_dependency +:+
          "' is missing instance during bridge registration")));
      bindings ← collect_dependency_resource_bindings target_dependency import_name
                   (resources_of instance_ty) instance;
      _ ← for_each (λ binding,
        link_op ("failed to define bridged dependency resource '" +:+ import_name +:+ "." +:+
                 rb_resource_name binding +:+ "': ")
          (DefineResource import_name (rb_resource_name binding) (host_dynamic_type_id binding)))
        bindings;
      mret bindings
    end
  end.

Definition register_function (provider : PluginImportProvider) (import_name : string)
    (bindings : list (DependencyResourceBinding R)) (func : string * ComponentFunc R)
    : linking unit :=
  let '(func_name, import_ty) := func in
  match provider with
  | SelfComponent =>
    _ ← pure (ensure self_instance
      (map_runtime_error ("self provider is unavailable for caller='" +:+ caller_name +:+
        "', import='" +:+ import_name +:+ "'")));
    self_export_ty ← pure (resolve_component_export_type component import_name func_name);
    _ ← pure (ensure_component_signatures_match import_ty self_export_ty import_name func_name None);
    link_op ("failed to define self plugin shim '" +:+ import_name +:+ "." +:+ func_name +:+ "': ")
      (DefineFunc import_name func_name (SelfShim import_name func_name))
  | Dependency target_dependency =>
    _ ← pure (ensure_dependency_function_allowed caller_name capabilities target_dependency
                import_name func_name);
    p ← pure (ok_or (available_plugins !! target_dependency)
      (map_runtime_error ("missing target dependency '" +:+ target_dependency +:+
        "' for plugin import '" +:+ import_name +:+ "." +:+ func_name +:+ "'")));
    match ap_kind p with
    | Native => pure (Err (map_runtime_error ("internal error: native plugin dependency '" +:+
        target_dependency +:+ "' should have been linked before fallback bridge '" +:+
        import_name +:+ "." +:+ func_name +:+ "'")))
    | Wasm =>
      callee ← pure (resolve_wasm_plugin_export p import_name func_name);
      _ ← pure (ensure_component_signatures_match import_ty (func_ty callee) import_name func_name
                  (Some bindings));
      link_op ("failed to define wasm plugin shim '" +:+ import_name +:+ "." +:+ func_name +:+ "': ")
        (DefineFunc import_name func_name
           (DependencyShim target_dependency callee (fn_params import_ty) (fn_results import_ty)
              bindings))
    end
  end.

(** The native plugin that provides an import, if one does. *)
Definition native_dependency (provider : PluginImportProvider) : option string :=
  match provider with
  | Dependency target =>
    match available_plugins !! target with
    | Some p => match ap_kind p with Native => Some target | Wasm => None end
    | None => None
    end
  | SelfComponent => None
  end.

(** One iteration of the loop over the imported instances. *)
Definition register_import (binding_targets : gmap string string) (linked : gset string)
    (import : string * items R) : linking (gset string) :=
  let '(import_name, instance_ty) := import in
  if starts_with "wasi:" import_name then
    _ ← pure (enforce_wasi_import_capabilities caller_name capabilities import_name instance_ty);
    mret linked
  else
    match resolve_binding_target_for_import binding_targets import_name with
    | Some (target_service, interface_id) =>
      _ ← register_binding_import_shims import_name instance_ty target_service interface_id;
      mret linked
    | None =>
      provider ← pure (resolve_import_provider caller_name import_name
        (collect_component_instance_export_names component) explicit_dependency_names
        (dom available_plugins) self_instance);
      match native_dependency provider with
      | Some target => register_native_import target import_name instance_ty linked
      | None =>
        _ ← link_op ("failed to define plugin import namespace '" +:+ import_name +:+ "': ")
              (DefineInstance import_name);
        bindings ← resource_bindings_for provider import_name instance_ty;
        _ ← for_each (register_function provider import_name bindings) (functions_of instance_ty);
        mret linked
      end
    end.

Fixpoint register_imports (binding_targets : gmap string string) (linked : gset string)
    (imports : list (string * items R)) : linking unit :=
  match imports with
  | [] => mret ()
  | import :: rest =>
    linked ← register_import binding_targets linked import;
    register_imports binding_targets linked rest
  end.

Definition register_plugin_import_shims (bindings : list ServiceBinding) : linking unit :=
  binding_targets ← pure (build_binding_target_map bindings);
  register_imports binding_targets ∅ (instances_of (component_imports component)).

End imports.

(** *** All plugins of a service *)

Definition missing_component (name : string) : ImagodError :=
  map_runtime_error ("plugin dependency '" +:+ name +:+ "' missing component definition").
Definition load_component (name path : string) : iresult C :=
  map_err (λ e, map_runtime_error ("failed to load plugin component '" +:+ name +:+ "' from " +:+
                  path +:+ ": " +:+ e)) (from_file path).

Definition component_interfaces_for_dependency (dep : PluginDependency) (preloaded : gmap string C)
    : iresult (PluginComponentInterfaces * gmap string C) :=
  component ← ok_or (dep_component dep) (missing_component (dep_name dep));
  match pc_imports component, pc_exports component with
  | Some imports, Some exports =>
    Ok ({| if_imports := imports; if_exports := list_to_set exports |}, preloaded)
  | _, _ =>
    loaded ← load_component (dep_name dep) (pc_path component);
    Ok ({| if_imports := collect_component_instance_import_names loaded;
           if_exports := collect_component_instance_export_names loaded |},
        <[dep_name dep := loaded]> preloaded)
  end.

Fixpoint collect_interfaces (dependencies : list PluginDependency)
    (interfaces : gmap string PluginComponentInterfaces) (preloaded : gmap string C)
    : iresult (gmap string PluginComponentInterfaces * gmap string C) :=
  match dependencies with
  | [] => Ok (interfaces, preloaded)
  | dep :: rest =>
    match dep_kind dep with
    | Native => collect_interfaces rest interfaces preloaded
    | Wasm =>
      '(found, preloaded) ← component_interfaces_for_dependency dep preloaded;
      collect_interfaces rest (<[dep_name dep := found]> interfaces) preloaded
    end
  end.

Definition load_component_for_instantiation (dep : PluginDependency) (preloaded : gmap string C)
    : iresult (C * gmap string C) :=
  match preloaded !! dep_name dep with
  | Some component => Ok (component, delete (dep_name dep) preloaded)
  | None =>
    component_meta ← ok_or (dep_component dep) (missing_component (dep_name dep));
    component ← load_component (dep_name dep) (pc_path component_meta);
    Ok (component, preloaded)
  end.

Section instantiate.
Context (native_plugins : gmap string plugin) (resources : RM).
Context (explicit_dependency_names : gset string).

Definition new_linker : linking unit := λ s,
  ({| ls_table := ls_table s; ls_linker := [] |}, Ok ()).

Definition instantiate_async (name : string) (component : C) : linking (I * list Op) := λ s,
  let '(table, r) := instantiate_component (ls_table s) (ls_linker s) component in
  ({| ls_table := table; ls_linker := ls_linker s |},
   match r with
   | Ok instance => Ok (instance, ls_linker s)
   | Err e => Err (Failed (map_runtime_error ("failed to instantiate plugin component '" +:+
                name +:+ "': " +:+ e)))
   end).

Definition instantiate_dependency (dep : PluginDependency)
    (available : gmap string AvailablePlugin) (preloaded : gmap string C)
    : linking (gmap string AvailablePlugin * gmap string C) :=
  match dep_kind dep with
  | Native =>
    native_plugin ← pure (ok_or (native_plugins !! dep_name dep)
      (map_runtime_error ("native plugin '" +:+ dep_name dep +:+
        "' is declared in manifest but not registered in runtime")));
    _ ← pure (np_validate_resources native_plugin resources);
    mret (<[dep_name dep := {| ap_kind := Native; ap_instance := None |}]> available, preloaded)
  | Wasm =>
    '(component, preloaded) ← pure (load_component_for_instantiation dep preloaded);
    _ ← new_linker;
    _ ← link_op ("failed to add WASI linker for plugin '" +:+ dep_name dep +:+ "': ") AddWasi;
    _ ← link_op ("failed to add WASI HTTP linker for plugin '" +:+ dep_name dep +:+ "': ")
          AddWasiHttp;
    _ ← register_plugin_import_shims native_plugins component (dep_name dep)
          explicit_dependency_names (dep_capabilities dep) available true [];
    instance ← instantiate_async (dep_name dep) component;
    mret (<[dep_name dep := {| ap_kind := Wasm; ap_instance := Some instance |}]> available,
          preloaded)
  end.

Fixpoint instantiate_in_order (order : list PluginDependency)
    (available : gmap string AvailablePlugin) (preloaded : gmap string C)
    : linking (gmap string AvailablePlugin) :=
  match order with
  | [] => mret available
  | dep :: rest =>
    '(available, preloaded) ← instantiate_dependency dep available preloaded;
    instantiate_in_order rest available preloaded
  end.
End instantiate.

(** [None]: the order ran out of fuel, which it does not ([topological_order_cases]). *)
Definition instantiate_plugin_dependencies (native_plugins : gmap string plugin) (resources : RM)
    (dependencies : list PluginDependency) (s : link_state)
    : option (link_state * result fault (gmap string AvailablePlugin)) :=
  match collect_interfaces dependencies ∅ ∅ with
  | Err e => Some (s, Err (Failed e))
  | Ok (interfaces, preloaded) =>
    order ← dependency_topological_order dependencies interfaces;
    match order with
    | Err e => Some (s, Err (Failed e))
    | Ok order =>
      Some (instantiate_in_order native_plugins resources (all_dependency_names dependencies)
              (omap (dependencies !!.) order) ∅ preloaded s)
    end
  end.

(** ** What is defined in a linker *)

Definition op_authorized (policy : CapabilityPolicy) (targets : gmap string string) (op : Op) : Prop :=
  match op with
  | DefineFunc interface function (DependencyShim dep callee params results bindings) =>
    is_dependency_function_allowed policy dep interface function = true ∧
    Forall2 (ty_rel (paired (Some bindings))) params (fn_params (func_ty callee)) ∧
    Forall2 (ty_rel (paired (Some bindings))) results (fn_results (func_ty callee))
  | DefineFunc interface function (BindingShim target id f _) =>
    f = function ∧ id = normalize_binding_wit_id interface ∧ targets !! id = Some target
  | DefineFunc interface function (SelfShim i f) => i = interface ∧ f = function
  | _ => True
  end.

(** [m] only appends operations that satisfy [P], whether it fails or not. *)
Definition adds (P : Op → Prop) {A} (m : linking A) : Prop :=
  ∀ s, ∃ ops, ls_linker (m s).1 = ls_linker s ++ ops ∧ Forall P ops.
(** [Q] holds of what [m] returns. *)
Definition returns_ok {A} (m : linking A) (Q : A → Prop) : Prop :=
  ∀ s s' a, m s = (s', Ok a) → Q a.

Lemma adds_same P {A} (m : linking A) : (∀ s, ls_linker (m s).1 = ls_linker s) → adds P m.
Proof. intros Hm s. exists []. by rewrite Hm, app_nil_r. Qed.
Lemma adds_ret P {A} (a : A) : adds P (mret a).
Proof. by apply adds_same. Qed.
Lemma adds_pure P {A} (r : iresult A) : adds P (pure r).
Proof. by apply adds_same. Qed.
Lemma adds_bind P {A B} (m : linking A) (f : A → linking B) (Q : A → Prop) :
  adds P m → returns_ok m Q → (∀ a, Q a → adds P (f a)) → adds P (m ≫= f).
Proof.
  intros Hm Hq Hf s. unfold mbind, linking_bind. destruct (Hm s) as (ops & Hops & HP).
  specialize (Hq s). destruct (m s) as [s1 [a|e]]; [|by exists ops].
  destruct (Hf a (Hq _ _ eq_refl) s1) as (ops' & Hops' & HP'). simpl in Hops.
  exists (ops ++ ops'). rewrite Hops', Hops, app_assoc. split; [done|]. by apply Forall_app.
Qed.
Lemma adds_seq P {A B} (m : linking A) (f : A → linking B) :
  adds P m → (∀ a, adds P (f a)) → adds P (m ≫= f).
Proof. intros Hm Hf. eapply (adds_bind _ _ _ (λ _, True)); [done|by intros ?|auto]. Qed.
Lemma adds_pure_bind P {A B} (r : iresult A) (f : A → linking B) :
  (∀ a, r = Ok a → adds P (f a)) → adds P (pure r ≫= f).
Proof.
  intros Hf. eapply (adds_bind _ _ _ (λ a, r = Ok a)); [apply adds_pure| |done].
  intros s s' a. unfold pure. destruct r; simpl; naive_solver.
Qed.
Lemma adds_link_op (P : Op → Prop) context op : P op → adds P (link_op context op).
Proof.
  intros HP s. unfold link_op. destruct (linker_refuses _ _).
  - exists []. by rewrite app_nil_r.
  - exists [op]. split; [done|by repeat constructor].
Qed.
Lemma adds_for_each P {A} (f : A → linking unit) l : (∀ x, adds P (f x)) → adds P (for_each f l).
Proof. intros Hf. induction l; [apply adds_ret|]. simpl. by apply adds_seq. Qed.

Section authorized.
Context (native_plugins : gmap string plugin) (component : C) (caller : string).
Context (explicit : gset string) (policy : CapabilityPolicy).
Context (available : gmap string AvailablePlugin) (self_instance : bool).
Context (targets : gmap string string).

Lemma signatures_paired (import callee : ComponentFunc R) interface function bindings u :
  ensure_component_signatures_match import callee interface function bindings = Ok u →
  Forall2 (ty_rel (paired bindings)) (fn_params import) (fn_params callee) ∧
  Forall2 (ty_rel (paired bindings)) (fn_results import) (fn_results callee).
Proof. destruct u. by intros ?%signatures_match_rel. Qed.

Lemma link_native_plugin_adds native_plugin linked :
  adds (op_authorized policy targets) (link_native_plugin native_plugin linked).
Proof.
  unfold link_native_plugin. case_decide; [apply adds_ret|].
  apply adds_seq; [|intros _; apply adds_seq; [|intros _; apply adds_ret]].
  - intros s. exists [AllowShadowing true]. split; [done|by repeat constructor].
  - intros s. unfold mbind, linking_bind.
    destruct (np_add_to_linker native_plugin (ls_linker s)).
    + unfold link_op. simpl. destruct (linker_refuses _ _); simpl.
      * exists [AddNative (np_package_name native_plugin); AllowShadowing false].
        rewrite <-app_assoc. split; [done|by repeat constructor].
      * exists [AddNative (np_package_name native_plugin); AddWasi; AllowShadowing false].
        rewrite <-!app_assoc. split; [done|by repeat constructor].
    + exists [AllowShadowing false]. split; [done|by repeat constructor].
Qed.

Lemma register_function_adds provider import_name bindings func :
  adds (op_authorized policy targets)
    (register_function component caller policy available self_instance provider import_name
       bindings func).
Proof.
  destruct func as [func_name import_ty]. destruct provider as [|target]; simpl.
  - apply adds_pure_bind. intros _ _. apply adds_pure_bind. intros ty _.
    apply adds_pure_bind. intros _ _. by apply adds_link_op.
  - apply adds_pure_bind. intros [] Hallow%ensure_Ok. apply adds_pure_bind. intros p _.
    destruct (ap_kind p); [apply adds_pure|].
    apply adds_pure_bind. intros callee _. apply adds_pure_bind. intros u Hsig%signatures_paired.
    by apply adds_link_op.
Qed.

Lemma collect_bindings_adds P target import_name resources instance :
  adds P (collect_dependency_resource_bindings target import_name resources instance).
Proof.
  induction resources as [|[n r] rest IH]; simpl; [apply adds_ret|].
  apply adds_pure_bind. intros ty _. apply adds_seq; [|intros id; by apply adds_seq; [|intros; apply adds_ret]].
  apply adds_same. intros s. unfold wasm_dependency_resource_type_id.
  by destruct (type_id_for _ _) as [[? ?]|].
Qed.

Lemma resource_bindings_adds provider import_name instance_ty :
  adds (op_authorized policy targets) (resource_bindings_for available provider import_name instance_ty).
Proof.
  destruct provider as [|target]; simpl; [apply adds_ret|].
  apply adds_pure_bind. intros p _. destruct (ap_kind p); [apply adds_ret|].
  apply adds_pure_bind. intros [instance ?] _. apply adds_seq; [apply collect_bindings_adds|].
  intros bindings. apply adds_seq; [|intros; apply adds_ret].
  apply adds_for_each. intros b. by apply adds_link_op.
Qed.

Lemma register_import_adds linked import :
  adds (op_authorized policy targets)
    (register_import native_plugins component caller explicit policy available self_instance
       targets linked import).
Proof.
  destruct import as [import_name instance_ty]. unfold register_import.
  destruct (starts_with "wasi:" import_name).
  { apply adds_pure_bind. intros _ _. apply adds_ret. }
  unfold resolve_binding_target_for_import.
  destruct (targets !! normalize_binding_wit_id import_name) as [target|] eqn:Ht; simpl.
  { apply adds_seq; [|intros; apply adds_ret]. apply adds_seq; [by apply adds_link_op|].
    intros _. apply adds_for_each. intros [func_name ty]. apply adds_pure_bind. intros sig _.
    by apply adds_link_op. }
  apply adds_pure_bind. intros provider _. destruct (native_dependency _ _) as [target|].
  - apply adds_pure_bind. intros np _. apply adds_pure_bind. intros _ _.
    apply adds_seq; [|intros _; apply link_native_plugin_adds].
    apply adds_for_each. intros [f ?]. apply adds_pure_bind. intros _ _. apply adds_pure.
  - apply adds_seq; [by apply adds_link_op|]. intros _.
    apply adds_seq; [apply resource_bindings_adds|]. intros bindings.
    apply adds_seq; [|intros; apply adds_ret]. apply adds_for_each. intros f.
    apply register_function_adds.
Qed.

Lemma register_imports_adds imports : ∀ linked,
  adds (op_authorized policy targets)
    (register_imports native_plugins component caller explicit policy available self_instance
       targets linked imports).
Proof.
  induction imports as [|import imports IH]; intros linked; simpl; [apply adds_ret|].
  apply adds_seq; [apply register_import_adds|auto].
Qed.

(** ** What an import that links may do *)

(** The import [function] of [interface] is backed by something the caller may use. *)
Definition import_authorized (interface function : string) (ty : ComponentFunc R) : Prop :=
  if starts_with "wasi:" interface then is_wasi_function_allowed policy interface function = true
  else match targets !! normalize_binding_wit_id interface with
  | Some _ => ∃ signature, parse_binding_shim_signature ty interface function = Ok signature
  | None => ∃ provider,
      resolve_import_provider caller interface (collect_component_instance_export_names component)
        explicit (dom available) self_instance = Ok provider ∧
      match provider with
      | SelfComponent => resolve_component_export_type component interface function = Ok ty
      | Dependency dep =>
        is_dependency_function_allowed policy dep interface function = true ∧
        ∃ p, available !! dep = Some p ∧
        match ap_kind p with
        | Native => ∃ np, native_plugins !! dep = Some np ∧ np_supports_import np interface = true ∧
            supports_symbol np (interface +:+ "." +:+ function) = true
        | Wasm => ∃ callee bindings, resolve_wasm_plugin_export p interface function = Ok callee ∧
            Forall2 (ty_rel (paired (Some bindings))) (fn_params ty) (fn_params (func_ty callee)) ∧
            Forall2 (ty_rel (paired (Some bindings))) (fn_results ty) (fn_results (func_ty callee))
        end
      end
  end.

Lemma bind_returns {A B} (m : linking A) (f : A → linking B) s s' b :
  (m ≫= f) s = (s', Ok b) → ∃ s1 a, m s = (s1, Ok a) ∧ f a s1 = (s', Ok b).
Proof.
  unfold mbind, linking_bind. destruct (m s) as [s1 [a|e]] eqn:E; [|done]. eauto.
Qed.
Lemma pure_returns {A} (r : iresult A) s s' a : pure r s = (s', Ok a) → r = Ok a ∧ s' = s.
Proof. unfold pure. destruct r; simpl; naive_solver. Qed.
Lemma for_each_returns {A} (f : A → linking unit) l s s' :
  for_each f l s = (s', Ok ()) → Forall (λ x, ∃ s1 s2, f x s1 = (s2, Ok ())) l.
Proof.
  revert s. induction l as [|x l IH]; intros s; [constructor|]. simpl.
  intros (s1 & [] & Hx & Hl)%bind_returns. constructor; [by eauto|]. by eapply IH.
Qed.

Lemma enforce_wasi_Ok interface (instance_ty : items R) u :
  enforce_wasi_import_capabilities caller policy interface instance_ty = Ok u →
  Forall (λ f, is_wasi_function_allowed policy interface f.1 = true) (functions_of instance_ty).
Proof.
  unfold enforce_wasi_import_capabilities. destruct (try_map _ _) as [us|] eqn:E; [|done].
  intros _. apply try_map_Ok in E. apply Forall_forall. intros f [i Hi]%list_elem_of_lookup.
  destruct (Forall2_lookup_l _ _ _ _ _ E Hi) as (? & _ & Hu). by apply ensure_Ok in Hu.
Qed.

Lemma register_function_returns dep import_name bindings f ty s s' :
  register_function component caller policy available self_instance (Dependency dep) import_name
    bindings (f, ty) s = (s', Ok ()) →
  is_dependency_function_allowed policy dep import_name f = true ∧
  ∃ p, available !! dep = Some p ∧ ap_kind p = Wasm ∧
  ∃ callee, resolve_wasm_plugin_export p import_name f = Ok callee ∧
    Forall2 (ty_rel (paired (Some bindings))) (fn_params ty) (fn_params (func_ty callee)) ∧
    Forall2 (ty_rel (paired (Some bindings))) (fn_results ty) (fn_results (func_ty callee)).
Proof.
  simpl. intros (s1 & [] & [Hallow%ensure_Ok _]%pure_returns & Hr)%bind_returns.
  split; [done|]. apply bind_returns in Hr as (s2 & p & [Hp _]%pure_returns & Hr).
  exists p. destruct (available !! dep); [|done]. injection Hp as ->.
  destruct (ap_kind p); [by apply pure_returns in Hr as [? _]|]. split_and!; [done..|].
  apply bind_returns in Hr as (s3 & callee & [Hc _]%pure_returns & Hr). exists callee.
  split; [done|]. apply bind_returns in Hr as (s4 & u & [Hu _]%pure_returns & _).
  by eapply signatures_paired.
Qed.

Lemma self_function_returns import_name bindings f ty s s' :
  register_function component caller policy available self_instance SelfComponent import_name
    bindings (f, ty) s = (s', Ok ()) →
  resolve_component_export_type component import_name f = Ok ty.
Proof.
  simpl. intros (s1 & ? & _ & (s2 & ty' & [Hty _]%pure_returns & (s3 & [] & [Hm _]%pure_returns & _)
    %bind_returns)%bind_returns)%bind_returns.
  apply signatures_match_self in Hm as ->. done.
Qed.

Lemma register_native_returns dep import_name instance_ty linked s s' l :
  register_native_import native_plugins caller policy dep import_name instance_ty linked s =
    (s', Ok l) →
  Forall (λ f, is_dependency_function_allowed policy dep import_name f.1 = true ∧
    ∃ np, native_plugins !! dep = Some np ∧ np_supports_import np import_name = true ∧
      supports_symbol np (import_name +:+ "." +:+ f.1) = true) (functions_of instance_ty).
Proof.
  intros (s1 & np & [Hnp _]%pure_returns & Hr)%bind_returns.
  destruct (native_plugins !! dep); [|done]. injection Hnp as ->.
  apply bind_returns in Hr as (s2 & [] & [Hs%ensure_Ok _]%pure_returns & Hr).
  apply bind_returns in Hr as (s3 & [] & Hf%for_each_returns & _).
  eapply Forall_impl; [exact Hf|]. intros [f ty] (t1 & t2 & Hr). simpl.
  apply bind_returns in Hr as (s4 & [] & [Ha%ensure_Ok _]%pure_returns & Hr).
  apply pure_returns in Hr as [Hsym%ensure_Ok _]. eauto.
Qed.

Lemma register_import_returns linked import s s' l :
  register_import native_plugins component caller explicit policy available self_instance targets
    linked import s = (s', Ok l) →
  Forall (λ f, import_authorized import.1 f.1 f.2) (functions_of import.2).
Proof.
  destruct import as [interface instance_ty]. unfold register_import, import_authorized. simpl.
  destruct (starts_with "wasi:" interface).
  { intros (s1 & u & [Hw _]%pure_returns & _)%bind_returns. by eapply enforce_wasi_Ok. }
  unfold resolve_binding_target_for_import.
  destruct (targets !! normalize_binding_wit_id interface) as [target|]; simpl.
  { intros (s1 & [] & (s2 & [] & _ & Hf%for_each_returns)%bind_returns & _)%bind_returns.
    eapply Forall_impl; [exact Hf|]. intros [f ty] (t1 & t2 & Hr).
    apply bind_returns in Hr as (t3 & signature & [Hs _]%pure_returns & _). eauto. }
  intros (s1 & provider & [Hp _]%pure_returns & Hr)%bind_returns. rewrite Hp.
  destruct (native_dependency available provider) as [dep|] eqn:Hn.
  - apply register_native_returns in Hr. eapply Forall_impl; [exact Hr|]. intros f [Ha Hnp].
    exists provider. split; [done|]. destruct provider as [|d]; [done|]. simpl in Hn.
    destruct (available !! d) as [p|] eqn:Hd; [|done]. destruct (ap_kind p) eqn:Hk; [|done].
    injection Hn as <-. split; [done|]. exists p. by rewrite Hk.
  - apply bind_returns in Hr as (s2 & [] & _ & Hr). apply bind_returns in Hr as (s3 & bs & _ & Hr).
    apply bind_returns in Hr as (s4 & [] & Hf%for_each_returns & _).
    eapply Forall_impl; [exact Hf|]. intros [f ty] (t1 & t2 & Hreg). exists provider. split; [done|].
    destruct provider as [|dep]; [by eapply self_function_returns|].
    apply register_function_returns in Hreg as (Ha & p & Hd & Hk & callee & Hc). split; [done|].
    exists p. rewrite Hk. eauto.
Qed.

Lemma register_imports_returns imports : ∀ linked s s',
  register_imports native_plugins component caller explicit policy available self_instance targets
    linked imports s = (s', Ok ()) →
  Forall (λ import, Forall (λ f, import_authorized import.1 f.1 f.2) (functions_of import.2)) imports.
Proof.
  induction imports as [|import imports IH]; intros linked s s'; [constructor|]. simpl.
  intros (s1 & l & Hi & Hr)%bind_returns. constructor; [by eapply register_import_returns|].
  by eapply IH.
Qed.

End authorized.

(** ** Every plugin under its own policy *)

Section service.
Context (native_plugins : gmap string plugin) (resources : RM).
Context (dependencies : list PluginDependency).
Context (names_distinct : NoDup (dep_name <$> dependencies)).

Definition loaded_from (dep : PluginDependency) (component : C) : Prop :=
  ∃ meta, dep_component dep = Some meta ∧ from_file (pc_path meta) = Ok component.

(** A plugin made available while [before] was: its linker defines nothing its policy does not
    allow, and backs every function it imports. *)
Definition confined (dep : PluginDependency) (before : gmap string AvailablePlugin)
    (p : AvailablePlugin) : Prop :=
  ap_kind p = dep_kind dep ∧
  match dep_kind dep with
  | Native => ∃ np, native_plugins !! dep_name dep = Some np ∧ np_validate_resources np resources = Ok ()
  | Wasm => ∃ component instance linker,
      loaded_from dep component ∧ ap_instance p = Some (instance, linker) ∧
      Forall (op_authorized (dep_capabilities dep) ∅) linker ∧
      ∀ interface instance_ty function ty,
        (interface, instance_ty) ∈ instances_of (component_imports component) →
        (function, ty) ∈ functions_of instance_ty →
        import_authorized native_plugins component (dep_name dep) (all_dependency_names dependencies)
          (dep_capabilities dep) before true ∅ interface function ty
  end.

Definition preloaded_ok (preloaded : gmap string C) : Prop :=
  ∀ name c, preloaded !! name = Some c →
    ∃ dep, dep ∈ dependencies ∧ dep_name dep = name ∧ loaded_from dep c.

Lemma same_name dep dep' :
  dep ∈ dependencies → dep' ∈ dependencies → dep_name dep = dep_name dep' → dep = dep'.
Proof.
  intros [i Hi]%list_elem_of_lookup [j Hj]%list_elem_of_lookup E.
  assert (i = j) as ->; [|congruence].
  eapply NoDup_lookup; [exact names_distinct|..]; rewrite list_lookup_fmap; [by rewrite Hi|].
  by rewrite Hj, E.
Qed.

Lemma load_component_Ok name path c : load_component name path = Ok c → from_file path = Ok c.
Proof. unfold load_component. destruct (from_file path); simpl; naive_solver. Qed.

Lemma load_for_instantiation_ok dep preloaded c preloaded' :
  dep ∈ dependencies → preloaded_ok preloaded →
  load_component_for_instantiation dep preloaded = Ok (c, preloaded') →
  loaded_from dep c ∧ preloaded_ok preloaded'.
Proof.
  intros Hdep Hpre. unfold load_component_for_instantiation.
  destruct (preloaded !! dep_name dep) as [c'|] eqn:Hp.
  - intros [= -> <-]. destruct (Hpre _ _ Hp) as (d & Hd & Hn & Hl).
    rewrite (same_name dep d) by done. split; [done|].
    intros name c0 [_ Hc]%lookup_delete_Some. by apply Hpre.
  - intros (meta & Hm & Hload)%bind_Ok. apply bind_Ok in Hload as (c0 & Hc & [= -> <-]).
    split; [|done]. exists meta. split; [by apply ok_or_Ok in Hm|].
    by eapply load_component_Ok.
Qed.

Lemma collect_interfaces_ok rest : ∀ interfaces preloaded interfaces' preloaded',
  rest ⊆ dependencies → preloaded_ok preloaded →
  collect_interfaces rest interfaces preloaded = Ok (interfaces', preloaded') →
  preloaded_ok preloaded'.
Proof.
  induction rest as [|dep rest IH]; intros i pre i' pre' Hsub Hpre; simpl; [by intros [= _ <-]|].
  assert (dep ∈ dependencies) as Hdep by set_solver.
  assert (rest ⊆ dependencies) as Hrest by set_solver.
  destruct (dep_kind dep); [by apply IH|].
  intros ([found pre1] & Hf & Hr)%bind_Ok. eapply IH; [done| |exact Hr].
  apply bind_Ok in Hf as (meta & Hm & Hf).
  apply ok_or_Ok in Hm.
  assert (∀ c, load_component (dep_name dep) (pc_path meta) = Ok c →
    preloaded_ok (<[dep_name dep := c]> pre)) as Hins.
  { intros c Hl name c' [[<- <-]|[_ Hin]]%lookup_insert_Some; [|by apply Hpre].
    exists dep. split_and!; [done..|]. exists meta. split; [done|]. by eapply load_component_Ok. }
  destruct (pc_imports meta), (pc_exports meta); [by injection Hf as _ <-|..];
    apply bind_Ok in Hf as (c & Hl & [= _ <-]); by apply Hins.
Qed.

Lemma adds_run P {A} (m : linking A) s s' r :
  adds P m → m s = (s', r) → ∃ ops, ls_linker s' = ls_linker s ++ ops ∧ Forall P ops.
Proof. intros Hm E. specialize (Hm s). by rewrite E in Hm. Qed.

Abbreviation instantiate_dep :=
  (instantiate_dependency native_plugins resources (all_dependency_names dependencies)).

Lemma instantiate_dependency_ok dep available preloaded s s' available' preloaded' :
  dep ∈ dependencies → preloaded_ok preloaded →
  instantiate_dep dep available preloaded s = (s', Ok (available', preloaded')) →
  preloaded_ok preloaded' ∧
  ∃ p, available' = <[dep_name dep := p]> available ∧ confined dep available p.
Proof.
  intros Hdep Hpre. unfold instantiate_dependency, confined. destruct (dep_kind dep).
  - intros (s1 & np & [Hnp%ok_or_Ok _]%pure_returns & Hr)%bind_returns.
    apply bind_returns in Hr as (s2 & [] & [Hv _]%pure_returns & [= _ <- <-]). eauto 10.
  - intros (s1 & [component pre1] & [Hl _]%pure_returns & Hr)%bind_returns.
    apply load_for_instantiation_ok in Hl as [Hfrom Hpre1]; [|done..].
    apply bind_returns in Hr as (s2 & [] & [= <-] & Hr).
    apply bind_returns in Hr as (s3 & [] & Hw & Hr).
    apply bind_returns in Hr as (s4 & [] & Hh & Hr).
    apply bind_returns in Hr as (s5 & [] & Hreg & Hr).
    apply bind_returns in Hr as (s6 & [instance linker] & Hinst & [= _ <- <-]).
    set (P := op_authorized (dep_capabilities dep) ∅).
    apply bind_returns in Hreg as (s4' & targets & [Ht ->]%pure_returns & Hreg). injection Ht as <-.
    pose proof (register_imports_returns _ _ _ _ _ _ _ _ _ _ _ _ Hreg) as Hcover.
    apply (adds_run P) in Hw as (o1 & E1 & F1); [|by apply adds_link_op].
    apply (adds_run P) in Hh as (o2 & E2 & F2); [|by apply adds_link_op].
    apply (adds_run P) in Hreg as (o3 & E3 & F3); [|apply register_imports_adds].
    split; [done|]. eexists. split; [done|]. split; [done|].
    exists component, instance, linker. unfold instantiate_async in Hinst.
    destruct (instantiate_component _ _ _) as [table [i|]]; [|done].
    injection Hinst as _ -> <-. split_and!; [done|done| |].
    + rewrite E3, E2, E1. simpl. by rewrite !Forall_app.
    + intros interface instance_ty function ty Hi Hf.
      rewrite Forall_forall in Hcover. specialize (Hcover _ Hi). simpl in Hcover.
      rewrite Forall_forall in Hcover. apply (Hcover _ Hf).
Qed.

(** Every available plugin was made with plugins that are still available. *)
Definition all_confined (available : gmap string AvailablePlugin) : Prop :=
  ∀ name p, available !! name = Some p → ∃ dep before,
    dep ∈ dependencies ∧ dep_name dep = name ∧ before ⊆ available ∧ confined dep before p.

Lemma all_confined_insert dep available p :
  dep ∈ dependencies → available !! dep_name dep = None → confined dep available p →
  all_confined available → all_confined (<[dep_name dep := p]> available).
Proof.
  intros Hdep Hnone Hp Hall name q [[<- <-]|[Hne Hq]]%lookup_insert_Some.
  - exists dep, available. split_and!; [done..| |done]. by apply insert_subseteq.
  - destruct (Hall _ _ Hq) as (d & before & Hd & Hn & Hsub & Hc). exists d, before.
    split_and!; [done..| |done]. etrans; [done|]. by apply insert_subseteq.
Qed.

Lemma instantiate_in_order_ok rest : ∀ available preloaded s s' available',
  rest ⊆ dependencies → NoDup (dep_name <$> rest) →
  (∀ dep, dep ∈ rest → available !! dep_name dep = None) →
  preloaded_ok preloaded → all_confined available →
  instantiate_in_order native_plugins resources (all_dependency_names dependencies) rest available
    preloaded s = (s', Ok available') →
  available ⊆ available' ∧ all_confined available' ∧
  ∀ dep, dep ∈ rest → is_Some (available' !! dep_name dep).
Proof.
  induction rest as [|dep rest IH]; intros available pre s s' available' Hsub Hnd Hnone Hpre Hall.
  { intros [= _ <-]. split_and!; [done..|]. by intros ? ?%elem_of_nil. }
  simpl. intros (s1 & [available1 pre1] & Hone & Hr)%bind_returns.
  apply NoDup_cons in Hnd as [Hfresh Hnd].
  assert (dep ∈ dependencies) as Hdep by set_solver.
  apply instantiate_dependency_ok in Hone as (Hpre1 & p & -> & Hp); [|done..].
  assert (available !! dep_name dep = None) as Hn by (apply Hnone; left).
  apply IH in Hr as (Hle & Hall' & Hrest); [|set_solver|done| |done|].
  - split_and!.
    + etrans; [|exact Hle]. by apply insert_subseteq.
    + done.
    + intros d [->|Hd]%elem_of_cons; [|auto]. eapply lookup_weaken_is_Some; [|exact Hle].
      by rewrite lookup_insert_eq.
  - intros d Hd. rewrite lookup_insert_ne; [by apply Hnone; right|].
    intros E. apply Hfresh. rewrite E. by apply list_elem_of_fmap_2.
  - by apply all_confined_insert.
Qed.

End service.

(** Instantiation answers, and what it makes is confined. *)
Lemma instantiate_plugins_ok native_plugins resources dependencies s :
  ∃ s' r, instantiate_plugin_dependencies native_plugins resources dependencies s = Some (s', r) ∧
  ∀ available, r = Ok available →
    (∀ dep, dep ∈ dependencies → is_Some (available !! dep_name dep)) ∧
    all_confined native_plugins resources dependencies available.
Proof.
  unfold instantiate_plugin_dependencies.
  destruct (collect_interfaces dependencies ∅ ∅) as [[interfaces pre]|e] eqn:Hc; [|by do 2 eexists].
  destruct (topological_order_cases dependencies interfaces) as (r & -> & Hr). simpl.
  destruct r as [order|e]; [|by do 2 eexists]. destruct Hr as (Hnd & _ & _ & Hperm & _).
  set (rest := omap (dependencies !!.) order).
  assert (rest ≡ₚ dependencies) as Hrest.
  { unfold rest. rewrite Hperm. by rewrite omap_seq_lookup. }
  destruct (instantiate_in_order _ _ _ _ _ _ _) as [s' r] eqn:Hrun.
  exists s', r. split; [done|]. intros available ->.
  eapply instantiate_in_order_ok in Hrun as (_ & Hall & Hsome); [| |..].
  - split; [|exact Hall]. intros dep Hdep. apply Hsome. by rewrite Hrest.
  - done.
  - intros dep Hdep. by rewrite <-Hrest.
  - by rewrite Hrest.
  - done.
  - refine (collect_interfaces_ok _ _ _ _ _ _ _ _ _ Hc); [done..|]. by intros ? ? ?%lookup_empty_Some.
  - by intros ? ? ?%lookup_empty_Some.
Qed.

(** C30 (safety). The plugins of a service run with the capabilities of their manifest entries
    and no others.  Instantiation always answers; when it succeeds every declared dependency
    is available, and each of them was made with plugins that are available too.  A native
    plugin is registered and accepts the resources of the service.  A component was read from
    its own file, and its linker backs every function the component imports: WASI functions
    its policy lists, functions of its own exports of the same type, functions of a declared
    dependency its policy lists, which a native plugin exposes or a component exports at a
    matching type.  No other function of a dependency is defined in the linker. *)
Theorem plugins_confined native_plugins resources dependencies s :
  ∃ s' r, instantiate_plugin_dependencies native_plugins resources dependencies s = Some (s', r) ∧
  ∀ available, r = Ok available →
    (∀ dep, dep ∈ dependencies → is_Some (available !! dep_name dep)) ∧
    ∀ name p, available !! name = Some p → ∃ dep before,
      dep ∈ dependencies ∧ dep_name dep = name ∧ before ⊆ available ∧
      confined native_plugins resources dependencies dep before p.
Proof. apply instantiate_plugins_ok. Qed.

End linking.

(** ** Two plugins, the second importing from the first *)

Module PluginsDemo.

(** An engine whose instances are components and whose functions are their types. *)
Definition component : Type := items Z * items Z.
Definition index : Type := option string * string.
Definition exported (c : component) (interface : string) : option (items Z) :=
  find_named interface (instances_of c.2).

Definition open_ty : ComponentFunc Z :=
  {| fn_params := [TString]; fn_results := [TResult (Some TU32) (Some TString)] |}.
Definition files : component := ([], [("acme:fs/files", ItemInstance [("open", ItemFunc open_ty)])]).
Definition editor : component :=
  ([("wasi:cli/stdout", ItemInstance [("get-stdout", ItemFunc open_ty)]);
    ("acme:fs/files", ItemInstance [("open", ItemFunc open_ty)])], []).

#[local] Instance demo_engine : Engine Z Z component component index (ComponentFunc Z) := {
  from_file path :=
    if decide (path = "fs.wasm") then Ok files
    else if decide (path = "editor.wasm") then Ok editor else Err "not found";
  component_imports := fst;
  component_exports := snd;
  get_export_index c parent name :=
    match parent with
    | None => (λ _, (None, name)) <$> exported c name
    | Some (_, interface) => Some (Some interface, name)
    end;
  get_func c index :=
    match index with
    | (Some interface, f) => l ← exported c interface; find_named f (functions_of l)
    | (None, _) => None
    end;
  func_ty := id;
  get_resource _ _ := None;
  linker_refuses _ _ := None;
  instantiate_component table _ c := (table, Ok c);
}.

Definition policy (functions : list string) : CapabilityPolicy :=
  {| cap_privileged := false; cap_deps := {[ "acme:fs" := functions ]};
     cap_wasi := {[ "wasi:cli/stdout" := ["*"] ]} |}.
Definition dependency (name path : string) (functions : list string) : PluginDependency :=
  {| dep_name := name; dep_version := "0.1.0"; dep_kind := Wasm; dep_wit := name;
     dep_requires := [];
     dep_component := Some {| pc_path := path; pc_sha256 := ""; pc_imports := None;
                              pc_exports := None |};
     dep_capabilities := policy functions |}.
Definition service (functions : list string) : list PluginDependency :=
  [dependency "acme:editor" "editor.wasm" functions; dependency "acme:fs" "fs.wasm" []].
Definition run (functions : list string) :=
  instantiate_plugin_dependencies (RM := unit) ∅ () (service functions)
    {| ls_table := default_resource_state; ls_linker := [] |}.

(** Declared last, the provider is made first, and the import is linked to it. *)
Example editor_links :
  (λ '(_, r), match r with
     | Ok available => (λ p, snd <$> ap_instance p) <$> available !! "acme:editor"
     | Err _ => None end) <$> run ["acme:fs/files#open"] =
  Some (Some (Some [AddWasi; AddWasiHttp; DefineInstance "acme:fs/files";
    DefineFunc "acme:fs/files" "open"
      (DependencyShim "acme:fs" open_ty (fn_params open_ty) (fn_results open_ty) [])])).
Proof. vm_compute. reflexivity. Qed.

(** Without the capability it is refused. *)
Example editor_denied :
  (λ '(_, r), match r with Err (Failed e) => Some (err_code e) | _ => None end) <$> run ["close"] =
  Some (Some Unauthorized).
Proof. vm_compute. reflexivity. Qed.

End PluginsDemo.
