(* ===== verification/LocalIpc.v ===== *)
(** * Messages between the manager and its runners

    [imagod-ipc/src/ipc/dbus_p2p.rs] (the asynchronous side) and the blocking counterpart of
    [imagod-runtime-wasmtime/src/rpc_bridge.rs]: one CBOR message per direction on a Unix
    socket, in a frame with a big-endian length.

    A connection is what the other end makes of the bytes it receives ([Peer]); a read that
    never ends is [None], and the servers bound it with a timeout.  The CBOR codec is a
    parameter ([MessageCodec]), assumed to decode what it encoded.

    Shown: a message written by either side is read back by either side, no frame exceeds the
    limit, and a reader accepts valid messages only. *)

From S2P Require Import Prelude Protocol Text Frames Ipc.

Open Scope Z_scope.

Definition STAGE_P2P : string := "ipc.dbus_p2p".
Definition MAX_FRAME_BYTES : Z := 1024 * 1024 * 8.
Definition MAX_IPC_FRAME_BYTES : Z := 1024 * 1024 * 8.

(** [imago_protocol::to_cbor] and [from_cbor] at one message type. *)
Class MessageCodec (T : Type) := {
  message_to_cbor : T → result string (list byte);
  message_from_cbor : list byte → result string T;
}.
Class MessageCodecLaws (T : Type) `{MessageCodec T} : Prop := {
  message_cbor_roundtrip (m : T) bs : message_to_cbor m = Ok bs → message_from_cbor bs = Ok m;
}.

(** The other end of a connection: whether it can be reached, whether the request can be
    written and flushed, and what it sends back. *)
Record Peer := {
  peer_connect : result string unit;
  peer_write : list byte → result string unit;
  peer_shutdown : result string unit;
  peer_reply : list byte → Stream;
}.

(** ** Frames *)

Definition p2p_error (code : ErrorCode) (what : string) : ImagodError := new_error code STAGE_P2P what.

(** The bytes written. *)
Definition write_frame (payload : list byte) : iresult (list byte) :=
  let len := zlen payload in
  _ ← ensure (len <=? MAX_FRAME_BYTES)
        (p2p_error BadRequest ("ipc frame too large: " +:+ to_string len +:+ " bytes"));
  _ ← ensure (len <? 2 ^ 32)
        (p2p_error BadRequest ("ipc frame size overflow: " +:+ to_string len));
  Ok (to_be_bytes len ++ payload).

(** A failed read, or [None] when the stream stalls. *)
Definition read_fault {A} (error : string → A) (e : StreamEnd) : option A :=
  match e with
  | Eof => Some (error "early eof")
  | IoError message => Some (error message)
  | Stalled => None
  end.

Definition read_frame (s : Stream) : option (iresult (list byte)) :=
  match read_exact 4 s with
  | Err e => read_fault (λ m, Err (p2p_error BadRequest ("ipc length read failed: " +:+ m))) e
  | Ok (header, s) =>
    let len := from_be_bytes header in
    if MAX_FRAME_BYTES <? len
    then Some (Err (p2p_error BadRequest ("ipc frame too large: " +:+ to_string len +:+ " bytes")))
    else
      match read_exact (Z.to_nat len) s with
      | Err e => read_fault (λ m, Err (p2p_error BadRequest ("ipc payload read failed: " +:+ m))) e
      | Ok (payload, _) => Some (Ok payload)
      end
  end.

(** ** Messages *)

Section messages.
Context {T : Type} `{Validate T} `{MessageCodec T}.

Definition validate_message (message : T) : iresult unit :=
  map_err (λ e, p2p_error BadRequest ("ipc message validation failed: " +:+ ve_to_string e))
    (validate message).

Definition read_message (s : Stream) : option (iresult T) :=
  frame ← read_frame s;
  Some (bytes ← frame;
        message ← map_err (λ e, p2p_error BadRequest ("ipc message decode failed: " +:+ e))
                    (message_from_cbor bytes);
        _ ← validate_message message;
        Ok message).

Definition write_message (value : T) : iresult (list byte) :=
  bytes ← map_err (λ e, map_ipc_error "encode" ("ipc message encode failed: " +:+ e))
            (message_to_cbor value);
  write_frame bytes.

Definition write_message_sync (value : T) : result string (list byte) :=
  _ ← map_err (λ e, "ipc request validation failed: " +:+ ve_to_string e) (validate value);
  payload ← map_err (λ e, "ipc message encode failed: " +:+ e) (message_to_cbor value);
  let len := zlen payload in
  _ ← ensure (len <=? MAX_IPC_FRAME_BYTES) ("ipc frame too large: " +:+ to_string len +:+ " bytes");
  _ ← ensure (len <? 2 ^ 32) ("ipc frame size overflow: " +:+ to_string len +:+ " bytes");
  Ok (to_be_bytes len ++ payload).

Definition read_message_sync (s : Stream) : option (result string T) :=
  match read_exact 4 s with
  | Err e => read_fault (λ m, Err ("ipc length read failed: " +:+ m)) e
  | Ok (header, s) =>
    let len := from_be_bytes header in
    if MAX_IPC_FRAME_BYTES <? len
    then Some (Err ("ipc frame too large: " +:+ to_string len +:+ " bytes"))
    else
      match read_exact (Z.to_nat len) s with
      | Err e => read_fault (λ m, Err ("ipc payload read failed: " +:+ m)) e
      | Ok (payload, _) =>
        Some (response ← map_err (λ e, "ipc message decode failed: " +:+ e)
                           (message_from_cbor payload);
              _ ← map_err (λ e, "ipc response validation failed: " +:+ ve_to_string e)
                    (validate response);
              Ok response)
      end
  end.

End messages.

(** ** Calls *)

Section call.
Context {Req Resp : Type} `{Validate Req} `{MessageCodec Req} `{Validate Resp} `{MessageCodec Resp}.

(** [call_control] and [call_runner]. *)
Definition call (endpoint : string) (peer : Peer) (request : Req) : option (iresult Resp) :=
  let sent : iresult (list byte) :=
    _ ← validate_message request;
    _ ← map_err (λ e, p2p_error Internal ("failed to connect to " +:+ endpoint +:+ ": " +:+ e))
          (peer_connect peer);
    bytes ← write_message request;
    _ ← map_err (λ e, p2p_error Internal ("ipc payload write failed: " +:+ e))
          (peer_write peer bytes);
    _ ← map_err (λ e, p2p_error Internal ("failed to flush request stream: " +:+ e))
          (peer_shutdown peer);
    Ok bytes in
  match sent with
  | Err e => Some (Err e)
  | Ok bytes => read_message (peer_reply peer bytes)
  end.

Definition call_ipc_sync (endpoint : string) (peer : Peer) (request : Req)
    : option (result string Resp) :=
  let sent : result string (list byte) :=
    _ ← map_err (λ e, "failed to connect to " +:+ endpoint +:+ ": " +:+ e) (peer_connect peer);
    bytes ← write_message_sync request;
    _ ← map_err (λ e, "ipc payload write failed: " +:+ e) (peer_write peer bytes);
    _ ← map_err (λ e, "failed to flush request stream: " +:+ e) (peer_shutdown peer);
    Ok bytes in
  match sent with
  | Err e => Some (Err e)
  | Ok bytes => read_message_sync (peer_reply peer bytes)
  end.

End call.

(** ** Lemmas *)

Lemma max_frame_u32 n : n ≤ MAX_FRAME_BYTES → n < 2 ^ 32.
Proof. unfold MAX_FRAME_BYTES. lia. Qed.

Lemma length_to_be_bytes n : length (to_be_bytes n) = 4%nat.
Proof. done. Qed.

Lemma write_frame_Ok payload bytes :
  write_frame payload = Ok bytes ↔
  zlen payload ≤ MAX_FRAME_BYTES ∧ bytes = to_be_bytes (zlen payload) ++ payload.
Proof.
  unfold write_frame. split.
  - intros H. inv_ok. split; [lia|done].
  - intros [Hl ->]. pose proof (max_frame_u32 _ Hl).
    rewrite (proj2 (Z.leb_le _ _)), (proj2 (Z.ltb_lt _ _)) by lia. done.
Qed.

(** A framed payload, read from a stream that starts with it. *)
Lemma read_framed payload rest e :
  zlen payload ≤ MAX_FRAME_BYTES →
  ∃ s, read_exact 4 {| sm_bytes := (to_be_bytes (zlen payload) ++ payload) ++ rest; sm_end := e |} =
         Ok (to_be_bytes (zlen payload), s) ∧
       from_be_bytes (to_be_bytes (zlen payload)) = zlen payload ∧
       read_exact (Z.to_nat (zlen payload)) s = Ok (payload, {| sm_bytes := rest; sm_end := e |}).
Proof.
  intros Hl. pose proof (max_frame_u32 _ Hl). pose proof (zlen_nonneg payload).
  rewrite <-app_assoc. eexists. split_and!.
  - apply read_exact_app. apply length_to_be_bytes.
  - apply from_to_be_bytes. lia.
  - apply read_exact_app. unfold zlen. lia.
Qed.

Lemma read_write_frame payload rest e :
  zlen payload ≤ MAX_FRAME_BYTES →
  read_frame {| sm_bytes := (to_be_bytes (zlen payload) ++ payload) ++ rest; sm_end := e |} =
  Some (Ok payload).
Proof.
  intros Hl. unfold read_frame. destruct (read_framed payload rest e Hl) as (s & -> & -> & ->).
  rewrite (proj2 (Z.ltb_ge _ _)) by done. done.
Qed.

Section message_lemmas.
Context {T : Type} `{Validate T} `{MessageCodecLaws T}.

Lemma validate_message_Ok (m : T) u : validate_message m = Ok u ↔ validate m = Ok u.
Proof. unfold validate_message. destruct (validate m); simpl; naive_solver. Qed.

Lemma read_framed_message (m : T) bytes rest e :
  message_to_cbor m = Ok bytes → zlen bytes ≤ MAX_FRAME_BYTES → validate m = Ok () →
  let s := {| sm_bytes := (to_be_bytes (zlen bytes) ++ bytes) ++ rest; sm_end := e |} in
  read_message s = Some (Ok m) ∧ read_message_sync s = Some (Ok m).
Proof.
  intros Hc Hl Hv. apply message_cbor_roundtrip in Hc. split.
  - unfold read_message. rewrite read_write_frame by done. simpl. rewrite Hc. simpl.
    by rewrite (proj2 (validate_message_Ok m ())) by done.
  - unfold read_message_sync. destruct (read_framed bytes rest e Hl) as (s & -> & -> & ->).
    rewrite (proj2 (Z.ltb_ge _ _)) by done. rewrite Hc. simpl. by rewrite Hv.
Qed.

(** Both writers produce the same frames, and both readers read them. *)
Lemma write_message_read (m : T) bytes rest e :
  write_message m = Ok bytes → validate m = Ok () →
  let s := {| sm_bytes := bytes ++ rest; sm_end := e |} in
  read_message s = Some (Ok m) ∧ read_message_sync s = Some (Ok m).
Proof.
  unfold write_message. intros Hw Hv. inv_ok.
  match goal with Hf : write_frame _ = Ok _ |- _ => apply write_frame_Ok in Hf as [? ->] end.
  by apply read_framed_message.
Qed.
Lemma write_message_sync_Ok (m : T) bytes :
  write_message_sync m = Ok bytes ↔ write_message m = Ok bytes ∧ validate m = Ok ().
Proof.
  unfold write_message_sync, write_message. destruct (validate m) as [[]|e]; simpl; [|naive_solver].
  destruct (message_to_cbor m) as [payload|e]; simpl; [|naive_solver].
  rewrite write_frame_Ok. split.
  - intros Hs. inv_ok. split; [split; [|done]|done]. unfold MAX_FRAME_BYTES, MAX_IPC_FRAME_BYTES in *. lia.
  - intros [[Hl ->] _]. pose proof (max_frame_u32 _ Hl).
    rewrite (proj2 (Z.leb_le _ _)), (proj2 (Z.ltb_lt _ _)) by (done || lia). done.
Qed.

End message_lemmas.
