(* ===== verification/Runner.v ===== *)
(** * The runner

    [imagod-runtime-control] (registration, heartbeats, the inbound socket) and the calls a
    component makes to other services ([imagod-runtime-wasmtime/src/rpc_bridge.rs]), composed
    with the manager's control socket of [ManagerControl].

    A component of a service and the calls into it are a parameter: what [invoke_component]
    answers for an interface, a function and a payload.  The derived [Debug] text of an
    unexpected response is a parameter.

    Shown: a local call through the manager to the runner of another service reaches exactly
    that function of that service, and only with a declared binding; a runner stops itself
    exactly when the manager rejects it or does not answer three times in a row. *)

From S2P Require Import Prelude Protocol Text LogBuffer IpAddr Frames Ipc Supervisor ManagerControl Component Bridge PluginOrder Plugins LocalIpc.

Open Scope Z_scope.

Definition STAGE_RUNNER : string := "runner.process".
Definition STAGE_SHUTDOWN : string := "runner.shutdown".
Definition STAGE_INBOUND : string := "runner.inbound".
Definition MAX_CONSECUTIVE_HEARTBEAT_FAILURES : Z := 3.
Definition HEARTBEAT_RPC_TIMEOUT_SECS : Z := 2.

(** The [Debug] text of an error code. *)
Definition debug_code (code : ErrorCode) : string :=
  match code with
  | Unauthorized => "Unauthorized" | BadRequest => "BadRequest" | BadManifest => "BadManifest"
  | Busy => "Busy" | NotFound => "NotFound" | Internal => "Internal"
  | IdempotencyConflict => "IdempotencyConflict" | RangeInvalid => "RangeInvalid"
  | ChunkHashMismatch => "ChunkHashMismatch" | ArtifactIncomplete => "ArtifactIncomplete"
  | PreconditionFailed => "PreconditionFailed" | OperationTimeout => "OperationTimeout"
  | RollbackFailed => "RollbackFailed" | StorageQuota => "StorageQuota"
  end.
Definition display_error (e : ImagodError) : string :=
  debug_code (err_code e) +:+ " at " +:+ err_stage e +:+ ": " +:+ err_message e.
Definition debug_error (what : string) (e : IpcErrorPayload) : string :=
  what +:+ ": " +:+ debug_code (ipc_code e) +:+ " " +:+ ipc_stage e +:+ " " +:+ ipc_message e.

(** ** The inbound socket *)

(** [RuntimeInvoker::invoke_component] in the context of the runner. *)
Definition Invoker : Type := string → string → list byte → iresult (list byte).

Section inbound.
Context `{TokenCrates} `{Json}.

Definition validate_shutdown_auth (secret runner_id proof : string) : iresult unit :=
  match verify_manager_auth_proof secret runner_id proof with
  | Ok u => Ok u
  | Err err =>
    if decide (err_code err = Unauthorized)
    then Err (new_error Unauthorized STAGE_SHUTDOWN "manager auth proof mismatch")
    else Err (new_error (err_code err) STAGE_SHUTDOWN
                ("manager auth proof verification failed: " +:+ err_message err))
  end.

Definition invoke_refused (message : string) : RunnerInboundResponse :=
  RunnerError {| ipc_code := Unauthorized; ipc_stage := "runner.invoke"; ipc_message := message |}.

(** The flag is the value of the shutdown channel. *)
Definition handle_inbound_request (b : RunnerBootstrap) (invoke_component : Invoker) (now : Z)
    (request : RunnerInboundRequest) (shutdown : bool) : bool * RunnerInboundResponse :=
  match request with
  | ShutdownRunner proof =>
    match validate_shutdown_auth (rb_manager_auth_secret b) (rb_runner_id b) proof with
    | Err err => (shutdown, RunnerError (ipc_from_error err))
    | Ok _ => (true, RunnerAck)
    end
  | Invoke interface_id function payload_cbor token =>
    (shutdown,
     match verify_invocation_token now (rb_invocation_secret b) token with
     | Err err => RunnerError (ipc_from_error err)
     | Ok claims =>
       if negb (bool_decide (tc_target_service claims = rb_service_name b))
       then invoke_refused "invocation target mismatch"
       else if negb (bool_decide (tc_wit claims = interface_id))
       then invoke_refused "invocation interface mismatch"
       else
         match invoke_component interface_id function payload_cbor with
         | Ok result_cbor => InvokeResult result_cbor
         | Err err => RunnerError (ipc_from_error err)
         end
     end)
  end.

(** A response that cannot be written is dropped. *)
Definition written {T} `{MessageCodec T} (message : T) : list byte :=
  match write_message message with Ok bytes => bytes | Err _ => [] end.

(** The bytes sent back; a request that does not arrive in time is answered as such. *)
Definition handle_inbound_connection `{MessageCodec RunnerInboundRequest}
    `{MessageCodec RunnerInboundResponse} (b : RunnerBootstrap) (invoke_component : Invoker)
    (now : Z) (stream : Stream) (shutdown : bool) : bool * list byte :=
  match read_message stream with
  | Some (Ok request) =>
    let '(shutdown, response) := handle_inbound_request b invoke_component now request shutdown in
    (shutdown, written response)
  | Some (Err err) => (shutdown, written (RunnerError (ipc_from_error err)))
  | None =>
    (shutdown, written (RunnerError (ipc_from_error
       (new_error OperationTimeout STAGE_INBOUND "runner inbound request timed out"))))
  end.

End inbound.

(** [handle_control_connection_impl] of [manager_control.rs]. *)
Definition handle_control_connection {R} `{TokenCrates, Crates} `{MessageCodec ControlRequest}
    `{MessageCodec ControlResponse} (world : RemoteWorld) (now : Z) (uuid : Uuid) (timeout_ms : Z)
    (stream : Stream) (s : Sup R) (conns : Remote) : Sup R * Remote * list byte :=
  match read_message stream with
  | Some (Ok request) =>
    let '(s, conns, response) := handle_control_request world now uuid request s conns in
    (s, conns, written response)
  | Some (Err err) => (s, conns, written (ControlError (ipc_from_error err)))
  | None =>
    (s, conns, written (control_error OperationTimeout
       ("manager control request read timed out after " +:+ to_string timeout_ms +:+ " ms")))
  end.

(** ** Connections of the component *)

Inductive RpcConnection :=
  | LocalUds
  | RemoteManager (authority connection_id : string).

(** [NEXT_CONNECTION_REP] and [CONNECTIONS]. *)
Record RpcRegistry := {
  next_connection_rep : Z;
  rpc_connections : gmap Z RpcConnection;
}.
Definition new_rpc_registry : RpcRegistry :=
  {| next_connection_rep := 1; rpc_connections := ∅ |}.

(** [fetch_add] wraps around. *)
Definition allocate_connection_rep (connection : RpcConnection) (r : RpcRegistry)
    : RpcRegistry * Z :=
  let rep := next_connection_rep r in
  ({| next_connection_rep := (rep + 1) mod 2 ^ 32;
      rpc_connections := <[rep := connection]> (rpc_connections r) |}, rep).
Definition lookup_connection (rep : Z) (r : RpcRegistry) : option RpcConnection :=
  rpc_connections r !! rep.
Definition unregister_connection (rep : Z) (r : RpcRegistry) : RpcRegistry * option RpcConnection :=
  ({| next_connection_rep := next_connection_rep r;
      rpc_connections := delete rep (rpc_connections r) |}, rpc_connections r !! rep).

Record NativePluginContext := {
  ctx_runner_id : string;
  ctx_manager_control_endpoint : string;
  ctx_manager_auth_secret : string;
}.

Section bridge.
Context `{TokenCrates}.
Context `{MessageCodec ControlRequest} `{MessageCodec ControlResponse}.
Context `{MessageCodec RunnerInboundRequest} `{MessageCodec RunnerInboundResponse}.
Context (debug_control : ControlResponse → string) (debug_inbound : RunnerInboundResponse → string).
(** The sockets of the manager and of the runners. *)
Context (manager : Peer) (runner_at : string → Peer).

Definition auth_proof (context : NativePluginContext) : result string string :=
  map_err (λ e, "failed to compute manager auth proof: " +:+ display_error e)
    (compute_manager_auth_proof (ctx_manager_auth_secret context) (ctx_runner_id context)).

(** A request to the manager under the proof of the runner. *)
Definition ask_manager (context : NativePluginContext) (request : string → ControlRequest)
    : option (result string ControlResponse) :=
  match auth_proof context with
  | Err e => Some (Err e)
  | Ok proof =>
    call_ipc_sync (ctx_manager_control_endpoint context) manager (request proof)
  end.

Definition connect_remote_via_manager (context : NativePluginContext) (authority : string)
    : option (result string RpcConnection) :=
  response ← ask_manager context (λ proof, RpcConnectRemote (ctx_runner_id context) proof authority);
  Some (response ← response;
        match response with
        | RpcRemoteConnected connection_id => Ok (RemoteManager authority connection_id)
        | ControlError err => Err (debug_error "remote connect failed" err)
        | other => Err ("unexpected remote connect response: " +:+ debug_control other)
        end).

Definition invoke_local_uds (context : NativePluginContext)
    (target_service interface_id function : string) (args_cbor : list byte)
    : option (result string (list byte)) :=
  resolved ← ask_manager context
    (λ proof, ResolveInvocationTarget (ctx_runner_id context) proof target_service interface_id);
  let target : result string (string * string) :=
    resolved ← resolved;
    match resolved with
    | ResolvedInvocationTarget endpoint token => Ok (endpoint, token)
    | ControlError err => Err (debug_error "resolve invocation target failed" err)
    | other => Err ("unexpected resolve invocation target response: " +:+ debug_control other)
    end in
  match target with
  | Err e => Some (Err e)
  | Ok (endpoint, token) =>
    invoke_response ← call_ipc_sync endpoint (runner_at endpoint)
      (Invoke interface_id function args_cbor token);
    Some (response ← invoke_response;
          match response with
          | InvokeResult payload_cbor => Ok payload_cbor
          | RunnerError err => Err (debug_error "runner invoke failed" err)
          | other => Err ("unexpected runner invoke response: " +:+ debug_inbound other)
          end)
  end.

Definition invoke_remote_via_manager (context : NativePluginContext)
    (connection_id target_service interface_id function : string) (args_cbor : list byte)
    : option (result string (list byte)) :=
  response ← ask_manager context
    (λ proof, RpcInvokeRemote (ctx_runner_id context) proof connection_id target_service
                interface_id function args_cbor);
  Some (response ← response;
        match response with
        | RpcRemoteInvokeResult result_cbor => Ok result_cbor
        | ControlError err => Err (debug_error "remote invoke failed" err)
        | other => Err ("unexpected remote invoke response: " +:+ debug_control other)
        end).

Definition invoke_connection (context : NativePluginContext) (r : RpcRegistry) (rep : Z)
    (target_service interface_id function : string) (args_cbor : list byte)
    : option (result string (list byte)) :=
  match lookup_connection rep r with
  | None => Some (Err ("rpc connection " +:+ to_string rep +:+ " is not available"))
  | Some LocalUds => invoke_local_uds context target_service interface_id function args_cbor
  | Some (RemoteManager _ connection_id) =>
    invoke_remote_via_manager context connection_id target_service interface_id function args_cbor
  end.

End bridge.

(** ** A local call, end to end *)

Section local_call.
Context {R : Type} `{TokenCratesLaws} `{Crates} `{Json}.
Context `{MessageCodecLaws ControlRequest} `{MessageCodecLaws ControlResponse}.
Context `{MessageCodecLaws RunnerInboundRequest} `{MessageCodecLaws RunnerInboundResponse}.
Context (debug_control : ControlResponse → string) (debug_inbound : RunnerInboundResponse → string).
Context (world : RemoteWorld) (timeout_ms : Z) (now_manager now_runner : Z) (uuid : Uuid).
Context (s : Sup R) (conns : Remote).
(** The runner processes, by the path of their socket. *)
Context (runners : string → option (RunnerBootstrap * Invoker)).

Definition eof (bytes : list byte) : Stream := {| sm_bytes := bytes; sm_end := Eof |}.

Definition manager_peer : Peer :=
  {| peer_connect := Ok (); peer_write _ := Ok (); peer_shutdown := Ok ();
     peer_reply bytes :=
       eof (handle_control_connection world now_manager uuid timeout_ms (eof bytes) s conns).2 |}.
Definition runner_peer (endpoint : string) : Peer :=
  {| peer_connect := match runners endpoint with Some _ => Ok () | None => Err "not found" end;
     peer_write _ := Ok (); peer_shutdown := Ok ();
     peer_reply bytes :=
       eof (match runners endpoint with
            | Some (b, invoke) => (handle_inbound_connection b invoke now_runner (eof bytes) false).2
            | None => [] end) |}.

Definition local_call (context : NativePluginContext) (target interface function : string)
    (args : list byte) : option (result string (list byte)) :=
  invoke_local_uds debug_control debug_inbound manager_peer runner_peer context target interface
    function args.

(** Each running service has its runner behind its socket, started with the name and the
    secret the manager keeps. *)
Definition runners_coherent : Prop :=
  ∀ name service, inner s !! name = Some service →
  ∃ b invoke, runners (rs_runner_endpoint service) = Some (b, invoke) ∧
    rb_service_name b = name ∧ rb_invocation_secret b = rs_invocation_secret service.

Lemma written_read {T} `{Validate T} `{!MessageCodec T} `{!MessageCodecLaws T} (m m' : T) :
  read_message_sync (eof (written m)) = Some (Ok m') → m' = m.
Proof.
  unfold written. destruct (write_message m) as [bytes|e] eqn:Hw; [|done].
  unfold write_message in Hw. inv_ok.
  match goal with Hf : write_frame _ = Ok _ |- _ => apply write_frame_Ok in Hf as [Hl ->] end.
  match goal with Hc : message_to_cbor _ = Ok ?p |- _ =>
    apply message_cbor_roundtrip in Hc; unfold read_message_sync, eof;
    destruct (read_framed p [] Eof Hl) as (st & Hr & Hlen & Hp); rewrite app_nil_r in Hr;
    rewrite Hr, Hlen, Hp, Hc end.
  rewrite (proj2 (Z.ltb_ge _ _)) by done. simpl. intros [= E]. inv_ok. done.
Qed.

(** A blocking call to a server that reads the request and writes one response. *)
Lemma call_sync_Ok {Req Resp} `{Validate Req} `{!MessageCodec Req} `{!MessageCodecLaws Req}
    `{Validate Resp} `{!MessageCodec Resp} `{!MessageCodecLaws Resp} endpoint peer
    (handle : Req → Resp) (request : Req) (response : Resp) :
  (∀ bytes, read_message (eof bytes) = Some (Ok request) →
     peer_reply peer bytes = eof (written (handle request))) →
  call_ipc_sync endpoint peer request = Some (Ok response) → response = handle request.
Proof.
  intros Hserve. unfold call_ipc_sync.
  match goal with |- match ?m with Ok _ => _ | Err _ => _ end = _ → _ =>
    destruct m as [bytes|] eqn:Hsent; [|done] end.
  inv_ok. match goal with Hw : write_message_sync _ = Ok _ |- _ =>
    apply write_message_sync_Ok in Hw as [Hw Hv]; destruct (write_message_read _ _ [] Eof Hw Hv) as [Hr _] end.
  rewrite app_nil_r in Hr. rewrite (Hserve _ Hr). apply written_read.
Qed.

Lemma call_sync_returns {Req Resp} `{Validate Req} `{!MessageCodec Req} `{!MessageCodecLaws Req}
    `{Validate Resp} `{!MessageCodec Resp} `{!MessageCodecLaws Resp} endpoint peer
    (handle : Req → Resp) (request : Req) bytes :
  write_message_sync request = Ok bytes →
  peer_connect peer = Ok () → peer_write peer bytes = Ok () → peer_shutdown peer = Ok () →
  (∀ bytes, read_message (eof bytes) = Some (Ok request) →
     peer_reply peer bytes = eof (written (handle request))) →
  (∃ bytes, write_message_sync (handle request) = Ok bytes) →
  call_ipc_sync endpoint peer request = Some (Ok (handle request)).
Proof.
  intros Hw Hc Hp Hsh Hserve [reply Hreply]. unfold call_ipc_sync.
  rewrite Hc. simpl. rewrite Hw. simpl. rewrite Hp. simpl. rewrite Hsh. simpl.
  apply write_message_sync_Ok in Hw as [Hw Hv].
  destruct (write_message_read _ _ [] Eof Hw Hv) as [Hr _]. rewrite app_nil_r in Hr.
  rewrite (Hserve _ Hr). apply write_message_sync_Ok in Hreply as [Hreply Hv'].
  unfold written. rewrite Hreply.
  destruct (write_message_read _ _ [] Eof Hreply Hv') as [_ Hr']. by rewrite app_nil_r in Hr'.
Qed.

Lemma resolve_runner_inner runner_id :
  inner (resolve_runner_service_name runner_id s).1 = inner s.
Proof. unfold resolve_runner_service_name. repeat case_match; simplify_eq/=; done. Qed.

Abbreviation resolve_response runner_id proof target wit :=
  (handle_control_request world now_manager uuid
     (ResolveInvocationTarget runner_id proof target wit) s conns).2.

Definition call_claims (name target interface : string) : InvocationTokenClaims :=
  {| tc_source_service := name; tc_target_service := target; tc_wit := interface;
     tc_exp := now_manager + INVOCATION_TOKEN_TTL_SECS; tc_nonce := uuid_to_string uuid |}.

Lemma resolved_inv runner_id proof target wit endpoint token :
  resolve_response runner_id proof target wit = ResolvedInvocationTarget endpoint token →
  ∃ name source service, inner s !! name = Some source ∧ proves source runner_id proof ∧
    {| bind_name := target; bind_wit := wit |} ∈ rs_bindings source ∧
    inner s !! target = Some service ∧ rs_is_ready service = true ∧
    endpoint = rs_runner_endpoint service ∧
    issue_invocation_token (rs_invocation_secret service) (call_claims name target wit) = Ok token.
Proof.
  unfold handle_control_request. pose proof (resolve_runner_inner runner_id) as Hin.
  simpl request_runner_id. destruct (resolve_runner_service_name runner_id s) as [s1 [name|]]; [|done].
  simpl in *. destruct (resolve_invocation_target _ _ _ _ _ _ _ s1) as [s2 response] eqn:E.
  simpl. intros ->. apply with_source_inv in E as [(e & ? & _)|(source & Hs & Hp & Hk)]; [done|].
  rewrite Hin in *. exists name, source.
  destruct (is_binding_allowed _ _ _) eqn:Hb; simpl in Hk; [|done].
  apply is_binding_allowed_In in Hb.
  destruct (inner s !! target) as [service|]; [|done]. exists service.
  destruct (rs_is_ready service) eqn:Hr; simpl in Hk; [|done].
  destruct (issue_invocation_token _ _) as [t|] eqn:Ht; [|done]. by injection Hk as _ <- <-.
Qed.

Lemma invoke_inv b invoke interface function args token result :
  (handle_inbound_request b invoke now_runner (Invoke interface function args token) false).2 =
    InvokeResult result →
  invoke interface function args = Ok result.
Proof. simpl. repeat case_match; intros; simplify_eq; done. Qed.

Lemma manager_serves request bytes :
  read_message (eof bytes) = Some (Ok request) →
  peer_reply manager_peer bytes =
    eof (written (handle_control_request world now_manager uuid request s conns).2).
Proof.
  intros Hr. simpl. unfold handle_control_connection. rewrite Hr.
  by destruct (handle_control_request _ _ _ _ _ _) as [[? ?] ?].
Qed.
Lemma runner_serves endpoint b invoke request bytes :
  runners endpoint = Some (b, invoke) → read_message (eof bytes) = Some (Ok request) →
  peer_reply (runner_peer endpoint) bytes =
    eof (written (handle_inbound_request b invoke now_runner request false).2).
Proof.
  intros He Hr. simpl. rewrite He. unfold handle_inbound_connection. rewrite Hr.
  by destruct (handle_inbound_request _ _ _ _ _) as [? ?].
Qed.

(** A call that succeeds. *)
Lemma local_call_sound context target interface function args result :
  runners_coherent → local_call context target interface function args = Some (Ok result) →
  ∃ name source service b invoke proof,
    inner s !! name = Some source ∧ proves source (ctx_runner_id context) proof ∧
    compute_manager_auth_proof (ctx_manager_auth_secret context) (ctx_runner_id context) = Ok proof ∧
    {| bind_name := target; bind_wit := interface |} ∈ rs_bindings source ∧
    inner s !! target = Some service ∧ rs_is_ready service = true ∧
    runners (rs_runner_endpoint service) = Some (b, invoke) ∧ rb_service_name b = target ∧
    invoke interface function args = Ok result.
Proof.
  intros Hcoh. unfold local_call, invoke_local_uds, ask_manager, auth_proof.
  destruct (compute_manager_auth_proof _ _) as [proof|] eqn:Hproof; simpl; [|done].
  destruct (call_ipc_sync _ manager_peer _) as [[response|]|] eqn:Hcall; simpl; [|done..].
  apply (call_sync_Ok _ _ (λ r, (handle_control_request world now_manager uuid r s conns).2)) in Hcall;
    [|intros; by apply manager_serves].
  destruct response as [|endpoint token|?|?|?] eqn:Hresp; simpl; try done.
  symmetry in Hcall. apply resolved_inv in Hcall
    as (name & source & service & Hs & Hp & Hb & Ht & Hr & -> & _).
  destruct (Hcoh _ _ Ht) as (b & invoke & Hrun & Hname & _).
  destruct (call_ipc_sync _ (runner_peer _) _) as [[response'|]|] eqn:Hcall; simpl; [|done..].
  apply (call_sync_Ok _ _ (λ r, (handle_inbound_request b invoke now_runner r false).2)) in Hcall;
    [|intros; by apply runner_serves].
  destruct response' as [|payload|?]; simpl; try done. intros [= <-].
  symmetry in Hcall. apply invoke_inv in Hcall.
  exists name, source, service, b, invoke, proof. done.
Qed.

(** A message that can be encoded, framed and accepted. *)
Definition deliverable {T} `{Validate T} `{!MessageCodec T} (m : T) : Prop :=
  ∃ bytes, write_message_sync m = Ok bytes.

(** The caller is registered, declares the binding, and the target is up; the messages of the
    call can be delivered before the token expires. *)
Record callable (context : NativePluginContext) (target interface function : string)
    (args result : list byte) (name : string) (source service : RunningService)
    (proof token : string) : Prop := {
  ca_proof : compute_manager_auth_proof (ctx_manager_auth_secret context) (ctx_runner_id context) =
               Ok proof;
  ca_index : runner_index s !! ctx_runner_id context = Some name;
  ca_source : inner s !! name = Some source;
  ca_id : rs_runner_id source = ctx_runner_id context;
  ca_secret : rs_manager_auth_secret source = ctx_manager_auth_secret context;
  ca_binding : {| bind_name := target; bind_wit := interface |} ∈ rs_bindings source;
  ca_target : inner s !! target = Some service;
  ca_ready : rs_is_ready service = true;
  ca_token : issue_invocation_token (rs_invocation_secret service) (call_claims name target interface)
               = Ok token;
  ca_token_len : zlen (bytes_of token) ≤ MAX_INVOCATION_TOKEN_CHARS;
  ca_time : now_runner < now_manager + INVOCATION_TOKEN_TTL_SECS;
  ca_ask : deliverable (ResolveInvocationTarget (ctx_runner_id context) proof target interface);
  ca_answer : deliverable (ResolvedInvocationTarget (rs_runner_endpoint service) token);
  ca_request : deliverable (Invoke interface function args token);
  ca_response : deliverable (InvokeResult result);
}.

Lemma computed_proof_valid secret runner_id proof :
  compute_manager_auth_proof secret runner_id = Ok proof →
  validate_manager_auth secret runner_id proof = Ok ().
Proof.
  unfold compute_manager_auth_proof, compute_hmac_signature, decode_secret_hex. intros Hc. inv_ok.
  unfold validate_manager_auth, verify_manager_auth_proof, decode_secret_hex,
    verify_hmac_signature_hex.
  match goal with Hk : hex_decode secret = _, Ht : hmac _ _ = _ |- _ =>
    rewrite Hk; simpl; rewrite hex_roundtrip; simpl; rewrite Ht end.
  simpl. by rewrite bool_decide_true.
Qed.

Lemma binding_allowed bindings target wit :
  {| bind_name := target; bind_wit := wit |} ∈ bindings →
  is_binding_allowed bindings target wit = true.
Proof.
  intros Hin. apply existsb_exists. eexists. split; [by apply list_elem_of_In|]. simpl.
  by rewrite !bool_decide_true.
Qed.

Lemma callable_resolves context target interface function args result name source service proof token :
  callable context target interface function args result name source service proof token →
  resolve_response (ctx_runner_id context) proof target interface =
    ResolvedInvocationTarget (rs_runner_endpoint service) token.
Proof.
  intros [? Hidx Hs Hid Hsec Hb Ht Hr Htok _ _ _ _ _ _].
  unfold handle_control_request, resolve_runner_service_name. simpl.
  rewrite Hidx, Hs, decide_True by done.
  unfold control_locked, resolve_invocation_target, with_source. rewrite Hs.
  rewrite bool_decide_true by done. simpl. rewrite Hsec, computed_proof_valid by done.
  rewrite binding_allowed by done. simpl. rewrite Ht, Hr. simpl.
  unfold call_claims in Htok. by rewrite Htok.
Qed.

Lemma local_call_complete context target interface function args result
    name source service proof token b invoke :
  callable context target interface function args result name source service proof token →
  runners (rs_runner_endpoint service) = Some (b, invoke) →
  rb_service_name b = target → rb_invocation_secret b = rs_invocation_secret service →
  invoke interface function args = Ok result →
  local_call context target interface function args = Some (Ok result).
Proof.
  intros Hc Hrun Hname Hsecret Hinv. pose proof (callable_resolves _ _ _ _ _ _ _ _ _ _ _ Hc) as Hres.
  destruct Hc as [Hp _ _ _ _ _ _ _ Htok Hlen Htime [ask Hask] Hans [req Hreq] Hresp].
  unfold local_call, invoke_local_uds, ask_manager, auth_proof. rewrite Hp. simpl.
  rewrite (call_sync_returns _ _
    (λ r, (handle_control_request world now_manager uuid r s conns).2) _ ask);
    [|done|done|done|done|intros; by apply manager_serves|by rewrite Hres].
  cbv beta. rewrite Hres. simpl.
  assert ((handle_inbound_request b invoke now_runner (Invoke interface function args token) false).2 =
    InvokeResult result) as Hin.
  { simpl. rewrite Hsecret, (issue_verify _ _ _ now_runner Htok) by done. simpl.
    rewrite Hname, !bool_decide_true by done. simpl. by rewrite Hinv. }
  rewrite (call_sync_returns _ _ (λ r, (handle_inbound_request b invoke now_runner r false).2) _ req);
    [|done|simpl; by rewrite Hrun|done|done|intros; by apply runner_serves|by rewrite Hin].
  cbv beta. rewrite Hin. done.
Qed.

(** A call of a component to another service on the same host does what the
    manifests say.  Whenever it returns a result, the caller's runner is registered and proved
    its secret, its service declares the binding, the target is running and ready, and the
    result is what the component of the target answers for exactly this interface, function
    and payload.  Conversely, with a declared binding, a ready target and messages that fit
    their frames, the call returns the target's answer, through the manager's control socket
    and the inbound socket of the target. *)
Theorem local_call_exact (Hcoherent : runners_coherent) context target interface function args result :
  (local_call context target interface function args = Some (Ok result) →
   ∃ name source service b invoke proof,
     inner s !! name = Some source ∧ proves source (ctx_runner_id context) proof ∧
     {| bind_name := target; bind_wit := interface |} ∈ rs_bindings source ∧
     inner s !! target = Some service ∧ rs_is_ready service = true ∧
     runners (rs_runner_endpoint service) = Some (b, invoke) ∧ rb_service_name b = target ∧
     invoke interface function args = Ok result) ∧
  ∀ name source service proof token b invoke,
    callable context target interface function args result name source service proof token →
    runners (rs_runner_endpoint service) = Some (b, invoke) →
    invoke interface function args = Ok result →
    local_call context target interface function args = Some (Ok result).
Proof.
  split.
  - intros (name & source & service & b & invoke & proof & Hs & Hp & _ & Hrest)%local_call_sound;
      [|done]. by exists name, source, service, b, invoke, proof.
  - intros name source service proof token b invoke Hc Hrun Hinv.
    destruct (Hcoherent _ _ (ca_target _ _ _ _ _ _ _ _ _ _ _ Hc)) as (b' & inv' & Hrun' & Hn & Hsec).
    rewrite Hrun in Hrun'. injection Hrun' as <- <-. by eapply local_call_complete.
Qed.

(** A binding whose interface names a version cannot be used.  The runtime drops the version
    when it links the import, so the import resolves to the declared service; the manager
    compares the interface it is asked for with the declared one literally and refuses.  Unless
    the service declares the same interface without the version too, no call through the
    binding ever succeeds. *)
Theorem versioned_binding_denied (Hcoherent : runners_coherent) context (binding : ServiceBinding)
    import :
  bind_wit binding ≠ normalize_binding_wit_id (bind_wit binding) →
  normalize_binding_wit_id (bind_wit binding) ≠ "" →
  normalize_binding_wit_id import = normalize_binding_wit_id (bind_wit binding) →
  (∀ name source, inner s !! name = Some source → rs_runner_id source = ctx_runner_id context →
     rs_bindings source = [binding]) →
  ∃ targets interface,
    build_binding_target_map [binding] = Ok targets ∧
    resolve_binding_target_for_import targets import = Some (bind_name binding, interface) ∧
    ∀ function args result,
      local_call context (bind_name binding) interface function args ≠ Some (Ok result).
Proof.
  intros Hver Hne Himport Hb.
  exists {[ normalize_binding_wit_id (bind_wit binding) := bind_name binding ]},
    (normalize_binding_wit_id (bind_wit binding)). split_and!.
  - unfold build_binding_target_map. simpl. by rewrite bool_decide_false.
  - unfold resolve_binding_target_for_import. by rewrite Himport, lookup_singleton_eq.
  - intros function args result Hcall.
    apply local_call_sound in Hcall as (name & source & ? & ? & ? & ? & Hs & Hp & _ & Hin & _); [|done].
    rewrite (Hb _ _ Hs (proj1 Hp)) in Hin. apply list_elem_of_singleton in Hin.
    apply Hver. destruct binding. simpl in *. congruence.
Qed.

End local_call.

(** ** A web service calls a database *)

Module RunnerDemo.

#[local] Instance json : Json :=
  {| JsonValue := unit; json_string _ := tt; json_array _ := tt; json_object _ := tt |}.

(** A codec that knows one message. *)
Definition only {T} `{EqDecision T} (known : T) : MessageCodec T :=
  {| message_to_cbor m := if decide (m = known) then Ok (bytes_of "m") else Err "unknown message";
     message_from_cbor _ := Ok known |}.
Lemma only_laws {T} `{EqDecision T} (known : T) : @MessageCodecLaws T (only known).
Proof. split. simpl. intros m bs. by case_decide as E; subst. Qed.

#[local] Instance control_request_eq_dec : EqDecision ControlRequest.
Proof. solve_decision. Defined.
#[local] Instance control_response_eq_dec : EqDecision ControlResponse.
Proof. solve_decision. Defined.
#[local] Instance inbound_request_eq_dec : EqDecision RunnerInboundRequest.
Proof. solve_decision. Defined.
#[local] Instance inbound_response_eq_dec : EqDecision RunnerInboundResponse.
Proof. solve_decision. Defined.

Definition bootstrap (runner_id service : string) (secret : string) : RunnerBootstrap :=
  {| rb_runner_id := runner_id; rb_service_name := service; rb_release_hash := "r1";
     rb_app_type := Rpc; rb_http_port := None; rb_http_listen_addr := None;
     rb_http_max_body_bytes := None; rb_http_worker_count := 1; rb_http_worker_queue_capacity := 1;
     rb_socket := None; rb_component_path := "/c.wasm"; rb_args := []; rb_envs := ∅;
     rb_wasi_mounts := []; rb_wasi_http_outbound := []; rb_resources := ∅; rb_bindings := [];
     rb_plugin_dependencies := []; rb_enabled_native_plugins := [];
     rb_capabilities := {| cap_privileged := false; cap_deps := ∅; cap_wasi := ∅ |};
     rb_manager_control_endpoint := "/run/manager";
     rb_runner_endpoint := "/run/" +:+ runner_id;
     rb_manager_auth_secret := demo_mark (bytes_of secret);
     rb_invocation_secret := demo_mark (bytes_of secret);
     rb_epoch_tick_interval_ms := 50; rb_wasm_memory_reservation_bytes := 1;
     rb_wasm_memory_reservation_for_growth_bytes := 1; rb_wasm_memory_guard_size_bytes := 1;
     rb_wasm_guard_before_linear_memory := false; rb_wasm_parallel_compilation := false |}.

Definition echo : Invoker := λ _ _ payload, Ok payload.
Definition runners (endpoint : string) : option (RunnerBootstrap * Invoker) :=
  if decide (endpoint = "/run/w1") then Some (bootstrap "w1" "web" "wkey", echo)
  else if decide (endpoint = "/run/d1") then Some (bootstrap "d1" "db" "key", echo)
  else None.

Definition services (wit : string) : Sup unit :=
  upsert_runner_index "w1" "web"
    (set_inner {[ "web" := demo_runner "w1" "wkey" [{| bind_name := "db"; bind_wit := wit |}] 1;
                  "db" := demo_runner "d1" "key" [] 2 ]} (new_sup tt)).

Definition context : NativePluginContext :=
  {| ctx_runner_id := "w1"; ctx_manager_control_endpoint := "/run/manager";
     ctx_manager_auth_secret := demo_mark (bytes_of "wkey") |}.
Definition token : string := demo_mark (bytes_of "token").
Definition args : list byte := bytes_of "select 1".

Lemma services_coherent wit : runners_coherent (services wit) runners.
Proof.
  intros name service Hs. simpl in Hs.
  apply lookup_insert_Some in Hs as [[<- <-]|[_ Hs]]; [by do 2 eexists|].
  apply lookup_singleton_Some in Hs as [<- <-]. by do 2 eexists.
Qed.

Definition plain : string := "acme:db/query".
Definition versioned : string := "acme:db/query@1.0.0".

#[local] Instance tokens : TokenCrates := demo_crates demo_web_claims "key".
#[local] Instance tokens_laws : TokenCratesLaws := demo_crates_laws demo_web_claims "key".
#[local] Instance uuids : Crates := demo_uuids.
#[local] Instance ask_codec : MessageCodec ControlRequest :=
  only (ResolveInvocationTarget "w1" demo_web_proof "db" plain).
#[local] Instance answer_codec : MessageCodec ControlResponse :=
  only (ResolvedInvocationTarget "/run/d1" token).
#[local] Instance invoke_codec : MessageCodec RunnerInboundRequest :=
  only (Invoke plain "run" args token).
#[local] Instance result_codec : MessageCodec RunnerInboundResponse := only (InvokeResult args).
#[local] Instance ask_laws : MessageCodecLaws ControlRequest := only_laws _.
#[local] Instance answer_laws : MessageCodecLaws ControlResponse := only_laws _.
#[local] Instance invoke_laws : MessageCodecLaws RunnerInboundRequest := only_laws _.
#[local] Instance result_laws : MessageCodecLaws RunnerInboundResponse := only_laws _.

Definition call_in (wit : string) (interface function : string) (args : list byte) :=
  local_call (λ _, "response") (λ _, "response") demo_world 500 100 110 7%N (services wit) no_remote runners
    context "db" interface function args.

Lemma web_callable :
  callable 100 110 7%N (services plain) context "db" plain "run" args args "web"
    (demo_runner "w1" "wkey" [{| bind_name := "db"; bind_wit := plain |}] 1)
    (demo_runner "d1" "key" [] 2) demo_web_proof token.
Proof. split; try (vm_compute; reflexivity); [left|..]; try done; eexists; vm_compute; reflexivity. Qed.

Lemma local_call_exact_witness : call_in plain plain "run" args = Some (Ok args).
Proof.
  exact (proj2 (local_call_exact (λ _, "response") (λ _, "response") demo_world 500 100 110 7%N
    (services plain) no_remote runners (services_coherent plain) context "db" plain "run" args args)
    _ _ _ _ _ (bootstrap "d1" "db" "key") echo web_callable eq_refl eq_refl).
Defined.

Lemma versioned_binding_denied_witness :
  ∃ interface, interface = plain ∧
  ∀ function args result, call_in versioned interface function args ≠ Some (Ok result).
Proof.
  destruct (versioned_binding_denied (λ _, "response") (λ _, "response") demo_world 500 100 110 7%N
    (services versioned) no_remote runners (services_coherent versioned) context
    {| bind_name := "db"; bind_wit := versioned |} plain) as (targets & interface & Ht & Hr & Hcall).
  - by vm_compute.
  - by vm_compute.
  - by vm_compute.
  - intros name source Hs. simpl in Hs.
    apply lookup_insert_Some in Hs as [[<- <-]|[_ Hs]]; [done|].
    apply lookup_singleton_Some in Hs as [<- <-]. by intros [=].
  - exists interface. split; [|exact Hcall].
    unfold resolve_binding_target_for_import in Hr. apply fmap_Some in Hr as (t & _ & Hi).
    injection Hi as _ ->. by vm_compute.
Defined.

End RunnerDemo.
