(* ===== verification/RunnerProcess.v ===== *)
(** * The life of a runner process

    [imagod-runtime/src/runner_process.rs], [imagod-runtime-bootstrap] and the part of
    [imagod-runtime-control] that talks to the manager: the bootstrap is read from the
    standard input, the runner registers, runs its component, reports that it is ready, sends
    heartbeats and stops.

    Tasks run on their own; what the process waits for is the answer of its environment
    ([RunnerEnv]), and what it does is the list of its actions, in order.

    Shown: a runner reports ready only after it registered and its component got through the
    startup window, the ready signal or a clean exit; the socket is removed on every way out,
    and all tasks are told to stop and then awaited unless the component's task panicked or
    dropped its ready signal during startup; the manager's silence or refusal, and
    nothing else in its answers, makes the runner ask for shutdown; only enabled built-in
    plugins reach the component. *)

From S2P Require Import Prelude Protocol Text IpAddr Frames Ipc Component Bridge PluginOrder Plugins LocalIpc Runner.

Open Scope Z_scope.

(** ** Bootstrap *)

Definition MAX_RUNNER_BOOTSTRAP_BYTES : Z := 64 * 1024.

Definition runner_error (code : ErrorCode) (message : string) : ImagodError :=
  new_error code STAGE_RUNNER message.

Section bootstrap.
Context `{Json} `{MessageCodec RunnerBootstrap}.

Definition validate_runner_bootstrap_size (len : Z) : iresult unit :=
  ensure (len <=? MAX_RUNNER_BOOTSTRAP_BYTES)
    (runner_error BadRequest ("runner bootstrap is too large: " +:+ to_string len +:+
       " bytes (max " +:+ to_string MAX_RUNNER_BOOTSTRAP_BYTES +:+ ")")).

Definition decode_runner_bootstrap (bytes : list byte) : iresult RunnerBootstrap :=
  _ ← validate_runner_bootstrap_size (zlen bytes);
  bootstrap ← map_err (λ e, runner_error BadRequest ("failed to decode runner bootstrap: " +:+ e))
                (message_from_cbor bytes);
  _ ← map_err (λ e, runner_error BadRequest ("invalid runner bootstrap: " +:+ ve_to_string e))
        (validate bootstrap);
  Ok bootstrap.

(** [take(MAX + 1).read_to_end]; [None]: the stream stalls. *)
Definition read_runner_bootstrap (s : Stream) : option (iresult RunnerBootstrap) :=
  let limit := MAX_RUNNER_BOOTSTRAP_BYTES + 1 in
  let bytes := take (Z.to_nat limit) (sm_bytes s) in
  match if limit <=? zlen (sm_bytes s) then Eof else sm_end s with
  | Stalled => None
  | IoError e =>
    Some (Err (runner_error BadRequest ("failed to read runner bootstrap from stdin: " +:+ e)))
  | Eof => Some (decode_runner_bootstrap bytes)
  end.

End bootstrap.

(** ** The manager *)

Section manager.
Context `{TokenCrates} `{Json}.

(** [DbusRunnerManagerClient]: a call of the control socket. *)
Context (call_control : ControlRequest → iresult ControlResponse).

Definition acknowledged (unexpected : string) (response : ControlResponse) : iresult unit :=
  match response with
  | Ack => Ok ()
  | ControlError err => Err (ipc_to_error err)
  | _ => Err (runner_error Internal unexpected)
  end.

Definition register (b : RunnerBootstrap) : iresult unit :=
  proof ← compute_manager_auth_proof (rb_manager_auth_secret b) (rb_runner_id b);
  response ← call_control (RegisterRunner (rb_runner_id b) (rb_service_name b) (rb_release_hash b)
               (rb_runner_endpoint b) proof);
  acknowledged "unexpected manager response for register_runner" response.

Definition mark_ready (b : RunnerBootstrap) : iresult unit :=
  proof ← compute_manager_auth_proof (rb_manager_auth_secret b) (rb_runner_id b);
  response ← call_control (RunnerReady (rb_runner_id b) proof);
  acknowledged "unexpected manager response for runner_ready" response.

End manager.

(** ** Heartbeats *)

Inductive HeartbeatDecision := Continue | Shutdown.

Definition apply_retryable_heartbeat_failure (failures : Z) : HeartbeatDecision * Z :=
  let failures := failures + 1 in
  (if MAX_CONSECUTIVE_HEARTBEAT_FAILURES <=? failures then Shutdown else Continue, failures).

Definition evaluate_heartbeat_result (result : iresult ControlResponse) (failures : Z)
    : HeartbeatDecision * Z :=
  match result with
  | Ok Ack => (Continue, 0)
  | Ok (ControlError err) =>
    if bool_decide (ipc_code err = NotFound) || bool_decide (ipc_code err = Unauthorized)
    then (Shutdown, failures)
    else apply_retryable_heartbeat_failure failures
  | Ok _ | Err _ => apply_retryable_heartbeat_failure failures
  end.

(** What one round of the loop meets: the shutdown flag, the answer (none within the
    timeout), and whether the flag changed, or its sender went away, during the pause. *)
Record Beat := {
  beat_shutdown : bool;
  beat_answer : option (iresult ControlResponse);
  beat_interrupted : bool;
}.

Definition heartbeat_timeout : ImagodError :=
  runner_error OperationTimeout ("runner heartbeat request timed out after " +:+
    to_string HEARTBEAT_RPC_TIMEOUT_SECS +:+ " seconds").

(** How the task ends: by itself, asking for shutdown or not; or it is still running. *)
Inductive HeartbeatEnd := StillBeating (failures : Z) | Stopped (asked_shutdown : bool).

Fixpoint send_heartbeats (proof : iresult string) (beats : list Beat) (failures : Z)
    : HeartbeatEnd :=
  match beats with
  | [] => StillBeating failures
  | beat :: rest =>
    if beat_shutdown beat then Stopped false
    else
      match proof with
      | Err _ => Stopped true
      | Ok _ =>
        let response := default (Err heartbeat_timeout) (beat_answer beat) in
        match evaluate_heartbeat_result response failures with
        | (Shutdown, _) => Stopped true
        | (Continue, failures) =>
          if beat_interrupted beat then Stopped false else send_heartbeats proof rest failures
        end
      end
  end.

(** ** Plugins for the component *)

Definition enabled_native_plugins `{Json} (b : RunnerBootstrap) : gset string :=
  match rb_enabled_native_plugins b with
  | [] => list_to_set (bp_package_name <$>
      filter (λ d, bp_default_enabled d = true) BUILTIN_NATIVE_PLUGIN_DESCRIPTORS)
  | names => list_to_set names
  end.

Definition filter_registry_for_bootstrap {RM Op} `{Json} (plugins : gmap string (NativePlugin RM Op))
    (b : RunnerBootstrap) : iresult (gmap string (NativePlugin RM Op)) :=
  filtered (λ name, negb (is_builtin_native_plugin_package_name name) ||
                    bool_decide (name ∈ enabled_native_plugins b)) plugins.

(** ** The process *)

Inductive Action :=
  | BindSocket | RemoveSocket
  | Register | MarkReady
  | SpawnInbound | SpawnRun | SpawnIngress | SpawnHeartbeat
  | SignalShutdown
  | AwaitInbound | AwaitRun | AwaitIngress | AwaitHeartbeat.

#[export] Instance Action_eq_dec : EqDecision Action.
Proof. solve_decision. Defined.

(** A joined task: the error of a panic, or its result. *)
Definition Joined : Type := result string (iresult unit).

(** What [select!] saw first while waiting for an HTTP component: the end of the task, or the
    ready signal, which is an error when its sender was dropped. *)
Inductive HttpStartup := HttpTaskEnded (run : Joined) | HttpSignalled (received : bool).

Record RunnerEnv `{Json} := {
  re_bootstrap : iresult RunnerBootstrap;
  re_prepare_socket : iresult unit;
  re_bind : result string unit;
  re_create_runtime_backend : iresult unit;
  re_validate_component : iresult unit;
  re_register : iresult unit;
  re_mark_ready : iresult unit;
  re_http_startup : HttpStartup;
  (* the end of the task within the startup window, if it ended *)
  re_startup_window : option Joined;
  re_spawn_ingress : iresult unit;
  re_run : Joined;
  re_ingress : Joined;
}.

Definition map_run_join_error (e : string) : ImagodError :=
  runner_error Internal ("runner run task join failed: " +:+ e).
Definition STAGE_HTTP_INGRESS : string := "runner.http_ingress".
Definition map_http_ingress_join_error (e : string) : ImagodError :=
  new_error Internal STAGE_HTTP_INGRESS ("http ingress task join failed: " +:+ e).

(** The actions so far, and a value or the result the function returned with. *)
Definition act (A : Type) : Type := list Action * (A + iresult unit).
#[local] Instance act_ret : MRet act := λ A a, ([], inl a).
#[local] Instance act_bind : MBind act := λ A B f m,
  match m with
  | (l, inl a) => let '(k, r) := f a in (l ++ k, r)
  | (l, inr r) => (l, inr r)
  end.
Definition tell (a : Action) : act unit := ([a], inl ()).
Definition return_ {A} (r : iresult unit) : act A := ([], inr r).
(** The question mark operator. *)
Definition try {A} (r : iresult A) : act A :=
  match r with Ok a => mret a | Err e => return_ (Err e) end.

Section process.
Context `{Json} (env : RunnerEnv).

Definition join_ingress : iresult unit :=
  match re_ingress env with Ok r => r | Err e => Err (map_http_ingress_join_error e) end.

Definition when (b : bool) (a : Action) : act unit := if b then tell a else mret ().

(** The flags tell which tasks are handed over; the result is the one of the ingress. *)
Definition shutdown_runner_tasks (http_ingress_task heartbeat_task run_task : bool)
    : act (option (iresult unit)) :=
  _ ← tell SignalShutdown;
  _ ← when heartbeat_task AwaitHeartbeat;
  _ ← when run_task AwaitRun;
  _ ← when http_ingress_task AwaitIngress;
  _ ← tell AwaitInbound;
  mret (if http_ingress_task then Some join_ingress else None).

(** [mark_ready(..)], and what runs when it fails. *)
Definition mark_ready_or (cleanup : act (option (iresult unit))) : act unit :=
  _ ← tell MarkReady;
  match re_mark_ready env with
  | Ok _ => mret ()
  | Err err => _ ← cleanup; return_ (Err err)
  end.

(** The component ended before the runner was up. *)
Definition ended_early {A} (run_result : iresult unit) (http : bool) : act A :=
  let cleanup := shutdown_runner_tasks false false false in
  _ ← match run_result with Ok _ => mark_ready_or cleanup | Err _ => mret () end;
  http_result ← cleanup;
  match http, http_result with
  | false, Some (Err err) => return_ (Err err)
  | _, _ => return_ run_result
  end.

Definition start_http : act unit :=
  match re_http_startup env with
  | HttpTaskEnded (Err e) => return_ (Err (map_run_join_error e))
  | HttpTaskEnded (Ok run_result) => ended_early run_result true
  | HttpSignalled false =>
    return_ (Err (runner_error Internal "http runtime initialization ended before ready signal"))
  | HttpSignalled true =>
    match re_spawn_ingress env with
    | Err err => _ ← shutdown_runner_tasks false false true; return_ (Err err)
    | Ok _ =>
      _ ← tell SpawnIngress;
      mark_ready_or (shutdown_runner_tasks true false true)
    end
  end.

Definition start_other : act unit :=
  match re_startup_window env with
  | Some (Err e) => return_ (Err (map_run_join_error e))
  | Some (Ok run_result) => ended_early run_result false
  | None => mark_ready_or (shutdown_runner_tasks false false true)
  end.

Definition is_http (b : RunnerBootstrap) : bool :=
  match rb_app_type b with Http => true | Cli | Rpc | Socket => false end.

(** From the bound socket on. *)
Definition serve (b : RunnerBootstrap) : act unit :=
  _ ← try (re_create_runtime_backend env);
  _ ← try (re_validate_component env);
  _ ← tell Register;
  _ ← try (re_register env);
  _ ← tell SpawnInbound;
  _ ← tell SpawnRun;
  _ ← (if is_http b then start_http else start_other);
  _ ← tell SpawnHeartbeat;
  _ ← tell AwaitRun;
  let run_result := match re_run env with Ok r => r | Err e => Err (map_run_join_error e) end in
  http_result ← shutdown_runner_tasks (is_http b) true false;
  match http_result with
  | Some (Err err) => return_ (Err err)
  | _ => return_ run_result
  end.

(** [SocketCleanupGuard] removes the socket when the function returns. *)
Definition with_socket_guard (m : act unit) : act unit :=
  let '(l, r) := m in (l ++ [RemoveSocket], r).

Definition run_runner_from_stdin_with_registry : list Action * iresult unit :=
  let run : act unit :=
    b ← try (re_bootstrap env);
    _ ← try (re_prepare_socket env);
    _ ← tell BindSocket;
    _ ← try (map_err (λ e, runner_error Internal ("failed to bind runner endpoint " +:+
          rb_runner_endpoint b +:+ ": " +:+ e)) (re_bind env));
    with_socket_guard (serve b) in
  (run.1, match run.2 with inl _ => Ok () | inr r => r end).

End process.

(** ** Theorems *)

(** *** Heartbeats *)

Inductive Answer := Accepted | Rejected | Missed.
Definition answer (beat : Beat) : Answer :=
  match beat_answer beat with
  | Some (Ok Ack) => Accepted
  | Some (Ok (ControlError err)) =>
    if bool_decide (ipc_code err = NotFound) || bool_decide (ipc_code err = Unauthorized)
    then Rejected else Missed
  | _ => Missed
  end.

Lemma evaluate_answer beat failures :
  evaluate_heartbeat_result (default (Err heartbeat_timeout) (beat_answer beat)) failures =
  match answer beat with
  | Accepted => (Continue, 0)
  | Rejected => (Shutdown, failures)
  | Missed => apply_retryable_heartbeat_failure failures
  end.
Proof.
  unfold answer, evaluate_heartbeat_result.
  destruct (beat_answer beat) as [[[| | | |err]|]|]; simpl; try done. by destruct (_ || _).
Qed.

Definition missed_thrice (answers : list Answer) : Prop :=
  ∃ i, answers !! i = Some Missed ∧ answers !! S i = Some Missed ∧ answers !! S (S i) = Some Missed.

Lemma missed_thrice_cons a answers :
  missed_thrice (a :: answers) ↔
  (a = Missed ∧ answers !! 0%nat = Some Missed ∧ answers !! 1%nat = Some Missed) ∨
  missed_thrice answers.
Proof.
  split.
  - intros [[|i] Hi]; simpl in Hi; [left|right; by exists i]. naive_solver.
  - intros [(-> & H0 & H1)|[i Hi]]; [by exists 0%nat|by exists (S i)].
Qed.

Lemma missed_thrice_accepted k answers :
  (k ≤ 2)%nat → missed_thrice (replicate k Missed ++ Accepted :: answers) ↔ missed_thrice answers.
Proof.
  intros Hk. destruct k as [|[|[|k]]]; [..|lia]; simpl; rewrite !missed_thrice_cons; simpl; naive_solver.
Qed.

Lemma send_heartbeats_asked proof beats : ∀ k : nat,
  (k ≤ 2)%nat → Forall (λ b, beat_shutdown b = false ∧ beat_interrupted b = false) beats →
  send_heartbeats (Ok proof) beats (Z.of_nat k) = Stopped true ↔
  Rejected ∈ answer <$> beats ∨ missed_thrice (replicate k Missed ++ (answer <$> beats)).
Proof.
  induction beats as [|beat beats IH]; intros k Hk Hquiet; csimpl.
  { split; [done|]. rewrite elem_of_nil, app_nil_r. intros [[]|[i (H0 & H1 & H2)]].
    apply lookup_replicate in H2 as [_ Hi]. lia. }
  apply Forall_cons in Hquiet as [[-> ->] Hquiet].
  rewrite evaluate_answer, elem_of_cons. destruct (answer beat) eqn:Ha.
  - rewrite (IH 0%nat) by (done || lia). simpl. rewrite missed_thrice_accepted by done. naive_solver.
  - naive_solver.
  - unfold apply_retryable_heartbeat_failure, MAX_CONSECUTIVE_HEARTBEAT_FAILURES.
    assert (replicate k Missed ++ Missed :: (answer <$> beats) =
      replicate (S k) Missed ++ (answer <$> beats)) as ->.
    { by rewrite replicate_S_end, <-app_assoc. }
    destruct (Z.leb_spec 3 (Z.of_nat k + 1)).
    + assert (k = 2%nat) as -> by lia. split; [|done]. intros _. right. by exists 0%nat.
    + replace (Z.of_nat k + 1) with (Z.of_nat (S k)) by lia. rewrite IH by (done || lia). naive_solver.
Qed.

(** While nothing else stops the runner, it asks for shutdown exactly when
    the manager answers a heartbeat with [NotFound] or [Unauthorized], or three heartbeats in a
    row are not acknowledged, whatever the reason.  One acknowledged heartbeat starts the
    count again. *)
Theorem heartbeat_shutdown_exact proof beats :
  Forall (λ b, beat_shutdown b = false ∧ beat_interrupted b = false) beats →
  send_heartbeats (Ok proof) beats 0 = Stopped true ↔
  Rejected ∈ answer <$> beats ∨ missed_thrice (answer <$> beats).
Proof. intros Hquiet. by apply (send_heartbeats_asked proof beats 0); [lia|]. Qed.

Lemma heartbeat_shutdown_exact_witness :
  let missed := {| beat_shutdown := false; beat_answer := None; beat_interrupted := false |} in
  let acked := {| beat_shutdown := false; beat_answer := Some (Ok Ack); beat_interrupted := false |} in
  send_heartbeats (Ok "proof") [missed; missed; acked; missed; missed; missed] 0 = Stopped true ∧
  send_heartbeats (Ok "proof") [missed; missed; acked; missed; missed] 0 ≠ Stopped true.
Proof.
  cbv zeta. split.
  - apply (heartbeat_shutdown_exact "proof"); [by repeat constructor|]. right. by exists 3%nat.
  - intros Hs. apply (heartbeat_shutdown_exact "proof") in Hs; [|by repeat constructor].
    simpl in Hs. destruct Hs as [Hr|[i Hi]].
    + by repeat (apply elem_of_cons in Hr as [?|Hr]; [done|]); apply elem_of_nil in Hr.
    + do 6 (destruct i as [|i]; [naive_solver|]). naive_solver.
Defined.

(** *** The order of a runner's life *)

Section life.
Context `{Json}.
Implicit Types env : RunnerEnv.

(** The component got through its startup, and the runner may report ready. *)
Definition came_up env (b : RunnerBootstrap) : Prop :=
  if is_http b then
    re_http_startup env = HttpSignalled true ∧ re_spawn_ingress env = Ok () ∨
    re_http_startup env = HttpTaskEnded (Ok (Ok ()))
  else re_startup_window env = None ∨ re_startup_window env = Some (Ok (Ok ())).

(** The component's task ended while the runner was waiting for it to come up. *)
Definition ended_in_startup env (b : RunnerBootstrap) : Prop :=
  if is_http b then ∃ run, re_http_startup env = HttpTaskEnded run
  else ∃ run, re_startup_window env = Some run.

(** The runner gives up at once: the component's task panicked while it was waited for, or an
    HTTP component dropped its ready signal without sending it. *)
Definition gives_up env (b : RunnerBootstrap) : Prop :=
  if is_http b then
    re_http_startup env = HttpSignalled false ∨ ∃ e, re_http_startup env = HttpTaskEnded (Err e)
  else ∃ e, re_startup_window env = Some (Err e).

(** The tasks of a runner. *)
Inductive Task := InboundTask | RunTask | IngressTask | HeartbeatTask.
Definition spawn (task : Task) : Action :=
  match task with
  | InboundTask => SpawnInbound | RunTask => SpawnRun
  | IngressTask => SpawnIngress | HeartbeatTask => SpawnHeartbeat
  end.
Definition await (task : Task) : Action :=
  match task with
  | InboundTask => AwaitInbound | RunTask => AwaitRun
  | IngressTask => AwaitIngress | HeartbeatTask => AwaitHeartbeat
  end.

(** The tasks are told to stop, and every one that was started is awaited after that; only the
    component of a runner that sends heartbeats is awaited before, and a component whose task
    already ended is not awaited again. *)
Definition stops_tasks (actions : list Action) env (b : RunnerBootstrap) : Prop :=
  ∃ pre post, actions = pre ++ SignalShutdown :: post ∧ last post = Some AwaitInbound ∧
    ∀ task, spawn task ∉ post ∧
      (await task ∈ pre → task = RunTask ∧ SpawnHeartbeat ∈ pre) ∧
      (spawn task ∈ pre → await task ∈ post ∨
         task = RunTask ∧ (await task ∈ pre ∨ ended_in_startup env b)).

(** What the actions of [serve] are, case by case. *)
Definition served (actions : list Action) env (b : RunnerBootstrap) (r : iresult unit) : Prop :=
  NoDup actions ∧
  (MarkReady ∈ actions → ∃ pre post, actions = pre ++ MarkReady :: post ∧
     Register ∈ pre ∧ SpawnInbound ∈ pre ∧ SpawnRun ∈ pre ∧
     (is_http b = true → SpawnIngress ∈ pre ∨ ended_in_startup env b) ∧
     re_register env = Ok () ∧ came_up env b) ∧
  (SpawnHeartbeat ∈ actions → MarkReady ∈ actions ∧ re_mark_ready env = Ok ()) ∧
  (SpawnInbound ∈ actions → ¬ gives_up env b → stops_tasks actions env b) ∧
  (SpawnInbound ∈ actions → gives_up env b →
     actions = [Register; SpawnInbound; SpawnRun] ∧ r ≠ Ok ()) ∧
  (r = Ok () → MarkReady ∈ actions ∧ re_mark_ready env = Ok ()).

Fixpoint before (a : Action) (l : list Action) : list Action :=
  match l with x :: l => if decide (x = a) then [] else x :: before a l | [] => [] end.

(** Membership in a closed list of actions is decided. *)
Local Ltac closed_list := match goal with |- ?P => by apply (bool_decide_unpack P); vm_compute end.
Local Ltac not_in := let Hin := fresh in
  intros Hin; exfalso; revert Hin; match goal with |- ?P → False => change (¬ P); closed_list end.
Local Ltac split_before a :=
  match goal with |- ∃ pre post, ?l = _ ∧ _ =>
    let pre := eval vm_compute in (before a l) in exists pre; eexists; split; [reflexivity|]
  end.
Local Ltac stopped :=
  split_before SignalShutdown; split; [reflexivity|]; intros []; split_and!;
    first [closed_list|not_in|intros _; split; [done|closed_list]|intros _; left; closed_list
          |intros _; right; split; [done|]; first [left; closed_list|right; by eexists]].
Local Ltac served_cases :=
  do 2 eexists; split; [reflexivity|]; split_and!;
    [closed_list
    |first [not_in|intros _; split_before MarkReady;
       split_and!; try closed_list; try done;
       first [intros _; left; closed_list|intros _; right; by eexists|naive_solver]]
    |first [not_in|intros _; split; [closed_list|done]]
    |first [not_in|intros _ Hok; first [exfalso; naive_solver|stopped]]
    |first [not_in|intros _ Hno; first [by split|exfalso; naive_solver]]
    |first [done|intros _; split; [closed_list|done]|intros ?; simplify_eq; split; [closed_list|done]]].

Lemma serve_served env b :
  ∃ actions r, serve env b = (actions, inr r) ∧ served actions env b r.
Proof.
  unfold serve, served, came_up, gives_up, stops_tasks, ended_in_startup.
  destruct (re_create_runtime_backend env) as [[]|e]; simpl; [|served_cases].
  destruct (re_validate_component env) as [[]|e]; simpl; [|served_cases].
  destruct (re_register env) as [[]|e]; simpl; [|served_cases].
  destruct (is_http b); unfold start_http, start_other, ended_early, mark_ready_or.
  - destruct (re_http_startup env) as [[[[]|e]|e]|[]]; simpl; try served_cases.
    + destruct (re_mark_ready env) as [[]|e]; simpl; served_cases.
    + destruct (re_spawn_ingress env) as [[]|e]; simpl; [|served_cases].
      destruct (re_mark_ready env) as [[]|e]; simpl; [|served_cases].
      unfold join_ingress. destruct (re_ingress env) as [[[]|e]|e]; simpl; served_cases.
  - destruct (re_startup_window env) as [[[[]|e]|e]|]; simpl; try served_cases.
    + destruct (re_mark_ready env) as [[]|e]; simpl; served_cases.
    + destruct (re_mark_ready env) as [[]|e]; simpl; served_cases.
Qed.


End life.

Module LifeDemo.

#[local] Existing Instance RunnerDemo.json.

(** A component that outlives the startup window and then ends. *)
Definition env : RunnerEnv :=
  {| re_bootstrap := Ok (RunnerDemo.bootstrap "w1" "web" "key"); re_prepare_socket := Ok ();
     re_bind := Ok (); re_create_runtime_backend := Ok (); re_validate_component := Ok ();
     re_register := Ok (); re_mark_ready := Ok (); re_http_startup := HttpSignalled true;
     re_startup_window := None; re_spawn_ingress := Ok (); re_run := Ok (Ok ());
     re_ingress := Ok (Ok ()) |}.


End LifeDemo.

(** *** Plugins for the component *)

Section filtered.
Context {RM Op : Type}.
Implicit Types plugins : gmap string (NativePlugin RM Op).

(** Registered under their trimmed names. *)
Definition registry_ok plugins : Prop :=
  ∀ name p, plugins !! name = Some p → name = trim (np_package_name p) ∧ name ≠ "".

Lemma register_plugin_Ok (p : NativePlugin RM Op) plugins plugins' :
  register_plugin p plugins = Ok plugins' ↔
  trim (np_package_name p) ≠ "" ∧ plugins !! trim (np_package_name p) = None ∧
  plugins' = <[trim (np_package_name p) := p]> plugins.
Proof.
  unfold register_plugin. destruct (decide (trim (np_package_name p) = "")) as [He|He].
  { rewrite He. split; [done|]. by intros [Hn _]. }
  rewrite (bool_decide_false _ He). simpl.
  destruct (plugins !! trim (np_package_name p)) as [q|].
  - rewrite bool_decide_true by done. split; [done|]. by intros (_ & ? & _).
  - rewrite bool_decide_false by (by intros [? ?]). simpl. split; [by intros [= <-]|].
    by intros (_ & _ & ->).
Qed.

Lemma filtered_loop_Ok include (l : list (string * NativePlugin RM Op)) : ∀ builder,
  NoDup l.*1 → (∀ name p, (name, p) ∈ l → name = trim (np_package_name p) ∧ name ≠ "") →
  (∀ name, name ∈ l.*1 → builder !! name = None) →
  filtered_loop include l builder =
    Ok (list_to_map (filter (λ x, include x.1 = true) l) ∪ builder).
Proof.
  induction l as [|[name p] l IH]; intros builder Hnd Hok Hfresh; simpl.
  { by rewrite (left_id_L ∅ (∪)). }
  apply NoDup_cons in Hnd as [Hnew Hnd].
  destruct (Hok name p) as [Hname Hne]; [left|].
  rewrite filter_cons. simpl. destruct (include name) eqn:Hi.
  - rewrite decide_True by done. simpl.
    assert (builder !! name = None) as Hn by (apply Hfresh; left).
    rewrite (proj2 (register_plugin_Ok p builder (<[name := p]> builder))) by (by rewrite <-Hname).
    simpl. rewrite IH; [|done|intros; apply Hok; by right|].
    + f_equal. rewrite <-insert_union_l, insert_union_r; [done|].
      apply not_elem_of_list_to_map_1. intros [x [-> Hx]]%list_elem_of_fmap.
      apply list_elem_of_filter in Hx as [_ Hx]. apply Hnew. exact (list_elem_of_fmap_2 fst _ _ Hx).
    + intros n Hin. rewrite lookup_insert_ne by (intros ->; done). apply Hfresh. by right.
  - rewrite decide_False by congruence. apply IH; [done|intros; apply Hok; by right|].
    intros n Hin. apply Hfresh. by right.
Qed.

Lemma NoDup_fst_filter {V} (P : string * V → Prop) `{∀ x, Decision (P x)} (l : list (string * V)) :
  NoDup l.*1 → NoDup (filter P l).*1.
Proof.
  induction l as [|x l IH]; intros Hnd; [done|]. apply NoDup_cons in Hnd as [Hx Hnd].
  rewrite filter_cons. case_decide; [|auto]. apply NoDup_cons. split; [|auto].
  intros (y & Hy & [_ Hin]%list_elem_of_filter)%list_elem_of_fmap. apply Hx. rewrite Hy.
  exact (list_elem_of_fmap_2 fst _ _ Hin).
Qed.

Lemma filtered_Ok include plugins :
  registry_ok plugins → filtered include plugins = Ok (filter (λ x, include x.1 = true) plugins).
Proof.
  intros Hok. unfold filtered.
  assert (NoDup (btree_iter plugins).*1) as Hnd.
  { unfold btree_iter. rewrite sort_by_Permutation. apply NoDup_fst_map_to_list. }
  rewrite filtered_loop_Ok.
  - f_equal. rewrite (right_id_L ∅ (∪)). apply map_eq. intros name. apply option_eq. intros p.
    rewrite map_lookup_filter_Some, <-elem_of_list_to_map by (by apply NoDup_fst_filter).
    rewrite list_elem_of_filter, elem_of_btree_iter. naive_solver.
  - done.
  - intros name p Hin%elem_of_btree_iter. by apply Hok.
  - done.
Qed.

(** The component gets the plugins that are not built in, and the built-in ones the bootstrap
    enables; when it names none, those enabled by default. *)
Lemma filter_registry_exact `{Json} plugins (b : RunnerBootstrap) :
  registry_ok plugins →
  ∃ plugins', filter_registry_for_bootstrap plugins b = Ok plugins' ∧
  ∀ name p, plugins' !! name = Some p ↔ plugins !! name = Some p ∧
    (is_builtin_native_plugin_package_name name = true → name ∈ enabled_native_plugins b).
Proof.
  intros Hok. eexists. split; [by apply filtered_Ok|]. intros name p.
  rewrite map_lookup_filter_Some. simpl.
  destruct (is_builtin_native_plugin_package_name name); simpl;
    rewrite ?bool_decide_eq_true; naive_solver.
Qed.

End filtered.
