(* ===== verification/LogForward.v ===== *)
(** * Forwarding logs to a client

    [imagod-server/src/protocol_handler/logs_forwarder.rs]: the stored logs of the subscribed
    services and then their new events are cut into chunks with a sequence number and sent,
    over a stream or as datagrams.

    The events of several services arrive through one channel, in the order of a list; the
    list ends when all senders are gone or the session closes.  What a send does is a
    parameter ([transmit]); for datagrams it is the size check and the retries around the
    session.  The CBOR encoder is a parameter with the sizes of RFC 8949 ([LogCborLaws]).

    Shown: over a connection that works, the chunks of a service are its stored logs and its
    events, in order and complete, numbered without gaps but for dropped events, and the
    last chunk and the end message close them; each datagram fits its limit. *)

From S2P Require Import Prelude Protocol LogBuffer Supervisor.

Open Scope Z_scope.

Definition LOG_STREAM_CHUNK_BYTES : nat := 16 * 1024.
Arguments LOG_STREAM_CHUNK_BYTES : simpl never.
Definition LOG_DATAGRAM_TARGET_BYTES : Z := 1024.

(** New events are followed. *)
Definition sub_follow (sub : ServiceLogSubscription) : bool := bool_decide (is_Some (sub_receiver sub)).

Inductive FollowForwardMsg :=
  | FollowEvent (service_name : string) (event : ServiceLogEvent)
  | FollowLagged (service_name : string) (dropped : Z).

Inductive LogMessage := ChunkMsg (c : LogChunk) | EndMsg (e : LogEnd).

Definition service_log_stream_to_protocol (stream : ServiceLogStream) : LogStreamKind :=
  match stream with
  | LogBuffer.Stdout => Protocol.Stdout
  | LogBuffer.Stderr => Protocol.Stderr
  end.

Definition log_error_from_imagod_error (err : ImagodError) : LogError :=
  {| le_code := match err_code err with
                | NotFound => ProcessNotFound
                | Unauthorized => PermissionDenied
                | _ => LogInternal
                end;
     le_message := err_message err |}.

Definition flatten_log_event_bytes (events : list ServiceLogEvent) : list byte :=
  concat (ev_bytes <$> events).

(** [bytes.chunks(size)]; as many rounds as there are bytes are enough. *)
Fixpoint chunks_loop (fuel : nat) (size : nat) (bytes : list byte) : list (list byte) :=
  match fuel, bytes with
  | S fuel, _ :: _ => take size bytes :: chunks_loop fuel size (drop size bytes)
  | _, _ => []
  end.
Definition chunks (size : nat) (bytes : list byte) : list (list byte) :=
  chunks_loop (length bytes) size bytes.

(** ** Sending *)

Record Forwarder := { fw_seq : Z; fw_last_name : option string; fw_sent : list LogMessage }.
Definition new_forwarder : Forwarder := {| fw_seq := 0; fw_last_name := None; fw_sent := [] |}.

Definition forwarding (A : Type) : Type := Forwarder → Forwarder * iresult A.
#[export] Instance forwarding_ret : MRet forwarding := λ A a s, (s, Ok a).
#[export] Instance forwarding_bind : MBind forwarding := λ A B f m s,
  let '(s, r) := m s in
  match r with Ok a => f a s | Err e => (s, Err e) end.

Definition for_all {A} (f : A → forwarding unit) : list A → forwarding unit :=
  fix go l := match l with [] => mret () | x :: l => _ ← f x; go l end.

Section forwarder.
Context (request_id : Uuid) (with_timestamp : bool) (chunk_size : nat).
(** Sending a message after others were sent. *)
Context (transmit : list LogMessage → LogMessage → iresult unit).

Definition emit (message : LogMessage) : forwarding unit := λ s,
  match transmit (fw_sent s) message with
  | Ok _ => ({| fw_seq := fw_seq s; fw_last_name := fw_last_name s;
                fw_sent := fw_sent s ++ [message] |}, Ok ())
  | Err e => (s, Err e)
  end.

Definition set_seq (seq : Z) : forwarding unit := λ s,
  ({| fw_seq := seq; fw_last_name := fw_last_name s; fw_sent := fw_sent s |}, Ok ()).
Definition set_last_name (name : string) : forwarding unit := λ s,
  ({| fw_seq := fw_seq s; fw_last_name := Some name; fw_sent := fw_sent s |}, Ok ()).
Definition get_seq : forwarding Z := λ s, (s, Ok (fw_seq s)).

Definition send_single_log_chunk (name : string) (stream_kind : LogStreamKind) (bytes : list byte)
    (is_last : bool) (timestamp_unix_ms : option Z) : forwarding unit :=
  seq ← get_seq;
  _ ← emit (ChunkMsg {| lc_request_id := request_id; lc_seq := seq; lc_name := name;
        lc_stream_kind := stream_kind; lc_bytes := bytes; lc_is_last := is_last;
        lc_timestamp_unix_ms := if with_timestamp then timestamp_unix_ms else None |});
  set_seq (seq +ˢ 1).

Definition send_log_data_chunks (name : string) (stream_kind : LogStreamKind) (bytes : list byte)
    (timestamp_unix_ms : option Z) : forwarding unit :=
  if bool_decide (bytes = []) then mret ()
  else if bool_decide (chunk_size = 0%nat) then λ s,
    (s, Err (new_error Internal "logs.datagram" "computed logs chunk size must be greater than zero"))
  else
    _ ← for_all (λ chunk, send_single_log_chunk name stream_kind chunk false timestamp_unix_ms)
          (chunks chunk_size bytes);
    set_last_name name.

Definition send_logs_end (seq : Z) (error : option LogError) : forwarding unit :=
  emit (EndMsg {| ln_request_id := request_id; ln_seq := seq; ln_error := error |}).

Definition advance_seq_for_lagged (dropped : Z) : forwarding unit :=
  seq ← get_seq; set_seq (seq +ˢ dropped).

Definition send_snapshot (sub : ServiceLogSubscription) : forwarding unit :=
  let name := sub_service_name sub in
  match sub_snapshot sub with
  | SnapBytes bytes => send_log_data_chunks name Composite bytes None
  | SnapEvents events =>
    if with_timestamp then
      for_all (λ event, send_log_data_chunks name Composite (ev_bytes event)
                          (Some (ev_timestamp_unix_ms event))) events
    else send_log_data_chunks name Composite (flatten_log_event_bytes events) None
  end.

Definition forward_message (message : FollowForwardMsg) : forwarding unit :=
  match message with
  | FollowEvent name event =>
    send_log_data_chunks name (service_log_stream_to_protocol (ev_stream event)) (ev_bytes event)
      (Some (ev_timestamp_unix_ms event))
  | FollowLagged name dropped => _ ← set_last_name name; advance_seq_for_lagged dropped
  end.

(** [stream_logs_chunks] and [stream_logs_datagrams]. *)
Definition stream_logs (subscriptions : list ServiceLogSubscription)
    (messages : list FollowForwardMsg) : forwarding unit :=
  _ ← for_all send_snapshot subscriptions;
  if existsb sub_follow subscriptions then for_all forward_message messages else mret ().

(** The last chunk and the end, or the end with the error. *)
Definition finish (fallback_name : string) (stream_result : iresult unit) : forwarding unit := λ s,
  match stream_result with
  | Ok _ =>
    (_ ← send_single_log_chunk (default fallback_name (fw_last_name s)) Composite [] true None;
     seq ← get_seq;
     send_logs_end seq None) s
  | Err err => send_logs_end (fw_seq s) (Some (log_error_from_imagod_error err)) s
  end.

End forwarder.

Definition run_stream_logs_forwarder (request_id : Uuid)
    (transmit : list LogMessage → LogMessage → iresult unit)
    (subscriptions : list ServiceLogSubscription) (with_timestamp : bool)
    (messages : list FollowForwardMsg) : Forwarder * iresult unit :=
  match subscriptions with
  | [] => (new_forwarder, Ok ())
  | sub :: _ =>
    let '(s, stream_result) :=
      stream_logs request_id with_timestamp LOG_STREAM_CHUNK_BYTES transmit subscriptions messages
        new_forwarder in
    finish request_id with_timestamp transmit (sub_service_name sub) stream_result s
  end.

(** ** Datagrams *)

Class LogCbor := { log_to_cbor : LogMessage → result string (list byte) }.

Definition datagram_error (message : string) : ImagodError :=
  new_error Internal "logs.datagram" message.

(** The attempts of [session.send_datagram], one at once and one after each delay. *)
Definition send_datagram_with_retry (attempt : nat → iresult unit) : iresult unit :=
  match attempt 0%nat with
  | Ok _ => Ok ()
  | Err _ =>
    match attempt 1%nat with
    | Ok _ => Ok ()
    | Err _ =>
      match attempt 2%nat with
      | Ok _ => Ok ()
      | Err _ => attempt 3%nat
      end
    end
  end.

Section datagrams.
Context `{LogCbor} (request_id : Uuid).
(** The attempts to send a datagram after others were sent. *)
Context (attempt : list LogMessage → list byte → nat → iresult unit).

Definition send_datagram_envelope (max_datagram_size : Z) (sent : list LogMessage)
    (message : LogMessage) : iresult unit :=
  bytes ← map_err (λ e, datagram_error ("failed to encode datagram payload: " +:+ e)%string)
            (log_to_cbor message);
  _ ← ensure (zlen bytes <=? max_datagram_size)
        (datagram_error ("datagram payload too large: size=" +:+ to_string (zlen bytes) +:+
           " max=" +:+ to_string max_datagram_size)%string);
  send_datagram_with_retry (attempt sent bytes).

(** [max_by_key] keeps the last of equal keys. *)
Definition longest_name (names : list string) : string :=
  default "logs" (foldl (λ best name,
    match best with
    | None => Some name
    | Some b => if zlen (bytes_of b) <=? zlen (bytes_of name) then Some name else Some b
    end) None names).

Definition fixed_log_chunk_size (max_datagram_size : Z) (service_names : list string)
    (with_timestamp : bool) : iresult Z :=
  let probe := {| lc_request_id := request_id; lc_seq := u64_max; lc_name := longest_name service_names;
                  lc_stream_kind := Composite; lc_bytes := []; lc_is_last := false;
                  lc_timestamp_unix_ms := if with_timestamp then Some u64_max else None |} in
  overhead ← map_err (λ e, datagram_error ("failed to encode datagram probe: " +:+ e)%string)
               (log_to_cbor (ChunkMsg probe));
  let computed_limit := max_datagram_size -ˢ (zlen overhead +ˢ 2) in
  let chunk_size := Z.min computed_limit LOG_DATAGRAM_TARGET_BYTES in
  _ ← ensure (negb (chunk_size =? 0))
        (datagram_error ("datagram size is too small for logs payload: max=" +:+
           to_string max_datagram_size +:+ " overhead=" +:+ to_string (zlen overhead))%string);
  Ok chunk_size.

(** [run_logs_forwarder]: failures to send are dropped. *)
Definition run_logs_forwarder (max_datagram_size : option Z)
    (subscriptions : list ServiceLogSubscription) (with_timestamp : bool)
    (messages : list FollowForwardMsg) : Forwarder :=
  match subscriptions, max_datagram_size with
  | [], _ | _, None => new_forwarder
  | sub :: _, Some max =>
    let transmit := send_datagram_envelope max in
    match fixed_log_chunk_size max (sub_service_name <$> subscriptions) with_timestamp with
    | Err err =>
      (send_logs_end request_id transmit 0 (Some (log_error_from_imagod_error err)) new_forwarder).1
    | Ok chunk_size =>
      let '(s, stream_result) :=
        stream_logs request_id with_timestamp (Z.to_nat chunk_size) transmit subscriptions messages
          new_forwarder in
      match stream_result with
      | Err err =>
        (send_logs_end request_id transmit (fw_seq s) (Some (log_error_from_imagod_error err)) s).1
      | Ok _ =>
        let '(s, _) := send_single_log_chunk request_id with_timestamp transmit
          (default (sub_service_name sub) (fw_last_name s)) Composite [] true None s in
        (send_logs_end request_id transmit (fw_seq s) None s).1
      end
    end
  end.
End datagrams.

(** ** What a client receives *)

(** The bytes of the chunks of one service. *)
Definition payload (name : string) (cs : list LogChunk) : list byte :=
  concat (lc_bytes <$> filter (λ c, lc_name c = name) cs).

Definition snapshot_bytes (snapshot : ServiceLogSnapshot) : list byte :=
  match snapshot with
  | SnapBytes bytes => bytes
  | SnapEvents events => flatten_log_event_bytes events
  end.
Definition stored_bytes (name : string) (subscriptions : list ServiceLogSubscription) : list byte :=
  concat ((λ sub, snapshot_bytes (sub_snapshot sub)) <$>
    filter (λ sub, sub_service_name sub = name) subscriptions).
Definition message_bytes (name : string) (message : FollowForwardMsg) : list byte :=
  match message with
  | FollowEvent n event => if decide (n = name) then ev_bytes event else []
  | FollowLagged _ _ => []
  end.
Definition followed_bytes (name : string) (messages : list FollowForwardMsg) : list byte :=
  concat (message_bytes name <$> messages).
Definition message_dropped (message : FollowForwardMsg) : Z :=
  match message with FollowEvent _ _ => 0 | FollowLagged _ dropped => dropped end.
Definition dropped_events (messages : list FollowForwardMsg) : Z :=
  foldr (λ m n, message_dropped m + n) 0 messages.

(** [cs] are numbered from [seq] on, with [dropped] numbers left out; [seq'] comes next. *)
Definition numbered (seq : Z) (cs : list LogChunk) (dropped seq' : Z) : Prop :=
  0 ≤ dropped ∧ seq' = seq +ˢ (zlen cs + dropped) ∧
  ∀ i c, cs !! i = Some c → seq +ˢ Z.of_nat i ≤ lc_seq c ≤ seq +ˢ (Z.of_nat i + dropped).

Lemma payload_app name cs cs' : payload name (cs ++ cs') = payload name cs ++ payload name cs'.
Proof. unfold payload. by rewrite filter_app, fmap_app, concat_app. Qed.

Lemma numbered_nil seq : in_u64 seq → numbered seq [] 0 seq.
Proof. intros Hs. split_and!; [lia|change (zlen (@nil LogChunk)) with 0; ulia|done]. Qed.
Lemma numbered_lag seq dropped : in_u64 seq → 0 ≤ dropped → numbered seq [] dropped (seq +ˢ dropped).
Proof. intros Hs Hd. split_and!; [lia|done|done]. Qed.
Lemma numbered_one seq c : in_u64 seq → lc_seq c = seq → numbered seq [c] 0 (seq +ˢ 1).
Proof.
  intros Hs Hc. split_and!; [lia|done|]. intros i c' [-> <-]%list_lookup_singleton_Some. ulia.
Qed.
Lemma numbered_app seq cs d seq1 cs' d' seq' :
  in_u64 seq → numbered seq cs d seq1 → numbered seq1 cs' d' seq' →
  numbered seq (cs ++ cs') (d + d') seq'.
Proof.
  intros Hs (Hd & -> & H1) (Hd' & -> & H2). pose proof (zlen_nonneg cs). pose proof (zlen_nonneg cs').
  split_and!; [lia|rewrite zlen_app; ulia|].
  intros i c [Hi|[Hi Hc]]%lookup_app_Some.
  - apply H1 in Hi. ulia.
  - apply H2 in Hc. unfold zlen in *. ulia.
Qed.
Lemma numbered_u64 seq cs d seq' : in_u64 seq → numbered seq cs d seq' → in_u64 seq'.
Proof. intros Hs (Hd & -> & _). pose proof (zlen_nonneg cs). ulia. Qed.

Lemma chunks_spec size bytes :
  (0 < size)%nat →
  concat (chunks size bytes) = bytes ∧
  Forall (λ c, c ≠ [] ∧ (length c ≤ size)%nat) (chunks size bytes).
Proof.
  intros Hsize. unfold chunks.
  enough (∀ fuel bytes, (length bytes ≤ fuel)%nat → concat (chunks_loop fuel size bytes) = bytes ∧
    Forall (λ c, c ≠ [] ∧ (length c ≤ size)%nat) (chunks_loop fuel size bytes)) as Hall by by apply Hall.
  clear bytes. intros fuel. induction fuel as [|fuel IH]; intros bytes Hl.
  { destruct bytes; [done|simpl in Hl; lia]. }
  destruct bytes as [|b bytes]; [done|]. cbn [chunks_loop concat].
  destruct (IH (drop size (b :: bytes))) as [Hc Hf].
  { rewrite length_drop. simpl in *. lia. }
  split; [by rewrite Hc, take_drop|]. constructor; [|done].
  split; [by destruct size; [lia|]|]. rewrite length_take. lia.
Qed.

Section complete.
Context (request_id : Uuid) (ts : bool) (size : nat).
Context (transmit : list LogMessage → LogMessage → iresult unit).
Context (names : list string).
Context (size_pos : (0 < size)%nat).

(** The chunks the forwarder makes. *)
Record shaped (c : LogChunk) : Prop := {
  sh_request : lc_request_id c = request_id;
  sh_name : lc_name c ∈ names;
  sh_seq : in_u64 (lc_seq c);
  sh_bytes : (length (lc_bytes c) ≤ size)%nat;
  sh_timestamp t : lc_timestamp_unix_ms c = Some t → ts = true ∧ in_u64 t;
}.
Context (transmits : ∀ sent c, shaped c → transmit sent (ChunkMsg c) = Ok ()).

(** [m] sends chunks that carry [out name] for each service, leaving out [dropped] numbers. *)
Definition delivers (m : forwarding unit) (out : string → list byte) (dropped : Z) : Prop :=
  ∀ s, in_u64 (fw_seq s) → (∀ name, fw_last_name s = Some name → name ∈ names) →
  ∃ s' cs, m s = (s', Ok ()) ∧ fw_sent s' = fw_sent s ++ (ChunkMsg <$> cs) ∧
    (∀ name, fw_last_name s' = Some name → name ∈ names) ∧
    Forall (λ c, lc_is_last c = false ∧ lc_bytes c ≠ [] ∧ (length (lc_bytes c) ≤ size)%nat) cs ∧
    (∀ name, payload name cs = out name) ∧ numbered (fw_seq s) cs dropped (fw_seq s').

Lemma delivers_ret : delivers (mret ()) (λ _, []) 0.
Proof.
  intros s Hs Hn. exists s, []. rewrite app_nil_r. split_and!; try done. by apply numbered_nil.
Qed.

Lemma delivers_bind m k out out' d d' :
  delivers m out d → delivers k out' d' →
  delivers (_ ← m; k) (λ name, out name ++ out' name) (d + d').
Proof.
  intros Hm Hk s Hs Hn. destruct (Hm s Hs Hn) as (s1 & cs & E & Hsent & Hn1 & Hf & Hp & Hnum).
  destruct (Hk s1) as (s2 & cs' & E' & Hsent' & Hn2 & Hf' & Hp' & Hnum'); [by eapply numbered_u64|done|].
  exists s2, (cs ++ cs'). split_and!.
  - unfold mbind, forwarding_bind. by rewrite E.
  - by rewrite Hsent', Hsent, fmap_app, app_assoc.
  - done.
  - by apply Forall_app.
  - intros name. by rewrite payload_app, Hp, Hp'.
  - by eapply numbered_app.
Qed.

Lemma delivers_ext m out out' d d' :
  delivers m out d → (∀ name, out name = out' name) → d = d' → delivers m out' d'.
Proof. intros Hm Ho -> s Hs Hn. destruct (Hm s Hs Hn) as (s' & cs & H). setoid_rewrite Ho in H. eauto. Qed.

Lemma delivers_for_all {A} (f : A → forwarding unit) (out : A → string → list byte) (d : A → Z) l :
  (∀ x, x ∈ l → delivers (f x) (out x) (d x)) →
  delivers (for_all f l) (λ name, concat ((λ x, out x name) <$> l)) (foldr (λ x n, d x + n) 0 l).
Proof.
  induction l as [|x l IH]; intros Hf; [exact delivers_ret|]. simpl.
  apply (delivers_bind _ _ (out x) (λ name, concat ((λ x, out x name) <$> l))).
  - apply Hf. left.
  - apply IH. intros y Hy. apply Hf. by right.
Qed.

Lemma delivers_chunk name kind bytes t :
  name ∈ names → bytes ≠ [] → (length bytes ≤ size)%nat → (∀ u, t = Some u → in_u64 u) →
  delivers (send_single_log_chunk request_id ts transmit name kind bytes false t)
    (λ n, if decide (name = n) then bytes else []) 0.
Proof.
  intros Hname Hne Hlen Ht s Hs Hn.
  set (c := {| lc_request_id := request_id; lc_seq := fw_seq s; lc_name := name;
    lc_stream_kind := kind; lc_bytes := bytes; lc_is_last := false;
    lc_timestamp_unix_ms := if ts then t else None |}).
  assert (shaped c) as Hc.
  { split; try done. simpl. intros u. destruct ts; [|done]. intros E. split; [done|by apply Ht]. }
  eexists _, [c]. split; [|split_and!].
  - unfold send_single_log_chunk, mbind, forwarding_bind, get_seq. simpl. unfold emit. fold c.
    rewrite (transmits _ c Hc). reflexivity.
  - done.
  - done.
  - by repeat constructor.
  - intros n. unfold payload. rewrite filter_cons. simpl. by case_decide; simpl; rewrite ?app_nil_r.
  - by apply numbered_one.
Qed.

Lemma delivers_data name kind bytes t :
  name ∈ names → (∀ u, t = Some u → in_u64 u) →
  delivers (send_log_data_chunks request_id ts size transmit name kind bytes t)
    (λ n, if decide (name = n) then bytes else []) 0.
Proof.
  intros Hname Ht. unfold send_log_data_chunks. case_bool_decide as Hb.
  { subst. eapply delivers_ext; [apply delivers_ret| |done]. intros n. by case_decide. }
  rewrite bool_decide_false by lia.
  destruct (chunks_spec size bytes size_pos) as [Hconcat Hall].
  assert (delivers (set_last_name name) (λ _, []) 0) as Hlast.
  { intros s Hs Hn. eexists _, []. split; [done|]. rewrite app_nil_r. split_and!; try done.
    - by intros ? [= <-].
    - by apply numbered_nil. }
  eapply delivers_ext.
  - eapply delivers_bind; [|exact Hlast].
    apply (delivers_for_all _ (λ chunk n, if decide (name = n) then chunk else []) (λ _, 0)).
    intros chunk Hin. rewrite Forall_forall in Hall. destruct (Hall _ Hin). by apply delivers_chunk.
  - intros n. simpl. rewrite app_nil_r. destruct (decide (name = n)).
    + rewrite <-Hconcat at 2. f_equal. apply list_fmap_id.
    + clear. by induction (chunks size bytes).
  - generalize (chunks size bytes). intros l. induction l; simpl in *; lia.
Qed.

Definition event_ok (e : ServiceLogEvent) : Prop := in_u64 (ev_timestamp_unix_ms e).
Definition sub_ok (sub : ServiceLogSubscription) : Prop :=
  sub_service_name sub ∈ names ∧
  match sub_snapshot sub with SnapBytes _ => True | SnapEvents es => Forall event_ok es end.
Definition message_ok (m : FollowForwardMsg) : Prop :=
  match m with
  | FollowEvent name e => name ∈ names ∧ event_ok e
  | FollowLagged name dropped => name ∈ names ∧ 0 ≤ dropped
  end.

Lemma delivers_snapshot sub :
  sub_ok sub →
  delivers (send_snapshot request_id ts size transmit sub)
    (λ n, if decide (sub_service_name sub = n) then snapshot_bytes (sub_snapshot sub) else []) 0.
Proof.
  destruct sub as [name snapshot follow]. unfold send_snapshot, sub_ok. simpl. intros [Hn Hs].
  destruct snapshot as [bytes|events]; [by apply delivers_data|].
  destruct ts eqn:Hts; [|rewrite <-Hts; by apply delivers_data].
  eapply delivers_ext.
  - apply (delivers_for_all _ (λ e n, if decide (name = n) then ev_bytes e else []) (λ _, 0)).
    intros e He. rewrite <-Hts. apply delivers_data; [done|]. intros u [= <-].
    rewrite Forall_forall in Hs. by apply Hs.
  - intros n. simpl. destruct (decide (name = n)); [done|]. clear. by induction events.
  - clear. by induction events; simpl in *; lia.
Qed.

Lemma delivers_message m :
  message_ok m →
  delivers (forward_message request_id ts size transmit m) (λ n, message_bytes n m) (message_dropped m).
Proof.
  destruct m as [name e|name dropped]; simpl; intros [Hn He].
  - apply delivers_data; [done|]. by intros u [= <-].
  - intros s Hs Hl. eexists _, []. split; [reflexivity|]. simpl. rewrite app_nil_r.
    split; [done|]. split; [by intros ? [= <-]|]. do 2 (split; [done|]). by apply numbered_lag.
Qed.

Lemma concat_filtered {A} (P : A → Prop) `{∀ x, Decision (P x)} (f : A → list byte) (l : list A) :
  concat ((λ x, if decide (P x) then f x else []) <$> l) = concat (f <$> filter P l).
Proof.
  induction l as [|x l IH]; [done|]. rewrite filter_cons. csimpl. rewrite IH.
  by destruct (decide (P x)).
Qed.

(** All the chunks of a run. *)
Lemma delivers_stream subscriptions messages :
  Forall sub_ok subscriptions → Forall message_ok messages →
  let followed := existsb sub_follow subscriptions in
  delivers (stream_logs request_id ts size transmit subscriptions messages)
    (λ n, stored_bytes n subscriptions ++ if followed then followed_bytes n messages else [])
    (if followed then dropped_events messages else 0).
Proof.
  intros Hsubs Hmsgs followed. unfold stream_logs. fold followed.
  rewrite Forall_forall in Hsubs. rewrite Forall_forall in Hmsgs.
  eapply (delivers_ext _ _ _ (0 + (if followed then dropped_events messages else 0))).
  - apply (delivers_bind _ _ (λ n, stored_bytes n subscriptions)
      (λ n, if followed then followed_bytes n messages else [])).
    + eapply delivers_ext; [apply (delivers_for_all _ (λ sub n,
        if decide (sub_service_name sub = n) then snapshot_bytes (sub_snapshot sub) else []) (λ _, 0))| |].
      * intros sub Hin. by apply delivers_snapshot, Hsubs.
      * intros n. apply (concat_filtered (λ sub, sub_service_name sub = n)).
      * clear. by induction subscriptions; simpl in *; lia.
    + destruct followed; [|apply delivers_ret].
      apply (delivers_for_all _ (λ m n, message_bytes n m) message_dropped). intros m Hm. by apply delivers_message, Hmsgs.
  - done.
  - by destruct followed.
Qed.

(** The last chunk and the end. *)
Lemma finish_sends fallback s :
  (∀ sent e, ln_error e = None → transmit sent (EndMsg e) = Ok ()) →
  fallback ∈ names → in_u64 (fw_seq s) → (∀ name, fw_last_name s = Some name → name ∈ names) →
  ∃ last, finish request_id ts transmit fallback (Ok ()) s =
    ({| fw_seq := fw_seq s +ˢ 1; fw_last_name := fw_last_name s;
        fw_sent := fw_sent s ++ [ChunkMsg last; EndMsg {| ln_request_id := request_id;
          ln_seq := fw_seq s +ˢ 1; ln_error := None |}] |}, Ok ()) ∧
    lc_is_last last = true ∧ lc_bytes last = [] ∧ lc_seq last = fw_seq s ∧ shaped last.
Proof.
  intros Hend Hf Hs Hn.
  set (last := {| lc_request_id := request_id; lc_seq := fw_seq s;
    lc_name := default fallback (fw_last_name s); lc_stream_kind := Composite; lc_bytes := [];
    lc_is_last := true; lc_timestamp_unix_ms := if ts then None else None |}).
  assert (shaped last) as Hlast.
  { split; simpl; [done| |done|lia|by destruct ts].
    destruct (fw_last_name s) as [name|]; [by apply Hn|done]. }
  exists last. split; [|done].
  unfold finish, send_single_log_chunk, mbind, forwarding_bind, get_seq. simpl. unfold emit at 1.
  fold last. rewrite (transmits _ last Hlast). simpl. unfold send_logs_end, emit. simpl.
  by rewrite Hend, <-app_assoc.
Qed.

(** The datagram variant ends the same way. *)
Lemma finish_datagrams fallback s s' :
  finish request_id ts transmit fallback (Ok ()) s = (s', Ok ()) →
  (let '(s, _) := send_single_log_chunk request_id ts transmit
     (default fallback (fw_last_name s)) Composite [] true None s in
   (send_logs_end request_id transmit (fw_seq s) None s).1) = s'.
Proof.
  unfold finish, mbind, forwarding_bind, get_seq.
  destruct (send_single_log_chunk _ _ _ _ _ _ _ _ s) as [s1 [[]|e]]; simpl; [|done].
  by intros ->.
Qed.
End complete.

(** The whole run over a working connection, as one statement about the messages sent. *)
Definition complete_log (size : nat) (subscriptions : list ServiceLogSubscription)
    (messages : list FollowForwardMsg) (sent : list LogMessage) : Prop :=
  let followed := existsb sub_follow subscriptions in
  let dropped := if followed then dropped_events messages else 0 in
  ∃ cs last e,
    sent = (ChunkMsg <$> cs) ++ [ChunkMsg last; EndMsg e] ∧
    (∀ name, payload name cs =
       stored_bytes name subscriptions ++ if followed then followed_bytes name messages else []) ∧
    Forall (λ c, lc_is_last c = false ∧ lc_bytes c ≠ [] ∧ (length (lc_bytes c) ≤ size)%nat) cs ∧
    lc_is_last last = true ∧ lc_bytes last = [] ∧ ln_error e = None ∧
    numbered 0 (cs ++ [last]) dropped (ln_seq e).

Section theorems.
Context (request_id : Uuid) (with_timestamp : bool).
Implicit Types (subscriptions : list ServiceLogSubscription) (messages : list FollowForwardMsg).

Lemma stream_complete size transmit subscriptions messages sub rest names :
  (0 < size)%nat →
  (∀ sent c, shaped request_id with_timestamp size names c → transmit sent (ChunkMsg c) = Ok ()) →
  (∀ sent e, ln_error e = None → transmit sent (EndMsg e) = Ok ()) →
  subscriptions = sub :: rest →
  Forall (sub_ok names) subscriptions → Forall (message_ok names) messages →
  ∃ s s', stream_logs request_id with_timestamp size transmit subscriptions messages new_forwarder =
      (s, Ok ()) ∧
    finish request_id with_timestamp transmit (sub_service_name sub) (Ok ()) s = (s', Ok ()) ∧
    complete_log size subscriptions messages (fw_sent s').
Proof.
  intros Hsize Hc He -> Hsubs Hmsgs.
  destruct (delivers_stream request_id with_timestamp size transmit names Hsize Hc (sub :: rest) messages
    Hsubs Hmsgs new_forwarder) as (s & cs & E & Hsent & Hn & Hf & Hp & Hnum); [by vm_compute|done|].
  assert (in_u64 (fw_seq s)) as Hseq by (eapply numbered_u64; [|exact Hnum]; by vm_compute).
  destruct (finish_sends request_id with_timestamp size transmit names Hsize Hc (sub_service_name sub) s)
    as (last & Efin & Hl & Hb & Hls & _); [done| |done|done|].
  { apply Forall_cons in Hsubs as [[Hin _] _]. done. }
  exists s. eexists. split; [exact E|]. split; [exact Efin|]. simpl in Hsent |- *. rewrite Hsent.
  exists cs, last. eexists. split; [done|]. do 5 (split; [done|]).
  assert (in_u64 0) as H0 by by vm_compute.
  pose proof (numbered_app 0 cs _ (fw_seq s) [last] 0 _ H0 Hnum (numbered_one _ last Hseq Hls)) as Hall.
  by rewrite Z.add_0_r in Hall.
Qed.

(** C36 (functional). Over a connection that takes every message, a log request is answered
    with complete logs.  For each service the data of its chunks, in the order they are sent,
    is exactly the stored log of its subscriptions followed by the new events, whatever the
    order in which the events of several services arrive; no chunk is empty or longer than
    16 KiB.  Chunks are numbered from zero without gaps, except that each event the
    subscription lost leaves out one number; one chunk marked as the last and the end message,
    with the next number, close the log. *)
Theorem log_stream_complete transmit subscriptions messages :
  (∀ sent message, transmit sent message = Ok ()) → subscriptions ≠ [] →
  Forall (sub_ok (sub_service_name <$> subscriptions)) subscriptions →
  Forall (message_ok (sub_service_name <$> subscriptions)) messages →
  ∃ s, run_stream_logs_forwarder request_id transmit subscriptions with_timestamp messages = (s, Ok ()) ∧
    complete_log LOG_STREAM_CHUNK_BYTES subscriptions messages (fw_sent s).
Proof.
  intros Ht Hne Hsubs Hmsgs. destruct subscriptions as [|sub rest]; [done|].
  destruct (stream_complete LOG_STREAM_CHUNK_BYTES transmit (sub :: rest) messages sub rest _
    ltac:(unfold LOG_STREAM_CHUNK_BYTES; lia) (λ sent c _, Ht _ _) (λ sent e _, Ht _ _) eq_refl Hsubs Hmsgs)
    as (s & s' & E & Efin & Hlog).
  exists s'. split; [|done]. unfold run_stream_logs_forwarder. by rewrite E.
Qed.
End theorems.

(** ** Datagrams fit *)

(** The head of a CBOR item with argument [n] (RFC 8949, section 3). *)
Definition cbor_head (n : Z) : Z :=
  if n <? 24 then 1 else if n <? 2 ^ 8 then 2 else if n <? 2 ^ 16 then 3 else if n <? 2 ^ 32 then 5
  else 9.
Definition cbor_string (len : Z) : Z := cbor_head len + len.
Definition kind_len (kind : LogStreamKind) : Z :=
  match kind with Protocol.Stdout | Protocol.Stderr => 6 | Composite => 9 end.

(** The size of an encoded chunk: the variable fields, and the rest, which depends on the
    request and on whether the timestamp is present. *)
Class LogCborLaws `{LogCbor} : Prop := {
  chunk_cbor : ∃ base : Uuid → bool → Z,
    (∀ id, base id false ≤ base id true) ∧
    ∀ c, in_u64 (lc_seq c) → (∀ t, lc_timestamp_unix_ms c = Some t → in_u64 t) →
    ∃ bs, log_to_cbor (ChunkMsg c) = Ok bs ∧
      zlen bs = base (lc_request_id c) (bool_decide (is_Some (lc_timestamp_unix_ms c))) +
        cbor_head (lc_seq c) + cbor_string (zlen (bytes_of (lc_name c))) +
        cbor_string (kind_len (lc_stream_kind c)) + cbor_string (zlen (lc_bytes c)) +
        from_option cbor_head 0 (lc_timestamp_unix_ms c);
}.

Lemma cbor_head_mono n m : n ≤ m → cbor_head n ≤ cbor_head m.
Proof. intros H. unfold cbor_head. repeat case_match; lia. Qed.
Lemma cbor_head_max n : 1 ≤ cbor_head n ≤ 9.
Proof. unfold cbor_head. repeat case_match; lia. Qed.

Lemma longest_name_spec names name :
  name ∈ names → zlen (bytes_of name) ≤ zlen (bytes_of (longest_name names)).
Proof.
  unfold longest_name.
  set (step := λ (best : option string) (name : string), match best with
    | None => Some name
    | Some b => if zlen (bytes_of b) <=? zlen (bytes_of name) then Some name else Some b end).
  enough (∀ l best, (∀ b, best = Some b → zlen (bytes_of b) ≤ zlen (bytes_of (default "logs" (foldl step best l)))) ∧
    ∀ name, name ∈ l → zlen (bytes_of name) ≤ zlen (bytes_of (default "logs" (foldl step best l)))) as Hall.
  { apply Hall. }
  induction l as [|x l IH]; intros best; simpl.
  { split; [by intros b ->|]. by intros ? ?%elem_of_nil. }
  destruct (IH (step best x)) as [Hbest Hl]. split.
  - intros b ->. simpl in Hbest |- *. destruct (Z.leb_spec (zlen (bytes_of b)) (zlen (bytes_of x))).
    + specialize (Hbest x eq_refl). lia.
    + by apply Hbest.
  - intros n [->|Hin]%elem_of_cons; [|by apply Hl].
    destruct best as [b|]; simpl in Hbest |- *; [|by apply Hbest].
    destruct (Z.leb_spec (zlen (bytes_of b)) (zlen (bytes_of x))); [by apply Hbest|].
    specialize (Hbest b eq_refl). lia.
Qed.

Section datagram_theorems.
Context `{LogCborLaws} (request_id : Uuid) (with_timestamp : bool).

Lemma chunk_fits max names n c :
  in_u64 max → fixed_log_chunk_size request_id max names with_timestamp = Ok n →
  shaped request_id with_timestamp (Z.to_nat n) names c →
  ∃ bs, log_to_cbor (ChunkMsg c) = Ok bs ∧ zlen bs ≤ max.
Proof.
  intros Hmax Hn [Hid Hname Hseq Hbytes Hts]. destruct chunk_cbor as (base & Hbase & Hsize).
  destruct (Hsize c Hseq) as (bs & Hbs & Hlen); [intros t Ht; by eapply Hts|].
  rewrite Hid in Hlen. clear Hid. exists bs. split; [done|]. unfold fixed_log_chunk_size in Hn.
  match type of Hn with context [log_to_cbor (ChunkMsg ?p)] =>
    destruct (Hsize p) as (pbs & Hp & Hplen); [by vm_compute| |rewrite Hp in Hn] end.
  { simpl. destruct with_timestamp; [|done]. intros t [= <-]. by vm_compute. }
  simpl in Hn. inv_ok. rewrite negb_true_iff, Z.eqb_neq in *. simpl in Hplen.
  pose proof (longest_name_spec names _ Hname) as Hlong. pose proof (cbor_head_mono _ _ Hlong).
  assert (cbor_head (zlen (lc_bytes c)) ≤ 3) as Hhead.
  { change 3 with (cbor_head 1024). apply cbor_head_mono. unfold zlen, LOG_DATAGRAM_TARGET_BYTES in *. ulia. }
  pose proof (cbor_head_max (lc_seq c)). change (cbor_head u64_max) with 9 in Hplen.
  assert (cbor_string (kind_len (lc_stream_kind c)) ≤ 10) as Hkind by (by destruct (lc_stream_kind c)).
  change (cbor_string 9) with 10 in Hplen. change (cbor_string (zlen [])) with 1 in Hplen.
  assert (base request_id (bool_decide (is_Some (lc_timestamp_unix_ms c))) +
      from_option cbor_head 0 (lc_timestamp_unix_ms c) ≤
    base request_id (bool_decide (is_Some (if with_timestamp then Some u64_max else None))) +
      from_option cbor_head 0 (if with_timestamp then Some u64_max else None)) as Hstamp.
  { destruct (lc_timestamp_unix_ms c) as [t|] eqn:Et.
    - destruct (Hts t eq_refl) as [-> _]. simpl. pose proof (cbor_head_max t).
      change (cbor_head u64_max) with 9. lia.
    - specialize (Hbase request_id). destruct with_timestamp; simpl; [|lia].
      change (cbor_head u64_max) with 9. lia. }
  unfold cbor_string in *. unfold LOG_DATAGRAM_TARGET_BYTES in *.
  assert (zlen (lc_bytes c) = Z.of_nat (length (lc_bytes c))) by done. ulia.
Qed.

Lemma chunk_size_bounds max names n :
  fixed_log_chunk_size request_id max names with_timestamp = Ok n → 0 < n ≤ LOG_DATAGRAM_TARGET_BYTES.
Proof.
  unfold fixed_log_chunk_size. intros Hn. inv_ok. rewrite negb_true_iff, Z.eqb_neq in *.
  unfold LOG_DATAGRAM_TARGET_BYTES in *. ulia.
Qed.

(** C37 (bounds). Logs sent as datagrams are complete and every datagram fits.  The chunk size
    computed from the largest datagram, with the longest service name, the largest number and
    timestamp and two bytes to spare, is enough for every chunk the forwarder makes, so no
    chunk is ever refused as too large; over a session that sends them the client gets the
    complete logs, with at most 1024 bytes of data in a datagram. *)
Theorem log_datagrams_fit attempt max subscriptions messages n :
  in_u64 max → subscriptions ≠ [] →
  fixed_log_chunk_size request_id max (sub_service_name <$> subscriptions) with_timestamp = Ok n →
  (∀ sent bytes, attempt sent bytes 0%nat = Ok ()) →
  (∀ e, ln_error e = None → ∃ bytes, log_to_cbor (EndMsg e) = Ok bytes ∧ zlen bytes ≤ max) →
  Forall (sub_ok (sub_service_name <$> subscriptions)) subscriptions →
  Forall (message_ok (sub_service_name <$> subscriptions)) messages →
  0 < n ≤ LOG_DATAGRAM_TARGET_BYTES ∧
  (∀ c, shaped request_id with_timestamp (Z.to_nat n) (sub_service_name <$> subscriptions) c →
     ∃ bytes, log_to_cbor (ChunkMsg c) = Ok bytes ∧ zlen bytes ≤ max) ∧
  complete_log (Z.to_nat n) subscriptions messages
    (fw_sent (run_logs_forwarder request_id attempt (Some max) subscriptions with_timestamp messages)).
Proof.
  intros Hmax Hne Hn Hsend Hend Hsubs Hmsgs. pose proof (chunk_size_bounds _ _ _ Hn) as Hbounds.
  split; [done|]. split; [intros c; by apply chunk_fits|].
  assert (∀ sent m bytes, log_to_cbor m = Ok bytes → zlen bytes ≤ max →
    send_datagram_envelope attempt max sent m = Ok ()) as Hok.
  { intros sent m bytes Hb Hl. unfold send_datagram_envelope. rewrite Hb. simpl.
    rewrite (proj2 (Z.leb_le _ _)) by done. simpl. unfold send_datagram_with_retry. by rewrite Hsend. }
  destruct subscriptions as [|sub rest]; [done|].
  destruct (stream_complete request_id with_timestamp (Z.to_nat n) (send_datagram_envelope attempt max)
    (sub :: rest) messages sub rest (sub_service_name <$> sub :: rest)) as (s & s' & E & Efin & Hlog);
    [lia| | |done|done|done|].
  - intros sent c Hc. destruct (chunk_fits max _ n c Hmax Hn Hc) as (bytes & Hb & Hl). by eapply Hok.
  - intros sent e He. destruct (Hend e He) as (bytes & Hb & Hl). by eapply Hok.
  - unfold run_logs_forwarder. rewrite Hn, E. by rewrite (finish_datagrams _ _ _ _ _ _ Efin).
Qed.

End datagram_theorems.

(** ** Two services, one followed *)

Module ForwardDemo.

Definition event (text : string) : ServiceLogEvent :=
  {| ev_stream := LogBuffer.Stdout; ev_bytes := bytes_of text; ev_timestamp_unix_ms := 1 |}.
Definition subscriptions : list ServiceLogSubscription :=
  [{| sub_service_name := "web"; sub_snapshot := SnapBytes (bytes_of "old"); sub_receiver := Some 1%N |};
   {| sub_service_name := "db"; sub_snapshot := SnapEvents [event "a"; event "b"];
      sub_receiver := None |}].
Definition messages : list FollowForwardMsg :=
  [FollowEvent "web" (event "new"); FollowLagged "web" 2; FollowEvent "web" (event "newer")].

(** An encoder that writes as many bytes as the standard prescribes. *)
Definition chunk_len (c : LogChunk) : Z :=
  60 + (if decide (is_Some (lc_timestamp_unix_ms c)) then 18 else 0) +
  cbor_head (lc_seq c) + cbor_string (zlen (bytes_of (lc_name c))) +
  cbor_string (kind_len (lc_stream_kind c)) + cbor_string (zlen (lc_bytes c)) +
  from_option cbor_head 0 (lc_timestamp_unix_ms c).
#[local] Instance cbor : LogCbor :=
  {| log_to_cbor m := Ok (replicate (Z.to_nat (match m with ChunkMsg c => chunk_len c | EndMsg _ => 60 end))
                            "0"%char) |}.
#[local] Instance cbor_laws : LogCborLaws.
Proof.
  split. exists (λ (_ : Uuid) (b : bool), 60 + (if b then 18 else 0)). split; [done|]. intros c Hseq Hts.
  eexists. split; [done|]. unfold zlen at 1. rewrite length_replicate, Z2Nat.id.
  - unfold chunk_len. by destruct (lc_timestamp_unix_ms c).
  - unfold chunk_len, cbor_string. pose proof (cbor_head_max (lc_seq c)).
    pose proof (cbor_head_max (zlen (bytes_of (lc_name c)))).
    pose proof (cbor_head_max (kind_len (lc_stream_kind c))).
    pose proof (cbor_head_max (zlen (lc_bytes c))). pose proof (zlen_nonneg (lc_bytes c)).
    pose proof (zlen_nonneg (bytes_of (lc_name c))).
    assert (0 ≤ kind_len (lc_stream_kind c)) by (by destruct (lc_stream_kind c)).
    assert (0 ≤ from_option cbor_head 0 (lc_timestamp_unix_ms c)).
    { destruct (lc_timestamp_unix_ms c) as [t|]; simpl; [|lia]. pose proof (cbor_head_max t). lia. }
    case_decide; lia.
Qed.

Lemma inputs_ok :
  Forall (sub_ok (sub_service_name <$> subscriptions)) subscriptions ∧
  Forall (message_ok (sub_service_name <$> subscriptions)) messages.
Proof.
  assert (event_ok (event "a")) as He by by vm_compute.
  assert ("web" ∈ ["web"; "db"] ∧ "db" ∈ ["web"; "db"]) as [Hw Hd] by (split; [left|right; left]).
  split.
  - constructor; [split; [exact Hw|exact I]|]. constructor; [|constructor].
    split; [exact Hd|]. constructor; [exact He|]. constructor; [exact He|constructor].
  - constructor; [split; [exact Hw|exact He]|]. constructor; [split; [exact Hw|lia]|].
    constructor; [split; [exact Hw|exact He]|constructor].
Qed.

Lemma log_stream_complete_witness :
  ∃ s, run_stream_logs_forwarder 7%N (λ _ _, Ok ()) subscriptions true messages = (s, Ok ()) ∧
    complete_log LOG_STREAM_CHUNK_BYTES subscriptions messages (fw_sent s).
Proof.
  apply (log_stream_complete 7%N true (λ _ _, Ok ()) subscriptions messages); [done|done|..];
    apply inputs_ok.
Defined.

Lemma log_datagrams_fit_witness :
  fixed_log_chunk_size 7%N 1200 (sub_service_name <$> subscriptions) true = Ok 1024 ∧
  complete_log 1024 subscriptions messages
    (fw_sent (run_logs_forwarder 7%N (λ _ _ _, Ok ()) (Some 1200) subscriptions true messages)).
Proof.
  assert (fixed_log_chunk_size 7%N 1200 (sub_service_name <$> subscriptions) true = Ok 1024) as Hn
    by (vm_compute; reflexivity).
  split; [exact Hn|].
  refine (proj2 (proj2 (log_datagrams_fit 7%N true (λ _ _ _, Ok ()) 1200 subscriptions messages 1024
    _ _ Hn _ _ (proj1 inputs_ok) (proj2 inputs_ok)))).
  - by vm_compute.
  - done.
  - done.
  - intros e _. eexists. split; [reflexivity|]. by vm_compute.
Defined.

End ForwardDemo.
