(* ===== verification/Runtime.v ===== *)
(** * The component runtime

    [imagod-runtime-wasmtime/src/runtime_entry.rs]: what a component may reach from its store,
    how it is linked, and how its functions are called; the functions the linker defines for
    its imports ([plugin_resolver.rs]); [wasi:http] requests ([lib.rs]).

    The engine is [Plugins.Engine]; what a function of a component answers is a parameter
    ([EngineCalls]), and so are the directories of the host and the backends of [wasi:nn] the
    program was built with.  A program returns [None] where [instantiate_plugin_dependencies]
    would, which it does not.

    Shown: a component is linked under the capabilities and the bindings of its manifest, with
    the mounts and the socket of its manifest; a call through a binding applies the function of
    the other component to exactly the values the caller passed, and answers with exactly the
    value it returned, unless the function is one of bytes, which gets the encoded values. *)

From S2P Require Import Prelude Protocol Text LogBuffer IpAddr Frames Ipc Supervisor ManagerControl Component Bridge PluginOrder Plugins LocalIpc Runner.

Open Scope Z_scope.

(** ** The store *)

Record SocketAddr := { sa_ip : IpAddr; sa_port : Z; sa_flowinfo : Z; sa_scope_id : Z }.
#[export] Instance SocketAddr_eq_dec : EqDecision SocketAddr.
Proof. solve_decision. Defined.
(** [SocketAddr::new]. *)
Definition new_socket_addr (ip : IpAddr) (port : Z) : SocketAddr :=
  {| sa_ip := ip; sa_port := port; sa_flowinfo := 0; sa_scope_id := 0 |}.

Inductive SocketAddrUse := TcpBind | TcpConnect | UdpBind | UdpConnect | UdpOutgoingDatagram.

Definition socket_addr_allowed (address : SocketAddr) (use_kind : SocketAddrUse)
    (listen_socket : SocketAddr) (direction : RunnerSocketDirection) : bool :=
  match use_kind with
  | TcpBind | UdpBind => allows_inbound direction && bool_decide (address = listen_socket)
  | TcpConnect | UdpConnect | UdpOutgoingDatagram => allows_outbound direction
  end.

(** What the builder of the context was told; a check that was not set is the builder's own. *)
Record WasiCtx := {
  wc_args : list string;
  wc_envs : list (string * string);
  (* host path, guest path, writable *)
  wc_preopens : list (string * string * bool);
  wc_allow_udp : option bool;
  wc_allow_tcp : option bool;
  wc_socket_check : option (SocketAddr → SocketAddrUse → bool);
}.
Definition new_wasi_ctx (args : list string) (envs : gmap string string) : WasiCtx :=
  {| wc_args := args; wc_envs := btree_iter envs; wc_preopens := []; wc_allow_udp := None;
     wc_allow_tcp := None; wc_socket_check := None |}.

Definition configure_socket_policy (socket : RunnerSocketConfig) (ctx : WasiCtx) : iresult WasiCtx :=
  listen_ip ← ok_or (parse_ip (sock_listen_addr socket))
    (map_runtime_error ("invalid socket listen_addr '" +:+ sock_listen_addr socket +:+
       "': invalid IP address syntax"));
  let listen_socket := new_socket_addr listen_ip (sock_listen_port socket) in
  Ok {| wc_args := wc_args ctx; wc_envs := wc_envs ctx; wc_preopens := wc_preopens ctx;
        wc_allow_udp := Some (allows_udp (sock_protocol socket));
        wc_allow_tcp := Some (allows_tcp (sock_protocol socket));
        wc_socket_check := Some (λ address use_kind,
          socket_addr_allowed address use_kind listen_socket (sock_direction socket)) |}.

Section mounts.
(** The error of opening a directory of the host, if there is one. *)
Context (open_dir : string → option string).

Fixpoint configure_wasi_mounts (mounts : list RunnerWasiMount) (ctx : WasiCtx) : iresult WasiCtx :=
  match mounts with
  | [] => Ok ctx
  | mount :: mounts =>
    match open_dir (mount_host_path mount) with
    | Some err => Err (map_runtime_error ("failed to preopen mount " +:+ mount_host_path mount +:+
        " -> " +:+ mount_guest_path mount +:+ ": " +:+ err))
    | None => configure_wasi_mounts mounts
        {| wc_args := wc_args ctx; wc_envs := wc_envs ctx;
           wc_preopens := wc_preopens ctx ++
             [(mount_host_path mount, mount_guest_path mount, negb (mount_read_only mount))];
           wc_allow_udp := wc_allow_udp ctx; wc_allow_tcp := wc_allow_tcp ctx;
           wc_socket_check := wc_socket_check ctx |}
    end
  end.

Definition build_store (args : list string) (envs : gmap string string)
    (wasi_mounts : list RunnerWasiMount) (socket : option RunnerSocketConfig) : iresult WasiCtx :=
  ctx ← configure_wasi_mounts wasi_mounts (new_wasi_ctx args envs);
  match socket with
  | Some socket => configure_socket_policy socket ctx
  | None => Ok ctx
  end.
End mounts.

(** ** Requests of [wasi:http] *)

Inductive HttpSend := RequestUriInvalid | RequestDenied | RequestSpawned.

Definition is_http_outbound_allowed (rules : list WasiHttpOutboundRule) (request_host : string)
    (request_port : Z) : bool :=
  existsb (λ rule, matches_authority rule request_host request_port) rules.

(** [WasiHttpHooks::send_request]: the host of the request and the port it names. *)
Definition send_request (rules : list WasiHttpOutboundRule) (authority : option (string * option Z))
    (use_tls : bool) : HttpSend :=
  match authority with
  | None => RequestUriInvalid
  | Some (request_host, port) =>
    let request_port := default (if use_tls then 443 else 80) port in
    if is_http_outbound_allowed rules request_host request_port
    then RequestSpawned else RequestDenied
  end.

(** ** Calls *)

Class EngineCalls (H I F : Type) := {
  call_async : F → list (Val H) → WasmDependencyResourceState H →
    WasmDependencyResourceState H * result string (list (Val H));
  (* a function of type [list<u8> -> list<u8>], and one of type
     [list<u8> -> result<list<u8>, string>] *)
  call_bytes : F → list byte → WasmDependencyResourceState H →
    WasmDependencyResourceState H * result string (list byte);
  call_bytes_result : F → list byte → WasmDependencyResourceState H →
    WasmDependencyResourceState H * result string (result string (list byte));
  (* [wasi:cli/run]: whether it returned success *)
  call_run : I → WasmDependencyResourceState H →
    WasmDependencyResourceState H * result string bool;
}.

Definition calling (H A : Type) : Type :=
  WasmDependencyResourceState H → WasmDependencyResourceState H * result string A.
#[local] Instance calling_ret {H} : MRet (calling H) := λ A a s, (s, Ok a).
#[local] Instance calling_bind {H} : MBind (calling H) := λ A B f m s,
  let '(s, r) := m s in
  match r with Ok a => f a s | Err e => (s, Err e) end.

(** [wasmtime::Error::msg(err.to_string())]. *)
Definition raising {H A} (r : result string A) : calling H A := λ s, (s, r).
Definition trapping {H A} (r : iresult A) : calling H A := raising (map_err display_error r).
Definition trapping_bridge {H A} (m : bridge H A) : calling H A := λ s,
  let '(s, r) := m s in (s, map_err display_error r).

Section shims.
Context {R H C I X F : Type} `{EqDecision R} `{!Engine R H C I X F} `{!EngineCalls H I F}.
Context `{!ResourceHandles H}.

(** The function defined by [SelfShim]. *)
Definition call_self_shim (self_instance : option I) (interface_name function_name : string)
    (params : list (Val H)) : calling H (list (Val H)) :=
  instance ← raising (ok_or self_instance ("self provider instance is not ready for '" +:+
               interface_name +:+ "." +:+ function_name +:+ "'"));
  callee ← trapping (resolve_wasm_export_from_instance instance interface_name function_name);
  call_async callee params.

(** The function defined by [DependencyShim]; results without a type stay as they are. *)
Definition call_dependency_shim (callee : F) (import_param_types import_result_types : list (Ty R))
    (resource_bindings : list (DependencyResourceBinding R)) (params : list (Val H))
    : calling H (list (Val H)) :=
  callee_params ← trapping_bridge
    (bridge_zip (λ param_ty param, map_value_to_wasm_dependency resource_bindings param param_ty)
       import_param_types params);
  results ← call_async callee callee_params;
  mapped ← trapping_bridge
    (bridge_zip (λ result_ty result, map_value_from_wasm_dependency resource_bindings result result_ty)
       import_result_types results);
  mret (mapped ++ drop (length import_result_types) results).

(** [rpc_bridge::extract_connection_rep], with the registered extractor. *)
Definition extract_connection_rep (extractor : option (H → result string Z))
    (connection_value : Val H) : iresult Z :=
  match connection_value with
  | VResource resource_any =>
    extractor ← ok_or extractor
      (map_runtime_error "connection resource extractor is not registered");
    map_err (λ message, map_runtime_error ("failed to decode connection handle: " +:+ message))
      (extractor resource_any)
  | _ => Err (map_runtime_error "binding shim first runtime argument must be a connection resource")
  end.

Definition extract_binding_connection_rep (extractor : option (H → result string Z))
    (params : list (Val H)) (param_types : list (Ty R)) : iresult Z :=
  first_type ← ok_or (head param_types)
    (map_runtime_error "binding shim requires connection parameter");
  _ ← ensure (match first_type with TBorrow _ => true | _ => false end)
        (map_runtime_error "binding shim first parameter must be borrow<connection>");
  connection_value ← ok_or (head params)
    (map_runtime_error "binding shim first runtime argument must be a connection resource");
  extract_connection_rep extractor connection_value.

(** The function defined by [BindingShim].  [invoke] is [rpc_bridge::invoke_connection] in the
    context of the runner, [None] while it does not answer. *)
Definition call_binding_shim `{PayloadCbor} (extractor : option (H → result string Z))
    (invoke : Z → string → string → string → list byte → option (result string (list byte)))
    (target_service interface_id function_name : string) (signature : BindingShimSignature R)
    (params : list (Val H)) (results_len : nat) : option (result string (Val H)) :=
  let prepared : result string (Z * list byte) :=
    _ ← ensure (bool_decide (results_len = 1%nat))
          ("binding shim '" +:+ interface_id +:+ "." +:+ function_name +:+
           "' must return exactly one result");
    connection_rep ← map_err display_error
      (extract_binding_connection_rep extractor params (sig_param_types signature));
    args_cbor ← map_err display_error
      (encode_payload_values (tail params) (tail (sig_param_types signature)));
    Ok (connection_rep, args_cbor) in
  match prepared with
  | Err e => Some (Err e)
  | Ok (connection_rep, args_cbor) =>
    invoke_result ← invoke connection_rep target_service interface_id function_name args_cbor;
    Some (match invoke_result with
          | Ok result_cbor =>
            ok_values ← map_err display_error
              (decode_payload_values result_cbor (option_list (ok_type signature)));
            Ok (VResult true (head ok_values))
          | Err message => Ok (VResult false (Some (VString message)))
          end)
  end.

End shims.

(** ** The runtime *)

(** [RuntimeInvokeContext], and the fields [RuntimeRunRequest] shares with it. *)
Record RuntimeInvokeContext `{Json} := {
  rc_app_type : RunnerAppType;
  rc_runner_id : string;
  rc_service_name : string;
  rc_release_hash : string;
  rc_component_path : string;
  rc_args : list string;
  rc_envs : gmap string string;
  rc_wasi_mounts : list RunnerWasiMount;
  rc_wasi_http_outbound : list WasiHttpOutboundRule;
  rc_resources : gmap string JsonValue;
  rc_plugin_dependencies : list PluginDependency;
  rc_capabilities : CapabilityPolicy;
  rc_bindings : list ServiceBinding;
  rc_manager_control_endpoint : string;
  rc_manager_auth_secret : string;
}.

Definition build_runtime_invoke_context `{Json} (b : RunnerBootstrap) : RuntimeInvokeContext :=
  {| rc_app_type := rb_app_type b; rc_runner_id := rb_runner_id b;
     rc_service_name := rb_service_name b; rc_release_hash := rb_release_hash b;
     rc_component_path := rb_component_path b; rc_args := rb_args b; rc_envs := rb_envs b;
     rc_wasi_mounts := rb_wasi_mounts b; rc_wasi_http_outbound := rb_wasi_http_outbound b;
     rc_resources := rb_resources b; rc_plugin_dependencies := rb_plugin_dependencies b;
     rc_capabilities := rb_capabilities b; rc_bindings := rb_bindings b;
     rc_manager_control_endpoint := rb_manager_control_endpoint b;
     rc_manager_auth_secret := rb_manager_auth_secret b |}.

Definition app_type_text (t : RunnerAppType) : string :=
  match t with Cli => "cli" | Rpc => "rpc" | Http => "http" | Socket => "socket" end.

Section runtime.
Context {R H C I X F : Type} `{EqDecision R} `{!Engine R H C I X F} `{!EngineCalls H I F}.
Context `{Json} `{PayloadCbor}.
Context (native_plugins : gmap string (NativePlugin (gmap string JsonValue) (LinkOp R F))).
Context (open_dir : string → option string).
(** The features of [wasi:nn] the program was built with, and the backends of the host. *)
Context (nn_features nn_backends : list string).

(** The component cache, and the store with the linker. *)
Record runtime_state := { rs_cache : gmap string C; rs_link : link_state (R := R) (H := H) (F := F) }.
Definition running (A : Type) : Type := runtime_state → option (runtime_state * result fault A).
#[local] Instance running_ret : MRet running := λ A a s, Some (s, Ok a).
#[local] Instance running_bind : MBind running := λ A B f m s,
  match m s with
  | None => None
  | Some (s, Ok a) => f a s
  | Some (s, Err e) => Some (s, Err e)
  end.
Definition run_pure {A} (r : iresult A) : running A := λ s, Some (s, map_err Failed r).
Definition run_link {A} (m : linking A) : running A := λ s,
  let '(l, r) := m (rs_link s) in Some ({| rs_cache := rs_cache s; rs_link := l |}, r).
(** A call of a component; a trap is an error described by [context]. *)
Definition run_call {A} (context : string) (m : calling H A) : running A := λ s,
  let '(table, r) := m (ls_table (rs_link s)) in
  Some ({| rs_cache := rs_cache s;
           rs_link := {| ls_table := table; ls_linker := ls_linker (rs_link s) |} |},
        map_err (λ e, Failed (map_runtime_error (context +:+ e))) r).

Definition load_component_cached (component_path : string) : running C := λ s,
  match rs_cache s !! component_path with
  | Some component => Some (s, Ok component)
  | None =>
    match from_file component_path with
    | Ok loaded =>
      Some ({| rs_cache := <[component_path := loaded]> (rs_cache s); rs_link := rs_link s |}, Ok loaded)
    | Err e => Some (s, Err (Failed (map_runtime_error
        ("failed to load component " +:+ component_path +:+ ": " +:+ e))))
    end
  end.

Definition validate_component (component_path : string) : running unit :=
  _ ← load_component_cached component_path; mret ().

Definition build_component_linker : running unit :=
  _ ← run_link new_linker;
  _ ← run_link (link_op "failed to add WASI linker: " AddWasi);
  _ ← run_link (link_op "failed to add WASI HTTP linker: " AddWasiHttp);
  match nn_features with
  | [] => mret ()
  | _ => run_link (link_op "failed to add WASI NN linker: " AddWasiNn)
  end.

Definition component_requires_wasi_nn (component : C) : bool :=
  existsb (λ import, starts_with "wasi:nn/" import.1) (component_imports component).

Definition ensure_wasi_nn_component_support (component : C) : iresult unit :=
  if component_requires_wasi_nn component then
    _ ← ensure (negb (bool_decide (nn_features = []))) (map_runtime_error
      "wasi-nn backend is not enabled; rebuild imagod with feature 'wasi-nn-cvitek', 'wasi-nn-openvino', or 'wasi-nn-onnx'");
    ensure (negb (bool_decide (nn_backends = []))) (map_runtime_error
      ("wasi-nn backend is enabled but no backends are available on this target (enabled features: "
       +:+ String.concat ", " nn_features +:+ ")"))
  else Ok ().

(** A new store has no bridged resources. *)
Definition fresh_table : running unit := λ s,
  Some ({| rs_cache := rs_cache s;
           rs_link := {| ls_table := default_resource_state; ls_linker := ls_linker (rs_link s) |} |},
        Ok ()).
Definition new_store (ctx : RuntimeInvokeContext) (socket : option RunnerSocketConfig) : running WasiCtx :=
  wasi ← run_pure (build_store open_dir (rc_args ctx) (rc_envs ctx) (rc_wasi_mounts ctx) socket);
  _ ← fresh_table;
  mret wasi.

(** The plugins have linkers of their own. *)
Definition instantiate_plugins (ctx : RuntimeInvokeContext) : running (gmap string AvailablePlugin) := λ s,
  match instantiate_plugin_dependencies native_plugins (rc_resources ctx)
          (rc_plugin_dependencies ctx) (rs_link s) with
  | None => None
  | Some (l, r) =>
    Some ({| rs_cache := rs_cache s;
             rs_link := {| ls_table := ls_table l; ls_linker := ls_linker (rs_link s) |} |}, r)
  end.

(** The steps the three ways to run a component share. *)
Definition link_component (ctx : RuntimeInvokeContext) (socket : option RunnerSocketConfig)
    : running (C * WasiCtx * gmap string AvailablePlugin) :=
  component ← load_component_cached (rc_component_path ctx);
  _ ← build_component_linker;
  wasi ← new_store ctx socket;
  available_plugins ← instantiate_plugins ctx;
  _ ← run_link (register_plugin_import_shims native_plugins component "app"
        (all_dependency_names (rc_plugin_dependencies ctx)) (rc_capabilities ctx) available_plugins
        false (rc_bindings ctx));
  _ ← run_pure (ensure_wasi_nn_component_support component);
  mret (component, wasi, available_plugins).

Definition instantiate (context : string) (component : C) : running I := λ s,
  let '(table, r) := instantiate_component (ls_table (rs_link s)) (ls_linker (rs_link s)) component in
  Some ({| rs_cache := rs_cache s;
           rs_link := {| ls_table := table; ls_linker := ls_linker (rs_link s) |} |},
        map_err (λ e, Failed (map_runtime_error (context +:+ e))) r).

Definition resolve_component_export_func (instance : I) (interface_name function_name : string)
    : iresult F :=
  interface_index ← ok_or (get_export_index instance None interface_name)
    (map_runtime_error ("rpc export interface '" +:+ interface_name +:+ "' was not found"));
  function_index ← ok_or
    (match get_export_index instance (Some interface_index) function_name with
     | Some index => Some index
     | None => get_export_index instance None function_name
     end)
    (map_runtime_error ("rpc export function '" +:+ interface_name +:+ "." +:+ function_name +:+
      "' was not found"));
  ok_or (get_func instance function_index)
    (map_runtime_error ("rpc export '" +:+ interface_name +:+ "." +:+ function_name +:+
      "' is not a function")).

(** The types [func.typed] accepts for bytes. *)
Inductive FuncShape := TakesBytes | TakesBytesFallibly | TakesValues.
Definition func_shape (ty : ComponentFunc R) : FuncShape :=
  match fn_params ty, fn_results ty with
  | [TList TU8], [TList TU8] => TakesBytes
  | [TList TU8], [TResult (Some (TList TU8)) (Some TString)] => TakesBytesFallibly
  | _, _ => TakesValues
  end.

(** The call of an exported function with an encoded payload. *)
Definition invoke_func (interface_id function : string) (func : F) (payload_cbor : list byte)
    : running (list byte) :=
  let ty := func_ty func in
  match func_shape ty with
  | TakesBytes => run_call "rpc invoke trap: " (call_bytes func payload_cbor)
  | TakesBytesFallibly =>
    result_value ← run_call "rpc invoke trap: " (call_bytes_result func payload_cbor);
    run_pure (map_err (λ message, map_runtime_error ("rpc invoke returned error: " +:+ message))
                result_value)
  | TakesValues =>
    params ← run_pure (map_err (λ err, map_runtime_error ("failed to decode rpc payload for '" +:+
      interface_id +:+ "." +:+ function +:+ "': " +:+ err_message err))
      (decode_payload_values payload_cbor (fn_params ty)));
    _ ← run_pure (placeholder_values (H := H) (fn_results ty));
    results ← run_call "rpc invoke trap: " (call_async func params);
    run_pure (map_err (λ err, map_runtime_error ("failed to encode rpc result payload: " +:+
      err_message err)) (encode_payload_values results (fn_results ty)))
  end.

Definition invoke_rpc_component_async (ctx : RuntimeInvokeContext) (interface_id function : string)
    (payload_cbor : list byte) : running (list byte) :=
  '(component, _, _) ← link_component ctx None;
  instance ← instantiate "rpc component instantiate failed: " component;
  func ← run_pure (map_err (λ e, map_runtime_error ("failed to resolve rpc export '" +:+
    interface_id +:+ "." +:+ function +:+ "': " +:+ display_error e))
    (resolve_component_export_func instance interface_id function));
  invoke_func interface_id function func payload_cbor.

Definition invoke_rpc_component (ctx : RuntimeInvokeContext) (interface_id function : string)
    (payload_cbor : list byte) : running (list byte) :=
  match rc_app_type ctx with
  | Rpc => invoke_rpc_component_async ctx interface_id function payload_cbor
  | _ => run_pure (Err (map_runtime_error
      ("rpc invoke is only allowed when app_type=rpc (got: " +:+ app_type_text (rc_app_type ctx) +:+ ")")))
  end.

(** Whether the shutdown signal came before the component ended. *)
Definition run_cli_component_async (ctx : RuntimeInvokeContext) (socket : option RunnerSocketConfig)
    (shutdown_first : bool) : running unit :=
  '(component, _, _) ← link_component ctx socket;
  if shutdown_first then mret ()
  else
    instance ← instantiate "component instantiate failed: " component;
    succeeded ← run_call "wasi cli run trap: " (call_run instance);
    run_pure (ensure succeeded
      (new_error Internal STAGE_RUNTIME "wasi cli run returned failure status")).

(** [serve_http] is the service around the instance, [HttpRuntime.HttpService], until the
    shutdown signal. *)
Definition run_http_component_async (ctx : RuntimeInvokeContext) (serve_http : I → running unit)
    : running unit :=
  '(component, _, _) ← link_component ctx None;
  instance ← instantiate "http component instantiate failed: " component;
  serve_http instance.

Definition run_component (ctx : RuntimeInvokeContext) (socket : option RunnerSocketConfig)
    (shutdown_first : bool) (serve_http : I → running unit) : running unit :=
  let refuse_socket (run : running unit) : running unit :=
    match socket with
    | Some _ => run_pure (Err (map_runtime_error "socket config is only allowed when app_type=socket"))
    | None => run
    end in
  match rc_app_type ctx with
  | Cli => refuse_socket (run_cli_component_async ctx None shutdown_first)
  | Rpc => refuse_socket (mret ())
  | Http => refuse_socket (run_http_component_async ctx serve_http)
  | Socket =>
    match socket with
    | Some socket => run_cli_component_async ctx (Some socket) shutdown_first
    | None => run_pure (Err (map_runtime_error "app_type=socket requires socket runtime settings"))
    end
  end.

End runtime.

(** ** How a component is confined *)

Section confined.
Context {R H C I X F : Type} `{EqDecision R} `{!Engine R H C I X F}.
Context `{json : Json}.
Context (native_plugins : gmap string (NativePlugin (gmap string JsonValue) (LinkOp R F))).
Context (open_dir : string → option string) (nn_features nn_backends : list string).
#[local] Existing Instance running_ret.
#[local] Existing Instance running_bind.
Abbreviation state := (@runtime_state R H C F).
Abbreviation prog := (@running R H C F).

Lemma running_bind_Ok {A B} (m : prog A) (f : A → prog B) s s' b :
  (m ≫= f) s = Some (s', Ok b) → ∃ s1 a, m s = Some (s1, Ok a) ∧ f a s1 = Some (s', Ok b).
Proof.
  unfold mbind, running_bind. destruct (m s) as [[s1 [a|e]]|]; [|done..]. by exists s1, a.
Qed.
Lemma run_pure_Ok {A} (r : iresult A) (s s' : state) a :
  run_pure r s = Some (s', Ok a) → s' = s ∧ r = Ok a.
Proof. unfold run_pure. destruct r; simpl; naive_solver. Qed.

(** [m] answers and leaves the components that were loaded. *)
Definition cache_ok (s : state) : Prop :=
  ∀ path c, rs_cache s !! path = Some c → from_file path = Ok c.
Definition answers {A} (m : prog A) : Prop :=
  ∀ s, cache_ok s → ∃ s' r, m s = Some (s', r) ∧ cache_ok s'.

Lemma answers_ret {A} (a : A) : answers (mret a).
Proof. intros s Hs. by do 2 eexists. Qed.
Lemma answers_bind {A B} (m : prog A) (f : A → prog B) :
  answers m → (∀ a, answers (f a)) → answers (m ≫= f).
Proof.
  intros Hm Hf s Hs. unfold mbind, running_bind. destruct (Hm s Hs) as (s1 & [a|e] & -> & Hs1).
  - by apply Hf.
  - by do 2 eexists.
Qed.
Lemma answers_pure {A} (r : iresult A) : answers (run_pure r).
Proof. intros s Hs. by do 2 eexists. Qed.
Lemma answers_link {A} (m : linking A) : answers (run_link m).
Proof. intros s Hs. unfold run_link. destruct (m (rs_link s)). by do 2 eexists. Qed.
Lemma answers_load path : answers (load_component_cached path).
Proof.
  intros s Hs. unfold load_component_cached. destruct (rs_cache s !! path) eqn:E; [by do 2 eexists|].
  destruct (from_file path) as [c|e] eqn:Ef; [|by do 2 eexists]. do 2 eexists. split; [done|].
  intros p c'. simpl. intros [[<- <-]|[_ Hp]]%lookup_insert_Some; [done|by apply Hs].
Qed.
Lemma answers_plugins ctx : answers (instantiate_plugins native_plugins ctx).
Proof.
  intros s Hs. unfold instantiate_plugins.
  destruct (instantiate_plugins_ok native_plugins (rc_resources ctx) (rc_plugin_dependencies ctx)
    (rs_link s)) as (l & r & -> & _). by do 2 eexists.
Qed.
Lemma answers_linker : answers (build_component_linker nn_features).
Proof.
  unfold build_component_linker. repeat (apply answers_bind; [apply answers_link|intros []]).
  destruct nn_features; [apply answers_ret|apply answers_link].
Qed.
Lemma answers_store ctx socket : answers (new_store open_dir ctx socket).
Proof.
  apply answers_bind; [apply answers_pure|intros wasi].
  apply answers_bind; [|intros; apply answers_ret]. intros s Hs. by do 2 eexists.
Qed.

Abbreviation link := (link_component native_plugins open_dir nn_features nn_backends).

Lemma answers_link_component ctx socket : answers (link ctx socket).
Proof.
  apply answers_bind; [apply answers_load|intros component].
  apply answers_bind; [apply answers_linker|intros []].
  apply answers_bind; [apply answers_store|intros wasi].
  apply answers_bind; [apply answers_plugins|intros available].
  apply answers_bind; [apply answers_link|intros []].
  apply answers_bind; [apply answers_pure|intros []]. apply answers_ret.
Qed.

(** *** The store *)

Lemma configure_mounts_Ok mounts : ∀ ctx wasi,
  configure_wasi_mounts open_dir mounts ctx = Ok wasi →
  wasi = {| wc_args := wc_args ctx; wc_envs := wc_envs ctx;
            wc_preopens := wc_preopens ctx ++
              ((λ m, (mount_host_path m, mount_guest_path m, negb (mount_read_only m))) <$> mounts);
            wc_allow_udp := wc_allow_udp ctx; wc_allow_tcp := wc_allow_tcp ctx;
            wc_socket_check := wc_socket_check ctx |}.
Proof.
  induction mounts as [|m mounts IH]; intros ctx wasi; simpl.
  { intros [= <-]. rewrite app_nil_r. by destruct ctx. }
  destruct (open_dir _); [done|]. intros ->%IH. simpl. by rewrite <-app_assoc.
Qed.

(** What a store with [socket] allows: without one nothing is configured, and the check of the
    library admits no address; with one, each protocol is switched on exactly when it is
    declared, and the check admits the declared address and direction. *)
Definition socket_policy (socket : option RunnerSocketConfig) (wasi : WasiCtx) : Prop :=
  match socket with
  | None => wc_socket_check wasi = None ∧ wc_allow_tcp wasi = None ∧ wc_allow_udp wasi = None
  | Some config =>
      wc_allow_tcp wasi = Some (bool_decide (sock_protocol config ≠ Udp)) ∧
      wc_allow_udp wasi = Some (bool_decide (sock_protocol config ≠ Tcp)) ∧
      ∃ check ip, wc_socket_check wasi = Some check ∧
      parse_ip (sock_listen_addr config) = Some ip ∧
      ∀ address use_kind, check address use_kind = true ↔
        match use_kind with
        | TcpBind | UdpBind =>
          sock_direction config ≠ Outbound ∧
          address = new_socket_addr ip (sock_listen_port config)
        | _ => sock_direction config ≠ Inbound
        end
  end.

Lemma build_store_Ok args envs mounts socket wasi :
  build_store open_dir args envs mounts socket = Ok wasi →
  wc_args wasi = args ∧ wc_envs wasi = btree_iter envs ∧
  wc_preopens wasi =
    ((λ m, (mount_host_path m, mount_guest_path m, negb (mount_read_only m))) <$> mounts) ∧
  socket_policy socket wasi.
Proof.
  intros (ctx & ->%configure_mounts_Ok & Hs)%bind_Ok.
  destruct socket as [config|]; [|by injection Hs as <-].
  apply bind_Ok in Hs as (ip & Hip%ok_or_Ok & [= <-]). do 3 (split; [done|]).
  split; [simpl; by destruct (sock_protocol config)|].
  split; [simpl; by destruct (sock_protocol config)|].
  eexists _, ip. split_and!; [done|done|]. intros address use_kind.
  unfold socket_addr_allowed.
  destruct use_kind; rewrite ?andb_true_iff, ?bool_decide_eq_true;
    destruct (sock_direction config); naive_solver.
Qed.

(** *** The linker *)

Lemma run_link_adds (P : LinkOp R F → Prop) {A} (m : linking A) (s s' : state) r :
  adds P m → run_link m s = Some (s', r) →
  ∃ ops, ls_linker (rs_link s') = ls_linker (rs_link s) ++ ops ∧ Forall P ops.
Proof.
  intros Hm. unfold run_link. specialize (Hm (rs_link s)). destruct (m (rs_link s)) as [l r'].
  by intros [= <- _].
Qed.

Lemma build_linker_Ok (P : LinkOp R F → Prop) (s s' : state) u :
  P AddWasi → P AddWasiHttp → P AddWasiNn →
  build_component_linker nn_features s = Some (s', Ok u) → Forall P (ls_linker (rs_link s')).
Proof.
  intros Hw Hh Hn (s1 & [] & E1 & Hr)%running_bind_Ok.
  apply running_bind_Ok in Hr as (s2 & [] & E2 & Hr).
  apply running_bind_Ok in Hr as (s3 & [] & E3 & Hr). injection E1 as <-.
  apply (run_link_adds P) in E2 as (o2 & E2 & F2); [|by apply adds_link_op].
  apply (run_link_adds P) in E3 as (o3 & E3 & F3); [|by apply adds_link_op].
  simpl in E2. rewrite E2 in E3.
  destruct nn_features; [injection Hr as <- _|
    apply (run_link_adds P) in Hr as (o4 & -> & F4); [|by apply adds_link_op]];
    rewrite E3; by rewrite ?Forall_app.
Qed.

Lemma new_store_Ok ctx socket (s s' : state) wasi :
  new_store open_dir ctx socket s = Some (s', Ok wasi) →
  build_store open_dir (rc_args ctx) (rc_envs ctx) (rc_wasi_mounts ctx) socket = Ok wasi ∧
  ls_linker (rs_link s') = ls_linker (rs_link s).
Proof.
  intros (s1 & w & [-> Hb]%run_pure_Ok & Hr)%running_bind_Ok.
  apply running_bind_Ok in Hr as (s2 & [] & [= <-] & [= <- <-]). done.
Qed.

Lemma plugins_Ok ctx (s s' : state) available :
  instantiate_plugins native_plugins ctx s = Some (s', Ok available) →
  all_confined native_plugins (rc_resources ctx) (rc_plugin_dependencies ctx) available ∧
  ls_linker (rs_link s') = ls_linker (rs_link s).
Proof.
  unfold instantiate_plugins.
  destruct (instantiate_plugins_ok native_plugins (rc_resources ctx) (rc_plugin_dependencies ctx)
    (rs_link s)) as (l & r & -> & Hr). intros [= <- ->]. split; [|done]. by apply Hr.
Qed.

Lemma load_Ok path (s s' : state) c :
  cache_ok s → load_component_cached path s = Some (s', Ok c) → from_file path = Ok c.
Proof.
  intros Hs. unfold load_component_cached. destruct (rs_cache s !! path) as [c'|] eqn:E.
  - intros [= _ <-]. by apply Hs.
  - destruct (from_file path); simpl; naive_solver.
Qed.

(** The component [c] linked with the operations [linker] as its manifest says. *)
Record confined_app (ctx : RuntimeInvokeContext) (socket : option RunnerSocketConfig) (c : C)
    (wasi : WasiCtx) (available : gmap string AvailablePlugin) (linker : list (LinkOp R F))
    (targets : gmap string string) : Prop := {
  app_targets : build_binding_target_map (rc_bindings ctx) = Ok targets;
  app_file : from_file (rc_component_path ctx) = Ok c;
  app_plugins : all_confined native_plugins (rc_resources ctx) (rc_plugin_dependencies ctx) available;
  app_linker : Forall (op_authorized (rc_capabilities ctx) targets) linker;
  app_imports interface instance_ty function ty :
    (interface, instance_ty) ∈ instances_of (component_imports c) →
    (function, ty) ∈ functions_of instance_ty →
    import_authorized native_plugins c "app" (all_dependency_names (rc_plugin_dependencies ctx))
      (rc_capabilities ctx) available false targets interface function ty;
  app_args : wc_args wasi = rc_args ctx;
  app_envs : wc_envs wasi = btree_iter (rc_envs ctx);
  app_mounts : wc_preopens wasi =
    (λ m, (mount_host_path m, mount_guest_path m, negb (mount_read_only m))) <$> rc_wasi_mounts ctx;
  app_socket : socket_policy socket wasi;
}.

Lemma link_component_Ok ctx socket s s' c wasi available :
  cache_ok s → link ctx socket s = Some (s', Ok (c, wasi, available)) →
  ∃ targets, confined_app ctx socket c wasi available (ls_linker (rs_link s')) targets.
Proof.
  intros Hs (s1 & c1 & Hl%load_Ok & Hr)%running_bind_Ok; [|done].
  apply running_bind_Ok in Hr as (s2 & [] & Hlk & Hr).
  apply running_bind_Ok in Hr as (s3 & w & [Hb%build_store_Ok E3]%new_store_Ok & Hr).
  apply running_bind_Ok in Hr as (s4 & av & [Hc E4]%plugins_Ok & Hr).
  apply running_bind_Ok in Hr as (s5 & [] & Hreg & Hr).
  apply running_bind_Ok in Hr as (s6 & [] & [-> _]%run_pure_Ok & [= <- <- <- <-]).
  unfold run_link in Hreg.
  destruct (register_plugin_import_shims _ _ _ _ _ _ _ _ (rs_link s4)) as [l r] eqn:Ereg.
  injection Hreg as <- ->. simpl.
  apply bind_returns in Ereg as (l4 & targets & [Ht ->]%pure_returns & Ereg).
  pose proof (register_imports_returns _ _ _ _ _ _ _ _ _ _ _ _ Ereg) as Hcover.
  apply (adds_run (op_authorized (rc_capabilities ctx) targets)) in Ereg as (ops & -> & Fops);
    [|apply register_imports_adds].
  exists targets. destruct Hb as (Ha & He & Hm & Hsock). split; try done.
  - rewrite E4, E3. apply Forall_app. split; [|done]. by eapply build_linker_Ok.
  - intros interface instance_ty function ty Hi Hf.
    rewrite Forall_forall in Hcover. specialize (Hcover _ Hi). simpl in Hcover.
    rewrite Forall_forall in Hcover. apply (Hcover _ Hf).
Qed.

(** C17 (safety). A component runs under its manifest.  Linking always answers; when it succeeds, the
    component is the one of the file the manifest names; its linker defines no function of a
    plugin its capabilities do not list, and no function of another service but those of its
    bindings; everything it imports is backed by something it may use, the plugins it uses
    being confined in turn; it sees its own arguments and environment and the directories of
    its mounts, read-only where they are declared so.  Without a socket section nothing of
    sockets is configured; with one, TCP and UDP are switched on exactly as the protocol says,
    addresses are bound only at the declared one and in the declared direction, and anything is
    reached only if the direction is outbound. *)
Theorem app_confined ctx socket s (Hcache : cache_ok s) :
  ∃ s' r, link ctx socket s = Some (s', r) ∧ cache_ok s' ∧
  ∀ c wasi available, r = Ok (c, wasi, available) →
  ∃ targets, confined_app ctx socket c wasi available (ls_linker (rs_link s')) targets.
Proof.
  destruct (answers_link_component ctx socket s Hcache) as (s' & r & E & Hs').
  exists s', r. split_and!; [done..|]. intros c wasi available ->.
  exact (link_component_Ok _ _ _ _ _ _ _ Hcache E).
Qed.

End confined.

(** ** A call from one component to another *)

Section typed_call.
Context {SR R H C I X F : Type} `{EqDecision R} `{!Engine R H C I X F} `{!EngineCalls H I F}.
Context `{TokenCratesLaws} `{Crates} `{json : Json}.
Context `{MessageCodecLaws ControlRequest} `{MessageCodecLaws ControlResponse}.
Context `{MessageCodecLaws RunnerInboundRequest} `{MessageCodecLaws RunnerInboundResponse}.
Context (debug_control : ControlResponse → string) (debug_inbound : RunnerInboundResponse → string).
Context (world : RemoteWorld) (timeout_ms : Z) (now_manager now_runner : Z) (uuid : Uuid).
Context (sup : Sup SR) (conns : Remote) (runners : string → option (RunnerBootstrap * Invoker)).
Context `{PayloadCborLaws}.
Context (native_plugins : gmap string (NativePlugin (gmap string JsonValue) (LinkOp R F))).
Context (open_dir : string → option string) (nn_features nn_backends : list string).
(** The runtime of the runner that is called. *)
Context (runtime : @runtime_state R H C F).
#[local] Existing Instance running_ret.
#[local] Existing Instance running_bind.

Abbreviation call := (call_binding_shim (R := R)).
Abbreviation invoke_component b interface function payload :=
  (invoke_rpc_component native_plugins open_dir nn_features nn_backends
     (build_runtime_invoke_context b) interface function payload runtime).

(** The invoker of a runner runs its component. *)
Definition runs_component (b : RunnerBootstrap) (invoke : Invoker) : Prop :=
  ∀ interface function payload result,
    invoke interface function payload = Ok result ↔
    ∃ s, invoke_component b interface function payload = Some (s, Ok result).

(** [func] is the export the runner calls, in the store [table]. *)
Definition resolves (b : RunnerBootstrap) (interface function : string) (func : F)
    (s : @runtime_state R H C F) : Prop :=
  rb_app_type b = Rpc ∧ ∃ c wasi available s1 instance,
    link_component native_plugins open_dir nn_features nn_backends
      (build_runtime_invoke_context b) None runtime = Some (s1, Ok (c, wasi, available)) ∧
    instantiate "rpc component instantiate failed: " c s1 = Some (s, Ok instance) ∧
    resolve_component_export_func instance interface function = Ok func.

Lemma invoke_component_Ok b interface function payload s' result :
  invoke_component b interface function payload = Some (s', Ok result) ↔
  ∃ func s, resolves b interface function func s ∧
    invoke_func interface function func payload s = Some (s', Ok result).
Proof.
  unfold invoke_rpc_component. simpl. split.
  - destruct (rb_app_type b) eqn:Ht; try done.
    intros (s1 & [[c wasi] available] & Hl & Hr)%running_bind_Ok.
    apply running_bind_Ok in Hr as (s2 & instance & Hi & Hr).
    apply running_bind_Ok in Hr as (s3 & func & [-> Hf]%run_pure_Ok & Hr).
    apply map_err_Ok in Hf. exists func, s2. split; [|done]. split; [done|].
    by exists c, wasi, available, s1, instance.
  - intros (func & s & (-> & c & wasi & available & s1 & instance & Hl & Hi & Hf) & Hr).
    unfold invoke_rpc_component_async, mbind, running_bind. rewrite Hl, Hi. unfold run_pure.
    by rewrite Hf.
Qed.

(** What [func] was called with and what it answered: a function of values is called with the
    arguments themselves, which must be values of its own types, and [values] are its results;
    a function of bytes is called with the encoded arguments and answers an encoded result. *)
Definition applied (func : F) (table : WasmDependencyResourceState H) (args : list (Val H))
    (encoded out : list byte) (values : list (Val H)) : Prop :=
  match func_shape (func_ty func) with
  | TakesValues =>
    Forall2 plain args (fn_params (func_ty func)) ∧
    encode_payload_values values (fn_results (func_ty func)) = Ok out ∧
    ∃ table', call_async func args table = (table', Ok values)
  | TakesBytes => ∃ table', call_bytes func encoded table = (table', Ok out)
  | TakesBytesFallibly => ∃ table', call_bytes_result func encoded table = (table', Ok (Ok out))
  end.

Lemma run_call_Ok {A} context (m : calling H A) (s s' : @runtime_state R H C F) a :
  run_call context m s = Some (s', Ok a) ↔
  ∃ table, m (ls_table (rs_link s)) = (table, Ok a) ∧
    s' = {| rs_cache := rs_cache s;
            rs_link := {| ls_table := table; ls_linker := ls_linker (rs_link s) |} |}.
Proof.
  unfold run_call. destruct (m _) as [table [x|e]]; simpl; [|naive_solver]. split.
  - intros [= <- <-]. eauto.
  - by intros (table' & [= -> ->] & ->).
Qed.

Lemma invoke_func_applied interface function func s args (param_types result_types : list (Ty R))
    encoded out values :
  encode_payload_values args param_types = Ok encoded →
  decode_payload_values out result_types = Ok values →
  (∃ s', invoke_func interface function func encoded s = Some (s', Ok out)) ↔
  applied func (ls_table (rs_link s)) args encoded out values.
Proof.
  intros He Hd. unfold invoke_func, applied. destruct (func_shape _).
  - setoid_rewrite run_call_Ok. naive_solver.
  - split.
    + intros (s' & (s1 & r & (table & Hc & _)%run_call_Ok & [_ Hr]%run_pure_Ok)%running_bind_Ok).
      apply map_err_Ok in Hr as ->. eauto.
    + intros (table & Hc). unfold mbind, running_bind, run_call. rewrite Hc. by eexists.
  - split.
    + intros (s' & (s1 & params & [-> Hp%map_err_Ok]%run_pure_Ok & Hr)%running_bind_Ok).
      apply running_bind_Ok in Hr as (s2 & ps & [-> _]%run_pure_Ok & Hr).
      apply running_bind_Ok in Hr
        as (s3 & results & (table & Hc & _)%run_call_Ok & [_ Hr%map_err_Ok]%run_pure_Ok).
      rewrite (payload_same_values _ _ _ _ _ Hr Hd).
      pose proof (payload_same_values _ _ _ _ _ He Hp) as ->.
      apply decode_payload_Ok in Hp as (_ & _ & _ & Hp). eauto.
    + intros (Hp & Ho & table & Hc). unfold mbind, running_bind, run_pure.
      rewrite (payload_read_back _ _ _ _ He Hp). simpl.
      destruct (encode_payload_decodes _ _ _ Ho) as [[ps Hps]%plain_placeholders _].
      rewrite Hps. simpl. unfold run_call. rewrite Hc. simpl. rewrite Ho. by eexists.
Qed.

(** The connection of the caller, and the call it makes. *)
Section caller.
Context (context : NativePluginContext) (registry : RpcRegistry).
Context (extractor : H → result string Z) (handle : H) (rep : Z).
Context (Hrep : extractor handle = Ok rep) (Hlocal : lookup_connection rep registry = Some LocalUds).

Definition binding_call (target interface function : string) (signature : BindingShimSignature R)
    (args : list (Val H)) : option (result string (Val H)) :=
  call (Some extractor)
    (invoke_connection debug_control debug_inbound
       (manager_peer world timeout_ms now_manager uuid sup conns) (runner_peer now_runner runners)
       context registry)
    target interface function signature (VResource handle :: args) 1.

Lemma binding_call_Ok target interface function signature args v :
  binding_call target interface function signature args = Some (Ok (VResult true v)) →
  ∃ encoded out values,
    encode_payload_values args (tail (sig_param_types signature)) = Ok encoded ∧
    local_call debug_control debug_inbound world timeout_ms now_manager now_runner uuid sup conns
      runners context target interface function encoded = Some (Ok out) ∧
    decode_payload_values out (option_list (ok_type signature)) = Ok values ∧ v = head values.
Proof.
  unfold binding_call, call_binding_shim.
  destruct (_ ≫= _) as [[rep' encoded]|e] eqn:Hprep; [|done]. simpl in Hprep.
  apply bind_Ok in Hprep as (rep0 & Hr & Hprep). apply map_err_Ok in Hr.
  apply bind_Ok in Hprep as (enc & Hen & [= <- <-]). apply map_err_Ok in Hen.
  assert (rep0 = rep) as ->.
  { apply bind_Ok in Hr as (t & _ & Hr). apply bind_Ok in Hr as ([] & _ & Hr).
    simpl in Hr. rewrite Hrep in Hr. by injection Hr. }
  unfold invoke_connection. rewrite Hlocal. fold (local_call debug_control debug_inbound world
    timeout_ms now_manager now_runner uuid sup conns runners context target interface function enc).
  destruct (local_call _ _ _ _ _ _ _ _ _ _ _ _ _ _ _) as [[out|message]|] eqn:Hcall; [|done..].
  simpl. intros [= Hd]. apply bind_Ok in Hd as (values & Hv & [= <-]). apply map_err_Ok in Hv.
  by exists enc, out, values.
Qed.

Lemma binding_call_returns target interface function signature args r encoded out values :
  head (sig_param_types signature) = Some (TBorrow r) →
  encode_payload_values args (tail (sig_param_types signature)) = Ok encoded →
  local_call debug_control debug_inbound world timeout_ms now_manager now_runner uuid sup conns
    runners context target interface function encoded = Some (Ok out) →
  decode_payload_values out (option_list (ok_type signature)) = Ok values →
  binding_call target interface function signature args = Some (Ok (VResult true (head values))).
Proof.
  intros Hb He Hcall Hd. unfold binding_call, call_binding_shim, extract_binding_connection_rep.
  rewrite Hb. simpl. rewrite Hrep. simpl. rewrite He. simpl.
  unfold invoke_connection. rewrite Hlocal. unfold local_call in Hcall. rewrite Hcall. simpl.
  by rewrite Hd.
Qed.

(** C18 (functional). A component that calls a function of a binding calls the function of
    the other component.  When the call answers success, the service of the caller declares
    the binding, the target is running and ready and its component was linked under its
    manifest; no argument is a resource.  If the exported function takes values, it was applied
    to exactly the values the caller passed, all of them and whatever type the caller imports it
    at, and the caller gets exactly the value it returned; the arguments have the types the
    function declares, and the result has the type the caller expects.  A function that takes
    one list of bytes and returns bytes, or bytes or an error, is the exception: it is applied
    to the encoded arguments, and the caller gets what its answer decodes to.  Conversely every
    such application of a function of a ready service, called over a declared binding, is what
    the call answers, provided its answer decodes at the type the caller expects. *)
Theorem typed_call_exact (Hcoherent : runners_coherent sup runners)
    (Hruns : ∀ endpoint b invoke, runners endpoint = Some (b, invoke) → runs_component b invoke)
    target interface function signature args :
  (∀ v, binding_call target interface function signature args = Some (Ok (VResult true v)) →
   ∃ name source service b invoke func s encoded out values,
     inner sup !! name = Some source ∧ rs_runner_id source = ctx_runner_id context ∧
     {| bind_name := target; bind_wit := interface |} ∈ rs_bindings source ∧
     inner sup !! target = Some service ∧ rs_is_ready service = true ∧
     runners (rs_runner_endpoint service) = Some (b, invoke) ∧ rb_service_name b = target ∧
     resolves b interface function func s ∧
     encode_payload_values args (tail (sig_param_types signature)) = Ok encoded ∧
     Forall2 plain args (tail (sig_param_types signature)) ∧
     applied func (ls_table (rs_link s)) args encoded out values ∧
     decode_payload_values out (option_list (ok_type signature)) = Ok values ∧
     Forall2 plain values (option_list (ok_type signature)) ∧
     v = head values) ∧
  ∀ name source service proof token b invoke r encoded out func s values,
    callable now_manager now_runner uuid sup context target interface function encoded out name
      source service proof token →
    runners (rs_runner_endpoint service) = Some (b, invoke) →
    resolves b interface function func s →
    head (sig_param_types signature) = Some (TBorrow r) →
    encode_payload_values args (tail (sig_param_types signature)) = Ok encoded →
    applied func (ls_table (rs_link s)) args encoded out values →
    decode_payload_values out (option_list (ok_type signature)) = Ok values →
    binding_call target interface function signature args = Some (Ok (VResult true (head values))).
Proof.
  split.
  - intros v (encoded & out & values & He & Hcall & Hd & ->)%binding_call_Ok.
    apply local_call_sound in Hcall
      as (name & source & service & b & invoke & proof & Hs & Hp & _ & Hb & Ht & Hr & Hrun & Hn & Hinv);
      [|done].
    apply (Hruns _ _ _ Hrun) in Hinv as (s' & Hinv).
    apply invoke_component_Ok in Hinv as (func & s & Hres & Hinv).
    exists name, source, service, b, invoke, func, s, encoded, out, values.
    split_and!; try done; [apply Hp| |by eapply invoke_func_applied; eauto|].
    + by apply encode_payload_decodes in He as [? _].
    + by apply decode_payload_Ok in Hd as (_ & _ & _ & ?).
  - intros name source service proof token b invoke r encoded out func s values
      Hc Hrun Hres Hsig He Happ Hd.
    destruct (Hcoherent _ _ (ca_target _ _ _ _ _ _ _ _ _ _ _ _ _ _ _ Hc)) as (b' & inv' & Hrun' & Hn & Hsec).
    rewrite Hrun in Hrun'. injection Hrun' as <- <-.
    eapply binding_call_returns; [done..| |done].
    eapply local_call_complete; [exact Hc|done..|]. apply (Hruns _ _ _ Hrun).
    destruct (proj2 (invoke_func_applied interface function func s _ _ _ _ _ _ He Hd) Happ) as [s' Hs'].
    exists s'. apply invoke_component_Ok. by exists func, s.
Qed.

End caller.
End typed_call.

(** ** A web service queries a database *)

Module RuntimeDemo.

(** Instances are components and functions their types; the one function negates its
    argument. *)
Definition component : Type := items Z * items Z.
Definition flag : Ty Z := TOption TBool.
Definition negate_ty : ComponentFunc Z := {| fn_params := [flag]; fn_results := [flag] |}.
Definition db : component :=
  ([("wasi:cli/stdout", ItemInstance [("get-stdout", ItemFunc negate_ty)])],
   [("acme:db/query", ItemInstance [("run", ItemFunc negate_ty)])]).

#[local] Instance engine : Engine Z Z component component (option string * string) (ComponentFunc Z) := {
  from_file path := if decide (path = "/c.wasm") then Ok db else Err "not found";
  component_imports := fst;
  component_exports := snd;
  get_export_index c parent name :=
    match parent with
    | None => (λ _ : items Z, (None, name)) <$> find_named name (instances_of c.2)
    | Some (_, interface) => Some (Some interface, name)
    end;
  get_func c index :=
    match index with
    | (Some interface, f) =>
      l ← find_named interface (instances_of c.2); find_named f (functions_of (R := Z) l)
    | (None, _) => None
    end;
  func_ty := id;
  get_resource _ _ := None;
  linker_refuses _ _ := None;
  instantiate_component table _ c := (table, Ok c);
}.
#[local] Instance calls : EngineCalls Z component (ComponentFunc Z) := {
  call_async _ params table :=
    (table, match params with
            | [VOption (Some (VBool b))] => Ok [VOption (Some (VBool (negb b)))]
            | _ => Err "unreachable"
            end);
  call_bytes _ bytes table := (table, Ok bytes);
  call_bytes_result _ bytes table := (table, Ok (Ok bytes));
  call_run _ table := (table, Ok true);
}.

#[local] Existing Instance PayloadDemo.cbor.
#[local] Existing Instance PayloadDemo.cbor_laws.
#[local] Existing Instance RunnerDemo.json.
#[local] Existing Instance RunnerDemo.tokens.
#[local] Existing Instance RunnerDemo.tokens_laws.
#[local] Existing Instance RunnerDemo.uuids.
#[local] Existing Instance RunnerDemo.ask_codec.
#[local] Existing Instance RunnerDemo.answer_codec.
#[local] Existing Instance RunnerDemo.ask_laws.
#[local] Existing Instance RunnerDemo.answer_laws.
#[local] Existing Instance RunnerDemo.inbound_request_eq_dec.
#[local] Existing Instance RunnerDemo.inbound_response_eq_dec.
#[local] Instance invoke_codec : MessageCodec RunnerInboundRequest :=
  RunnerDemo.only (Invoke RunnerDemo.plain "run" (bytes_of "t") RunnerDemo.token).
#[local] Instance result_codec : MessageCodec RunnerInboundResponse :=
  RunnerDemo.only (InvokeResult (bytes_of "f")).
#[local] Instance invoke_laws : MessageCodecLaws RunnerInboundRequest := RunnerDemo.only_laws _.
#[local] Instance result_laws : MessageCodecLaws RunnerInboundResponse := RunnerDemo.only_laws _.

Definition runtime : @runtime_state Z Z component (ComponentFunc Z) :=
  {| rs_cache := ∅; rs_link := {| ls_table := default_resource_state; ls_linker := [] |} |}.
Definition linking_of (b : RunnerBootstrap) :=
  link_component (H := Z) ∅ (λ _, None) [] [] (build_runtime_invoke_context b) None runtime.

(** The bootstrap of [RunnerDemo], allowed to print. *)
Definition bootstrap (id service secret : string) : RunnerBootstrap :=
  let b := RunnerDemo.bootstrap id service secret in
  {| rb_runner_id := rb_runner_id b; rb_service_name := rb_service_name b;
     rb_release_hash := rb_release_hash b; rb_app_type := rb_app_type b;
     rb_http_port := None; rb_http_listen_addr := None; rb_http_max_body_bytes := None;
     rb_http_worker_count := 1; rb_http_worker_queue_capacity := 1; rb_socket := None;
     rb_component_path := rb_component_path b; rb_args := []; rb_envs := ∅;
     rb_wasi_mounts := [{| mount_host_path := "/srv/data"; mount_guest_path := "/data";
                           mount_read_only := true |}];
     rb_wasi_http_outbound := []; rb_resources := ∅; rb_bindings := [];
     rb_plugin_dependencies := []; rb_enabled_native_plugins := [];
     rb_capabilities := {| cap_privileged := false; cap_deps := ∅;
                           cap_wasi := {[ "wasi:cli/stdout" := ["*"] ]} |};
     rb_manager_control_endpoint := rb_manager_control_endpoint b;
     rb_runner_endpoint := rb_runner_endpoint b;
     rb_manager_auth_secret := rb_manager_auth_secret b;
     rb_invocation_secret := rb_invocation_secret b;
     rb_epoch_tick_interval_ms := 50; rb_wasm_memory_reservation_bytes := 1;
     rb_wasm_memory_reservation_for_growth_bytes := 1; rb_wasm_memory_guard_size_bytes := 1;
     rb_wasm_guard_before_linear_memory := false; rb_wasm_parallel_compilation := false |}.

Definition invoker (b : RunnerBootstrap) : Invoker := λ interface function payload,
  match invoke_rpc_component (H := Z) ∅ (λ _, None) [] [] (build_runtime_invoke_context b) interface
          function payload runtime with
  | Some (_, Ok result) => Ok result
  | _ => Err (map_runtime_error "failed")
  end.
Definition runners (endpoint : string) : option (RunnerBootstrap * Invoker) :=
  let runner b := Some (b, invoker b) in
  if decide (endpoint = "/run/w1") then runner (bootstrap "w1" "web" "wkey")
  else if decide (endpoint = "/run/d1") then runner (bootstrap "d1" "db" "key")
  else None.

Lemma coherent : runners_coherent (RunnerDemo.services RunnerDemo.plain) runners.
Proof.
  intros name service Hs. simpl in Hs.
  apply lookup_insert_Some in Hs as [[<- <-]|[_ Hs]]; [by do 2 eexists|].
  apply lookup_singleton_Some in Hs as [<- <-]. by do 2 eexists.
Qed.
Lemma run endpoint b invoke :
  runners endpoint = Some (b, invoke) → runs_component ∅ (λ _, None) [] [] runtime b invoke.
Proof.
  intros Hr. assert (invoke = invoker b) as ->.
  { unfold runners in Hr. repeat case_decide; by simplify_eq. }
  intros interface function payload result. unfold invoker.
  destruct (invoke_rpc_component _ _ _ _ _ _ _ _ _) as [[s [r|]]|]; split; try naive_solver.
Qed.

Definition signature : BindingShimSignature Z :=
  {| sig_param_types := [TBorrow 1; flag]; ok_type := Some flag |}.
Definition registry : RpcRegistry := (allocate_connection_rep LocalUds new_rpc_registry).1.
Definition call (arg : bool) : option (result string (Val Z)) :=
  binding_call (λ _, "response") (λ _, "response") demo_world 500 100 110 7%N
    (RunnerDemo.services RunnerDemo.plain) no_remote runners RunnerDemo.context registry Ok 1 "db"
    RunnerDemo.plain "run" signature [VOption (Some (VBool arg))].

Lemma front_callable :
  callable 100 110 7%N (RunnerDemo.services RunnerDemo.plain) RunnerDemo.context "db" RunnerDemo.plain
    "run" (bytes_of "t") (bytes_of "f") "web"
    (demo_runner "w1" "wkey" [{| bind_name := "db"; bind_wit := RunnerDemo.plain |}] 1)
    (demo_runner "d1" "key" [] 2) demo_web_proof RunnerDemo.token.
Proof. split; try (vm_compute; reflexivity); [left|..]; try done; eexists; vm_compute; reflexivity. Qed.

Definition linked : @runtime_state Z Z component (ComponentFunc Z) :=
  default runtime (fst <$> linking_of (bootstrap "d1" "db" "key")).

Lemma db_resolves :
  resolves ∅ (λ _, None) [] [] runtime (bootstrap "d1" "db" "key") RunnerDemo.plain "run" negate_ty linked.
Proof.
  split; [reflexivity|]. do 5 eexists. split; [vm_compute; reflexivity|]. split; vm_compute; reflexivity.
Qed.

Lemma typed_call_exact_witness : call true = Some (Ok (VResult true (Some (VOption (Some (VBool false)))))).
Proof.
  destruct (typed_call_exact (λ _, "response") (λ _, "response") demo_world 500 100 110 7%N
    (RunnerDemo.services RunnerDemo.plain) no_remote runners ∅ (λ _, None) [] [] runtime RunnerDemo.context
    registry Ok 1 1 eq_refl eq_refl coherent run "db" RunnerDemo.plain "run" signature
    [VOption (Some (VBool true))]) as [_ Hcomplete].
  refine (Hcomplete _ _ _ _ _ _ _ 1 (bytes_of "t") (bytes_of "f") negate_ty linked
    [VOption (Some (VBool false))] front_callable eq_refl db_resolves eq_refl _ _ _);
    [vm_compute; reflexivity| |vm_compute; reflexivity].
  split; [repeat constructor|]. split; [vm_compute; reflexivity|eexists; vm_compute; reflexivity].
Defined.

Lemma app_confined_witness :
  ∃ s' c wasi available targets,
    linking_of (bootstrap "d1" "db" "key") = Some (s', Ok (c, wasi, available)) ∧
    confined_app ∅ (build_runtime_invoke_context (bootstrap "d1" "db" "key")) None c wasi available
      (ls_linker (rs_link s')) targets.
Proof.
  destruct (app_confined (H := Z) ∅ (λ _, None) [] [] (build_runtime_invoke_context (bootstrap "d1" "db" "key"))
    None runtime) as (s' & r & E & _ & Hr).
  { intros path c Hc. simpl in Hc. by apply lookup_empty_Some in Hc. }
  assert (is_Some (match r with Ok x => Some x | Err _ => None end)) as [x Hx].
  { revert E. vm_compute. intros [= _ <-]. by eexists. }
  destruct r as [[[c wasi] available]|]; [|done]. destruct (Hr _ _ _ eq_refl) as [targets Ht].
  by exists s', c, wasi, available, targets.
Defined.

End RuntimeDemo.
