(* ===== verification/HttpRuntime.v ===== *)
(** * HTTP services

    The ingress of a runner ([imagod-runtime-ingress/src/lib.rs]), the bounded queue to the
    component and its worker ([imagod-runtime-wasmtime/src/http_supervisor.rs],
    [runtime_entry.rs]).  hyper's parsers are a parameter ([Hyper]); what the component answers
    to a request, and how its store changes, is a parameter.

    The functions are followed by a step relation of the accept loop, the tasks of the
    connections, the worker and the shutdown, with connections that time out or are aborted
    and a worker that panics.

    Shown: the number of connections, the length of the queue and the size of a body stay
    within their limits; a request that was accepted into the queue is answered with the
    component's response to this request and no other, after the requests before it; and the
    worker ends after a shutdown. *)

From S2P Require Import Prelude Protocol Text IpAddr Ipc Component Manifest Runtime RunnerProcess.

Open Scope Z_scope.

Definition DEFAULT_HTTP_LISTEN_ADDR : string := "127.0.0.1".
Definition DEFAULT_HTTP_MAX_BODY_BYTES : Z := 4 * 1024 * 1024.
Definition MAX_INBOUND_CONNECTION_HANDLERS : nat := 32.
Definition HTTP_REQUEST_QUEUE_CAPACITY : Z := 32.

Definition ingress_error (code : ErrorCode) (message : string) : ImagodError :=
  new_error code STAGE_HTTP_INGRESS message.

(** ** Settings *)

Section settings.
Context `{Json} (b : RunnerBootstrap).

Definition required_http_port : iresult Z :=
  match rb_http_port b with
  | Some port => if 0 <? port then Ok port
      else Err (ingress_error Internal "type=http requires http_port in runner bootstrap")
  | None => Err (ingress_error Internal "type=http requires http_port in runner bootstrap")
  end.

Definition required_http_listen_addr : iresult IpAddr :=
  let listen_addr := trim (default DEFAULT_HTTP_LISTEN_ADDR (rb_http_listen_addr b)) in
  _ ← ensure (negb (bool_decide (listen_addr = "")))
        (ingress_error Internal
           "http_listen_addr must be a valid IP address literal (got empty value)");
  ok_or (parse_ip listen_addr)
    (ingress_error Internal ("http_listen_addr must be a valid IP address literal (got '" +:+
       listen_addr +:+ "'): invalid IP address syntax")).

Definition required_http_max_body_bytes : iresult Z :=
  let max_body_bytes := default DEFAULT_HTTP_MAX_BODY_BYTES (rb_http_max_body_bytes b) in
  _ ← ensure (negb ((max_body_bytes =? 0) || (MAX_HTTP_MAX_BODY_BYTES <? max_body_bytes)))
        (ingress_error Internal ("http_max_body_bytes must be in range 1..=" +:+
           to_string MAX_HTTP_MAX_BODY_BYTES +:+ " (got " +:+ to_string max_body_bytes +:+ ")"));
  Ok max_body_bytes.

Definition http_request_queue_capacity (http_worker_count http_worker_queue_capacity : Z) : nat :=
  Z.to_nat (Z.max 1 (if 0 <? http_worker_queue_capacity then http_worker_queue_capacity
                     else HTTP_REQUEST_QUEUE_CAPACITY)).
End settings.

(** ** Requests and responses *)

Record RuntimeHttpRequest := {
  rq_method : string;
  rq_uri : string;
  rq_headers : list (string * list byte);
  rq_body : list byte;
}.
Record RuntimeHttpResponse := {
  rp_status : Z;
  rp_headers : list (string * list byte);
  rp_body : list byte;
}.

Class Hyper := {
  (* [HeaderValue::to_str], [HeaderName::from_bytes], [HeaderValue::from_bytes] *)
  header_to_str : list byte → result string string;
  header_name_from_bytes : string → result string string;
  header_value_from_bytes : list byte → result string (list byte);
  method_from_bytes : string → result string string;
  parse_uri : string → result string string;
}.

Inductive Frame := DataFrame (data : list byte) | TrailersFrame.

(** A request as hyper hands it over, the body as the frames that arrive. *)
Record HyperRequest := {
  hq_method : string;
  hq_uri : string;
  hq_headers : list (string * list byte);
  hq_frames : list (result string Frame);
}.
Record HyperResponse := {
  hr_status : Z;
  hr_headers : list (string * list byte);
  hr_body : list byte;
}.

Section translation.
Context `{Hyper}.

Definition body_too_large (max_http_body_bytes : Z) : ImagodError :=
  ingress_error BadRequest ("http request body exceeds limit of " +:+
    to_string max_http_body_bytes +:+ " bytes").

Fixpoint read_body (max_http_body_bytes : Z) (body_bytes : list byte)
    (frames : list (result string Frame)) : iresult (list byte) :=
  match frames with
  | [] => Ok body_bytes
  | Err e :: _ => Err (ingress_error BadRequest ("failed to read request body frame: " +:+ e))
  | Ok TrailersFrame :: frames => read_body max_http_body_bytes body_bytes frames
  | Ok (DataFrame data) :: frames =>
    if max_http_body_bytes <? zlen body_bytes +ˢ zlen data
    then Err (body_too_large max_http_body_bytes)
    else read_body max_http_body_bytes (body_bytes ++ data) frames
  end.

Definition check_content_length (max_http_body_bytes : Z) (headers : list (string * list byte))
    : iresult unit :=
  match list_find (λ h, h.1 = "content-length") headers with
  | None => Ok ()
  | Some (_, (_, value)) =>
    text ← map_err (λ e, ingress_error BadRequest ("invalid content-length header: " +:+ e))
             (header_to_str value);
    content_length ← map_err (λ e, ingress_error BadRequest ("invalid content-length value '" +:+
                       text +:+ "': " +:+ e)) (parse_uint u64_max text);
    ensure (content_length <=? max_http_body_bytes) (body_too_large max_http_body_bytes)
  end.

Definition into_runtime_http_request (request : HyperRequest) (max_http_body_bytes : Z)
    : iresult RuntimeHttpRequest :=
  _ ← check_content_length max_http_body_bytes (hq_headers request);
  body ← read_body max_http_body_bytes [] (hq_frames request);
  Ok {| rq_method := hq_method request; rq_uri := hq_uri request; rq_headers := hq_headers request;
        rq_body := body |}.

(** A header that cannot be represented is left out. *)
Definition append_headers (headers : list (string * list byte)) : list (string * list byte) :=
  omap (λ '(name, value),
    match header_name_from_bytes name, header_value_from_bytes value with
    | Ok name, Ok value => Some (name, value)
    | _, _ => None
    end) headers.

Definition runtime_http_response_to_hyper (response : RuntimeHttpResponse) : HyperResponse :=
  {| hr_status := if (100 <=? rp_status response) && (rp_status response <=? 999)
                  then rp_status response else 500;
     hr_headers := append_headers (rp_headers response);
     hr_body := rp_body response |}.

Definition runtime_error_response (error : ImagodError) : HyperResponse :=
  let '(status, body) :=
    match err_code error with
    | BadRequest => (400, "bad request")
    | Busy => (503, "service unavailable")
    | _ => (500, "internal server error")
    end in
  {| hr_status := status; hr_headers := [("content-type", bytes_of "text/plain; charset=utf-8")];
     hr_body := bytes_of body |}.

(** The request the component sees. *)
Definition runtime_request_to_hyper_request (request : RuntimeHttpRequest) : iresult HyperRequest :=
  let bad what e := new_error BadRequest STAGE_RUNTIME (what +:+ ": " +:+ e) in
  method ← map_err (bad ("invalid http method '" +:+ rq_method request +:+ "'"))
             (method_from_bytes (rq_method request));
  let uri_text := if bool_decide (rq_uri request = "") then "/" else rq_uri request in
  uri ← map_err (bad ("invalid http uri '" +:+ uri_text +:+ "'")) (parse_uri uri_text);
  headers ← try_map (λ '(name, value),
    parsed ← map_err (bad ("invalid header name '" +:+ name +:+ "'")) (header_name_from_bytes name);
    value ← map_err (bad ("invalid header value for '" +:+ parsed +:+ "'"))
              (header_value_from_bytes value);
    Ok (parsed, value)) (rq_headers request);
  Ok {| hq_method := method; hq_uri := uri; hq_headers := headers;
        hq_frames := [Ok (DataFrame (rq_body request))] |}.

End translation.

(** *** Bodies of responses *)

Inductive ResponseBodyAccumulator :=
  | AccEmpty
  | AccSingle (data : list byte)
  | AccMulti (data : list byte).

Definition push_data (data : list byte) (acc : ResponseBodyAccumulator) : ResponseBodyAccumulator :=
  match data with
  | [] => acc
  | _ =>
    match acc with
    | AccEmpty => AccSingle data
    | AccSingle first => AccMulti (first ++ data)
    | AccMulti combined => AccMulti (combined ++ data)
    end
  end.
Definition acc_finish (acc : ResponseBodyAccumulator) : list byte :=
  match acc with AccEmpty => [] | AccSingle data | AccMulti data => data end.
Definition consume_response_frame (frame : Frame) (acc : ResponseBodyAccumulator)
    : ResponseBodyAccumulator :=
  match frame with DataFrame data => push_data data acc | TrailersFrame => acc end.

Fixpoint collect_frames (acc : ResponseBodyAccumulator) (frames : list (result string Frame))
    : iresult (list byte) :=
  match frames with
  | [] => Ok (acc_finish acc)
  | Err e :: _ => Err (map_runtime_error ("failed to read outgoing response body frame: " +:+ e))
  | Ok frame :: frames => collect_frames (consume_response_frame frame acc) frames
  end.
Definition collect_response_body_optimized (frames : list (result string Frame)) : iresult (list byte) :=
  collect_frames AccEmpty frames.

(** The frames of a body that arrive before the first error, put together. *)
Fixpoint body_of (frames : list (result string Frame)) : result string (list byte) :=
  match frames with
  | [] => Ok []
  | Err e :: _ => Err e
  | Ok TrailersFrame :: frames => body_of frames
  | Ok (DataFrame data) :: frames => rest ← body_of frames; Ok (data ++ rest)
  end.

Lemma collect_frames_body frames : ∀ acc,
  collect_frames acc frames =
    map_err (λ e, map_runtime_error ("failed to read outgoing response body frame: " +:+ e))
      (rest ← body_of frames; Ok (acc_finish acc ++ rest)).
Proof.
  induction frames as [|[[data|]|e] frames IH]; intros acc; simpl; [by rewrite app_nil_r| |done..].
  rewrite IH. destruct (body_of frames) as [rest|e]; simpl; [|done].
  f_equal. rewrite app_assoc. f_equal. destruct data; simpl; [by rewrite app_nil_r|]. by destruct acc.
Qed.

(** Collecting a body without copying it twice yields the body. *)
Theorem collect_response_body_exact frames :
  collect_response_body_optimized frames =
    map_err (λ e, map_runtime_error ("failed to read outgoing response body frame: " +:+ e))
      (body_of frames).
Proof.
  unfold collect_response_body_optimized. rewrite collect_frames_body. by destruct (body_of frames).
Qed.

(** What [call_handle] left in the out-parameter of the response: nothing, an error code, or a
    response with its body. *)
Record OutgoingResponse := {
  og_status : Z;
  og_headers : list (string * list byte);
  og_frames : list (result string Frame);
}.
Inductive HandleError := RequestNotMapped (e : string) | OutparamNotAllocated (e : string) | Trapped (e : string).
Definition Handled : Type := result HandleError (option (result string OutgoingResponse)).
Definition handle_error (e : HandleError) : ImagodError :=
  map_runtime_error (match e with
    | RequestNotMapped e => "failed to map incoming HTTP request: " +:+ e
    | OutparamNotAllocated e => "failed to allocate response outparam: " +:+ e
    | Trapped e => "incoming-handler trap: " +:+ e
    end).

Definition runtime_response_from_hyper (response : OutgoingResponse) : iresult RuntimeHttpResponse :=
  body ← collect_response_body_optimized (og_frames response);
  Ok {| rp_status := og_status response; rp_headers := og_headers response; rp_body := body |}.

Definition handle_http_request_in_store `{Hyper} {S} (call_handle : HyperRequest → S → S * Handled)
    (request : RuntimeHttpRequest) (store : S) : S * iresult RuntimeHttpResponse :=
  match runtime_request_to_hyper_request request with
  | Err e => (store, Err e)
  | Ok request =>
    let '(store, handled) := call_handle request store in
    (store,
     sent ← map_err handle_error handled;
     response ← ok_or sent (map_runtime_error "incoming-handler did not set response outparam");
     response ← map_err (λ code, map_runtime_error
       ("incoming-handler returned wasi:http error: " +:+ code)) response;
     runtime_response_from_hyper response)
  end.

(** ** The service *)

Inductive Conn :=
  | Reading
  | Waiting (request : RuntimeHttpRequest)
  | Answered (response : HyperResponse).

(** The registered sender, the receiver of the worker, the queue between them, the request the
    worker is at, and the tasks of the connections. *)
Record HttpService (S : Type) := {
  h_store : S;
  h_sender : bool;
  h_receiver : bool;
  h_queue : list (nat * RuntimeHttpRequest);
  h_current : option (nat * RuntimeHttpRequest);
  h_conns : gmap nat Conn;
  h_next : nat;
  h_accepting : bool;
}.
Arguments h_store {S}. Arguments h_sender {S}. Arguments h_receiver {S}. Arguments h_queue {S}.
Arguments h_current {S}. Arguments h_conns {S}. Arguments h_next {S}. Arguments h_accepting {S}.
Arguments Build_HttpService {S}.

Section service.
Context `{Hyper} {S : Type} (call_handle : HyperRequest → S → S * Handled).
Context (max_http_body_bytes : Z) (capacity : nat).
Implicit Types st : HttpService S.

Definition set_conn (c : nat) (conn : Conn) st : HttpService S :=
  {| h_store := h_store st; h_sender := h_sender st; h_receiver := h_receiver st;
     h_queue := h_queue st; h_current := h_current st; h_conns := <[c := conn]> (h_conns st);
     h_next := h_next st; h_accepting := h_accepting st |}.
Definition set_work queue current receiver st : HttpService S :=
  {| h_store := h_store st; h_sender := h_sender st; h_receiver := receiver;
     h_queue := queue; h_current := current; h_conns := h_conns st;
     h_next := h_next st; h_accepting := h_accepting st |}.
Definition set_conns (conns : gmap nat Conn) st : HttpService S :=
  {| h_store := h_store st; h_sender := h_sender st; h_receiver := h_receiver st;
     h_queue := h_queue st; h_current := h_current st; h_conns := conns;
     h_next := h_next st; h_accepting := h_accepting st |}.

(** A task for a new connection. *)
Definition accept st : HttpService S :=
  {| h_store := h_store st; h_sender := h_sender st; h_receiver := h_receiver st;
     h_queue := h_queue st; h_current := h_current st;
     h_conns := <[h_next st := Reading]> (h_conns st);
     h_next := Datatypes.S (h_next st); h_accepting := h_accepting st |}.

(** [register_http_component] by a worker with an empty queue; [None]: nothing runs yet. *)
Definition register_http_component (registered : bool) (store : S) : iresult (HttpService S) :=
  _ ← ensure (negb registered)
        (map_runtime_error "http component is already running in this runtime instance");
  Ok {| h_store := store; h_sender := true; h_receiver := true; h_queue := []; h_current := None;
        h_conns := ∅; h_next := 0; h_accepting := true |}.

Definition request_sender st : iresult unit :=
  ensure (h_sender st) (new_error Internal STAGE_RUNTIME "http component is not running").

(** [try_send] on the bounded channel. *)
Definition dispatch_http_work_item (c : nat) (request : RuntimeHttpRequest) st
    : iresult (HttpService S) :=
  _ ← ensure (h_receiver st) (map_runtime_error "http component worker request channel is closed");
  _ ← ensure (length (h_queue st) <? capacity)%nat
        (new_error Busy STAGE_RUNTIME "http component worker queue is full");
  Ok (set_work (h_queue st ++ [(c, request)]) (h_current st) (h_receiver st) st).

(** [handle_http_request] up to the answer, or up to the wait for the worker. *)
Definition begin_request (c : nat) (raw : HyperRequest) st : HttpService S :=
  match into_runtime_http_request raw max_http_body_bytes with
  | Err err => set_conn c (Answered (runtime_error_response err)) st
  | Ok request =>
    match (_ ← request_sender st; dispatch_http_work_item c request st) with
    | Ok st => set_conn c (Waiting request) st
    | Err err => set_conn c (Answered (runtime_error_response err)) st
    end
  end.

(** The response a connection sends for the answer of the worker. *)
Definition respond (result : iresult RuntimeHttpResponse) : HyperResponse :=
  match result with
  | Ok response => runtime_http_response_to_hyper response
  | Err err => runtime_error_response err
  end.

(** [response_tx.send]: a connection that is gone takes no answer. *)
Definition deliver (c : nat) (response : HyperResponse) st : HttpService S :=
  match h_conns st !! c with
  | Some (Waiting _) => set_conn c (Answered response) st
  | _ => st
  end.

(** One round of the worker. *)
Definition worker_take st : option (HttpService S) :=
  match h_receiver st, h_current st, h_queue st with
  | true, None, item :: queue => Some (set_work queue (Some item) true st)
  | _, _, _ => None
  end.
Definition worker_answer st : option (HttpService S) :=
  match h_current st with
  | Some (c, request) =>
    let '(store, result) := handle_http_request_in_store call_handle request (h_store st) in
    Some (deliver c (respond result)
      {| h_store := store; h_sender := h_sender st; h_receiver := h_receiver st;
         h_queue := h_queue st; h_current := None; h_conns := h_conns st; h_next := h_next st;
         h_accepting := h_accepting st |})
  | None => None
  end.

Definition no_response : ImagodError :=
  new_error Internal STAGE_RUNTIME "http component worker did not return a response".

(** The worker is dropped with everything it holds. *)
Definition worker_panic st : HttpService S :=
  set_work [] None false
    (set_conns ((λ conn, match conn with
                         | Waiting _ => Answered (runtime_error_response no_response)
                         | conn => conn end) <$> h_conns st) st).

Definition is_waiting (conn : Conn) : bool := match conn with Waiting _ => true | _ => false end.

(** A request in flight holds a sender of the channel. *)
Definition senders_dropped st : bool :=
  negb (h_sender st) && bool_decide (map_Forall (λ _ conn, is_waiting conn = false) (h_conns st)).

Inductive step : HttpService S → HttpService S → Prop :=
  (* the accept loop, holding a permit *)
  | step_accept st :
      h_accepting st = true → (size (h_conns st) < MAX_INBOUND_CONNECTION_HANDLERS)%nat →
      step st (accept st)
  | step_request st c raw :
      h_conns st !! c = Some Reading → step st (begin_request c raw st)
  (* the response is written, the connection times out, or the client is gone *)
  | step_close st c :
      is_Some (h_conns st !! c) → step st (set_conns (delete c (h_conns st)) st)
  | step_take st st' : worker_take st = Some st' → step st st'
  | step_answer st st' : worker_answer st = Some st' → step st st'
  | step_panic st : h_receiver st = true → step st (worker_panic st)
  (* the shutdown signal: the component is unregistered, the ingress aborts its tasks *)
  | step_unregister st :
      step st {| h_store := h_store st; h_sender := false; h_receiver := h_receiver st;
                 h_queue := h_queue st; h_current := h_current st; h_conns := h_conns st;
                 h_next := h_next st; h_accepting := h_accepting st |}
  | step_stop_ingress st :
      step st {| h_store := h_store st; h_sender := h_sender st; h_receiver := h_receiver st;
                 h_queue := h_queue st; h_current := h_current st; h_conns := ∅;
                 h_next := h_next st; h_accepting := false |}
  (* [recv] returns nothing more *)
  | step_worker_end st :
      h_queue st = [] → h_current st = None → senders_dropped st = true →
      step st (set_work [] None false st).

Inductive reachable : HttpService S → Prop :=
  | reach_start store st : register_http_component false store = Ok st → reachable st
  | reach_step st st' : reachable st → step st st' → reachable st'.

(** The items the worker holds, in order. *)
Definition pending st : list (nat * RuntimeHttpRequest) :=
  option_list (h_current st) ++ h_queue st.

Record http_ok st : Prop := {
  ok_conns : (size (h_conns st) ≤ MAX_INBOUND_CONNECTION_HANDLERS)%nat;
  ok_queue : (length (h_queue st) ≤ capacity)%nat;
  ok_bodies : Forall (λ item, zlen (rq_body item.2) ≤ max_http_body_bytes) (pending st);
  ok_fresh c : is_Some (h_conns st !! c) ∨ c ∈ (pending st).*1 → (c < h_next st)%nat;
  ok_once : NoDup (pending st).*1;
  (* a connection waits exactly while its request is pending *)
  ok_waiting c r : h_conns st !! c = Some (Waiting r) → (c, r) ∈ pending st;
  ok_pending c r conn : (c, r) ∈ pending st → h_conns st !! c = Some conn → conn = Waiting r;
  ok_closed : h_receiver st = false → pending st = [];
}.

(** ** The invariant *)

Context (max_ok : 0 < max_http_body_bytes ≤ MAX_HTTP_MAX_BODY_BYTES).
Abbreviation ok := (http_ok).

Lemma read_body_bound frames : ∀ acc body,
  zlen acc ≤ max_http_body_bytes → read_body max_http_body_bytes acc frames = Ok body →
  zlen body ≤ max_http_body_bytes.
Proof.
  induction frames as [|[[data|]|e] frames IH]; intros acc body Hacc; simpl; [by intros [= <-]| |by apply IH|done].
  destruct (Z.ltb_spec max_http_body_bytes (zlen acc +ˢ zlen data)) as [|Hle]; [done|].
  apply IH. unfold zlen, sat_add, u64_max, MAX_HTTP_MAX_BODY_BYTES in *. rewrite length_app. lia.
Qed.
Lemma request_bound raw request :
  into_runtime_http_request raw max_http_body_bytes = Ok request →
  zlen (rq_body request) ≤ max_http_body_bytes.
Proof.
  intros (u & _ & Hr)%bind_Ok. apply bind_Ok in Hr as (body & Hb & [= <-]).
  eapply read_body_bound; [|exact Hb]. unfold zlen. simpl. lia.
Qed.

Lemma ok_start store st : register_http_component false store = Ok st → ok st.
Proof.
  intros [= <-]. split; unfold pending; simpl.
  - rewrite map_size_empty. lia.
  - lia.
  - constructor.
  - intros c [[x Hx]|Hin]; [by apply lookup_empty_Some in Hx|by apply elem_of_nil in Hin].
  - constructor.
  - intros c r Hc. by apply lookup_empty_Some in Hc.
  - intros c r conn Hin. by apply elem_of_nil in Hin.
  - done.
Qed.

(** Connections changed, the work did not. *)
Lemma ok_conns_change st conns next accepting :
  ok st → (size conns ≤ MAX_INBOUND_CONNECTION_HANDLERS)%nat → (h_next st ≤ next)%nat →
  (∀ c conn, conns !! c = Some conn →
     h_conns st !! c = Some conn ∨ (is_waiting conn = false ∧ (c < next)%nat ∧ c ∉ (pending st).*1)) →
  ok {| h_store := h_store st; h_sender := h_sender st; h_receiver := h_receiver st;
        h_queue := h_queue st; h_current := h_current st; h_conns := conns; h_next := next;
        h_accepting := accepting |}.
Proof.
  intros Hok Hsize Hnext Hconns. split; try (by apply Hok); unfold pending; simpl; [done|..].
  - intros c [[conn Hc]|Hin].
    + apply Hconns in Hc as [Hc|(_ & Hlt & _)]; [|done].
      assert (c < h_next st)%nat by (apply (ok_fresh _ Hok); eauto). lia.
    + assert (c < h_next st)%nat by (apply (ok_fresh _ Hok); eauto). lia.
  - intros c r Hc. apply Hconns in Hc as [Hc|(? & _)]; [|done]. by apply Hok.
  - intros c r conn Hin Hc. apply Hconns in Hc as [Hc|(_ & _ & Hn)]; [by eapply Hok|].
    destruct Hn. by apply (list_elem_of_fmap_2 fst) in Hin.
Qed.

Lemma reading_not_pending st c : ok st → h_conns st !! c = Some Reading → c ∉ (pending st).*1.
Proof.
  intros Hok Hc ([c' r] & -> & Hin)%list_elem_of_fmap.
  by pose proof (ok_pending _ Hok _ _ _ Hin Hc).
Qed.

Lemma size_insert_existing (m : gmap nat Conn) c x :
  is_Some (m !! c) → size (<[c := x]> m) = size m.
Proof. intros. by rewrite map_size_insert_Some. Qed.

Lemma ok_answered st c response :
  ok st → h_conns st !! c = Some Reading → ok (set_conn c (Answered response) st).
Proof.
  intros Hok Hc. apply ok_conns_change; [done| |done|].
  - rewrite size_insert_existing by eauto. apply Hok.
  - intros c' conn [[<- <-]|[_ Hc']]%lookup_insert_Some; [right|by left]. split_and!; [done| |].
    + apply (ok_fresh _ Hok). eauto.
    + by apply reading_not_pending.
Qed.

Lemma ok_request st c raw :
  ok st → h_conns st !! c = Some Reading → ok (begin_request c raw st).
Proof.
  intros Hok Hc. unfold begin_request.
  destruct (into_runtime_http_request _ _) as [request|e] eqn:Hreq; [|by apply ok_answered].
  destruct (_ ≫= _) as [st'|e] eqn:Hd; [|by apply ok_answered].
  apply bind_Ok in Hd as (u & _ & Hd). apply bind_Ok in Hd as (u' & Hr%ensure_Ok & Hd).
  apply bind_Ok in Hd as (u'' & Hl%ensure_Ok & [= <-]). apply Nat.ltb_lt in Hl.
  pose proof (reading_not_pending _ _ Hok Hc) as Hn.
  assert (pending (set_conn c (Waiting request)
    (set_work (h_queue st ++ [(c, request)]) (h_current st) (h_receiver st) st)) =
    pending st ++ [(c, request)]) as Hp by (unfold pending; simpl; by rewrite app_assoc).
  split; rewrite ?Hp; simpl.
  - rewrite size_insert_existing by eauto. apply Hok.
  - rewrite length_app. simpl. lia.
  - apply Forall_app. split; [apply Hok|]. repeat constructor. simpl. by eapply request_bound.
  - intros c'. rewrite lookup_insert_is_Some, fmap_app, elem_of_app. simpl.
    rewrite list_elem_of_singleton. intros Hin. apply (ok_fresh _ Hok).
    destruct Hin as [[<-|[_ ?]]|[?| ->]]; eauto.
  - rewrite fmap_app. apply NoDup_app. split_and!; [apply Hok| |by apply NoDup_singleton].
    intros x Hx ->%list_elem_of_singleton. by apply Hn.
  - intros c' r [[<- [= <-]]|[_ Hc']]%lookup_insert_Some; apply elem_of_app; [right; by left|].
    left. by apply Hok.
  - intros c' r conn [Hin|Hin]%elem_of_app Hc'; apply lookup_insert_Some in Hc' as [[<- <-]|[Hne Hc']].
    + destruct Hn. by apply (list_elem_of_fmap_2 fst) in Hin.
    + by eapply Hok.
    + apply list_elem_of_singleton in Hin. by injection Hin as ->.
    + apply list_elem_of_singleton in Hin. by injection Hin as -> _.
  - rewrite Hr. done.
Qed.

Lemma ok_close st c : ok st → ok (set_conns (delete c (h_conns st)) st).
Proof.
  intros Hok. apply ok_conns_change; [done| |done|].
  - etrans; [|apply Hok]. apply map_subseteq_size, delete_subseteq.
  - intros c' conn [_ Hc']%lookup_delete_Some. by left.
Qed.

Lemma worker_take_pending st st' : worker_take st = Some st' →
  pending st' = pending st ∧ h_conns st' = h_conns st ∧ h_next st' = h_next st ∧
  h_receiver st' = true ∧ h_store st' = h_store st ∧ (length (h_queue st') ≤ length (h_queue st))%nat.
Proof.
  unfold worker_take, pending. destruct (h_receiver st); [|done].
  destruct (h_current st); [done|]. destruct (h_queue st); [done|].
  intros [= <-]. simpl. split_and!; try done. lia.
Qed.

Lemma ok_take st st' : ok st → worker_take st = Some st' → ok st'.
Proof.
  intros Hok (Hp & Hc & Hn & Hr & _ & Hl)%worker_take_pending.
  split; rewrite ?Hp, ?Hc, ?Hn, ?Hr; try done; try (by apply Hok). etrans; [done|apply Hok].
Qed.

Lemma ok_answer st st' : ok st → worker_answer st = Some st' → ok st'.
Proof.
  intros Hok. unfold worker_answer. destruct (h_current st) as [[c r]|] eqn:Hcur; [|done].
  destruct (handle_http_request_in_store _ _ _) as [store result]. intros [= <-].
  assert (pending st = (c, r) :: h_queue st) as Hp by (unfold pending; by rewrite Hcur).
  assert (∀ queue', queue' = h_queue st → c ∉ queue'.*1 ∧ NoDup queue'.*1) as Hq.
  { intros queue' ->. pose proof (ok_once _ Hok) as Hnd. rewrite Hp in Hnd.
    by apply NoDup_cons in Hnd. }
  destruct (Hq _ eq_refl) as [Hn Hnd]. pose proof (ok_bodies _ Hok) as Hb. rewrite Hp in Hb.
  apply Forall_cons in Hb as [_ Hb].
  unfold deliver. simpl.
  assert (∀ conns, (size conns ≤ MAX_INBOUND_CONNECTION_HANDLERS)%nat →
    (∀ c' conn, conns !! c' = Some conn →
       (c' ≠ c ∧ h_conns st !! c' = Some conn) ∨
       (c' = c ∧ is_waiting conn = false ∧ is_Some (h_conns st !! c))) →
    ok {| h_store := store; h_sender := h_sender st; h_receiver := h_receiver st;
          h_queue := h_queue st; h_current := None; h_conns := conns; h_next := h_next st;
          h_accepting := h_accepting st |}) as Hset.
  { intros conns Hsize Hconns. split; unfold pending; simpl; try done; [apply Hok|..].
    - intros c' Hc'. apply (ok_fresh _ Hok). rewrite Hp. destruct Hc' as [[conn Hc']|Hin].
      + apply Hconns in Hc' as [[_ ?]|(-> & _ & ?)]; eauto.
      + right. by right.
    - intros c' r' Hc'. apply Hconns in Hc' as [[Hne Hc']|(_ & ? & _)]; [|done].
      apply (ok_waiting _ Hok) in Hc'. rewrite Hp in Hc'. apply elem_of_cons in Hc' as [[= <- _]|?]; done.
    - intros c' r' conn Hin Hc'. apply Hconns in Hc' as [[Hne Hc']|(-> & _)].
      + eapply (ok_pending _ Hok); [|done]. rewrite Hp. by right.
      + destruct Hn. by apply (list_elem_of_fmap_2 fst) in Hin.
    - intros Hr. apply (ok_closed _ Hok) in Hr. by rewrite Hp in Hr. }
  assert (h_conns st !! c = None ∨ h_conns st !! c = Some (Waiting r)) as Hconn.
  { destruct (h_conns st !! c) as [conn|] eqn:Hc; [right|by left]. f_equal.
    eapply (ok_pending _ Hok); [|done]. rewrite Hp. by left. }
  destruct Hconn as [Hc|Hc]; rewrite Hc; apply Hset.
  - apply Hok.
  - intros c' conn Hc'. left. split; [|done]. intros ->. by rewrite Hc in Hc'.
  - simpl. rewrite size_insert_existing by eauto. apply Hok.
  - simpl. intros c' conn [[<- <-]|[Hne Hc']]%lookup_insert_Some; [right; by eauto|left; done].
Qed.

Lemma ok_panic st : ok st → ok (worker_panic st).
Proof.
  intros Hok. split; unfold worker_panic, pending; simpl; try done.
  - rewrite map_size_fmap. apply Hok.
  - lia.
  - intros c [Hc|Hin]; [|by apply elem_of_nil in Hin]. rewrite lookup_fmap, fmap_is_Some in Hc.
    apply (ok_fresh _ Hok). by left.
  - constructor.
  - intros c r. rewrite lookup_fmap. destruct (h_conns st !! c) as [[]|]; by intros [=].
  - intros c r conn Hin. by apply elem_of_nil in Hin.
Qed.

Lemma ok_worker_end st :
  ok st → h_queue st = [] → h_current st = None → senders_dropped st = true →
  ok (set_work [] None false st).
Proof.
  intros Hok Hq Hcur _. assert (pending st = []) as Hp by (unfold pending; by rewrite Hcur, Hq).
  split; unfold pending; simpl; [apply Hok|lia|done| |constructor|..|done].
  - intros c [Hc|Hin]; [|by apply elem_of_nil in Hin]. apply (ok_fresh _ Hok). by left.
  - intros c r Hc. apply (ok_waiting _ Hok) in Hc. by rewrite Hp in Hc.
  - intros c r conn Hin. by apply elem_of_nil in Hin.
Qed.

Lemma ok_step st st' : ok st → step st st' → ok st'.
Proof.
  intros Hok Hstep. destruct Hstep as [st Ha Hs|st c raw Hc|st c Hc|st st' E|st st' E|st Hr|st|st|st Hq Hcur Hsd].
  - apply ok_conns_change; [done| |lia|].
    + rewrite map_size_insert. case_match; simpl; lia.
    + intros c conn [[<- <-]|[_ Hc]]%lookup_insert_Some; [right|by left]. split_and!; [done|lia|].
      intros Hin. assert (h_next st < h_next st)%nat by (apply (ok_fresh _ Hok); by right). lia.
  - by apply ok_request.
  - by apply ok_close.
  - by eapply ok_take.
  - by eapply ok_answer.
  - by apply ok_panic.
  - destruct Hok. by split.
  - apply ok_conns_change; [done| |done|]; [rewrite map_size_empty; lia|].
    intros c conn Hc. by apply lookup_empty_Some in Hc.
  - by apply ok_worker_end.
Qed.

Lemma reachable_http_ok st : reachable st → ok st.
Proof. induction 1 as [store st E|st st' _ IH Hs]; [by eapply ok_start|by eapply ok_step]. Qed.

(** ** Answers *)

Abbreviation handle := (handle_http_request_in_store call_handle).

(** The next pending request is taken and answered. *)
Definition round st : option (HttpService S) :=
  st ← match h_current st with None => worker_take st | Some _ => Some st end;
  worker_answer st.
Fixpoint rounds (n : nat) st : option (HttpService S) :=
  match n with
  | O => Some st
  | Datatypes.S n => st ← round st; rounds n st
  end.

Lemma deliver_conns c response st :
  deliver c response st =
    set_conns (h_conns (deliver c response st)) st ∧
  ∀ c' conn, h_conns (deliver c response st) !! c' = Some conn ↔
    (c' = c ∧ conn = Answered response ∧ ∃ r, h_conns st !! c = Some (Waiting r)) ∨
    (h_conns st !! c' = Some conn ∧ (c' = c → is_waiting conn = false)).
Proof.
  unfold deliver. destruct (h_conns st !! c) as [[|r|resp]|] eqn:Hc; simpl; (split; [by destruct st|]);
    intros c' conn.
  1,3,4: split; [intros Hc'; right; split; [done|]; intros ->; rewrite Hc in Hc'; by simplify_eq|];
    intros [(_ & _ & r & ?)|[? _]]; [congruence|done].
  rewrite lookup_insert_Some. split.
  - intros [[<- <-]|[Hne Hc']]; [left; eauto|right]. split; [done|]. by intros ->.
  - intros [(-> & -> & _)|[Hc' Hw]]; [by left|right]. split; [|done]. intros ->.
    rewrite Hc in Hc'. injection Hc' as <-. by specialize (Hw eq_refl).
Qed.

Lemma answer_next st c r :
  h_current st = Some (c, r) → ∃ st',
  worker_answer st = Some st' ∧ pending st' = h_queue st ∧ h_receiver st' = h_receiver st ∧
  h_sender st' = h_sender st ∧ h_store st' = (handle r (h_store st)).1 ∧
  ∀ c' conn, h_conns st' !! c' = Some conn ↔
    (c' = c ∧ conn = Answered (respond (handle r (h_store st)).2) ∧
     ∃ r', h_conns st !! c = Some (Waiting r')) ∨
    (h_conns st !! c' = Some conn ∧ (c' = c → is_waiting conn = false)).
Proof.
  intros Hcur. unfold worker_answer. rewrite Hcur.
  destruct (handle r (h_store st)) as [store result]. simpl. eexists. split; [done|].
  destruct (deliver_conns c (respond result)
    {| h_store := store; h_sender := h_sender st; h_receiver := h_receiver st;
       h_queue := h_queue st; h_current := None; h_conns := h_conns st; h_next := h_next st;
       h_accepting := h_accepting st |}) as [-> Hconns].
  unfold pending. simpl. done.
Qed.

Lemma round_next st c r rest :
  h_receiver st = true → pending st = (c, r) :: rest →
  ∃ st', round st = Some st' ∧ rtc step st st' ∧ pending st' = rest ∧ h_receiver st' = true ∧
    h_sender st' = h_sender st ∧ h_store st' = (handle r (h_store st)).1 ∧
    ∀ c' conn, h_conns st' !! c' = Some conn ↔
      (c' = c ∧ conn = Answered (respond (handle r (h_store st)).2) ∧
       ∃ r', h_conns st !! c = Some (Waiting r')) ∨
      (h_conns st !! c' = Some conn ∧ (c' = c → is_waiting conn = false)).
Proof.
  intros Hr Hp. unfold round, pending in *. destruct (h_current st) as [item|] eqn:Hcur; simpl in *.
  - injection Hp as -> <-. destruct (answer_next st c r Hcur) as (st' & Ha & Hrest).
    exists st'. rewrite <-Hr. split_and!; try apply Hrest; [done|]. apply rtc_once. by constructor.
  - assert (worker_take st = Some (set_work rest (Some (c, r)) true st)) as Ht
      by (unfold worker_take; by rewrite Hr, Hcur, Hp).
    rewrite Ht. simpl. destruct (answer_next (set_work rest (Some (c, r)) true st) c r eq_refl)
      as (st' & Ha & Hrest).
    exists st'. split_and!; try apply Hrest; [done|].
    eapply rtc_l; [by apply step_take|]. apply rtc_once. by constructor.
Qed.

(** The store after the requests before. *)
Definition store_after (store : S) (items : list (nat * RuntimeHttpRequest)) : S :=
  foldl (λ store item, (handle item.2 store).1) store items.

Lemma pending_answered k : ∀ st c r,
  h_receiver st = true → NoDup (pending st).*1 → pending st !! k = Some (c, r) →
  h_conns st !! c = Some (Waiting r) →
  ∃ st', rounds (Datatypes.S k) st = Some st' ∧ rtc step st st' ∧ pending st' = drop (Datatypes.S k) (pending st) ∧
    h_conns st' !! c =
      Some (Answered (respond (handle r (store_after (h_store st) (take k (pending st)))).2)).
Proof.
  induction k as [|k IH]; intros st c r Hr Hnd Hk Hc;
    destruct (pending st) as [|[c0 r0] rest] eqn:Hp; try done;
    destruct (round_next st c0 r0 rest Hr Hp) as (st1 & Hround & Hsteps & Hp1 & Hr1 & _ & Hst & Hconns).
  - injection Hk as -> ->. exists st1. simpl. rewrite Hround. simpl. split_and!; try done.
    apply Hconns. left. eauto.
  - simpl in Hk, Hnd. apply NoDup_cons in Hnd as [Hn Hnd].
    assert (c ≠ c0) as Hne.
    { intros ->. apply Hn. apply list_elem_of_fmap. exists (c0, r). split; [done|].
      by eapply list_elem_of_lookup_2. }
    destruct (IH st1 c r) as (st' & Hrs & Hsteps' & Hp' & Hans); [done|by rewrite Hp1..|
      apply Hconns; by right|].
    exists st'. split_and!.
    + cbn [rounds]. rewrite Hround. exact Hrs.
    + by etrans.
    + by rewrite Hp', Hp1.
    + rewrite Hans, Hp1, Hst. done.
Qed.

(** A connection that waits goes on waiting, ends, or gets the answer to its request. *)
Lemma step_answers st st' c r :
  ok st → step st st' → h_conns st !! c = Some (Waiting r) →
  h_conns st' !! c = Some (Waiting r) ∨ h_conns st' !! c = None ∨
  (h_current st = Some (c, r) ∧
   h_conns st' !! c = Some (Answered (respond (handle r (h_store st)).2))) ∨
  (h_receiver st' = false ∧ h_conns st' !! c = Some (Answered (runtime_error_response no_response))).
Proof.
  intros Hok Hstep Hc.
  destruct Hstep as [st Ha Hs|st c' raw Hc'|st c' Hc'|st st' E|st st' E|st Hr|st|st|st Hq Hcur Hsd];
    simpl; auto.
  - left. rewrite lookup_insert_ne; [done|]. intros <-.
    assert (h_next st < h_next st)%nat by (apply (ok_fresh _ Hok); eauto). lia.
  - left. unfold begin_request.
    assert (c' ≠ c) as Hne by (intros ->; congruence).
    repeat case_match; simpl; rewrite lookup_insert_ne; try done.
    match goal with Hd : _ ≫= _ = Ok _ |- _ => apply bind_Ok in Hd as (? & _ & Hd);
      apply bind_Ok in Hd as (? & _ & Hd); by apply bind_Ok in Hd as (? & _ & [= <-]) end.
  - destruct (decide (c' = c)) as [->|]; [right; left|left]; by simplify_map_eq.
  - apply worker_take_pending in E as (_ & -> & _). by left.
  - destruct (h_current st) as [[c' r']|] eqn:Hcur; [|by unfold worker_answer in E; rewrite Hcur in E].
    destruct (answer_next st c' r' Hcur) as (st1 & E1 & _ & _ & _ & _ & Hconns).
    rewrite E in E1. injection E1 as <-.
    destruct (decide (c' = c)) as [->|Hne]; [|left; apply Hconns; by right].
    assert (Waiting r = Waiting r') as [= <-].
    { eapply (ok_pending _ Hok); [|done]. unfold pending. rewrite Hcur. by left. }
    right; right; left. split; [done|]. apply Hconns. left. eauto.
  - right; right; right. split; [done|]. by rewrite lookup_fmap, Hc.
Qed.

Lemma drained st : h_receiver st = true →
  ∃ st', rtc step st st' ∧ pending st' = [] ∧ h_receiver st' = true ∧ h_sender st' = h_sender st ∧
    ∀ c conn, h_conns st' !! c = Some conn → is_Some (h_conns st !! c).
Proof.
  remember (pending st) as items eqn:Hp. symmetry in Hp. revert st Hp.
  induction items as [|[c r] rest IH]; intros st Hp Hr; [by exists st|].
  destruct (round_next st c r rest Hr Hp) as (st1 & _ & Hsteps & Hp1 & Hr1 & Hs1 & _ & Hconns).
  destruct (IH st1 Hp1 Hr1) as (st' & Hsteps' & Hp' & Hr' & Hs' & Hc').
  exists st'. split_and!; try done; [by etrans|by rewrite Hs'|].
  intros c' conn [conn' Hc1]%Hc'. apply Hconns in Hc1 as [(-> & _ & r' & ?)|[? _]]; eauto.
Qed.

(** C31 (liveness). An HTTP service answers the requests it takes.  In every reachable state at most 32
    connections are handled, the queue holds at most its capacity and no body is larger than
    the limit; a connection waits exactly while its request is queued or being handled.  A
    waiting connection either ends by itself or gets the component's response to its own
    request; only when the worker panics it gets an error.  As long as the worker lives, the
    request at position [k] is answered after [k + 1] rounds of the worker, by the component
    in the state the requests before it left.  And when the service is shut down and the
    connections are gone, the worker comes to its end. *)
Theorem http_requests_answered st (Hreach : reachable st) :
  ((size (h_conns st) ≤ MAX_INBOUND_CONNECTION_HANDLERS)%nat ∧
   (length (h_queue st) ≤ capacity)%nat ∧
   Forall (λ item, zlen (rq_body item.2) ≤ max_http_body_bytes) (pending st)) ∧
  (∀ c r, h_conns st !! c = Some (Waiting r) →
     (c, r) ∈ pending st ∧
     (∀ st', step st st' →
        h_conns st' !! c = Some (Waiting r) ∨ h_conns st' !! c = None ∨
        h_conns st' !! c = Some (Answered (respond (handle r (h_store st)).2)) ∨
        (h_receiver st' = false ∧
         h_conns st' !! c = Some (Answered (runtime_error_response no_response)))) ∧
     ∀ k, h_receiver st = true → pending st !! k = Some (c, r) → ∃ st',
       rounds (Datatypes.S k) st = Some st' ∧ rtc step st st' ∧
       h_conns st' !! c =
         Some (Answered (respond (handle r (store_after (h_store st) (take k (pending st)))).2))) ∧
  (h_receiver st = true → h_sender st = false → h_conns st = ∅ →
     ∃ st', rtc step st st' ∧ h_receiver st' = false).
Proof.
  pose proof (reachable_http_ok st Hreach) as Hok. split_and!; try apply Hok.
  - intros c r Hc. split_and!; [by apply Hok| |].
    + intros st' Hs. destruct (step_answers st st' c r Hok Hs Hc) as [?|[?|[[_ ?]|?]]]; auto.
    + intros k Hr Hk. destruct (pending_answered k st c r Hr (ok_once _ Hok) Hk Hc)
        as (st' & ? & ? & _ & ?). eauto.
  - intros Hr Hs Hc. destruct (drained st Hr) as (st' & Hsteps & Hp & _ & Hs' & Hcs).
    assert (h_conns st' = ∅) as Hempty.
    { apply map_empty. intros c. destruct (h_conns st' !! c) eqn:E; [|done].
      apply Hcs in E. rewrite Hc in E. by destruct E. }
    unfold pending in Hp. apply app_eq_nil in Hp as [Hcur Hq].
    exists (set_work [] None false st'). split; [|done]. eapply rtc_r; [done|].
    apply step_worker_end; [done|by destruct (h_current st')|].
    unfold senders_dropped. rewrite Hs', Hs, Hempty. simpl. by apply bool_decide_true, map_Forall_empty.
Qed.

End service.

(** ** A service that counts *)

Module HttpDemo.

#[local] Instance hyper : Hyper := {
  header_to_str bytes := Ok (string_of_bytes bytes);
  header_name_from_bytes := Ok;
  header_value_from_bytes := Ok;
  method_from_bytes := Ok;
  parse_uri := Ok;
}.
Definition count (request : HyperRequest) (n : nat) : nat * Handled :=
  (S n, Ok (Some (Ok {| og_status := 200; og_headers := [];
                        og_frames := [Ok (DataFrame (bytes_of (to_string (Z.of_nat n))))] |}))).
Definition get (path : string) : HyperRequest :=
  {| hq_method := "GET"; hq_uri := path; hq_headers := []; hq_frames := [] |}.
Definition request (path : string) : RuntimeHttpRequest :=
  {| rq_method := "GET"; rq_uri := path; rq_headers := []; rq_body := [] |}.
(** Two connections, with a request each. *)
Definition start : HttpService nat :=
  {| h_store := 0%nat; h_sender := true; h_receiver := true; h_queue := []; h_current := None;
     h_conns := ∅; h_next := 0; h_accepting := true |}.
Definition queued : HttpService nat :=
  begin_request 1024 8 1 (get "/b") (accept (begin_request 1024 8 0 (get "/a") (accept start))).

Lemma queued_reachable : reachable count 1024 8 queued.
Proof.
  eapply reach_step; [eapply reach_step; [eapply reach_step; [eapply reach_step; [
    by eapply (reach_start _ _ _ 0%nat start)|]|]|]|].
  - apply step_accept; [done|vm_compute; lia].
  - apply (step_request _ _ _ _ 0%nat (get "/a")). vm_compute. reflexivity.
  - apply step_accept; [done|vm_compute; lia].
  - apply (step_request _ _ _ _ 1%nat (get "/b")). vm_compute. reflexivity.
Qed.

Lemma http_requests_answered_witness :
  ∃ st', rtc (step count 1024 8) queued st' ∧
    h_conns st' !! 1%nat =
      Some (Answered {| hr_status := 200; hr_headers := []; hr_body := bytes_of "1" |}).
Proof.
  destruct (http_requests_answered count 1024 8 ltac:(vm_compute; intuition congruence) queued
    queued_reachable) as (_ & Hconns & _).
  destruct (Hconns 1%nat (request "/b") eq_refl) as (_ & _ & Hk).
  destruct (Hk 1%nat eq_refl eq_refl) as (st' & _ & Hsteps & Hans).
  exists st'. split; [exact Hsteps|exact Hans].
Defined.

End HttpDemo.
