(* ===== verification/Client.v ===== *)
(** * The deploying client

    The upload of [imago deploy] ([imago-cli/src/commands/deploy/mod.rs]): what is requested
    from the node, in which chunks the artifact is sent, and how failures are retried; composed
    with the node's own [deploy.prepare], [artifact.push] and [artifact.commit] of
    [ArtifactStore] and its [hello.negotiate] of [Session].

    The connection is a parameter: for every use of it, a number, what happens to the request
    and its response.  The clock of the node and the UUIDs it draws are functions of the same
    number.  An error keeps the text of its cause; the contexts added to it repeat that text.

    Shown: when the client reports success, the node holds the artifact, verified, under the
    reported id; it fails only because of the connection; and with at most three failures of
    the connection, whichever they are, it succeeds. *)

From S2P Require Import Prelude Protocol ByteRanges Files ArtifactStore ArtifactLts ArtifactTheorems ArtifactUpload ArtifactResume Text Session.

Open Scope Z_scope.

Definition DEFAULT_CHUNK_SIZE : Z := 1024 * 1024.
Definition DEFAULT_MAX_INFLIGHT_CHUNKS : Z := 16.
Definition DEFAULT_DEPLOY_STREAM_TIMEOUT_SECS : Z := 30.
Definition UPLOAD_MAX_ATTEMPTS : nat := 4.
Definition DEPLOY_STREAM_MAX_ATTEMPTS : nat := 3.
Definition UPLOAD_RETRY_BASE_BACKOFF_MS : Z := 250.
Definition UPLOAD_RETRY_MAX_BACKOFF_MS : Z := 1000.

Inductive UploadError :=
  | ServerResponseError (error : StructuredError)
  | CommitNotVerifiedError
  | Failure (cause : string).

Abbreviation uresult := (result UploadError).

(** ** Limits *)

Record UploadLimits := {
  ul_chunk_size : Z;
  ul_max_inflight_chunks : Z;
  ul_deploy_stream_timeout_secs : Z;
}.

Definition parse_positive_limit (limits : StringMap) (key : string) (default : Z) (label : string)
    : uresult Z :=
  match limits !! key with
  | Some raw =>
    parsed ← map_err Failure (parse_uint u64_max raw);
    _ ← ensure (negb (parsed =? 0)) (Failure (label +:+ " must be greater than 0"));
    Ok parsed
  | None => Ok default
  end.

Definition parse_upload_limits (response : HelloNegotiateResponse) : uresult UploadLimits :=
  chunk_size ← parse_positive_limit (hr_limits response) "chunk_size" DEFAULT_CHUNK_SIZE
    "hello.negotiate response chunk_size";
  max_inflight_chunks ← parse_positive_limit (hr_limits response) "max_inflight_chunks"
    DEFAULT_MAX_INFLIGHT_CHUNKS "hello.negotiate response max_inflight_chunks";
  timeout ← parse_positive_limit (hr_limits response) "deploy_stream_timeout_secs"
    DEFAULT_DEPLOY_STREAM_TIMEOUT_SECS "hello.negotiate response deploy_stream_timeout_secs";
  Ok {| ul_chunk_size := chunk_size; ul_max_inflight_chunks := max_inflight_chunks;
        ul_deploy_stream_timeout_secs := timeout |}.

Section compatibility.
Context `{Semver} (version_error : string → string).

Definition hello_rejection_message (response : HelloNegotiateResponse) : string :=
  match hr_compatibility_announcement response with
  | Some announcement =>
    if is_blank announcement then
      "hello.negotiate was rejected by server (server_protocol_version=" +:+
        hr_server_protocol_version response +:+ ", supported_protocol_version_range=" +:+
        hr_supported_protocol_version_range response +:+ ")"
    else announcement
  | None =>
    "hello.negotiate was rejected by server (server_protocol_version=" +:+
      hr_server_protocol_version response +:+ ", supported_protocol_version_range=" +:+
      hr_supported_protocol_version_range response +:+ ")"
  end.

Definition ensure_server_protocol_version_supported (response : HelloNegotiateResponse)
    : uresult unit :=
  supported_range ← map_err (λ err, Failure ("invalid client supported protocol range '" +:+
    SUPPORTED_PROTOCOL_VERSION_RANGE +:+ "': " +:+ err))
    (version_req_parse SUPPORTED_PROTOCOL_VERSION_RANGE);
  version ← ok_or (version_parse (hr_server_protocol_version response))
    (Failure ("server_protocol_version '" +:+ hr_server_protocol_version response +:+
       "' is not valid semver: " +:+ version_error (hr_server_protocol_version response)));
  ensure (version_matches supported_range version)
    (Failure ("server protocol version '" +:+ hr_server_protocol_version response +:+
       "' is not supported by this client (client supports '" +:+
       SUPPORTED_PROTOCOL_VERSION_RANGE +:+ "')")).

Definition ensure_hello_protocol_compatibility (response : HelloNegotiateResponse) : uresult unit :=
  _ ← ensure (hr_accepted response) (Failure (hello_rejection_message response));
  ensure_server_protocol_version_supported response.
End compatibility.

(** ** What is sent *)

Definition upload_ranges_for_prepare (status : ArtifactStatus) (missing_ranges : list ByteRange)
    (artifact_size : Z) : uresult (list ByteRange) :=
  match status with
  | Complete => Ok []
  | Missing => Ok [{| offset := 0; range_length := artifact_size |}]
  | Partial =>
    _ ← ensure (negb (bool_decide (missing_ranges = [])))
          (Failure "server reported artifact_status=partial but missing_ranges is empty");
    Ok missing_ranges
  end.

(** The loop over one range; as many rounds as it has bytes are enough. *)
Fixpoint chunk_range (fuel : nat) (cursor range_end chunk_size : Z) : list (Z * Z) :=
  match fuel with
  | O => []
  | S fuel =>
    if cursor <? range_end then
      let chunk_len := Z.min (range_end - cursor) chunk_size in
      (cursor, chunk_len) :: chunk_range fuel (cursor +ˢ chunk_len) range_end chunk_size
    else []
  end.

Definition plan_range (artifact_size chunk_size : Z) (range : ByteRange) : uresult (list (Z * Z)) :=
  _ ← ensure (negb (range_length range =? 0))
        (Failure "missing range length must be greater than 0");
  range_end ← ok_or (checked_add (offset range) (range_length range))
                (Failure "missing range overflow: offset+length");
  _ ← ensure (range_end <=? artifact_size)
        (Failure ("missing range is outside artifact size: end=" +:+ to_string range_end +:+
           " artifact_size=" +:+ to_string artifact_size));
  Ok (chunk_range (Z.to_nat (range_length range)) (offset range) range_end chunk_size).

Definition build_upload_chunk_plan (ranges : list ByteRange) (artifact_size chunk_size : Z)
    : uresult (list (Z * Z)) :=
  _ ← ensure (negb (chunk_size =? 0)) (Failure "chunk_size must be greater than 0");
  chunks ← try_map (plan_range artifact_size chunk_size) ranges;
  Ok (concat chunks).

(** ** Retries *)

Definition is_non_retryable_error_code (code : ErrorCode) : bool :=
  match code with
  | Unauthorized | BadRequest | BadManifest | IdempotencyConflict | RangeInvalid
  | ChunkHashMismatch | StorageQuota | PreconditionFailed => true
  | _ => false
  end.
Definition contains_unauthorized_marker (cause : string) : bool := str_contains "E_UNAUTHORIZED" cause.

Definition should_retry_upload_error (err : UploadError) : bool :=
  match err with
  | CommitNotVerifiedError => false
  | ServerResponseError error =>
    if is_non_retryable_error_code (se_code error) then false
    else if decide (se_code error = Busy) then true
    else se_retryable error
  | Failure cause => negb (contains_unauthorized_marker cause)
  end.

Definition retry_backoff_ms (retry_index : nat) : Z :=
  let shift := Z.min (Z.of_nat (retry_index - 1)) 8 in
  Z.min (Z.min (UPLOAD_RETRY_BASE_BACKOFF_MS * Z.shiftl 1 shift) u64_max)
    UPLOAD_RETRY_MAX_BACKOFF_MS.

(** ** The connection *)

Inductive Fault :=
  | Delivered
  | RequestLost (e : string)
  | ResponseLost (e : string)
  (* a response that cannot be decoded *)
  | Garbled (e : string).

Record Wire := { w_node : Node; w_tick : nat }.

Definition client (A : Type) : Type := Wire → Wire * uresult A.
#[export] Instance client_ret : MRet client := λ A a w, (w, Ok a).
#[export] Instance client_bind : MBind client := λ A B f m w,
  let '(w, r) := m w in
  match r with Ok a => f a w | Err e => (w, Err e) end.
Definition lift {A} (r : uresult A) : client A := λ w, (w, r).

Section upload.
Context `{Crates} `{Semver} (version_error : string → string).
Context (cfg : StoreConfig) (hello : HandlerConfig) (auth : SessionAuthContext).
Context (fault : nat → Fault) (now now_after_io : nat → Z) (uuids : nat → Uuid * Uuid).
(** The artifact and the request for it. *)
Context (data : list byte) (q : DeployPrepareRequest).

(** [request_events_with_retry_policy_framed] and [response_payload]: [more] attempts follow a
    failed one. *)
Fixpoint exchange {A} (op : nat → Node → Node * iresult A) (more : nat) : client A := λ w,
  let k := w_tick w in
  let again (n : Node) (e : string) :=
    let w := {| w_node := n; w_tick := S k |} in
    match more with
    | O => (w, Err (Failure e))
    | S more => exchange op more w
    end in
  match fault k with
  | RequestLost e => again (w_node w) e
  | ResponseLost e => again (op k (w_node w)).1 e
  | Garbled e => ({| w_node := (op k (w_node w)).1; w_tick := S k |}, Err (Failure e))
  | Delivered =>
    let '(n, r) := op k (w_node w) in
    ({| w_node := n; w_tick := S k |}, map_err (λ e, ServerResponseError (to_structured e)) r)
  end.
Definition request {A} (op : nat → Node → Node * iresult A) : client A :=
  exchange op (DEPLOY_STREAM_MAX_ATTEMPTS - 1).

(** The handlers of the node. *)
Definition validated {T A} `{Validate T} (stage : string) (payload : T)
    (op : Node → Node * iresult A) (n : Node) : Node * iresult A :=
  match validate payload with
  | Err e => (n, Err (bad_request stage (ve_to_string e)))
  | Ok _ => op n
  end.
Definition hello_request : HelloNegotiateRequest :=
  {| hq_client_version := PROTOCOL_VERSION;
     hq_required_features :=
       ["deploy.prepare"; "artifact.push"; "artifact.commit"; "command.start"; "command.event"] |}.
Definition serve_hello (k : nat) : Node → Node * iresult HelloNegotiateResponse :=
  validated "hello.negotiate" hello_request
    (λ n, (n, Ok (hello_response hello auth (hq_client_version hello_request)))).
Definition serve_prepare (k : nat) : Node → Node * iresult DeployPrepareResponse :=
  validated "deploy.prepare" q (prepare cfg q (now k) (now_after_io k) (uuids k).1 (uuids k).2).
Definition serve_push (request : ArtifactPushRequest) (k : nat) : Node → Node * iresult ArtifactPushAck :=
  validated "artifact.push" request (push cfg request (now k)).
Definition serve_commit (request : ArtifactCommitRequest) (k : nat)
    : Node → Node * iresult ArtifactCommitResponse :=
  validated "artifact.commit" request (commit cfg request (now k)).

(** ** The phases *)

Definition connect : client unit := λ w,
  ({| w_node := w_node w; w_tick := S (w_tick w) |},
   match fault (w_tick w) with
   | Delivered => Ok ()
   | RequestLost e | ResponseLost e | Garbled e => Err (Failure e)
   end).

(** [seek] and [read_exact] on the bundle. *)
Definition read_chunk (off len : Z) : uresult (list byte) :=
  _ ← ensure (off + len <=? zlen data) (Failure "failed to read artifact bundle chunk");
  Ok (take (Z.to_nat len) (drop (Z.to_nat off) data)).

Definition push_single_artifact_chunk (deploy_id upload_token : string) (off : Z) (chunk : list byte)
    : client unit :=
  _ ← request (serve_push
        {| pq_header := {| ch_deploy_id := deploy_id; ch_offset := off; ch_length := zlen chunk;
                           ch_chunk_sha256 := sha256_hex chunk; ch_upload_token := upload_token |};
           pq_chunk := chunk |});
  mret ().

(** One chunk is in flight at a time. *)
Fixpoint push_chunks (deploy_id upload_token : string) (plan : list (Z * Z)) : client unit :=
  match plan with
  | [] => mret ()
  | (off, len) :: plan =>
    chunk ← lift (read_chunk off len);
    _ ← push_single_artifact_chunk deploy_id upload_token off chunk;
    push_chunks deploy_id upload_token plan
  end.
Definition push_artifact_ranges (deploy_id upload_token : string) (ranges : list ByteRange)
    (limits : UploadLimits) : client unit :=
  plan ← lift (build_upload_chunk_plan ranges (dp_artifact_size q) (ul_chunk_size limits));
  push_chunks deploy_id upload_token plan.

Definition run_upload_phase_once : client string :=
  _ ← connect;
  hello_response ← request serve_hello;
  _ ← lift (ensure_hello_protocol_compatibility version_error hello_response);
  upload_limits ← lift (parse_upload_limits hello_response);
  prepare_response ← request serve_prepare;
  upload_ranges ← lift (upload_ranges_for_prepare (dr_artifact_status prepare_response)
                          (dr_missing_ranges prepare_response) (dp_artifact_size q));
  _ ← (if bool_decide (upload_ranges = []) then mret ()
       else push_artifact_ranges (dr_deploy_id prepare_response) (dr_upload_token prepare_response)
              upload_ranges upload_limits);
  commit_response ← request (serve_commit (commit_request q (dr_deploy_id prepare_response)));
  _ ← lift (ensure (cr_verified commit_response) CommitNotVerifiedError);
  mret (dr_deploy_id prepare_response).

(** The attempts, of which [more] are left after this one. *)
Fixpoint upload_attempts (more : nat) : client string := λ w,
  let '(w, r) := run_upload_phase_once w in
  match r with
  | Ok deploy_id => (w, Ok deploy_id)
  | Err err =>
    match more with
    | O => (w, Err err)
    | S more => if should_retry_upload_error err then upload_attempts more w else (w, Err err)
    end
  end.
Definition run_upload_phase_with_resume : client string := upload_attempts (UPLOAD_MAX_ATTEMPTS - 1).

End upload.

(** ** The chunk plan *)

Definition chunk_of (c : Z * Z) : ByteRange := {| offset := c.1; range_length := c.2 |}.

(** The first chunk ends before the second starts. *)
Definition chunk_before (a b : Z * Z) : Prop := a.1 + a.2 <= b.1.

Lemma chunk_range_spec chunk_size range_end fuel : ∀ cursor,
  0 < chunk_size → 0 <= cursor → range_end <= u64_max →
  range_end - cursor <= Z.of_nat fuel →
  let plan := chunk_range fuel cursor range_end chunk_size in
  Forall (λ c, cursor <= c.1 ∧ 0 < c.2 <= chunk_size ∧ c.1 + c.2 <= range_end) plan ∧
  StronglySorted chunk_before plan ∧
  ∀ x, covers (chunk_of <$> plan) x ↔ cursor <= x < range_end.
Proof.
  induction fuel as [|fuel IH]; intros cursor Hc H0 Hend Hfuel; simpl.
  { split_and!; [constructor..|]. intros x. rewrite covers_nil. lia. }
  destruct (Z.ltb_spec cursor range_end) as [Hlt|Hge].
  2: { split_and!; [constructor..|]. intros x. simpl. rewrite covers_nil. lia. }
  set (len := Z.min (range_end - cursor) chunk_size).
  assert (cursor +ˢ len = cursor + len) as -> by (unfold len; ulia).
  destruct (IH (cursor + len)) as (Hall & Hsort & Hcov); [unfold len; lia..|].
  split_and!.
  - constructor; [simpl; unfold len; lia|]. eapply Forall_impl; [exact Hall|].
    simpl.
    unfold len. lia.
  - constructor; [done|]. eapply Forall_impl; [exact Hall|].
    intros c (? & _). unfold chunk_before. simpl. lia.
  - intros x. csimpl. rewrite covers_cons, Hcov. unfold ByteRanges.in_range, chunk_of. simpl.
    unfold len. lia.
Qed.

Section plan.
Context (size chunk_size : Z).
Hypothesis (Hsize : 0 < size <= u64_max) (Hchunk : 0 < chunk_size).

Definition plan_of (r : ByteRange) : list (Z * Z) :=
  chunk_range (Z.to_nat (range_length r)) (offset r) (offset r + range_length r) chunk_size.

Lemma plan_range_Ok r :
  valid_range size r → plan_range size chunk_size r = Ok (plan_of r).
Proof using Hsize.
  intros (Ho & Hl & He). unfold plan_range. rewrite (proj2 (Z.eqb_neq _ _)) by lia. simpl.
  unfold checked_add. rewrite (proj2 (Z.leb_le _ _)) by lia. simpl.
  by rewrite (proj2 (Z.leb_le _ _)) by lia.
Qed.

Lemma plan_of_spec r :
  valid_range size r →
  Forall (λ c, offset r <= c.1 ∧ 0 < c.2 <= chunk_size ∧ c.1 + c.2 <= offset r + range_length r)
    (plan_of r) ∧
  StronglySorted chunk_before (plan_of r) ∧
  ∀ x, covers (chunk_of <$> plan_of r) x ↔ ByteRanges.in_range r x.
Proof using All. intros (Ho & Hl & He). apply chunk_range_spec; lia. Qed.

(** The plan: chunks the node accepts, in order and disjoint, that are exactly the ranges. *)
Lemma build_plan_spec ranges :
  wf_ranges size ranges →
  ∃ plan, build_upload_chunk_plan ranges size chunk_size = Ok plan ∧
    Forall (λ c, valid_range size (chunk_of c) ∧ c.2 <= chunk_size) plan ∧
    StronglySorted chunk_before plan ∧
    ∀ x, covers (chunk_of <$> plan) x ↔ covers ranges x.
Proof using All.
  intros [Hsort Hv]. exists (concat (plan_of <$> ranges)). unfold build_upload_chunk_plan.
  rewrite (proj2 (Z.eqb_neq _ _)) by lia. simpl.
  assert (try_map (plan_range size chunk_size) ranges = Ok (plan_of <$> ranges)) as ->.
  { clear Hsort. induction Hv as [|r rs Hr _ IH]; [done|]. simpl.
    by rewrite plan_range_Ok, IH. }
  split; [done|]. induction Hv as [|r rs Hr Hrs IH]; csimpl.
  { split_and!; [constructor..|done]. }
  inversion_clear Hsort as [|?? Hsort' Hbefore]. destruct (IH Hsort') as (Hall & Hs & Hc).
  destruct (plan_of_spec r Hr) as (Hall1 & Hs1 & Hc1). split_and!.
  - apply Forall_app. split; [|done]. eapply Forall_impl; [exact Hall1|].
    destruct Hr as (? & ? & ?). unfold valid_range. simpl. lia.
  - apply StronglySorted_app_2; [|done|done]. intros a b Ha Hb.
    rewrite Forall_forall in Hall1. destruct (Hall1 _ Ha) as (_ & _ & Hend).
    assert (covers (chunk_of <$> concat (plan_of <$> rs)) b.1) as Hcov.
    { apply covers_elem. exists (chunk_of b). split; [by apply list_elem_of_fmap_2|].
      rewrite Forall_forall in Hall. destruct (Hall _ Hb) as [(_ & ? & _) _].
      unfold ByteRanges.in_range. simpl in *. lia. }
    apply Hc in Hcov. apply covers_elem in Hcov as (r' & Hr' & Hin).
    rewrite Forall_forall in Hbefore. specialize (Hbefore _ Hr').
    unfold chunk_before, before, ByteRanges.in_range in *. lia.
  - intros x. rewrite fmap_app, covers_app, covers_cons, Hc1, Hc. done.
Qed.
End plan.

(** ** The negotiation *)

(** The version this client speaks is one the node supports, and the other way round. *)
Definition versions_agree `{Semver} : Prop :=
  ∃ range version, version_req_parse SUPPORTED_PROTOCOL_VERSION_RANGE = Ok range ∧
    version_parse PROTOCOL_VERSION = Some version ∧ version_matches range version = true.

Record limits_ok (cfg : StoreConfig) (hello : HandlerConfig) : Prop := {
  lo_chunk : 0 < hc_chunk_size hello <= max_chunk_size cfg ∧ hc_chunk_size hello <= u64_max;
  lo_inflight : 0 < hc_max_inflight_chunks hello <= u64_max;
  lo_timeout : 0 < hc_deploy_stream_timeout_secs hello <= u64_max;
  lo_store : 0 < max_inflight_chunks cfg;
}.

Lemma parse_positive_limit_Ok limits key default label z :
  limits !! key = Some (to_string z) → 0 < z <= u64_max →
  parse_positive_limit limits key default label = Ok z.
Proof.
  intros Hk Hz. unfold parse_positive_limit. rewrite Hk, parse_uint_to_string by lia. simpl.
  by rewrite (proj2 (Z.eqb_neq _ _)) by lia.
Qed.

Lemma hello_accepted `{Semver} version_error cfg hello auth :
  versions_agree → limits_ok cfg hello →
  let response := hello_response hello auth PROTOCOL_VERSION in
  ensure_hello_protocol_compatibility version_error response = Ok tt ∧
  parse_upload_limits response = Ok
    {| ul_chunk_size := hc_chunk_size hello;
       ul_max_inflight_chunks := hc_max_inflight_chunks hello;
       ul_deploy_stream_timeout_secs := hc_deploy_stream_timeout_secs hello |}.
Proof.
  intros (range & version & Hr & Hv & Hm) [[] ? ? _]. simpl. split.
  - unfold ensure_hello_protocol_compatibility, hello_response. simpl.
    unfold protocol_compatibility_announcement. rewrite Hr, Hv, Hm. simpl.
    unfold ensure_server_protocol_version_supported. simpl. by rewrite Hr, Hv; simpl; rewrite Hm.
  - unfold parse_upload_limits, hello_response. simpl.
    rewrite (parse_positive_limit_Ok _ "chunk_size" _ _ (hc_chunk_size hello))
      by (reflexivity || lia). simpl.
    rewrite (parse_positive_limit_Ok _ "max_inflight_chunks" _ _ (hc_max_inflight_chunks hello))
      by (reflexivity || lia). simpl.
    by rewrite (parse_positive_limit_Ok _ "deploy_stream_timeout_secs" _ _
      (hc_deploy_stream_timeout_secs hello)) by (reflexivity || lia).
Qed.

(** ** Running the client *)

Definition fault_text (f : Fault) : option string :=
  match f with
  | Delivered => None
  | RequestLost e | ResponseLost e | Garbled e => Some e
  end.

Section runs.
Context (fault : nat → Fault) (safe : Node → Prop).

(** The error is a failure of the connection between the two states. *)
Definition failed (w w' : Wire) (e : UploadError) : Prop :=
  ∃ k text, (w_tick w <= k < w_tick w')%nat ∧ fault_text (fault k) = Some text ∧ e = Failure text.

(** From a node in [I] the client succeeds in [J], or the connection failed and the node is
    [safe]. *)
Definition runs {A} (I : Node → Prop) (m : client A) (J : A → Node → Prop) : Prop :=
  ∀ w, I (w_node w) →
    let '(w', r) := m w in
    (w_tick w <= w_tick w')%nat ∧
    match r with
    | Ok a => J a (w_node w')
    | Err e => safe (w_node w') ∧ failed w w' e
    end.

Lemma failed_before w0 w w' e : (w_tick w0 <= w_tick w)%nat → failed w w' e → failed w0 w' e.
Proof. intros Hle (k & text & Hk & ?). exists k, text. split; [lia|done]. Qed.

Lemma runs_ret {A} (I : Node → Prop) (a : A) (J : A → Node → Prop) :
  (∀ n, I n → J a n) → runs I (mret a) J.
Proof. intros HJ w Hw. split; [done|by apply HJ]. Qed.

Lemma runs_bind {A B} I (m : client A) (f : A → client B) J K :
  runs I m J → (∀ a, runs (J a) (f a) K) → runs I (m ≫= f) K.
Proof.
  intros Hm Hf w Hw. specialize (Hm w Hw). unfold mbind, client_bind.
  destruct (m w) as [w1 [a|e]], Hm as [Ht Hr]; [|done].
  specialize (Hf a w1 Hr). destruct (f a w1) as [w2 [b|e]], Hf as [Ht2 Hr2].
  - split; [lia|done].
  - split; [lia|]. destruct Hr2 as [? ?]. split; [done|]. by eapply failed_before.
Qed.

Lemma runs_lift {A B} I (r : uresult A) a (f : A → client B) K :
  r = Ok a → runs I (f a) K → runs I (lift r ≫= f) K.
Proof. intros -> Hf w Hw. by apply Hf. Qed.

Lemma runs_pre {A} I (m : client A) J :
  (∀ n, I n → runs (λ n', n' = n) m J) → runs I m J.
Proof. intros Hm w Hw. by apply (Hm _ Hw). Qed.

Lemma runs_weaken {A} (I I' : Node → Prop) (m : client A) J :
  (∀ n, I n → I' n) → runs I' m J → runs I m J.
Proof. intros HI Hm w Hw. by apply Hm, HI. Qed.

Lemma runs_post {A} I (m : client A) (J J' : A → Node → Prop) :
  runs I m J → (∀ a n, J a n → J' a n) → runs I m J'.
Proof.
  intros Hm HJ w Hw. specialize (Hm w Hw). destruct (m w) as [w' [a|e]], Hm; [|done].
  split; [done|by apply HJ].
Qed.

Lemma runs_connect I : (∀ n, I n → safe n) → runs I (connect fault) (λ _, I).
Proof.
  intros Hs w Hw. unfold connect. simpl. split; [lia|].
  destruct (fault (w_tick w)) eqn:E; [done|..];
    (split; [by apply Hs|]; exists (w_tick w); simpl; rewrite E; eexists; split; [lia|done]).
Qed.

(** An exchange that the node answers, however often it is repeated. *)
Lemma runs_request {A} (op : nat → Node → Node * iresult A) I J :
  (∀ n, I n → safe n) →
  (∀ k n, I n → ∃ n' a, op k n = (n', Ok a) ∧ I n' ∧ J a n') →
  runs I (request fault op) J.
Proof.
  intros Hs Hop. unfold request. generalize (DEPLOY_STREAM_MAX_ATTEMPTS - 1)%nat as more.
  induction more as [|more IH]; intros w Hw; simpl;
    destruct (Hop (w_tick w) _ Hw) as (n' & a & E & HI & HJ); rewrite E;
    destruct (fault (w_tick w)) eqn:F; simpl.
  all: try (split; [lia|done]).
  all: try (split; [lia|]; split; [by apply Hs|]; exists (w_tick w); simpl; rewrite F;
            eexists; split; [lia|done]).
  - specialize (IH {| w_node := w_node w; w_tick := S (w_tick w) |} Hw).
    destruct (exchange _ _ _ _) as [w2 [b|e']], IH as [Ht Hr]; simpl in *; (split; [lia|]);
      [done|]. destruct Hr. split; [done|]. by eapply failed_before; [|done]; simpl; lia.
  - specialize (IH {| w_node := n'; w_tick := S (w_tick w) |} HI).
    destruct (exchange _ _ _ _) as [w2 [b|e']], IH as [Ht Hr]; simpl in *; (split; [lia|]);
      [done|]. destruct Hr. split; [done|]. by eapply failed_before; [|done]; simpl; lia.
Qed.
End runs.

(** ** The upload *)

Lemma uuid_not_blank `{CratesLaws} d : uuid_text d → is_blank d = false.
Proof.
  intros [u ->].
  pose proof (uuid_to_string_nonempty u) as Hne. pose proof (uuid_to_string_chars u) as Hc.
  destruct (uuid_to_string u) as [|c r]; [done|].
  unfold all_chars in Hc. simpl in Hc. apply andb_true_iff in Hc as [Hc _].
  apply (not_blank c); [|constructor]. unfold is_uuid_char in Hc.
  apply orb_true_iff in Hc as [Hc|Hc%bool_decide_eq_true]; [|by subst].
  unfold is_ascii_hexdigit, is_ascii_digit, is_ascii_graphic in *.
  rewrite !orb_true_iff, !andb_true_iff, !N.leb_le in *. lia.
Qed.

Section uploads.
Context `{Crates, !CratesLaws} `{Semver} (version_error : string → string).
Context (cfg : StoreConfig) (hello : HandlerConfig) (auth : SessionAuthContext).
Context (fault : nat → Fault) (now now_after_io : nat → Z) (uuids : nat → Uuid * Uuid).
Context (data : list byte) (q : DeployPrepareRequest).

(** The node before the upload, and the times at which it serves it. *)
Record setting (t0 : Z) (n0 : Node) : Prop := {
  se_versions : versions_agree;
  se_limits : limits_ok cfg hello;
  se_sha256 : ∀ bs, is_blank (sha256_hex bs) = false;
  se_request : validate q = Ok tt;
  se_checks : prepare_checks cfg q = Ok tt;
  se_size : zlen data = dp_artifact_size q;
  se_bound : 0 < zlen data <= u64_max;
  se_digest : sha256_hex data = dp_artifact_digest q;
  se_time k : in_time cfg t0 (now k) ∧ t0 <= now_after_io k;
  se_node : node_ok cfg n0;
  se_fresh k : fresh_for cfg q (uuids k).1 n0;
  se_room k : room cfg (uuid_to_string (uuids k).1) (node_store n0);
}.

Context (t0 : Z) (n0 : Node) (Hset : setting t0 n0).

Abbreviation resumable := (resumable cfg data q t0).
Abbreviation in_progress := (in_progress cfg data q t0).
Abbreviation finished := (finished cfg data q t0).

(** Between two requests: nothing happened yet, or the upload can be resumed. *)
Definition safe (n : Node) : Prop := n = n0 ∨ ∃ d token s, resumable d token n s.
Abbreviation runs := (runs fault safe).

(** The times of the requests. *)
Lemma set_time k : in_time cfg t0 (now k).
Proof using Hset. apply (se_time _ _ Hset). Qed.

(** The response to [deploy.prepare] describes a session that can be resumed. *)
Definition prepared (r : DeployPrepareResponse) (n : Node) : Prop :=
  ∃ s t, r = build_prepare_response s (upload_session_ttl_secs cfg) t ∧
    resumable (us_deploy_id s) (us_upload_token s) n s.

Lemma resumable_id d token n s :
  resumable d token n s → us_deploy_id s = d ∧ us_upload_token s = token ∧ uuid_text d ∧ uuid_text token.
Proof.
  intros Hr. destruct (resumable_live _ _ _ _ _ _ _ _ Hr) as (Hn & Hs & Hf & Ht).
  destruct (so_session _ _ (nk_store _ _ Hn) _ _ Hs) as (_ & Hid & Htext).
  pose proof (fr_token _ _ _ _ _ Hf) as Htok. by rewrite Ht in Htok.
Qed.

Lemma prepare_runs :
  runs safe (request fault (serve_prepare cfg now now_after_io uuids q)) prepared.
Proof using All.
  apply runs_request; [done|]. intros k n Hn. unfold serve_prepare, validated.
  rewrite (se_request _ _ Hset).
  assert (∃ n' s t d token, prepare cfg q (now k) (now_after_io k) (uuids k).1 (uuids k).2 n =
    (n', Ok (build_prepare_response s (upload_session_ttl_secs cfg) t)) ∧ resumable d token n' s)
    as (n' & s & t & d & token & -> & Hr).
  { destruct Hn as [->|(d & token & s & Hr)].
    - destruct (prepare_first cfg data q t0 (se_size _ _ Hset) (se_bound _ _ Hset)
        (se_digest _ _ Hset) (se_checks _ _ Hset) n0 (now k) (now_after_io k) (uuids k).1
        (uuids k).2) as (n' & s & E & Hr); try apply Hset.
      by eexists _, _, _, _, _.
    - destruct (prepare_again cfg data q t0 d token n s (now k) (now_after_io k) (uuids k).1
        (uuids k).2 (se_checks _ _ Hset) Hr (set_time k)) as (n' & s' & E & Hr').
      by eexists _, _, _, _, _. }
  destruct (resumable_id _ _ _ _ Hr) as (Ed & Et & _).
  do 2 eexists. split; [reflexivity|]. split; [right; eauto|].
  exists s, t. rewrite Ed, Et. done.
Qed.

(** What is left of the plan completes the upload. *)
Definition completing (d token : string) (plan : list (Z * Z)) (n : Node) : Prop :=
  ∃ s, in_progress d token n s ∧
    ∀ x, 0 <= x < zlen data → covers (us_received_ranges s) x ∨ covers (chunk_of <$> plan) x.

Lemma slice_valid d token r :
  uuid_text d → uuid_text token → slice_ok cfg data r →
  validate (slice_push data d token (offset r) (range_length r)) = Ok tt.
Proof using All.
  intros Hd Ht [(Ho & Hl & He) _].
  pose proof (slice_length data (offset r) (range_length r) ltac:(lia) ltac:(lia) He) as Hz.
  unfold validate, ArtifactPushRequest_validate, validate, ArtifactPushChunkHeader_validate. simpl.
  unfold ensure_non_empty.
  rewrite (uuid_not_blank d), (uuid_not_blank token), (se_sha256 _ _ Hset) by done. simpl.
  unfold ensure_positive_u64. rewrite (proj2 (Z.eqb_neq _ _)) by lia. simpl.
  rewrite bool_decide_eq_false_2; [done|]. intros E. rewrite E in Hz. unfold zlen in Hz.
  simpl in Hz. lia.
Qed.

Lemma push_runs d token c plan :
  slice_ok cfg data (chunk_of c) →
  runs (completing d token (c :: plan))
    (push_single_artifact_chunk cfg fault now d token c.1
       (take (Z.to_nat c.2) (drop (Z.to_nat c.1) data)))
    (λ _, completing d token plan).
Proof using All.
  intros Hc. unfold push_single_artifact_chunk.
  eapply runs_bind; [|intros a; apply (runs_ret _ _ (completing d token plan)); done].
  apply runs_request.
  { intros n (s & Hs & _). right. exists d, token, s. by left. }
  intros k n (s & Hs & Hcov).
  destruct (resumable_id d token n s (or_introl Hs)) as (_ & _ & Hd & Ht).
  pose proof (push_again cfg data q t0 d token n s (chunk_of c) (now k) Hs (set_time k) Hc
    (lo_store _ _ (se_limits _ _ Hset))) as (n' & s' & ack & E & Hs' & Hr).
  pose proof (slice_valid _ _ _ Hd Ht Hc) as Hv.
  destruct Hc as [(Ho & Hl & He) _].
  rewrite slice_length by (simpl in *; lia). unfold serve_push, validated.
  unfold slice_push in E, Hv. simpl in E, Hv. rewrite Hv, E. do 2 eexists. split; [reflexivity|].
  assert (completing d token plan n') as Hdone; [|split; [|done]].
  - exists s'. split; [done|]. intros x Hx. rewrite Hr.
    destruct Hs as [_ Hup]. pose proof (se_bound _ _ Hset).
    destruct (merge_range_spec (zlen data) (us_received_ranges s) (chunk_of c)) as [_ ->];
      [lia|by destruct Hup as [????????[] ]|done|].
    destruct (Hcov x Hx) as [?|Hx']; [by left; left|]. csimpl in Hx'.
    apply covers_cons in Hx' as [?|?]; [by left; right|by right].
  - destruct Hdone as (s2 & Hs2 & Hcov2). exists s2. split; [done|]. intros x Hx.
    csimpl. rewrite covers_cons. destruct (Hcov2 x Hx); auto.
Qed.

Lemma push_chunks_runs d token plan :
  Forall (slice_ok cfg data ∘ chunk_of) plan →
  runs (completing d token plan) (push_chunks cfg fault now data d token plan)
    (λ _, completing d token []).
Proof using All.
  induction 1 as [|[off len] plan Hc _ IH]; simpl; [by apply runs_ret|].
  eapply runs_lift.
  { unfold read_chunk. destruct Hc as [(_ & _ & He) _]. simpl in He.
    rewrite (proj2 (Z.leb_le _ _)) by lia. reflexivity. }
  eapply runs_bind; [by apply (push_runs d token (off, len))|]. intros u. apply IH.
Qed.

(** The ranges to send, as the client computes them from the response. *)
Lemma ranges_to_send d token n s t :
  in_progress d token n s →
  let r := build_prepare_response s (upload_session_ttl_secs cfg) t in
  ∃ ranges, upload_ranges_for_prepare (dr_artifact_status r) (dr_missing_ranges r) (dp_artifact_size q)
      = Ok ranges ∧
    wf_ranges (zlen data) ranges ∧
    ∀ x, 0 <= x < zlen data → covers (us_received_ranges s) x ∨ covers ranges x.
Proof using All.
  intros [_ Hup]. simpl. destruct Hup as [_ _ _ _ Hz Hb _ (Hc & _) Hwf _ _].
  rewrite Hz, Hc. simpl. destruct (all_missing_ranges_spec _ _ Hb Hwf) as [Hwm Hcov].
  destruct (is_complete _ _) eqn:Hcomp; simpl.
  { exists []. split_and!; [done|split; constructor|]. intros x Hx. left.
    by apply (proj1 (is_complete_spec (zlen data) _ (proj1 Hb) Hwf)). }
  case_bool_decide as Hnil; simpl.
  - eexists. split; [reflexivity|]. rewrite <-(se_size _ _ Hset). split; [apply wf_full; lia|].
    intros x Hx. right. rewrite covers_cons. left. unfold ByteRanges.in_range. simpl. lia.
  - rewrite bool_decide_eq_false_2.
    + eexists. split; [reflexivity|]. split; [done|]. intros x Hx. rewrite Hcov.
      destruct (decide (covers (us_received_ranges s) x)); tauto.
    + intros E%all_missing_nil; [congruence|done|done].
Qed.

Lemma completing_complete d token n :
  completing d token [] n →
  ∃ s, in_progress d token n s ∧ is_complete (us_received_ranges s) (zlen data) = true.
Proof using All.
  intros (s & Hs & Hcov). exists s. split; [done|]. pose proof Hs as [_ []].
  apply is_complete_spec; [lia|done|]. intros x Hx. destruct (Hcov x Hx) as [?|?%covers_nil]; done.
Qed.

(** Ready to be committed. *)
Definition complete (d token : string) (n : Node) : Prop :=
  ∃ s, resumable d token n s ∧ is_complete (us_received_ranges s) (zlen data) = true.

Lemma upload_runs r n limits :
  ul_chunk_size limits = hc_chunk_size hello → prepared r n →
  ∃ ranges,
    upload_ranges_for_prepare (dr_artifact_status r) (dr_missing_ranges r) (dp_artifact_size q)
      = Ok ranges ∧
    runs (λ n', n' = n)
      (if bool_decide (ranges = []) then mret ()
       else push_artifact_ranges cfg fault now data q (dr_deploy_id r) (dr_upload_token r)
              ranges limits)
      (λ _, complete (dr_deploy_id r) (dr_upload_token r)).
Proof using All.
  intros Hlim (s & t & -> & [Hs|Hs]).
  - destruct (ranges_to_send _ _ _ _ t Hs) as (ranges & -> & Hwf & Hcov).
    exists ranges. split; [done|]. case_bool_decide as Hnil.
    + apply runs_ret. intros ? ->.
      destruct (completing_complete (us_deploy_id s) (us_upload_token s) n) as (s' & ? & ?).
      { exists s. split; [done|]. by subst ranges. }
      exists s'. split; [by left|done].
    + destruct (lo_chunk _ _ (se_limits _ _ Hset)) as [[Hpos Hmax] _].
      destruct (build_plan_spec (zlen data) (hc_chunk_size hello) (se_bound _ _ Hset) Hpos
        ranges Hwf) as (plan & Hplan & Hok & _ & Hsame).
      unfold push_artifact_ranges. eapply runs_lift.
      { rewrite Hlim, <-(se_size _ _ Hset). exact Hplan. }
      apply (runs_weaken _ _ _ (completing (us_deploy_id s) (us_upload_token s) plan)).
      { intros ? ->. exists s. split; [done|]. intros x Hx. rewrite Hsame. by apply Hcov. }
      eapply runs_post; [apply push_chunks_runs|].
      * eapply Forall_impl; [exact Hok|]. intros c [? ?]. split; [done|]. simpl. lia.
      * intros _ n' (s' & ? & ?)%completing_complete. exists s'. split; [by left|done].
  - exists []. pose proof Hs as [_ [_ _ _ _ _ _ Hc _ Hcomp _ _]]. simpl. rewrite Hc.
    split; [done|].
    apply runs_ret. intros ? ->.
    exists s. split; [by right|done].
Qed.

Lemma commit_runs d token :
  runs (complete d token) (request fault (serve_commit cfg now (commit_request q d)))
    (λ r n, cr_verified r = true ∧ ∃ s, finished d token n s).
Proof using All.
  apply runs_request.
  { intros n (s & Hs & _). right. by exists d, token, s. }
  intros k n (s & Hs & Hcomp). unfold serve_commit, validated.
  destruct (resumable_id _ _ _ _ Hs) as (_ & _ & Hd & _).
  pose proof (se_request _ _ Hset) as Hq. unfold validate, DeployPrepareRequest_validate in Hq.
  apply bind_Ok in Hq as ([] & Hq%ensure_required_strings_Ok & _).
  rewrite !Forall_cons in Hq. simpl in Hq.
  assert (validate (commit_request q d) = Ok tt) as ->.
  { unfold validate, ArtifactCommitRequest_validate. simpl. unfold ensure_non_empty.
    destruct Hq as (_ & _ & -> & -> & _). rewrite (uuid_not_blank d) by done. simpl.
    unfold ensure_positive_u64. pose proof (se_bound _ _ Hset). pose proof (se_size _ _ Hset).
    by rewrite (proj2 (Z.eqb_neq _ _)) by lia. }
  destruct (commit_again cfg data q t0 (se_size _ _ Hset) (se_bound _ _ Hset)
    (se_digest _ _ Hset) (se_checks _ _ Hset) d token n s (now k) Hs Hcomp (set_time k))
    as (n' & s' & -> & Hfin).
  do 2 eexists. split; [reflexivity|]. split; [|by eauto].
  exists s'. split; [by right|]. by destruct Hfin as [_ []].
Qed.

Lemma phase_runs :
  runs safe (run_upload_phase_once version_error cfg hello auth fault now now_after_io uuids data q)
    (λ d n, ∃ token s, finished d token n s).
Proof using All.
  unfold run_upload_phase_once. eapply runs_bind; [by apply runs_connect|]. intros u.
  destruct (hello_accepted version_error cfg hello auth (se_versions _ _ Hset)
    (se_limits _ _ Hset)) as [Hcompat Hlimits].
  eapply runs_bind.
  { apply (runs_request _ _ _ _ (λ r n, r = hello_response hello auth PROTOCOL_VERSION ∧ safe n));
      [done|]. intros k n Hn. do 2 eexists. split; [reflexivity|]. done. }
  intros r. apply runs_pre. intros n [-> Hn]. eapply runs_lift; [exact Hcompat|].
  eapply runs_lift; [exact Hlimits|]. eapply runs_weaken; [|eapply runs_bind; [apply prepare_runs|]].
  { by intros ? ->. }
  intros r. apply runs_pre. intros n1 Hn1.
  edestruct (upload_runs r n1) as (ranges & Hranges & Hruns); [|exact Hn1|].
  2: { eapply runs_lift; [exact Hranges|]. eapply runs_bind; [exact Hruns|]. intros u'.
       eapply runs_bind; [apply commit_runs|]. intros c. apply runs_pre. intros n2 [Hv (s & Hs)].
       eapply runs_lift; [by rewrite Hv|]. apply runs_ret. intros ? ->. eauto. }
  done.
Qed.

(** The failures of the connection among the next [m] uses of it. *)
Definition faults (from m : nat) : nat :=
  length (filter (λ k, is_Some (fault_text (fault k))) (seq from m)).

Lemma faults_app from m1 m2 : faults from (m1 + m2) = (faults from m1 + faults (from + m1) m2)%nat.
Proof. unfold faults. by rewrite seq_app, filter_app, length_app. Qed.

Lemma failed_faults w w' e :
  failed fault w w' e → (1 <= faults (w_tick w) (w_tick w' - w_tick w))%nat.
Proof.
  intros (k & text & Hk & Hf & _). unfold faults.
  destruct (filter _ _) eqn:E; [|simpl; lia]. exfalso.
  apply (not_elem_of_nil k). rewrite <-E. apply list_elem_of_filter.
  split; [by rewrite Hf|]. apply elem_of_seq. lia.
Qed.

Definition no_marker : Prop :=
  ∀ k text, fault_text (fault k) = Some text → contains_unauthorized_marker text = false.

Lemma attempts_run more : ∀ w,
  safe (w_node w) →
  let '(w', r) := upload_attempts version_error cfg hello auth fault now now_after_io uuids data q
    more w in
  (w_tick w <= w_tick w')%nat ∧
  match r with
  | Ok d => ∃ token s, finished d token (w_node w') s
  | Err e => failed fault w w' e ∧
      (no_marker → ∃ m, (more < faults (w_tick w) m)%nat)
  end.
Proof using All.
  induction more as [|more IH]; intros w Hw; simpl; pose proof (phase_runs w Hw) as Hp;
    destruct (run_upload_phase_once _ _ _ _ _ _ _ _ _ _ w) as [w1 [d|e]], Hp as [Ht Hr];
    try done; destruct Hr as [Hs Hf]; pose proof (failed_faults _ _ _ Hf) as Hone.
  { split; [done|]. split; [done|]. intros _. by eexists. }
  destruct (should_retry_upload_error e) eqn:Hretry.
  - specialize (IH w1 Hs). destruct (upload_attempts _ _ _ _ _ _ _ _ _ _ more w1) as [w2 [d|e2]],
      IH as [Ht2 Hr2]; (split; [lia|]); [done|]. destruct Hr2 as [Hf2 Hmany].
    split; [by eapply failed_before|]. intros Hno. destruct (Hmany Hno) as [m Hm].
    exists (w_tick w1 - w_tick w + m)%nat. rewrite faults_app.
    replace (w_tick w + (w_tick w1 - w_tick w))%nat with (w_tick w1) by lia. lia.
  - split; [done|]. split; [done|]. intros Hno. exfalso.
    destruct Hf as (k & text & _ & Hk & ->). simpl in Hretry. by rewrite (Hno k text Hk) in Hretry.
Qed.
End uploads.

Section outcome.
Context `{Crates, !CratesLaws} `{Semver} (version_error : string → string).
Context (cfg : StoreConfig) (hello : HandlerConfig) (auth : SessionAuthContext).
Context (fault : nat → Fault) (now now_after_io : nat → Z) (uuids : nat → Uuid * Uuid).
Context (data : list byte) (q : DeployPrepareRequest).

(** C8 (liveness).  The upload of a deploy, client and node together, over a connection that
    loses requests and responses.  When the client reports success the node serves exactly the
    artifact under the reported id; when it reports an error, it is the text of a failure of
    the connection during the upload; and it succeeds whenever the connection fails at most
    three times, wherever that is. *)
Theorem upload_survives_faults t0 w :
  setting cfg hello now now_after_io uuids data q t0 (w_node w) →
  let '(w', r) := run_upload_phase_with_resume version_error cfg hello auth fault now
    now_after_io uuids data q w in
  (∀ d t, r = Ok d → ∃ n' ca, committed_artifact cfg d t (w_node w') = (n', Ok ca) ∧
     fs_read (ca_path ca) (node_fs n') = Some data) ∧
  (∀ e, r = Err e → ∃ k text, (w_tick w <= k < w_tick w')%nat ∧
     fault_text (fault k) = Some text ∧ e = Failure text) ∧
  (no_marker fault → (∀ m, faults fault (w_tick w) m <= 3)%nat → ∃ d, r = Ok d).
Proof.
  intros Hset.
  pose proof (attempts_run version_error cfg hello auth fault now now_after_io uuids data q t0 _
    Hset (UPLOAD_MAX_ATTEMPTS - 1) w (or_introl eq_refl)) as Hrun.
  unfold run_upload_phase_with_resume.
  destruct (upload_attempts _ _ _ _ _ _ _ _ _ _ _ w) as [w' [d|e]], Hrun as [Ht Hr].
  - destruct Hr as (token & s & Hfin). split_and!; [|done|by eauto].
    intros d' t [= <-]. by eapply finished_served.
  - destruct Hr as [Hf Hmany]. split_and!; [done|by intros ? [= <-]|].
    intros Hno Hfew. destruct (Hmany Hno) as [m Hm]. specialize (Hfew m).
    change (UPLOAD_MAX_ATTEMPTS - 1)%nat with 3%nat in Hm. lia.
Qed.
End outcome.

(** ** Witness *)

Module UploadDemo.
#[local] Instance demo_crates : Crates :=
  {| sha256_hex := λ bs, ("h" +:+ string_of_bytes bs)%string; uuid_to_string := λ u, pretty u |}.
#[local] Instance demo_crates_laws : CratesLaws.
Proof.
  split.
  - apply _.
  - apply (uuid_to_string_nonempty (H := ArtifactTheorems.demo_crates)).
  - apply (uuid_to_string_chars (H := ArtifactTheorems.demo_crates)).
Qed.
#[local] Instance demo_semver : Semver := {|
  Version := string; VersionReq := string;
  version_parse := Some; version_req_parse := Ok; version_matches := λ _ _, true |}.

Definition demo_hello : HandlerConfig :=
  {| hc_server_version := "1"; hc_chunk_size := 4; hc_max_inflight_chunks := 2;
     hc_max_artifact_size_bytes := 100; hc_upload_session_ttl_secs := 60;
     hc_deploy_stream_timeout_secs := 30 |}.
Definition demo_request : DeployPrepareRequest :=
  {| dp_name := "svc"; dp_app_type := "cli"; dp_target := ∅; dp_artifact_digest := "habcde";
     dp_artifact_size := 5; dp_manifest_digest := "m"; dp_idempotency_key := "k";
     dp_policy := ∅ |}.
(** The first connection is refused, the response to the preparation is lost, and the one to
    the second chunk is damaged. *)
Definition demo_fault (k : nat) : Fault :=
  match k with
  | 0 => RequestLost "refused"
  | 3 => ResponseLost "timed out"
  | 6 => Garbled "truncated"
  | _ => Delivered
  end%nat.
Definition demo_now (k : nat) : Z := 10 + Z.of_nat (k `min` 40).
Definition demo_uuids (k : nat) : Uuid * Uuid := (7 + 2 * N.of_nat k, 8 + 2 * N.of_nat k)%N.
Definition demo_wire : Wire := {| w_node := demo_node; w_tick := 0 |}.
Definition demo_auth : SessionAuthContext := {| sa_role := Admin; sa_public_key_hex := "" |}.

Lemma demo_setting :
  setting demo_cfg demo_hello demo_now demo_now demo_uuids (bytes_of "abcde") demo_request 10
    demo_node.
Proof.
  split; try done.
  - by exists SUPPORTED_PROTOCOL_VERSION_RANGE, PROTOCOL_VERSION.
  - intros bs. apply (not_blank "h"%char); [done|]. constructor.
  - intros k. unfold in_time, in_window, demo_now. simpl. lia.
Qed.

Lemma demo_faults m : (faults demo_fault 0 m <= 3)%nat.
Proof.
  unfold faults. change 3%nat with (length [0; 3; 6]%nat).
  apply submseteq_length, NoDup_submseteq; [apply NoDup_filter, NoDup_seq|].
  intros k [[text Hk] _]%list_elem_of_filter. do 7 (destruct k as [|k]; [set_solver|]). done.
Qed.

Lemma upload_survives_faults_witness :
  ∃ w' d n' ca,
    run_upload_phase_with_resume id demo_cfg demo_hello demo_auth demo_fault demo_now demo_now
      demo_uuids (bytes_of "abcde") demo_request demo_wire = (w', Ok d) ∧
    committed_artifact demo_cfg d 60 (w_node w') = (n', Ok ca) ∧
    fs_read (ca_path ca) (node_fs n') = Some (bytes_of "abcde").
Proof.
  pose proof (upload_survives_faults id demo_cfg demo_hello demo_auth demo_fault demo_now demo_now
    demo_uuids (bytes_of "abcde") demo_request 10 demo_wire demo_setting) as Hall.
  destruct (run_upload_phase_with_resume _ _ _ _ _ _ _ _ _ _ _) as [w' r].
  destruct Hall as (Hok & _ & Hlive).
  destruct Hlive as [d ->]; [|exact demo_faults|].
  - intros k text. do 7 (destruct k as [|k]; [intros [= <-]; reflexivity || done|]). done.
  - destruct (Hok d 60 eq_refl) as (n' & ca & Hc & Hr).
    exists w', d, n', ca. exact (conj eq_refl (conj Hc Hr)).
Defined.
End UploadDemo.
