(* ===== verification/Config.v ===== *)
(** * The daemon's configuration file

    [imagod-config]: the typed configuration with its defaults, its validation, loading it
    from [imagod.toml], the first boot that writes a default file and a server key, and the
    two updates of the pinned keys that the daemon writes back while it runs; and how
    [imagod/src/manager_runtime.rs] hands the loaded values to the other components.

    The file lives in a tree of [Tree]; the [toml] crate and serde's derived decoder are
    the class [TomlCrate]. *)

From stdpp Require Import countable.
From S2P Require Import Prelude Protocol Text IpAddr Ipc Files ArtifactStore Supervisor Paths Tree TreeFacts Manifest Launch Orchestrator Deploy Session Runner ArtifactResume Client.

Open Scope string_scope.
Open Scope Z_scope.

(** ** The typed configuration *)

Inductive RuntimeFeatures :=
  | Enabled (all : bool)
  | Packages (package_names : list string).

Record RuntimeConfig := {
  rc_chunk_size : Z;
  rc_max_inflight_chunks : Z;
  rc_max_artifact_size_bytes : Z;
  rc_upload_session_ttl_secs : Z;
  rc_stop_grace_timeout_secs : Z;
  rc_runner_ready_timeout_secs : Z;
  rc_runner_log_buffer_bytes : Z;
  rc_retained_logs_capacity_bytes : Z;
  rc_committed_session_ttl_secs : Z;
  rc_max_committed_sessions : Z;
  rc_epoch_tick_interval_ms : Z;
  rc_wasm_memory_reservation_bytes : Z;
  rc_wasm_memory_reservation_for_growth_bytes : Z;
  rc_wasm_memory_guard_size_bytes : Z;
  rc_wasm_guard_before_linear_memory : bool;
  rc_wasm_parallel_compilation : bool;
  rc_http_worker_count : Z;
  rc_http_worker_queue_capacity : Z;
  rc_http_queue_memory_budget_bytes : Z;
  rc_manager_control_read_timeout_ms : Z;
  rc_max_concurrent_sessions : Z;
  rc_deploy_stream_timeout_secs : Z;
  rc_transport_keepalive_interval_secs : Z;
  rc_transport_max_idle_timeout_secs : Z;
  rc_boot_plugin_gc_enabled : bool;
  rc_boot_restore_enabled : bool;
  rc_features : RuntimeFeatures;
}.

Record TlsConfig := {
  tls_server_key : string;
  tls_client_public_keys : list string;
  tls_known_public_keys : gmap string string;
}.

Record ImagodConfig := {
  ic_listen_addr : string;
  ic_control_socket_path : string;
  ic_tls : TlsConfig;
  ic_storage_root : string;
  ic_runtime : RuntimeConfig;
  ic_server_version : string;
}.

(** The operating system and the storage root chosen when the daemon was compiled. *)
Record BuildEnv := { target_os : string; build_override : option string }.

(** *** Defaults *)

Definition MAX_CHUNK_SIZE_BYTES : Z := 8 * 1024 * 1024.
Definition MAX_HTTP_QUEUE_MEMORY_BUDGET_BYTES : Z := 64 * 1024 * 1024.
Definition DEFAULT_SERVER_KEY_FILENAME : string := "server.key".
Definition DEFAULT_CONTROL_SOCKET_FILENAME : string := "imagod.sock".
Definition DEFAULT_CONFIG_PATH : string := "/etc/imago/imagod.toml".
Definition DEFAULT_CONTROL_SOCKET_PATH : string := "/run/imago/imagod.sock".
Definition IMAGOD_SCHEMA_URL : string :=
  "https://raw.githubusercontent.com/yieldspace/imago/main/schemas/imagod.schema.json".

Definition newline : string := String "010" "".
Definition AUTOCREATED_CONFIG_COMMENTS : string :=
  "# This file was autogenerated by imagod." +:+ newline +:+
  "# Review tls.server_key and tls.client_public_keys before production use." +:+ newline +:+
  "# Add peer public keys to tls.client_public_keys to allow RPC clients." +:+ newline.

Definition default_listen_addr : string := "[::]:4443".
Definition default_server_version : string := "imagod/0.9.2".

Definition resolve_default_storage_root (os : string) (override : option string) : string :=
  match override with
  | Some (String _ _ as path) => path
  | _ =>
    if bool_decide (os = "macos") then "/usr/local/var/imago"
    else if bool_decide (os = "windows") then "C:\ProgramData\imago"
    else "/var/lib/imago"
  end.

Definition default_storage_root (b : BuildEnv) : string :=
  resolve_default_storage_root (target_os b) (build_override b).

Definition default_runtime : RuntimeConfig := {|
  rc_chunk_size := 1024 * 1024;
  rc_max_inflight_chunks := 16;
  rc_max_artifact_size_bytes := 64 * 1024 * 1024;
  rc_upload_session_ttl_secs := 15 * 60;
  rc_stop_grace_timeout_secs := 30;
  rc_runner_ready_timeout_secs := 60;
  rc_runner_log_buffer_bytes := 256 * 1024;
  rc_retained_logs_capacity_bytes := 2 * (256 * 1024);
  rc_committed_session_ttl_secs := 120;
  rc_max_committed_sessions := 16;
  rc_epoch_tick_interval_ms := 50;
  rc_wasm_memory_reservation_bytes := 64 * 1024 * 1024;
  rc_wasm_memory_reservation_for_growth_bytes := 16 * 1024 * 1024;
  rc_wasm_memory_guard_size_bytes := 64 * 1024;
  rc_wasm_guard_before_linear_memory := false;
  rc_wasm_parallel_compilation := false;
  rc_http_worker_count := 2;
  rc_http_worker_queue_capacity := 4;
  rc_http_queue_memory_budget_bytes := 32 * 1024 * 1024;
  rc_manager_control_read_timeout_ms := 500;
  rc_max_concurrent_sessions := 256;
  rc_deploy_stream_timeout_secs := 15;
  rc_transport_keepalive_interval_secs := 5;
  rc_transport_max_idle_timeout_secs := 180;
  rc_boot_plugin_gc_enabled := true;
  rc_boot_restore_enabled := true;
  rc_features := Enabled false;
|}.

(** [effective_builtin_native_plugin_package_names]. *)
Definition effective_builtin_native_plugin_package_names (f : RuntimeFeatures) : list string :=
  let requested := match f with
                   | Enabled true => None
                   | Enabled false => Some []
                   | Packages names => Some names
                   end in
  bp_package_name <$>
    filter (λ d, bp_default_enabled d
                 || match requested with
                    | None => true
                    | Some names => bool_decide (bp_package_name d ∈ names)
                    end = true) BUILTIN_NATIVE_PLUGIN_DESCRIPTORS.

(** ** Documents *)

(** [toml::Value]; dates and floats are carried as their text. *)
Inductive Toml :=
  | TString (s : string)
  | TInteger (i : Z)
  | TBoolean (b : bool)
  | TOther (text : string)
  | TArray (l : list Toml)
  | TTable (m : gmap string Toml).

Abbreviation table := (gmap string Toml).

Definition as_str (v : Toml) : option string := match v with TString s => Some s | _ => None end.
Definition as_array (v : Toml) : option (list Toml) :=
  match v with TArray l => Some l | _ => None end.
Definition as_table (v : Toml) : option table := match v with TTable m => Some m | _ => None end.

(** What the derived decoder reads for a field that may be missing. *)
Definition field {A} (read : Toml → option A) (dflt : A) (m : table) (name : string) : option A :=
  match m !! name with None => Some dflt | Some v => read v end.

Definition as_uint (max : Z) (v : Toml) : option Z :=
  match v with TInteger i => if (0 <=? i) && (i <=? max) then Some i else None | _ => None end.
Definition as_bool (v : Toml) : option bool := match v with TBoolean b => Some b | _ => None end.
Definition as_strings (v : Toml) : option (list string) := l ← as_array v; mapM as_str l.
Definition as_string_map (v : Toml) : option (gmap string string) :=
  match v with
  | TTable m =>
    if bool_decide (map_Forall (λ _ v, is_Some (as_str v)) m) then Some (omap as_str m) else None
  | _ => None
  end.
Definition as_features (v : Toml) : option RuntimeFeatures :=
  match v with
  | TBoolean b => Some (Enabled b)
  | _ => Packages <$> as_strings v
  end.

Definition tls_of (m : table) : option TlsConfig :=
  server_key ← m !! "server_key" ≫= as_str;
  client_public_keys ← m !! "client_public_keys" ≫= as_strings;
  known_public_keys ← field as_string_map ∅ m "known_public_keys";
  Some {| tls_server_key := server_key; tls_client_public_keys := client_public_keys;
          tls_known_public_keys := known_public_keys |}.

Definition u32_limit : Z := 2 ^ 32 - 1.

Definition runtime_of (m : table) : option RuntimeConfig :=
  let d := default_runtime in
  let u64 := as_uint u64_max in
  let u32 := as_uint u32_limit in
  chunk_size ← field u64 (rc_chunk_size d) m "chunk_size";
  max_inflight_chunks ← field u64 (rc_max_inflight_chunks d) m "max_inflight_chunks";
  max_artifact ← field u64 (rc_max_artifact_size_bytes d) m "max_artifact_size_bytes";
  upload_ttl ← field u64 (rc_upload_session_ttl_secs d) m "upload_session_ttl_secs";
  stop_grace ← field u64 (rc_stop_grace_timeout_secs d) m "stop_grace_timeout_secs";
  runner_ready ← field u64 (rc_runner_ready_timeout_secs d) m "runner_ready_timeout_secs";
  log_buffer ← field u64 (rc_runner_log_buffer_bytes d) m "runner_log_buffer_bytes";
  retained ← field u64 (rc_retained_logs_capacity_bytes d) m "retained_logs_capacity_bytes";
  committed_ttl ← field u64 (rc_committed_session_ttl_secs d) m "committed_session_ttl_secs";
  max_committed ← field u64 (rc_max_committed_sessions d) m "max_committed_sessions";
  epoch ← field u64 (rc_epoch_tick_interval_ms d) m "epoch_tick_interval_ms";
  reservation ← field u64 (rc_wasm_memory_reservation_bytes d) m "wasm_memory_reservation_bytes";
  growth ← field u64 (rc_wasm_memory_reservation_for_growth_bytes d) m
             "wasm_memory_reservation_for_growth_bytes";
  guard_size ← field u64 (rc_wasm_memory_guard_size_bytes d) m "wasm_memory_guard_size_bytes";
  guard_before ← field as_bool (rc_wasm_guard_before_linear_memory d) m
                   "wasm_guard_before_linear_memory";
  parallel ← field as_bool (rc_wasm_parallel_compilation d) m "wasm_parallel_compilation";
  workers ← field u32 (rc_http_worker_count d) m "http_worker_count";
  queue ← field u32 (rc_http_worker_queue_capacity d) m "http_worker_queue_capacity";
  budget ← field u64 (rc_http_queue_memory_budget_bytes d) m "http_queue_memory_budget_bytes";
  read_timeout ← field u64 (rc_manager_control_read_timeout_ms d) m
                   "manager_control_read_timeout_ms";
  max_sessions ← field u32 (rc_max_concurrent_sessions d) m "max_concurrent_sessions";
  stream_timeout ← field u64 (rc_deploy_stream_timeout_secs d) m "deploy_stream_timeout_secs";
  keepalive ← field u64 (rc_transport_keepalive_interval_secs d) m
                "transport_keepalive_interval_secs";
  idle ← field u64 (rc_transport_max_idle_timeout_secs d) m "transport_max_idle_timeout_secs";
  gc ← field as_bool (rc_boot_plugin_gc_enabled d) m "boot_plugin_gc_enabled";
  restore ← field as_bool (rc_boot_restore_enabled d) m "boot_restore_enabled";
  features ← field as_features (rc_features d) m "features";
  Some {| rc_chunk_size := chunk_size; rc_max_inflight_chunks := max_inflight_chunks;
          rc_max_artifact_size_bytes := max_artifact; rc_upload_session_ttl_secs := upload_ttl;
          rc_stop_grace_timeout_secs := stop_grace; rc_runner_ready_timeout_secs := runner_ready;
          rc_runner_log_buffer_bytes := log_buffer; rc_retained_logs_capacity_bytes := retained;
          rc_committed_session_ttl_secs := committed_ttl;
          rc_max_committed_sessions := max_committed; rc_epoch_tick_interval_ms := epoch;
          rc_wasm_memory_reservation_bytes := reservation;
          rc_wasm_memory_reservation_for_growth_bytes := growth;
          rc_wasm_memory_guard_size_bytes := guard_size;
          rc_wasm_guard_before_linear_memory := guard_before;
          rc_wasm_parallel_compilation := parallel; rc_http_worker_count := workers;
          rc_http_worker_queue_capacity := queue; rc_http_queue_memory_budget_bytes := budget;
          rc_manager_control_read_timeout_ms := read_timeout;
          rc_max_concurrent_sessions := max_sessions;
          rc_deploy_stream_timeout_secs := stream_timeout;
          rc_transport_keepalive_interval_secs := keepalive;
          rc_transport_max_idle_timeout_secs := idle; rc_boot_plugin_gc_enabled := gc;
          rc_boot_restore_enabled := restore; rc_features := features |}.

Definition schema_of (root : table) : option (option string) :=
  field (λ v, Some <$> as_str v) None root "$schema".

Definition tls_field (root : table) : option TlsConfig :=
  v ← root !! "tls"; m ← as_table v; tls_of m.

Definition fields_of (b : BuildEnv) (root : table) : option ImagodConfig :=
  listen_addr ← field as_str default_listen_addr root "listen_addr";
  control_socket_path ← field as_str DEFAULT_CONTROL_SOCKET_PATH root "control_socket_path";
  tls ← tls_field root;
  storage_root ← field as_str (default_storage_root b) root "storage_root";
  runtime ← field (λ v, m ← as_table v; runtime_of m) default_runtime root "runtime";
  server_version ← field as_str default_server_version root "server_version";
  Some {| ic_listen_addr := listen_addr; ic_control_socket_path := control_socket_path;
          ic_tls := tls; ic_storage_root := storage_root; ic_runtime := runtime;
          ic_server_version := server_version |}.

(** [ImagodTomlDocument] written with tables, and the configuration it stands for. *)
Definition document_of (b : BuildEnv) (v : Toml) : option ImagodConfig :=
  root ← as_table v;
  _ ← schema_of root;
  fields_of b root.

(** The [toml] crate: reading a text, writing a table, and serde's decoder of a document. *)
Class TomlCrate := {
  toml_from_str : string → result string Toml;
  toml_to_string_pretty : table → result string string;
  toml_try_into : Toml → result string ImagodConfig;
}.

(** The fields hold values of their machine types. *)
Record typed_runtime (r : RuntimeConfig) : Prop := {
  tr_chunk : 0 ≤ rc_chunk_size r ≤ u64_max;
  tr_inflight : 0 ≤ rc_max_inflight_chunks r ≤ u64_max;
  tr_stream_timeout : 0 ≤ rc_deploy_stream_timeout_secs r ≤ u64_max;
  tr_epoch : 0 ≤ rc_epoch_tick_interval_ms r ≤ u64_max;
  tr_workers : 0 ≤ rc_http_worker_count r ≤ u32_limit;
  tr_queue : 0 ≤ rc_http_worker_queue_capacity r ≤ u32_limit;
  tr_budget : 0 ≤ rc_http_queue_memory_budget_bytes r ≤ u64_max;
}.

(** What their documentation says: a written table reads back, is UTF-8 text and can always be
    written; comments and empty lines do not count; a document of the documented
    shape decodes to its fields; decoded integers fit their types. *)
Class TomlLaws `{TomlCrate} (b : BuildEnv) : Prop := {
  print_parse root body : toml_to_string_pretty root = Ok body → toml_from_str body = Ok (TTable root);
  print_utf8 root body : toml_to_string_pretty root = Ok body → is_utf8 (bytes_of body) = true;
  print_total root : ∃ body, toml_to_string_pretty root = Ok body;
  parse_comment line body : "010"%char ∉ bytes_of line →
    toml_from_str ("#" +:+ line +:+ newline +:+ body) = toml_from_str body;
  parse_empty_line body : toml_from_str (newline +:+ body) = toml_from_str body;
  decode_document v c : document_of b v = Some c → toml_try_into v = Ok c;
  decode_typed v c : toml_try_into v = Ok c → typed_runtime (ic_runtime c);
}.

(** ** Validation ([load/validation.rs]) *)

Definition load_error (message : string) : ImagodError := new_error BadRequest "config.load" message.

Fixpoint parse_unique_public_key_hexes (field : string) (index : Z) (seen : gset (list byte))
    (key_hexes : list string) : iresult (gset (list byte)) :=
  match key_hexes with
  | [] => Ok seen
  | key_hex :: key_hexes =>
    decoded ← map_err (λ reason, with_detail "index" (to_string index)
                (load_error (field +:+ "[" +:+ to_string index +:+ "] " +:+ reason)))
                (parse_ed25519_raw_public_key_hex key_hex);
    _ ← ensure (negb (bool_decide (decoded ∈ seen)))
          (with_detail "index" (to_string index)
             (load_error (field +:+ "[" +:+ to_string index +:+ "] is duplicated")));
    parse_unique_public_key_hexes field (index + 1) ({[decoded]} ∪ seen) key_hexes
  end.

Fixpoint parse_known_public_keys (entries : list (string * string)) : iresult unit :=
  match entries with
  | [] => Ok tt
  | (authority, key_hex) :: entries =>
    let trimmed := trim authority in
    _ ← ensure (negb (bool_decide (trimmed = "")))
          (load_error "tls.known_public_keys authority must not be empty");
    _ ← map_err (λ reason, with_detail "authority" trimmed
          (load_error ("tls.known_public_keys['" +:+ trimmed +:+ "'] " +:+ reason)))
          (parse_ed25519_raw_public_key_hex key_hex);
    parse_known_public_keys entries
  end.
Definition parse_known_public_key_map (entries : gmap string string) : iresult unit :=
  parse_known_public_keys (btree_iter entries).

Definition comma_separated (names : list string) : string := String.concat ", " names.

Fixpoint validate_packages (supported : string) (index : Z) (package_names : list string)
    : iresult unit :=
  match package_names with
  | [] => Ok tt
  | package_name :: rest =>
    if is_builtin_native_plugin_package_name package_name
    then validate_packages supported (index + 1) rest
    else Err (with_detail "value" package_name (with_detail "index" (to_string index)
           (load_error ("runtime.features[" +:+ to_string index +:+ "] must be one of: "
              +:+ supported +:+ " (got '" +:+ package_name +:+ "')"))))
  end.
Definition validate_runtime_features (features : RuntimeFeatures) : iresult unit :=
  match features with
  | Enabled _ => Ok tt
  | Packages package_names =>
    validate_packages (comma_separated (bp_package_name <$> BUILTIN_NATIVE_PLUGIN_DESCRIPTORS))
      0 package_names
  end.

Definition must_be_positive (value : Z) (name : string) : iresult unit :=
  ensure (negb (value =? 0)) (load_error ("runtime." +:+ name +:+ " must be greater than 0")).

Definition validate_runtime (r : RuntimeConfig) : iresult unit :=
  _ ← validate_runtime_features (rc_features r);
  _ ← must_be_positive (rc_stop_grace_timeout_secs r) "stop_grace_timeout_secs";
  _ ← must_be_positive (rc_epoch_tick_interval_ms r) "epoch_tick_interval_ms";
  _ ← must_be_positive (rc_wasm_memory_reservation_bytes r) "wasm_memory_reservation_bytes";
  _ ← must_be_positive (rc_wasm_memory_reservation_for_growth_bytes r)
        "wasm_memory_reservation_for_growth_bytes";
  _ ← must_be_positive (rc_runner_ready_timeout_secs r) "runner_ready_timeout_secs";
  _ ← must_be_positive (rc_runner_log_buffer_bytes r) "runner_log_buffer_bytes";
  _ ← must_be_positive (rc_retained_logs_capacity_bytes r) "retained_logs_capacity_bytes";
  _ ← must_be_positive (rc_committed_session_ttl_secs r) "committed_session_ttl_secs";
  _ ← must_be_positive (rc_max_committed_sessions r) "max_committed_sessions";
  _ ← ensure ((1 <=? rc_http_worker_count r) && (rc_http_worker_count r <=? 4))
        (load_error "runtime.http_worker_count must be between 1 and 4");
  _ ← ensure ((1 <=? rc_http_worker_queue_capacity r) && (rc_http_worker_queue_capacity r <=? 16))
        (load_error "runtime.http_worker_queue_capacity must be between 1 and 16");
  _ ← ensure (negb ((rc_http_queue_memory_budget_bytes r =? 0)
                    || (MAX_HTTP_QUEUE_MEMORY_BUDGET_BYTES <? rc_http_queue_memory_budget_bytes r)))
        (load_error ("runtime.http_queue_memory_budget_bytes must be in range 1..="
           +:+ to_string MAX_HTTP_QUEUE_MEMORY_BUDGET_BYTES));
  _ ← must_be_positive (rc_manager_control_read_timeout_ms r) "manager_control_read_timeout_ms";
  _ ← must_be_positive (rc_max_concurrent_sessions r) "max_concurrent_sessions";
  _ ← must_be_positive (rc_deploy_stream_timeout_secs r) "deploy_stream_timeout_secs";
  _ ← must_be_positive (rc_transport_keepalive_interval_secs r) "transport_keepalive_interval_secs";
  _ ← must_be_positive (rc_transport_max_idle_timeout_secs r) "transport_max_idle_timeout_secs";
  _ ← ensure (rc_transport_keepalive_interval_secs r <? rc_transport_max_idle_timeout_secs r)
        (load_error ("runtime.transport_keepalive_interval_secs must be less than "
           +:+ "runtime.transport_max_idle_timeout_secs"));
  _ ← must_be_positive (rc_max_artifact_size_bytes r) "max_artifact_size_bytes";
  _ ← must_be_positive (rc_chunk_size r) "chunk_size";
  _ ← ensure (rc_chunk_size r <=? MAX_CHUNK_SIZE_BYTES)
        (load_error ("runtime.chunk_size must be less than or equal to "
           +:+ to_string MAX_CHUNK_SIZE_BYTES));
  must_be_positive (rc_max_inflight_chunks r) "max_inflight_chunks".

(** [validate]; the checks on [runtime] follow those on the keys, as in the source. *)
Definition validate_config (config : ImagodConfig) : iresult unit :=
  let socket := ic_control_socket_path config in
  _ ← ensure (negb (bool_decide (socket = ""))) (load_error "control_socket_path must not be empty");
  _ ← ensure (is_absolute socket)
        (load_error ("control_socket_path must be an absolute path: " +:+ socket));
  _ ← parse_unique_public_key_hexes "tls.client_public_keys" 0 ∅
        (tls_client_public_keys (ic_tls config));
  _ ← parse_known_public_key_map (tls_known_public_keys (ic_tls config));
  validate_runtime (ic_runtime config).

(** ** Loading *)

(** [Path::parent] and the directory a configuration file lives in. *)
Definition component_text (c : Component) : string :=
  match c with RootDir => "/" | CurDir => "." | ParentDir => ".." | Normal name => name end.
Definition path_of_components (cs : list Component) : string :=
  foldl (λ path c, path_join path (component_text c)) "" cs.
Definition parent (path : string) : option string :=
  match last (components path) with
  | None | Some RootDir => None
  | Some _ => Some (path_of_components (removelast (components path)))
  end.
Definition config_parent_dir (config_path : string) : string :=
  match parent config_path with
  | Some (String _ _ as dir) => dir
  | _ => "."
  end.

(** [result.map_err(f)] on what a computation answers. *)
Definition wrap_err {A} (f : ImagodError → ImagodError) (m : fsm A) : fsm A := λ t,
  let '(t, r) := m t in (t, map_err f r).

Section files.
Context `{TomlCrate} (io : FsIo).

Definition load (path : string) : fsm ImagodConfig :=
  content ← Tree.lift (read_to_string io path)
              (λ e, with_detail "path" path (load_error ("config read failed: " +:+ fs_error_text e)));
  raw ← pure (map_err (λ e, with_detail "path" path (load_error ("config parse failed: " +:+ e)))
          (toml_from_str content));
  config ← pure (map_err (λ e, with_detail "path" path (load_error ("config decode failed: " +:+ e)))
             (toml_try_into raw));
  _ ← pure (validate_config config);
  mret config.

(** *** Updates of the pinned keys *)

Definition update_error (code : ErrorCode) (message : string) : ImagodError :=
  new_error code "config.update" message.

Definition load_toml_root (config_path : string) : fsm table :=
  body ← Tree.lift (read_to_string io config_path)
           (λ e, update_error Internal ("failed to read " +:+ config_path +:+ ": " +:+ fs_error_text e));
  parsed ← pure (map_err (λ e, update_error BadRequest
                   ("failed to parse " +:+ config_path +:+ ": " +:+ e)) (toml_from_str body));
  pure (ok_or (as_table parsed) (update_error BadRequest "root must be a table")).

(** The [tls] table of a document, created when it is missing. *)
Definition ensure_tls_table (root : table) : iresult table :=
  match root !! "tls" with
  | None => Ok ∅
  | Some v => ok_or (as_table v) (update_error BadRequest "tls must be a table")
  end.

Fixpoint lowercase_keys (index : Z) (array : list Toml) : iresult (list string) :=
  match array with
  | [] => Ok []
  | value :: rest =>
    text ← ok_or (as_str value) (update_error BadRequest
             ("tls.client_public_keys[" +:+ to_string index +:+ "] must be a string"));
    others ← lowercase_keys (index + 1) rest;
    Ok (to_ascii_lowercase text :: others)
  end.

Definition upsert_client_public_key_value (tls : table) (key_hex : string) : iresult table :=
  array ← match tls !! "client_public_keys" with
          | None => Ok []
          | Some v => ok_or (as_array v)
                        (update_error BadRequest "tls.client_public_keys must be an array")
          end;
  normalized ← lowercase_keys 0 array;
  let normalized := if bool_decide (key_hex ∈ normalized) then normalized
                    else (normalized ++ [key_hex])%list in
  Ok (<["client_public_keys" := TArray (TString <$> normalized)]> tls).

(** The first entry, in the order of the keys, that is not a string. *)
Definition not_a_string (m : table) : option string :=
  fst <$> head (filter (λ '(_, v), as_str v = None) (btree_iter m)).

Definition upsert_known_public_key_value (tls : table) (authority key_hex : string) : iresult table :=
  map ← match tls !! "known_public_keys" with
        | None => Ok ∅
        | Some v => ok_or (as_table v)
                      (update_error BadRequest "tls.known_public_keys must be a table")
        end;
  match not_a_string map with
  | Some existing => Err (update_error BadRequest
      ("tls.known_public_keys['" +:+ existing +:+ "'] must be a string"))
  | None => Ok (<["known_public_keys" := TTable (<[authority := TString key_hex]> map)]> tls)
  end.

(** [write_toml_body_atomic]; [unique] is the clock in nanoseconds. *)
Definition temp_path (config_path : string) (unique : Z) : string :=
  path_join (config_parent_dir config_path)
    ("." +:+ default "imagod.toml" (file_name config_path) +:+ ".tmp-" +:+ to_string unique).

(** The new content, written and flushed beside the file. *)
Definition write_temp_file (unique : Z) (config_path body stage : string) : fsm string :=
  let err what e := new_error Internal stage (what +:+ ": " +:+ fs_error_text e) in
  let parent := config_parent_dir config_path in
  _ ← Tree.lift (create_dir_all io parent) (err ("failed to create parent dir " +:+ parent));
  let tmp_path := temp_path config_path unique in
  _ ← Tree.lift (create_file io tmp_path) (err ("failed to create temp file " +:+ tmp_path));
  _ ← Tree.lift (write io tmp_path (bytes_of body)) (err ("failed to write temp file " +:+ tmp_path));
  _ ← Tree.lift (sync_file io tmp_path) (err ("failed to flush temp file " +:+ tmp_path));
  mret tmp_path.

Definition write_toml_body_atomic (unique : Z) (config_path body stage : string) : fsm unit :=
  tmp_path ← write_temp_file unique config_path body stage;
  Tree.lift (rename io tmp_path config_path)
    (λ e, new_error Internal stage ("failed to atomically replace " +:+ config_path +:+ " with "
            +:+ tmp_path +:+ ": " +:+ fs_error_text e)).

Definition write_toml_root_atomic (unique : Z) (config_path : string) (root : table) : fsm unit :=
  body ← pure (map_err (λ e, update_error Internal ("failed to serialize config: " +:+ e))
           (toml_to_string_pretty root));
  write_toml_body_atomic unique config_path body "config.update".

(** The checks both updates start with: the authority without surrounding blanks. *)
Definition checked_authority (authority public_key_hex : string) : iresult string :=
  let authority := trim authority in
  _ ← ensure (negb (bool_decide (authority = "")))
        (update_error BadRequest "authority must not be empty");
  _ ← map_err (λ reason, update_error BadRequest ("public key is invalid: " +:+ reason))
        (parse_ed25519_raw_public_key_hex public_key_hex);
  Ok authority.

(** The edit of the document, with or without the list of clients. *)
Definition edit_root (also_client : bool) (authority public_key_hex : string) (root : table)
    : iresult table :=
  tls ← ensure_tls_table root;
  let key_lower := to_ascii_lowercase public_key_hex in
  tls ← (if also_client then upsert_client_public_key_value tls key_lower else Ok tls);
  tls ← upsert_known_public_key_value tls authority key_lower;
  Ok (<["tls" := TTable tls]> root).

(** What follows the reading of the file. *)
Definition finish_update (also_client : bool) (unique : Z) (config_path authority public_key_hex : string)
    (root : table) : fsm unit :=
  root ← pure (edit_root also_client authority public_key_hex root);
  _ ← write_toml_root_atomic unique config_path root;
  _ ← load config_path;
  mret tt.

Definition upsert_tls_known_client_key (unique : Z) (config_path authority public_key_hex : string)
    : fsm unit :=
  authority ← pure (checked_authority authority public_key_hex);
  root ← load_toml_root config_path;
  finish_update true unique config_path authority public_key_hex root.

Definition upsert_tls_known_public_key (unique : Z) (config_path authority public_key_hex : string)
    : fsm unit :=
  authority ← pure (checked_authority authority public_key_hex);
  root ← load_toml_root config_path;
  finish_update false unique config_path authority public_key_hex root.

(** *** The first boot *)

Definition init_error (config_path message : string) : ImagodError :=
  with_detail "path" config_path (new_error Internal "config.init" message).

Definition ensure_default_config_dir (config_path : string) : fsm string :=
  let config_dir := config_parent_dir config_path in
  _ ← Tree.lift (create_dir_all io config_dir)
        (λ e, init_error config_path ("failed to create config dir " +:+ config_dir +:+ ": "
                +:+ fs_error_text e));
  Tree.lift (canonicalize io config_dir)
    (λ e, init_error config_path ("failed to canonicalize config dir " +:+ config_dir +:+ ": "
            +:+ fs_error_text e)).

(** [write_private_key_create_new]. *)
Definition write_private_key_create_new (path contents : string) : fs_call unit := λ t,
  match create_new_file io path t with
  | (t, Err e) => (t, Err e)
  | (t, Ok _) =>
    match write io path (bytes_of contents) t with
    | (t, Err e) => (t, Err e)
    | (t, Ok _) => sync_file io path t
    end
  end.

(** [key_pair] is what [rcgen] generates: the private key in PEM format. *)
Definition create_default_server_key_file (key_pair : result string string)
    (server_key_path config_path : string) : fsm unit :=
  pem ← pure (map_err (λ e, init_error config_path ("failed to generate default server key: " +:+ e))
          key_pair);
  outcome ← attempt (write_private_key_create_new server_key_path pem);
  match outcome with
  | Ok _ | Err AlreadyExistsError => mret tt
  | Err e => pure (Err (init_error config_path
      ("failed to write server key " +:+ server_key_path +:+ ": " +:+ fs_error_text e)))
  end.

Definition ensure_default_server_key (key_pair : result string string) (config_path : string)
    : fsm string :=
  config_dir ← ensure_default_config_dir config_path;
  let server_key_path := path_join config_dir DEFAULT_SERVER_KEY_FILENAME in
  found ← attempt (metadata io server_key_path);
  match found with
  | Ok Directory => pure (Err (init_error config_path
      ("server key path points to a directory: " +:+ server_key_path)))
  | Ok (File _) => mret server_key_path
  | Err NotFoundError =>
    _ ← create_default_server_key_file key_pair server_key_path config_path;
    mret server_key_path
  | Err e => pure (Err (init_error config_path
      ("failed to inspect server key path " +:+ server_key_path +:+ ": " +:+ fs_error_text e)))
  end.

Definition resolve_generated_control_socket_path (config_path : string) : fsm string :=
  if bool_decide (components config_path = components DEFAULT_CONFIG_PATH)
  then mret DEFAULT_CONTROL_SOCKET_PATH
  else
    dir ← ensure_default_config_dir config_path;
    mret (path_join dir DEFAULT_CONTROL_SOCKET_FILENAME).

(** The document a first boot writes. *)
Definition default_document (server_key_path control_socket_path : string) : table :=
  <["$schema" := TString IMAGOD_SCHEMA_URL]> (
  <["listen_addr" := TString default_listen_addr]> (
  <["control_socket_path" := TString control_socket_path]> (
  <["server_version" := TString default_server_version]> (
  <["tls" := TTable (<["server_key" := TString server_key_path]> (
             <["client_public_keys" := TArray []]> ∅))]> ∅)))).

Definition write_default_config_atomic (key_pair : result string string) (unique : Z)
    (config_path : string) : fsm unit :=
  server_key_path ← ensure_default_server_key key_pair config_path;
  control_socket_path ← resolve_generated_control_socket_path config_path;
  toml_body ← pure (map_err (λ e, init_error config_path
                ("failed to serialize default config " +:+ config_path +:+ ": " +:+ e))
                (toml_to_string_pretty (default_document server_key_path control_socket_path)));
  let body := AUTOCREATED_CONFIG_COMMENTS +:+ newline +:+ toml_body in
  wrap_err (λ e, init_error config_path
              ("failed to create default config " +:+ config_path +:+ ": " +:+ err_message e))
    (write_toml_body_atomic unique config_path body "config.init").

Definition load_or_create_default (key_pair : result string string) (unique : Z)
    (path : string) : fsm (ImagodConfig * bool) :=
  found ← attempt (metadata io path);
  match found with
  | Ok _ => config ← load path; mret (config, false)
  | Err NotFoundError =>
    _ ← write_default_config_atomic key_pair unique path;
    config ← wrap_err (λ e, init_error path
                ("failed to reload generated default config " +:+ path +:+ ": " +:+ display_error e))
               (load path);
    mret (config, true)
  | Err e => pure (Err (init_error path ("failed to stat config " +:+ path +:+ ": "
                          +:+ fs_error_text e)))
  end.

End files.

(** [resolve_config_path]; [env] is [IMAGOD_CONFIG]. *)
Definition resolve_config_path (cli_path env : option string) : string :=
  match cli_path, env with
  | Some path, _ => path
  | None, Some path => path
  | None, None => DEFAULT_CONFIG_PATH
  end.

(** ** What the daemon starts with ([run_manager]) *)

Definition store_config (config : ImagodConfig) : StoreConfig :=
  let r := ic_runtime config in
  new_store (path_join (ic_storage_root config) "artifacts") (rc_upload_session_ttl_secs r)
    (rc_committed_session_ttl_secs r) (rc_max_committed_sessions r) (rc_chunk_size r)
    (rc_max_inflight_chunks r) (rc_max_artifact_size_bytes r).

(** The part of the configuration that [ProtocolHandler] announces. *)
Definition handler_config (config : ImagodConfig) : HandlerConfig :=
  let r := ic_runtime config in
  {| hc_server_version := ic_server_version config;
     hc_chunk_size := rc_chunk_size r;
     hc_max_inflight_chunks := rc_max_inflight_chunks r;
     hc_max_artifact_size_bytes := rc_max_artifact_size_bytes r;
     hc_upload_session_ttl_secs := rc_upload_session_ttl_secs r;
     hc_deploy_stream_timeout_secs := rc_deploy_stream_timeout_secs r |}.

Definition start_supervisor {R} (io : SetupIo) (open_retained : Z → iresult R)
    (config : ImagodConfig) : iresult (SupervisorConfig * R) :=
  let r := ic_runtime config in
  '(supervisor, retained) ← new_supervisor io open_retained (ic_storage_root config)
      (rc_stop_grace_timeout_secs r) (rc_runner_ready_timeout_secs r)
      (rc_manager_control_read_timeout_ms r) (rc_http_worker_count r)
      (rc_http_worker_queue_capacity r) (rc_runner_log_buffer_bytes r)
      (rc_retained_logs_capacity_bytes r) (rc_epoch_tick_interval_ms r);
  Ok (with_enabled_native_plugins (effective_builtin_native_plugin_package_names (rc_features r))
        (with_http_queue_memory_budget_bytes (rc_http_queue_memory_budget_bytes r)
           (with_wasm_engine_tuning (rc_wasm_memory_reservation_bytes r)
              (rc_wasm_memory_reservation_for_growth_bytes r) (rc_wasm_memory_guard_size_bytes r)
              (rc_wasm_guard_before_linear_memory r) (rc_wasm_parallel_compilation r) supervisor)),
      retained).
