(* ===== verification/ConfigTheorems.v ===== *)
(** * Theorems on the configuration file

    A validated configuration gives the other components the limits they rely on; an
    update of the pinned keys replaces the file as a whole or leaves it, whatever the
    operating system refuses, and the new file is again a valid configuration; a first boot
    creates a file the daemon loads. *)

From stdpp Require Import countable.
From S2P Require Import Prelude Protocol Text IpAddr Ipc Frames Files ArtifactStore Supervisor Paths Tree TreeFacts Manifest Launch Orchestrator Deploy Session Runner ArtifactResume Client Config.

Open Scope string_scope.
Open Scope Z_scope.

(** ** Hexadecimal keys in lower case *)

Lemma decode_hex_nibble_lower b n :
  decode_hex_nibble b = Some n → 0 ≤ n < 16 ∧ ascii_lower b = hex_nibble n.
Proof. destruct b as [[] [] [] [] [] [] [] []]; intros E; vm_compute in E; simplify_eq; split; done || lia. Qed.

Lemma nibbles_of hi lo : 0 ≤ hi < 16 → 0 ≤ lo < 16 →
  Z_of_byte (byte_of_Z (Z.lor (Z.shiftl hi 4) lo)) / 16 = hi ∧
  Z_of_byte (byte_of_Z (Z.lor (Z.shiftl hi 4) lo)) mod 16 = lo.
Proof.
  intros Hh Hl. rewrite <-(Z2Nat.id hi), <-(Z2Nat.id lo) by lia.
  assert (Z.to_nat hi < 16)%nat as H1 by lia. assert (Z.to_nat lo < 16)%nat as H2 by lia.
  generalize dependent (Z.to_nat hi). generalize dependent (Z.to_nat lo). intros l Hl' h Hh'.
  do 16 (destruct h as [|h]; [do 16 (destruct l as [|l]; [done|]); lia|]). lia.
Qed.

Lemma parse_hex_pairs_lower n : ∀ bytes pos out, length bytes = (2 * n)%nat →
  parse_hex_pairs pos bytes = Ok out →
  length out = n ∧ ascii_lower <$> bytes = bytes_of (encode_hex out).
Proof.
  unfold encode_hex. setoid_rewrite bytes_of_string_of_bytes.
  induction n as [|n IH]; intros bytes pos out Hl.
  - destruct bytes; [|done]. by intros [= <-].
  - destruct bytes as [|h [|l rest]]; [simpl in Hl; lia..|]. cbn [parse_hex_pairs].
    intros (hi & Eh%ok_or_Ok & (lo & El%ok_or_Ok & E)%bind_Ok)%bind_Ok. inv_ok.
    apply decode_hex_nibble_lower in Eh as [? Hh]. apply decode_hex_nibble_lower in El as [? Hlow].
    destruct (nibbles_of hi lo) as [E1 E2]; [done..|].
    match goal with E : parse_hex_pairs _ rest = _ |- _ =>
      apply IH in E as [Hlen Hr]; [|simpl in Hl; lia] end.
    csimpl. rewrite E1, E2, Hh, Hlow, Hr, Hlen. done.
Qed.

Lemma parse_lower key_hex key : parse_ed25519_raw_public_key_hex key_hex = Ok key →
  length key = 32%nat ∧ to_ascii_lowercase key_hex = encode_hex key.
Proof.
  unfold parse_ed25519_raw_public_key_hex. case_bool_decide as Hl; [|done]. intros E.
  apply (parse_hex_pairs_lower 32) in E as [? E]; [|done]. split; [done|].
  rewrite <-bytes_of_lower in E. by rewrite <-(string_of_bytes_of (to_ascii_lowercase _)), E, string_of_bytes_of.
Qed.

Lemma parse_lowercase key_hex key : parse_ed25519_raw_public_key_hex key_hex = Ok key →
  parse_ed25519_raw_public_key_hex (to_ascii_lowercase key_hex) = Ok key.
Proof. intros [? ->]%parse_lower. by apply parse_encode_hex. Qed.

(** ** Validation *)

Definition is_key (key_hex : string) : Prop :=
  ∃ key, parse_ed25519_raw_public_key_hex key_hex = Ok key.

Lemma unique_keys_spec field hexes : ∀ index seen,
  (∃ all, parse_unique_public_key_hexes field index seen hexes = Ok all) ↔
  ∃ keys, Forall2 (λ h k, parse_ed25519_raw_public_key_hex h = Ok k) hexes keys ∧ NoDup keys ∧
    ∀ k, k ∈ keys → k ∉ seen.
Proof.
  induction hexes as [|h hexes IH]; intros index seen; simpl.
  - split; [|by eexists]. intros _. exists []. split_and!; [done|constructor|set_solver].
  - split.
    + intros [all (k & Hk%map_err_Ok & (u & Hn%ensure_Ok & E)%bind_Ok)%bind_Ok].
      rewrite negb_true_iff, bool_decide_eq_false in Hn.
      destruct (proj1 (IH (index + 1) ({[k]} ∪ seen))) as (keys & Hf & Hnd & Hd); [by eexists|].
      exists (k :: keys). split_and!; [by constructor| |set_solver].
      constructor; [|done]. intros Hin. set_solver.
    + intros (keys & (k & ks & Hk & Hf & ->)%Forall2_cons_inv_l & [Hn Hnd]%NoDup_cons & Hd).
      rewrite Hk. simpl. rewrite bool_decide_false by set_solver. simpl.
      apply IH. exists ks. split_and!; [done..|set_solver].
Qed.

Lemma known_keys_spec entries :
  parse_known_public_keys entries = Ok tt ↔
  Forall (λ '(a, k), trim a ≠ "" ∧ is_key k) entries.
Proof.
  induction entries as [|[a k] entries IH]; [by rewrite Forall_nil|]. cbn [parse_known_public_keys].
  rewrite Forall_cons, <-IH. split.
  - intros E. cbv zeta in E. inv_ok. rewrite negb_true_iff, bool_decide_eq_false in *.
    split_and!; [done|by eexists|done].
  - intros [[Ha [key Hk]] Hr]. rewrite bool_decide_false, Hk by done. exact Hr.
Qed.

Lemma known_map_spec m :
  parse_known_public_key_map m = Ok tt ↔ map_Forall (λ a k, trim a ≠ "" ∧ is_key k) m.
Proof.
  unfold parse_known_public_key_map. rewrite known_keys_spec, Forall_forall. split.
  - intros Hf a k Hk. by apply (Hf (a, k)), elem_of_btree_iter.
  - intros Hf [a k] Hin%elem_of_btree_iter. by apply Hf.
Qed.

Lemma validate_config_Ok c :
  validate_config c = Ok tt ↔
  is_absolute (ic_control_socket_path c) = true ∧
  (∃ keys, Forall2 (λ h k, parse_ed25519_raw_public_key_hex h = Ok k)
     (tls_client_public_keys (ic_tls c)) keys ∧ NoDup keys) ∧
  map_Forall (λ a k, trim a ≠ "" ∧ is_key k) (tls_known_public_keys (ic_tls c)) ∧
  validate_runtime (ic_runtime c) = Ok tt.
Proof.
  unfold validate_config. rewrite <-known_map_spec. split.
  - intros E. inv_ok. split_and!; [done| |by destruct_all unit|done].
    match goal with E : parse_unique_public_key_hexes ?f ?i ?s ?l = Ok _ |- _ =>
      destruct (proj1 (unique_keys_spec f l i s)) as (keys & ? & ? & _); [by eexists|] end.
    by exists keys.
  - intros (Ha & (keys & Hf & Hnd) & Hk & Hr).
    destruct (proj2 (unique_keys_spec "tls.client_public_keys" (tls_client_public_keys (ic_tls c)) 0 ∅))
      as [all Hu]; [exists keys; set_solver|].
    destruct (ic_control_socket_path c) eqn:Es; [done|].
    rewrite Ha, Hu, Hk. exact Hr.
Qed.

(** ** The edit of the document *)

Lemma as_string_map_spec m km : as_string_map (TTable m) = Some km ↔ m = TString <$> km.
Proof.
  unfold as_string_map. simpl. split.
  - case_bool_decide as Hm; [|done]. intros [= <-]. apply map_eq. intros k.
    rewrite lookup_fmap, lookup_omap. destruct (m !! k) as [v|] eqn:E; [|done].
    destruct (Hm _ _ E) as [s Hs]. by destruct v; simplify_eq/=.
  - intros ->. rewrite bool_decide_true.
    + f_equal. apply map_eq. intros k. rewrite lookup_omap, lookup_fmap. by destruct (km !! k).
    + intros k v. rewrite lookup_fmap. destruct (km !! k); naive_solver.
Qed.

Lemma strings_only km : not_a_string (TString <$> km) = None.
Proof.
  unfold not_a_string. destruct (filter _ _) as [|[k v] l] eqn:E; [done|]. exfalso.
  assert ((k, v) ∈ filter (λ '(_, v), as_str v = None) (btree_iter (TString <$> km))) as Hin
    by (rewrite E; left).
  apply list_elem_of_filter in Hin as [Hv Hin%elem_of_btree_iter].
  rewrite lookup_fmap in Hin. destruct (km !! k); naive_solver.
Qed.


Definition with_tls (tls : TlsConfig) (c : ImagodConfig) : ImagodConfig :=
  {| ic_listen_addr := ic_listen_addr c; ic_control_socket_path := ic_control_socket_path c;
     ic_tls := tls; ic_storage_root := ic_storage_root c; ic_runtime := ic_runtime c;
     ic_server_version := ic_server_version c |}.

(** The clients after a key was added: in lower case, the key once. *)
Definition with_client (key_hex : string) (keys : list string) : list string :=
  let keys := to_ascii_lowercase <$> keys in
  if bool_decide (key_hex ∈ keys) then keys else (keys ++ [key_hex])%list.

(** The configuration with a key pinned for an authority. *)
Definition pinned (also_client : bool) (authority key_hex : string) (c : ImagodConfig) : ImagodConfig :=
  let key_hex := to_ascii_lowercase key_hex in
  with_tls
    {| tls_server_key := tls_server_key (ic_tls c);
       tls_client_public_keys :=
         if also_client then with_client key_hex (tls_client_public_keys (ic_tls c))
         else tls_client_public_keys (ic_tls c);
       tls_known_public_keys := <[authority := key_hex]> (tls_known_public_keys (ic_tls c)) |} c.

Lemma field_other {A} (read : Toml → option A) d m k v name :
  name ≠ k → field read d (<[k := v]> m) name = field read d m name.
Proof. intros Hn. unfold field. by rewrite lookup_insert_ne. Qed.

Lemma as_strings_spec v keys : as_strings v = Some keys ↔ v = TArray (TString <$> keys).
Proof.
  unfold as_strings. split.
  - intros (array & Ha & Hk)%bind_Some. destruct v; simplify_eq/=. f_equal.
    symmetry. apply (mapM_fmap_Some_inv as_str TString); [done|]. intros x y E; destruct x; by simplify_eq/=.
  - intros ->. simpl. by apply mapM_fmap_Some.
Qed.

Lemma lowercase_keys_spec keys : ∀ index,
  lowercase_keys index (TString <$> keys) = Ok (to_ascii_lowercase <$> keys).
Proof. induction keys as [|k keys IH]; intros index; [done|]. csimpl. by rewrite IH. Qed.

Lemma tls_of_spec m T :
  tls_of m = Some T ↔
  m !! "server_key" = Some (TString (tls_server_key T)) ∧
  m !! "client_public_keys" = Some (TArray (TString <$> tls_client_public_keys T)) ∧
  field as_string_map ∅ m "known_public_keys" = Some (tls_known_public_keys T).
Proof.
  unfold tls_of. split.
  - intros (sk & (v & Hv & Hs)%bind_Some & E)%bind_Some.
    apply bind_Some in E as (ks & (w & Hw & Hk%as_strings_spec)%bind_Some & E).
    apply bind_Some in E as (km & Hm & [= <-]). destruct v; simplify_eq/=. done.
  - intros (Hs & Hc & Hk). rewrite Hs, Hc. simpl.
    rewrite (proj2 (as_strings_spec _ _) eq_refl). simpl. rewrite Hk. by destruct T.
Qed.

Lemma upsert_client_spec tls T key_hex :
  tls_of tls = Some T →
  ∃ tls', upsert_client_public_key_value tls key_hex = Ok tls' ∧
    tls_of tls' = Some {| tls_server_key := tls_server_key T;
                          tls_client_public_keys := with_client key_hex (tls_client_public_keys T);
                          tls_known_public_keys := tls_known_public_keys T |}.
Proof.
  intros (Hs & Hc & Hk)%tls_of_spec. eexists. unfold upsert_client_public_key_value. rewrite Hc. simpl.
  rewrite lowercase_keys_spec. simpl. split; [done|]. apply tls_of_spec. simpl.
  rewrite field_other, lookup_insert_ne, lookup_insert_eq by done. done.
Qed.

Lemma upsert_known_spec tls T authority key_hex :
  tls_of tls = Some T →
  ∃ tls', upsert_known_public_key_value tls authority key_hex = Ok tls' ∧
    tls_of tls' = Some {| tls_server_key := tls_server_key T;
                          tls_client_public_keys := tls_client_public_keys T;
                          tls_known_public_keys := <[authority := key_hex]> (tls_known_public_keys T) |}.
Proof.
  intros (Hs & Hc & Hk)%tls_of_spec. unfold upsert_known_public_key_value.
  assert (∃ v, (tls !! "known_public_keys" = None ∧ v = ∅ ∨ tls !! "known_public_keys" = Some (TTable v)) ∧
    v = TString <$> tls_known_public_keys T) as (v & Hv & ->).
  { unfold field in Hk. destruct (tls !! "known_public_keys") as [w|]; [|].
    - destruct w as [| | | | |m]; try done. apply as_string_map_spec in Hk. naive_solver.
    - exists ∅. injection Hk as <-. by rewrite fmap_empty; auto. }
  eexists. split.
  - destruct Hv as [[-> E]| ->]; simpl; [rewrite <-E|]; by rewrite strings_only.
  - apply tls_of_spec. simpl. rewrite !lookup_insert_ne by done. split_and!; [done..|].
    unfold field. rewrite lookup_insert_eq. apply as_string_map_spec. by rewrite fmap_insert.
Qed.

Lemma fields_of_tls b root c :
  fields_of b root = Some c →
  ∃ tls, root !! "tls" = Some (TTable tls) ∧ tls_of tls = Some (ic_tls c) ∧
    ∀ tls' T, tls_of tls' = Some T → fields_of b (<["tls" := TTable tls']> root) = Some (with_tls T c).
Proof.
  unfold fields_of. intros E.
  repeat match type of E with _ ≫= _ = Some _ => apply bind_Some in E as (? & ? & E) end.
  injection E as <-. simpl.
  match goal with E : tls_field _ = Some _ |- _ =>
    apply bind_Some in E as ([| | | | |tls] & Ht & E); try done; simpl in E end.
  exists tls. split_and!; [done..|]. intros tls' T HT.
  assert (tls_field (<["tls" := TTable tls']> root) = Some T) as HT'
    by (unfold tls_field; by rewrite lookup_insert_eq).
  rewrite HT', !field_other by done.
  repeat match goal with E : field _ _ root _ = Some _ |- _ => rewrite E; clear E; simpl end. done.
Qed.

Lemma edit_document b also_client authority key_hex root c :
  document_of b (TTable root) = Some c →
  ∃ root', edit_root also_client authority key_hex root = Ok root' ∧
    document_of b (TTable root') = Some (pinned also_client authority key_hex c).
Proof.
  unfold document_of. simpl. intros (sch & Hs & E)%bind_Some.
  apply fields_of_tls in E as (tls & Ht & HT & Hfields).
  assert (∃ tls1 T1, (if also_client
     then upsert_client_public_key_value tls (to_ascii_lowercase key_hex) else Ok tls) = Ok tls1 ∧
     tls_of tls1 = Some T1 ∧ T1 = {| tls_server_key := tls_server_key (ic_tls c);
       tls_client_public_keys := if also_client
         then with_client (to_ascii_lowercase key_hex) (tls_client_public_keys (ic_tls c))
         else tls_client_public_keys (ic_tls c);
       tls_known_public_keys := tls_known_public_keys (ic_tls c) |}) as (tls1 & T1 & Hc & HT1 & ->).
  { destruct also_client.
    - destruct (upsert_client_spec tls _ (to_ascii_lowercase key_hex) HT) as (tls1 & ? & ?). eauto.
    - exists tls, (ic_tls c). split_and!; [done..|]. by destruct (ic_tls c). }
  destruct (upsert_known_spec tls1 _ authority (to_ascii_lowercase key_hex) HT1) as (tls2 & Hk & HT2).
  eexists. unfold edit_root, ensure_tls_table. rewrite Ht. simpl. rewrite Hc. simpl. rewrite Hk. simpl.
  split; [done|]. unfold schema_of in *. rewrite field_other, Hs by done. simpl. by apply Hfields.
Qed.

(** A pinned configuration is again a valid one. *)
Lemma with_client_keys key_hex key hexes keys :
  Forall2 (λ h k, parse_ed25519_raw_public_key_hex h = Ok k) hexes keys → NoDup keys →
  parse_ed25519_raw_public_key_hex key_hex = Ok key →
  ∃ keys', Forall2 (λ h k, parse_ed25519_raw_public_key_hex h = Ok k)
             (with_client (to_ascii_lowercase key_hex) hexes) keys' ∧ NoDup keys'.
Proof.
  intros Hf Hnd Hkey.
  assert (Forall2 (λ h k, parse_ed25519_raw_public_key_hex h = Ok k) (to_ascii_lowercase <$> hexes) keys)
    as Hf' by (rewrite Forall2_fmap_l; eapply Forall2_impl; [done|]; intros; by apply parse_lowercase).
  unfold with_client. case_bool_decide as Hin; [by exists keys|].
  exists (keys ++ [key])%list. split.
  - apply Forall2_app; [done|]. constructor; [by apply parse_lowercase|constructor].
  - apply NoDup_app. split_and!; [done| |by apply NoDup_singleton].
    intros k Hk ->%list_elem_of_singleton. apply Hin.
    apply parse_lower in Hkey as [_ ->].
    apply list_elem_of_lookup in Hk as [i Hi].
    eapply Forall2_lookup_r in Hi as (h & Hh & Hp); [|exact Hf].
    apply parse_lower in Hp as [_ <-]. apply list_elem_of_fmap. exists h. split; [done|].
    by eapply list_elem_of_lookup_2.
Qed.

Lemma pinned_valid also_client authority key_hex c :
  validate_config c = Ok tt → trim authority ≠ "" → is_key key_hex →
  validate_config (pinned also_client authority key_hex c) = Ok tt.
Proof.
  rewrite !validate_config_Ok. intros (Ha & (keys & Hf & Hnd) & Hk & Hr) Hau [key Hkey]. simpl.
  split_and!; [done| | |done].
  - destruct also_client; [|by exists keys]. by eapply with_client_keys.
  - apply map_Forall_insert_2; [|done]. split; [done|]. exists key. by apply parse_lowercase.
Qed.

(** ** The directory of the file *)

Lemma components_shape path :
  ∃ anchor rest, components path = (anchor ++ rest)%list ∧
    (anchor = [] ∨ anchor = [RootDir] ∨ anchor = [CurDir]) ∧
    Forall (λ c, c = ParentDir ∨ ∃ n, c = Normal n ∧ proper n) rest.
Proof.
  eexists _, _. split; [reflexivity|]. split; [repeat case_match; auto|].
  apply Forall_forall. intros c (part & Hc & Hp)%list_elem_of_bind.
  assert (c ∈ components path) as Hin by (apply elem_of_app; right; apply list_elem_of_bind; eauto).
  revert Hc. unfold component_of. destruct (_ || _); [by intros ?%elem_of_nil|].
  case_bool_decide; intros ->%list_elem_of_singleton; [by left|right].
  eexists. split; [done|]. by eapply components_proper.
Qed.

Lemma components_snoc path c :
  c = ParentDir ∨ (∃ n, c = Normal n ∧ proper n) →
  components (path_join path (component_text c)) = (components path ++ [c])%list.
Proof.
  intros [->|(n & -> & Hn)].
  - by apply components_join_rel.
  - assert (split "/"%char n = [n]) as Hs by (apply split_none; by destruct Hn as (_ & _ & _ & ?)).
    simpl. rewrite components_join by (rewrite Hs; by constructor).
    unfold parts. rewrite Hs. simpl. by rewrite component_of_proper.
Qed.

Lemma components_of_components anchor rest :
  (anchor = [] ∨ anchor = [RootDir] ∨ anchor = [CurDir]) →
  Forall (λ c, c = ParentDir ∨ ∃ n, c = Normal n ∧ proper n) rest →
  components (path_of_components (anchor ++ rest)) = (anchor ++ rest)%list.
Proof.
  intros Ha. induction rest as [|c rest IH] using rev_ind.
  - intros _. rewrite app_nil_r. by destruct Ha as [->|[->| ->]].
  - intros [Hr Hc%Forall_inv]%Forall_app. rewrite app_assoc.
    unfold path_of_components. rewrite foldl_app. simpl. rewrite components_snoc by exact Hc.
    f_equal. by apply IH.
Qed.

Lemma parent_key path name :
  file_name path = Some name →
  key path = (key (config_parent_dir path) ++ [name])%list.
Proof.
  unfold file_name. destruct (last (components path)) as [[| | |n]|] eqn:E; try done. intros [= ->].
  apply last_Some in E as [l E]. destruct (components_shape path) as (anchor & rest & Hc & Ha & Hr).
  assert (components (path_of_components l) = l) as Hl.
  { destruct rest as [|c rest _] using rev_ind.
    - rewrite app_nil_r in Hc. rewrite Hc in E. destruct l as [|x l]; [done|].
      by destruct Ha as [->|[->| ->]]; destruct l.
    - rewrite app_assoc, E in Hc. apply app_inj_tail in Hc as [-> _].
      apply Forall_app in Hr as [Hr _]. by apply components_of_components. }
  assert (config_parent_dir path = if decide (path_of_components l = "") then "." else path_of_components l) as ->.
  { unfold config_parent_dir, parent. rewrite E, last_snoc, removelast_last.
    by destruct (path_of_components l). }
  unfold key at 1. rewrite E, bind_app. simpl. f_equal.
  destruct (decide _) as [Hn|_].
  - rewrite Hn in Hl. by rewrite <-Hl.
  - unfold key. by rewrite Hl.
Qed.

Lemma to_string_no_slash z : "/"%char ∉ bytes_of (to_string z).
Proof.
  assert (∀ n, "/"%char ∉ bytes_of (pretty (A := N) n)) as Hn.
  { intros n Hin. pose proof (pretty_N_digits n) as Hd. unfold all_chars in Hd.
    rewrite forallb_forall in Hd. by apply list_elem_of_In, Hd in Hin. }
  destruct z as [|p|p]; [apply (Hn 0%N)|apply (Hn (N.pos p))|].
  simpl. intros [?|Hin]%elem_of_cons; [done|]. by apply (Hn (N.pos p)).
Qed.

Definition temp_name (path : string) (unique : Z) : string :=
  "." +:+ default "imagod.toml" (file_name path) +:+ ".tmp-" +:+ to_string unique.

Lemma temp_name_proper path unique : proper (temp_name path unique).
Proof.
  assert (∀ n, "/"%char ∉ bytes_of n → proper ("." +:+ n +:+ ".tmp-" +:+ to_string unique)) as Hp.
  { intros n Hn. unfold proper. split_and!; [done| | |].
    - destruct n; done.
    - by destruct n as [|c [|]].
    - rewrite !bytes_of_app. pose proof (to_string_no_slash unique). set_solver. }
  unfold temp_name. destruct (file_name path) as [n|] eqn:E; simpl; apply Hp.
  - apply file_name_proper in E. by destruct E as (_ & _ & _ & ?).
  - apply (bool_decide_unpack _). vm_compute. exact I.
Qed.

Lemma temp_key path unique :
  key (temp_path path unique) = (key (config_parent_dir path) ++ [temp_name path unique])%list.
Proof. apply key_join_name, temp_name_proper. Qed.

Lemma temp_other path unique name :
  file_name path = Some name → key (temp_path path unique) ≠ key path.
Proof.
  intros Hn. rewrite temp_key, (parent_key path name) by done. intros [_ E]%app_inj_tail.
  unfold temp_name in E. rewrite Hn in E. simpl in E.
  apply (f_equal String.length) in E. rewrite <-!length_bytes_of in E.
  change ("." +:+ ?s) with (String "." s) in E. simpl in E. rewrite !bytes_of_app, !length_app in E. lia.
Qed.

(** ** Replacing the file *)

Section replace.
Context (io : FsIo).

Lemma touches_create_file (P C : list string → Prop) path :
  P (key path) → touches P C (create_file io path).
Proof.
  intros Hp t x. unfold create_file, guarded. destruct (decide (x = key path)) as [->|Hx]; [by left|].
  right; left. repeat case_match; simpl; rewrite ?lookup_insert_ne by done; done.
Qed.

Lemma touches_create_new_file (P C : list string → Prop) path :
  P (key path) → touches P C (create_new_file io path).
Proof.
  intros Hp t x. unfold create_new_file, guarded. destruct (decide (x = key path)) as [->|Hx]; [by left|].
  right; left. repeat case_match; simpl; rewrite ?lookup_insert_ne by done; done.
Qed.

Lemma touches_sync_file P C path : touches P C (sync_file io path).
Proof. apply touches_guarded. intros t x. by right; left. Qed.

Lemma touches_temp unique path body stage :
  touches (λ x, x = key (temp_path path unique)) (λ x, under x (key (config_parent_dir path)))
    (write_temp_file io unique path body stage).
Proof.
  unfold write_temp_file. touch;
    [by apply touches_create_dir_all|by apply touches_create_file|by apply touches_write
    |apply touches_sync_file].
Qed.

Lemma write_temp_Ok unique path body stage t t1 tmp :
  write_temp_file io unique path body stage t = (t1, Ok tmp) →
  tmp = temp_path path unique ∧ t1 !! key tmp = Some (File (bytes_of body)).
Proof.
  unfold write_temp_file. intros E. cbv zeta in E. inv_fsm. split; [done|].
  repeat match goal with E : Tree.lift _ _ _ = _ |- _ => apply lift_inv in E end.
  match goal with E : sync_file _ _ _ = _ |- _ =>
    unfold sync_file, guarded in E; destruct (io_fault _ _ _); simplify_eq end.
  match goal with E : write _ _ _ _ = _ |- _ => apply write_Ok_inv in E as -> end.
  by rewrite lookup_insert_eq.
Qed.

(** Renaming a file onto a place that is not a directory. *)
Lemma rename_file from_ to_ content t t' r :
  t !! key from_ = Some (File content) → rename io from_ to_ t = (t', r) →
  (r = Ok tt ∧ t' = <[key to_ := File content]> (delete (key from_) t)) ∨ (t' = t ∧ ∃ e, r = Err e).
Proof.
  intros Hf. unfold rename. rewrite Hf. repeat case_match; naive_solver.
Qed.

Lemma not_under_parent path name :
  file_name path = Some name → ¬ under (key path) (key (config_parent_dir path)).
Proof.
  intros Hn [l E]. rewrite (parent_key path name Hn) in E.
  apply (f_equal length) in E. rewrite !length_app in E. simpl in E. lia.
Qed.

(** The file is replaced by exactly the new content when the call answers [Ok], and left alone
    otherwise; only the temporary file and missing directories appear besides. *)
Lemma write_atomic_spec unique path name body stage t t' r :
  file_name path = Some name → write_toml_body_atomic io unique path body stage t = (t', r) →
  t' !! key path = (if r is Ok _ then Some (File (bytes_of body)) else t !! key path) ∧
  changed_within (λ x, x = key path ∨ x = key (temp_path path unique))
    (λ x, under x (key (config_parent_dir path))) t t'.
Proof.
  intros Hn. unfold write_toml_body_atomic, mbind, fsm_bind.
  pose proof (touches_temp unique path body stage t) as Ht.
  assert ((write_temp_file io unique path body stage t).1 !! key path = t !! key path) as Hk.
  { destruct (Ht (key path)) as [E|[E|(Hu & _)]]; [|done|].
    - by apply (temp_other path unique name) in Hn.
    - by apply (not_under_parent path name) in Hu. }
  assert (changed_within (λ x, x = key path ∨ x = key (temp_path path unique))
    (λ x, under x (key (config_parent_dir path))) t (write_temp_file io unique path body stage t).1) as Hc
    by (intros x; destruct (Ht x) as [?|[?|?]]; auto).
  destruct (write_temp_file io unique path body stage t) as [t1 [tmp|e]] eqn:E; simpl in *.
  2: { by intros [= <- <-]. }
  apply write_temp_Ok in E as [-> Htmp]. unfold Tree.lift.
  destruct (rename io (temp_path path unique) path t1) as [t2 r2] eqn:Er.
  intros [= <- <-]. apply (rename_file _ _ (bytes_of body)) in Er as [[-> ->]|[-> [e ->]]]; [|done..].
  simpl. rewrite lookup_insert_eq. split; [done|].
  eapply changed_trans; [exact Hc|]. intros x.
  destruct (decide (x = key path)) as [->|?]; [by left; left|].
  destruct (decide (x = key (temp_path path unique))) as [->|?]; [by left; right|].
  right; left. by rewrite lookup_insert_ne, lookup_delete_ne.
Qed.

(** *** Progress *)

Definition calm : Prop := ∀ op k, io_fault io op k = None.

(** Nothing but directories on the way to [k]. *)
Definition open_way (k : list string) (t : tree) : Prop :=
  ∀ d content, under d k → t !! d ≠ Some (File content).

Lemma open_way_kept P k t t' :
  open_way k t → changed_within P (λ x, under x k) t t' → (∀ x, P x → ¬ under x k) → open_way k t'.
Proof.
  intros Hw Hc HP d content Hd. specialize (Hw d content Hd).
  destruct (Hc d) as [?|[->|(_ & _ & ->)]]; [|done..]. exfalso. by eapply HP.
Qed.

Lemma mkdirs_Ok : ∀ rest acc t, open_way (acc ++ rest) t → ∃ t', mkdirs acc rest t = (t', Ok tt).
Proof.
  induction rest as [|n rest IH]; intros acc t Hw; simpl; [by eexists|].
  destruct (IH (acc ++ [n])%list (<[(acc ++ [n])%list := Directory]> t)) as [t' Ht'].
  - intros d content Hd. rewrite <-app_assoc in Hd. specialize (Hw d content Hd).
    destruct (decide (d = acc ++ [n])%list) as [->|?]; [by rewrite lookup_insert_eq|].
    by rewrite lookup_insert_ne.
  - specialize (Hw (acc ++ [n])%list).
    destruct (t !! (acc ++ [n])%list) as [[content|]|]; [|by exists t'..].
    exfalso. apply (Hw content); [|done]. exists rest. by rewrite <-app_assoc.
Qed.

Lemma create_dir_Ok path t :
  calm → open_way (key path) t →
  ∃ t', create_dir_all io path t = (t', Ok tt) ∧
    changed_within nothing (λ x, under x (key path)) t t' ∧
    ∀ n, has_parent (key path ++ [n]) t' = true.
Proof.
  intros Hc Hw. destruct (mkdirs_Ok (key path) [] t Hw) as [t' Ht'].
  assert (create_dir_all io path t = (t', Ok tt)) as E
    by (unfold create_dir_all, guarded; by rewrite Hc).
  exists t'. split_and!; [done| |].
  - pose proof (touches_create_dir_all io nothing (λ x, under x (key path)) path ltac:(done) t) as Ht.
    by rewrite E in Ht.
  - intros n. destruct (decide (key path = [])) as [->|Hk]; [done|].
    rewrite has_parent_snoc by done. apply bool_decide_eq_true. by eapply create_dir_all_directory.
Qed.

Lemma has_parent_sibling dir n m e t :
  has_parent (dir ++ [n]) (<[(dir ++ [m])%list := e]> t) = has_parent (dir ++ [n]) t.
Proof.
  unfold has_parent. rewrite removelast_last. destruct dir as [|a dir]; [done|].
  rewrite lookup_insert_ne; [done|]. intros E. apply (f_equal length) in E.
  rewrite length_app in E. simpl in E. lia.
Qed.

Lemma calm_write unique path name body stage t :
  calm → file_name path = Some name → open_way (key (config_parent_dir path)) t →
  t !! key path ≠ Some Directory → t !! key (temp_path path unique) ≠ Some Directory →
  ∃ t', write_toml_body_atomic io unique path body stage t = (t', Ok tt).
Proof.
  intros Hc Hn Hw Hd Htmp.
  destruct (create_dir_Ok (config_parent_dir path) t Hc Hw) as (t1 & E1 & Hch & Hpar).
  assert (∀ n, t1 !! (key (config_parent_dir path) ++ [n])%list
               = t !! (key (config_parent_dir path) ++ [n])%list) as Hsame.
  { intros n. destruct (Hch (key (config_parent_dir path) ++ [n])%list) as [[]|[?|[[l E] _]]]; [done|].
    apply (f_equal length) in E. rewrite !length_app in E. simpl in E. lia. }
  pose proof (temp_other path unique name Hn) as Hne.
  pose proof (temp_key path unique) as Htk. pose proof (parent_key path name Hn) as Hpk.
  assert (create_file io (temp_path path unique) t1
          = (<[key (temp_path path unique) := File []]> t1, Ok tt)) as E2.
  { unfold create_file, guarded. rewrite Hc.
    assert (t1 !! key (temp_path path unique) ≠ Some Directory) as H1 by by rewrite Htk, Hsame, <-Htk.
    assert (has_parent (key (temp_path path unique)) t1 = true) as -> by by rewrite Htk.
    by destruct (t1 !! key (temp_path path unique)) as [[]|]. }
  unfold write_toml_body_atomic, write_temp_file, mbind, fsm_bind, Tree.lift.
  rewrite E1. cbn [map_err]. rewrite E2. cbn [map_err].
  rewrite write_Ok; [|apply Hc|by rewrite lookup_insert_eq|by rewrite Htk, has_parent_sibling].
  cbn [map_err]. unfold sync_file, guarded. rewrite Hc. cbn [map_err]. unfold mret, fsm_ret.
  unfold rename. rewrite Hc, lookup_insert_eq, Hpk, Htk, !has_parent_sibling, Hpar. cbn [negb].
  rewrite bool_decide_false; [by eexists|]. rewrite <-Hpk, <-Htk, !lookup_insert_ne by done.
  by rewrite Hpk, Hsame, <-Hpk.
Qed.

End replace.

(** ** Updates *)

Section updates.
Context `{TL : TomlLaws b}.

(** The file at [path] is a valid configuration [c]. *)
Definition holds (path : string) (c : ImagodConfig) (t : tree) : Prop :=
  ∃ content v, t !! key path = Some (File content) ∧ is_utf8 content = true ∧
    toml_from_str (string_of_bytes content) = Ok v ∧ document_of b v = Some c ∧
    validate_config c = Ok tt.

Lemma holds_same path c t t' : t' !! key path = t !! key path → holds path c t → holds path c t'.
Proof. unfold holds. by intros ->. Qed.

Lemma load_same io path t : (load io path t).1 = t.
Proof.
  unfold load, mbind, fsm_bind, Tree.lift, read_to_string, pure.
  pose proof (read_same io path t) as E. destruct (read io path t) as [t1 r]. simpl in E. subst t1.
  repeat case_match; naive_solver.
Qed.

Lemma read_to_string_text io path content t :
  t !! key path = Some (File content) → is_utf8 content = true →
  read_to_string io path t =
    (t, match io_fault io OpRead (key path) with
        | Some m => Err (OtherError m)
        | None => Ok (string_of_bytes content)
        end).
Proof.
  intros Ht Hu. unfold read_to_string, read, guarded.
  destruct (io_fault io OpRead (key path)); [done|]. by rewrite Ht, Hu.
Qed.

Lemma load_holds io path c t :
  holds path c t → io_fault io OpRead (key path) = None → load io path t = (t, Ok c).
Proof.
  intros (content & v & Ht & Hu & Hp & Hd & Hv) Hf. unfold load, mbind, fsm_bind, Tree.lift.
  rewrite (read_to_string_text io path content), Hf by done. simpl. unfold pure. rewrite Hp. simpl.
  rewrite (decode_document v c) by done. simpl. by rewrite Hv.
Qed.

Lemma load_root_spec io path c t t' r :
  holds path c t → load_toml_root io path t = (t', r) →
  t' = t ∧ (io_fault io OpRead (key path) = None → ∃ root, r = Ok root) ∧
  ∀ root, r = Ok root → document_of b (TTable root) = Some c.
Proof.
  intros (content & v & Ht & Hu & Hp & Hd & Hv). unfold load_toml_root, mbind, fsm_bind, Tree.lift.
  rewrite (read_to_string_text io path content) by done.
  destruct (io_fault io OpRead (key path)); simpl; [by intros [= <- <-]|]. unfold pure. rewrite Hp. simpl.
  destruct v as [| | | | |root]; try done. intros [= <- <-]. naive_solver.
Qed.

Lemma written_holds path root body c t :
  toml_to_string_pretty root = Ok body → document_of b (TTable root) = Some c →
  validate_config c = Ok tt → t !! key path = Some (File (bytes_of body)) → holds path c t.
Proof.
  intros Hb Hd Hv Ht. exists (bytes_of body), (TTable root). rewrite string_of_bytes_of.
  split_and!; [done|by eapply print_utf8|by apply print_parse|done..].
Qed.

(** The second half of an update, on the document read in the first. *)
Lemma finish_update_spec io also_client unique path name authority key_hex root c t t' r :
  file_name path = Some name → trim authority ≠ "" → is_key key_hex →
  document_of b (TTable root) = Some c → validate_config c = Ok tt →
  finish_update io also_client unique path authority key_hex root t = (t', r) →
  (t' !! key path = t !! key path ∧ r ≠ Ok tt ∨ holds path (pinned also_client authority key_hex c) t') ∧
  changed_within (λ x, x = key path ∨ x = key (temp_path path unique))
    (λ x, under x (key (config_parent_dir path))) t t'.
Proof.
  intros Hn Ha Hk Hd Hv. unfold finish_update, write_toml_root_atomic, mbind, fsm_bind.
  destruct (edit_document b also_client authority key_hex root c Hd) as (root' & -> & Hd').
  destruct (print_total root') as [body Hb]. unfold pure. rewrite Hb. simpl.
  destruct (write_toml_body_atomic _ _ _ _ _ t) as [t1 r1] eqn:Ew.
  apply (write_atomic_spec io unique path name) in Ew as [Hf Hc]; [|done].
  destruct r1 as [u|e].
  - pose proof (load_same io path t1) as Hl. destruct (load io path t1) as [t2 r2]. simpl in Hl. subst t2.
    assert (holds path (pinned also_client authority key_hex c) t1)
      by (eapply written_holds; [done..|by apply pinned_valid|done]).
    destruct r2; intros [= <- <-]; auto.
  - intros [= <- <-]. auto.
Qed.

Lemma checked_authority_spec authority key_hex a :
  checked_authority authority key_hex = Ok a ↔ a = trim authority ∧ a ≠ "" ∧ is_key key_hex.
Proof.
  unfold checked_authority, is_key. split.
  - intros E. cbv zeta in E. inv_ok. rewrite negb_true_iff, bool_decide_eq_false in *. naive_solver.
  - intros (-> & Ha & key & Hk). by rewrite bool_decide_false, Hk by done.
Qed.

Definition upsert (also_client : bool) :=
  if also_client then upsert_tls_known_client_key else upsert_tls_known_public_key.

Lemma upsert_unfold io also_client unique path authority key_hex :
  upsert also_client io unique path authority key_hex =
  (a ← pure (checked_authority authority key_hex);
   root ← load_toml_root io path;
   finish_update io also_client unique path a key_hex root).
Proof. by destruct also_client. Qed.

Lemma calm_finish io also_client unique path name authority key_hex root c t :
  calm io → file_name path = Some name →
  open_way (key (config_parent_dir path)) t → t !! key (temp_path path unique) ≠ Some Directory →
  t !! key path ≠ Some Directory → trim authority ≠ "" → is_key key_hex →
  document_of b (TTable root) = Some c → validate_config c = Ok tt →
  ∃ t', finish_update io also_client unique path authority key_hex root t = (t', Ok tt).
Proof.
  intros Hc Hn Hw Htmp Hp Ha Hk Hd Hv.
  unfold finish_update, write_toml_root_atomic, mbind, fsm_bind, pure.
  destruct (edit_document b also_client authority key_hex root c Hd) as (root' & -> & Hd').
  destruct (print_total root') as [body Hb]. rewrite Hb. cbn [map_err].
  destruct (calm_write io unique path name body "config.update" t) as [t2 Hw2]; [done..|].
  rewrite Hw2. apply (write_atomic_spec io unique path name) in Hw2 as [Hf2 _]; [|done].
  erewrite load_holds; [by eexists| |apply Hc].
  eapply written_holds; [done..| |exact Hf2]. by apply pinned_valid.
Qed.

Lemma calm_update io also_client unique path name authority key_hex c t :
  calm io → file_name path = Some name → holds path c t →
  open_way (key (config_parent_dir path)) t → t !! key (temp_path path unique) ≠ Some Directory →
  trim authority ≠ "" → is_key key_hex →
  ∃ t', upsert also_client io unique path authority key_hex t = (t', Ok tt).
Proof.
  intros Hc Hn Hh Hw Htmp Ha Hk. rewrite upsert_unfold. unfold mbind, fsm_bind, pure.
  rewrite (proj2 (checked_authority_spec authority key_hex _)) by done.
  destruct (load_toml_root io path t) as [t1 r1] eqn:El.
  eapply load_root_spec in El as (-> & Hroot & Hd); [|done]. destruct (Hroot (Hc _ _)) as [root ->].
  pose proof Hh as (content & v & Hf & _ & _ & _ & Hv).
  eapply calm_finish; [done..|by rewrite Hf|by rewrite trim_idemp|done|by apply Hd|done].
Qed.

(** After an update the way to the file is as open as before. *)
Lemma way_after path name unique unique' t t' :
  file_name path = Some name →
  changed_within (λ x, x = key path ∨ x = key (temp_path path unique))
    (λ x, under x (key (config_parent_dir path))) t t' →
  key (temp_path path unique') ≠ key (temp_path path unique) →
  open_way (key (config_parent_dir path)) t → t !! key (temp_path path unique') ≠ Some Directory →
  open_way (key (config_parent_dir path)) t' ∧ t' !! key (temp_path path unique') ≠ Some Directory.
Proof.
  intros Hn Hch Hne Hw Ht.
  assert (∀ n, ¬ under (key (config_parent_dir path) ++ [n])%list (key (config_parent_dir path))) as Hleaf.
  { intros n [l E]. apply (f_equal length) in E. rewrite !length_app in E. simpl in E. lia. }
  split.
  - eapply open_way_kept; [done..|]. intros x [->| ->]; [rewrite (parent_key path name Hn)|rewrite temp_key]; apply Hleaf.
  - destruct (Hch (key (temp_path path unique'))) as [[E|E]|[->|[Hu _]]]; [|done|done|].
    + by apply (temp_other path unique' name) in E.
    + rewrite temp_key in Hu. by apply Hleaf in Hu.
Qed.

Lemma upsert_spec io also_client unique path name authority key_hex c t t' r :
  file_name path = Some name → holds path c t →
  upsert also_client io unique path authority key_hex t = (t', r) →
  (holds path c t' ∧ r ≠ Ok tt ∨
   holds path (pinned also_client (trim authority) key_hex c) t' ∧
   trim authority ≠ "" ∧ is_key key_hex) ∧
  changed_within (λ x, x = key path ∨ x = key (temp_path path unique))
    (λ x, under x (key (config_parent_dir path))) t t'.
Proof.
  intros Hn Hh E. rewrite upsert_unfold in E. unfold mbind, fsm_bind, pure in E.
  destruct (checked_authority authority key_hex) as [a|e] eqn:Ec.
  2: { injection E as <- <-. split; [by left|apply changed_refl]. }
  apply checked_authority_spec in Ec as (-> & Ha & Hk).
  destruct (load_toml_root io path t) as [t1 r1] eqn:El.
  eapply load_root_spec in El as (-> & _ & Hd); [|done].
  destruct r1 as [root|e]; [|injection E as <- <-; split; [by left|apply changed_refl]].
  eapply finish_update_spec in E as [[[Hs Hr]|Hp] Hch]; try done.
  - split; [|done]. left. split; [by eapply holds_same|done].
  - by split; [right|].
  - by rewrite trim_idemp.
  - by apply Hd.
  - by destruct Hh as (? & ? & _ & _ & _ & _ & ?).
Qed.

(** C10 (safety). An update of the pinned keys of a valid configuration file, whatever call of the
    operating system fails and at whatever point, leaves at the path a valid
    configuration: the one before, and then it does not answer [Ok], or the one before with
    exactly the key pinned for the trimmed authority, and the client listed once when the
    update adds a client.  No other file changes but the temporary one.  When nothing
    fails, a non-blank authority and a well-formed key are enough for it to answer [Ok]. *)
Theorem pin_update_atomic io also_client unique path name authority key_hex c t t' r :
  file_name path = Some name → holds path c t →
  upsert also_client io unique path authority key_hex t = (t', r) →
  (holds path c t' ∧ r ≠ Ok tt ∨
   holds path (pinned also_client (trim authority) key_hex c) t' ∧
   trim authority ≠ "" ∧ is_key key_hex) ∧
  changed_within (λ x, x = key path ∨ x = key (temp_path path unique))
    (λ x, under x (key (config_parent_dir path))) t t' ∧
  (calm io → open_way (key (config_parent_dir path)) t →
   t !! key (temp_path path unique) ≠ Some Directory → trim authority ≠ "" → is_key key_hex →
   r = Ok tt).
Proof.
  intros Hn Hh E. apply and_assoc. split; [by eapply upsert_spec|].
  intros ? ? ? ? ?. destruct (calm_update io also_client unique path name authority key_hex c t)
    as [t2 E2]; [done..|]. congruence.
Qed.

(** Two updates that overlap lose a key: when the second update has read the file before
    the first replaces it and writes after it, both answer [Ok] but the key the first
    pinned, for another authority, is pinned in the file only if it was before. *)
Theorem overlapping_updates_lose_a_pin io1 io2 first_client second_client u1 u2 path name
    authority1 key1 authority2 key2 c t root t1 t2 :
  file_name path = Some name → holds path c t →
  trim authority2 ≠ "" → is_key key2 → authority1 ≠ authority2 →
  load_toml_root io2 path t = (t, Ok root) →
  upsert first_client io1 u1 path authority1 key1 t = (t1, Ok tt) →
  finish_update io2 second_client u2 path authority2 key2 root t1 = (t2, Ok tt) →
  ∃ c', holds path c' t2 ∧
    tls_known_public_keys (ic_tls c') !! authority1 = tls_known_public_keys (ic_tls c) !! authority1.
Proof.
  intros Hn Hh Ha Hk Hne Hl _ E.
  eapply load_root_spec in Hl as (_ & _ & Hd); [|done]. specialize (Hd root eq_refl).
  eapply finish_update_spec in E as [[[_ Hr]|Hp] _]; try done.
  - eexists. split; [done|]. simpl. by rewrite lookup_insert_ne.
  - by destruct Hh as (? & ? & _ & _ & _ & _ & ?).
Qed.

End updates.

Arguments holds {_} b path c t : assert.

(** ** What a loaded configuration promises to the rest of the daemon *)

Lemma must_be_positive_Ok z name u : must_be_positive z name = Ok u → z ≠ 0.
Proof. unfold must_be_positive. intros E%ensure_Ok. by rewrite negb_true_iff, Z.eqb_neq in E. Qed.

Lemma effective_builtin f :
  Forall (λ n, is_builtin_native_plugin_package_name n = true)
    (effective_builtin_native_plugin_package_names f).
Proof.
  apply Forall_forall. intros n (d & -> & [_ Hd]%list_elem_of_filter)%list_elem_of_fmap.
  unfold is_builtin_native_plugin_package_name. apply existsb_exists. exists d.
  split; [by apply list_elem_of_In|by apply bool_decide_eq_true].
Qed.

(** What validation and the machine types say of the values other components use. *)
Lemma runtime_limits r :
  typed_runtime r → validate_runtime r = Ok tt →
  1 ≤ rc_chunk_size r ≤ MAX_CHUNK_SIZE_BYTES ∧ 1 ≤ rc_max_inflight_chunks r ≤ u64_max ∧
  1 ≤ rc_deploy_stream_timeout_secs r ≤ u64_max ∧ rc_epoch_tick_interval_ms r ≠ 0 ∧
  rc_wasm_memory_reservation_bytes r ≠ 0 ∧ rc_wasm_memory_reservation_for_growth_bytes r ≠ 0 ∧
  1 ≤ rc_http_worker_count r ≤ 4 ∧ 1 ≤ rc_http_worker_queue_capacity r ≤ 16 ∧
  0 ≤ rc_http_queue_memory_budget_bytes r ∧
  rc_transport_keepalive_interval_secs r < rc_transport_max_idle_timeout_secs r.
Proof.
  intros [] E. unfold validate_runtime in E.
  repeat (apply bind_Ok in E as (? & ? & E)).
  repeat match goal with
  | E : must_be_positive _ _ = Ok _ |- _ => apply must_be_positive_Ok in E
  | E : ensure _ _ = Ok _ |- _ => apply ensure_Ok in E
  end.
  rewrite ?andb_true_iff, ?Z.leb_le, ?Z.ltb_lt in *. lia.
Qed.

Section daemon.
Context `{TL : TomlLaws b}.

Lemma load_inv io path t t' c :
  load io path t = (t', Ok c) → typed_runtime (ic_runtime c) ∧ validate_config c = Ok tt.
Proof.
  unfold load. intros E. inv_fsm. destruct_all unit. split; [by eapply decode_typed|done].
Qed.

Lemma configured_keys_Ok field hexes keys : ∀ index,
  Forall2 (λ h k, parse_ed25519_raw_public_key_hex h = Ok k) hexes keys →
  parse_configured_public_keys index field hexes = Ok (list_to_set keys).
Proof.
  intros index Hf. revert index. induction Hf as [|h k hexes keys Hk _ IH]; intros index; [done|].
  simpl. rewrite Hk. simpl. by rewrite IH.
Qed.

Lemma started_supervisor_ok {R} sio (open_retained : Z → iresult R) c sc r :
  typed_runtime (ic_runtime c) → validate_config c = Ok tt →
  start_supervisor sio open_retained c = Ok (sc, r) → supervisor_config_ok sc.
Proof.
  intros Ht (_ & _ & _ & Hv)%validate_config_Ok E.
  apply runtime_limits in Hv as (? & ? & ? & ? & ? & ? & ? & ? & ? & ?); [|done].
  unfold start_supervisor in E. apply bind_Ok in E as ([s0 r0] & E & [= <- <-]).
  unfold new_supervisor in E. cbv zeta in E.
  repeat (apply bind_Ok in E as (? & ? & E)). injection E as <- <-.
  split; simpl; [by apply path_join_nonempty|lia|done..|apply effective_builtin].
Qed.

(** C12 (type). A configuration the daemon loads gives every component the values it relies on: the
    announced upload limits are accepted by the clients and within what the artifact store takes,
    the supervisor that starts with it satisfies what building bootstraps assumes, the
    configured client keys are read without an error, the control socket has an absolute
    path, and the keepalive interval is below the idle timeout. *)
Theorem loaded_config_fits io path t t' c :
  load io path t = (t', Ok c) →
  limits_ok (store_config c) (handler_config c) ∧
  (∀ R sio (open_retained : Z → iresult R) sc r,
     start_supervisor sio open_retained c = Ok (sc, r) → supervisor_config_ok sc) ∧
  (∃ keys, parse_configured_public_keys 0 "tls.client_public_keys"
             (tls_client_public_keys (ic_tls c)) = Ok keys ∧
           size keys = length (tls_client_public_keys (ic_tls c))) ∧
  is_absolute (ic_control_socket_path c) = true ∧
  rc_transport_keepalive_interval_secs (ic_runtime c)
    < rc_transport_max_idle_timeout_secs (ic_runtime c).
Proof.
  intros [Ht Hv]%load_inv. pose proof Hv as (Ha & (keys & Hf & Hnd) & _ & Hr)%validate_config_Ok.
  pose proof (runtime_limits _ Ht Hr) as (? & ? & ? & ? & ? & ? & ? & ? & ? & ?).
  split_and!; [|by intros; eapply started_supervisor_ok| |done|done].
  - assert (MAX_CHUNK_SIZE_BYTES ≤ u64_max) by done. split; simpl; lia.
  - exists (list_to_set keys). rewrite (configured_keys_Ok _ _ keys) by done.
    rewrite size_list_to_set, (Forall2_length _ _ _ Hf) by done. done.
Qed.

End daemon.

(** ** The first boot *)

Lemma is_utf8_cons c bs : (code c <? 128)%N = true → is_utf8 (c :: bs) = is_utf8 bs.
Proof.
  intros Hc. unfold is_utf8. simpl. rewrite Hc.
  apply bool_decide_ext. split; [by intros [=]|by intros ->].
Qed.

Lemma is_utf8_app a bs : forallb (λ c, code c <? 128)%N a = true → is_utf8 (a ++ bs) = is_utf8 bs.
Proof.
  induction a as [|c a IH]; [done|]. simpl. intros [Hc Ha]%andb_true_iff.
  by rewrite is_utf8_cons, IH.
Qed.

(** The directory of the file as an absolute path. *)
Definition canonical_dir (path : string) : string := "/" +:+ join_slash (key (config_parent_dir path)).

Lemma key_absolute names : Forall proper names → key ("/" +:+ join_slash names) = names.
Proof.
  intros Hp. destruct (decide (names = [])) as [->|Hne]; [done|].
  assert (join_slash names ≠ "") as Hj.
  { destruct names as [|n [|m names]]; [done|..]; apply Forall_inv in Hp as (? & _); simpl; by destruct n. }
  pose proof (names_of_join_slash names Hp) as Hn. unfold names_of in Hn. rewrite decide_False in Hn by done.
  assert (components ("/" +:+ join_slash names) = RootDir :: (Normal <$> names)) as Hc.
  { unfold components. change ("/" +:+ join_slash names) with (String "/" (join_slash names)).
    cbn [split]. rewrite decide_True by done. rewrite Hn. simpl. f_equal.
    pose proof (parts_proper (join_slash names) names Hn Hp) as Hpp. unfold parts in Hpp.
    by rewrite Hn in Hpp. }
  unfold key. rewrite Hc. simpl. clear. induction names as [|n names IH]; [done|]. simpl. f_equal. exact IH.
Qed.

Definition default_config (b : BuildEnv) (server_key_path control_socket_path : string) : ImagodConfig :=
  {| ic_listen_addr := default_listen_addr;
     ic_control_socket_path := control_socket_path;
     ic_tls := {| tls_server_key := server_key_path; tls_client_public_keys := [];
                  tls_known_public_keys := ∅ |};
     ic_storage_root := default_storage_root b;
     ic_runtime := default_runtime;
     ic_server_version := default_server_version |}.

Lemma default_document_decodes b server_key_path socket :
  document_of b (TTable (default_document server_key_path socket))
  = Some (default_config b server_key_path socket).
Proof. reflexivity. Qed.

Lemma default_config_valid b server_key_path socket :
  is_absolute socket = true → validate_config (default_config b server_key_path socket) = Ok tt.
Proof.
  intros Hs. apply validate_config_Ok. split_and!; [done| |apply map_Forall_empty|by vm_compute].
  exists []. split; [constructor|apply NoDup_nil_2].
Qed.

Lemma comments_skipped `{TL : TomlLaws b} body :
  toml_from_str (AUTOCREATED_CONFIG_COMMENTS +:+ newline +:+ body) = toml_from_str body.
Proof.
  unfold AUTOCREATED_CONFIG_COMMENTS. rewrite <-!string_app_assoc.
  do 3 (match goal with |- toml_from_str (?l +:+ newline +:+ ?rest) = _ =>
    match l with String ?c ?line => change (l +:+ newline +:+ rest) with ("#" +:+ line +:+ newline +:+ rest) end
  end; rewrite parse_comment by (apply (bool_decide_unpack _); vm_compute; exact I)).
  apply parse_empty_line.
Qed.

Section boot.
Context `{TL : TomlLaws b} (io : FsIo) (path name : string).
Hypothesis Hcalm : calm io.
Hypothesis Hname : file_name path = Some name.
Hypothesis Hproper : Forall proper (key path).

Local Abbreviation dir := (key (config_parent_dir path)).
Local Abbreviation key_file := ((dir ++ [DEFAULT_SERVER_KEY_FILENAME])%list).

Lemma dir_proper : Forall proper dir.
Proof. rewrite (parent_key path name Hname) in Hproper. by apply Forall_app in Hproper as [? _]. Qed.

Lemma config_dir_Ok t :
  open_way dir t →
  ∃ t1, ensure_default_config_dir io path t = (t1, Ok (canonical_dir path)) ∧
    changed_within nothing (λ x, under x dir) t t1 ∧ ∀ n, has_parent (dir ++ [n]) t1 = true.
Proof.
  intros Hw. destruct (create_dir_Ok io (config_parent_dir path) t Hcalm Hw) as (t1 & E & Hch & Hp).
  exists t1. split; [|done]. unfold ensure_default_config_dir, mbind, fsm_bind, Tree.lift. rewrite E.
  cbn [map_err]. unfold canonicalize, guarded. rewrite Hcalm.
  destruct (decide (dir = [])) as [Hd|Hd].
  - unfold canonical_dir. rewrite Hd. by destruct (t1 !! []).
  - assert (t1 !! dir = Some Directory) as -> by by eapply create_dir_all_directory. done.
Qed.

Lemma canonical_key n : proper n → key (path_join (canonical_dir path) n) = (dir ++ [n])%list.
Proof. intros Hn. unfold canonical_dir. by rewrite key_join_name, key_absolute by (done || apply dir_proper). Qed.

Lemma canonical_absolute n : starts_with "/" n = false → is_absolute (path_join (canonical_dir path) n) = true.
Proof.
  intros Hn. unfold is_absolute, path_join. rewrite Hn. unfold canonical_dir. by destruct (_ || _).
Qed.

Lemma create_key_Ok pem config_path file t :
  has_parent (key file) t = true → t !! key file = None →
  create_default_server_key_file io (Ok pem) file config_path t =
    (<[key file := File (bytes_of pem)]> t, Ok tt).
Proof.
  intros Hp Hk. unfold create_default_server_key_file, mbind, fsm_bind, attempt, pure. cbn [map_err].
  unfold write_private_key_create_new, create_new_file, guarded. rewrite Hk, Hp, Hcalm.
  rewrite write_Ok; [|apply Hcalm|by rewrite lookup_insert_eq|].
  - unfold sync_file, guarded. rewrite Hcalm. by rewrite insert_insert_eq.
  - unfold has_parent in *. destruct (removelast (key file)) as [|a l] eqn:E; [done|].
    rewrite lookup_insert_ne; [done|]. intros Ek. rewrite Ek in Hk. rewrite Hk in Hp. done.
Qed.

(** The server key is not written atomically: a failing write leaves what was written so far, which the
    next boot finds and takes for the key, as [server_key_Ok] says. *)
Lemma torn_key_left io' pem config_path file t m :
  io_fault io' OpCreate (key file) = None → io_fault io' OpWrite (key file) = Some m →
  has_parent (key file) t = true → t !! key file = None →
  ∃ e, create_default_server_key_file io' (Ok pem) file config_path t =
    (<[key file := File (take (io_torn io') (bytes_of pem))]> t, Err e).
Proof.
  intros Hc Hw Hp Hk. eexists.
  unfold create_default_server_key_file, mbind, fsm_bind, attempt, pure. cbn [map_err].
  unfold write_private_key_create_new, create_new_file, guarded. rewrite Hk, Hp, Hc.
  unfold write. rewrite lookup_insert_eq, Hw.
  assert (has_parent (key file) (<[key file := File []]> t) = true) as ->.
  { unfold has_parent in *. destruct (removelast (key file)) as [|a l] eqn:E; [done|].
    rewrite lookup_insert_ne; [done|]. intros Ek. rewrite Ek in Hk. rewrite Hk in Hp. done. }
  by rewrite insert_insert_eq.
Qed.

Lemma under_dir_leaf n : ¬ under (dir ++ [n])%list dir.
Proof. intros [l E]. apply (f_equal length) in E. rewrite !length_app in E. simpl in E. lia. Qed.

Lemma server_key_Ok pem t :
  open_way dir t → t !! key_file ≠ Some Directory →
  ∃ t1, ensure_default_server_key io (Ok pem) path t
          = (t1, Ok (path_join (canonical_dir path) DEFAULT_SERVER_KEY_FILENAME)) ∧
    changed_within (λ x, x = key_file) (λ x, under x dir) t t1 ∧
    t1 !! key_file = Some (default (File (bytes_of pem)) (t !! key_file)).
Proof.
  intros Hw Hk. destruct (config_dir_Ok t Hw) as (t1 & E & Hch & Hp).
  assert (t1 !! key_file = t !! key_file) as Hsame.
  { destruct (Hch key_file) as [[]|[?|[Hu _]]]; [done|]. by apply under_dir_leaf in Hu. }
  assert (key (path_join (canonical_dir path) DEFAULT_SERVER_KEY_FILENAME) = key_file) as Hkey
    by (apply canonical_key, literal_proper; done).
  unfold ensure_default_server_key, mbind, fsm_bind, attempt. rewrite E. cbv beta iota.
  unfold metadata, guarded. rewrite Hcalm, Hkey, Hsame.
  assert (changed_within (λ x, x = key_file) (λ x, under x dir) t t1) as Hch1
    by (intros x; destruct (Hch x) as [[]|[?|?]]; auto).
  destruct (t !! key_file) as [[content|]|] eqn:Et; [|done|]; simpl.
  - exists t1. split_and!; [done|done|by rewrite Hsame].
  - rewrite create_key_Ok by (by rewrite Hkey). rewrite Hkey.
    eexists. split_and!; [reflexivity| |by rewrite lookup_insert_eq].
    eapply changed_trans; [exact Hch1|]. intros x. destruct (decide (x = key_file)) as [->|?]; [by left|].
    right; left. by rewrite lookup_insert_ne.
Qed.

Lemma control_socket_Ok t :
  open_way dir t →
  ∃ t1 socket, resolve_generated_control_socket_path io path t = (t1, Ok socket) ∧
    is_absolute socket = true ∧ changed_within nothing (λ x, under x dir) t t1.
Proof.
  intros Hw. unfold resolve_generated_control_socket_path. case_bool_decide.
  - eexists _, _. split_and!; [done..|]. apply changed_refl.
  - destruct (config_dir_Ok t Hw) as (t1 & E & Hch & _). unfold mbind, fsm_bind. rewrite E.
    eexists _, _. split_and!; [done|by apply canonical_absolute|done].
Qed.

Lemma default_file_holds t server_key_path socket toml_body :
  toml_to_string_pretty (default_document server_key_path socket) = Ok toml_body →
  is_absolute socket = true →
  t !! key path = Some (File (bytes_of (AUTOCREATED_CONFIG_COMMENTS +:+ newline +:+ toml_body))) →
  holds b path (default_config b server_key_path socket) t.
Proof.
  intros Hb Hs Ht. eexists _, _. split; [exact Ht|]. rewrite string_of_bytes_of, comments_skipped.
  rewrite (print_parse _ _ Hb), !bytes_of_app. split_and!; [|done|apply default_document_decodes|by apply default_config_valid].
  rewrite !is_utf8_app by by vm_compute. by eapply print_utf8.
Qed.

Lemma existing_file_loaded io' key_pair unique c t :
  holds b path c t → io_fault io' OpMeta (key path) = None → io_fault io' OpRead (key path) = None →
  load_or_create_default io' key_pair unique path t = (t, Ok (c, false)).
Proof.
  intros Hh Hm Hr. unfold load_or_create_default, mbind, fsm_bind, attempt, metadata, guarded. rewrite Hm.
  pose proof Hh as (content & v & -> & _). simpl. by rewrite (load_holds io' path c t Hh Hr).
Qed.

Lemma write_default_Ok pem unique t :
  t !! key path = None → open_way dir t → name ≠ DEFAULT_SERVER_KEY_FILENAME →
  t !! key_file ≠ Some Directory → t !! key (temp_path path unique) ≠ Some Directory →
  ∃ t' socket,
    write_default_config_atomic io (Ok pem) unique path t = (t', Ok tt) ∧
    holds b path (default_config b (path_join (canonical_dir path) DEFAULT_SERVER_KEY_FILENAME) socket) t' ∧
    t' !! key_file = Some (default (File (bytes_of pem)) (t !! key_file)) ∧
    changed_within (λ x, x = key path ∨ x = key_file ∨ x = key (temp_path path unique))
      (λ x, under x dir) t t'.
Proof.
  intros Hnone Hw Hn Hk Htmp.
  pose proof (parent_key path name Hname) as Hpk. pose proof (temp_key path unique) as Htk.
  assert (key path ≠ key_file) as Hne1 by (rewrite Hpk; by intros [_ ?]%app_inj_tail).
  assert (key (temp_path path unique) ≠ key_file) as Hne2 by (rewrite Htk; by intros [_ ?]%app_inj_tail).
  destruct (server_key_Ok pem t Hw Hk) as (t1 & E1 & Hc1 & Hk1).
  assert (open_way dir t1) as Hw1
    by (eapply open_way_kept; [done..|]; intros ? ->; apply under_dir_leaf).
  destruct (control_socket_Ok t1 Hw1) as (t2 & socket & E2 & Hs & Hc2).
  assert (open_way dir t2) as Hw2 by (eapply open_way_kept; [done..|]; intros ? []).
  destruct (print_total (default_document (path_join (canonical_dir path) DEFAULT_SERVER_KEY_FILENAME) socket))
    as [toml_body Hb].
  assert (∀ n, t2 !! (dir ++ [n])%list = t1 !! (dir ++ [n])%list) as Hsame2.
  { intros n. destruct (Hc2 (dir ++ [n])%list) as [[]|[?|[Hu _]]]; [done|by apply under_dir_leaf in Hu]. }
  assert (∀ n, (dir ++ [n])%list ≠ key_file → t2 !! (dir ++ [n])%list = t !! (dir ++ [n])%list) as Hsame.
  { intros n Hne. rewrite Hsame2.
    destruct (Hc1 (dir ++ [n])%list) as [?|[?|[Hu _]]]; [done..|by apply under_dir_leaf in Hu]. }
  destruct (calm_write io unique path name (AUTOCREATED_CONFIG_COMMENTS +:+ newline +:+ toml_body)
              "config.init" t2) as [t3 E3]; [done|done|done| | |].
  { rewrite Hpk, Hsame by by rewrite <-Hpk. by rewrite <-Hpk, Hnone. }
  { rewrite Htk, Hsame by by rewrite <-Htk. by rewrite <-Htk. }
  exists t3, socket.
  pose proof (write_atomic_spec io unique path name _ _ _ _ _ Hname E3) as [Hf Hc3].
  split_and!.
  - unfold write_default_config_atomic, mbind, fsm_bind. rewrite E1, E2. unfold pure. rewrite Hb.
    cbn [map_err]. unfold wrap_err. by rewrite E3.
  - by eapply default_file_holds.
  - destruct (Hc3 key_file) as [[?|?]|[->|[Hu _]]]; [done..| |by apply under_dir_leaf in Hu].
    by rewrite Hsame2, Hk1.
  - apply (changed_trans _ _ t t1); [intros x; destruct (Hc1 x) as [?|[?|?]]; auto|].
    apply (changed_trans _ _ t1 t2); [intros x; destruct (Hc2 x) as [[]|[?|?]]; auto|].
    intros x. destruct (Hc3 x) as [[?|?]|[?|?]]; auto.
Qed.

(** C39 (functional). The first boot: where there is no configuration file yet and nothing but
    directories on the way to it, the daemon creates the file and, unless there is one, the
    server key beside it, and loads what it wrote: the default limits, no client keys, no
    pinned keys, an absolute control socket.  No other file changes.  Every later boot loads the same configuration
    and changes nothing. *)
Theorem first_boot_config pem unique t :
  t !! key path = None → open_way dir t → name ≠ DEFAULT_SERVER_KEY_FILENAME →
  t !! key_file ≠ Some Directory → t !! key (temp_path path unique) ≠ Some Directory →
  ∃ t' socket,
    let c := default_config b (path_join (canonical_dir path) DEFAULT_SERVER_KEY_FILENAME) socket in
    load_or_create_default io (Ok pem) unique path t = (t', Ok (c, true)) ∧
    t' !! key (tls_server_key (ic_tls c)) = Some (default (File (bytes_of pem)) (t !! key_file)) ∧
    changed_within (λ x, x = key path ∨ x = key_file ∨ x = key (temp_path path unique))
      (λ x, under x dir) t t' ∧
    ∀ io' key_pair unique', calm io' →
      load_or_create_default io' key_pair unique' path t' = (t', Ok (c, false)).
Proof.
  intros Hnone Hw Hn Hk Htmp.
  destruct (write_default_Ok pem unique t) as (t' & socket & E & Hh & Hkey & Hch); [done..|].
  exists t', socket. simpl. rewrite canonical_key by by apply literal_proper. split_and!; [|done|done|].
  - unfold load_or_create_default, mbind, fsm_bind, attempt, metadata, guarded. rewrite Hcalm, Hnone.
    cbn [ok_or]. rewrite E. unfold wrap_err. by rewrite (load_holds io path _ t' Hh).
  - intros io' key_pair unique' Hc. by apply existing_file_loaded.
Qed.

End boot.
