(* ===== verification/ConfigDemo.v ===== *)
(** * A concrete TOML crate, and the configuration theorems at work

    A printer and parser of [Toml] documents that satisfy the laws of [TomlLaws]: a document
    is written as the binary digits of its code, lines that start with a number sign and
    empty lines are skipped. *)

From stdpp Require Import countable.
From S2P Require Import Prelude Protocol Text IpAddr Ipc Frames Files ArtifactStore Supervisor Paths Tree TreeFacts Manifest Launch Orchestrator Deploy Session Runner ArtifactResume Client Config ConfigTheorems.

Open Scope string_scope.
Open Scope Z_scope.

(** ** Documents as trees *)

Abbreviation leaf := (string + Z + bool)%type.

Fixpoint toml_tree (v : Toml) : gen_tree leaf :=
  match v with
  | TString s => GenNode 0 [GenLeaf (inl (inl s))]
  | TInteger i => GenNode 1 [GenLeaf (inl (inr i))]
  | TBoolean b => GenNode 2 [GenLeaf (inr b)]
  | TOther s => GenNode 3 [GenLeaf (inl (inl s))]
  | TArray l => GenNode 4 (toml_tree <$> l)
  | TTable m =>
    GenNode 5 (map_fold (λ k v acc, GenNode 6 [GenLeaf (inl (inl k)); toml_tree v] :: acc) [] m)
  end.

Fixpoint toml_size (v : Toml) : nat :=
  match v with
  | TArray l => S (sum_list_with toml_size l)
  | TTable m => S (map_fold (λ _ v n, (toml_size v + n)%nat) 0%nat m)
  | _ => 1
  end.

Fixpoint tree_toml (t : gen_tree leaf) : option Toml :=
  match t with
  | GenNode 0 [GenLeaf (inl (inl s))] => Some (TString s)
  | GenNode 1 [GenLeaf (inl (inr i))] => Some (TInteger i)
  | GenNode 2 [GenLeaf (inr b)] => Some (TBoolean b)
  | GenNode 3 [GenLeaf (inl (inl s))] => Some (TOther s)
  | GenNode 4 ts =>
    l ← (fix go ts := match ts with
         | [] => Some []
         | t :: ts => v ← tree_toml t; l ← go ts; Some (v :: l)
         end) ts;
    Some (TArray l)
  | GenNode 5 ts =>
    l ← (fix go ts := match ts with
         | [] => Some []
         | GenNode 6 [GenLeaf (inl (inl k)); t] :: ts =>
           v ← tree_toml t; l ← go ts; Some ((k, v) :: l)
         | _ => None
         end) ts;
    Some (TTable (list_to_map l))
  | _ => None
  end.

Lemma array_size v l : v ∈ l → (toml_size v < toml_size (TArray l))%nat.
Proof. intros Hv%(sum_list_with_in _ toml_size). simpl. lia. Qed.

Lemma table_size k v m : m !! k = Some v → (toml_size v < toml_size (TTable m))%nat.
Proof.
  intros Hk. simpl. rewrite map_fold_foldr. apply elem_of_map_to_list in Hk.
  induction (map_to_list m) as [|[k' v'] l IH]; [by apply elem_of_nil in Hk|]. simpl.
  apply elem_of_cons in Hk as [[= <- <-]|Hk]; [lia|]. specialize (IH Hk). lia.
Qed.

Lemma tree_toml_tree n : ∀ v, (toml_size v < n)%nat → tree_toml (toml_tree v) = Some v.
Proof.
  induction n as [|n IH]; intros v Hv; [lia|]. destruct v as [| | | |l|m]; try done.
  - assert (∀ v, v ∈ l → tree_toml (toml_tree v) = Some v) as Hl
      by (intros v Hin; apply IH; apply array_size in Hin; lia).
    clear Hv IH. cbn [toml_tree tree_toml].
    match goal with |- ?go _ ≫= _ = _ => assert (go (toml_tree <$> l) = Some l) as -> end; [|done].
    induction l as [|v l IHl]; [done|]. csimpl. rewrite Hl by left. csimpl.
    rewrite IHl; [done|]. intros w Hw. apply Hl. by right.
  - assert (∀ k v, (k, v) ∈ map_to_list m → tree_toml (toml_tree v) = Some v) as Hm.
    { intros k v Hin%elem_of_map_to_list. apply IH. apply table_size in Hin. lia. }
    clear Hv IH. cbn [toml_tree tree_toml]. rewrite map_fold_foldr.
    match goal with |- ?go ?x ≫= _ = _ => assert (go x = Some (map_to_list m)) as -> end.
    + induction (map_to_list m) as [|[k v] l IHl]; [done|]. simpl.
      rewrite (Hm k v) by left. simpl. rewrite IHl; [done|]. intros k' v' Hw. apply (Hm k'). by right.
    + simpl. by rewrite list_to_map_to_list.
Qed.

(** ** Text *)

Fixpoint bits (p : positive) : string :=
  match p with xH => "" | xO p => String "0" (bits p) | xI p => String "1" (bits p) end.
Fixpoint unbits (s : string) : option positive :=
  match s with
  | "" => Some xH
  | String "0" s => xO <$> unbits s
  | String "1" s => xI <$> unbits s
  | _ => None
  end.

Lemma unbits_bits p : unbits (bits p) = Some p.
Proof. induction p as [p IH|p IH|]; simpl; by rewrite ?IH. Qed.

Lemma bits_utf8 p : is_utf8 (bytes_of (bits p)) = true.
Proof. induction p as [p IH|p IH|]; simpl; [..|done]; by rewrite is_utf8_cons. Qed.

(** The text after leading comments and empty lines. *)
Fixpoint skip (in_comment : bool) (s : string) : string :=
  match s with
  | "" => ""
  | String c rest =>
    if bool_decide (c = "010"%char) then skip false rest
    else if in_comment then skip true rest
    else if bool_decide (c = "#"%char) then skip true rest
    else s
  end.

Lemma skip_line line body : "010"%char ∉ bytes_of line →
  skip true (line +:+ newline +:+ body) = skip false body.
Proof.
  induction line as [|c line IH]; [done|]. intros [Hc Hl]%not_elem_of_cons. simpl.
  rewrite bool_decide_false by done. by apply IH.
Qed.

Lemma skip_bits p : skip false (bits p) = bits p.
Proof. by destruct p. Qed.

Definition read_document (s : string) : option Toml :=
  p ← unbits (skip false s);
  t ← decode (A := gen_tree leaf) p;
  tree_toml t.

Lemma read_written v : read_document (bits (encode (toml_tree v))) = Some v.
Proof.
  unfold read_document. rewrite skip_bits, unbits_bits. apply bind_Some. eexists. split; [done|].
  apply bind_Some. eexists. split; [apply countable.decode_encode|].
  apply (tree_toml_tree (S (toml_size v))). lia.
Qed.

#[local] Instance demo_toml : TomlCrate := {
  toml_from_str s :=
    match read_document s with
    | Some v => Ok v | None => Err "expected a document"
    end;
  toml_to_string_pretty root := Ok (bits (encode (toml_tree (TTable root))));
  toml_try_into v :=
    match document_of {| target_os := "linux"; build_override := None |} v with
    | Some c => Ok c | None => Err "invalid type"
    end;
}.

Definition demo_build : BuildEnv := {| target_os := "linux"; build_override := None |}.

Lemma field_uint max d m name z :
  field (as_uint max) d m name = Some z → 0 ≤ d ≤ max → 0 ≤ z ≤ max.
Proof.
  unfold field. destruct (m !! name) as [v|]; [|by intros [= ->]].
  unfold as_uint. destruct v; try done. destruct (_ && _) eqn:E; [|done]. intros [= ->] _.
  apply andb_true_iff in E as [?%Z.leb_le ?%Z.leb_le]. lia.
Qed.

Lemma runtime_of_typed m r : runtime_of m = Some r → typed_runtime r.
Proof.
  unfold runtime_of. intros E.
  repeat (apply bind_Some in E as (? & ? & E)). injection E as <-.
  split; simpl; by eapply field_uint.
Qed.

#[local] Instance demo_toml_laws : TomlLaws demo_build.
Proof.
  split.
  - intros root body E.
    assert (body = bits (encode (toml_tree (TTable root)))) as -> by (unfold toml_to_string_pretty, demo_toml in E; congruence).
    unfold toml_from_str, demo_toml. by rewrite read_written.
  - intros root body E.
    assert (body = bits (encode (toml_tree (TTable root)))) as -> by (unfold toml_to_string_pretty, demo_toml in E; congruence).
    apply bits_utf8.
  - intros root. by eexists.
  - intros line body Hl. unfold toml_from_str, demo_toml, read_document.
    change ("#" +:+ line +:+ newline +:+ body) with (String "#" (line +:+ newline +:+ body)).
    cbn [skip]. rewrite bool_decide_false, bool_decide_true by done. by rewrite skip_line.
  - done.
  - intros v c E. unfold toml_try_into, demo_toml. fold demo_build. by rewrite E.
  - intros v c E. unfold toml_try_into, demo_toml in E. fold demo_build in E.
    destruct (document_of demo_build v) as [c'|] eqn:Ed; [|done]. injection E as ->.
    unfold document_of in Ed. apply bind_Some in Ed as (root & _ & (sc & _ & Ed)%bind_Some).
    unfold fields_of in Ed. repeat (apply bind_Some in Ed as (? & ? & Ed)). injection Ed as <-. simpl.
    match goal with E : field _ _ _ "runtime" = Some _ |- _ => revert E end.
    unfold field. destruct (root !! "runtime") as [v'|]; [|intros [= <-]; by split].
    intros (m & _ & Hm)%bind_Some. by eapply runtime_of_typed.
Qed.

(** ** Witnesses *)

Definition calm_io : FsIo := {| io_fault _ _ := None; io_torn := 0 |}.

Definition demo_path : string := "/etc/imago/imagod.toml".
Definition demo_root : table := default_document "/etc/imago/server.key" "/run/imago/imagod.sock".
Definition demo_body : string := bits (encode (toml_tree (TTable demo_root))).
Definition demo_tree : tree :=
  <[["etc"; "imago"; "imagod.toml"] := File (bytes_of demo_body)]> (
  <[["etc"; "imago"] := Directory]> (<[["etc"] := Directory]> ∅)).
Definition demo_config : ImagodConfig :=
  default_config demo_build "/etc/imago/server.key" "/run/imago/imagod.sock".
Definition demo_key_hex : string := encode_hex (replicate 32 "007"%char).

Lemma demo_holds : holds demo_build demo_path demo_config demo_tree.
Proof.
  eapply (written_holds demo_path demo_root demo_body).
  - exact eq_refl.
  - apply default_document_decodes.
  - by apply default_config_valid.
  - apply lookup_insert_eq.
Qed.

Lemma demo_is_key : is_key demo_key_hex.
Proof. eexists. by apply parse_encode_hex. Qed.

Lemma demo_way : open_way ["etc"; "imago"] demo_tree.
Proof.
  intros d content [l E]. unfold demo_tree.
  destruct d as [|a [|b' [|c d]]]; simplify_eq/=; intros Hd; vm_compute in Hd; done.
Qed.

Lemma calm_is_calm : calm calm_io.
Proof. by intros ? ?. Qed.

Lemma demo_temp unique : demo_tree !! key (temp_path demo_path unique) ≠ Some Directory.
Proof.
  rewrite temp_key. unfold demo_tree. rewrite !lookup_insert_ne, lookup_empty; [done|..];
    intros E; change (key (config_parent_dir demo_path)) with ["etc"; "imago"] in E; [discriminate E..|].
  injection E as E. unfold temp_name in E. change (file_name demo_path) with (Some "imagod.toml") in E.
  discriminate E.
Qed.

Lemma pin_update_atomic_witness :
  let run := upsert true calm_io 5 demo_path "rpc://node:4443" demo_key_hex demo_tree in
  run.2 = Ok tt ∧
  holds demo_build demo_path (pinned true "rpc://node:4443" demo_key_hex demo_config) run.1.
Proof.
  destruct (upsert true calm_io 5 demo_path "rpc://node:4443" demo_key_hex demo_tree) as [t' r] eqn:E.
  destruct (pin_update_atomic calm_io true 5 demo_path "imagod.toml" "rpc://node:4443" demo_key_hex
              demo_config demo_tree t' r eq_refl demo_holds E) as (Hh & _ & Hok).
  assert (r = Ok tt) as ->.
  { apply Hok; [exact calm_is_calm|exact demo_way|apply demo_temp|by vm_compute|exact demo_is_key]. }
  simpl. split; [done|]. destruct Hh as [[_ []]|[Hh _]]; [done|exact Hh].
Defined.

Lemma loaded_config_fits_witness :
  load calm_io demo_path demo_tree = (demo_tree, Ok demo_config) ∧
  limits_ok (store_config demo_config) (handler_config demo_config).
Proof.
  assert (load calm_io demo_path demo_tree = (demo_tree, Ok demo_config)) as E
    by (by apply (load_holds (b := demo_build)), eq_refl; apply demo_holds).
  split; [exact E|]. exact (proj1 (loaded_config_fits (b := demo_build) _ _ _ _ _ E)).
Defined.

Lemma first_boot_config_witness :
  ∃ t' socket,
    load_or_create_default calm_io (Ok "pem") 5 demo_path ∅ =
      (t', Ok (default_config demo_build "/etc/imago/server.key" socket, true)) ∧
    t' !! ["etc"; "imago"; "server.key"] = Some (File (bytes_of "pem")).
Proof.
  destruct (first_boot_config (b := demo_build) calm_io demo_path "imagod.toml" ltac:(by intros ? ?) eq_refl
              ltac:(by apply (bool_decide_unpack _); vm_compute) "pem" 5 ∅)
    as (t' & socket & E & Hk & _); [done| |done..|].
  - intros d content _. by rewrite lookup_empty.
  - exists t', socket. split; [exact E|exact Hk].
Defined.

(** Two updates that overlap. *)
Definition demo_run1 : tree * iresult unit :=
  upsert false calm_io 5 demo_path "rpc://a:4443" demo_key_hex demo_tree.
Definition demo_run2 : tree * iresult unit :=
  finish_update calm_io true 6 demo_path "rpc://b:4443" demo_key_hex demo_root demo_run1.1.

Lemma demo_root_read : load_toml_root calm_io demo_path demo_tree = (demo_tree, Ok demo_root).
Proof.
  unfold load_toml_root, mbind, fsm_bind, Tree.lift.
  rewrite (read_to_string_text calm_io demo_path (bytes_of demo_body)); [|apply lookup_insert_eq|apply bits_utf8].
  cbn [io_fault calm_io map_err]. rewrite string_of_bytes_of. unfold pure.
  rewrite (print_parse (b := demo_build) demo_root demo_body) by exact eq_refl. reflexivity.
Qed.

Lemma demo_run1_Ok : demo_run1 = (demo_run1.1, Ok tt).
Proof.
  destruct (calm_update (b := demo_build) calm_io false 5 demo_path "imagod.toml" "rpc://a:4443" demo_key_hex
              demo_config demo_tree) as [t' E];
    [exact calm_is_calm|done|exact demo_holds|exact demo_way|apply demo_temp|by vm_compute|exact demo_is_key|].
  unfold demo_run1. by rewrite E.
Qed.

Lemma demo_run2_Ok : demo_run2 = (demo_run2.1, Ok tt).
Proof.
  destruct (upsert_spec (b := demo_build) calm_io false 5 demo_path "imagod.toml" "rpc://a:4443" demo_key_hex
              demo_config demo_tree _ _ eq_refl demo_holds demo_run1_Ok) as [Hh Hch].
  apply (way_after demo_path "imagod.toml" 5 6) in Hch as [Hw Ht];
    [|done|by rewrite !temp_key|exact demo_way|apply demo_temp].
  destruct (calm_finish (b := demo_build) calm_io true 6 demo_path "imagod.toml" "rpc://b:4443" demo_key_hex
              demo_root demo_config demo_run1.1) as [t' E];
    [exact calm_is_calm|done|exact Hw|exact Ht| |by vm_compute|exact demo_is_key
    |apply default_document_decodes|by apply default_config_valid|].
  - by destruct Hh as [[(? & ? & -> & _) _]|[(? & ? & -> & _) _]].
  - unfold demo_run2. by rewrite E.
Qed.

Lemma overlapping_updates_lose_a_pin_witness :
  demo_run1.2 = Ok tt ∧ demo_run2.2 = Ok tt ∧
  ∃ c', holds demo_build demo_path c' demo_run2.1 ∧
    tls_known_public_keys (ic_tls c') !! "rpc://a:4443" = None.
Proof.
  split; [by rewrite demo_run1_Ok|]. split; [by rewrite demo_run2_Ok|].
  destruct (overlapping_updates_lose_a_pin (b := demo_build) calm_io calm_io false true 5 6 demo_path
              "imagod.toml" "rpc://a:4443" demo_key_hex "rpc://b:4443" demo_key_hex demo_config demo_tree
              demo_root demo_run1.1 demo_run2.1) as (c' & Hh & Hk).
  - exact eq_refl.
  - exact demo_holds.
  - by vm_compute.
  - exact demo_is_key.
  - done.
  - exact demo_root_read.
  - exact demo_run1_Ok.
  - exact demo_run2_Ok.
  - exists c'. split; [exact Hh|]. rewrite Hk. reflexivity.
Defined.
