(* ===== verification/RemoteRpc.v ===== *)
(** * Calls to other nodes

    [service_supervisor/remote_rpc.rs]: the authorities a runner may connect to, the
    session with another daemon, whose key is pinned in the configuration file on first
    use and checked afterwards, and the call made over it.  The other end of a session is a
    machine ([Peer]) that is told what is opened and written and keeps its state.

    Shown: over any sequence of connections and key uploads, every session accepted for an authority
    was with the holder of one and the same key; a call asks the orchestrator of the other node
    once and answers exactly what it answered; two first connections that overlap may accept two
    different keys. *)

From S2P Require Import Prelude Protocol Text IpAddr Ipc Frames Files ArtifactStore Supervisor ManagerControl Paths Tree TreeFacts Manifest Launch Orchestrator Deploy Session Runner ArtifactResume Client Config ConfigTheorems.

Open Scope string_scope.
Open Scope Z_scope.

(** ** Authorities *)

(** [url::Url]; an address is carried as it is printed. *)
Inductive Host := HostDomain (domain : string) | HostIpv4 (text : string) | HostIpv6 (text : string).

Record Url := {
  url_scheme : string;
  url_username : string;
  url_password : option string;
  url_host : option Host;
  url_port : option Z;
  url_path : string;
  url_query : option string;
  url_fragment : option string;
}.

(** The crates [url], [hex], [rustls] and its PEM reader. *)
Class NetCrates := {
  url_parse : string → result string Url;
  hex_encode : list byte → string;
  PrivateKey : Type;
  private_key_from_pem : result string (list byte) → result string PrivateKey;
  SigningKey : Type;
  load_signing_key : PrivateKey → result string SigningKey;
  signs_ed25519 : SigningKey → bool;
  signing_public_key : SigningKey → option (list byte);
}.

(** [hex::encode] writes two lower-case digits per byte. *)
Class NetLaws `{NetCrates} : Prop := {
  hex_encode_lower bs : hex_encode bs = encode_hex bs;
}.

Definition STAGE_REMOTE_RPC : string := "service.control.remote_rpc".
Definition DEFAULT_RPC_PORT : Z := 4443.
Definition MAX_RESPONSE_BYTES : Z := 32 * 1024 * 1024.

Definition remote_error (code : ErrorCode) (message : string) : ImagodError :=
  new_error code STAGE_REMOTE_RPC message.

Definition format_host_for_url (host : string) : string :=
  if str_contains ":" host && negb (starts_with "[" host && ends_with "]" host)
  then "[" +:+ host +:+ "]" else host.

(** A step under a timeout. *)
Inductive Waited (A : Type) := TimedOut | Failed (message : string) | Arrived (a : A).
Arguments TimedOut {A}.
Arguments Failed {A} message.
Arguments Arrived {A} a.

(** The other end of a session, with a state of its own that every step may change: a stream is
    opened, written and finished, and then read. *)
Record Peer (P : Type) := {
  pr_open : P → P * Waited unit;
  pr_write : list byte → P → P * Waited unit;
  pr_finish : P → P * option string;
  pr_read : P → P * Waited (list byte);
}.
Arguments pr_open {P}.
Arguments pr_write {P}.
Arguments pr_finish {P}.
Arguments pr_read {P}.

(** The way to a server: each step may fail; [nw_handshake] gives the certificate that the
    server presented and proved to own. *)
Record Network := {
  nw_tls_setup : option string;
  nw_quic_setup : option string;
  nw_bind6 : option string;
  nw_bind4 : option string;
  nw_lookup : result string (list string);
  nw_connect : option string;
  nw_handshake : result string (option (list byte));
  nw_webtransport : option string;
}.

Section remote.
Context `{NetCrates}.

Definition parse_rpc_authority (authority : string) : iresult RemoteAuthority :=
  parsed ← map_err (λ e, remote_error BadRequest ("invalid rpc authority: " +:+ e)) (url_parse authority);
  _ ← ensure (bool_decide (url_scheme parsed = "rpc"))
        (remote_error BadRequest "rpc authority must use rpc:// scheme");
  _ ← ensure (bool_decide (url_username parsed = "") && bool_decide (url_password parsed = None))
        (remote_error BadRequest "rpc authority must not contain userinfo");
  _ ← ensure (bool_decide (url_query parsed = None) && bool_decide (url_fragment parsed = None))
        (remote_error BadRequest "rpc authority must not contain query or fragment");
  _ ← ensure (bool_decide (url_path parsed = "/") || bool_decide (url_path parsed = ""))
        (remote_error BadRequest "rpc authority must not contain a path");
  host ← ok_or (url_host parsed) (remote_error BadRequest "rpc authority host is required");
  let host := match host with
              | HostIpv6 text | HostIpv4 text => text
              | HostDomain domain => to_ascii_lowercase domain
              end in
  let port := default DEFAULT_RPC_PORT (url_port parsed) in
  _ ← ensure (negb (port =? 0))
        (remote_error BadRequest "rpc authority port must be greater than zero");
  let host_for_url := format_host_for_url host in
  Ok {| ra_key := "rpc://" +:+ to_ascii_lowercase host_for_url +:+ ":" +:+ to_string port;
        ra_host := host; ra_host_for_url := host_for_url; ra_port := port |}.

(** ** The identity of the server *)

Definition extract_ed25519_raw_public_key_from_spki (spki_der : list byte) : iresult (list byte) :=
  _ ← ensure (bool_decide (length spki_der = (12 + 32)%nat))
        (remote_error BadRequest "raw public key must be ed25519 (expected 32-byte key)");
  _ ← ensure (bool_decide (take 12 spki_der = ED25519_SPKI_PREFIX))
        (remote_error BadRequest "raw public key must be ed25519");
  Ok (drop 12 spki_der).

Inductive ServerIdentityStatus :=
  | Matched (presented_key_hex : string)
  | UnknownServer (presented_key_hex : string)
  | Mismatch (expected_key_hex presented_key_hex : string).

Record TofuServerCertVerifier := {
  tv_expected_key_hex : option string;
  tv_observed_status : option ServerIdentityStatus;
}.

Definition new_verifier (expected_key_hex : option string) : TofuServerCertVerifier :=
  {| tv_expected_key_hex := to_ascii_lowercase <$> expected_key_hex; tv_observed_status := None |}.

(** The handshake accepts every ed25519 key; what it saw is judged after it. *)
Definition verify_server_cert (end_entity : list byte) (v : TofuServerCertVerifier)
    : TofuServerCertVerifier * result string unit :=
  match extract_ed25519_raw_public_key_from_spki end_entity with
  | Err e => (v, Err (display_error e))
  | Ok raw_key =>
    let presented_key_hex := hex_encode raw_key in
    let status :=
      match tv_expected_key_hex v with
      | Some expected_key_hex =>
        if eq_ignore_ascii_case expected_key_hex presented_key_hex
        then Matched presented_key_hex else Mismatch expected_key_hex presented_key_hex
      | None => UnknownServer presented_key_hex
      end in
    ({| tv_expected_key_hex := tv_expected_key_hex v; tv_observed_status := Some status |}, Ok tt)
  end.

(** ** The network *)

Definition waited {A} (timed_out failed : string) (w : Waited A) : iresult A :=
  match w with
  | TimedOut => Err (remote_error OperationTimeout timed_out)
  | Failed e => Err (remote_error Internal (failed +:+ ": " +:+ e))
  | Arrived a => Ok a
  end.

Definition step_ok (fault : option string) (what : string) : iresult unit :=
  match fault with
  | None => Ok tt
  | Some e => Err (remote_error Internal (what +:+ ": " +:+ e))
  end.

Definition create_client_endpoint (nw : Network) : iresult unit :=
  match nw_bind6 nw with
  | None => Ok tt
  | Some _ => step_ok (nw_bind4 nw) "failed to bind client endpoint on 0.0.0.0:0"
  end.

Definition resolve_remote_socket_addr (nw : Network) (host : string) (port : Z) : iresult string :=
  let where_ := host +:+ ":" +:+ to_string port in
  addrs ← map_err (λ e, remote_error BadRequest
            ("failed to resolve remote host " +:+ where_ +:+ ": " +:+ e)) (nw_lookup nw);
  ok_or (head addrs) (remote_error BadRequest ("no resolved address for remote host " +:+ where_)).

(** The handshake runs the verifier on what the server presents. *)
Definition handshake (nw : Network) (v : TofuServerCertVerifier) : iresult TofuServerCertVerifier :=
  presented ← map_err (λ e, remote_error Internal ("quic connect failed: " +:+ e)) (nw_handshake nw);
  match presented with
  | None => Ok v
  | Some end_entity =>
    let '(v, r) := verify_server_cert end_entity v in
    _ ← map_err (λ e, remote_error Internal ("quic connect failed: " +:+ e)) r;
    Ok v
  end.

(** ** Sessions *)

Definition resolve_client_key_path (config_path configured : string) : string :=
  if is_absolute configured then configured
  else match parent config_path with
       | Some dir => path_join dir configured
       | None => configured
       end.

Section session.
Context `{TomlCrate} (io : FsIo).

(** Opening a directory succeeds, reading it fails. *)
Definition load_private_key (path : string) : fsm PrivateKey := λ t,
  (t,
   content ← match io_fault io OpRead (key path), t !! key path with
             | Some e, _ => Err (remote_error Internal ("private key open failed: " +:+ e))
             | None, None => Err (remote_error Internal
                 ("private key open failed: " +:+ fs_error_text NotFoundError))
             | None, Some Directory => Ok (Err "Is a directory (os error 21)")
             | None, Some (File content) => Ok (Ok content)
             end;
   map_err (λ e, remote_error BadRequest ("private key parse failed: " +:+ e))
     (private_key_from_pem content)).

Definition build_client_raw_public_key_resolver (client_key : PrivateKey) : iresult (list byte) :=
  signing_key ← map_err (λ e, remote_error BadRequest ("client key load failed: " +:+ e))
                  (load_signing_key client_key);
  _ ← ensure (signs_ed25519 signing_key)
        (remote_error BadRequest "client private key must be ed25519 for raw public key TLS");
  spki ← ok_or (signing_public_key signing_key)
           (remote_error BadRequest "failed to derive public key from private key");
  _ ← extract_ed25519_raw_public_key_from_spki spki;
  Ok spki.

(** [connect_remote_session] up to the connection: the key expected of the server is read. *)
Definition prepare_session (config_path : string) (authority : RemoteAuthority)
    : fsm TofuServerCertVerifier :=
  config ← load io config_path;
  let expected_key_hex := tls_known_public_keys (ic_tls config) !! ra_key authority in
  client_key ← load_private_key
                 (resolve_client_key_path config_path (tls_server_key (ic_tls config)));
  _ ← pure (build_client_raw_public_key_resolver client_key);
  mret (new_verifier expected_key_hex).

(** The rest: connect, and judge what the verifier saw. *)
Definition establish_session (nw : Network) (unique : Z) (config_path : string)
    (authority : RemoteAuthority) (verifier : TofuServerCertVerifier) : fsm unit :=
  _ ← pure (step_ok (nw_tls_setup nw) "tls version setup failed");
  _ ← pure (step_ok (nw_quic_setup nw) "quic tls setup failed");
  _ ← pure (create_client_endpoint nw);
  _ ← pure (resolve_remote_socket_addr nw (ra_host authority) (ra_port authority));
  _ ← pure (step_ok (nw_connect nw) "quic connect start failed");
  verifier ← pure (handshake nw verifier);
  _ ← pure (map_err (λ e, remote_error BadRequest ("request URL parse failed: " +:+ e))
        (url_parse ("https://" +:+ ra_host_for_url authority +:+ ":"
                    +:+ to_string (ra_port authority) +:+ "/")));
  _ ← pure (step_ok (nw_webtransport nw) "webtransport connect failed");
  match tv_observed_status verifier with
  | Some (Matched _) => mret tt
  | Some (UnknownServer presented_key_hex) =>
    upsert_tls_known_public_key io unique config_path (ra_key authority) presented_key_hex
  | Some (Mismatch expected_key_hex presented_key_hex) =>
    pure (Err (remote_error Unauthorized
      ("server key mismatch for authority '" +:+ ra_key authority +:+ "': expected "
       +:+ expected_key_hex +:+ ", got " +:+ presented_key_hex)))
  | None =>
    pure (Err (remote_error Unauthorized
      ("failed to verify server raw public key for authority '" +:+ ra_key authority +:+ "'")))
  end.

Definition connect_remote_session (nw : Network) (unique : Z) (config_path : string)
    (authority : RemoteAuthority) : fsm unit :=
  verifier ← prepare_session config_path authority;
  establish_session nw unique config_path authority verifier.

Definition probe_remote_authority (nw : Network) (unique : Z) (config_path authority : string)
    : fsm RemoteAuthority :=
  authority ← pure (parse_rpc_authority authority);
  _ ← connect_remote_session nw unique config_path authority;
  mret authority.

End session.
End remote.

(** ** Requests *)

(** What serde does at the caller's end. *)
Class RpcSerde (Value : Type) `{Serde Value} := {
  hello_request_to_value : HelloNegotiateRequest → result string Value;
  rpc_request_to_value : RpcInvokeRequest → result string Value;
  hello_response_from_value : Value → result string HelloNegotiateResponse;
  rpc_response_from_value : Value → result string RpcInvokeResponse;
  envelope_to_cbor : ProtocolEnvelope Value → result string (list byte);
}.

(** Encoding these messages never fails, and decoding gives them back. *)
Class RpcSerdeLaws (Value : Type) `{RpcSerde Value} : Prop := {
  hello_request_trip q : ∃ v, hello_request_to_value q = Ok v ∧ from_hello v = Ok q;
  rpc_request_trip q : ∃ v, rpc_request_to_value q = Ok v ∧ from_rpc v = Ok q;
  hello_response_trip r : ∃ v, to_value (RespHello r) = Ok v ∧ hello_response_from_value v = Ok r;
  rpc_response_trip r : ∃ v, to_value (RespRpc r) = Ok v ∧ rpc_response_from_value v = Ok r;
  envelope_trip e : ∃ bs, envelope_to_cbor e = Ok bs ∧ envelope_from_cbor bs = Ok e ∧
    header_from_cbor bs = Ok (pe_message_type e, pe_request_id e, pe_correlation_id e);
}.

(** The loop of [decode_frames]; every round advances by at least the header. *)
Fixpoint decode_frames_loop (fuel : nat) (value : list byte) (offset : nat)
    : iresult (list (list byte)) :=
  match fuel with
  | O => Ok []
  | S fuel =>
    if bool_decide (offset < length value)%nat then
      if bool_decide (length value - offset < 4)%nat
      then Err (remote_error BadRequest "truncated frame header")
      else
        let len := Z.to_nat (from_be_bytes (take 4 (drop offset value))) in
        let offset := (offset + 4)%nat in
        if bool_decide (length value - offset < len)%nat
        then Err (remote_error BadRequest "truncated frame payload")
        else
          rest ← decode_frames_loop fuel value (offset + len);
          Ok (take len (drop offset value) :: rest)
    else Ok []
  end.
Definition decode_response_frames (value : list byte) : iresult (list (list byte)) :=
  decode_frames_loop (S (length value)) value 0.

(** Code that talks to the other end. *)
Definition talk (P A : Type) : Type := P → P * iresult A.
#[global] Typeclasses Opaque talk.
#[export] Instance talk_ret {P} : MRet (talk P) := λ A a p, (p, Ok a).
#[export] Instance talk_bind {P} : MBind (talk P) := λ A B f m p,
  match m p with (p, Ok a) => f a p | (p, Err e) => (p, Err e) end.
Definition known_here {P A} (r : iresult A) : talk P A := λ p, (p, r).

Section calls.
Context `{NetCrates, RpcSerde Value, Semver} {P : Type} (peer : Peer P).

Abbreviation Envelope := (ProtocolEnvelope Value).

Definition hello_rejection_message (response : HelloNegotiateResponse) : string :=
  let rejected :=
    "hello.negotiate was rejected by remote imagod (server_protocol_version="
    +:+ hr_server_protocol_version response +:+ ", supported_protocol_version_range="
    +:+ hr_supported_protocol_version_range response +:+ ")" in
  match hr_compatibility_announcement response with
  | Some announcement => if is_blank announcement then rejected else announcement
  | None => rejected
  end.

(** [version_error] is what semver says of a text that is not a version. *)
Definition ensure_server_protocol_version_supported (version_error : string → string)
    (response : HelloNegotiateResponse) : iresult unit :=
  supported_range ← map_err (λ e, remote_error Internal
    ("invalid client supported protocol range '" +:+ SUPPORTED_PROTOCOL_VERSION_RANGE +:+ "': " +:+ e))
    (version_req_parse SUPPORTED_PROTOCOL_VERSION_RANGE);
  let version := hr_server_protocol_version response in
  server_protocol_version ← ok_or (version_parse version)
    (remote_error BadRequest ("server_protocol_version '" +:+ version +:+ "' is not valid semver: "
       +:+ version_error version));
  ensure (version_matches supported_range server_protocol_version)
    (remote_error BadRequest ("server protocol version '" +:+ version
       +:+ "' is not supported by this client (client supports '"
       +:+ SUPPORTED_PROTOCOL_VERSION_RANGE +:+ "')")).

Definition request_envelope (message_type : MessageType) (request_id correlation_id : Uuid)
    (payload : result string Value) : iresult Envelope :=
  payload ← map_err (λ e, remote_error Internal ("payload encode failed: " +:+ e)) payload;
  Ok {| pe_message_type := message_type; pe_request_id := request_id;
        pe_correlation_id := correlation_id; pe_payload := payload; pe_error := None |}.

Definition response_payload {T} `{Validate T} (from_value : Value → result string T)
    (response : Envelope) : iresult T :=
  match pe_error response with
  | Some err => Err (new_error (se_code err) (se_stage err) (se_message err))
  | None =>
    payload ← map_err (λ e, remote_error BadRequest ("response payload decode failed: " +:+ e))
                (from_value (pe_payload response));
    _ ← map_err (λ e, remote_error BadRequest (ve_to_string e)) (validate payload);
    Ok payload
  end.

Definition waiting {A} (timed_out failed : string) (step : P → P * Waited A) : talk P A := λ p,
  let '(p, w) := step p in (p, waited timed_out failed w).

(** [recv.read_to_end(MAX_STREAM_BYTES)]. *)
Definition read_to_end (w : Waited (list byte)) : Waited (list byte) :=
  match w with
  | Arrived bytes => if zlen bytes <=? MAX_RESPONSE_BYTES then w else Failed "stream too long"
  | _ => w
  end.

Definition request_response (envelope : Envelope) : talk P Envelope :=
  payload ← known_here (map_err (λ e, remote_error Internal ("frame encode failed: " +:+ e))
              (envelope_to_cbor envelope));
  let framed := encode_frame payload in
  _ ← waiting "open_bi timed out" "open_bi failed" (pr_open peer);
  _ ← waiting "stream write timed out" "stream write failed" (pr_write peer framed);
  _ ← (λ p, let '(p, fault) := pr_finish peer p in (p, step_ok fault "stream finish failed"));
  response_bytes ← waiting "stream read timed out" "stream read failed"
                     (λ p, let '(p, w) := pr_read peer p in (p, read_to_end w));
  frames ← known_here (decode_response_frames response_bytes);
  known_here match frames with
  | [] => Err (remote_error Internal "remote response stream was empty")
  | first :: _ =>
    map_err (λ e, remote_error BadRequest ("response envelope decode failed: " +:+ e))
      (envelope_from_cbor first)
  end.

Definition negotiate_hello (version_error : string → string) (request_id correlation_id : Uuid)
    : talk P unit :=
  hello_request ← known_here (request_envelope MtHelloNegotiate request_id correlation_id
    (hello_request_to_value {| hq_client_version := PROTOCOL_VERSION;
                               hq_required_features := ["rpc.invoke"] |}));
  response ← request_response hello_request;
  known_here (
    hello_response ← response_payload hello_response_from_value response;
    _ ← ensure (hr_accepted hello_response)
          (remote_error BadRequest (hello_rejection_message hello_response));
    _ ← ensure_server_protocol_version_supported version_error hello_response;
    ensure (existsb (λ f, bool_decide (f = "rpc.invoke")) (hr_features hello_response))
      (remote_error BadRequest "remote imagod does not support rpc.invoke")).

(** The ids of one call. *)
Record CallIds := { ci_correlation : Uuid; ci_hello : Uuid; ci_invoke : Uuid }.

(** [invoke_remote_authority] over a session. *)
Definition call_over_session (version_error : string → string) (ids : CallIds)
    (target_service interface_id function : string) (args_cbor : list byte) : talk P (list byte) :=
  _ ← negotiate_hello version_error (ci_hello ids) (ci_correlation ids);
  invoke_request ← known_here (request_envelope MtRpcInvoke (ci_invoke ids) (ci_correlation ids)
    (rpc_request_to_value {| rq_interface_id := interface_id; rq_function := function;
                             rq_args_cbor := args_cbor;
                             rq_target_service := {| Protocol.rt_name := target_service |} |}));
  response ← request_response invoke_request;
  known_here (
    invoke_response ← response_payload rpc_response_from_value response;
    _ ← map_err (λ e, remote_error BadRequest (ve_to_string e)) (validate invoke_response);
    match rr_error invoke_response with
    | Some err => Err (new_error (re_code err) (re_stage err) (re_message err))
    | None => ok_or (rr_result_cbor invoke_response)
                (remote_error Internal "rpc.invoke response missing result_cbor")
    end).

(** The caller's files and the other end of the session. *)
Definition invoke_remote_authority `{TomlCrate} (io : FsIo) (nw : Network) (unique : Z)
    (version_error : string → string) (ids : CallIds) (config_path : string)
    (authority : RemoteAuthority) (target_service interface_id function : string)
    (args_cbor : list byte) (t : tree) (p : P) : tree * P * iresult (list byte) :=
  match connect_remote_session io nw unique config_path authority t with
  | (t, Ok _) =>
    let '(p, r) := call_over_session version_error ids target_service interface_id function args_cbor p in
    (t, p, r)
  | (t, Err e) => (t, p, Err e)
  end.

End calls.

(** What the supervisor sees of the other hosts, at the configuration in [t]; the state another host
    is in may depend on all the calls made before. *)
Definition remote_world `{NetCrates, RpcSerde Value, Semver, TomlCrate} {P} (io : FsIo)
    (nw : RemoteAuthority → Network) (unique : Z) (version_error : string → string) (ids : CallIds)
    (peer : RemoteAuthority → Peer P) (state : list RemoteCall → RemoteAuthority → P)
    (config_path : string) (t : tree) : RemoteWorld :=
  {| rw_probe _ authority :=
       match parse_rpc_authority authority with
       | Err e => Err e
       | Ok a => (probe_remote_authority io (nw a) unique config_path authority t).2
       end;
     rw_invoke calls authority target_service interface_id function args_cbor :=
       (invoke_remote_authority (peer authority) io (nw authority) unique version_error ids config_path
          authority target_service interface_id function args_cbor t (state calls authority)).2 |}.
