(* ===== verification/RemoteTheorems.v ===== *)
(** * Theorems on calls to other nodes

    Trust on first use over sequences of connections, and calls between two daemons. *)

From S2P Require Import Prelude Protocol Text IpAddr Ipc Frames Files ArtifactStore Supervisor ManagerControl Paths Tree TreeFacts Manifest Launch Orchestrator Deploy Session Runner ArtifactResume Client Config ConfigTheorems RemoteRpc.

Open Scope string_scope.
Open Scope Z_scope.

(** ** Keys *)

Lemma encode_hex_lower k : length k = 32%nat → to_ascii_lowercase (encode_hex k) = encode_hex k.
Proof. intros Hk. by apply parse_encode_hex, parse_lower in Hk as [_ ?]. Qed.

Lemma encode_hex_inj k1 k2 :
  length k1 = 32%nat → length k2 = 32%nat → encode_hex k1 = encode_hex k2 → k1 = k2.
Proof. intros H1%parse_encode_hex H2%parse_encode_hex E. rewrite E in H1. congruence. Qed.

Lemma extract_length der k : extract_ed25519_raw_public_key_from_spki der = Ok k → length k = 32%nat.
Proof.
  unfold extract_ed25519_raw_public_key_from_spki. intros E. inv_ok.
  rewrite bool_decide_eq_true in *. rewrite length_drop. lia.
Qed.

(** ** Authorities *)

(** Trimming keeps a text that starts and ends with printable characters. *)
Lemma trim_ends s c d :
  head (bytes_of s) = Some c → last (bytes_of s) = Some d →
  is_ascii_graphic c = true → is_ascii_graphic d = true → trim s = s.
Proof.
  intros Hc Hd Hgc Hgd.
  assert (∀ pats x s, forallb (λ p, match bytes_of p with b :: _ => negb (is_ascii_graphic b) | [] => false end) pats = true →
    head (bytes_of s) = Some x → is_ascii_graphic x = true →
    ∀ p, p ∈ pats → strip_prefix p s = None) as Hstrip.
  { intros pats x u Hp Hx Hg p Hin%list_elem_of_In. rewrite forallb_forall in Hp. specialize (Hp p Hin).
    destruct (strip_prefix p u) as [r|] eqn:E; [|done]. apply strip_prefix_app in E as ->.
    rewrite bytes_of_app in Hx. destruct (bytes_of p) as [|y l]; [done|]. simpl in Hx. injection Hx as ->.
    by rewrite Hg in Hp. }
  unfold trim, trim_end, trim_start.
  rewrite (strip_all_id _ white_space) by (by apply (Hstrip _ c); [vm_compute|..]).
  rewrite strip_all_id; [by rewrite string_rev_involutive|].
  apply (Hstrip _ d); [by vm_compute|by rewrite bytes_of_rev_eq, head_reverse|done].
Qed.

Lemma to_string_last z : ∃ d, last (bytes_of (to_string z)) = Some d ∧ is_ascii_graphic d = true.
Proof.
  assert (∀ n : N, ∃ d, last (bytes_of (pretty n)) = Some d ∧ is_ascii_graphic d = true) as Hn.
  { intros n. pose proof (pretty_N_digits n) as Hd. pose proof (pretty_N_nonempty n) as Hne.
    destruct (last (bytes_of (pretty n))) as [d|] eqn:E.
    - exists d. split; [done|]. apply last_Some_elem_of in E. unfold all_chars in Hd.
      rewrite forallb_forall in Hd. specialize (Hd d (proj1 (list_elem_of_In _ _) E)).
      unfold is_ascii_digit in Hd. unfold is_ascii_graphic. revert Hd. rewrite !andb_true_iff, !N.leb_le. lia.
    - apply last_None in E. by destruct (pretty n). }
  destruct z as [|p|p]; [apply (Hn 0%N)|apply (Hn (N.pos p))|].
  destruct (Hn (N.pos p)) as (d & Hd & Hg). exists d. split; [|done].
  change (to_string (Z.neg p)) with (String "-" (pretty (N.pos p))). simpl.
  rewrite last_cons. by rewrite Hd.
Qed.

(** Pins are stored and looked up under the same name. *)
Lemma authority_key_trimmed `{NetCrates} s a :
  parse_rpc_authority s = Ok a → trim (ra_key a) = ra_key a.
Proof.
  unfold parse_rpc_authority. intros E. cbv zeta in E. inv_ok. simpl.
  match goal with |- trim (_ +:+ ?h +:+ _ +:+ to_string ?z) = _ => destruct (to_string_last z) as (d & Hd & Hg) end.
  eapply (trim_ends _ "r"%char d); [done| |done|done].
  rewrite !bytes_of_app, !last_app, Hd. done.
Qed.

(** ** Trust on first use *)

Abbreviation known c := (tls_known_public_keys (ic_tls c)).

(** The key a server presented. *)
Definition presented_key (nw : Network) : option (list byte) :=
  match nw_handshake nw with
  | Ok (Some der) =>
    match extract_ed25519_raw_public_key_from_spki der with Ok k => Some k | Err _ => None end
  | _ => None
  end.

Section trust.
Context `{NL : NetLaws} `{TL : TomlLaws b} (path name : string).
Hypothesis Hname : file_name path = Some name.

Lemma load_Ok_holds io c t t' c' :
  holds b path c t → load io path t = (t', Ok c') → t' = t ∧ c' = c.
Proof.
  intros Hh E. destruct (io_fault io OpRead (key path)) as [m|] eqn:Hf.
  - exfalso. destruct Hh as (content & v & Ht & Hu & _). revert E.
    unfold load, mbind, fsm_bind, Tree.lift.
    by rewrite (read_to_string_text io path content), Hf by done.
  - rewrite (load_holds io path c t Hh Hf) in E. by simplify_eq.
Qed.

Lemma prepare_same io authority t : (prepare_session io path authority t).1 = t.
Proof.
  unfold prepare_session, mbind, fsm_bind. pose proof (load_same io path t) as E.
  destruct (load io path t) as [t1 [c|e]]; simpl in E; subst; [|done].
  unfold load_private_key, pure. destruct (_ ≫= _) as [k|e]; [|done].
  by destruct (build_client_raw_public_key_resolver k).
Qed.

Lemma prepare_inv io authority c t t' v :
  holds b path c t → prepare_session io path authority t = (t', Ok v) →
  v = new_verifier (known c !! ra_key authority).
Proof.
  intros Hh E. unfold prepare_session in E.
  apply fsm_bind_inv in E as (t1 & c1 & El & E).
  apply (load_Ok_holds io c) in El as [-> ->]; [|done]. cbv zeta in E. inv_fsm. done.
Qed.

Lemma handshake_inv nw v v' status :
  handshake nw v = Ok v' → tv_observed_status v = None → tv_observed_status v' = Some status →
  ∃ k, presented_key nw = Some k ∧ length k = 32%nat ∧
    status = match tv_expected_key_hex v with
             | Some expected => if eq_ignore_ascii_case expected (hex_encode k)
                                then Matched (hex_encode k) else Mismatch expected (hex_encode k)
             | None => UnknownServer (hex_encode k)
             end.
Proof.
  unfold handshake, presented_key. intros (presented & Hp%map_err_Ok & E)%bind_Ok Hv Hs. rewrite Hp.
  destruct presented as [der|]; [|naive_solver].
  unfold verify_server_cert in E.
  destruct (extract_ed25519_raw_public_key_from_spki der) as [k|e] eqn:Ek; [|done].
  simpl in E. injection E as <-. simpl in Hs. injection Hs as <-.
  exists k. split_and!; [done|by eapply extract_length|done].
Qed.

Lemma expected_matches h k :
  is_key h → length k = 32%nat →
  eq_ignore_ascii_case (to_ascii_lowercase h) (encode_hex k) = true →
  parse_ed25519_raw_public_key_hex h = Ok k.
Proof.
  intros [k0 Hk0] Hk. unfold eq_ignore_ascii_case. rewrite bool_decide_eq_true, lower_idemp, encode_hex_lower by done.
  pose proof (parse_lower _ _ Hk0) as [Hl ->]. intros E. by rewrite Hk0, (encode_hex_inj k0 k).
Qed.

(** What establishing a session does to the pins, with [expected] read before: an accepted
    server presented the expected key, or a key was pinned where none was expected. *)
Definition session_pins (nw : Network) (authority : RemoteAuthority) (expected : option string)
    (c c' : ImagodConfig) (r : iresult unit) : Prop :=
  known c' = known c ∧
  (r = Ok tt → ∃ h k, expected = Some h ∧ presented_key nw = Some k ∧ length k = 32%nat ∧
     eq_ignore_ascii_case (to_ascii_lowercase h) (encode_hex k) = true)
  ∨ expected = None ∧ ∃ k, presented_key nw = Some k ∧ length k = 32%nat ∧
      known c' = <[ra_key authority := encode_hex k]> (known c).

Lemma session_refused nw authority expected c t e t' r :
  holds b path c t → (t, Err e) = (t', r) →
  ∃ c', holds b path c' t' ∧ session_pins nw authority expected c c' r.
Proof. intros Hh [= <- <-]. exists c. split; [done|]. by left. Qed.

Lemma establish_spec io nw unique authority expected c t t' r :
  holds b path c t → trim (ra_key authority) = ra_key authority →
  establish_session io nw unique path authority (new_verifier expected) t = (t', r) →
  ∃ c', holds b path c' t' ∧ session_pins nw authority expected c c' r.
Proof.
  intros Hh Htrim E. unfold establish_session, mbind, fsm_bind, pure in E.
  repeat match type of E with
  | match ?x with Ok _ => _ | Err _ => _ end = _ =>
    destruct x eqn:?; [|by eapply session_refused]
  end.
  match goal with Eh : handshake _ _ = Ok ?v |- _ => rename Eh into Hv; rename v into v' end.
  destruct (tv_observed_status v') as [status|] eqn:Hs; [|by eapply session_refused].
  destruct (handshake_inv nw _ v' status Hv eq_refl Hs) as (k & Hk & Hlen & Est).
  rewrite hex_encode_lower in Est. destruct expected as [h|]; simpl in Est.
  - destruct (eq_ignore_ascii_case _ _) eqn:Eq; subst status; [|by eapply session_refused].
    injection E as <- <-. exists c. split; [done|]. left. split; [done|]. intros _. by exists h, k.
  - subst status.
    apply (upsert_spec io false unique path name _ _ c) in E as [Hp _]; [|done..].
    destruct Hp as [[Hc Hr]|(Hc & _ & _)].
    + exists c. split; [done|]. by left.
    + eexists. split; [done|]. right. split; [done|]. exists k. simpl. by rewrite Htrim, encode_hex_lower.
Qed.

Lemma connect_spec io nw unique authority c t t' r :
  holds b path c t → trim (ra_key authority) = ra_key authority →
  connect_remote_session io nw unique path authority t = (t', r) →
  ∃ c', holds b path c' t' ∧ session_pins nw authority (known c !! ra_key authority) c c' r.
Proof.
  intros Hh Htrim E. unfold connect_remote_session, mbind, fsm_bind in E.
  pose proof (prepare_same io authority t) as Hsame.
  destruct (prepare_session io path authority t) as [t1 [v|e]] eqn:Ep; simpl in Hsame; subst t1.
  - apply (prepare_inv io authority c) in Ep as ->; [|done]. by eapply establish_spec.
  - by eapply session_refused.
Qed.

(** *** Progress *)

(** Nothing fails on the way to a server that owns [k]. *)
Record reachable_server (nw : Network) (authority : RemoteAuthority) (k : list byte) : Prop := {
  re_steps : nw_tls_setup nw = None ∧ nw_quic_setup nw = None ∧ nw_bind6 nw = None ∧
             nw_connect nw = None ∧ nw_webtransport nw = None;
  re_addr : ∃ a l, nw_lookup nw = Ok (a :: l);
  re_cert : ∃ der, nw_handshake nw = Ok (Some der) ∧ extract_ed25519_raw_public_key_from_spki der = Ok k;
  re_url : ∃ u, url_parse ("https://" +:+ ra_host_for_url authority +:+ ":"
                           +:+ to_string (ra_port authority) +:+ "/") = Ok u;
}.

(** The daemon has a key of its own to present. *)
Definition can_sign (io : FsIo) (c : ImagodConfig) (t : tree) : Prop :=
  ∃ ck spki, load_private_key io (resolve_client_key_path path (tls_server_key (ic_tls c))) t = (t, Ok ck) ∧
    build_client_raw_public_key_resolver ck = Ok spki.

Lemma prepare_session_Ok io authority c t :
  holds b path c t → io_fault io OpRead (key path) = None → can_sign io c t →
  prepare_session io path authority t = (t, Ok (new_verifier (known c !! ra_key authority))).
Proof.
  intros Hh Hf (ck & spki & Hl & Hb). unfold prepare_session, mbind, fsm_bind.
  rewrite (load_holds io path c t Hh Hf), Hl. unfold pure. by rewrite Hb.
Qed.

Lemma establish_judges io nw unique authority k expected t :
  reachable_server nw authority k →
  establish_session io nw unique path authority (new_verifier expected) t =
  match expected with
  | Some h =>
    if eq_ignore_ascii_case (to_ascii_lowercase h) (encode_hex k) then (t, Ok tt)
    else (t, Err (remote_error Unauthorized
      ("server key mismatch for authority '" +:+ ra_key authority +:+ "': expected "
       +:+ to_ascii_lowercase h +:+ ", got " +:+ encode_hex k)))
  | None => upsert_tls_known_public_key io unique path (ra_key authority) (encode_hex k) t
  end.
Proof.
  intros [(H1 & H2 & H3 & H4 & H5) (a & l & Hl) (der & Hd & Hk) (u & Hu)].
  unfold establish_session, mbind, fsm_bind, pure, create_client_endpoint, resolve_remote_socket_addr, handshake.
  rewrite H1, H2, H3, H4, H5, Hl, Hd. simpl. unfold verify_server_cert. rewrite Hk. simpl. rewrite Hu. simpl.
  rewrite hex_encode_lower. destruct expected as [h|]; simpl; [|done].
  by destruct (eq_ignore_ascii_case _ _).
Qed.

(** An unknown server is accepted and pinned; a pinned one is accepted exactly when it presents the
    pinned key. *)
Lemma connect_fresh io nw unique authority k c t :
  calm io → holds b path c t → can_sign io c t → reachable_server nw authority k →
  known c !! ra_key authority = None → trim (ra_key authority) = ra_key authority → ra_key authority ≠ "" →
  open_way (key (config_parent_dir path)) t → t !! key (temp_path path unique) ≠ Some Directory →
  ∃ t', connect_remote_session io nw unique path authority t = (t', Ok tt) ∧
    holds b path (pinned false (ra_key authority) (encode_hex k) c) t' ∧
    changed_within (λ x, x = key path ∨ x = key (temp_path path unique))
      (λ x, under x (key (config_parent_dir path))) t t'.
Proof.
  intros Hc Hh Hs Hr Hn Htrim Hne Hw Ht.
  assert (is_key (encode_hex k)) as Hk.
  { destruct (re_cert _ _ _ Hr) as (der & _ & Hk). exists k. by eapply parse_encode_hex, extract_length. }
  destruct (calm_update (b := b) io false unique path name (ra_key authority) (encode_hex k) c t)
    as [t' E]; [done..|by rewrite Htrim|done|].
  exists t'. unfold connect_remote_session, mbind, fsm_bind.
  rewrite (prepare_session_Ok io authority c t Hh (Hc _ _) Hs), Hn, (establish_judges io nw unique authority k) by done.
  apply (upsert_spec io false unique path name _ _ c) in E as Hu; [|done..].
  split; [exact E|]. destruct Hu as [[[_ []]|[Hp _]] Hch]; [done|]. by rewrite Htrim in Hp.
Qed.

Lemma connect_pinned io nw unique authority k h c t :
  holds b path c t → io_fault io OpRead (key path) = None → can_sign io c t →
  reachable_server nw authority k → known c !! ra_key authority = Some h →
  ∃ r, connect_remote_session io nw unique path authority t = (t, r) ∧
    (r = Ok tt ↔ parse_ed25519_raw_public_key_hex h = Ok k).
Proof.
  intros Hh Hf Hs Hr Hn. unfold connect_remote_session, mbind, fsm_bind.
  rewrite (prepare_session_Ok io authority c t Hh Hf Hs), Hn, (establish_judges io nw unique authority k) by done.
  assert (length k = 32%nat) as Hlen by (destruct (re_cert _ _ _ Hr) as (? & _ & ?); by eapply extract_length).
  assert (is_key h) as Hk.
  { destruct Hh as (? & ? & _ & _ & _ & _ & (_ & _ & Hv & _)%validate_config_Ok). by apply Hv in Hn as [_ ?]. }
  destruct (eq_ignore_ascii_case _ _) eqn:Eq; (eexists; split; [done|]); split; try done.
  - intros _. by apply expected_matches.
  - intros Hp%parse_lower. exfalso. revert Eq. destruct Hp as [_ ->]. unfold eq_ignore_ascii_case.
    by rewrite bool_decide_true.
Qed.

(** *** Sequences of operations

    What the daemon does with the file while it runs: it connects to other nodes, and an
    administrator uploads keys. *)
Inductive TrustOp :=
  | TConnect (io : FsIo) (nw : Network) (unique : Z) (authority : RemoteAuthority)
  | TUpload (io : FsIo) (unique : Z) (authority public_key_hex : string).

(** An accepted session is recorded with the key its server presented. *)
Definition trust_step (op : TrustOp) (t : tree) : tree * list (string * option (list byte)) :=
  match op with
  | TConnect io nw unique authority =>
    let '(t, r) := connect_remote_session io nw unique path authority t in
    (t, match r with Ok _ => [(ra_key authority, presented_key nw)] | Err _ => [] end)
  | TUpload io unique authority public_key_hex =>
    ((upsert_tls_known_client_key io unique path authority public_key_hex t).1, [])
  end.

Fixpoint trust_run (ops : list TrustOp) (t : tree) : tree * list (string * option (list byte)) :=
  match ops with
  | [] => (t, [])
  | op :: ops =>
    let '(t, accepted) := trust_step op t in
    let '(t, more) := trust_run ops t in
    (t, (accepted ++ more)%list)
  end.

(** The connections are to parsed authorities, and no administrator replaces the key of [a]. *)
Definition no_upload_for (a : string) (op : TrustOp) : Prop :=
  match op with
  | TConnect _ _ _ authority => trim (ra_key authority) = ra_key authority
  | TUpload _ _ authority _ => trim authority ≠ a
  end.

Definition key_accepted (c : ImagodConfig) (a : string) (o : option (list byte)) : Prop :=
  ∃ h k, o = Some k ∧ known c !! a = Some h ∧ parse_ed25519_raw_public_key_hex h = Ok k.

Lemma trust_step_spec op a c t t' accepted :
  holds b path c t → no_upload_for a op → trust_step op t = (t', accepted) →
  ∃ c', holds b path c' t' ∧ (∀ h, known c !! a = Some h → known c' !! a = Some h) ∧
    ∀ o, (a, o) ∈ accepted → key_accepted c' a o.
Proof.
  intros Hh Hop E. destruct op as [io nw unique authority|io unique authority key_hex]; simpl in *.
  - destruct (connect_remote_session _ _ _ _ _ _) as [t1 r] eqn:Ec. injection E as <- <-.
    destruct (connect_spec _ _ _ _ c _ _ _ Hh Hop Ec) as (c' & Hh' & [[Hk Hr]|(Hn & k & Hp & Hl & Hk)]);
      exists c'; (split; [done|]); split.
    + by rewrite Hk.
    + intros o Ho. destruct r as [[]|]; [|by apply elem_of_nil in Ho].
      apply list_elem_of_singleton in Ho as [= -> ->]. destruct (Hr eq_refl) as (h & k & Hh0 & -> & Hl & Eq).
      exists h, k. rewrite Hk. split_and!; [done..|]. apply expected_matches; [|done..].
      destruct Hh as (? & ? & _ & _ & _ & _ & (_ & _ & Hv & _)%validate_config_Ok). by apply Hv in Hh0 as [_ ?].
    + intros h Hh0. rewrite Hk. destruct (decide (a = ra_key authority)) as [->|?]; [congruence|].
      by rewrite lookup_insert_ne.
    + intros o Ho. destruct r as [[]|]; [|by apply elem_of_nil in Ho].
      apply list_elem_of_singleton in Ho as [= -> ->]. exists (encode_hex k), k.
      rewrite Hk, lookup_insert_eq. split_and!; [done..|by apply parse_encode_hex].
  - injection E as <- <-.
    destruct (upsert_tls_known_client_key _ _ _ _ _ _) as [t1 r] eqn:Eu.
    apply (upsert_spec io true unique path name authority key_hex c) in Eu as [[[Hc _]|(Hc & _)] _]; [..|done|done];
      (eexists; split; [exact Hc|]; split; [|by intros o ?%elem_of_nil]); [done|].
    intros h Hh0. simpl. by rewrite lookup_insert_ne.
Qed.

Lemma trust_run_spec a ops : ∀ c t t' accepted,
  holds b path c t → Forall (no_upload_for a) ops → trust_run ops t = (t', accepted) →
  ∃ c', holds b path c' t' ∧ (∀ h, known c !! a = Some h → known c' !! a = Some h) ∧
    ∀ o, (a, o) ∈ accepted → key_accepted c' a o.
Proof.
  induction ops as [|op ops IH]; intros c t t' accepted Hh Hops E; simpl in E.
  - injection E as <- <-. exists c. split_and!; [done..|]. by intros o ?%elem_of_nil.
  - apply Forall_cons in Hops as [Hop Hops].
    destruct (trust_step op t) as [t1 acc1] eqn:E1. destruct (trust_run ops t1) as [t2 acc2] eqn:E2.
    injection E as <- <-.
    destruct (trust_step_spec op a c t t1 acc1 Hh Hop E1) as (c1 & Hh1 & Hk1 & Ha1).
    destruct (IH c1 t1 t2 acc2 Hh1 Hops E2) as (c2 & Hh2 & Hk2 & Ha2).
    exists c2. split_and!; [done|by auto|]. intros o [Ho|Ho]%elem_of_app; [|by apply Ha2].
    destruct (Ha1 o Ho) as (h & k & -> & Hh' & Hp). exists h, k. auto.
Qed.

(** C9 (invariant). Over any sequence of connections to other nodes and key uploads, with any
    calls of the operating system failing and any servers answering, as long as no key is
    uploaded for an authority, every session the daemon accepted for it was with a
    server that presented one and the same key: the one the file names in the end, and
    the one it named in the beginning if it named one. *)
Theorem one_key_per_authority ops a c t t' accepted :
  holds b path c t → Forall (no_upload_for a) ops → trust_run ops t = (t', accepted) →
  ∃ c', holds b path c' t' ∧
    ∀ o, (a, o) ∈ accepted →
      ∃ h k, o = Some k ∧ known c' !! a = Some h ∧ parse_ed25519_raw_public_key_hex h = Ok k ∧
        ∀ h0, known c !! a = Some h0 → parse_ed25519_raw_public_key_hex h0 = Ok k.
Proof.
  intros Hh Hops E. destruct (trust_run_spec a ops c t t' accepted Hh Hops E) as (c' & Hh' & Hk & Ha).
  exists c'. split; [done|]. intros o Ho. destruct (Ha o Ho) as (h & k & -> & Hh0 & Hp).
  exists h, k. split_and!; [done..|]. intros h0 Hpin%Hk. congruence.
Qed.

(** C40 (error). Two first connections to the same authority that overlap, the second having read the
    file before the first pinned its server, are both accepted whatever keys the two servers
    present, when no call fails on the way; the file names the key of the first after the first,
    and that of the second in the end. *)
Theorem overlapping_first_connections io1 io2 nw1 nw2 u1 u2 authority k1 k2 c t :
  calm io1 → calm io2 → holds b path c t → can_sign io1 c t → can_sign io2 c t →
  reachable_server nw1 authority k1 → reachable_server nw2 authority k2 →
  known c !! ra_key authority = None → trim (ra_key authority) = ra_key authority → ra_key authority ≠ "" →
  open_way (key (config_parent_dir path)) t →
  t !! key (temp_path path u1) ≠ Some Directory → t !! key (temp_path path u2) ≠ Some Directory →
  key (temp_path path u2) ≠ key (temp_path path u1) →
  ∃ v t1 t2, prepare_session io2 path authority t = (t, Ok v) ∧
    connect_remote_session io1 nw1 u1 path authority t = (t1, Ok tt) ∧
    establish_session io2 nw2 u2 path authority v t1 = (t2, Ok tt) ∧
    ∃ c1 c2, holds b path c1 t1 ∧ known c1 !! ra_key authority = Some (encode_hex k1) ∧
      holds b path c2 t2 ∧ known c2 !! ra_key authority = Some (encode_hex k2).
Proof.
  intros Hc1 Hc2 Hh Hs1 Hs2 Hr1 Hr2 Hn Htrim Hne Hw Ht1 Ht2 Hu.
  destruct (connect_fresh io1 nw1 u1 authority k1 c t) as (t1 & E1 & Hh1 & Hch); [done..|].
  destruct (way_after path name u1 u2 t t1) as [Hw1 Ht1']; [done..|].
  assert (is_key (encode_hex k1) ∧ is_key (encode_hex k2)) as [Hk1 Hk2].
  { destruct (re_cert _ _ _ Hr1) as (? & _ & ?%extract_length), (re_cert _ _ _ Hr2) as (? & _ & ?%extract_length).
    split; eexists; by apply parse_encode_hex. }
  destruct (calm_update (b := b) io2 false u2 path name (ra_key authority) (encode_hex k2)
    (pinned false (ra_key authority) (encode_hex k1) c) t1) as [t2 E2]; [done..|by rewrite Htrim|done|].
  exists (new_verifier None), t1, t2. rewrite (prepare_session_Ok io2 authority c t Hh (Hc2 _ _) Hs2), Hn.
  rewrite (establish_judges io2 nw2 u2 authority k2) by done. split_and!; [done|done|exact E2|].
  apply (upsert_spec io2 false u2 path name _ _ (pinned false (ra_key authority) (encode_hex k1) c))
    in E2 as [[[_ []]|[Hp _]] _]; [done| |done|done]. rewrite Htrim in Hp.
  eexists _, _. split; [exact Hh1|]. split; [|split; [exact Hp|]]; simpl; rewrite lookup_insert_eq; f_equal;
    apply encode_hex_lower; [destruct (re_cert _ _ _ Hr1) as (? & _ & ?)|destruct (re_cert _ _ _ Hr2) as (? & _ & ?)];
    by eapply extract_length.
Qed.

End trust.

(** ** Calls between two nodes *)

(** The caller's copy of the frame decoder agrees with the daemon's. *)
Lemma decode_frames_loop_eq fuel value : ∀ offset,
  decode_frames_loop fuel value offset =
  map_err (λ e, remote_error BadRequest (err_message e))
    ((λ ranges : list (nat * nat), slice value <$> ranges) <$> decode_ranges_loop fuel value offset).
Proof.
  induction fuel as [|fuel IH]; intros offset; [done|]. cbn [decode_frames_loop decode_ranges_loop].
  destruct (bool_decide (offset < length value)%nat); [|done].
  destruct (bool_decide (length value - offset < 4)%nat); [done|]. cbv zeta.
  set (len := Z.to_nat _). destruct (bool_decide (length value - (offset + 4) < len)%nat); [done|].
  rewrite IH. destruct (decode_ranges_loop fuel value (offset + 4 + len)) as [rs|e]; [|done]. csimpl.
  f_equal. f_equal. unfold slice. simpl. f_equal. lia.
Qed.

Lemma decode_one p : zlen p < 2 ^ 32 → decode_frame_slices (encode_frame p) = Ok [p].
Proof.
  intros Hp. replace (encode_frame p) with (concat (encode_frame <$> [p])) by apply app_nil_r.
  apply Frames.decode_encode. by constructor.
Qed.

Lemma decode_response_one p : zlen p < 2 ^ 32 → decode_response_frames (encode_frame p) = Ok [p].
Proof.
  intros Hp%decode_one. unfold decode_response_frames. rewrite decode_frames_loop_eq.
  unfold decode_frame_slices, decode_frame_ranges in Hp. by rewrite Hp.
Qed.

Section two_nodes.
Context `{NC : NetCrates} `{RL : RpcSerdeLaws Value} `{SV : Semver} {S : Type}
  `{BE : Backend S} `{ST : !Streaming S Value} (node : HandlerConfig).

(** The other node serves one stream of a session; it writes each envelope as a frame. *)
Definition node_serves (auth : SessionAuthContext) (features : option bool) (fresh1 fresh2 : Uuid)
    (framed : list byte) (w : HandlerWorld S) : Served (Value := Value) (S := S) :=
  run_stream_io node (λ _, Ok tt) true features auth fresh1 fresh2
    {| sm_bytes := framed; sm_end := Eof |} w.

Definition envelope_bytes (e : ProtocolEnvelope Value) : list byte :=
  match envelope_to_cbor e with Ok bs => encode_frame bs | Err _ => [] end.

(** A session as the other node sees it: its world, what it remembers of the hello, and the bytes
    that arrived on the open stream.  A finished stream is served when its answer is read. *)
Record NodeSession := {
  ns_world : HandlerWorld S;
  ns_features : option bool;
  ns_received : list byte;
}.

Definition after_stream (auth : SessionAuthContext) (fresh1 fresh2 : Uuid) (received : list byte)
    (n : NodeSession) : NodeSession :=
  let d := node_serves auth (ns_features n) fresh1 fresh2 received (ns_world n) in
  {| ns_world := sd_world d; ns_features := sd_features d; ns_received := [] |}.

Definition node_peer (auth : SessionAuthContext) (fresh1 fresh2 : Uuid) : Peer NodeSession :=
  {| pr_open n := ({| ns_world := ns_world n; ns_features := ns_features n; ns_received := [] |}, Arrived tt);
     pr_write framed n :=
       ({| ns_world := ns_world n; ns_features := ns_features n;
           ns_received := (ns_received n ++ framed)%list |}, Arrived tt);
     pr_finish n := (n, None);
     pr_read n :=
       (after_stream auth fresh1 fresh2 (ns_received n) n,
        Arrived (concat (envelope_bytes <$> sd_written
          (node_serves auth (ns_features n) fresh1 fresh2 (ns_received n) (ns_world n))))) |}.

Lemma envelope_bytes_length e bs : envelope_to_cbor e = Ok bs → zlen (envelope_bytes e) = 4 + zlen bs.
Proof. intros E. unfold envelope_bytes. rewrite E. unfold zlen. rewrite length_encode_frame. lia. Qed.

Lemma read_whole bs :
  zlen bs <= MAX_STREAM_BYTES → read_stream_with_timeout {| sm_bytes := bs; sm_end := Eof |} = Ok bs.
Proof.
  intros Hl. unfold read_stream_with_timeout. simpl.
  assert ((MAX_STREAM_BYTES +ˢ 1)%imago = MAX_STREAM_BYTES + 1) as -> by done.
  rewrite take_ge by (unfold zlen in Hl; lia).
  assert (MAX_STREAM_BYTES <? zlen bs = false) as -> by (apply Z.ltb_ge; lia). by destruct (_ <=? _).
Qed.

(** The node reads back the request that was sent. *)
Lemma request_read auth features fresh1 fresh2 e w :
  zlen (envelope_bytes e) <= MAX_STREAM_BYTES → pe_message_type e ≠ MtArtifactPush →
  is_nil_uuid (pe_request_id e) = false → is_nil_uuid (pe_correlation_id e) = false →
  node_serves auth features fresh1 fresh2 (envelope_bytes e) w =
  handle_parsed_request node (λ _, Ok tt) true features auth {| ps_request := e; ps_typed_push := None |} w.
Proof.
  intros Hlen Hpush Hr Hc. unfold node_serves, run_stream_io.
  destruct (envelope_trip e) as (bs & Hcbor & Hback & Hhead).
  pose proof (envelope_bytes_length e bs Hcbor) as Hbl. rewrite read_whole by done.
  simpl. unfold parse_single_request_envelope.
  assert (decode_frame_slices (envelope_bytes e) = Ok [bs]) as ->.
  { unfold envelope_bytes. rewrite Hcbor. apply decode_one. unfold MAX_STREAM_BYTES in *. lia. }
  simpl. rewrite Hhead. simpl. unfold ensure_non_nil_ids. rewrite Hr, Hc. simpl.
  rewrite decide_False by done. rewrite Hback. simpl. by rewrite Hr, Hc.
Qed.

(** The caller reads back the one envelope the node wrote, and the node served one stream. *)
Lemma response_read auth fresh1 fresh2 e resp n :
  sd_written (node_serves auth (ns_features n) fresh1 fresh2 (envelope_bytes e) (ns_world n)) = [resp] →
  zlen (envelope_bytes resp) <= MAX_RESPONSE_BYTES →
  request_response (node_peer auth fresh1 fresh2) e n =
    (after_stream auth fresh1 fresh2 (envelope_bytes e) n, Ok resp).
Proof.
  intros Hw Hlen. unfold request_response, mbind, talk_bind, known_here, waiting.
  destruct (envelope_trip e) as (bs & Hcbor & _). rewrite Hcbor. cbn -[encode_frame decode_response_frames].
  assert (encode_frame bs = envelope_bytes e) as -> by (unfold envelope_bytes; by rewrite Hcbor).
  rewrite Hw. cbn [fmap list_fmap concat]. rewrite app_nil_r. rewrite (proj2 (Z.leb_le _ _)) by done.
  destruct (envelope_trip resp) as (bs' & Hcbor' & Hback & _).
  pose proof (envelope_bytes_length resp bs' Hcbor') as Hbl.
  assert (decode_response_frames (envelope_bytes resp) = Ok [bs']) as Hd.
  { unfold envelope_bytes. rewrite Hcbor'. apply decode_response_one. unfold MAX_RESPONSE_BYTES in *. lia. }
  cbn [waited]. rewrite Hd, Hback. done.
Qed.

(** *** The two requests of a call *)

Context (ids : CallIds) (auth : SessionAuthContext) (fresh1 fresh2 : Uuid)
  (n : NodeSession) (version_error : string → string).

Definition hello_envelope (v : Value) : ProtocolEnvelope Value :=
  {| pe_message_type := MtHelloNegotiate; pe_request_id := ci_hello ids;
     pe_correlation_id := ci_correlation ids; pe_payload := v; pe_error := None |}.
Definition invoke_envelope (v : Value) : ProtocolEnvelope Value :=
  {| pe_message_type := MtRpcInvoke; pe_request_id := ci_invoke ids;
     pe_correlation_id := ci_correlation ids; pe_payload := v; pe_error := None |}.

Definition hello_request : HelloNegotiateRequest :=
  {| hq_client_version := PROTOCOL_VERSION; hq_required_features := ["rpc.invoke"] |}.

Context (target_service interface_id function : string) (args_cbor : list byte).

Definition invoke_request : RpcInvokeRequest :=
  {| rq_interface_id := interface_id; rq_function := function; rq_args_cbor := args_cbor;
     rq_target_service := {| Protocol.rt_name := target_service |} |}.

(** What the other node's orchestrator answers, and the message that carries it. *)
Definition orchestrator_answer : iresult (list byte) :=
  (be_invoke target_service interface_id function args_cbor (hw_state (ns_world n))).2.
Definition answer_message : RpcInvokeResponse :=
  match orchestrator_answer with
  | Ok result_cbor => rpc_from_result result_cbor
  | Err e => rpc_from_error (err_code e) (err_stage e) (err_message e)
  end.

(** The ids are not nil, and the four messages of the call fit the streams. *)
Record fits : Prop := {
  fi_ids : is_nil_uuid (ci_hello ids) = false ∧ is_nil_uuid (ci_invoke ids) = false ∧
           is_nil_uuid (ci_correlation ids) = false;
  fi_hello v : hello_request_to_value hello_request = Ok v →
    zlen (envelope_bytes (hello_envelope v)) <= MAX_STREAM_BYTES;
  fi_hello_answer v : to_value (RespHello (hello_response node auth PROTOCOL_VERSION)) = Ok v →
    zlen (envelope_bytes (hello_envelope v)) <= MAX_RESPONSE_BYTES;
  fi_invoke v : rpc_request_to_value invoke_request = Ok v →
    zlen (envelope_bytes (invoke_envelope v)) <= MAX_STREAM_BYTES;
  fi_answer v : to_value (RespRpc answer_message) = Ok v →
    zlen (envelope_bytes (invoke_envelope v)) <= MAX_RESPONSE_BYTES;
}.

(** The other node is set up to serve the call. *)
Record serves : Prop := {
  sv_versions : versions_agree;
  sv_role : sa_role auth ≠ Unknown;
  sv_version_text : is_blank (hc_server_version node) = false;
  sv_request : validate invoke_request = Ok tt;
  sv_errors e : orchestrator_answer = Err e →
    is_blank (err_stage e) = false ∧ is_blank (err_message e) = false;
}.

Context (Hfits : fits) (Hserves : serves).

Lemma peer_allowed t :
  t = MtHelloNegotiate ∨ t = MtRpcInvoke → ensure_message_type_allowed t auth = Ok tt.
Proof.
  intros Ht. unfold ensure_message_type_allowed. pose proof (sv_role Hserves) as Hr.
  destruct (sa_role auth); [done| |done]. by destruct Ht as [->| ->].
Qed.

Lemma announcement_none : protocol_compatibility_announcement PROTOCOL_VERSION = None.
Proof.
  destruct (sv_versions Hserves) as (range & version & Hr & Hv & Hm).
  unfold protocol_compatibility_announcement. by rewrite Hr, Hv, Hm.
Qed.

(** The hello reaches no store; what the session remembers of it is that it asked for no logs. *)
Definition after_hello : NodeSession :=
  {| ns_world := ns_world n; ns_features := (λ _, false) <$> ns_features n; ns_received := [] |}.

Lemma hello_served v :
  from_hello v = Ok hello_request →
  ∃ v', to_value (RespHello (hello_response node auth PROTOCOL_VERSION)) = Ok v' ∧
    hello_response_from_value v' = Ok (hello_response node auth PROTOCOL_VERSION) ∧
    let served := handle_parsed_request node (λ _, Ok tt) true (ns_features n) auth
      {| ps_request := hello_envelope v; ps_typed_push := None |} (ns_world n) in
    sd_written served = [hello_envelope v'] ∧ sd_world served = ns_world n ∧
    sd_features served = (λ _, false) <$> ns_features n.
Proof.
  intros Hv. destruct (hello_response_trip (hello_response node auth PROTOCOL_VERSION)) as (v' & Hv' & Hb).
  exists v'. split; [done|]. split; [done|]. unfold handle_parsed_request.
  cbn [ps_request pe_message_type hello_envelope]. rewrite peer_allowed by by left.
  rewrite decide_True by done. unfold handle_single. cbn [pe_message_type hello_envelope].
  unfold handle_hello, payload_validated, payload_take. simpl. rewrite Hv. simpl.
  unfold respond, response_envelope. simpl. rewrite Hv'. split_and!; [done|done|]. simpl.
  destruct (ns_features n); [|done]. simpl. unfold record_hello_request, payload_take. simpl. by rewrite Hv.
Qed.

Lemma hello_negotiated :
  negotiate_hello (node_peer auth fresh1 fresh2) version_error (ci_hello ids) (ci_correlation ids) n
  = (after_hello, Ok tt).
Proof.
  destruct (fi_ids Hfits) as (? & ? & ?).
  destruct (hello_request_trip hello_request) as (v & Hv & Hback).
  destruct (hello_served v Hback) as (v' & Hv' & Hb & Hw & Hworld & Hfeatures).
  assert (node_serves auth (ns_features n) fresh1 fresh2 (envelope_bytes (hello_envelope v)) (ns_world n) =
    handle_parsed_request node (λ _, Ok tt) true (ns_features n) auth
      {| ps_request := hello_envelope v; ps_typed_push := None |} (ns_world n)) as Hserved
    by (apply request_read; [by apply (fi_hello Hfits)|done..]).
  unfold negotiate_hello, request_envelope, mbind, talk_bind, known_here. fold hello_request. rewrite Hv.
  cbn [map_err mbind result_bind]. fold (hello_envelope v).
  rewrite (response_read _ _ _ _ (hello_envelope v')); [|by rewrite Hserved|by apply (fi_hello_answer Hfits)].
  unfold after_stream. rewrite Hserved, Hworld, Hfeatures. f_equal.
  unfold response_payload. cbn [pe_error hello_envelope pe_payload]. rewrite Hb. simpl.
  destruct (sv_versions Hserves) as (range & version & Hr & Hver & Hm).
  unfold validate at 1, HelloNegotiateResponse_validate. simpl. rewrite announcement_none.
  unfold ensure_non_empty. rewrite (sv_version_text Hserves). simpl.
  unfold RemoteRpc.ensure_server_protocol_version_supported. simpl. rewrite Hr, Hver. simpl. rewrite Hm. simpl.
  rewrite announcement_none. simpl.
  unfold hello_features_for_auth_context. pose proof (sv_role Hserves). by destruct (sa_role auth).
Qed.

(** What one call leaves of the node. *)
Definition after_call : NodeSession :=
  {| ns_world := {| hw_keys := hw_keys (ns_world n);
                    hw_state := (be_invoke target_service interface_id function args_cbor
                                   (hw_state (ns_world n))).1 |};
     ns_features := (λ _, false) <$> ns_features n; ns_received := [] |}.

Lemma invoke_served features v :
  from_rpc v = Ok invoke_request →
  ∃ v', to_value (RespRpc answer_message) = Ok v' ∧ rpc_response_from_value v' = Ok answer_message ∧
    let served := handle_parsed_request node (λ _, Ok tt) true features auth
      {| ps_request := invoke_envelope v; ps_typed_push := None |} (ns_world n) in
    sd_written served = [invoke_envelope v'] ∧ sd_world served = ns_world after_call ∧
    sd_features served = features.
Proof.
  intros Hv. destruct (rpc_response_trip answer_message) as (v' & Hv' & Hb).
  exists v'. split; [done|]. split; [done|]. unfold handle_parsed_request. simpl.
  rewrite peer_allowed by by right.
  assert (handle_single node (invoke_envelope v) auth (ns_world n) =
    (ns_world after_call, Ok (invoke_envelope v'))) as ->; [|done].
  unfold handle_single. simpl. unfold handle_rpc_invoke, payload_validated, payload_take. simpl. rewrite Hv.
  cbn [map_err mbind result_bind]. rewrite (sv_request Hserves). simpl.
  unfold answer_message, orchestrator_answer in *.
  destruct (be_invoke target_service interface_id function args_cbor (hw_state (ns_world n))) as [s1 r1]. simpl in *.
  unfold respond, response_envelope. simpl. by rewrite Hv'.
Qed.

Lemma answer_valid : validate answer_message = Ok tt.
Proof.
  unfold answer_message. pose proof (sv_errors Hserves) as He. destruct orchestrator_answer as [bs|e]; [done|].
  destruct (He e eq_refl) as [H1 H2]. unfold validate, RpcInvokeResponse_validate. simpl.
  unfold validate, RpcInvokeError_validate. simpl. unfold ensure_non_empty. by rewrite H1, H2.
Qed.

Lemma call_answered :
  call_over_session (node_peer auth fresh1 fresh2) version_error ids target_service interface_id function
    args_cbor n =
  (after_call, map_err (λ e, new_error (err_code e) (err_stage e) (err_message e)) orchestrator_answer).
Proof.
  destruct (fi_ids Hfits) as (? & ? & ?).
  destruct (rpc_request_trip invoke_request) as (v & Hv & Hback).
  destruct (invoke_served ((λ _, false) <$> ns_features n) v Hback) as (v' & Hv' & Hb & Hw & Hworld & Hfeatures).
  assert (node_serves auth (ns_features after_hello) fresh1 fresh2 (envelope_bytes (invoke_envelope v))
      (ns_world after_hello) =
    handle_parsed_request node (λ _, Ok tt) true ((λ _, false) <$> ns_features n) auth
      {| ps_request := invoke_envelope v; ps_typed_push := None |} (ns_world n)) as Hserved
    by (apply request_read; [by apply (fi_invoke Hfits)|done..]).
  unfold call_over_session, mbind, talk_bind, known_here. rewrite hello_negotiated.
  unfold request_envelope. fold invoke_request. rewrite Hv. cbn [map_err mbind result_bind].
  fold (invoke_envelope v).
  rewrite (response_read _ _ _ _ (invoke_envelope v')); [|by rewrite Hserved|by apply (fi_answer Hfits)].
  unfold after_stream. rewrite Hserved, Hworld, Hfeatures. f_equal.
  unfold response_payload. cbn [pe_error invoke_envelope pe_payload]. rewrite Hb. simpl. rewrite answer_valid. simpl.
  rewrite answer_valid. simpl. unfold answer_message. by destruct orchestrator_answer.
Qed.

(** C11 (functional). A call to another node opens a session first; when that fails, the error is
    returned and the other node was asked nothing.  Over an established session it
    answers exactly what that node's orchestrator answered to the service, interface, function
    and arguments of the call: its result, or its error with the same code, stage and message.
    The orchestrator is asked exactly once, and but for that call nothing of the other node
    changes. *)
Theorem remote_call_exact `{TomlCrate} io nw unique path authority t t' r :
  connect_remote_session io nw unique path authority t = (t', r) →
  invoke_remote_authority (node_peer auth fresh1 fresh2) io nw unique version_error ids path authority
    target_service interface_id function args_cbor t n =
  match r with
  | Err e => (t', n, Err e)
  | Ok _ =>
    (t', after_call,
     map_err (λ e, new_error (err_code e) (err_stage e) (err_message e)) orchestrator_answer)
  end.
Proof.
  intros E. unfold invoke_remote_authority. rewrite E. destruct r as [u|e]; [|done]. by rewrite call_answered.
Qed.

End two_nodes.
