(* ===== verification/RemoteDemo.v ===== *)
(** * Calls between two nodes at work

    Concrete crates that satisfy the laws of [RemoteRpc], and the theorems of
    [RemoteTheorems] applied to them. *)

From stdpp Require Import countable.
From S2P Require Import Prelude Protocol Text IpAddr Ipc Frames Files ArtifactStore Supervisor ManagerControl Paths Tree TreeFacts Manifest Launch Orchestrator Deploy Session Runner ArtifactResume Client Config ConfigTheorems ConfigDemo RemoteRpc RemoteTheorems.

Open Scope string_scope.
Open Scope Z_scope.

#[local] Existing Instance demo_toml.
#[local] Existing Instance demo_toml_laws.

(** ** Trust on first use *)

#[local] Instance demo_net : NetCrates := {
  url_parse s := Ok {| url_scheme := "rpc"; url_username := ""; url_password := None;
                       url_host := Some (HostDomain "Node"); url_port := None; url_path := "";
                       url_query := None; url_fragment := None |};
  hex_encode := encode_hex;
  PrivateKey := unit;
  private_key_from_pem r := (λ _, tt) <$> r;
  SigningKey := unit;
  load_signing_key k := Ok k;
  signs_ed25519 _ := true;
  signing_public_key _ := Some (ED25519_SPKI_PREFIX ++ replicate 32 "009"%char)%list;
}.

#[local] Instance demo_net_laws : NetLaws.
Proof. by split. Qed.

Definition node_tree : tree := <[["etc"; "imago"; "server.key"] := File (bytes_of "pem")]> demo_tree.

Lemma node_holds : holds demo_build demo_path demo_config node_tree.
Proof. eapply holds_same; [|exact demo_holds]. by apply lookup_insert_ne. Qed.

Definition demo_authority : RemoteAuthority :=
  {| ra_key := "rpc://node:4443"; ra_host := "node"; ra_host_for_url := "node"; ra_port := 4443 |}.

(** A server that owns a key. *)
Definition server (k : list byte) : Network :=
  {| nw_tls_setup := None; nw_quic_setup := None; nw_bind6 := None; nw_bind4 := None;
     nw_lookup := Ok ["192.0.2.1:4443"]; nw_connect := None;
     nw_handshake := Ok (Some (ED25519_SPKI_PREFIX ++ k)%list); nw_webtransport := None |}.
Definition key1 : list byte := replicate 32 "001"%char.
Definition key2 : list byte := replicate 32 "002"%char.

Lemma server_reachable k : length k = 32%nat → reachable_server (server k) demo_authority k.
Proof.
  intros Hk. split; [done|by eexists _, _| |by eexists].
  exists (ED25519_SPKI_PREFIX ++ k)%list. split; [reflexivity|].
  unfold extract_ed25519_raw_public_key_from_spki.
  rewrite !bool_decide_true by (reflexivity || rewrite length_app, Hk; reflexivity). reflexivity.
Qed.

(** A tree like [node_tree] for everything but the configuration. *)
Lemma still_signs c t :
  tls_server_key (ic_tls c) = "/etc/imago/server.key" →
  t !! ["etc"; "imago"; "server.key"] = Some (File (bytes_of "pem")) → can_sign demo_path calm_io c t.
Proof.
  intros Hk Ht. exists tt. eexists. rewrite Hk. split; [|by vm_compute].
  unfold load_private_key. change (key _) with ["etc"; "imago"; "server.key"]. by rewrite Ht.
Qed.

Lemma node_way : open_way ["etc"; "imago"] node_tree.
Proof.
  intros d content Hd. unfold node_tree. rewrite lookup_insert_ne; [by apply demo_way|].
  intros <-. by destruct Hd as [l Hl].
Qed.

Lemma node_temp unique : node_tree !! key (temp_path demo_path unique) ≠ Some Directory.
Proof.
  unfold node_tree. rewrite lookup_insert_ne; [apply demo_temp|]. rewrite temp_key.
  change (key (config_parent_dir demo_path)) with ["etc"; "imago"]. intros [= E].
Qed.

(** The first connection pins the first key. *)
Lemma first_connection unique k : length k = 32%nat →
  ∃ t1, connect_remote_session calm_io (server k) unique demo_path demo_authority node_tree = (t1, Ok tt) ∧
    holds demo_build demo_path (pinned false "rpc://node:4443" (encode_hex k) demo_config) t1 ∧
    t1 !! ["etc"; "imago"; "server.key"] = Some (File (bytes_of "pem")) ∧
    open_way ["etc"; "imago"] t1 ∧
    ∀ u, key (temp_path demo_path u) ≠ key (temp_path demo_path unique) →
      t1 !! key (temp_path demo_path u) ≠ Some Directory.
Proof.
  intros Hk.
  destruct (connect_fresh (b := demo_build) demo_path "imagod.toml" eq_refl calm_io (server k) unique demo_authority k
    demo_config node_tree) as (t1 & E & Hh & Hch); [exact calm_is_calm|exact node_holds|by apply still_signs
    |by apply server_reachable|done|by vm_compute|done|exact node_way|apply node_temp|].
  exists t1. split_and!; [exact E|exact Hh| | |].
  - destruct (Hch ["etc"; "imago"; "server.key"]) as [[Hx|Hx]|[->|(Hx & _)]]; [done| |done|].
    + rewrite temp_key in Hx. change (key (config_parent_dir demo_path)) with ["etc"; "imago"] in Hx. by injection Hx.
    + by destruct Hx as [l Hl].
  - eapply open_way_kept; [exact node_way|exact Hch|]. intros x [->| ->] [l Hl]; [done|].
    rewrite temp_key in Hl. done.
  - intros u Hu. by eapply way_after; [|exact Hch|exact Hu|exact node_way|apply node_temp].
Qed.

(** The real server, an impostor, the real server again. *)
Definition demo_ops : list TrustOp :=
  [TConnect calm_io (server key1) 5 demo_authority; TConnect calm_io (server key2) 6 demo_authority;
   TConnect calm_io (server key1) 8 demo_authority].

Lemma demo_accepted :
  (trust_run demo_path demo_ops node_tree).2 = [("rpc://node:4443", Some key1); ("rpc://node:4443", Some key1)].
Proof.
  destruct (first_connection 5 key1 eq_refl) as (t1 & E1 & Hh & Hs & _ & _).
  assert (∀ k u, length k = 32%nat → ∃ r,
    connect_remote_session calm_io (server k) u demo_path demo_authority t1 = (t1, r) ∧
    (r = Ok tt ↔ parse_ed25519_raw_public_key_hex (encode_hex key1) = Ok k)) as Hc.
  { intros k u Hk. eapply (connect_pinned (b := demo_build) demo_path); [exact Hh|done|by apply still_signs
      |by apply server_reachable|reflexivity]. }
  destruct (Hc key2 6 eq_refl) as (r2 & E2 & Hr2). destruct (Hc key1 8 eq_refl) as (r3 & E3 & Hr3).
  unfold demo_ops. cbn [trust_run trust_step]. rewrite E1, E2, E3.
  rewrite parse_encode_hex in Hr2, Hr3 by done.
  destruct r2 as [[]|e2]; [by apply proj1 in Hr2; specialize (Hr2 eq_refl)|].
  destruct r3 as [[]|e3]; [done|by apply proj2 in Hr3; specialize (Hr3 eq_refl)].
Qed.

Lemma one_key_per_authority_witness :
  let run := trust_run demo_path demo_ops node_tree in
  run.2 = [("rpc://node:4443", Some key1); ("rpc://node:4443", Some key1)] ∧
  ∃ c' h, holds demo_build demo_path c' run.1 ∧
    tls_known_public_keys (ic_tls c') !! "rpc://node:4443" = Some h ∧
    parse_ed25519_raw_public_key_hex h = Ok key1.
Proof.
  split; [exact demo_accepted|].
  destruct (one_key_per_authority (b := demo_build) demo_path "imagod.toml" eq_refl demo_ops "rpc://node:4443"
              demo_config node_tree (trust_run demo_path demo_ops node_tree).1
              (trust_run demo_path demo_ops node_tree).2) as (c' & Hh & Ha).
  - exact node_holds.
  - repeat constructor; by vm_compute.
  - apply surjective_pairing.
  - destruct (Ha (Some key1)) as (h & k & Hk & Hh' & Hp & _); [rewrite demo_accepted; left|].
    exists c', h. split; [exact Hh|]. split; [exact Hh'|]. injection Hk as ->. exact Hp.
Defined.

(** Two first connections that overlap, to servers with different keys. *)
Lemma overlapping_first_connections_witness : ∃ v t1 t2 c2,
  prepare_session calm_io demo_path demo_authority node_tree = (node_tree, Ok v) ∧
  connect_remote_session calm_io (server key1) 5 demo_path demo_authority node_tree = (t1, Ok tt) ∧
  establish_session calm_io (server key2) 6 demo_path demo_authority v t1 = (t2, Ok tt) ∧
  holds demo_build demo_path c2 t2 ∧
  tls_known_public_keys (ic_tls c2) !! "rpc://node:4443" = Some (encode_hex key2).
Proof.
  destruct (overlapping_first_connections (b := demo_build) demo_path "imagod.toml" eq_refl calm_io calm_io
              (server key1) (server key2) 5 6 demo_authority key1 key2 demo_config node_tree)
    as (v & t1 & t2 & Ep & E1 & E2 & c1 & c2 & _ & _ & Hh & Hk).
  - exact calm_is_calm.
  - exact calm_is_calm.
  - exact node_holds.
  - by apply still_signs.
  - by apply still_signs.
  - by apply server_reachable.
  - by apply server_reachable.
  - reflexivity.
  - by vm_compute.
  - discriminate.
  - exact node_way.
  - apply node_temp.
  - apply node_temp.
  - by rewrite !temp_key.
  - exists v, t1, t2, c2. split; [exact Ep|]. split; [exact E1|]. split; [exact E2|]. split; [exact Hh|exact Hk].
Defined.

(** ** A call *)

(** Messages and envelopes as codes. *)

#[local] Instance HelloNegotiateRequest_eq_dec : EqDecision HelloNegotiateRequest.
Proof. solve_decision. Defined.
#[local] Instance RpcInvokeTargetService_eq_dec : EqDecision RpcInvokeTargetService.
Proof. solve_decision. Defined.
#[local] Instance RpcInvokeRequest_eq_dec : EqDecision RpcInvokeRequest.
Proof. solve_decision. Defined.
#[local] Instance HelloNegotiateResponse_eq_dec : EqDecision HelloNegotiateResponse.
Proof. solve_decision. Defined.
#[local] Instance RpcInvokeError_eq_dec : EqDecision RpcInvokeError.
Proof. solve_decision. Defined.
#[local] Instance RpcInvokeResponse_eq_dec : EqDecision RpcInvokeResponse.
Proof. solve_decision. Defined.
#[local] Instance StructuredError_eq_dec : EqDecision StructuredError.
Proof. solve_decision. Defined.

Definition all_codes : list ErrorCode :=
  [Unauthorized; BadRequest; BadManifest; Busy; NotFound; Internal; IdempotencyConflict; RangeInvalid;
   ChunkHashMismatch; ArtifactIncomplete; PreconditionFailed; OperationTimeout; RollbackFailed; StorageQuota].
Definition all_types : list MessageType :=
  [MtHelloNegotiate; MtDeployPrepare; MtArtifactPush; MtArtifactCommit; MtCommandStart; MtCommandEvent;
   MtStateRequest; MtStateResponse; MtServicesList; MtCommandCancel; MtLogsRequest; MtLogsChunk; MtLogsEnd;
   MtRpcInvoke; MtBindingsCertInspect; MtBindingsCertUpload].

Definition position {A} `{EqDecision A} (l : list A) (x : A) : nat :=
  default 0%nat (fst <$> list_find (eq x) l).

#[local] Program Instance ErrorCode_countable : Countable ErrorCode :=
  inj_countable (position all_codes) (λ n, all_codes !! n) _.
Next Obligation. by intros []. Qed.
#[local] Program Instance MessageType_countable : Countable MessageType :=
  inj_countable (position all_types) (λ n, all_types !! n) _.
Next Obligation. by intros []. Qed.

#[local] Program Instance HelloNegotiateRequest_countable : Countable HelloNegotiateRequest :=
  inj_countable' (λ q, (hq_client_version q, hq_required_features q)) (λ '(a, b), Build_HelloNegotiateRequest a b) _.
Next Obligation. by intros []. Qed.
#[local] Program Instance RpcInvokeRequest_countable : Countable RpcInvokeRequest :=
  inj_countable' (λ q, (rq_interface_id q, rq_function q, (rq_args_cbor q, Protocol.rt_name (rq_target_service q))))
    (λ '(a, b, (c, d)), Build_RpcInvokeRequest a b c (Build_RpcInvokeTargetService d)) _.
Next Obligation. by intros [? ? ? []]. Qed.
Definition hello_fields (r : HelloNegotiateResponse) :=
  ((hr_accepted r, hr_server_version r),
   (hr_server_protocol_version r, hr_supported_protocol_version_range r),
   ((hr_compatibility_announcement r, hr_features r), hr_limits r)).
Definition hello_of (t : (bool * string) * (string * string) * ((option string * list string) * gmap string string))
    : HelloNegotiateResponse :=
  let '((a, b), (c, d), ((e, f), g)) := t in Build_HelloNegotiateResponse a b c d e f g.
#[local] Program Instance HelloNegotiateResponse_countable : Countable HelloNegotiateResponse :=
  inj_countable' hello_fields hello_of _.
Next Obligation. by intros []. Qed.

Definition rpc_fields (r : RpcInvokeResponse) :=
  (rr_result_cbor r, (λ e, (re_code e, re_stage e, re_message e)) <$> rr_error r).
Definition rpc_of (t : option (list byte) * option (ErrorCode * string * string)) : RpcInvokeResponse :=
  let '(a, e) := t in
  {| rr_result_cbor := a; rr_error := (λ '(c, s, m), Build_RpcInvokeError c s m) <$> e |}.
#[local] Program Instance RpcInvokeResponse_countable : Countable RpcInvokeResponse :=
  inj_countable' rpc_fields rpc_of _.
Next Obligation. by intros [? [[]|]]. Qed.

Definition error_fields (e : StructuredError) :=
  ((se_code e, se_message e), (se_retryable e, se_stage e), se_details e).
Definition error_of (t : (ErrorCode * string) * (bool * string) * gmap string string) : StructuredError :=
  let '((a, b), (c, d), e) := t in Build_StructuredError a b c d e.
#[local] Program Instance StructuredError_countable : Countable StructuredError :=
  inj_countable' error_fields error_of _.
Next Obligation. by intros []. Qed.

Abbreviation message := (HelloNegotiateRequest + RpcInvokeRequest + (HelloNegotiateResponse + RpcInvokeResponse) + unit)%type.
Abbreviation coded := (MessageType * (Uuid * Uuid) * (message * option StructuredError))%type.

Definition code_of (e : ProtocolEnvelope message) : coded :=
  (pe_message_type e, (pe_request_id e, pe_correlation_id e), (pe_payload e, pe_error e)).
Definition envelope_of (c : coded) : ProtocolEnvelope message :=
  let '(t, (r, i), (p, e)) := c in
  {| pe_message_type := t; pe_request_id := r; pe_correlation_id := i; pe_payload := p; pe_error := e |}.

#[local] Instance call_semver : Semver := {|
  Version := unit; VersionReq := unit; version_parse _ := Some tt; version_req_parse _ := Ok tt;
  version_matches _ _ := true;
|}.

Definition refuse {A} : call nat A := λ n, (n, Err (bad_request "x" "x")).

(** A node whose orchestrator counts the calls and answers with the arguments. *)
#[local] Instance call_backend : Backend nat := {|
  be_prepare _ := refuse; be_push _ := refuse; be_commit _ := refuse; be_snapshot_running _ := refuse;
  be_list_service_states _ := refuse; be_request_cancel _ := refuse;
  be_invoke _ _ _ args n := (S n, Ok args);
  be_load_server_public_key_hex := refuse; be_upsert_tls_known_client_key _ _ := refuse;
|}.

Definition call_ids : CallIds := {| ci_correlation := 1%N; ci_hello := 2%N; ci_invoke := 3%N |}.
Definition call_auth : SessionAuthContext := {| sa_role := Session.Client; sa_public_key_hex := encode_hex key1 |}.
Definition call_node : HandlerConfig := handler_config demo_config.
Definition call_world : HandlerWorld nat := {| hw_keys := {[key1]}; hw_state := 0%nat |}.
Definition call_args : list byte := bytes_of "abc".
(** The four messages of the call have short codes. *)
Definition call_messages : list (ProtocolEnvelope message) :=
  [hello_envelope call_ids (inl (inl (inl hello_request)));
   hello_envelope call_ids (inl (inr (inl (hello_response call_node call_auth PROTOCOL_VERSION))));
   invoke_envelope call_ids (inl (inl (inr (invoke_request "web" "a:b/c" "f" call_args))));
   invoke_envelope call_ids (inl (inr (inr (rpc_from_result call_args))))].

#[local] Instance envelope_eq_dec : EqDecision (ProtocolEnvelope message).
Proof. solve_decision. Defined.

Definition write_envelope (e : ProtocolEnvelope message) : list byte :=
  match list_find (eq e) call_messages with
  | Some (i, _) => "k"%char :: bytes_of (bits (encode i))
  | None => "e"%char :: bytes_of (bits (encode (code_of e)))
  end.
Definition read_envelope (bs : list byte) : option (ProtocolEnvelope message) :=
  match bs with
  | "k"%char :: rest =>
    p ← unbits (string_of_bytes rest);
    i ← decode (A := nat) p;
    call_messages !! i
  | "e"%char :: rest =>
    p ← unbits (string_of_bytes rest);
    c ← decode (A := coded) p;
    Some (envelope_of c)
  | _ => None
  end.

Lemma read_write_envelope e : read_envelope (write_envelope e) = Some e.
Proof.
  unfold write_envelope. destruct (list_find (eq e) call_messages) as [[i x]|] eqn:E; unfold read_envelope;
    rewrite string_of_bytes_of, unbits_bits; (apply bind_Some; eexists; split; [done|]);
    (apply bind_Some; eexists; split; [apply countable.decode_encode|]).
  - by apply list_find_Some in E as (Hi & -> & _).
  - by destruct e.
Qed.

Lemma short_message e : e ∈ call_messages → zlen (write_envelope e) <= 64.
Proof.
  intros He. unfold write_envelope. destruct (list_find (eq e) call_messages) as [[i x]|] eqn:E.
  - apply list_find_Some in E as (Hi%lookup_lt_Some & _). simpl in Hi.
    do 4 (destruct i as [|i]; [by vm_compute|]). lia.
  - exfalso. apply list_find_None in E. rewrite Forall_forall in E. by apply (E e).
Qed.

Definition no_message {T} (_ : message) : result string T := Err "invalid type".

#[local] Instance message_serde : Serde message := {
  value_null := inr tt;
  from_hello v := match v with inl (inl (inl q)) => Ok q | _ => Err "invalid type" end;
  from_prepare := no_message; from_push := no_message; from_commit := no_message;
  from_state := no_message; from_services := no_message; from_cancel := no_message;
  from_rpc v := match v with inl (inl (inr q)) => Ok q | _ => Err "invalid type" end;
  from_cert_inspect := no_message; from_cert_upload := no_message;
  to_value r := match r with
                | RespHello h => Ok (inl (inr (inl h)))
                | RespRpc r => Ok (inl (inr (inr r)))
                | _ => Err "unsupported"
                end;
  header_from_cbor bs := match read_envelope bs with
                         | Some e => Ok (pe_message_type e, pe_request_id e, pe_correlation_id e)
                         | None => Err "invalid"
                         end;
  push_from_cbor _ := Err "invalid";
  envelope_from_cbor bs := match read_envelope bs with Some e => Ok e | None => Err "invalid" end;
}.

#[local] Instance message_rpc : RpcSerde message := {
  hello_request_to_value q := Ok (inl (inl (inl q)));
  rpc_request_to_value q := Ok (inl (inl (inr q)));
  hello_response_from_value v := match v with inl (inr (inl h)) => Ok h | _ => Err "invalid type" end;
  rpc_response_from_value v := match v with inl (inr (inr r)) => Ok r | _ => Err "invalid type" end;
  envelope_to_cbor e := Ok (write_envelope e);
}.

#[local] Instance message_rpc_laws : RpcSerdeLaws message.
Proof.
  split; try (intros; by eexists).
  intros e. eexists. split; [done|]. unfold envelope_from_cbor, header_from_cbor, message_serde.
  by rewrite read_write_envelope.
Qed.

#[local] Instance call_streaming : Streaming nat message := {|
  st_command_start _ n := (n, [], Ok tt);
  st_logs_request _ _ _ n := (n, [], Ok tt);
|}.

Definition call_session : NodeSession (S := nat) :=
  {| ns_world := call_world; ns_features := None; ns_received := [] |}.

Lemma call_fits : fits call_node call_ids call_auth call_session "web" "a:b/c" "f" call_args.
Proof.
  assert (∀ e, e ∈ call_messages → zlen (envelope_bytes e) <= 68) as Hs.
  { intros e He%short_message. rewrite (envelope_bytes_length e (write_envelope e)) by done. lia. }
  assert (68 <= MAX_STREAM_BYTES ∧ 68 <= MAX_RESPONSE_BYTES) as [? ?] by done.
  split; [done|..]; intros v [= <-]; (etransitivity; [apply Hs|done]); unfold call_messages; set_solver.
Qed.

Lemma call_serves : serves call_node call_auth call_session "web" "a:b/c" "f" call_args.
Proof. split; [by exists tt, tt|done|by vm_compute|by vm_compute|done]. Qed.

Lemma remote_call_exact_witness :
  ∃ t1, invoke_remote_authority (node_peer call_node call_auth 4%N 5%N) calm_io (server key2) 5 (λ s, s)
    call_ids demo_path demo_authority "web" "a:b/c" "f" call_args node_tree call_session =
  (t1, {| ns_world := {| hw_keys := {[key1]}; hw_state := 1%nat |}; ns_features := None; ns_received := [] |},
   Ok call_args).
Proof.
  destruct (first_connection 5 key2 eq_refl) as (t1 & E & _). exists t1.
  exact (remote_call_exact call_node call_ids call_auth 4%N 5%N call_session (λ s, s) "web" "a:b/c" "f"
           call_args call_fits call_serves calm_io (server key2) 5 demo_path demo_authority node_tree t1 _ E).
Defined.
