(* ===== verification/BuildConfig.v ===== *)
(** * What the client builds from [imago.toml]

    The sections of a project file that become fields of the manifest, in the order of the
    build ([imago-cli/src/commands/build]): names and types ([validation.rs]), paths, HTTP and
    socket sections ([config_parse/validation.rs]), capabilities ([config_parse/capabilities.rs]),
    assets and resources ([config_parse/resources.rs]), the check of the capabilities against the
    imports of the project ([mod.rs]), and the content-addressed component
    ([manifest_hash.rs]).

    An error of the client is the text of its cause with the contexts before it.  What toml and
    serde_json make of floats and dates is the class [BuildJson].  Which interfaces the world of
    the project imports is the work of the crate wit-parser, so the check takes them as an
    argument. *)

From S2P Require Import Prelude Protocol Text IpAddr Ipc Paths Tree Manifest Orchestrator Config.

Open Scope string_scope.
Open Scope Z_scope.

Abbreviation bresult := (result string).

(** [result.with_context(..)]. *)
Definition with_context {A} (context : string) (r : bresult A) : bresult A :=
  map_err (λ e, context +:+ ": " +:+ e) r.

Definition as_integer (v : Toml) : option Z := match v with TInteger i => Some i | _ => None end.

(** [T::try_from] of a TOML integer for an unsigned type. *)
Definition try_from_i64 (max i : Z) : option Z := if (0 <=? i) && (i <=? max) then Some i else None.

(** A loop over [values.iter().enumerate()] that collects. *)
Fixpoint collect_indexed {A B} (f : Z → A → bresult B) (index : Z) (values : list A)
    : bresult (list B) :=
  match values with
  | [] => Ok []
  | v :: rest => x ← f index v; xs ← collect_indexed f (index + 1) rest; Ok (x :: xs)
  end.

Definition indexed (field_name : string) (index : Z) : string :=
  field_name +:+ "[" +:+ to_string index +:+ "]".

(** ** Names and types ([validation.rs]) *)

Definition is_name_char (c : ascii) : bool :=
  is_ascii_alphanumeric c || bool_decide (c = "."%char) || bool_decide (c = "_"%char)
  || bool_decide (c = "-"%char).

Definition validate_service_name (name : string) : bresult unit :=
  _ ← ensure (negb (bool_decide (name = ""))) "name must not be empty";
  _ ← ensure (bool_decide (String.length name ≤ 63)%nat) "name must be 63 characters or fewer";
  _ ← ensure (negb (str_contains "/" name || str_contains "\" name || str_contains ".." name))
        ("name contains invalid path characters: " +:+ name);
  ensure (all_chars is_name_char name) ("name contains unsupported characters: " +:+ name).

Definition validate_app_type (app_type : string) : bresult unit :=
  ensure (bool_decide (app_type ∈ ["cli"; "http"; "socket"; "rpc"]))
    ("type must be one of: cli, http, socket, rpc (got: " +:+ app_type +:+ ")").

Definition is_bad_segment (segment : string) : bool :=
  bool_decide (segment = "") || bool_decide (segment = ".") || bool_decide (segment = "..").

Definition is_normal (c : Component) : bool := match c with Normal _ => true | _ => false end.

Definition validate_dependency_package_name (name : string) : bresult unit :=
  _ ← ensure (negb (bool_decide (name = ""))) "must not be empty";
  _ ← ensure (negb (str_contains "\" name || str_contains ".." name))
        ("contains invalid path characters: " +:+ name);
  _ ← ensure (all_chars (λ c, is_name_char c || bool_decide (c = ":"%char)
                                || bool_decide (c = "/"%char)) name)
        ("contains unsupported characters: " +:+ name);
  _ ← ensure (negb (existsb is_bad_segment (split "/"%char name)))
        ("contains invalid path components: " +:+ name);
  ensure (forallb is_normal (components name)) ("contains invalid path components: " +:+ name).

Definition required_string (root : table) (key : string) : bresult string :=
  value ← ok_or (root !! key) ("imago.toml missing required key: " +:+ key);
  text ← ok_or (as_str value) ("imago.toml key '" +:+ key +:+ "' must be a string");
  let text := trim text in
  _ ← ensure (negb (bool_decide (text = ""))) ("imago.toml key '" +:+ key +:+ "' must not be empty");
  Ok text.

(** ** Restart policy and build command ([mod.rs]) *)

Definition is_supported_restart_policy (value : string) : bool :=
  bool_decide (value ∈ ["never"; "on-failure"; "always"; "unless-stopped"]).

Definition parse_restart_policy (root : table) : bresult string :=
  match root !! "restart" with
  | None => Ok "never"
  | Some raw =>
    text ← ok_or (as_str raw) "imago.toml key 'restart' must be a string";
    let value := trim text in
    _ ← ensure (is_supported_restart_policy value)
          ("imago.toml key 'restart' must be one of: never, on-failure, always, unless-stopped (got: "
           +:+ value +:+ ")");
    Ok value
  end.

Inductive BuildCommand := Shell (command : string) | Argv (argv : list string).

Definition parse_build_command (root : table) : bresult (option BuildCommand) :=
  match root !! "build" with
  | None => Ok None
  | Some build_section =>
    build_table ← ok_or (as_table build_section) "build must be a table";
    match build_table !! "command" with
    | None => Ok None
    | Some command_value =>
      match as_str command_value with
      | Some shell =>
        _ ← ensure (negb (is_blank shell)) "build.command must not be empty";
        Ok (Some (Shell shell))
      | None =>
        values ← ok_or (as_array command_value) "build.command must be string or array of strings";
        _ ← ensure (negb (bool_decide (length values = 0%nat))) "build.command array must not be empty";
        argv ← collect_indexed (λ index value, ok_or (as_str value)
                 ("build.command array must contain only strings (invalid index " +:+ to_string index
                  +:+ ")")) 0 values;
        Ok (Some (Argv argv))
      end
    end
  end.

Definition parse_build_wit_world (root : table) : bresult (option string) :=
  match root !! "build" ≫= as_table with
  | None => Ok None
  | Some build_table =>
    match build_table !! "wit_world" with
    | None => Ok None
    | Some wit_world =>
      value ← ok_or (as_str wit_world) "build.wit_world must be a string";
      Ok (Some (trim value))
    end
  end.

(** ** Paths ([config_parse/validation.rs]) *)

Fixpoint normalize_components_with_policy (allow_parent_dirs : bool) (traversal : string)
    (normalized : string) (cs : list Component) : bresult string :=
  match cs with
  | [] => Ok normalized
  | CurDir :: rest => normalize_components_with_policy allow_parent_dirs traversal normalized rest
  | Normal segment :: rest =>
    normalize_components_with_policy allow_parent_dirs traversal (path_join normalized segment) rest
  | ParentDir :: rest =>
    if allow_parent_dirs
    then normalize_components_with_policy allow_parent_dirs traversal (path_join normalized "..") rest
    else Err traversal
  | RootDir :: _ => Err traversal
  end.

Definition normalize_relative_path_with_policy (raw field_name : string) (allow_parent_dirs : bool)
    : bresult string :=
  _ ← ensure (negb (bool_decide (raw = ""))) (field_name +:+ " must not be empty");
  _ ← ensure (negb (is_absolute raw)) (field_name +:+ " must be a relative path: " +:+ raw);
  _ ← ensure (negb (str_contains "\" raw)) (field_name +:+ " must not contain backslashes: " +:+ raw);
  _ ← ensure (negb (windows_prefixed raw)) (field_name +:+ " must not be windows-prefixed: " +:+ raw);
  normalized ← normalize_components_with_policy allow_parent_dirs
    (field_name +:+ " must not contain path traversal: " +:+ raw) "" (components raw);
  _ ← ensure (negb (bool_decide (normalized = ""))) (field_name +:+ " is invalid: " +:+ raw);
  Ok normalized.

Definition normalize_relative_path (raw field_name : string) : bresult string :=
  normalize_relative_path_with_policy raw field_name false.
Definition normalize_source_main_path (raw field_name : string) : bresult string :=
  normalize_relative_path_with_policy raw field_name true.

Definition normalized_path_to_string (path : string) : string :=
  join_slash (component_text <$> components path).

Fixpoint guest_path_segments (traversal : string) (cs : list Component) : bresult (list string) :=
  match cs with
  | [] => Ok []
  | RootDir :: rest => guest_path_segments traversal rest
  | Normal segment :: rest => segments ← guest_path_segments traversal rest; Ok (segment :: segments)
  | (ParentDir | CurDir) :: _ => Err traversal
  end.

Definition normalize_wasi_guest_path (raw field_name : string) : bresult string :=
  let path := trim raw in
  _ ← ensure (negb (bool_decide (path = ""))) (field_name +:+ " must not be empty");
  _ ← ensure (negb (str_contains "\" raw)) (field_name +:+ " must not contain backslashes: " +:+ path);
  _ ← ensure (is_absolute path) (field_name +:+ " must be an absolute path: " +:+ path);
  _ ← ensure (negb (windows_prefixed path)) (field_name +:+ " must not be windows-prefixed: " +:+ path);
  segments ← guest_path_segments (field_name +:+ " must not contain path traversal: " +:+ path)
               (components path);
  Ok (match segments with [] => "/" | _ => "/" +:+ join_slash segments end).

(** ** HTTP and sockets ([config_parse/validation.rs]) *)

Definition DEFAULT_HTTP_LISTEN_ADDR : string := "127.0.0.1".

Definition parse_listen_addr (field_name text : string) : bresult string :=
  let listen_addr := trim text in
  _ ← ensure (negb (bool_decide (listen_addr = "")))
        (field_name +:+ " must be a valid IP address (got empty value)");
  _ ← ok_or (parse_ip listen_addr) (field_name +:+ " must be a valid IP address (got '" +:+ listen_addr
              +:+ "'): invalid IP address syntax");
  Ok listen_addr.

Definition parse_port (field_name : string) (raw_port : Z) : bresult Z :=
  let range := field_name +:+ " must be in range 1..=65535 (got " +:+ to_string raw_port +:+ ")" in
  port ← ok_or (try_from_i64 65535 raw_port) range;
  _ ← ensure (negb (port =? 0)) range;
  Ok port.

Definition parse_max_body_bytes (value : option Toml) : bresult Z :=
  let range := "http.max_body_bytes must be in range 1..=" +:+ to_string MAX_HTTP_MAX_BODY_BYTES in
  match value with
  | None => Ok DEFAULT_HTTP_MAX_BODY_BYTES
  | Some value =>
    raw ← ok_or (as_integer value) range;
    let got := range +:+ " (got " +:+ to_string raw +:+ ")" in
    value ← ok_or (try_from_i64 u64_max raw) got;
    _ ← ensure (negb ((value =? 0) || (MAX_HTTP_MAX_BODY_BYTES <? value))) got;
    Ok value
  end.

Definition parse_http_section (root : table) (app_type : string) : bresult (option ManifestHttp) :=
  let http := root !! "http" in
  if negb (bool_decide (app_type = "http")) then
    _ ← ensure (negb (bool_decide (is_Some http)))
          ("http section is only allowed when type is " +:+ quoted "http");
    Ok None
  else
    table ← ok_or (http ≫= as_table) ("type=" +:+ quoted "http" +:+ " requires [http] table");
    raw_port ← ok_or (table !! "port" ≫= as_integer)
                 ("http.port is required when type=" +:+ quoted "http");
    port ← parse_port "http.port" raw_port;
    max_body_bytes ← parse_max_body_bytes (table !! "max_body_bytes");
    listen_addr ← match table !! "listen_addr" with
                  | Some value =>
                    text ← ok_or (as_str value) "http.listen_addr must be a valid IP address";
                    parse_listen_addr "http.listen_addr" text
                  | None => Ok DEFAULT_HTTP_LISTEN_ADDR
                  end;
    Ok (Some {| mt_port := port; mt_listen_addr := listen_addr; mt_max_body_bytes := max_body_bytes |}).

Definition parse_protocol (raw : string) : bresult RunnerSocketProtocol :=
  if bool_decide (raw = "udp") then Ok Udp
  else if bool_decide (raw = "tcp") then Ok Tcp
  else if bool_decide (raw = "both") then Ok BothProtocols
  else Err ("socket.protocol must be one of: udp, tcp, both (got: " +:+ raw +:+ ")").

Definition parse_direction (raw : string) : bresult RunnerSocketDirection :=
  if bool_decide (raw = "inbound") then Ok Inbound
  else if bool_decide (raw = "outbound") then Ok Outbound
  else if bool_decide (raw = "both") then Ok BothDirections
  else Err ("socket.direction must be one of: inbound, outbound, both (got: " +:+ raw +:+ ")").

Definition parse_socket_section (root : table) (app_type : string)
    : bresult (option RunnerSocketConfig) :=
  let socket := root !! "socket" in
  let needed field := "socket." +:+ field +:+ " is required when type=" +:+ quoted "socket" in
  if negb (bool_decide (app_type = "socket")) then
    _ ← ensure (negb (bool_decide (is_Some socket)))
          ("socket section is only allowed when type is " +:+ quoted "socket");
    Ok None
  else
    table ← ok_or (socket ≫= as_table) ("type=" +:+ quoted "socket" +:+ " requires [socket] table");
    protocol_raw ← ok_or (table !! "protocol" ≫= as_str) (needed "protocol");
    protocol ← parse_protocol protocol_raw;
    direction_raw ← ok_or (table !! "direction" ≫= as_str) (needed "direction");
    direction ← parse_direction direction_raw;
    addr_raw ← ok_or (table !! "listen_addr" ≫= as_str) (needed "listen_addr");
    listen_addr ← parse_listen_addr "socket.listen_addr" addr_raw;
    raw_port ← ok_or (table !! "listen_port" ≫= as_integer) (needed "listen_port");
    listen_port ← parse_port "socket.listen_port" raw_port;
    Ok (Some {| sock_protocol := protocol; sock_direction := direction;
                sock_listen_addr := listen_addr; sock_listen_port := listen_port |}).

(** ** Capabilities ([config_parse/capabilities.rs]) *)

Definition normalize_string_list (values : list string) : list string := normalize_string_set values.

Definition parse_capability_rule_list (value : Toml) (field_name : string) : bresult (list string) :=
  array ← ok_or (as_array value) (field_name +:+ " must be an array of strings");
  rules ← collect_indexed (λ index value,
      text ← ok_or (as_str value) (indexed field_name index +:+ " must be a string");
      let text := trim text in
      _ ← ensure (negb (bool_decide (text = ""))) (indexed field_name index +:+ " must not be empty");
      Ok text) 0 array;
  Ok (normalize_string_list rules).

Fixpoint parse_rule_entries (field_name : string) (entries : list (string * Toml))
    (normalized : gmap string (list string)) : bresult (gmap string (list string)) :=
  match entries with
  | [] => Ok normalized
  | (key, value) :: rest =>
    _ ← ensure (negb (is_blank key)) (field_name +:+ " contains an empty key");
    rules ← parse_capability_rule_list value (field_name +:+ "." +:+ key);
    parse_rule_entries field_name rest
      (match rules with [] => normalized | _ => <[key := rules]> normalized end)
  end.

Definition parse_capability_rule_table (value : option Toml) (field_name : string)
    : bresult (gmap string (list string)) :=
  match value with
  | None => Ok ∅
  | Some value =>
    table ← ok_or (as_table value) (field_name +:+ " must be a table");
    parse_rule_entries field_name (btree_iter table) ∅
  end.

Definition allow_all : gmap string (list string) := {["*" := ["*"]]}.

Definition parse_deps_capability_rules (value : option Toml) (field_name : string)
    : bresult (gmap string (list string)) :=
  match value with
  | None => Ok ∅
  | Some value =>
    match as_str value with
    | Some rule =>
      _ ← ensure (bool_decide (trim rule = "*"))
            (field_name +:+ " must be " +:+ quoted "*" +:+ " or a table");
      Ok allow_all
    | None =>
      _ ← ensure (bool_decide (is_Some (as_table value)))
            (field_name +:+ " must be " +:+ quoted "*" +:+ " or a table");
      parse_capability_rule_table (Some value) field_name
    end
  end.

Definition parse_wasi_capability_rules (value : option Toml) (field_name : string)
    : bresult (gmap string (list string)) :=
  match value with
  | None => Ok ∅
  | Some value =>
    match as_bool value with
    | Some true => Ok allow_all
    | Some false => Ok ∅
    | None => parse_capability_rule_table (Some value) field_name
    end
  end.

(** The first key of a table that a section does not have. *)
Definition unsupported_key (supported : list string) (m : table) : option string :=
  find (λ key, negb (bool_decide (key ∈ supported))) (btree_keys m).

Definition parse_capability_policy (value : option Toml) (field_name : string)
    : bresult CapabilityPolicy :=
  match value with
  | None => Ok {| cap_privileged := false; cap_deps := ∅; cap_wasi := ∅ |}
  | Some value =>
    table ← ok_or (as_table value) (field_name +:+ " must be a table");
    _ ← match unsupported_key ["privileged"; "deps"; "wasi"] table with
        | Some key => Err (field_name +:+ "." +:+ key +:+ " is not supported")
        | None => Ok tt
        end;
    privileged ← match table !! "privileged" with
                 | None => Ok false
                 | Some value => ok_or (as_bool value) (field_name +:+ ".privileged must be a boolean")
                 end;
    deps ← parse_deps_capability_rules (table !! "deps") (field_name +:+ ".deps");
    wasi ← parse_wasi_capability_rules (table !! "wasi") (field_name +:+ ".wasi");
    Ok {| cap_privileged := privileged; cap_deps := deps; cap_wasi := wasi |}
  end.

Definition parse_root_capabilities (root : table) : bresult CapabilityPolicy :=
  parse_capability_policy (root !! "capabilities") "capabilities".

(** ** Capabilities and the imports of the project ([mod.rs]) *)

Record ImportedDependencyInterface := {
  ii_package_name : string;
  ii_interface_name : string;
  ii_function_names : gset string;
}.

(** The loop over the separators: the first one that splits the rule decides. *)
Fixpoint rule_split (separators : list ascii) (rule : string) : option (string * string) :=
  match separators with
  | [] => None
  | separator :: rest =>
    match split_once separator rule with Some parts => Some parts | None => rule_split rest rule end
  end.

Definition dependency_rule_allows_interface (rule interface_name : string)
    (function_names : gset string) : bool :=
  let trimmed := trim rule in
  if bool_decide (trimmed = "") then false
  else if bool_decide (trimmed = "*") || bool_decide (trimmed = interface_name) then true
  else
    match rule_split ["."; "/"; "#"]%char trimmed with
    | Some (rule_interface, function_name) =>
      bool_decide (rule_interface = interface_name) && bool_decide (function_name ∈ function_names)
    | None => bool_decide (trimmed ∈ function_names)
    end.

Definition capability_policy_allows_dependency_interface (capabilities : CapabilityPolicy)
    (package_name interface_name : string) (function_names : gset string) : bool :=
  if cap_privileged capabilities then true
  else
    let allows rules :=
      existsb (λ rule, dependency_rule_allows_interface rule interface_name function_names) rules in
    match cap_deps capabilities !! package_name with
    | Some rules => allows rules
    | None => match cap_deps capabilities !! "*" with Some rules => allows rules | None => false end
    end.

Fixpoint validate_imported_interfaces (capabilities : CapabilityPolicy) (dependency_names : list string)
    (imported : list ImportedDependencyInterface) : bresult unit :=
  match imported with
  | [] => Ok tt
  | i :: rest =>
    _ ← ensure (negb (bool_decide (ii_package_name i ∈ dependency_names))
                || capability_policy_allows_dependency_interface capabilities (ii_package_name i)
                     (ii_interface_name i) (ii_function_names i))
          ("wit/world.wit imports dependency package '" +:+ ii_package_name i +:+ "', interface '"
           +:+ ii_interface_name i +:+ "' but capabilities.deps does not allow it");
    validate_imported_interfaces capabilities dependency_names rest
  end.

(** ** Outbound rules ([config_parse/resources.rs]) *)

Definition parse_wasi_http_outbound_port (port_text field_name : string) : bresult Z :=
  port ← map_err (λ err, field_name +:+ " port must be in range 1..=65535 (got '" +:+ port_text
           +:+ "'): " +:+ err) (parse_uint 65535 port_text);
  _ ← ensure (negb (port =? 0)) (field_name +:+ " port must be in range 1..=65535 (got 0)");
  Ok port.

Definition normalize_wasi_http_outbound_cidr (value field_name : string) : bresult string :=
  '(ip_text, prefix_text) ← ok_or (split_once "/"%char value)
     (field_name +:+ " must be hostname, host:port, or CIDR: " +:+ value);
  _ ← ensure (negb (bool_decide (ip_text = "") || bool_decide (prefix_text = "")
                    || str_contains "/" prefix_text))
        (field_name +:+ " must be valid CIDR (<ip>/<prefix>): " +:+ value);
  ip ← ok_or (parse_ip ip_text) (field_name +:+ " CIDR ip is invalid '" +:+ trim ip_text
         +:+ "': invalid IP address syntax");
  prefix ← map_err (λ err, field_name +:+ " CIDR prefix is invalid '" +:+ trim prefix_text +:+ "': "
             +:+ err) (parse_uint 255 prefix_text);
  _ ← ensure (prefix <=? max_prefix_of ip) (field_name +:+ " CIDR prefix must be in range 0..="
        +:+ to_string (max_prefix_of ip) +:+ ": " +:+ to_string prefix);
  Ok (ip_to_string (cidr_network_ip ip prefix) +:+ "/" +:+ to_string prefix).

Definition normalize_wasi_http_outbound_host (raw_host field_name : string) : bresult string :=
  let host := trim raw_host in
  _ ← ensure (negb (bool_decide (host = ""))) (field_name +:+ " host must not be empty");
  _ ← ensure (negb (str_contains "*" host))
        (field_name +:+ " wildcard host is not supported: " +:+ host);
  _ ← ensure (negb (str_contains "/" host || str_contains "\" host))
        (field_name +:+ " host must not contain path separators: " +:+ host);
  _ ← ensure (negb (has_whitespace host))
        (field_name +:+ " host must not contain whitespace: " +:+ host);
  _ ← ensure (negb (starts_with "[" host || ends_with "]" host))
        (field_name +:+ " host must not contain brackets: " +:+ host);
  match parse_ip host with
  | Some ip => Ok (ip_to_string ip)
  | None =>
    _ ← ensure (negb (str_contains ":" host))
          (field_name +:+ " host with ':' must use [ipv6]:port format: " +:+ host);
    Ok (to_ascii_lowercase host)
  end.

(** The bracketed form, after the opening bracket. *)
Definition normalize_bracketed (value rest field_name : string) : bresult string :=
  '(host_text, rest) ← ok_or (split_once "]"%char rest)
     (field_name +:+ " has invalid bracketed host: " +:+ value);
  bits ← ok_or (parse_ipv6 host_text) (field_name +:+ " bracketed host must be valid IPv6: "
           +:+ host_text +:+ " (invalid IPv6 address syntax)");
  let host_ip := ip_to_string (V6 bits) in
  if bool_decide (rest = "") then Ok host_ip
  else
    port_text ← ok_or (strip_prefix ":" rest)
                  (field_name +:+ " bracketed host must use [ipv6]:port format: " +:+ value);
    port ← parse_wasi_http_outbound_port port_text field_name;
    Ok ("[" +:+ host_ip +:+ "]:" +:+ to_string port).

Definition normalize_wasi_http_outbound_host_or_host_port (value field_name : string)
    : bresult string :=
  match strip_prefix "[" value with
  | Some rest => normalize_bracketed value rest field_name
  | None =>
    if bool_decide (1 < count_char ":"%char value)%nat then
      ip ← ok_or (parse_ip value) (field_name +:+ " must use [ipv6]:port for IPv6 host: " +:+ value
             +:+ " (invalid IP address syntax)");
      Ok (ip_to_string ip)
    else
      match rsplit_once ":"%char value with
      | Some (host_text, port_text) =>
        if all_chars is_ascii_digit port_text then
          host ← normalize_wasi_http_outbound_host host_text field_name;
          port ← parse_wasi_http_outbound_port port_text field_name;
          Ok (if str_contains ":" host then "[" +:+ host +:+ "]:" +:+ to_string port
              else host +:+ ":" +:+ to_string port)
        else normalize_wasi_http_outbound_host value field_name
      | None => normalize_wasi_http_outbound_host value field_name
      end
  end.

Definition normalize_wasi_http_outbound_rule (raw field_name : string) : bresult string :=
  let value := trim raw in
  _ ← ensure (negb (bool_decide (value = ""))) (field_name +:+ " must not be empty");
  _ ← ensure (negb (str_contains "*" value)) (field_name +:+ " wildcard is not supported: " +:+ value);
  _ ← ensure (negb (has_whitespace value))
        (field_name +:+ " must not contain whitespace: " +:+ value);
  if str_contains "/" value then normalize_wasi_http_outbound_cidr value field_name
  else normalize_wasi_http_outbound_host_or_host_port value field_name.

(** The rules in order, each text once. *)
Fixpoint collect_outbound (index : Z) (array : list Toml) (rules : list string)
    : bresult (list string) :=
  match array with
  | [] => Ok rules
  | value :: rest =>
    raw ← ok_or (as_str value) (indexed "resources.http_outbound" index +:+ " must be a string");
    normalized ← normalize_wasi_http_outbound_rule raw (indexed "resources.http_outbound" index);
    collect_outbound (index + 1) rest
      (if bool_decide (normalized ∈ rules) then rules else (rules ++ [normalized])%list)
  end.

Definition parse_resources_http_outbound (value : option Toml) : bresult (list string) :=
  match value with
  | None => Ok []
  | Some value =>
    array ← ok_or (as_array value) "resources.http_outbound must be an array of strings";
    collect_outbound 0 array []
  end.

Definition parse_resources_args (value : option Toml) : bresult (list string) :=
  match value with
  | None => Ok []
  | Some value =>
    array ← ok_or (as_array value) "resources.args must be an array of strings";
    collect_indexed (λ index value,
      text ← ok_or (as_str value) (indexed "resources.args" index +:+ " must be a string");
      let arg := trim text in
      _ ← ensure (negb (bool_decide (arg = ""))) (indexed "resources.args" index +:+ " must not be empty");
      Ok arg) 0 array
  end.

(** ** Files of the project

    The tree of the project is threaded through; errors are texts. *)

Definition cli (A : Type) : Type := tree → tree * bresult A.

#[export] Instance cli_ret : MRet cli := λ A a t, (t, Ok a).
#[export] Instance cli_bind : MBind cli := λ A B f m t,
  match m t with (t, Ok a) => f a t | (t, Err e) => (t, Err e) end.

Definition told {A} (r : bresult A) : cli A := λ t, (t, r).
Definition asked {A} (call : fs_call A) (context : string) : cli A := λ t,
  let '(t, r) := call t in (t, with_context context (map_err fs_error_text r)).

(** [.with_context(..)] around a computation. *)
Definition in_context {A} (context : string) (m : cli A) : cli A := λ t,
  let '(t, r) := m t in (t, with_context context r).

Lemma cli_bind_inv {A B} (m : cli A) (f : A → cli B) t t' b :
  (m ≫= f) t = (t', Ok b) → ∃ t1 a, m t = (t1, Ok a) ∧ f a t1 = (t', Ok b).
Proof. unfold mbind, cli_bind. destruct (m t) as [t1 [a|e]]; [eauto|done]. Qed.

Lemma told_inv {A} (r : bresult A) t t' a : told r t = (t', Ok a) → t = t' ∧ r = Ok a.
Proof. by intros [= -> ->]. Qed.

Lemma asked_inv {A} (call : fs_call A) context t t' a :
  asked call context t = (t', Ok a) → call t = (t', Ok a).
Proof.
  unfold asked, with_context. destruct (call t) as [t1 [x|e]]; simpl; [|done]. by intros [= -> ->].
Qed.

Lemma in_context_inv {A} context (m : cli A) t t' a :
  in_context context m t = (t', Ok a) → m t = (t', Ok a).
Proof.
  unfold in_context, with_context. destruct (m t) as [t1 [x|e]]; simpl; [|done]. by intros [= -> ->].
Qed.

(** Split a run that answered [Ok] into the runs of its parts. *)
Ltac inv_cli :=
  repeat match goal with
  | H : (_ ≫= _) _ = (_, Ok _) |- _ => apply cli_bind_inv in H as (? & ? & ? & H)
  | H : told _ _ = (_, Ok _) |- _ => apply told_inv in H as [? H]; subst; inv_ok
  | H : asked _ _ _ = (_, Ok _) |- _ => apply asked_inv in H
  | H : in_context _ _ _ = (_, Ok _) |- _ => apply in_context_inv in H
  | H : mret _ _ = (_, Ok _) |- _ => injection H as ? ?; subst
  end.

(** What toml and serde_json make of the values that [Json] does not have: integers, booleans,
    and floats and dates by their text, where a float may have no JSON number. *)
Class BuildJson `{Json} := {
  json_integer : Z → JsonValue;
  json_bool : bool → JsonValue;
  json_other : string → option JsonValue;
}.

Section project.
Context `{BuildJson} (io : FsIo).

(** ** Values ([config_parse/resources.rs]) *)

Fixpoint toml_to_json_normalized (value : Toml) : bresult JsonValue :=
  match value with
  | TString v => Ok (json_string v)
  | TInteger v => Ok (json_integer v)
  | TBoolean v => Ok (json_bool v)
  | TOther text => ok_or (json_other text) "floating-point value is not representable as JSON"
  | TArray values => l ← try_map toml_to_json_normalized values; Ok (json_array l)
  | TTable m =>
    object ← map_fold (λ key nested object, object ← object; v ← toml_to_json_normalized nested;
                Ok (<[key := v]> object)) (Ok ∅) m;
    Ok (json_object object)
  end.

Fixpoint insert_json (skip : list string) (entries : list (string * Toml))
    (object : gmap string JsonValue) : bresult (gmap string JsonValue) :=
  match entries with
  | [] => Ok object
  | (key, value) :: rest =>
    if bool_decide (key ∈ skip) then insert_json skip rest object
    else v ← toml_to_json_normalized value; insert_json skip rest (<[key := v]> object)
  end.

(** [None] is JSON's null. *)
Definition parse_gpio_service_resource_value (value : Toml) : bresult (option JsonValue) :=
  gpio ← ok_or (as_table value) "resources.gpio must be a table";
  object ← insert_json ["profile"] (btree_iter gpio) ∅;
  Ok (if bool_decide (is_Some (gpio !! "profile")) && bool_decide (gpio !! "digital_pins" = None)
         && bool_decide (dom object = ∅)
      then None else Some (json_object object)).

(** ** Assets *)

Record AssetSource := { as_path : string; as_extra : gmap string JsonValue; as_source_path : string }.

Definition ensure_file_exists (project_root relative field_name : string) : cli unit :=
  let path := path_join project_root relative in
  meta ← asked (metadata io path) (field_name +:+ " file is not accessible: " +:+ path);
  told (ensure (is_file meta) (field_name +:+ " path is not a file: " +:+ path)).

Fixpoint parse_asset_items (project_root : string) (index : Z) (items : list Toml)
    : cli (list AssetSource) :=
  match items with
  | [] => mret []
  | item :: rest =>
    table ← told (ok_or (as_table item) (indexed "assets" index +:+ " must be a table"));
    path_value ← told (ok_or (table !! "path") (indexed "assets" index +:+ ".path is required"));
    path_text ← told (ok_or (as_str path_value) (indexed "assets" index +:+ ".path must be a string"));
    normalized ← told (normalize_relative_path path_text "assets[].path");
    _ ← ensure_file_exists project_root normalized "assets[].path";
    extra ← told (insert_json ["path"] (btree_iter table) ∅);
    assets ← parse_asset_items project_root (index + 1) rest;
    mret ({| as_path := normalized_path_to_string normalized; as_extra := extra;
             as_source_path := normalized |} :: assets)
  end.

Definition parse_assets (value : option Toml) (project_root : string) : cli (list AssetSource) :=
  match value with
  | None => mret []
  | Some value =>
    array ← told (ok_or (as_array value) "assets must be an array");
    parse_asset_items project_root 0 array
  end.

(** ** Mounts and resources *)

Definition collect_allowed_resource_asset_dirs (assets : list AssetSource) : gset string :=
  foldl (λ allowed asset,
    let parent := parent_dir (as_source_path asset) in
    if bool_decide (parent = "") then allowed else {[parent]} ∪ allowed) ∅ assets.

Definition parse_mount_entry (field_name : string) (allowed_asset_dirs : gset string) (index : Z)
    (item : Toml) : bresult ManifestWasiMount :=
  let at_ := indexed field_name index in
  entry ← ok_or (as_table item) (at_ +:+ " must be a table");
  _ ← match unsupported_key ["asset_dir"; "guest_path"] entry with
      | Some key => Err (at_ +:+ "." +:+ key +:+ " is not supported")
      | None => Ok tt
      end;
  asset_dir_raw ← ok_or (entry !! "asset_dir" ≫= as_str) (at_ +:+ ".asset_dir must be a string");
  asset_dir ← normalize_relative_path asset_dir_raw (at_ +:+ ".asset_dir");
  _ ← ensure (bool_decide (asset_dir ∈ allowed_asset_dirs))
        (at_ +:+ ".asset_dir must match a directory derived from assets[].path");
  guest_path_raw ← ok_or (entry !! "guest_path" ≫= as_str) (at_ +:+ ".guest_path must be a string");
  guest_path ← normalize_wasi_guest_path guest_path_raw (at_ +:+ ".guest_path");
  Ok {| mw_asset_dir := normalized_path_to_string asset_dir; mw_guest_path := guest_path |}.

Definition parse_resource_mount_entries (value : option Toml) (field_name : string)
    (allowed_asset_dirs : gset string) : bresult (list ManifestWasiMount) :=
  match value with
  | None => Ok []
  | Some value =>
    array ← ok_or (as_array value) (field_name +:+ " must be an array");
    collect_indexed (parse_mount_entry field_name allowed_asset_dirs) 0 array
  end.

Fixpoint check_mounts_unique (seen_guest_paths seen_asset_dirs : gset string)
    (mounts : list ManifestWasiMount) : bresult unit :=
  match mounts with
  | [] => Ok tt
  | mount :: rest =>
    _ ← ensure (bool_decide (mw_guest_path mount ∉ seen_guest_paths))
          ("resources mounts contain duplicate guest_path: " +:+ mw_guest_path mount);
    _ ← ensure (bool_decide (mw_asset_dir mount ∉ seen_asset_dirs))
          ("resources mounts contain duplicate asset_dir: " +:+ mw_asset_dir mount);
    check_mounts_unique ({[mw_guest_path mount]} ∪ seen_guest_paths)
      ({[mw_asset_dir mount]} ∪ seen_asset_dirs) rest
  end.

Definition validate_resource_mount_uniqueness (mounts read_only_mounts : list ManifestWasiMount)
    : bresult unit := check_mounts_unique ∅ ∅ (mounts ++ read_only_mounts)%list.

(** The errors of the loop name the first offending key. *)
Fixpoint string_entries (field_name : string) (entries : list (string * Toml))
    (m : gmap string string) : bresult (gmap string string) :=
  match entries with
  | [] => Ok m
  | (key, value) :: rest =>
    text ← ok_or (as_str value) (field_name +:+ "." +:+ key +:+ " must be a string");
    string_entries field_name rest (<[key := text]> m)
  end.

Definition parse_string_table (value : option Toml) (field_name : string)
    : bresult (gmap string string) :=
  match value with
  | None => Ok ∅
  | Some value =>
    table ← ok_or (as_table value) (field_name +:+ " must be a table");
    string_entries field_name (btree_iter table) ∅
  end.

Definition own_resource_keys : list string :=
  ["args"; "env"; "http_outbound"; "mounts"; "read_only_mounts"].

Fixpoint extra_resources (entries : list (string * Toml)) (extra : gmap string JsonValue)
    : bresult (gmap string JsonValue) :=
  match entries with
  | [] => Ok extra
  | (key, value) :: rest =>
    if bool_decide (key ∈ own_resource_keys) then extra_resources rest extra
    else
      _ ← ensure (negb (is_blank key)) "resources contains an empty key";
      normalized ← (if bool_decide (key = "gpio") then parse_gpio_service_resource_value value
                    else Some <$> toml_to_json_normalized value);
      extra_resources rest (match normalized with Some v => <[key := v]> extra | None => extra end)
  end.

Definition resources_empty (r : ManifestResourcesConfig) : bool :=
  bool_decide (mr_args r = []) && bool_decide (mr_env r = ∅) && bool_decide (mr_http_outbound r = [])
  && bool_decide (length (mr_mounts r) = 0%nat) && bool_decide (length (mr_read_only_mounts r) = 0%nat)
  && bool_decide (dom (mr_extra r) = ∅).

Definition parse_resources_section (root : table) (assets : list AssetSource)
    : bresult (option ManifestResourcesConfig) :=
  match root !! "resources" with
  | None => Ok None
  | Some value =>
    table ← ok_or (as_table value) "resources must be a table";
    args ← parse_resources_args (table !! "args");
    env ← parse_string_table (table !! "env") "resources.env";
    http_outbound ← parse_resources_http_outbound (table !! "http_outbound");
    let allowed_asset_dirs := collect_allowed_resource_asset_dirs assets in
    mounts ← parse_resource_mount_entries (table !! "mounts") "resources.mounts" allowed_asset_dirs;
    read_only_mounts ← parse_resource_mount_entries (table !! "read_only_mounts")
                         "resources.read_only_mounts" allowed_asset_dirs;
    _ ← validate_resource_mount_uniqueness mounts read_only_mounts;
    extra ← extra_resources (btree_iter table) ∅;
    let resources := {| mr_args := args; mr_env := env; mr_http_outbound := http_outbound;
                        mr_mounts := mounts; mr_read_only_mounts := read_only_mounts;
                        mr_extra := extra |} in
    Ok (if resources_empty resources then None else Some resources)
  end.

End project.

(** ** The component ([manifest_hash.rs])

    A file is hashed by reading it to its end in blocks, so its digest is that of its content. *)

Section materialize.
Context `{Crates} (io : FsIo).

Definition compute_sha256_hex (path : string) : cli string :=
  _ ← asked (metadata io path) ("failed to inspect file for sha256: " +:+ path);
  content ← asked (read io path) ("failed to read file for sha256: " +:+ path);
  mret (sha256_hex content).

Definition ensure_build_dir (project_root : string) : cli string :=
  let build_dir := path_join project_root "build" in
  _ ← asked (create_dir_all io build_dir) ("failed to create build directory: " +:+ build_dir);
  mret build_dir.

Definition copy_materialized_wasm (source destination : string) : cli unit :=
  asked (copy io source destination)
    ("failed to copy wasm from " +:+ source +:+ " to " +:+ destination).

(** [path.exists()]: an error counts as missing. *)
Definition path_exists (path : string) : cli bool := λ t,
  match metadata io path t with (t, Ok _) => (t, Ok true) | (t, Err _) => (t, Ok false) end.

Definition materialize_hashed_wasm (project_root source_main_path service_name : string)
    : cli string :=
  let source := path_join project_root source_main_path in
  digest ← compute_sha256_hex source;
  build_dir ← ensure_build_dir project_root;
  let file_name := digest +:+ "-" +:+ service_name +:+ ".wasm" in
  let destination := path_join build_dir file_name in
  found ← path_exists destination;
  _ ← (if found : bool then
         meta ← asked (metadata io destination)
                  ("failed to inspect materialized wasm: " +:+ destination);
         _ ← told (ensure (is_file meta)
               ("materialized wasm path is not a file: " +:+ destination));
         existing_digest ← in_context ("failed to verify materialized wasm hash: " +:+ destination)
                             (compute_sha256_hex destination);
         if bool_decide (existing_digest = digest) then mret tt
         else copy_materialized_wasm source destination
       else copy_materialized_wasm source destination);
  mret (path_join "build" file_name).

End materialize.

(** ** The manifest ([mod.rs])

    What [build_project] reads from the document before the build command runs, and what it
    reads and writes after it.  Between the two it resolves dependencies and bindings from the lock
    file and runs the command.  The resources are those of the document: what a [.env] file and
    resource providers add to them, and the check of the catalogue of GPIO pins, are left out. *)

Record ProjectSections := {
  ps_command : option BuildCommand;
  ps_wit_world : option string;
  ps_name : string;
  ps_source_main_path : string;
  ps_app_type : string;
  ps_http : option ManifestHttp;
  ps_socket : option RunnerSocketConfig;
  ps_restart_policy : string;
  ps_capabilities : CapabilityPolicy;
}.

Definition read_sections (root : table) : bresult ProjectSections :=
  command ← parse_build_command root;
  wit_world ← parse_build_wit_world root;
  name ← required_string root "name";
  _ ← validate_service_name name;
  main_raw ← required_string root "main";
  source_main_path ← normalize_source_main_path main_raw "main";
  app_type ← required_string root "type";
  _ ← validate_app_type app_type;
  http ← parse_http_section root app_type;
  socket ← parse_socket_section root app_type;
  restart_policy ← parse_restart_policy root;
  capabilities ← parse_root_capabilities root;
  Ok {| ps_command := command; ps_wit_world := wit_world; ps_name := name;
        ps_source_main_path := source_main_path; ps_app_type := app_type; ps_http := http; ps_socket := socket;
        ps_restart_policy := restart_policy; ps_capabilities := capabilities |}.

Section emit.
Context `{BuildJson, Crates} (io : FsIo).

Record EmittedSections := {
  es_main : string;
  es_assets : list AssetSource;
  es_resources : option ManifestResourcesConfig;
}.

Definition emit_sections (project_root : string) (root : table) (s : ProjectSections)
    : cli EmittedSections :=
  _ ← ensure_file_exists io project_root (ps_source_main_path s) "main";
  materialized_main_path ← materialize_hashed_wasm io project_root (ps_source_main_path s) (ps_name s);
  manifest_main ← told (ok_or (file_name materialized_main_path) "materialized wasm filename is missing");
  assets ← parse_assets io (root !! "assets") project_root;
  resources ← told (parse_resources_section root assets);
  mret {| es_main := normalized_path_to_string manifest_main; es_assets := assets;
          es_resources := resources |}.

End emit.
