(* ===== verification/OutboundNormal.v ===== *)
(** * Outbound rules, written by the client and read by the node

    The client normalizes the rules of [resources.http_outbound] before it writes them into the
    manifest ([config_parse/resources.rs]); the node parses what it finds there with its own
    parser ([imagod-ipc]).  Shown: the client accepts exactly the rules the node accepts, and what
    it writes means to the node what the user wrote. *)

From S2P Require Import Prelude Text IpAddr Ipc Paths Manifest BuildConfig.

Open Scope string_scope.
Open Scope Z_scope.

(** ** Texts *)

(** The text the client writes for a rule. *)
Definition rule_text (rule : WasiHttpOutboundRule) : string :=
  match rule with
  | Host host => host
  | HostPort host port =>
    if str_contains ":" host then "[" +:+ host +:+ "]:" +:+ to_string port
    else host +:+ ":" +:+ to_string port
  | Cidr network prefix_len => ip_to_string network +:+ "/" +:+ to_string prefix_len
  end.

Lemma to_string_digits z : 0 ≤ z → all_chars is_ascii_digit (to_string z) = true ∧ to_string z ≠ "".
Proof.
  intros Hz. assert (to_string z = pretty (Z.to_N z)) as -> by by destruct z.
  split; [apply pretty_N_digits|apply pretty_N_nonempty].
Qed.

(** ** The colons of an IPv6 address *)

Definition colons (l : list ascii) : nat := count_char ":" (string_of_bytes l).

Lemma colons_app l k : colons (l ++ k)%list = (colons l + colons k)%nat.
Proof. unfold colons, count_char. by rewrite !bytes_of_string_of_bytes, filter_app, length_app. Qed.

Lemma count_colons_more gs : (length gs ≤ colons (print_more gs))%nat.
Proof.
  induction gs as [|g gs IH]; [simpl; lia|]. rewrite print_more_cons.
  change (":"%char :: print_group g ++ print_more gs)%list
    with ([":"%char] ++ print_group g ++ print_more gs)%list.
  rewrite !colons_app. assert (colons [":"%char] = 1%nat) as -> by reflexivity. simpl. lia.
Qed.

Lemma v6_colons b : 0 ≤ b < 2 ^ 128 → (1 < count_char ":"%char (ip_to_string (V6 b)))%nat.
Proof.
  intros Hb. destruct (segments_of_spec 8 b Hb) as (_ & _ & Hl).
  assert (colons (bytes_of "::ffff:") = 3%nat) as H3 by reflexivity.
  assert (colons (bytes_of "::") = 2%nat) as H2 by reflexivity.
  change (1 < colons (print_v6 b))%nat. unfold print_v6.
  case_bool_decide; [rewrite colons_app; lia|].
  destruct (longest_zeros _ _ _ _) as [start len]. case_bool_decide; [rewrite !colons_app; lia|].
  unfold segments. destruct (segments_of 8 b) as [|g gs]; [done|].
  rewrite fmt_subslice_cons, colons_app.
  pose proof (count_colons_more gs). simpl in Hl. lia.
Qed.

(** ** The client's normal form is the node's *)

(** The client answers what the node's normalizer finds, or some error. *)
Definition agrees {A} (r : bresult A) (o : option A) : Prop :=
  match o with Some a => r = Ok a | None => ∃ e, r = Err e end.

Definition ok_part {E A} (r : result E A) : option A :=
  match r with Ok a => Some a | Err _ => None end.

Lemma agrees_bind {A B} (m : bresult A) o (f : A → bresult B) (g : A → option B) :
  agrees m o → (∀ a, agrees (f a) (g a)) → agrees (m ≫= f) (o ≫= g).
Proof. destruct o as [a|]; simpl; [intros -> Hf; apply Hf|intros [e ->] _; by exists e]. Qed.

Lemma host_agrees raw field :
  agrees (normalize_wasi_http_outbound_host raw field) (Ipc.normalize_wasi_http_outbound_host raw).
Proof.
  unfold normalize_wasi_http_outbound_host, Ipc.normalize_wasi_http_outbound_host.
  case_bool_decide; simpl; [eauto|].
  destruct (str_contains "*" (trim raw)); simpl; [eauto|].
  destruct (str_contains "/" (trim raw)); simpl; [eauto|].
  destruct (str_contains "\" (trim raw)); simpl; [eauto|].
  destruct (has_whitespace (trim raw)); simpl; [eauto|].
  destruct (starts_with "[" (trim raw) || ends_with "]" (trim raw)); simpl; [eauto|].
  destruct (parse_ip (trim raw)); simpl; [done|].
  destruct (str_contains ":" (trim raw)); simpl; eauto.
Qed.

Lemma port_agrees text field :
  agrees (parse_wasi_http_outbound_port text field) (ok_part (Ipc.parse_wasi_http_outbound_port text)).
Proof.
  unfold parse_wasi_http_outbound_port, Ipc.parse_wasi_http_outbound_port.
  destruct (parse_uint 65535 text) as [p|]; simpl; [|eauto].
  destruct (p =? 0); simpl; eauto.
Qed.

Lemma port_bound text p : Ipc.parse_wasi_http_outbound_port text = Ok p → 1 ≤ p ≤ 65535.
Proof.
  unfold Ipc.parse_wasi_http_outbound_port. destruct (parse_uint 65535 text) as [n|] eqn:E; [|done].
  apply parse_uint_bound in E; [|lia]. simpl. destruct (Z.eqb_spec n 0); intros [= <-]. lia.
Qed.

Lemma cidr_agrees value field :
  agrees (normalize_wasi_http_outbound_cidr value field)
    (rule_text <$> ok_part (parse_wasi_http_outbound_cidr value)).
Proof.
  unfold normalize_wasi_http_outbound_cidr, parse_wasi_http_outbound_cidr.
  destruct (split_once "/" value) as [[a b]|]; simpl; [|eauto].
  destruct (negb _); simpl; [|eauto]. destruct (parse_ip a) as [ip|]; simpl; [|eauto].
  destruct (parse_uint 255 b) as [p|]; simpl; [|eauto]. destruct (p <=? _); simpl; eauto.
Qed.

Lemma v6_contains_colon b : ip_ok (V6 b) → str_contains ":" (ip_to_string (V6 b)) = true.
Proof.
  intros Hb%v6_colons. apply not_false_iff_true. intros Hn%not_contains%count_char_none. lia.
Qed.

Lemma host_or_port_agrees value field :
  agrees (normalize_wasi_http_outbound_host_or_host_port value field)
    (rule_text <$> ok_part (parse_wasi_http_outbound_host_or_port value)).
Proof.
  assert (∀ v, agrees (normalize_wasi_http_outbound_host v field)
    (rule_text <$> ok_part (host ← ok_or (Ipc.normalize_wasi_http_outbound_host v)
                             ("invalid host rule: " +:+ v); Ok (Host host)))) as Hwhole.
  { intros v. pose proof (host_agrees v field) as Hh.
    by destruct (Ipc.normalize_wasi_http_outbound_host v). }
  unfold normalize_wasi_http_outbound_host_or_host_port, parse_wasi_http_outbound_host_or_port.
  destruct (strip_prefix "[" value) as [rest|].
  { unfold normalize_bracketed, parse_bracketed.
    destruct (split_once "]" rest) as [[ht r]|]; cbn [ok_or mbind result_bind]; [|simpl; eauto].
    destruct (parse_ipv6 ht) as [b|] eqn:Hb; cbn [ok_or mbind result_bind]; [|simpl; eauto].
    case_bool_decide; [done|].
    destruct (strip_prefix ":" r) as [pt|]; cbn [ok_or mbind result_bind]; [|simpl; eauto].
    pose proof (port_agrees pt field) as Hp.
    destruct (Ipc.parse_wasi_http_outbound_port pt) as [p|e]; simpl in Hp;
      [|destruct Hp as [e' ->]; simpl; eauto].
    rewrite Hp. cbn [mbind result_bind ok_part fmap option_fmap option_map agrees rule_text].
    by rewrite v6_contains_colon by by eapply parse_ipv6_ok. }
  case_bool_decide; [by destruct (parse_ip value) as [ip|]; simpl; eauto|].
  destruct (rsplit_once ":" value) as [[ht pt]|]; [|apply Hwhole].
  destruct (all_chars is_ascii_digit pt); [|apply Hwhole].
  pose proof (host_agrees ht field) as Hh.
  destruct (Ipc.normalize_wasi_http_outbound_host ht) as [h|]; simpl in Hh;
    [|destruct Hh as [e ->]; simpl; eauto].
  rewrite Hh. cbn [ok_or mbind result_bind]. pose proof (port_agrees pt field) as Hp.
  destruct (Ipc.parse_wasi_http_outbound_port pt) as [p|e]; simpl in Hp;
    [|destruct Hp as [e' ->]; simpl; eauto]. by rewrite Hp.
Qed.

Lemma rule_agrees raw field :
  agrees (normalize_wasi_http_outbound_rule raw field) (rule_text <$> ok_part (parse_rule raw)).
Proof.
  unfold normalize_wasi_http_outbound_rule, parse_rule.
  case_bool_decide; simpl; [eauto|].
  destruct (str_contains "*" (trim raw)); simpl; [eauto|].
  destruct (has_whitespace (trim raw)); simpl; [eauto|].
  destruct (str_contains "/" (trim raw)); [apply cidr_agrees|apply host_or_port_agrees].
Qed.

(** ** What the client writes parses back *)

Lemma agrees_parse raw rule field :
  parse_rule raw = Ok rule → normalize_wasi_http_outbound_rule raw field = Ok (rule_text rule).
Proof. intros Hr. pose proof (rule_agrees raw field) as Ha. by rewrite Hr in Ha. Qed.

(** The hosts that rules carry. *)
Definition normal_host (h : string) : Prop := Ipc.normalize_wasi_http_outbound_host h = Some h.

Lemma v4_no_colon b : 0 ≤ b < 2 ^ 32 → ":"%char ∉ print_v4 b.
Proof.
  intros Hb. assert (∀ n, 0 ≤ n → ":"%char ∉ print_octet n) as Hn.
  { intros n Hn Hin. pose proof (print_number_digits 10 3 n (or_introl eq_refl) Hn) as Hd.
    rewrite Forall_forall in Hd. apply Hd, to_digit_colon in Hin; [done|by left]. }
  unfold print_v4. rewrite !not_elem_of_app, !not_elem_of_cons, !not_elem_of_app, !not_elem_of_cons,
    not_elem_of_app, not_elem_of_cons.
  split_and!; first [done|apply Hn; first [apply Z.div_pos; lia|by apply Z.mod_pos_bound]].
Qed.

Lemma normal_host_facts h :
  normal_host h →
  h ≠ "" ∧ has_whitespace h = false ∧ str_contains "*" h = false ∧ str_contains "/" h = false ∧
  starts_with "[" h = false ∧
  (str_contains ":" h = true → ∃ b, ip_ok (V6 b) ∧ h = ip_to_string (V6 b)).
Proof.
  intros [(ip & Hok & ->)|(v & -> & Hne & Hws & H1 & H2 & H3 & H4 & H5 & Hip & Hcol)]%normalize_inv.
  - pose proof (ip_to_string_chars ip Hok) as Hc.
    destruct (ip_char_not "*" "*"%char _ Hc eq_refl eq_refl) as (? & _ & _).
    destruct (ip_char_not "/" "/"%char _ Hc eq_refl eq_refl) as (? & _ & _).
    destruct (ip_char_not "[" "["%char _ Hc eq_refl eq_refl) as (_ & ? & _).
    split_and!; [by apply ip_to_string_nonempty|by apply graphic_no_whitespace, ip_chars_graphic|done..|].
    destruct ip as [b|b]; [|by eauto]. rewrite str_contains_char. unfold ip_to_string.
    rewrite bytes_of_string_of_bytes. by intros ?%v4_no_colon.
  - rewrite !str_contains_lower, has_whitespace_lower, starts_with_lower, Hcol by done.
    split_and!; [by apply to_lower_nonempty|done..].
Qed.

Lemma parse_host_text h : normal_host h → parse_rule h = Ok (Host h).
Proof.
  intros Hn. destruct (normal_host_facts h Hn) as (Hne & Hw & H1 & H2 & H3 & Hv6).
  unfold parse_rule. rewrite trim_id, bool_decide_false, H1, Hw, H2 by done.
  unfold parse_wasi_http_outbound_host_or_port. rewrite starts_with_none by done.
  destruct (str_contains ":" h) eqn:Hc.
  - destruct Hv6 as (b & Hb & ->); [done|]. pose proof (v6_colons b Hb).
    by rewrite bool_decide_true, parse_ip_to_string.
  - apply not_contains in Hc. rewrite bool_decide_false by (rewrite count_char_none by done; lia).
    rewrite rsplit_once_none by done. by rewrite Hn.
Qed.

Lemma parse_port_text p : 1 ≤ p ≤ 65535 → Ipc.parse_wasi_http_outbound_port (to_string p) = Ok p.
Proof.
  intros Hp. unfold Ipc.parse_wasi_http_outbound_port. rewrite parse_uint_to_string by lia. simpl.
  by destruct (Z.eqb_spec p 0); [lia|].
Qed.

(** A text made of a clean part and digits reaches the cases of [parse_rule]. *)
Definition clean (s : string) : Prop :=
  has_whitespace s = false ∧ str_contains "*" s = false.

Lemma parse_rule_clean s :
  s ≠ "" → clean s →
  parse_rule s = if str_contains "/" s then parse_wasi_http_outbound_cidr s
                 else parse_wasi_http_outbound_host_or_port s.
Proof. intros Hne [Hw Hs]. unfold parse_rule. by rewrite trim_id, bool_decide_false, Hw, Hs. Qed.

Lemma contains_graphic_tail w s t :
  w ∈ white_space → all_chars is_ascii_graphic t = true →
  str_contains w (s +:+ t) = true → str_contains w s = true.
Proof.
  intros Hw Ht. assert (∀ c, c ∈ bytes_of w → c ∉ bytes_of t) as Hno.
  { intros c Hc Hin. destruct (white_space_not_graphic c (all_chars_elem _ _ _ Ht Hin)) as [Hf _].
    rewrite Forall_forall in Hf. by apply (Hf w). }
  assert (w ≠ "") as Hne by (intros ->; by apply white_space_nonempty in Hw).
  assert (∀ u, starts_with w (u +:+ t) = true → starts_with w u = true) as Hst.
  { unfold starts_with. intros u. rewrite !bool_decide_eq_true. intros [r Hr%strip_prefix_app].
    apply (f_equal bytes_of) in Hr. rewrite !bytes_of_app in Hr.
    apply app_eq_app in Hr as [l [[Hu _]|[Hv Ht']]].
    - exists (string_of_bytes l). apply strip_prefix_app, bytes_of_inj.
      by rewrite bytes_of_app, bytes_of_string_of_bytes.
    - destruct l as [|c l].
      + exists "". apply strip_prefix_app, bytes_of_inj. by rewrite bytes_of_app, Hv, !app_nil_r.
      + destruct (Hno c); [rewrite Hv|rewrite Ht']; set_solver. }
  induction s as [|c s IH].
  - change (("" +:+ t)%string) with t. intros Hc. destruct w as [|c w]; [done|].
    destruct (Hno c); [left|]. apply (str_contains_elem (String c w)); [done|left].
  - change ((String c s +:+ t)%string) with (String c (s +:+ t)). cbn [str_contains].
    intros [H|H]%orb_true_iff; apply orb_true_iff; [left; by apply (Hst (String c s))|right; by apply IH].
Qed.

Lemma no_whitespace_app s t :
  has_whitespace s = false → all_chars is_ascii_graphic t = true → has_whitespace (s +:+ t) = false.
Proof.
  intros Hs Ht. apply not_true_iff_false. intros (w & Hw%list_elem_of_In & Hc)%existsb_exists.
  apply contains_graphic_tail in Hc; [|done|done]. by rewrite no_whitespace in Hc.
Qed.

Lemma all_chars_app f s t : all_chars f (s +:+ t) = all_chars f s && all_chars f t.
Proof. unfold all_chars. by rewrite bytes_of_app, forallb_app. Qed.

Lemma all_chars_weaken (f g : ascii → bool) s :
  (∀ c, f c = true → g c = true) → all_chars f s = true → all_chars g s = true.
Proof. unfold all_chars. rewrite !forallb_forall. eauto. Qed.

Lemma digit_graphic c : is_ascii_digit c = true → is_ascii_graphic c = true.
Proof. unfold is_ascii_digit, is_ascii_graphic. rewrite !andb_true_iff, !N.leb_le. lia. Qed.

Lemma number_graphic z : 0 ≤ z → all_chars is_ascii_graphic (to_string z) = true.
Proof. intros [Hd _]%to_string_digits. by apply (all_chars_weaken is_ascii_digit); [apply digit_graphic|]. Qed.

Lemma number_without z c : 0 ≤ z → is_ascii_digit c = false → c ∉ bytes_of (to_string z).
Proof. intros [Hd _]%to_string_digits. by apply all_chars_without. Qed.

Lemma ip_without ip c : ip_ok ip → is_ip_char c = false → c ∉ bytes_of (ip_to_string ip).
Proof. intros Hc%ip_to_string_chars. by apply all_chars_without. Qed.

Lemma ip_graphic ip : ip_ok ip → all_chars is_ascii_graphic (ip_to_string ip) = true.
Proof. intros Hc%ip_to_string_chars. by apply ip_chars_graphic. Qed.

Lemma parse_host_port_text h p :
  normal_host h → str_contains ":" h = false → 1 ≤ p ≤ 65535 →
  parse_rule (h +:+ ":" +:+ to_string p) = Ok (HostPort h p).
Proof.
  intros Hn Hc%not_contains Hp.
  destruct (normal_host_facts h Hn) as (Hne & Hw & H1%not_contains & H2%not_contains & H3 & _).
  change (":" +:+ to_string p) with (String ":" (to_string p)).
  destruct (to_string_digits p ltac:(lia)) as [Hd _].
  assert (∀ c, is_ascii_digit c = false → c ∉ bytes_of h → c ≠ ":"%char →
    c ∉ bytes_of (h +:+ String ":" (to_string p))) as Hno.
  { intros c Hcd Hch Hc'. rewrite bytes_of_app, not_elem_of_app. split; [done|].
    apply not_elem_of_cons. split; [done|]. apply number_without; [lia|done]. }
  rewrite parse_rule_clean; [|by destruct h|split].
  - assert (str_contains "/" (h +:+ String ":" (to_string p)) = false) as ->
      by by apply not_contains, Hno.
    unfold parse_wasi_http_outbound_host_or_port.
    assert (strip_prefix "[" (h +:+ String ":" (to_string p)) = None) as ->.
    { apply starts_with_none, not_true_iff_false. rewrite starts_with_char.
      apply not_true_iff_false in H3. rewrite starts_with_char in H3. by destruct h. }
    rewrite count_char_app, (count_char_none _ h), bool_decide_false, rsplit_once_last, Hd, Hn by
      first [done|apply number_without; [lia|done]
            |change (count_char ":" (String ":" (to_string p))) with
               (count_char ":" (":" +:+ to_string p));
             rewrite count_char_app, (count_char_none _ (to_string p)) by (apply number_without; [lia|done]);
             vm_compute; lia].
    simpl. by rewrite parse_port_text.
  - apply no_whitespace_app; [done|].
    change (String ":" (to_string p)) with (":" +:+ to_string p). rewrite all_chars_app.
    by rewrite number_graphic by lia.
  - by apply not_contains, Hno.
Qed.

Lemma parse_ipv6_text b : ip_ok (V6 b) → parse_ipv6 (ip_to_string (V6 b)) = Some b.
Proof.
  intros Hb. unfold parse_ipv6, ip_to_string. rewrite bytes_of_string_of_bytes.
  by destruct (read_ipv6_print b Hb) as [-> _].
Qed.

Lemma parse_bracketed_text b p :
  ip_ok (V6 b) → 1 ≤ p ≤ 65535 →
  parse_rule ("[" +:+ ip_to_string (V6 b) +:+ "]:" +:+ to_string p)
  = Ok (HostPort (ip_to_string (V6 b)) p).
Proof.
  intros Hb Hp. set (h := ip_to_string (V6 b)).
  assert (all_chars is_ascii_graphic ("[" +:+ h +:+ "]:" +:+ to_string p) = true) as Hg.
  { rewrite !all_chars_app, number_graphic by lia. unfold h. by rewrite ip_graphic. }
  assert (∀ c, is_ascii_digit c = false → is_ip_char c = false → c ∉ bytes_of "[]:" →
    c ∉ bytes_of ("[" +:+ h +:+ "]:" +:+ to_string p)) as Hno.
  { intros c Hd Hc Hl. rewrite !bytes_of_app, !not_elem_of_app.
    split_and!; [set_solver|by apply ip_without|set_solver|apply number_without; [lia|done]]. }
  rewrite parse_rule_clean; [|done|split; [by apply graphic_no_whitespace|]];
    [|apply not_contains, Hno; [done|done|vm_compute; set_solver]].
  assert (str_contains "/" ("[" +:+ h +:+ "]:" +:+ to_string p) = false) as ->
    by (apply not_contains, Hno; [done|done|vm_compute; set_solver]).
  unfold parse_wasi_http_outbound_host_or_port.
  assert (strip_prefix "[" ("[" +:+ h +:+ "]:" +:+ to_string p) = Some (h +:+ "]:" +:+ to_string p))
    as -> by by apply strip_prefix_app.
  unfold parse_bracketed. change ("]:" +:+ to_string p) with (String "]" (String ":" (to_string p))).
  rewrite split_once_first by by apply ip_without. cbn [ok_or mbind result_bind].
  assert (parse_ipv6 h = Some b) as -> by by apply parse_ipv6_text. cbn [ok_or mbind result_bind].
  rewrite bool_decide_false by done.
  assert (strip_prefix ":" (String ":" (to_string p)) = Some (to_string p)) as ->
    by by apply strip_prefix_app.
  cbn [ok_or mbind result_bind]. by rewrite parse_port_text.
Qed.

Lemma parse_cidr_text network p :
  ip_ok network → 0 ≤ p ≤ max_prefix_of network → cidr_network_ip network p = network →
  parse_rule (ip_to_string network +:+ "/" +:+ to_string p) = Ok (Cidr network p).
Proof.
  intros Hok Hp Hnet. assert (max_prefix_of network ≤ 255) by (destruct network; simpl; lia).
  destruct (to_string_digits p ltac:(lia)) as [_ Hne].
  rewrite parse_rule_clean; [|pose proof (ip_to_string_nonempty _ Hok); by destruct (ip_to_string network)|split].
  - rewrite str_contains_app. unfold parse_wasi_http_outbound_cidr.
    change ("/" +:+ to_string p) with (String "/" (to_string p)).
    rewrite split_once_first by by apply ip_without. cbn [ok_or mbind result_bind].
    rewrite !bool_decide_false by first [done|by apply ip_to_string_nonempty].
    assert (str_contains "/" (to_string p) = false) as ->
      by (apply not_contains, number_without; [lia|done]). cbn [orb negb ensure mbind result_bind].
    rewrite parse_ip_to_string, parse_uint_to_string by (done || lia).
    cbn [ok_or map_err mbind result_bind]. rewrite (proj2 (Z.leb_le _ _)) by lia.
    simpl. by rewrite Hnet.
  - apply graphic_no_whitespace. by rewrite !all_chars_app, ip_graphic, number_graphic by (done || lia).
  - apply not_contains. rewrite !bytes_of_app, !not_elem_of_app.
    split_and!; [by apply ip_without|vm_compute; set_solver|apply number_without; [lia|done]].
Qed.

(** ** The rules a parser answers *)

Definition rule_normal (rule : WasiHttpOutboundRule) : Prop :=
  match rule with
  | Host h => normal_host h
  | HostPort h p => normal_host h ∧ 1 ≤ p ≤ 65535
  | Cidr network p =>
    ip_ok network ∧ 0 ≤ p ≤ max_prefix_of network ∧ cidr_network_ip network p = network
  end.

Lemma parse_rule_text rule : rule_normal rule → parse_rule (rule_text rule) = Ok rule.
Proof.
  destruct rule as [h|h p|network p]; simpl.
  - apply parse_host_text.
  - intros [Hn Hp]. destruct (str_contains ":" h) eqn:Hc; [|by apply parse_host_port_text].
    destruct (normal_host_facts h Hn) as (_ & _ & _ & _ & _ & Hv6).
    destruct (Hv6 Hc) as (b & Hb & ->). by apply parse_bracketed_text.
  - intros (? & ? & ?). by apply parse_cidr_text.
Qed.

Lemma normalized_normal raw h : Ipc.normalize_wasi_http_outbound_host raw = Some h → normal_host h.
Proof. by intros [? _]%normalize_idemp. Qed.

Lemma ip_normal ip : ip_ok ip → normal_host (ip_to_string ip).
Proof. apply normalize_ip. Qed.

Lemma cidr_normal value rule : parse_wasi_http_outbound_cidr value = Ok rule → rule_normal rule.
Proof.
  unfold parse_wasi_http_outbound_cidr. destruct (split_once "/" value) as [[a b]|]; [|done].
  intros H. cbn [ok_or mbind result_bind] in H. inv_ok.
  match goal with Hp : parse_uint _ _ = Ok ?p |- _ => apply parse_uint_bound in Hp; [|lia] end.
  match goal with Hl : (_ <=? _) = true |- _ => apply Z.leb_le in Hl end.
  match goal with Hi : parse_ip _ = Some ?ip |- _ => apply parse_ip_ok in Hi end.
  edestruct cidr_network_ip_facts as (? & Hm & ? & _); [done| |]; [|simpl; rewrite Hm; split_and!; [done|..]].
  all: try lia. done.
Qed.

Lemma host_or_port_normal value rule :
  parse_wasi_http_outbound_host_or_port value = Ok rule → rule_normal rule.
Proof.
  assert (∀ v (e : string), (host ← ok_or (Ipc.normalize_wasi_http_outbound_host v) e; Ok (Host host))
    = Ok rule → rule_normal rule) as Hwhole by (intros v e H; inv_ok; by eapply normalized_normal).
  unfold parse_wasi_http_outbound_host_or_port. destruct (strip_prefix "[" value) as [rest|].
  { unfold parse_bracketed. destruct (split_once "]" rest) as [[ht r]|]; [|done].
    cbn [ok_or mbind result_bind]. destruct (parse_ipv6 ht) as [b|] eqn:Hb; [|done].
    apply parse_ipv6_ok, ip_normal in Hb. cbn [ok_or mbind result_bind].
    case_bool_decide; intros Hr; inv_ok; [done|]. split; [done|by eapply port_bound]. }
  case_bool_decide.
  { intros H'. inv_ok. by eapply ip_normal, parse_ip_ok. }
  destruct (rsplit_once ":" value) as [[ht pt]|]; [|apply Hwhole].
  destruct (all_chars is_ascii_digit pt); [|apply Hwhole].
  intros H'. inv_ok. split; [by eapply normalized_normal|by eapply port_bound].
Qed.

Lemma parse_rule_normal raw rule : parse_rule raw = Ok rule → rule_normal rule.
Proof.
  unfold parse_rule. intros H. repeat (case_match; [done|]).
  case_match; [by eapply cidr_normal|by eapply host_or_port_normal].
Qed.

Lemma outbound_written raw field text :
  normalize_wasi_http_outbound_rule raw field = Ok text →
  ∃ rule, parse_rule raw = Ok rule ∧ text = rule_text rule ∧ parse_rule text = Ok rule.
Proof.
  intros Ht. pose proof (rule_agrees raw field) as Ha.
  destruct (parse_rule raw) as [rule|e] eqn:Hr; simpl in Ha; [|destruct Ha as [? Ha]; congruence].
  rewrite Ht in Ha. injection Ha as ->. exists rule. split_and!; [done|done|].
  by eapply parse_rule_text, parse_rule_normal.
Qed.

(** C14 (equivalence). The client accepts an outbound rule of [imago.toml] exactly when the node's own
    parser accepts it, and the text it writes into the manifest is read by the node as the rule
    the user wrote.  Normalizing that text again changes nothing, so two spellings of a rule are
    written as the same text exactly when they are the same rule. *)
Theorem outbound_rule_written raw field :
  match parse_rule raw with
  | Ok rule => ∃ text, normalize_wasi_http_outbound_rule raw field = Ok text ∧
      parse_rule text = Ok rule ∧ normalize_wasi_http_outbound_rule text field = Ok text ∧
      ∀ raw' rule', parse_rule raw' = Ok rule' →
        normalize_wasi_http_outbound_rule raw' field = Ok text ↔ rule' = rule
  | Err _ => ∃ e, normalize_wasi_http_outbound_rule raw field = Err e
  end.
Proof.
  pose proof (rule_agrees raw field) as Ha. destruct (parse_rule raw) as [rule|e] eqn:Hr; [|done].
  assert (parse_rule (rule_text rule) = Ok rule) as Hp by by eapply parse_rule_text, parse_rule_normal.
  exists (rule_text rule). split_and!; [done|done|by apply agrees_parse|].
  intros raw' rule' Hr'. rewrite (agrees_parse raw' rule' field Hr'). split; [|by intros ->].
  intros [= Ht]. apply parse_rule_normal, parse_rule_text in Hr'. rewrite Ht, Hp in Hr'. by injection Hr'.
Qed.
