(* ===== verification/BuildTheorems.v ===== *)
(** * What the client builds is what the node accepts

    The manifest sections of [BuildConfig] meet the validation of the node ([Manifest]) and the
    capability checks of the runner ([Plugins]).

    Shown: the component is stored under the digest of its content; the fields the client writes
    pass the checks of the node, which reads from them what the client wrote; and which capability
    rules mean the same to the client and to the runner. *)

From S2P Require Import Prelude Protocol Text IpAddr Ipc Supervisor Paths Tree TreeFacts Manifest Launch Orchestrator Deploy Plugins Config ConfigTheorems BuildConfig OutboundNormal.

Open Scope string_scope.
Open Scope Z_scope.

(** ** Lists *)

Lemma collect_indexed_Forall {A B} (P : B → Prop) (f : Z → A → bresult B) : ∀ values index out,
  (∀ i v x, f i v = Ok x → P x) → collect_indexed f index values = Ok out → Forall P out.
Proof.
  induction values as [|v values IH]; intros index out Hf; simpl; [by intros [= <-]|].
  intros H. inv_ok. constructor; [by eapply Hf|by eapply IH].
Qed.

Lemma fold_indexed_ext {A S} (f : Z → A → S → iresult S) (g : S → A → S) : ∀ values index acc,
  Forall (λ v, ∀ i s, f i v s = Ok (g s v)) values →
  fold_indexed f index values acc = Ok (foldl g acc values).
Proof.
  induction values as [|v values IH]; intros index acc; [done|].
  intros [Hv Hvs]%Forall_cons. cbn [fold_indexed]. rewrite Hv. by apply IH.
Qed.

(** ** Names, HTTP, sockets *)

Lemma service_name_accepted name u : validate_service_name name = Ok u → Manifest.validate_service_name name = Ok tt.
Proof.
  unfold validate_service_name, Manifest.validate_service_name. intros H. inv_ok.
  repeat match goal with Hn : negb _ = true |- _ => apply negb_true_iff in Hn; rewrite Hn end.
  by apply ensure_Ok.
Qed.

(** The [type] of a manifest on the wire. *)
Definition type_text (a : RunnerAppType) : string :=
  match a with Cli => "cli" | Rpc => "rpc" | Http => "http" | Socket => "socket" end.

Lemma app_type_known text u : validate_app_type text = Ok u → ∃ a, text = type_text a.
Proof.
  unfold validate_app_type. intros H. inv_ok. apply bool_decide_eq_true in H.
  repeat (apply elem_of_cons in H as [->|H]); [by exists Cli|by exists Http|by exists Socket|by exists Rpc|].
  by apply not_elem_of_nil in H.
Qed.

Lemma listen_addr_parsed field text addr :
  parse_listen_addr field text = Ok addr → is_Some (parse_ip addr).
Proof. unfold parse_listen_addr. intros H. inv_ok. by eexists. Qed.

Lemma port_parsed field raw port : parse_port field raw = Ok port → port =? 0 = false.
Proof. unfold parse_port. intros H. inv_ok. by apply negb_true_iff. Qed.

Lemma body_parsed value bytes :
  parse_max_body_bytes value = Ok bytes →
  (bytes =? 0) || (MAX_HTTP_MAX_BODY_BYTES <? bytes) = false.
Proof.
  unfold parse_max_body_bytes. destruct value as [v|]; [|by intros [= <-]].
  intros H. inv_ok. by apply negb_true_iff.
Qed.

Section sections.
Context `{ManifestCrates}.

Lemma type_http a : bool_decide (type_text a = "http") = bool_decide (a = Http).
Proof. by destruct a. Qed.
Lemma type_socket a : bool_decide (type_text a = "socket") = bool_decide (a = Socket).
Proof. by destruct a. Qed.

Lemma http_accepted root a http m :
  parse_http_section root (type_text a) = Ok http → m_app_type m = a → m_http m = http →
  validate_http m = Ok (mt_port <$> http, mt_listen_addr <$> http, mt_max_body_bytes <$> http).
Proof.
  unfold parse_http_section, validate_http.
  rewrite type_http. intros Hp -> Hm. destruct (decide (a = Http)) as [->|Ha].
  - rewrite bool_decide_true in Hp by done. cbn [negb] in Hp. inv_ok.
    match goal with Hb : parse_port _ _ = Ok _ |- _ => apply port_parsed in Hb as Hport end.
    match goal with Hb : parse_max_body_bytes _ = Ok _ |- _ => apply body_parsed in Hb as Hbody end.
    match goal with Hb : match _ with Some _ => _ | None => _ end = Ok ?addr |- _ =>
      assert (is_Some (parse_ip addr)) as [ip Hip] end.
    { case_match; inv_ok; [by eapply listen_addr_parsed|by eexists]. }
    rewrite Hm. cbn [ok_or mbind result_bind mt_port mt_listen_addr mt_max_body_bytes].
    by rewrite Hport, Hip, Hbody.
  - rewrite bool_decide_false in Hp by done. cbn [negb] in Hp. inv_ok. rewrite Hm. by destruct a.
Qed.

Lemma socket_accepted root a socket m :
  parse_socket_section root (type_text a) = Ok socket → m_app_type m = a → m_socket m = socket →
  validate_socket m = Ok socket.
Proof.
  unfold parse_socket_section, validate_socket.
  rewrite type_socket. intros Hp -> Hm. destruct (decide (a = Socket)) as [->|Ha].
  - rewrite bool_decide_true in Hp by done. cbn [negb] in Hp. inv_ok.
    match goal with Hb : parse_port _ _ = Ok _ |- _ => apply port_parsed in Hb as Hport end.
    match goal with Hb : parse_listen_addr _ _ = Ok _ |- _ =>
      apply listen_addr_parsed in Hb as [ip Hip] end.
    rewrite Hm. cbn [ok_or mbind result_bind sock_listen_port sock_listen_addr]. by rewrite Hport, Hip.
  - rewrite bool_decide_false in Hp by done. cbn [negb] in Hp. inv_ok. rewrite Hm. by destruct a.
Qed.
End sections.

(** ** Paths *)

Lemma join_slash_split s : join_slash (split "/"%char s) = s.
Proof.
  induction s as [|c s IH]; [done|]. cbn [split]. pose proof (split_nonnil "/" s) as Hn.
  destruct (split "/" s) as [|first rest]; [done|]. case_decide as Hc; [rewrite Hc|].
  - change (join_slash ("" :: first :: rest)) with (String "/" (join_slash (first :: rest))). by rewrite IH.
  - rewrite <-IH. by destruct rest.
Qed.

Lemma names_of_inj a b : names_of a = names_of b → a = b.
Proof.
  unfold names_of. pose proof (split_nonnil "/" a). pose proof (split_nonnil "/" b).
  repeat case_decide; simplify_eq/=; [done|congruence|congruence|].
  intros Hs. by rewrite <-(join_slash_split a), Hs, join_slash_split.
Qed.

Lemma components_with_policy traversal invalid : ∀ cs acc n,
  normalize_components_with_policy false traversal acc cs = Ok n →
  normalize_components invalid acc cs = Ok n.
Proof.
  induction cs as [|c cs IH]; intros acc n; [by intros [= <-]|].
  destruct c as [| | |name]; cbn [normalize_components_with_policy normalize_components];
    [done|apply IH|done|apply IH].
Qed.

Lemma normalize_relative_path_normalizes raw field n :
  normalize_relative_path raw field = Ok n → normalizes raw n.
Proof.
  unfold normalize_relative_path, normalize_relative_path_with_policy. intros Hn. inv_ok.
  match goal with Hc : normalize_components_with_policy _ _ _ _ = Ok _ |- _ =>
    apply (components_with_policy _ (map_bad_manifest "")) in Hc as Hm end.
  eapply (normalize_checked (map_bad_manifest "") (map_bad_manifest "")). rewrite Hm. simpl.
  match goal with Hne : negb _ = true |- context [bool_decide (n = "")] =>
    by rewrite (proj1 (negb_true_iff _) Hne) end.
Qed.

(** A path that a normalizer answers. *)
Definition normal_path (n : string) : Prop := n ≠ "" ∧ Forall proper (names_of n).

Lemma normalizes_normal raw n : normalizes raw n → normal_path n.
Proof. by intros (? & ? & _). Qed.

Lemma normal_path_text n : normal_path n → normalized_path_to_string n = n.
Proof.
  intros [Hne Hp]. unfold normalized_path_to_string. rewrite components_names by done.
  rewrite <-list_fmap_compose. unfold compose. simpl. rewrite list_fmap_id.
  unfold names_of. rewrite decide_False by done. apply join_slash_split.
Qed.

Lemma normalize_components_normal invalid : ∀ names acc,
  Forall proper names → Forall proper (names_of acc) →
  ∃ r, normalize_components invalid acc (Normal <$> names) = Ok r ∧ names_of r = (names_of acc ++ names)%list.
Proof.
  induction names as [|name names IH]; intros acc Hn Ha; cbn.
  - exists acc. by rewrite app_nil_r.
  - apply Forall_cons in Hn as [Hn Hns]. pose proof (names_of_join acc name Hn Ha) as Hj.
    destruct (IH (path_join acc name)) as (r & Hr & Hnames); [done| |].
    + rewrite Hj. apply Forall_app. split; [done|]. by constructor.
    + exists r. by rewrite Hnames, Hj, <-app_assoc.
Qed.

(** The node leaves a normalized path as it is. *)
Lemma normal_path_accepted n field :
  normal_path n → windows_prefixed n = false → Manifest.normalize_relative_path n field = Ok n.
Proof.
  intros [Hne Hp] Hw. unfold Manifest.normalize_relative_path.
  rewrite bool_decide_false by done.
  assert (is_absolute n = false) as ->.
  { unfold is_absolute, names_of in *. rewrite decide_False in Hp by done.
    by apply relative_names in Hp as (? & _). }
  rewrite Hw, components_names by done.
  destruct (normalize_components_normal
    (map_bad_manifest (field +:+ " contains invalid path traversal: " +:+ n)) (names_of n) "" Hp)
    as (r & -> & Hr); [constructor|].
  rewrite app_nil_l in Hr. apply names_of_inj in Hr as ->. simpl. by rewrite bool_decide_false.
Qed.

Lemma guest_path_segments_in traversal : ∀ cs segments,
  guest_path_segments traversal cs = Ok segments → Forall (λ s, Normal s ∈ cs) segments.
Proof.
  induction cs as [|c cs IH]; intros segments; simpl; [intros [= <-]; constructor|].
  destruct c as [| | |s]; [|done|done|].
  - intros H%IH. eapply Forall_impl; [exact H|]. by right.
  - intros H. inv_ok. constructor; [by left|]. eapply Forall_impl; [by apply IH|]. by right.
Qed.

Lemma guest_segments_normal field raw segments :
  guest_segments field raw (Normal <$> segments) = Ok segments.
Proof. induction segments as [|s segments IH]; [done|]. cbn. by rewrite IH. Qed.

(** The node leaves a guest path as it is, when it neither ends in a blank nor starts with a
    slash and a colon. *)
Lemma guest_path_accepted raw field g field' :
  normalize_wasi_guest_path raw field = Ok g → trim g = g → windows_prefixed g = false →
  Manifest.normalize_wasi_guest_path g field' = Ok g.
Proof.
  unfold normalize_wasi_guest_path. intros Hg Ht Hw. inv_ok.
  match goal with G : guest_path_segments _ _ = Ok ?l |- _ =>
    rename l into segments; apply guest_path_segments_in in G as Hin end.
  assert (Forall proper segments) as Hp
    by (eapply Forall_impl; [exact Hin|]; intros s Hs; by apply (components_proper (trim raw))).
  assert (match segments with [] => "/" | _ :: _ => "/" +:+ join_slash segments end
          = "/" +:+ join_slash segments) as Hg by by destruct segments.
  rewrite Hg in Ht, Hw |- *. unfold Manifest.normalize_wasi_guest_path. rewrite Ht.
  rewrite bool_decide_false, Hw, rooted_components by done.
  assert (str_contains "\" ("/" +:+ join_slash segments) = false) as ->.
  { apply not_contains. intros Hb. apply elem_of_cons in Hb as [?|[?|(s & Hs & Hb)]%join_slash_chars]; [done..|].
    match goal with Hn : negb (str_contains "\" raw) = true |- _ =>
      apply negb_true_iff, not_contains in Hn; apply Hn end.
    apply trim_chars. rewrite Forall_forall in Hin. by eapply components_chars; [apply Hin|]. }
  assert (is_absolute ("/" +:+ join_slash segments) = true) as -> by by apply starts_with_char.
  cbn [negb guest_segments]. rewrite guest_segments_normal. simpl. done.
Qed.

(** ** Capabilities *)

Lemma sorted_set_ext l k : (∀ v, v ∈ l ↔ v ∈ k) → sorted_set l = sorted_set k.
Proof.
  intros Hlk. unfold sorted_set. f_equal. apply map_eq. intros v.
  assert (∀ l, is_Some ((list_to_map ((λ v, (v, tt)) <$> l) : gmap string unit) !! v) ↔ v ∈ l) as Hd.
  { intros l'. rewrite <-(elem_of_sorted_set l'). unfold sorted_set. by rewrite elem_of_btree_keys. }
  apply option_eq. intros []. specialize (Hlk v). rewrite <-!Hd in Hlk.
  split; intros E; [destruct (proj1 Hlk) as [[] ?]|destruct (proj2 Hlk) as [[] ?]]; eauto.
Qed.

Lemma normalize_string_set_idemp values :
  normalize_string_set (normalize_string_set values) = normalize_string_set values.
Proof.
  unfold normalize_string_set. apply sorted_set_ext. intros v.
  rewrite !list_elem_of_filter, !list_elem_of_fmap. split.
  - intros [Hne (w & -> & Hw)]. rewrite elem_of_sorted_set, list_elem_of_filter, list_elem_of_fmap in Hw.
    destruct Hw as [Hw (u & -> & Hu)]. rewrite trim_idemp in Hne |- *. eauto.
  - intros [Hne (w & -> & Hw)]. split; [done|]. exists (trim w). rewrite trim_idemp. split; [done|].
    rewrite elem_of_sorted_set, list_elem_of_filter, list_elem_of_fmap. eauto.
Qed.

Definition rules_normal (m : gmap string (list string)) : Prop :=
  map_Forall (λ key rules, is_blank key = false ∧ rules ≠ [] ∧ normalize_string_set rules = rules) m.

Lemma rules_normal_kept m : rules_normal m → normalize_capability_rule_map m = m.
Proof.
  intros Hm. apply map_eq. intros key. unfold normalize_capability_rule_map. rewrite map_lookup_imap.
  destruct (m !! key) as [rules|] eqn:E; [|done]. simpl.
  destruct (Hm key rules E) as (-> & Hne & ->). by rewrite bool_decide_false.
Qed.

Lemma rule_list_normal value field rules :
  parse_capability_rule_list value field = Ok rules → normalize_string_set rules = rules.
Proof. unfold parse_capability_rule_list. intros H. inv_ok. apply normalize_string_set_idemp. Qed.

Lemma rule_entries_normal field : ∀ entries m m',
  rules_normal m → parse_rule_entries field entries m = Ok m' → rules_normal m'.
Proof.
  induction entries as [|[key value] entries IH]; intros m m' Hm; simpl; [by intros [= <-]|].
  intros H. inv_ok. match goal with Hr : parse_capability_rule_list _ _ = Ok ?l |- _ =>
    apply rule_list_normal in Hr; rename l into rules end.
  match goal with Hb : negb (is_blank key) = true |- _ => apply negb_true_iff in Hb end.
  eapply IH; [|done]. destruct rules; [done|]. by apply map_Forall_insert_2.
Qed.

Lemma rule_table_normal value field m :
  parse_capability_rule_table value field = Ok m → rules_normal m.
Proof.
  unfold parse_capability_rule_table. destruct value as [value|].
  - intros H. inv_ok. by eapply rule_entries_normal; [apply map_Forall_empty|].
  - intros [= <-]. apply map_Forall_empty.
Qed.

Lemma allow_all_normal : rules_normal allow_all.
Proof. apply map_Forall_singleton. split_and!; [reflexivity|done|reflexivity]. Qed.

Lemma deps_rules_normal value field m :
  parse_deps_capability_rules value field = Ok m → rules_normal m.
Proof.
  unfold parse_deps_capability_rules. destruct value as [value|]; [|intros [= <-]; apply map_Forall_empty].
  destruct (as_str value); intros H; inv_ok; [apply allow_all_normal|by eapply rule_table_normal].
Qed.

Lemma wasi_rules_normal value field m :
  parse_wasi_capability_rules value field = Ok m → rules_normal m.
Proof.
  unfold parse_wasi_capability_rules. destruct value as [value|]; [|intros [= <-]; apply map_Forall_empty].
  destruct (as_bool value) as [[]|]; [intros [= <-]; apply allow_all_normal
    |intros [= <-]; apply map_Forall_empty|apply rule_table_normal].
Qed.

Lemma capabilities_accepted root policy :
  parse_root_capabilities root = Ok policy → normalize_capability_policy policy = policy.
Proof.
  unfold parse_root_capabilities, parse_capability_policy.
  destruct (root !! "capabilities") as [value|]; [|intros [= <-]; reflexivity].
  intros H. inv_ok. unfold normalize_capability_policy. cbn [cap_privileged cap_deps cap_wasi].
  f_equal; apply rules_normal_kept; [by eapply deps_rules_normal|by eapply wasi_rules_normal].
Qed.

(** ** Arguments and outbound rules *)

Lemma foldl_snoc {A B} (f : A → B) l acc : foldl (λ s v, (s ++ [f v])%list) acc l = (acc ++ (f <$> l))%list.
Proof.
  revert acc. induction l as [|x l IH]; intros acc; cbn; [by rewrite app_nil_r|].
  by rewrite IH, <-app_assoc.
Qed.

Lemma args_accepted value args : parse_resources_args value = Ok args → resolve_args args = Ok args.
Proof.
  unfold parse_resources_args. intros Ha.
  assert (Forall (λ a, is_blank a = false ∧ trim a = a) args) as Hf.
  { destruct value as [v|]; [|injection Ha as <-; constructor]. inv_ok.
    eapply collect_indexed_Forall; [|done]. intros i item arg Hy. cbv beta zeta in Hy. inv_ok.
    rewrite trim_idemp. split; [|done]. apply trim_not_blank.
    match goal with Hn : negb _ = true |- _ => by apply negb_true_iff, bool_decide_eq_false in Hn end. }
  unfold resolve_args. rewrite (fold_indexed_ext _ (λ s v, (s ++ [trim v])%list)).
  - rewrite foldl_snoc. simpl. f_equal. clear Ha. induction Hf as [|x l [_ Hx] _ IH]; [done|]. cbn. by rewrite Hx, IH.
  - eapply Forall_impl; [exact Hf|]. intros a [Hb _] i s. by rewrite Hb.
Qed.

(** The rules that some of the given texts stand for. *)
Definition rules_of (values : list string) (rule : WasiHttpOutboundRule) : Prop :=
  ∃ v, v ∈ values ∧ parse_rule v = Ok rule.
Definition parses (value : string) : Prop := ∃ rule, parse_rule value = Ok rule.

Lemma elem_of_push_new rule rules r : r ∈ push_new rule rules ↔ r = rule ∨ r ∈ rules.
Proof. unfold push_new. case_bool_decide; set_solver. Qed.

Lemma push_rules (err : Z → string → string → ImagodError) : ∀ values index acc,
  Forall parses values →
  ∃ rules, fold_indexed (λ index raw rules,
      rule ← map_err (err index raw) (parse_rule raw); Ok (push_new rule rules)) index values acc = Ok rules ∧
    ∀ r, r ∈ rules ↔ r ∈ acc ∨ rules_of values r.
Proof.
  unfold rules_of. induction values as [|v values IH]; intros index acc.
  - intros _. exists acc. split; [done|]. set_solver.
  - intros [[rule Hr] Hv]%Forall_cons. cbn [fold_indexed]. rewrite Hr. cbn [map_err mbind result_bind].
    destruct (IH (index + 1) (push_new rule acc) Hv) as (rules & -> & Hin). exists rules.
    split; [done|]. intros r. rewrite Hin, elem_of_push_new. split.
    + intros [[->|?]|(x & ? & ?)]; [right; exists v; set_solver|by left|right; exists x; set_solver].
    + intros [?|(x & [->|?]%elem_of_cons & Hx)]; [by left; right|left; left; congruence|right; eauto].
Qed.

Lemma outbound_accepted values field :
  Forall parses values →
  ∃ rules, resolve_wasi_http_outbound_rules values field = Ok rules ∧
    ∀ r, r ∈ rules ↔ rules_of DEFAULT_WASI_HTTP_OUTBOUND r ∨ rules_of values r.
Proof.
  intros Hv. unfold resolve_wasi_http_outbound_rules.
  destruct (push_rules (λ _ default_value err, map_bad_manifest ("failed to build default " +:+ field
    +:+ " rule '" +:+ default_value +:+ "': " +:+ err)) DEFAULT_WASI_HTTP_OUTBOUND 0 [])
    as (defaults & -> & Hd).
  { repeat constructor; eexists; vm_compute; reflexivity. }
  destruct (push_rules (λ index _ err, map_bad_manifest (at_index field index (" is invalid: " +:+ err)))
    values 0 defaults Hv) as (rules & Hr & Hin).
  exists rules. split; [done|]. intros r. rewrite Hin, Hd, elem_of_nil. tauto.
Qed.

Lemma as_str_Some v s : as_str v = Some s ↔ v = TString s.
Proof. by destruct v; simpl; split; intros [= ->]. Qed.

Lemma collect_outbound_spec : ∀ array index acc out,
  Forall parses acc → collect_outbound index array acc = Ok out →
  Forall parses out ∧
  ∀ r, rules_of out r ↔ rules_of acc r ∨ ∃ raw, TString raw ∈ array ∧ parse_rule raw = Ok r.
Proof.
  unfold rules_of. induction array as [|value array IH]; intros index acc out Hacc; simpl.
  - intros [= <-]. split; [done|]. set_solver.
  - intros H. inv_ok. match goal with Hs : as_str _ = Some ?raw |- _ =>
      apply as_str_Some in Hs as ->; rename raw into raw' end.
    match goal with Hn : normalize_wasi_http_outbound_rule _ _ = Ok ?text |- _ =>
      apply outbound_written in Hn as (rule & Hraw & _ & Htext); rename text into text' end.
    match goal with Hc : collect_outbound _ _ ?acc' = Ok _ |- _ =>
      assert (Forall parses acc' ∧ ∀ r, rules_of acc' r ↔ rules_of acc r ∨ r = rule) as [Hp Hr];
      [|destruct (IH _ _ _ Hp Hc) as [? Hout]] end.
    { unfold rules_of. case_bool_decide as Hin.
      - split; [done|]. intros r. split; [by left|]. intros [?| ->]; eauto.
      - split; [apply Forall_app; split; [done|]; repeat constructor; by exists rule|].
        intros r. split.
        + intros (v & [?| ->%list_elem_of_singleton]%elem_of_app & Hv); [eauto|right; congruence].
        + intros [(v & ? & ?)| ->]; [exists v|exists text']; set_solver. }
    split; [done|]. intros r. rewrite Hout. unfold rules_of in Hr. rewrite Hr. split.
    + intros [[?| ->]|(raw & ? & ?)]; [by left|right; exists raw'; set_solver|right; exists raw; set_solver].
    + intros [?|(raw & [[= ->]|?]%elem_of_cons & Hx)]; [by left; left|left; right; congruence|eauto].
Qed.

(** ** Assets and mounts *)

Section resources.
Context {JS : Json} `{BJ : !BuildJson} `{MC : !ManifestCrates}.

Definition asset_normal (a : AssetSource) : Prop :=
  as_path a = as_source_path a ∧ normal_path (as_source_path a).

Lemma asset_items_normal io project_root : ∀ items index t t' assets,
  parse_asset_items io project_root index items t = (t', Ok assets) → Forall asset_normal assets.
Proof.
  induction items as [|item items IH]; intros index t t' assets; simpl; intros H; inv_cli; [constructor|].
  match goal with Hn : normalize_relative_path _ _ = Ok _ |- _ =>
    apply normalize_relative_path_normalizes, normalizes_normal in Hn end.
  constructor; [|by eapply IH]. split; [by apply normal_path_text|done].
Qed.

Lemma assets_normal io value project_root t t' assets :
  parse_assets io value project_root t = (t', Ok assets) → Forall asset_normal assets.
Proof.
  unfold parse_assets. destruct value; intros H; inv_cli; [by eapply asset_items_normal|constructor].
Qed.

(** The directory of an asset as the client and the node know it. *)
Definition asset_dir_of (a : AssetSource) : string := parent_dir (as_source_path a).

Lemma elem_of_asset_dirs assets : ∀ (allowed : gset string) dir,
  dir ∈ foldl (λ allowed asset, let parent := parent_dir (as_source_path asset) in
    if bool_decide (parent = "") then allowed else {[parent]} ∪ allowed) allowed assets →
  dir ∈ allowed ∨ dir ≠ "" ∧ ∃ a, a ∈ assets ∧ dir = asset_dir_of a.
Proof.
  induction assets as [|a assets IH]; intros allowed dir; [by left|]. cbn [foldl].
  intros [Hin|(Hne & x & Hx & ->)]%IH; [|right; split; [done|]; exists x; split; [by right|done]].
  cbv zeta in Hin. case_bool_decide as Hp; [by left|].
  apply elem_of_union in Hin as [->%elem_of_singleton|?]; [|by left].
  right. split; [done|]. exists a. split; [by left|done].
Qed.

Lemma parent_prefixed n :
  windows_prefixed n = false → windows_prefixed (parent_dir n) = false.
Proof.
  intros Hn. unfold parent_dir. destruct (rsplit_once "/" n) as [[dir x]|] eqn:E; [|done].
  apply rsplit_once_some in E as ->. by destruct dir as [|c1 [|c2 dir]].
Qed.

(** The paths the node's guard against Windows prefixes leaves alone. *)
Definition assets_plain (assets : list AssetSource) : Prop :=
  Forall (λ a, windows_prefixed (as_path a) = false) assets.

Lemma asset_dirs_accepted assets m :
  Forall asset_normal assets → assets_plain assets → m_assets m = as_path <$> assets →
  collect_allowed_asset_dirs m = Ok (collect_allowed_resource_asset_dirs assets).
Proof.
  intros Hn Hw Hm. unfold collect_allowed_asset_dirs, collect_allowed_resource_asset_dirs. rewrite Hm.
  rewrite (fold_indexed_ext _ (λ dirs path, let parent := parent_dir path in
    if bool_decide (parent = "") then dirs else {[parent]} ∪ dirs)).
  - f_equal. generalize (∅ : gset string). clear Hm Hw.
    induction Hn as [|a assets [Ha _] _ IH]; intros dirs; [done|]. cbn. rewrite Ha. apply IH.
  - apply Forall_fmap. unfold compose. apply Forall_forall. intros a Ha i s.
    unfold assets_plain in Hw. rewrite Forall_forall in Hn, Hw. destruct (Hn a Ha) as [E ?]. specialize (Hw a Ha).
    rewrite E in Hw |- *. by rewrite normal_path_accepted.
Qed.

(** A mount as the client writes it. *)
Definition mount_written (assets : list AssetSource) (e : ManifestWasiMount) : Prop :=
  normal_path (mw_asset_dir e) ∧ mw_asset_dir e ∈ collect_allowed_resource_asset_dirs assets ∧
  ∃ raw field, normalize_wasi_guest_path raw field = Ok (mw_guest_path e).

Lemma mount_entries_written value field assets mounts :
  parse_resource_mount_entries value field (collect_allowed_resource_asset_dirs assets) = Ok mounts →
  Forall (mount_written assets) mounts.
Proof.
  unfold parse_resource_mount_entries. destruct value as [value|]; [|intros [= <-]; constructor].
  intros H. inv_ok. eapply collect_indexed_Forall; [|done]. intros i item e He.
  unfold parse_mount_entry in He. cbv zeta in He. inv_ok.
  match goal with Hn : normalize_relative_path _ _ = Ok _ |- _ =>
    apply normalize_relative_path_normalizes, normalizes_normal in Hn as Hnp end.
  unfold mount_written. cbn [mw_asset_dir mw_guest_path]. rewrite (normal_path_text _ Hnp).
  split_and!; [done|by eapply bool_decide_eq_true|by eauto].
Qed.

(** The guest paths that trimming and the guard against Windows prefixes leave alone. *)
Definition guest_plain (e : ManifestWasiMount) : Prop :=
  trim (mw_guest_path e) = mw_guest_path e ∧ windows_prefixed (mw_guest_path e) = false.

(** The assets lie in the release. *)
Definition released (release_dir : string) (assets : list AssetSource) (t : tree) : Prop :=
  Forall (λ a, asset_dir_of a ≠ "" →
    t !! key (path_join release_dir (asset_dir_of a)) = Some Directory) assets.

Definition mount_of (release_dir : string) (read_only : bool) (e : ManifestWasiMount) : RunnerWasiMount :=
  {| mount_host_path := path_join release_dir (mw_asset_dir e); mount_guest_path := mw_guest_path e;
     mount_read_only := read_only |}.

Lemma mount_entry_accepted io release_dir field read_only assets index e acc t :
  (∀ k, io_fault io OpMeta k = None) → assets_plain assets → Forall asset_normal assets →
  released release_dir assets t → mount_written assets e → guest_plain e →
  mw_guest_path e ∉ seen_guest_paths acc → mw_asset_dir e ∉ seen_asset_dirs acc →
  resolve_wasi_mount_entry io release_dir field read_only (collect_allowed_resource_asset_dirs assets)
    index e acc t =
  (t, Ok {| seen_guest_paths := {[mw_guest_path e]} ∪ seen_guest_paths acc;
            seen_asset_dirs := {[mw_asset_dir e]} ∪ seen_asset_dirs acc;
            resolved_mounts := (resolved_mounts acc ++ [mount_of release_dir read_only e])%list |}).
Proof.
  intros Hio Hplain Hnormal Hrel (Hnp & Hin & raw & f & Hg) [Ht Hw] Hsg Hsa.
  destruct (elem_of_asset_dirs assets ∅ (mw_asset_dir e) Hin) as [?%elem_of_empty|(Hne & a & Ha & Hdir)]; [done|].
  assert (windows_prefixed (mw_asset_dir e) = false) as Hwd.
  { unfold assets_plain in Hplain. rewrite Forall_forall in Hplain, Hnormal. rewrite Hdir.
    unfold asset_dir_of. destruct (Hnormal a Ha) as [<- _]. by apply parent_prefixed, Hplain. }
  assert (t !! key (path_join release_dir (mw_asset_dir e)) = Some Directory) as Hd.
  { unfold released in Hrel. rewrite Forall_forall in Hrel. rewrite Hdir in Hne |- *. by apply Hrel. }
  assert (path_starts_with (path_join release_dir (mw_asset_dir e)) release_dir = true) as Hs.
  { apply bool_decide_eq_true. destruct Hnp. rewrite components_join_names by done. by apply prefix_app_r. }
  unfold resolve_wasi_mount_entry, Tree.pure, Tree.lift, metadata, guarded, mbind, fsm_bind.
  rewrite normal_path_accepted by done. rewrite !bool_decide_true by done. cbn [ensure].
  rewrite (guest_path_accepted raw f) by done. rewrite bool_decide_true by done. cbn [ensure].
  rewrite Hs. cbn [ensure]. by rewrite Hio, Hd.
Qed.

(** What holds of all the entries of one manifest. *)
Section release.
Context (io : FsIo) (release_dir : string) (assets : list AssetSource) (t : tree).
Hypothesis Hio : ∀ k, io_fault io OpMeta k = None.
Hypothesis Hplain : assets_plain assets.
Hypothesis Hnormal : Forall asset_normal assets.
Hypothesis Hrel : released release_dir assets t.

Lemma mount_entries_accepted field read_only : ∀ es rest index acc,
  Forall (mount_written assets) es → Forall guest_plain es →
  check_mounts_unique (seen_guest_paths acc) (seen_asset_dirs acc) (es ++ rest)%list = Ok tt →
  ∃ acc', resolve_wasi_mount_entries io release_dir field read_only
      (collect_allowed_resource_asset_dirs assets) index es acc t = (t, Ok acc') ∧
    resolved_mounts acc' = (resolved_mounts acc ++ (mount_of release_dir read_only <$> es))%list ∧
    check_mounts_unique (seen_guest_paths acc') (seen_asset_dirs acc') rest = Ok tt.
Proof.
  induction es as [|e es IH]; intros rest index acc Hw Hg Hu.
  - exists acc. cbn. by rewrite app_nil_r.
  - apply Forall_cons in Hw as [He Hw]. apply Forall_cons in Hg as [Hge Hg].
    cbn in Hu. inv_ok. repeat match goal with Hb : bool_decide _ = true |- _ =>
      apply bool_decide_eq_true in Hb end.
    cbn [resolve_wasi_mount_entries]. unfold mbind at 1, fsm_bind at 1.
    rewrite mount_entry_accepted by done.
    edestruct IH as (acc' & Hr & Hm & Hc); [done|done| |exists acc'; split_and!; [done| |done]]; [done|].
    rewrite Hm. cbn [resolved_mounts]. by rewrite <-app_assoc.
Qed.

Lemma mounts_accepted mounts read_only_mounts :
  Forall (mount_written assets) mounts → Forall (mount_written assets) read_only_mounts →
  Forall guest_plain mounts → Forall guest_plain read_only_mounts →
  validate_resource_mount_uniqueness mounts read_only_mounts = Ok tt →
  resolve_wasi_mounts io release_dir mounts read_only_mounts
    (collect_allowed_resource_asset_dirs assets) t =
  (t, Ok ((mount_of release_dir false <$> mounts) ++ (mount_of release_dir true <$> read_only_mounts))%list).
Proof.
  intros Hw Hwr Hg Hgr Hu. unfold resolve_wasi_mounts.
  destruct (mount_entries_accepted "manifest.resources.mounts" false mounts read_only_mounts 0 no_mounts)
    as (acc & Hr & Hm & Hc); [done..|].
  unfold mbind, fsm_bind. rewrite Hr. rewrite <-(app_nil_r read_only_mounts) in Hc.
  destruct (mount_entries_accepted "manifest.resources.read_only_mounts" true read_only_mounts [] 0 acc)
    as (acc' & -> & Hm' & _); [done..|]. unfold mret, fsm_ret. by rewrite Hm', Hm.
Qed.

(** The parts of a [resources] section that the node reads as the client wrote them. *)
Definition resources_plain (r : ManifestResourcesConfig) : Prop :=
  Forall (λ k, is_blank k = false) (btree_keys (mr_env r)) ∧
  Forall guest_plain (mr_mounts r) ∧ Forall guest_plain (mr_read_only_mounts r).

(** The outbound rules a document writes. *)
Definition written_rules (root : table) (rule : WasiHttpOutboundRule) : Prop :=
  ∃ resources array raw, root !! "resources" = Some (TTable resources) ∧
    resources !! "http_outbound" = Some (TArray array) ∧ TString raw ∈ array ∧ parse_rule raw = Ok rule.

Lemma outbound_section value rules :
  parse_resources_http_outbound value = Ok rules →
  Forall parses rules ∧
  ∀ r, rules_of rules r ↔
    ∃ array raw, value = Some (TArray array) ∧ TString raw ∈ array ∧ parse_rule raw = Ok r.
Proof.
  unfold parse_resources_http_outbound, rules_of. destruct value as [value|].
  - intros Hc. inv_ok. destruct value; simplify_eq/=.
    match goal with Hc : collect_outbound _ _ _ = Ok _ |- _ =>
      destruct (collect_outbound_spec _ _ _ _ (Forall_nil_2 _) Hc) as [? Hr] end.
    split; [done|]. intros r. unfold rules_of in Hr. rewrite Hr. split.
    + intros [(v & ?%not_elem_of_nil & _)|(raw & ? & ?)]; [done|eauto].
    + intros (array & raw & [= ->] & ? & ?). right. eauto.
  - intros [= <-]. split; [constructor|]. intros r. split.
    + by intros (v & ?%not_elem_of_nil & _).
    + by intros (? & ? & ? & _).
Qed.

Lemma resources_written root r :
  parse_resources_section root assets = Ok (Some r) →
  resolve_args (mr_args r) = Ok (mr_args r) ∧ Forall parses (mr_http_outbound r) ∧
  (∀ rule, rules_of (mr_http_outbound r) rule ↔ written_rules root rule) ∧
  Forall (mount_written assets) (mr_mounts r) ∧ Forall (mount_written assets) (mr_read_only_mounts r) ∧
  validate_resource_mount_uniqueness (mr_mounts r) (mr_read_only_mounts r) = Ok tt.
Proof.
  unfold parse_resources_section, written_rules.
  destruct (root !! "resources") as [value|]; [|done]. intros Hp. cbv zeta in Hp. inv_ok.
  destruct value as [| | | | |m0]; simplify_eq/=. case_match; simplify_eq/=.
  match goal with Ho : parse_resources_http_outbound _ = Ok _ |- _ =>
    apply outbound_section in Ho as [? Hout] end.
  match goal with Hv : validate_resource_mount_uniqueness _ _ = Ok ?u |- _ => destruct u end.
  split_and!; [by eapply args_accepted|done| |by eapply mount_entries_written|by eapply mount_entries_written|done].
  intros rule. rewrite Hout. naive_solver.
Qed.

Lemma resources_accepted root r m :
  parse_resources_section root assets = Ok (Some r) → resources_plain r →
  m_resources m = Some r → m_assets m = as_path <$> assets →
  ∃ rules, resolve_resources_config io release_dir m t =
    (t, Ok {| rr_args := mr_args r; rr_env := mr_env r;
              rr_mounts := ((mount_of release_dir false <$> mr_mounts r) ++
                            (mount_of release_dir true <$> mr_read_only_mounts r))%list;
              rr_http_outbound := rules; rr_resources := build_resource_map r |}) ∧
    ∀ rule, rule ∈ rules ↔ rules_of DEFAULT_WASI_HTTP_OUTBOUND rule ∨ written_rules root rule.
Proof.
  intros (Ha & Ho & Hw & Hm & Hmr & Hu)%resources_written (Henv & Hg & Hgr) Hr Hassets.
  destruct (outbound_accepted (mr_http_outbound r) "manifest.resources.http_outbound" Ho)
    as (rules & Hrules & Hin).
  exists rules. split; [|intros rule; by rewrite Hin, Hw].
  unfold resolve_resources_config, Tree.pure, mbind, fsm_bind. rewrite Hr, Ha.
  assert (forallb (λ key, negb (is_blank key)) (btree_keys (mr_env r)) = true) as ->.
  { apply forallb_forall. intros k Hk%list_elem_of_In. rewrite Forall_forall in Henv. by rewrite Henv. }
  cbn [ensure]. rewrite (asset_dirs_accepted assets) by done.
  rewrite mounts_accepted by done. by rewrite Hrules.
Qed.
End release.
End resources.

(** ** The component *)

(** [sha2] and [hex] print a digest as 64 hexadecimal digits. *)
Class DigestLaws `{Crates} : Prop := {
  sha256_hex_chars bs : all_chars is_ascii_hexdigit (sha256_hex bs) = true;
  sha256_hex_length bs : String.length (sha256_hex bs) = 64%nat;
}.

Section component.
Context `{DL : DigestLaws} (io : FsIo) (project_root source_main_path service_name : string).
Hypothesis Hname : validate_service_name service_name = Ok tt.

Definition wasm_name (content : list byte) : string :=
  sha256_hex content +:+ "-" +:+ service_name +:+ ".wasm".

Lemma wasm_name_chars content : all_chars is_name_char (wasm_name content) = true.
Proof.
  unfold wasm_name. rewrite !all_chars_app.
  assert (all_chars is_name_char service_name = true) as ->.
  { pose proof Hname as Hn. unfold validate_service_name in Hn. by inv_ok. }
  rewrite (all_chars_weaken is_ascii_hexdigit is_name_char (sha256_hex content)); [done| |apply sha256_hex_chars].
  intros c. unfold is_name_char, is_ascii_hexdigit, is_ascii_alphanumeric, is_ascii_digit, is_ascii_upper,
    is_ascii_lower. rewrite !orb_true_iff, !andb_true_iff, !N.leb_le. lia.
Qed.

Lemma wasm_name_proper content : proper (wasm_name content).
Proof.
  assert ("-"%char ∈ bytes_of (wasm_name content)) as Hd.
  { unfold wasm_name. rewrite !bytes_of_app. set_solver. }
  split_and!; [intros E; rewrite E in Hd; vm_compute in Hd; set_solver..|].
  by eapply all_chars_without; [apply wasm_name_chars|].
Qed.

Lemma wasm_name_not_prefixed content : windows_prefixed (wasm_name content) = false.
Proof.
  pose proof (wasm_name_chars content) as Hc. pose proof (sha256_hex_length content) as Hl.
  unfold wasm_name in *. destruct (sha256_hex content) as [|c1 [|c2 digest]]; [done|done|].
  change (bool_decide (c2 = ":"%char) = false). apply bool_decide_eq_false. intros ->.
  assert (is_name_char ":"%char = true); [|done].
  eapply all_chars_elem; [exact Hc|]. set_solver.
Qed.

Definition source : string := path_join project_root source_main_path.
Definition build_dir : string := path_join project_root "build".
Definition stored_at (content : list byte) : string := path_join build_dir (wasm_name content).

Lemma stored_key content : key (stored_at content) = (key build_dir ++ [wasm_name content])%list.
Proof. apply key_join_name, wasm_name_proper. Qed.

Lemma read_inv path t t' content :
  read io path t = (t', Ok content) → t' = t ∧ t !! key path = Some (File content).
Proof.
  unfold read, guarded. destruct (io_fault io OpRead (key path)); [done|].
  destruct (t !! key path) as [[]|]; naive_solver.
Qed.

Lemma metadata_same path t t' r : metadata io path t = (t', r) → t' = t.
Proof. unfold metadata, guarded. destruct (io_fault io OpMeta (key path)); naive_solver. Qed.

Lemma digest_inv path t t' digest :
  compute_sha256_hex io path t = (t', Ok digest) →
  t' = t ∧ ∃ content, t !! key path = Some (File content) ∧ digest = sha256_hex content.
Proof.
  unfold compute_sha256_hex. intros Hd. inv_cli.
  repeat match goal with Hm : metadata _ _ _ = _ |- _ => apply metadata_same in Hm as -> end.
  match goal with Hr : read _ _ _ = _ |- _ => apply read_inv in Hr as [-> ?] end. eauto.
Qed.

Lemma digest_same path t t' r : compute_sha256_hex io path t = (t', r) → t' = t.
Proof.
  unfold compute_sha256_hex, mbind, cli_bind, asked.
  destruct (metadata io path t) as [t1 r1] eqn:Em. apply metadata_same in Em as ->.
  destruct r1; cbn; [|by intros [= <- _]].
  unfold read, guarded. destruct (io_fault io OpRead (key path)); cbn; [by intros [= <- _]|].
  destruct (t !! key path) as [[]|]; cbn; by intros [= <- _].
Qed.

Lemma copy_inv from_ to_ t t' :
  copy io from_ to_ t = (t', Ok tt) →
  ∃ content, t !! key from_ = Some (File content) ∧ t' !! key to_ = Some (File content).
Proof.
  unfold copy. destruct (read io from_ t) as [t1 [content|]] eqn:Er; [|done].
  apply read_inv in Er as [-> Hc]. unfold write. intros Hw. exists content. split; [done|].
  destruct (t !! key to_) as [[c|]|]; [|done|];
    (destruct (has_parent (key to_) t); [|done]); (destruct (io_fault io OpWrite (key to_)); [done|]);
    injection Hw as <-; by rewrite lookup_insert_eq.
Qed.

(** What follows the digest: the steps that may change the tree. *)
Definition store (digest : string) : cli unit :=
  let destination := path_join build_dir (digest +:+ "-" +:+ service_name +:+ ".wasm") in
  found ← path_exists io destination;
  if found : bool then
    meta ← asked (metadata io destination) ("failed to inspect materialized wasm: " +:+ destination);
    _ ← told (ensure (is_file meta) ("materialized wasm path is not a file: " +:+ destination));
    existing_digest ← in_context ("failed to verify materialized wasm hash: " +:+ destination)
                        (compute_sha256_hex io destination);
    if bool_decide (existing_digest = digest) then mret tt
    else copy_materialized_wasm io source destination
  else copy_materialized_wasm io source destination.

Lemma materialize_unfold t :
  materialize_hashed_wasm io project_root source_main_path service_name t =
  (digest ← compute_sha256_hex io source;
   _ ← ensure_build_dir io project_root;
   _ ← store digest;
   mret (path_join "build" (digest +:+ "-" +:+ service_name +:+ ".wasm")) : cli string) t.
Proof.
  unfold materialize_hashed_wasm, ensure_build_dir, store, mbind, cli_bind. fold source build_dir.
  destruct (compute_sha256_hex io source t) as [t1 [digest|]]; [|done].
  destruct (asked _ _ t1) as [t2 [[]|]]; [|done]. cbn [mret cli_ret].
  destruct (path_exists io _ t2) as [t3 [[]|]]; done.
Qed.

Lemma exists_same path t : ∃ b, path_exists io path t = (t, Ok b).
Proof.
  unfold path_exists. destruct (metadata io path t) as [t1 r] eqn:Em.
  apply metadata_same in Em as ->. destruct r; eauto.
Qed.

Lemma copy_component_inv destination t t' u :
  copy_materialized_wasm io source destination t = (t', Ok u) →
  copy io source destination t = (t', Ok tt).
Proof. destruct u. apply asked_inv. Qed.

Lemma store_inv content t t' u :
  t !! key source = Some (File content) → store (sha256_hex content) t = (t', Ok u) →
  ∃ stored, t' !! key (stored_at content) = Some (File stored) ∧ sha256_hex stored = sha256_hex content.
Proof.
  intros Hs. unfold store. fold (wasm_name content) (stored_at content). unfold mbind at 1, cli_bind at 1.
  destruct (exists_same (stored_at content) t) as [found ->].
  assert (∀ t', copy_materialized_wasm io source (stored_at content) t = (t', Ok u) →
    ∃ stored, t' !! key (stored_at content) = Some (File stored) ∧ sha256_hex stored = sha256_hex content) as Hcopy.
  { intros t1 (c & Hc & ?)%copy_component_inv%copy_inv. rewrite Hs in Hc. injection Hc as <-. eauto. }
  destruct found; [|apply Hcopy]. intros Hr. inv_cli.
  repeat match goal with Hm : metadata _ _ _ = _ |- _ => apply metadata_same in Hm as -> end.
  match goal with Hd : compute_sha256_hex _ _ _ = _ |- _ => apply digest_inv in Hd as (-> & c & Hc & ->) end.
  case_bool_decide as Heq; [|by apply Hcopy]. inv_cli. eauto.
Qed.

Lemma copy_component_changed content t :
  changed_within (λ x, x = key (stored_at content)) nothing t
    (copy_materialized_wasm io source (stored_at content) t).1.
Proof.
  unfold copy_materialized_wasm, asked.
  pose proof (touches_copy io (λ x, x = key (stored_at content)) nothing source (stored_at content) eq_refl t) as Hc.
  by destruct (copy io source (stored_at content) t).
Qed.

Lemma store_changed content t :
  changed_within (λ x, x = key (stored_at content)) nothing t (store (sha256_hex content) t).1.
Proof.
  unfold store. fold (wasm_name content) (stored_at content). unfold mbind, cli_bind.
  destruct (exists_same (stored_at content) t) as [[] ->]; [|apply copy_component_changed].
  unfold asked at 1. destruct (metadata io (stored_at content) t) as [t1 r1] eqn:Em.
  apply metadata_same in Em as ->. destruct r1 as [meta|]; cbn; [|apply changed_refl].
  destruct (ensure _ _); [|apply changed_refl]. unfold in_context.
  destruct (compute_sha256_hex io (stored_at content) t) as [t1 r1] eqn:Ed.
  apply digest_same in Ed as ->. destruct r1 as [digest|]; cbn; [|apply changed_refl].
  case_bool_decide; [apply changed_refl|apply copy_component_changed].
Qed.

Lemma metadata_calm path t : calm io → metadata io path t = (t, ok_or (t !! key path) NotFoundError).
Proof. intros Hio. unfold metadata, guarded. by rewrite Hio. Qed.

Lemma digest_calm path content t :
  calm io → t !! key path = Some (File content) →
  compute_sha256_hex io path t = (t, Ok (sha256_hex content)).
Proof.
  intros Hio Hs. unfold compute_sha256_hex, mbind, cli_bind, asked, metadata, read, guarded.
  by rewrite !Hio, Hs.
Qed.

Lemma store_calm content t :
  calm io → t !! key source = Some (File content) → has_parent (key (stored_at content)) t = true →
  t !! key (stored_at content) ≠ Some Directory →
  ∃ t', store (sha256_hex content) t = (t', Ok tt).
Proof.
  intros Hio Hs Hp Hd. unfold store. fold (wasm_name content) (stored_at content).
  assert (∃ t', copy_materialized_wasm io source (stored_at content) t = (t', Ok tt)) as Hcopy.
  { unfold copy_materialized_wasm, asked, copy, read, guarded, write. rewrite Hio, Hs, Hp, Hio.
    destruct (t !! key (stored_at content)) as [[]|]; [by eexists|done|by eexists]. }
  unfold mbind, cli_bind, path_exists. rewrite metadata_calm by done.
  destruct (t !! key (stored_at content)) as [[c|]|] eqn:E; [|done|exact Hcopy].
  cbn [ok_or]. unfold asked at 1. rewrite metadata_calm, E by done. cbn.
  unfold in_context. rewrite (digest_calm (stored_at content) c) by done. cbn [with_context map_err].
  case_bool_decide; [by eexists|exact Hcopy].
Qed.

Lemma build_dir_created t t1 r :
  ensure_build_dir io project_root t = (t1, r) →
  changed_within nothing (λ x, under x (key build_dir)) t t1 ∧
  (calm io → open_way (key build_dir) t → r = Ok build_dir ∧ ∀ n, has_parent (key build_dir ++ [n])%list t1 = true).
Proof.
  unfold ensure_build_dir, mbind, cli_bind, asked, mret, cli_ret. fold build_dir. intros Hb.
  assert (touches nothing (λ x, under x (key build_dir)) (create_dir_all io build_dir)) as Ht
    by by apply touches_create_dir_all.
  specialize (Ht t). split.
  - destruct (create_dir_all io build_dir t) as [t2 [u|]]; cbn in Hb; by injection Hb as <- _.
  - intros Hc Hw. destruct (create_dir_Ok io build_dir t Hc Hw) as (t2 & E & _ & Hp).
    rewrite E in Hb. cbn in Hb. injection Hb as <- <-. done.
Qed.

Lemma file_kept P x content t t' :
  changed_within nothing P t t' → t !! x = Some (File content) → t' !! x = Some (File content).
Proof. intros Hc Hx. destruct (Hc x) as [[]|[->|(_ & E & _)]]; [done|]. by rewrite Hx in E. Qed.

Lemma changed_weaken (P C P' C' : list string → Prop) t t' :
  changed_within P C t t' → (∀ x, P x → P' x) → (∀ x, C x → C' x) → changed_within P' C' t t'.
Proof. intros Hc HP HC x. destruct (Hc x) as [?|[?|(? & ? & ?)]]; [left|right; left|right; right]; auto. Qed.

(** C16 (functional). The client stores the component of a service below [build] in a file named by the
    digest of its content, so that the name in the manifest says what the file holds: when it
    answers, the file holds bytes with that digest, also where a file of that name was
    left half written before.  It changes no other file, whatever call of the operating system
    fails; and when none does, it answers unless a file or a directory is in the way. *)
Theorem component_stored_by_digest content t t' r :
  t !! key source = Some (File content) →
  materialize_hashed_wasm io project_root source_main_path service_name t = (t', r) →
  changed_within (λ x, x = key (stored_at content)) (λ x, under x (key build_dir)) t t' ∧
  (∀ out, r = Ok out → out = path_join "build" (wasm_name content) ∧
     ∃ stored, t' !! key (stored_at content) = Some (File stored) ∧
       sha256_hex stored = sha256_hex content) ∧
  (calm io → open_way (key build_dir) t → t !! key (stored_at content) ≠ Some Directory →
   r = Ok (path_join "build" (wasm_name content))).
Proof.
  intros Hs. rewrite materialize_unfold. unfold mbind, cli_bind. intros Hm.
  destruct (compute_sha256_hex io source t) as [t0 r0] eqn:Ed. pose proof (digest_same _ _ _ _ Ed) as ->.
  destruct r0 as [digest|e].
  2: { injection Hm as <- <-. split_and!; [apply changed_refl|done|].
       intros Hc. rewrite (digest_calm source content) in Ed by done. done. }
  apply digest_inv in Ed as (_ & c & Hc & ->). rewrite Hs in Hc. injection Hc as <-.
  destruct (ensure_build_dir io project_root t) as [t1 r1] eqn:Eb.
  apply build_dir_created in Eb as [Hch Hcalm].
  assert (changed_within (λ x, x = key (stored_at content)) (λ x, under x (key build_dir)) t t1) as Hch1
    by (eapply changed_weaken; [exact Hch|by intros ? []|done]).
  pose proof (file_kept _ _ _ _ _ Hch Hs) as Hs1.
  destruct r1 as [dir|e].
  2: { injection Hm as <- <-. split_and!; [done|done|]. intros Hc Hw. by destruct (Hcalm Hc Hw). }
  pose proof (store_changed content t1) as Hst. destruct (store (sha256_hex content) t1) as [t2 r2] eqn:Est.
  assert (changed_within (λ x, x = key (stored_at content)) (λ x, under x (key build_dir)) t t2) as Hch2
    by (eapply changed_trans; [exact Hch1|]; eapply changed_weaken; [exact Hst|done|by intros ? []]).
  assert (t' = t2) as -> by by destruct r2; injection Hm as <- _.
  split; [done|]. split.
  - intros out ->. destruct r2 as [u|]; [|done]. injection Hm as <-. split; [done|].
    by eapply store_inv.
  - intros Hc Hw Hd. destruct (Hcalm Hc Hw) as [_ Hp].
    destruct (store_calm content t1) as [t3 E]; [done|done|by rewrite stored_key| |].
    + rewrite stored_key in Hd |- *.
      destruct (Hch (key build_dir ++ [wasm_name content])%list) as [[]|[->|((l & E) & _)]]; [done|].
      exfalso. apply (f_equal length) in E. rewrite !length_app in E. simpl in E. lia.
    + rewrite E in Est. injection Est as <- <-. by injection Hm as <-.
Qed.
End component.

(** ** From the project to the launch *)

Section project.
Context {JS : Json} `{BJ : !BuildJson} `{MC : !ManifestCrates} {CR : Crates} `{DL : !DigestLaws}.

(** The manifest of [build_project] as the node reads it: the JSON text the client writes is taken
    to be read back as the same manifest, without the target and the digest, which the launch does
    not use.  Dependencies and bindings come from the lock file. *)
Definition manifest_of (a : RunnerAppType) (s : ProjectSections) (e : EmittedSections)
    (bindings : list ManifestBinding) (dependencies : list PluginDependency) : Manifest :=
  {| m_name := ps_name s; m_main := es_main e; m_app_type := a; m_http := ps_http s;
     m_socket := ps_socket s; m_resources := es_resources e; m_assets := as_path <$> es_assets e;
     m_bindings := bindings; m_dependencies := dependencies; m_capabilities := ps_capabilities s;
     m_hash := {| mh_algorithm := "sha256"; mh_targets := [TargetWasm; TargetManifest; TargetAssets] |} |}.

Definition resources_of (e : EmittedSections) : ManifestResourcesConfig :=
  default {| mr_args := []; mr_env := ∅; mr_http_outbound := []; mr_mounts := [];
             mr_read_only_mounts := []; mr_extra := ∅ |} (es_resources e).

(** The few spellings that the client lets through and the node reads differently: a second
    character that is a colon, blanks at the end of a guest path, blank names of variables. *)
Definition plain (e : EmittedSections) : Prop :=
  assets_plain (es_assets e) ∧ resources_plain (resources_of e).

Lemma no_resources_no_rules root assets rule :
  parse_resources_section root assets = Ok None → ¬ written_rules root rule.
Proof.
  unfold parse_resources_section, written_rules.
  intros Hp (resources & array & raw & Hr & Ho & Hin & Hparse). rewrite Hr in Hp. cbv zeta in Hp. inv_ok.
  match goal with Ht : as_table (TTable _) = Some _ |- _ => injection Ht as <- end.
  match goal with Hc : parse_resources_http_outbound _ = Ok ?l |- _ =>
    rewrite Ho in Hc; apply outbound_section in Hc as [_ Hrules]; destruct (Hrules rule) as [_ Hw] end.
  destruct Hw as (v & Hv & _); [eauto|]. case_match eqn:Hempty; [|done].
  unfold resources_empty in Hempty. cbn [mr_http_outbound] in Hempty.
  repeat match goal with Hb : _ && _ = true |- _ => apply andb_true_iff in Hb as [Hb ?] end.
  repeat match goal with Hb : bool_decide (_ = []) = true |- _ =>
    apply bool_decide_eq_true in Hb; subst end.
  by apply not_elem_of_nil in Hv.
Qed.

(** What the node makes of the resources. *)
Lemma emitted_resources_accepted io release_dir root e m t :
  (∀ k, io_fault io OpMeta k = None) → Forall asset_normal (es_assets e) →
  parse_resources_section root (es_assets e) = Ok (es_resources e) → plain e →
  released release_dir (es_assets e) t → m_resources m = es_resources e →
  m_assets m = as_path <$> es_assets e →
  ∃ rules, resolve_resources_config io release_dir m t =
    (t, Ok {| rr_args := mr_args (resources_of e); rr_env := mr_env (resources_of e);
              rr_mounts := ((mount_of release_dir false <$> mr_mounts (resources_of e)) ++
                            (mount_of release_dir true <$> mr_read_only_mounts (resources_of e)))%list;
              rr_http_outbound := rules; rr_resources := build_resource_map (resources_of e) |}) ∧
    ∀ rule, rule ∈ rules ↔ rules_of DEFAULT_WASI_HTTP_OUTBOUND rule ∨ written_rules root rule.
Proof.
  intros Hio Hn Hp [Ha Hr] Hrel Hm Hassets. unfold resources_of in *.
  destruct (es_resources e) as [r|] eqn:E; [by eapply resources_accepted|].
  destruct (outbound_accepted [] "manifest.resources.http_outbound" (Forall_nil_2 _)) as (rules & Hrules & Hin).
  exists rules. split.
  - unfold resolve_resources_config, Tree.pure, mbind, fsm_bind. by rewrite Hm, Hrules.
  - intros rule. rewrite Hin. pose proof (no_resources_no_rules root (es_assets e) rule Hp).
    assert (¬ rules_of [] rule) by by intros (v & ?%not_elem_of_nil & _). tauto.
Qed.

Lemma read_sections_inv root s :
  read_sections root = Ok s →
  validate_service_name (ps_name s) = Ok tt ∧
  (∃ a, ps_app_type s = type_text a) ∧
  parse_http_section root (ps_app_type s) = Ok (ps_http s) ∧
  parse_socket_section root (ps_app_type s) = Ok (ps_socket s) ∧
  parse_root_capabilities root = Ok (ps_capabilities s).
Proof.
  unfold read_sections. intros H. inv_ok. cbn.
  match goal with Hv : validate_service_name _ = Ok ?u |- _ => destruct u end.
  split_and!; [done|by eapply app_type_known|done|done|done].
Qed.

Lemma emit_sections_inv io project_root root s t t' e :
  validate_service_name (ps_name s) = Ok tt →
  emit_sections io project_root root s t = (t', Ok e) →
  (∃ content, es_main e = wasm_name (ps_name s) content) ∧
  Forall asset_normal (es_assets e) ∧
  parse_resources_section root (es_assets e) = Ok (es_resources e).
Proof.
  intros Hname. unfold emit_sections. intros H. inv_cli. cbn.
  split_and!; [|by eapply assets_normal|done].
  match goal with Hm : materialize_hashed_wasm _ _ _ _ ?tm = _ |- _ =>
    rewrite materialize_unfold in Hm end.
  inv_cli. match goal with Hd : compute_sha256_hex _ _ _ = _ |- _ =>
    apply digest_inv in Hd as (_ & content & _ & ->) end.
  exists content. match goal with Hf : file_name _ = Some ?f |- _ => rename f into main; rename Hf into Hmain end.
  fold (wasm_name (ps_name s) content) in Hmain.
  pose proof (wasm_name_proper (ps_name s) Hname content) as Hp. pose proof (names_of_proper _ Hp) as Hn.
  assert (main = wasm_name (ps_name s) content) as ->.
  { unfold file_name in Hmain. rewrite components_join_names, Hn in Hmain;
      [|by destruct Hp|rewrite Hn; by constructor].
    cbn [fmap list_fmap] in Hmain. rewrite last_snoc in Hmain. by injection Hmain. }
  apply normal_path_text. split; [by destruct Hp|]. rewrite Hn. by constructor.
Qed.

(** C13 (refinement). What the client builds is what the node starts.  When the sections of a
    project's [imago.toml] were read and written into a manifest, with the resources of that file
    and with whatever bindings and dependencies the node accepts, and the component and the
    directories of the assets lie in the release, the node builds a launch from it, and the launch
    has exactly the name, type, addresses, arguments, variables, mounts and capabilities that the
    client wrote, and as outbound rules the default ones and those the project wrote.  The
    exceptions are spelled out by [plain]. *)
Theorem built_project_launches pio project_root root s t t' e nio storage_root release_hash release_dir
    bindings dependencies sb pd tr tr' component :
  read_sections root = Ok s → emit_sections pio project_root root s t = (t', Ok e) → plain e →
  (∀ k, io_fault nio OpMeta k = None) → released release_dir (es_assets e) tr →
  tr !! key (path_join release_dir (es_main e)) = Some (File component) →
  validate_bindings bindings = Ok sb →
  prepare_plugin_dependencies_for_root nio storage_root release_dir dependencies tr = (tr', Ok pd) →
  ∃ a rules, ps_app_type s = type_text a ∧
    (∀ bytes, validate_manifest_metadata (manifest_of a s e bindings dependencies) bytes None = Ok tt) ∧
    build_launch_from_release nio storage_root release_hash release_dir
      (manifest_of a s e bindings dependencies) tr =
    (tr', Ok {| sl_name := ps_name s; sl_release_hash := release_hash; sl_app_type := a;
                sl_http_port := mt_port <$> ps_http s;
                sl_http_listen_addr := mt_listen_addr <$> ps_http s;
                sl_http_max_body_bytes := mt_max_body_bytes <$> ps_http s;
                sl_socket := ps_socket s; sl_component_path := path_join release_dir (es_main e);
                sl_args := mr_args (resources_of e); sl_envs := mr_env (resources_of e);
                sl_wasi_mounts := ((mount_of release_dir false <$> mr_mounts (resources_of e)) ++
                  (mount_of release_dir true <$> mr_read_only_mounts (resources_of e)))%list;
                sl_wasi_http_outbound := rules;
                sl_resources := build_resource_map (resources_of e); sl_bindings := sb;
                sl_plugin_dependencies := pd; sl_capabilities := ps_capabilities s |}) ∧
    ∀ rule, rule ∈ rules ↔ rules_of DEFAULT_WASI_HTTP_OUTBOUND rule ∨ written_rules root rule.
Proof.
  intros (Hname & [a Ha] & Hhttp & Hsocket & Hcaps)%read_sections_inv He Hplain Hio Hrel Hmain Hb Hd.
  apply emit_sections_inv in He as ([content Hm] & Hassets & Hres); [|done].
  rewrite Ha in Hhttp, Hsocket. set (m := manifest_of a s e bindings dependencies).
  destruct (emitted_resources_accepted nio release_dir root e m tr) as (rules & Hr & Hrules); [done..|].
  exists a, rules. fold m. split_and!; [done| | |done].
  - intros bytes. unfold validate_manifest_metadata. cbn [m_name m manifest_of].
    by rewrite (service_name_accepted _ _ Hname).
  - pose proof (wasm_name_proper (ps_name s) Hname content) as Hp. rewrite Hm in Hmain.
    assert (normal_path (wasm_name (ps_name s) content)) as Hnp
      by (split; [by destruct Hp|rewrite (names_of_proper _ Hp); by constructor]).
    assert (m_main m = wasm_name (ps_name s) content) as Hmm by done.
    pose proof (http_accepted root a (ps_http s) m Hhttp eq_refl eq_refl) as Hh.
    pose proof (socket_accepted root a (ps_socket s) m Hsocket eq_refl eq_refl) as Hs.
    assert (m_name m = ps_name s ∧ m_app_type m = a ∧ m_bindings m = bindings ∧
      m_dependencies m = dependencies ∧ m_capabilities m = ps_capabilities s) as (Hmn & Hma & Hmb & Hmd & Hmc) by done.
    clearbody m. unfold build_launch_from_release, Tree.pure, Tree.lift, mbind, fsm_bind, normalize_main_path.
    rewrite Hm, Hmm, normal_path_accepted by (done || by apply wasm_name_not_prefixed).
    assert (path_starts_with (path_join release_dir (wasm_name (ps_name s) content)) release_dir = true) as ->.
    { apply bool_decide_eq_true. destruct Hnp. rewrite components_join_names by done. by apply prefix_app_r. }
    cbn [ensure]. unfold metadata, guarded. rewrite Hio, Hmain. cbn [ok_or map_err].
    rewrite Hr, Hmb, Hb, Hh, Hs, Hmd, Hd, Hmn, Hma, Hmc. by rewrite (capabilities_accepted root).
Qed.
End project.

(** ** Capability rules of the client and of the runner *)

(** Names of WIT: identifiers, packages, functions; the functions of resources have a bracketed
    tag. *)
Definition is_id_char (c : ascii) : bool := is_ascii_alphanumeric c || bool_decide (c = "-"%char).
Definition wit_id (s : string) : Prop := s ≠ "" ∧ all_chars is_id_char s = true.
Definition wit_package (s : string) : Prop := ∃ namespace name, s = namespace +:+ String ":" name ∧
  wit_id namespace ∧ wit_id name.
Definition wit_function (s : string) : Prop := wit_id s ∨ ∃ r, s = String "[" r.

(** The name under which a component imports an interface; the version starts with an at sign. *)
Definition import_of (package interface version : string) : string :=
  package +:+ "/" +:+ interface +:+ version.

Definition separators : list ascii := ["."; "/"; "#"]%char.

Lemma split_once_none sep s : split_once sep s = None ↔ sep ∉ bytes_of s.
Proof.
  induction s as [|c s IH]; cbn; [set_solver|]. case_decide as Hc; [subst; set_solver|].
  rewrite not_elem_of_cons. destruct (split_once sep s) as [[a b]|]; cbn; naive_solver.
Qed.

Lemma rule_split_none seps rule : rule_split seps rule = None ↔ Forall (λ c, c ∉ bytes_of rule) seps.
Proof.
  induction seps as [|c seps IH]; cbn; [split; [constructor|done]|].
  rewrite Forall_cons, <-split_once_none, <-IH. destruct (split_once c rule); naive_solver.
Qed.

(** The first separator comes after a text that has none. *)
Lemma rule_split_after seps s t a b :
  Forall (λ c, c ∉ bytes_of s) seps → rule_split seps (s +:+ t) = Some (a, b) → ∃ r, a = s +:+ r.
Proof.
  induction 1 as [|c seps Hc _ IH]; cbn; [done|].
  destruct (split_once c (s +:+ t)) as [[a' b']|] eqn:E; [|done]. intros [= -> ->].
  apply split_once_spec in E as [E Ha]. apply (f_equal bytes_of) in E.
  rewrite !bytes_of_app in E. apply app_eq_app in E as [l [[Hs Ht]|[Hs Ht]]].
  - destruct l as [|x l].
    + exists "". apply bytes_of_inj. rewrite bytes_of_app, Hs. by rewrite !app_nil_r.
    + exfalso. injection Ht as <- _. apply Hc. rewrite Hs. set_solver.
  - exists (string_of_bytes l). apply bytes_of_inj. by rewrite bytes_of_app, bytes_of_string_of_bytes.
Qed.

Lemma id_without c s : wit_id s → is_id_char c = false → c ∉ bytes_of s.
Proof. intros [_ Hs]. by apply all_chars_without. Qed.

Lemma package_facts package :
  wit_package package → ":"%char ∈ bytes_of package ∧ Forall (λ c, c ∉ bytes_of package) separators.
Proof.
  intros (namespace & name & -> & Hn & Hm). rewrite bytes_of_app. split; [set_solver|].
  repeat constructor; rewrite not_elem_of_app; (split; [by apply id_without|]);
    apply not_elem_of_cons; (split; [done|by apply id_without]).
Qed.

(** A rule that starts with a package is never one for an interface. *)
Lemma package_rule_refused package interface functions t :
  wit_package package → wit_id interface → trim (package +:+ t) = package +:+ t →
  Exists (λ c, c ∈ bytes_of t) separators →
  dependency_rule_allows_interface (package +:+ t) interface functions = false.
Proof.
  intros [Hcolon Hsep]%package_facts Hi Ht Hex. unfold dependency_rule_allows_interface. rewrite Ht.
  assert (∀ r, package +:+ r ≠ interface) as Hne.
  { intros r E. apply (id_without ":" interface Hi); [done|]. rewrite <-E, bytes_of_app. set_solver. }
  case_bool_decide as E1; [done|].
  rewrite (bool_decide_false (package +:+ t = "*")), (bool_decide_false (package +:+ t = interface)); [|done|].
  2: { intros E. apply (f_equal bytes_of) in E. rewrite bytes_of_app in E.
       assert (":"%char ∈ bytes_of "*") as Hin by (rewrite <-E; set_solver). vm_compute in Hin. set_solver. }
  cbn [orb]. destruct (rule_split _ (package +:+ t)) as [[a b]|] eqn:Es.
  - apply rule_split_after in Es as [r ->]; [|done]. by rewrite bool_decide_false.
  - apply rule_split_none in Es. exfalso. apply Exists_exists in Hex as (c & Hc & Hin).
    rewrite Forall_forall in Es. apply (Es c Hc). rewrite bytes_of_app. set_solver.
Qed.

Definition no_separator (s : string) : Prop := Forall (λ c, c ∉ bytes_of s) separators.

Lemma id_no_separator s : wit_id s → no_separator s.
Proof. intros Hs. repeat constructor; by apply id_without. Qed.

Lemma function_rule functions interface f :
  wit_id interface → wit_function f → f ∈ functions → trim f = f →
  dependency_rule_allows_interface f interface functions = true ↔ no_separator f.
Proof.
  intros Hi Hf Hin Ht. unfold dependency_rule_allows_interface. rewrite Ht.
  assert (f ≠ "") as Hne by (destruct Hf as [[? _]|[r ->]]; done).
  rewrite bool_decide_false by done. fold separators.
  destruct (rule_split separators f) as [[a b]|] eqn:Es.
  - assert (¬ no_separator f) as Hsep by (intros ?%rule_split_none; congruence).
    destruct Hf as [Hf|[r ->]]; [by destruct Hsep; apply id_no_separator|].
    assert (∀ u, String "[" u ≠ interface) as Hb.
    { intros u E. apply (id_without "[" interface Hi); [done|]. rewrite <-E. left. }
    change (String "[" r) with ("[" +:+ r) in Es.
    apply rule_split_after in Es as [u ->]; [|repeat constructor; vm_compute; set_solver].
    rewrite (bool_decide_false (String "[" r = "*")), (bool_decide_false (String "[" r = interface)),
      (bool_decide_false ("[" +:+ u = interface)); [by split|exact (Hb u)|exact (Hb r)|done].
  - apply rule_split_none in Es. split; [done|]. intros _. destruct (_ || _); [done|].
    by apply bool_decide_eq_true.
Qed.

Lemma scoped_rule_refused package interface version functions sep f :
  wit_package package → wit_id interface → sep ∈ ["."; "/"; "#"] →
  trim (import_of package interface version +:+ sep +:+ f) = import_of package interface version +:+ sep +:+ f →
  dependency_rule_allows_interface (import_of package interface version +:+ sep +:+ f) interface functions = false.
Proof.
  intros Hp Hi Hs. unfold import_of. rewrite <-!string_app_assoc. intros Ht.
  apply package_rule_refused; [done|done|done|]. apply Exists_exists. exists "/"%char.
  rewrite !bytes_of_app. set_solver.
Qed.

Lemma id_not_import package interface version s :
  wit_package package → wit_id interface → interface ≠ import_of package interface version +:+ s.
Proof.
  intros [Hc _]%package_facts Hi E. apply (id_without ":" interface Hi); [done|].
  rewrite E. unfold import_of. rewrite !bytes_of_app. set_solver.
Qed.

(** C15 (equivalence). The build checks the capability rules of a project against the interfaces its world
    imports, and the runner checks them again for every function it links.  A rule passes both
    checks for a function exactly when it is the wildcard or the plain name of the function.  A rule
    that names the interface, which the build takes as an allowance for it, is refused by the
    runner for all the functions of the interface. *)
Theorem capability_rules_in_common package interface version functions f rule :
  wit_package package → wit_id interface → wit_function f → f ∈ functions → trim f = f → trim rule = rule →
  (dependency_rule_allows_interface rule interface functions = true ∧
   rule_matches rule (import_of package interface version) f = true ↔
   rule = "*" ∨ rule = f ∧ no_separator f) ∧
  let policy := {| cap_privileged := false; cap_deps := {[package := [interface]]}; cap_wasi := ∅ |} in
  capability_policy_allows_dependency_interface policy package interface functions = true ∧
  (f ≠ interface →
   is_dependency_function_allowed policy package (import_of package interface version) f = false).
Proof.
  intros Hp Hi Hf Hin Htf Ht. split; [split|split].
  - unfold rule_matches. rewrite !orb_true_iff, !bool_decide_eq_true.
    intros [Hc [[[[->| ->]| ->]| ->]| ->]]; [by left| |exfalso..].
    + right. split; [done|]. by apply (function_rule functions interface f).
    + rewrite (scoped_rule_refused package) in Hc by (done || set_solver). done.
    + rewrite (scoped_rule_refused package) in Hc by (done || set_solver). done.
    + rewrite (scoped_rule_refused package) in Hc by (done || set_solver). done.
  - unfold rule_matches. rewrite !orb_true_iff, !bool_decide_eq_true.
    intros [->|[-> Hn]]; [by split; [|tauto]|]. split; [|tauto]. by apply function_rule.
  - unfold capability_policy_allows_dependency_interface. cbn [cap_privileged cap_deps].
    rewrite lookup_singleton_eq. cbn [existsb]. rewrite orb_false_r.
    unfold dependency_rule_allows_interface. rewrite trim_id.
    2: { apply graphic_no_whitespace. destruct Hi as [_ Hi]. eapply all_chars_weaken; [|exact Hi].
         intros c. unfold is_id_char, is_ascii_alphanumeric, is_ascii_digit, is_ascii_upper, is_ascii_lower,
           is_ascii_graphic. rewrite !orb_true_iff, !andb_true_iff, !N.leb_le, bool_decide_eq_true.
         intros [?| ->]; [lia|split; vm_compute; done]. }
    rewrite bool_decide_false by by destruct Hi. by rewrite (bool_decide_true (interface = interface)), orb_true_r.
  - intros Hne. unfold is_dependency_function_allowed, rules_for. cbn [cap_privileged cap_deps].
    rewrite lookup_singleton_eq. cbn [existsb orb]. rewrite orb_false_r. unfold rule_matches.
    rewrite !bool_decide_false; [done|by apply id_not_import..|done|].
    intros ->. destruct Hi as [_ Hi]. by vm_compute in Hi.
Qed.
