(* ===== verification/BuildDemo.v ===== *)
(** * A project, built and launched

    A concrete [imago.toml] with an asset, a mount and an outbound rule, the tree it is built in and
    the release the node unpacks, with concrete crates: the hypotheses of the theorems of
    [BuildTheorems] hold there. *)

From S2P Require Import Prelude Protocol Text IpAddr Ipc Supervisor Paths Tree TreeFacts Manifest Orchestrator Config ConfigTheorems BuildConfig OutboundNormal BuildTheorems.

Open Scope string_scope.
Open Scope Z_scope.

#[local] Instance json : Json :=
  {| JsonValue := nat; json_string := λ _, 0%nat; json_array := λ _, 1%nat; json_object := λ _, 2%nat |}.
#[local] Instance build_json : BuildJson :=
  {| json_integer := λ _, 3%nat; json_bool := λ _, 4%nat; json_other := λ _, None |}.
#[local] Instance manifest_crates : ManifestCrates :=
  {| manifest_from_json := λ _, Err "no manifest"; wasm_parse_all := λ _, [Ok PEnd] |}.

(** A digest that tells empty files from others. *)
Definition demo_digest (bs : list byte) : string :=
  string_of_bytes (replicate 64 (match bs with [] => "0" | _ => "1" end%char)).
#[local] Instance crates : Crates :=
  {| sha256_hex := demo_digest; uuid_to_string := λ u, to_string (Z.of_N u) |}.
#[local] Instance digest_laws : DigestLaws.
Proof. split; intros [|]; reflexivity. Qed.

Definition build_io : FsIo := {| io_fault _ _ := None; io_torn := 0 |}.

Definition wasm : list byte := ["w"; "a"]%char.
Definition project : tree :=
  list_to_map [(["p"], Directory); (["p"; "app.wasm"], File wasm); (["p"; "www"], Directory);
               (["p"; "www"; "a"], File [])].

Lemma project_files k content : project !! k = Some (File content) → k = ["p"; "app.wasm"] ∨ k = ["p"; "www"; "a"].
Proof.
  intros Hk%elem_of_list_to_map_2. repeat (apply elem_of_cons in Hk as [Hk|Hk]; [simplify_eq; by auto|]).
  by apply not_elem_of_nil in Hk.
Qed.

Lemma web_named : validate_service_name "web" = Ok tt.
Proof. reflexivity. Qed.

Lemma component_stored_by_digest_witness :
  ∃ t' stored, materialize_hashed_wasm build_io "p" "app.wasm" "web" project
      = (t', Ok (path_join "build" (wasm_name "web" wasm))) ∧
    t' !! key (stored_at "p" "web" wasm) = Some (File stored) ∧ sha256_hex stored = sha256_hex wasm.
Proof.
  destruct (materialize_hashed_wasm build_io "p" "app.wasm" "web" project) as [t' r] eqn:E.
  destruct (component_stored_by_digest build_io "p" "app.wasm" "web" web_named wasm project t' r)
    as (_ & Hok & Hcalm); [reflexivity|exact E|].
  assert (r = Ok (path_join "build" (wasm_name "web" wasm))) as ->.
  { apply Hcalm; [by intros op k| |].
    - intros d content [l Hl] Hd%project_files. destruct Hd as [-> | ->]; discriminate Hl.
    - intros Hd. apply elem_of_list_to_map_2 in Hd.
      repeat (apply elem_of_cons in Hd as [Hd|Hd]; [discriminate Hd|]). by apply not_elem_of_nil in Hd. }
  destruct (Hok _ eq_refl) as (_ & stored & ? & ?). exists t', stored. done.
Defined.

Lemma capability_rules_in_common_witness :
  let import := import_of "test:example" "api" "@0.1.0" in
  let policy := {| cap_privileged := false; cap_deps := {["test:example" := ["api"]]}; cap_wasi := ∅ |} in
  ¬ (dependency_rule_allows_interface "api.invoke" "api" {["invoke"]} = true ∧
     Plugins.rule_matches "api.invoke" import "invoke" = true) ∧
  capability_policy_allows_dependency_interface policy "test:example" "api" {["invoke"]} = true ∧
  Plugins.is_dependency_function_allowed policy "test:example" import "invoke" = false.
Proof.
  destruct (capability_rules_in_common "test:example" "api" "@0.1.0" {["invoke"]} "invoke" "api.invoke")
    as (Hiff & Hclient & Hrunner); [by exists "test", "example"|done|by left; split|set_solver|reflexivity|reflexivity|].
  split_and!; [by intros [?|[? _]]%Hiff|done|by apply Hrunner].
Defined.

Definition demo_root : table :=
  <["name" := TString "web"]> (<["main" := TString "app.wasm"]> (<["type" := TString "cli"]>
  (<["assets" := TArray [TTable {["path" := TString "./www/a"]}]]>
  {["resources" := TTable (<["http_outbound" := TArray [TString "10.1.2.3/8"]]>
     {["mounts" := TArray [TTable (<["asset_dir" := TString "www"]> {["guest_path" := TString "/w/"]})]]})]}))).

Definition sections : ProjectSections :=
  {| ps_command := None; ps_wit_world := None; ps_name := "web"; ps_source_main_path := "app.wasm"; ps_app_type := "cli";
     ps_http := None; ps_socket := None; ps_restart_policy := "never";
     ps_capabilities := {| cap_privileged := false; cap_deps := ∅; cap_wasi := ∅ |} |}.

Definition emitted : EmittedSections :=
  {| es_main := wasm_name "web" wasm;
     es_assets := [{| as_path := "www/a"; as_extra := ∅; as_source_path := "www/a" |}];
     es_resources := Some {| mr_args := []; mr_env := ∅; mr_http_outbound := ["10.0.0.0/8"];
       mr_mounts := [{| mw_asset_dir := "www"; mw_guest_path := "/w" |}];
       mr_read_only_mounts := []; mr_extra := ∅ |} |}.

Lemma sections_read : read_sections demo_root = Ok sections.
Proof. vm_compute. reflexivity. Qed.

Lemma sections_emitted :
  ∃ t', emit_sections build_io "p" demo_root sections project = (t', Ok emitted).
Proof.
  assert ((emit_sections build_io "p" demo_root sections project).2 = Ok emitted) as E
    by (vm_compute; reflexivity).
  destruct (emit_sections build_io "p" demo_root sections project) as [t' r]. exists t'. by rewrite <-E.
Qed.

Definition release : tree :=
  list_to_map [(["r"; wasm_name "web" wasm], File wasm); (["r"; "www"], Directory)].

Lemma built_project_launches_witness :
  ∃ launch rules, build_launch_from_release build_io "v" "h" "r" (manifest_of Cli sections emitted [] []) release
      = (release, Ok launch) ∧
    sl_wasi_http_outbound launch = rules ∧ Cidr (V4 (10 * 2 ^ 24)) 8 ∈ rules.
Proof.
  destruct sections_emitted as [t' He].
  destruct (built_project_launches build_io "p" demo_root sections project t' emitted build_io "v" "h" "r"
    [] [] [] [] release release wasm) as (a & rules & Ha & _ & Hl & Hr).
  - exact sections_read.
  - exact He.
  - split; [by repeat constructor|]. split_and!; [constructor|by repeat constructor|constructor].
  - done.
  - by repeat constructor.
  - reflexivity.
  - reflexivity.
  - reflexivity.
  - destruct a; try discriminate Ha. eexists _, rules. split; [exact Hl|]. split; [reflexivity|].
    apply Hr. right. eexists _, _, "10.1.2.3/8". split_and!; [reflexivity|reflexivity|left|reflexivity].
Defined.
